(* ===== verification/_CoqProject ===== *)
-Q . S2P
Prelude.v
Text.v
Slices.v
Rows.v
Domain.v
EventKeys.v
Identity.v
Graph.v
Resolver.v
Recent.v
Store.v
Pipeline.v
Floats.v
Execution.v
Source.v
Outbox.v
CostBasis.v
Fifo.v
Wallets.v
Decimals.v
Queues.v
Json.v
Helius.v
Portfolio.v
Lifecycle.v
Models.v
Labels.v
Clusters.v
FundingRadar.v
Chains.v
Migrations.v
Evidence.v
Ingest.v
Discovery.v
Scoring.v
Signals.v
Workers.v
TelegramParse.v
TelegramIngest.v
Auth.v
Gmgn.v
Idempotency.v
Runtimes.v
Replay.v
Narrative.v
Health.v
Config.v
Admin.v
Views.v
CaseMerge.v
Startup.v
Cli.v
Dispatch.v
Decision.v
