(* ===== verification/Prelude.v ===== *)
(** * Signal Forge: a verification development

    The program (src/src/) is a Rust service that watches token launches: it
    collects on-chain and social evidence, relates tokens by their actors,
    keeps an append-only event timeline, scores and gates signals, delivers
    alerts, and supervises an execution engine.  The pure decision logic is in
    src/src/sf/*_runtime.rs on the frozen types of src/src/sf/*.rs; the store,
    the pipeline and the alert outbox are SQL programs whose statements are
    modelled as transitions of a table.  This file is the shared prelude: the
    notations, tactics, hints, machine integers, lists, sorting and orders that
    the other files use.

    ** Files, and the code each one models

    Shared vocabulary:
    - Text.v: byte strings; [trim], ASCII case, [split_once], the
      length-prefixed framing and the canonical (sorted, deduplicated) sets
      that event keys hash.  Slices.v: slices by bytes, which may panic.
    - Rows.v: tables as lists of rows with a conflict key.
    - Floats.v: binary64 on the Standard Library's executable IEEE 754
      specification.  Decimals.v: the literals, conversions and products of
      rust_decimal, as a class over [CostBasis.Decimal], and interval bounds.
      Json.v: serde_json values, as an interface and an instance for examples.
    - Domain.v: the enums and structs of sf/core.rs, graph.rs, token.rs,
      browser.rs, execution.rs and recent.rs.  Models.v: models.rs, the enums
      of the legacy tables with their names.

    Recent intelligence (sf/):
    - EventKeys.v: recent_pipeline.rs, the relation and coverage event keys
      and the two older generations of them.
    - Identity.v: recent_runtime.rs, [normalize_identity], the canonical
      joins ([same_wallet] and its kin) and store-bound immutability.
    - Graph.v: graph_runtime.rs.
    - Resolver.v: recent_runtime.rs, [resolve_candidates]: four loops that
      emit into one output through one dedupe set, then a sort.
    - Recent.v: recent_runtime.rs, timelines, dependency roots, retraction,
      coverage, the lookup trigger and query, social classification.
    - Store.v: recent_store.rs over the table recent_events, a list of rows
      in serial order under a unique (workspace, event id) index.
    - Pipeline.v: recent_pipeline.rs, [run_for_anchor]: resolve, append,
      disclose coverage.  It calls Resolver.v, EventKeys.v and Store.v the way
      the code does.

    Engine, accounting and runtimes (sf/):
    - Execution.v: intent.rs, execution_runtime.rs, autonomy_runtime.rs: the
      intent state machine, kill switches, signer policy, autonomy gate.
    - Decision.v: decision_runtime.rs.  Source.v: source.rs,
      source_health_runtime.rs.
    - CostBasis.v: cost_basis.rs, FIFO lots.  Fifo.v: the exact matching they
      are compared with.  Wallets.v: wallet_runtime.rs, what is reported of a
      wallet.  Portfolio.v: portfolio_runtime.rs, exposure and its union-find.
    - Lifecycle.v: strategy_runtime.rs, token_runtime.rs, revival_runtime.rs,
      narrative_runtime.rs.
    - Idempotency.v: ingest_runtime.rs and core.rs, the stages of one payload
      and the keys that make it idempotent.
    - Runtimes.v: the caller, liquidity, browser, dashboard and authorisation
      runtimes, one Module each.

    Wallet intelligence, on tables of rows:
    - Labels.v: filter.rs and the label tables of db.rs: how a wallet's
      disposition is read, written, imported and revoked.
    - Clusters.v: graph.rs, evidence edges, their binary64 confidence, the
      clusters rebuilt from them, wallet traces.
    - FundingRadar.v: funding_radar.rs, cases, their evidence and stages.
    - Scoring.v: scoring.rs and score_wallet of workers.rs.
    - Evidence.v: db.rs and maintenance.rs, the raw events, transfers, trades,
      cursors and snapshots with their conflict keys, and their retention.

    Collection:
    - Helius.v: helius.rs, token buckets, the breaker of a key, the fair choice
      of a key and the retry loop of a request.  Gmgn.v: gmgn.rs, the weighted
      bucket and the query loop.
    - Chains.v: chains.rs, the normalisation of Helius payloads and of EVM
      blocks, the Robinhood adapter and its transport.
    - Ingest.v: ingest.rs and the two chain loops of workers.rs, on Evidence.v,
      Chains.v, Helius.v, Labels.v and Clusters.v.
    - TelegramParse.v, TelegramIngest.v: telegram_parse.rs, telegram_ingest.rs
      and the polling of telegram_client.rs; the store of messages is an
      interface with the database and the in-memory implementation.
    - Narrative.v: narrative.rs.
    - Queues.v: queues.rs and the queue check of workers.rs.
    - Discovery.v: the discovery pass of workers.rs and the Recent worker it
      calls, on Clusters.v and Pipeline.v.

    Signals and alerts:
    - Signals.v: signals.rs, the entry and exit gates and the rows they write
      under a claim (taken in workers.rs); sf/signal_gate.rs, the pure gate.
    - Workers.v: workers.rs, the facts of a token and the pass over the due
      tokens, on Labels.v, Clusters.v, Scoring.v, Evidence.v and Signals.v.
    - Outbox.v: signals.rs, the alert outbox: claim, completion, failure.  The
      two statements of [claim_alert] are separate steps, so the calls of any
      number of dispatchers interleave between them.
    - Dispatch.v: alerts.rs and the two passes of workers.rs that deliver
      alerts, on Outbox.v, Signals.v and FundingRadar.v.
    - Replay.v: replay.rs, the tables as they stood at an instant.

    Operation:
    - Config.v: config.rs, the sections with their defaults, the environment
      and [Settings::load].
    - Auth.v: auth.rs and the login and guards of admin.rs and api.rs.
    - Admin.v: the handlers of admin.rs that change a table, the secret store
      and the settings.  Views.v: the read views of api.rs and admin.rs.
      Health.v: health.rs.
    - Migrations.v: db.rs, the ledger of applied migrations, the migrator and
      the verifier.  CaseMerge.v: the three repairs db.rs makes before it
      migrates, which instantiate the parameter of Migrations.v.
    - Startup.v: main.rs and the start of db.rs: which bundle, which pool,
      which verdict, which tasks, and the webhook.  Cli.v: the commands of
      main.rs over the tables of the other files.

    ** What the theorems show

    - Publishing: keys of events are injective up to a digest collision and
      generations never mix; an append is atomic and idempotent; a run of the
      pipeline publishes only honest, scoped rows, discloses every coverage
      gap, and a retry of it changes nothing.
    - Resolution: [resolve_candidates] refines a declarative relation; an
      [Exact] or [Reconstructed] confidence is always backed by the edges that
      earn it; identities are canonical.
    - Reading: relations are the current, unretracted ones; the timeline keeps
      its coverage row, and is chronological; retraction archives; a replay at
      an instant never looks past it.
    - Delivery: over every interleaving the attempts of an alert are capped,
      its lease is exclusive, finished rows are final; across passes and
      dispatchers a recorded delivery is never sent again, messages stay in
      their tenant, a lost announcement is recovered.
    - Signals: an evaluation is fenced and all-or-nothing; over every
      interleaving a claim buys at most one evaluation; the two entry gates
      agree; a signal is accepted only on buyers the policy lets count; a
      decision is approved only on complete evidence; scores are bounded.
    - Control: every run of an intent passes all gates once and ends; kill
      switches and the autonomy gate fail closed; provider choice is
      deterministic; stages of strategies, tokens, revivals and narratives are
      earned in order.
    - Accounting: on swaps that fit the decimal type FIFO matching is the exact
      oldest-first one, its quantities exactly and its dollars up to the
      rounding of their operations; a wallet's report is of its own positions
      and of the token it traded most; exposure sums and correlation groups
      are the specified ones.
    - Wallets: a disposition is the least permissive of the prevailing labels
      and other tenants cannot change it; a rebuild only merges clusters and
      keeps one active membership per wallet; radar cases only move forward.
    - Evidence: ingestion only adds rows, stores the raw payload before it
      normalises it, and normalised events are well formed; retention deletes
      expired rows only; a request of Helius ends after its retries; a block is
      fetched once as long as the cursor is read and written; a payload is a
      duplicate exactly when its key was committed.
    - Channels: a parsed message has exactly its addresses, links and claims;
      the database store refines the reference store in memory.
    - Tenants and sessions: guesses are throttled, a live session was earned by
      a password; labels change only in the workspace of a live session; the
      scoped views of one tenant do not depend on another's rows; a secret is
      read back as it was set.
    - Schema: what the migrator leaves, the verifier accepts, in the reviewed
      order whatever fails; the repairs before it merge duplicate cases without
      losing a group, an event or the fact that an alert was sent.
    - Start and commands: the override of the migrations is the launcher's, a
      directory is read whole or not at all, [run] and every command fail
      closed on another schema; a command evaluates only on a claim of its own
      and gives it back; the leaderboard ranks the latest scores.
    - Defects and divergences that modelling showed are theorems too:
      [Recent.dependency_cycle_diverges], [Resolver.first_edge_decides_confidence],
      [Resolver.reused_link_returns_anchor], [Lifecycle.provenance_ignores_run],
      [Scoring.partial_sells_overcharge], [Workers.stored_scores_never_signal],
      [Helius.waiting_unmetered], [Gmgn.pause_grants_tokens],
      [Gmgn.query_endless], [Ingest.sync_never_pages],
      [Ingest.redelivery_counts_again], [Ingest.loop_opens_no_case],
      [Ingest.unread_cursor_restarts],
      [Chains.large_value_dropped], [Chains.payload_decimals_panic],
      [Dispatch.radar_pass_starves], [Discovery.recent_worker_only_discloses],
      [FundingRadar.refunding_dismissed_fails], [Replay.paper_horizons_coincide],
      [Narrative.evidence_accumulates], [Auth.forged_forwarding_unlimited],
      [Health.failed_counts_read_as_empty], [Config.robinhood_defaults_differ],
      [Admin.save_not_atomic], [Admin.four_bytes_shown],
      [Views.radar_cases_unscoped], [Views.null_code_fails_the_panel],
      [CaseMerge.collision_blocks_the_migrations],
      [Startup.robinhood_switch_ignored], [Cli.radar_list_unscoped],
      [Cli.replay_ignores_its_time].

    ** Conventions

    A [String] is a Rocq [string] of its UTF-8 bytes; a machine integer is a [Z]
    with its wrap-around, saturation or range written out; an instant is its
    nanoseconds since the epoch; a hash map whose iteration order the code
    observes takes that order as an argument, and the theorems hold for every
    order.  An [Option] or [Result] is [option] or a sum; a panic or exhausted
    fuel is [None], and theorems state that it does not happen; where the code
    can both fail and panic the result is an [outcome].  A statement that may
    fail on its own is an argument of the handler: an absent clock or a [false],
    by its position.  Error texts are reduced to the phrase that tells them
    apart.

    Fuel: [Recent.find_root] recurses without a bound in the code; [S (size
    parent)] calls are enough exactly when no walk is cyclic.
    [CostBasis.consume] gets [S (length lots)]: each iteration but the last
    closes a lot.  The loops of [Portfolio.uf_find] get the number of lines:
    parent pointers only go to later lines.

    [Helius.request_loop] gets one unit per attempt the configuration allows,
    [Evidence.prune_batches] its own constant number of batches.
    [Gmgn.query_loop] is unbounded in the code: [Gmgn.query_endless] and
    [Gmgn.dear_route_starves] say when no fuel is enough.

    Parameters, for code that is not in the repository: [sha256_hex] (sha2),
    [bcrypt_verify] (bcrypt), [aes_encrypt] and [aes_decrypt] (aes-gcm), base64
    and hex, [url_host] (url), [parse_rfc3339] and [rfc3339] (chrono), [bs58]
    (base58), the decimal type (rust_decimal: the operations are the classes
    [CostBasis.Decimal] and [Decimals.DecimalNum], and what it documents of
    them [CostBasis.DecimalSpec] and [Decimals.DecimalNumSpec]: a result that
    fits 96 bits and 28 places is exact, another in range is rounded to a
    neighbour, and nothing is said where it panics; the theorems give the
    bounds on their inputs under which it does not), the values of serde_json (the class of Json.v) and of toml (the
    class of Config.v), the Unicode tables of [to_lowercase], UTF-8 validity of
    bytes, the answers of providers, nodes, the MTProto client and the Bot API,
    the listing of a directory, which URL is valid and which server it reaches,
    the clock at each statement, the collation and ILIKE of the database, its
    bigint input ([pg_int8]), what else its columns refuse ([accepts],
    [accepts_signal], [accepts_evaluation], [accepts_raw], [accepts_message],
    [numeric]) and who owns a funding case ([owns_case]).

    ** Not modelled

    - sf/jobs.rs and the argument structures of main.rs: data declarations
      without operations.
    - The routing of axum, the HTML of the panel, the JSON of a row, the
      printing of a report and logging: output around modelled answers.
    - The connection itself (options, pools, TLS), the MTProto session and its
      interactive login, the sockets of the servers, the timers and spawning of
      tokio: input and output of libraries.  What is started, with which
      interval, is in Startup.v; what one tick does is in the file of its loop.
    - hash-password and token discover, which call bcrypt and a pass of
      Discovery.v; [percentile_threshold], [funding_watch] and
      [summarize_exit_gates], which nothing calls; the fixtures of
      pg_test_support.rs and every test.
    - The SQL of the migration files: executing one is a parameter. *)
From stdpp Require Export base tactics numbers list list_numbers sorting strings pretty gmap finite.
From stdpp Require Import options.
From Stdlib Require Export Lia ZArith.

(** ** Notations and automation of the development *)

Declare Scope forge_scope.
Delimit Scope forge_scope with forge.

(** Rust's [Option::and_then] (the [?] operator of the functions that return
    an [Option]). *)
Notation "'let?' x := e 'in' k" :=
  (match e with Some x => k | None => None end)
  (at level 10, x pattern, e at level 100, k at level 200) : forge_scope.
Open Scope forge_scope.

Create HintDb forge.

(** Case analysis on every [if] and [match] of the goal and the context. *)
Ltac split_cases :=
  repeat (case_match || case_decide; simplify_eq/=).

(** The boolean connectives of the code as propositions. *)
Ltac bool_prop :=
  repeat match goal with
  | H : (_ && _)%bool = true |- _ => apply andb_prop in H; destruct H
  | H : (_ || _)%bool = false |- _ => apply orb_false_elim in H; destruct H
  | H : negb _ = true |- _ => apply negb_true_iff in H
  | H : negb _ = false |- _ => apply negb_false_iff in H
  | H : bool_decide _ = true |- _ => apply bool_decide_eq_true in H
  | H : bool_decide _ = false |- _ => apply bool_decide_eq_false in H
  end.

(** ** Machine integers

    A Rust integer is a [Z]; the operations of the source whose result can
    leave the range of its type are written out with the wrap-around of the
    release profile (Cargo.toml sets no [overflow-checks]) or with the
    saturation the source asks for. *)

Definition u8_max : Z := 2 ^ 8 - 1.
Definition u32_max : Z := 2 ^ 32 - 1.
Definition u64_max : Z := 2 ^ 64 - 1.
Definition i64_min : Z := - 2 ^ 63.
Definition i64_max : Z := 2 ^ 63 - 1.

Definition is_u32 (z : Z) : Prop := (0 <= z <= u32_max)%Z.
Definition is_u64 (z : Z) : Prop := (0 <= z <= u64_max)%Z.
Definition is_i64 (z : Z) : Prop := (i64_min <= z <= i64_max)%Z.

(** Two's complement wrap-around of [i64] arithmetic. *)
Definition wrap_i64 (z : Z) : Z := ((z + 2 ^ 63) mod 2 ^ 64 - 2 ^ 63)%Z.
Definition wrap_u32 (z : Z) : Z := (z mod 2 ^ 32)%Z.
Definition wrap_u64 (z : Z) : Z := (z mod 2 ^ 64)%Z.
Definition wrap_i32 (z : Z) : Z := ((z + 2 ^ 31) mod 2 ^ 32 - 2 ^ 31)%Z.

Lemma wrap_i32_id z : (- 2 ^ 31 <= z < 2 ^ 31)%Z → wrap_i32 z = z.
Proof. intros Hz. unfold wrap_i32. rewrite Z.mod_small by lia. lia. Qed.

(** [u8::saturating_sub]. *)
Definition sat_sub (a b : Z) : Z := Z.max 0 (a - b).

Lemma wrap_i64_id z : is_i64 z → wrap_i64 z = z.
Proof.
  unfold is_i64, wrap_i64, i64_min, i64_max. intros H.
  rewrite Z.mod_small; lia.
Qed.

Lemma wrap_i64_range z : is_i64 (wrap_i64 z).
Proof.
  unfold is_i64, wrap_i64, i64_min, i64_max.
  pose proof (Z.mod_pos_bound (z + 2 ^ 63) (2 ^ 64)). lia.
Qed.

Lemma wrap_u32_id z : is_u32 z → wrap_u32 z = z.
Proof. unfold is_u32, wrap_u32, u32_max. intros H. apply Z.mod_small. lia. Qed.

#[export] Hint Resolve wrap_i64_range : forge.

(** ** Lists *)

(** [Vec::contains]. *)
Definition contains `{EqDecision A} (x : A) (l : list A) : bool :=
  bool_decide (x ∈ l).

(** [Iterator::find]. *)
Fixpoint find_first {A} (p : A → bool) (l : list A) : option A :=
  match l with
  | [] => None
  | x :: l => if p x then Some x else find_first p l
  end.

(** [Vec::dedup]: drop every element equal to the one kept before it. *)
Fixpoint dedup_from `{EqDecision A} (x : A) (l : list A) : list A :=
  match l with
  | [] => []
  | y :: l => if decide (x = y) then dedup_from x l else y :: dedup_from y l
  end.

Definition dedup `{EqDecision A} (l : list A) : list A :=
  match l with [] => [] | x :: l => x :: dedup_from x l end.

Lemma existsb_exists_elem {A} (p : A → bool) l :
  existsb p l = true ↔ ∃ x, x ∈ l ∧ p x = true.
Proof. rewrite existsb_exists. by setoid_rewrite list_elem_of_In. Qed.

Lemma existsb_false_elem {A} (p : A → bool) l :
  existsb p l = false ↔ ∀ x, x ∈ l → p x = false.
Proof.
  rewrite <-not_true_iff_false, existsb_exists_elem. split.
  - intros H x Hx. destruct (p x) eqn:E; [|done]. exfalso. eauto.
  - intros H (x & Hx & E). rewrite H in E; done.
Qed.

Lemma forallb_forall_elem {A} (p : A → bool) l :
  forallb p l = true ↔ ∀ x, x ∈ l → p x = true.
Proof. rewrite forallb_forall. by setoid_rewrite list_elem_of_In. Qed.

Lemma elem_of_take_l {A} n (l : list A) x : x ∈ take n l → x ∈ l.
Proof. intros H. rewrite <-(take_drop n l). apply elem_of_app. by left. Qed.

Lemma elem_of_lfilter {A} (p : A → bool) l x : x ∈ List.filter p l ↔ x ∈ l ∧ p x = true.
Proof. by rewrite !list_elem_of_In, filter_In. Qed.

Lemma find_first_Some {A} (p : A → bool) l x :
  find_first p l = Some x → x ∈ l ∧ p x = true.
Proof.
  induction l as [|y l IH]; simpl; [done|]. destruct (p y) eqn:E; [|set_solver].
  intros [= <-]. split; [set_solver|done].
Qed.

Lemma filter_none {A} (p : A → bool) l :
  (∀ x, x ∈ l → p x = false) → List.filter p l = [].
Proof.
  induction l as [|x l IH]; intros H; simpl; [done|].
  rewrite H by left. apply IH. intros y Hy. apply H. by right.
Qed.

Lemma filter_conj {A} (p q : A → bool) l : List.filter p (List.filter q l) = List.filter (λ x, q x && p x) l.
Proof. induction l as [|x l IH]; [done|]. cbn. destruct (q x); cbn; [destruct (p x); by rewrite IH|done]. Qed.

Lemma filter_map_comm {A B} (f : A → B) (p : B → bool) l : List.filter p (f <$> l) = f <$> List.filter (λ x, p (f x)) l.
Proof. induction l as [|x l IH]; [done|]. cbn. destruct (p (f x)); cbn; by rewrite IH. Qed.

Lemma filter_same {A} (p q : A → bool) l : (∀ x, x ∈ l → p x = q x) → List.filter p l = List.filter q l.
Proof.
  induction l as [|x l IH]; intros H; [done|]. cbn. rewrite (H x) by left. rewrite IH; [done|]. intros y Hy. apply H. by right.
Qed.

Lemma find_first_None {A} (p : A → bool) l :
  find_first p l = None ↔ ∀ x, x ∈ l → p x = false.
Proof.
  induction l as [|y l IH]; simpl; [set_solver|].
  destruct (p y) eqn:E; split.
  - done.
  - intros H. rewrite H in E; [done|set_solver].
  - intros H x [->|Hx]%elem_of_cons; [done|]. by apply IH.
  - intros H. apply IH. set_solver.
Qed.

Lemma StronglySorted_weaken {A} (R S : A → A → Prop) l :
  (∀ x y, R x y → S x y) → StronglySorted R l → StronglySorted S l.
Proof.
  intros H. induction 1 as [|x l Hl IH Hx]; constructor; [done|].
  eapply Forall_impl; [exact Hx|]. auto.
Qed.

Lemma filter_perm {A} (f : A → bool) l k : l ≡ₚ k → List.filter f l ≡ₚ List.filter f k.
Proof.
  induction 1 as [|x l k _ IH|x y l|l1 l2 l3 _ IH1 _ IH2]; simpl; [done|..].
  - destruct (f x); by rewrite IH.
  - destruct (f x), (f y); done || constructor.
  - by rewrite IH1.
Qed.

(** The sum of a list. *)
Definition zsum (l : list Z) : Z := foldr Z.add 0%Z l.

Lemma zsum_app l k : zsum (l ++ k) = (zsum l + zsum k)%Z.
Proof. unfold zsum. induction l as [|x l IH]; simpl in *; lia. Qed.

#[export] Instance zsum_Permutation : Proper ((≡ₚ) ==> (=)) zsum.
Proof. unfold zsum. induction 1; simpl in *; lia. Qed.

(** ** Stable sorting

    Rust's [slice::sort_by] and [sort_by_key] are stable; the model is an
    insertion sort over the comparison "not greater". *)
Section stable_sort.
Context {A : Type} (leb : A → A → bool).

Fixpoint sort_insert (x : A) (l : list A) : list A :=
  match l with
  | [] => [x]
  | y :: l' => if leb x y then x :: l else y :: sort_insert x l'
  end.

Fixpoint stable_sort (l : list A) : list A :=
  match l with
  | [] => []
  | x :: l => sort_insert x (stable_sort l)
  end.

Lemma sort_insert_perm x l : sort_insert x l ≡ₚ x :: l.
Proof.
  induction l as [|y l IH]; simpl; [done|].
  destruct (leb x y); [done|]. rewrite IH. constructor.
Qed.

Lemma stable_sort_perm l : stable_sort l ≡ₚ l.
Proof.
  induction l as [|x l IH]; simpl; [done|]. by rewrite sort_insert_perm, IH.
Qed.

Lemma elem_of_stable_sort x l : x ∈ stable_sort l ↔ x ∈ l.
Proof. by rewrite stable_sort_perm. Qed.

Lemma length_stable_sort l : length (stable_sort l) = length l.
Proof. by rewrite stable_sort_perm. Qed.

Hypothesis leb_total : ∀ x y, leb x y = true ∨ leb y x = true.
Hypothesis leb_trans : ∀ x y z, leb x y = true → leb y z = true → leb x z = true.

Lemma sort_insert_sorted x l :
  StronglySorted (λ a b, leb a b = true) l →
  StronglySorted (λ a b, leb a b = true) (sort_insert x l).
Proof using Type*.
  induction 1 as [|y l Hs IH Hy]; simpl; [by repeat constructor|].
  destruct (leb x y) eqn:E.
  - constructor; [by constructor|]. constructor; [done|].
    eapply Forall_impl; [exact Hy|]. eauto.
  - constructor; [done|]. rewrite sort_insert_perm. constructor; [|done].
    destruct (leb_total x y); congruence.
Qed.

Lemma stable_sort_sorted l :
  StronglySorted (λ a b, leb a b = true) (stable_sort l).
Proof using Type*.
  induction l; simpl; [constructor|]. by apply sort_insert_sorted.
Qed.

(** The head of a sorted list is a least element. *)
Lemma stable_sort_head l r :
  head (stable_sort l) = Some r → r ∈ l ∧ ∀ x, x ∈ l → leb r x = true.
Proof using Type*.
  intros Hh. pose proof (stable_sort_sorted l) as Hs. setoid_rewrite <-(elem_of_stable_sort _ l).
  destruct (stable_sort l) as [|y l']; [done|]. injection Hh as ->.
  apply StronglySorted_inv in Hs as [_ Hf]. rewrite Forall_forall in Hf.
  split; [left|]. intros x [->|Hx]%elem_of_cons; [|by apply Hf].
  by destruct (leb_total r r).
Qed.

Lemma stable_sort_head_None l : head (stable_sort l) = None ↔ l = [].
Proof using.
  pose proof (stable_sort_perm l) as Hp. destruct (stable_sort l) as [|y l'] eqn:E; simpl.
  - split; [|done]. intros _. by apply Permutation_nil_l in Hp.
  - split; [done|]. intros ->. by apply Permutation_nil_r in Hp.
Qed.

(** Stability: the elements of any class of mutually comparable elements
    keep their order. *)
Lemma sort_insert_filter (P : A → bool) x l :
  (∀ a b, P a = true → P b = true → leb a b = true) →
  List.filter P (sort_insert x l) = List.filter P (x :: l).
Proof.
  intros HP. induction l as [|y l IH]; simpl in *; [done|].
  destruct (leb x y) eqn:E; [done|]. simpl. rewrite IH.
  destruct (P x) eqn:Ex, (P y) eqn:Ey; try done.
  rewrite (HP x y) in E; done.
Qed.

Lemma stable_sort_filter (P : A → bool) l :
  (∀ a b, P a = true → P b = true → leb a b = true) →
  List.filter P (stable_sort l) = List.filter P l.
Proof.
  intros HP. induction l as [|x l IH]; simpl; [done|].
  rewrite sort_insert_filter by done. simpl. by rewrite IH.
Qed.
End stable_sort.

(** [Iterator::min_by_key]: the first of the minimal elements. *)
Section min_by.
Context {A : Type} (ltb : A → A → bool).

Fixpoint min_from (best : A) (l : list A) : A :=
  match l with
  | [] => best
  | x :: l => min_from (if ltb x best then x else best) l
  end.

Definition min_by (l : list A) : option A :=
  match l with [] => None | x :: l => Some (min_from x l) end.

Lemma min_from_elem b l : min_from b l = b ∨ min_from b l ∈ l.
Proof.
  revert b. induction l as [|x l IH]; intros b; simpl; [by left|].
  destruct (IH (if ltb x b then x else b)) as [->|H]; [|set_solver].
  destruct (ltb x b); set_solver.
Qed.

Lemma min_by_elem l x : min_by l = Some x → x ∈ l.
Proof.
  destruct l as [|y l]; simpl; [done|]. intros [= <-].
  destruct (min_from_elem y l) as [->|]; set_solver.
Qed.

Lemma min_by_None l : min_by l = None ↔ l = [].
Proof. by destruct l. Qed.

Hypothesis ltb_irrefl : ∀ x, ltb x x = false.
Hypothesis ltb_trans : ∀ x y z, ltb x y = true → ltb y z = true → ltb x z = true.
(** Incomparability is transitive: [ltb] compares a totally ordered key. *)
Hypothesis ltb_weak : ∀ x y z, ltb x y = false → ltb y z = false → ltb x z = false.

Lemma min_from_least b l : ∀ x, x = b ∨ x ∈ l → ltb x (min_from b l) = false.
Proof using Type*.
  revert b. induction l as [|y l IH]; intros b x Hx; simpl.
  { destruct Hx as [->|Hx]; [apply ltb_irrefl|set_solver]. }
  destruct (ltb y b) eqn:E.
  - destruct Hx as [->|[->|Hx]%elem_of_cons]; [|by apply IH; left|by apply IH; right].
    assert (ltb b y = false).
    { destruct (ltb b y) eqn:E'; [|done].
      rewrite <-(ltb_irrefl b). symmetry. eauto. }
    eapply ltb_weak; [done|]. apply IH. by left.
  - destruct Hx as [->|[->|Hx]%elem_of_cons]; [by apply IH; left| |by apply IH; right].
    eapply ltb_weak; [done|]. apply IH. by left.
Qed.

Lemma min_by_least l m x : min_by l = Some m → x ∈ l → ltb x m = false.
Proof using Type*.
  destruct l as [|y l]; simpl; [done|].
  intros [= <-] [->|Hx]%elem_of_cons; apply min_from_least; auto.
Qed.
End min_by.

(** ** Results

    [anyhow::Result]: the error value carries the message text. *)
Inductive result (A : Type) :=
  | ROk (x : A)
  | RErr (msg : string).
Arguments ROk {_} _.
Arguments RErr {_} _.

(** Rust's [?] on a [Result]. *)
Notation "'let!' x := e 'in' k" :=
  (match e with ROk x => k | RErr msg => RErr msg end)
  (at level 10, x pattern, e at level 100, k at level 200) : forge_scope.

Definition is_ok {A} (r : result A) : bool := match r with ROk _ => true | RErr _ => false end.

(** A computation that may also panic. *)
Inductive outcome (A : Type) :=
  | Done (x : A)
  | Failed (msg : string)
  | Panicked.
Arguments Done {_} _.
Arguments Failed {_} _.
Arguments Panicked {_}.

(** [?] in a computation that may panic. *)
Notation "'run!' x := e 'in' k" :=
  (match e with Done x => k | Failed msg => Failed msg | Panicked => Panicked end)
  (at level 10, x pattern, e at level 100, k at level 200) : forge_scope.

Definition of_result {A} (r : result A) : outcome A :=
  match r with ROk x => Done x | RErr e => Failed e end.

(** An operation of a library whose [None] is a panic. *)
Definition or_panic {A} (o : option A) : outcome A :=
  match o with Some x => Done x | None => Panicked end.

Fixpoint fold_outcome {A S} (step : S → A → outcome S) (s : S) (l : list A) : outcome S :=
  match l with
  | [] => Done s
  | x :: l => run! s := step s x in fold_outcome step s l
  end.

(** A loop with [?] in its body. *)
Fixpoint fold_result {A S} (step : S → A → result S) (s : S) (l : list A) : result S :=
  match l with
  | [] => ROk s
  | x :: l => let! s := step s x in fold_result step s l
  end.

Lemma fold_result_app {A S} (step : S → A → result S) s l1 l2 :
  fold_result step s (l1 ++ l2) = (let! s := fold_result step s l1 in fold_result step s l2).
Proof.
  revert s. induction l1 as [|x l1 IH]; intros s; simpl; [done|].
  destruct (step s x); [apply IH|done].
Qed.

(** An invariant of the body is one of the loop. *)
Lemma fold_result_inv {A S} (P : S → Prop) (step : S → A → result S) s l s' :
  (∀ s x s', P s → x ∈ l → step s x = ROk s' → P s') →
  P s → fold_result step s l = ROk s' → P s'.
Proof.
  revert s. induction l as [|x l IH]; intros s Hstep Hs; simpl.
  { by intros [= <-]. }
  destruct (step s x) as [s1|e] eqn:E; [|done]. intros Hf.
  apply (IH s1); [|by eapply Hstep; [exact Hs|left|]|done].
  intros; eapply Hstep; [done|by right|done].
Qed.

(** A list has no duplicates or shows two positions with one value. *)
Lemma NoDup_or_dup `{EqDecision A} (l : list A) :
  NoDup l ∨ ∃ i j x, i < j ∧ l !! i = Some x ∧ l !! j = Some x.
Proof.
  induction l as [|a l [IH|(i & j & x & Hij & Hi & Hj)]]; [left; constructor| |].
  - destruct (decide (a ∈ l)) as [[j Hj]%list_elem_of_lookup|Hn]; [|left; by constructor].
    right. exists 0, (S j), a. repeat split; [lia|done].
  - right. exists (S i), (S j), x. repeat split; [lia|done..].
Qed.

(** ** Comparison functions

    Rust's [Ord] tuples compare lexicographically.  [cmp_ok] is what makes a
    comparison function a total preorder; lexicographic composition and
    comparison by a key preserve it. *)
Record cmp_ok {A} (cmp : A → A → comparison) : Prop := CmpOk {
  cmp_antisym x y : cmp y x = CompOpp (cmp x y);
  cmp_trans x y z : cmp x y ≠ Gt → cmp y z ≠ Gt → cmp x z ≠ Gt;
}.

Definition cmp_then {A} (c1 c2 : A → A → comparison) (x y : A) : comparison :=
  match c1 x y with Eq => c2 x y | r => r end.

Definition cmp_by {A K} (key : A → K) (cmp : K → K → comparison) (x y : A) : comparison :=
  cmp (key x) (key y).

Definition cmp_rev {A} (cmp : A → A → comparison) (x y : A) : comparison := cmp y x.

Definition cmp_leb {A} (cmp : A → A → comparison) (x y : A) : bool :=
  match cmp x y with Gt => false | _ => true end.
Definition cmp_ltb {A} (cmp : A → A → comparison) (x y : A) : bool :=
  match cmp x y with Lt => true | _ => false end.

Section cmp.
Context {A : Type} (cmp : A → A → comparison) (Hok : cmp_ok cmp).

Lemma cmp_refl x : cmp x x = Eq.
Proof using Type*. pose proof (cmp_antisym _ Hok x x) as H. by destruct (cmp x x). Qed.

Lemma cmp_leb_true x y : cmp_leb cmp x y = true ↔ cmp x y ≠ Gt.
Proof using. unfold cmp_leb. by destruct (cmp x y). Qed.

Lemma cmp_leb_total x y : cmp_leb cmp x y = true ∨ cmp_leb cmp y x = true.
Proof using Type*.
  unfold cmp_leb. rewrite (cmp_antisym _ Hok x y). destruct (cmp x y); auto.
Qed.

Lemma cmp_leb_trans x y z :
  cmp_leb cmp x y = true → cmp_leb cmp y z = true → cmp_leb cmp x z = true.
Proof using Type*. rewrite !cmp_leb_true. by apply cmp_trans. Qed.

Lemma cmp_ltb_irrefl x : cmp_ltb cmp x x = false.
Proof using Type*. unfold cmp_ltb. by rewrite cmp_refl. Qed.

Lemma cmp_ltb_leb x y : cmp_ltb cmp x y = negb (cmp_leb cmp y x).
Proof using Type*.
  unfold cmp_ltb, cmp_leb. rewrite (cmp_antisym _ Hok x y). by destruct (cmp x y).
Qed.

Lemma cmp_ltb_weak x y z :
  cmp_ltb cmp x y = false → cmp_ltb cmp y z = false → cmp_ltb cmp x z = false.
Proof using Type*.
  rewrite !cmp_ltb_leb, !negb_false_iff. intros H1 H2. by eapply cmp_leb_trans.
Qed.

(** Equal elements compare alike. *)
Lemma cmp_eq_l x y z : cmp x y = Eq → cmp x z = cmp y z.
Proof using Type*.
  intros E. assert (cmp y x = Eq) as E' by by rewrite (cmp_antisym _ Hok x y), E.
  pose proof (cmp_trans _ Hok) as T. pose proof (cmp_antisym _ Hok) as S.
  pose proof (T x y z) as T1. pose proof (T y x z) as T2.
  pose proof (T z x y) as T3. pose proof (T z y x) as T4.
  rewrite (S x z), (S y z) in T3, T4. rewrite E, E' in *.
  destruct (cmp x z) eqn:?, (cmp y z) eqn:?; simpl in *; try done; exfalso;
    first [by apply T1|by apply T2|by apply T3|by apply T4].
Qed.

Lemma cmp_ltb_trans x y z :
  cmp_ltb cmp x y = true → cmp_ltb cmp y z = true → cmp_ltb cmp x z = true.
Proof using Type*.
  unfold cmp_ltb. intros H1 H2.
  destruct (cmp x y) eqn:E1, (cmp y z) eqn:E2; try done. clear H1 H2.
  destruct (cmp x z) eqn:E3; [|done|].
  - rewrite (cmp_eq_l _ _ _ E3) in E1.
    rewrite (cmp_antisym _ Hok y z), E2 in E1. done.
  - exfalso. apply (cmp_trans _ Hok x y z); [by rewrite E1|by rewrite E2|done].
Qed.
End cmp.

Lemma cmp_then_ok {A} (c1 c2 : A → A → comparison) :
  cmp_ok c1 → cmp_ok c2 → cmp_ok (cmp_then c1 c2).
Proof.
  intros H1 H2. split.
  - intros x y. unfold cmp_then. rewrite (cmp_antisym _ H1 x y), (cmp_antisym _ H2 x y).
    by destruct (c1 x y).
  - intros x y z. unfold cmp_then.
    pose proof (cmp_trans _ H1 x y z) as T1. pose proof (cmp_trans _ H2 x y z) as T2.
    destruct (c1 x y) eqn:E1.
    + rewrite (cmp_eq_l _ H1 _ _ z E1). by destruct (c1 y z).
    + pose proof (cmp_ltb_trans _ H1 x y z) as L. unfold cmp_ltb in L. rewrite E1 in L.
      destruct (c1 y z) eqn:E2; [|by destruct (c1 x z); [exfalso; by specialize (L eq_refl eq_refl)|..]|done].
      intros _ _. assert (c1 x z = Lt) as ->; [|done].
      assert (c1 z y = Eq) as E3 by by rewrite (cmp_antisym _ H1 y z), E2.
      rewrite (cmp_antisym _ H1 z x), (cmp_eq_l _ H1 _ _ x E3), (cmp_antisym _ H1 x y), E1.
      done.
    + done.
Qed.

Lemma cmp_by_ok {A K} (key : A → K) cmp : cmp_ok cmp → cmp_ok (cmp_by key cmp).
Proof. intros H. split; unfold cmp_by; intros; [apply H|by eapply (cmp_trans _ H)]. Qed.

Lemma cmp_rev_ok {A} (cmp : A → A → comparison) : cmp_ok cmp → cmp_ok (cmp_rev cmp).
Proof. intros H. split; unfold cmp_rev; intros; [apply H|by eapply (cmp_trans _ H)]. Qed.

Lemma cmp_Z_ok : cmp_ok Z.compare.
Proof. split; [intros; apply Z.compare_antisym|]. intros x y z. fold (x <= y)%Z (y <= z)%Z (x <= z)%Z. lia. Qed.

Lemma cmp_then_Eq {A} (c1 c2 : A → A → comparison) x y :
  cmp_then c1 c2 x y = Eq ↔ c1 x y = Eq ∧ c2 x y = Eq.
Proof. unfold cmp_then. destruct (c1 x y); naive_solver. Qed.

#[export] Hint Resolve cmp_then_ok cmp_by_ok cmp_rev_ok cmp_Z_ok : forge.

(** Permutations of explicit lists, by rotating the right-hand side. *)
Ltac solve_perm_fuel n :=
  lazymatch goal with
  | |- ?l ≡ₚ ?l => reflexivity
  | |- ?a :: _ ≡ₚ ?a :: _ => apply perm_skip; solve_perm_fuel n
  | |- _ ≡ₚ ?b :: ?k =>
      lazymatch n with
      | S ?n => rewrite (Permutation_cons_append k b); cbn [app]; solve_perm_fuel n
      end
  end.
Ltac solve_perm := cbn [app]; solve_perm_fuel 40.
