(* ===== verification/Text.v ===== *)
(** * Strings and bytes

    A Rust [&str] is its UTF-8 byte sequence: a [string] whose characters are
    the bytes.  This file models the standard-library string operations the
    program uses ([trim], [to_ascii_lowercase], [eq_ignore_ascii_case],
    [split_once], [join], [to_le_bytes], integer [Display]) and the
    length-prefixed byte encodings its keys are built from, with the prefix
    property that makes those encodings injective. *)
From S2P Require Import Prelude.
From stdpp Require Import options.
From Stdlib Require Export Ascii.

Local Open Scope string_scope.

(** ** Append and length *)

Lemma str_app_cons c (a b : string) : String c a +:+ b = String c (a +:+ b).
Proof. reflexivity. Qed.

Lemma str_app_nil_l (b : string) : "" +:+ b = b.
Proof. reflexivity. Qed.

#[local] Ltac str_simpl :=
  simpl; rewrite ?str_app_cons, ?str_app_nil_l; simpl.

Lemma str_app_assoc (a b c : string) : a +:+ (b +:+ c) = (a +:+ b) +:+ c.
Proof. induction a as [|x a IH]; str_simpl; [done|]. by rewrite IH. Qed.

Lemma str_app_nil_r (a : string) : a +:+ "" = a.
Proof. induction a as [|x a IH]; str_simpl; [done|]. by rewrite IH. Qed.

Lemma str_length_app (a b : string) :
  String.length (a +:+ b) = String.length a + String.length b.
Proof. induction a as [|x a IH]; str_simpl; [done|]. by rewrite IH. Qed.

(** Two concatenations with first parts of one length agree part by part. *)
Lemma str_app_inj_length (a b x y : string) :
  String.length a = String.length b → a +:+ x = b +:+ y → a = b ∧ x = y.
Proof.
  revert b. induction a as [|c a IH]; intros [|d b]; simpl; try done.
  intros [= Hl] H. rewrite !str_app_cons in H. injection H as -> H.
  by destruct (IH b Hl H) as [-> ->].
Qed.

(** ** Little-endian integers *)

(** The low byte of an integer. *)
Definition byte_of (z : Z) : ascii := ascii_of_N (Z.to_N (z mod 256)).

(** [to_le_bytes] of an integer of [n] bytes; a negative [i64] is its two's
    complement. *)
Fixpoint le_bytes (n : nat) (z : Z) : string :=
  match n with
  | O => ""
  | S n => String (byte_of z) (le_bytes n (z / 256))
  end.

Lemma le_bytes_length n z : String.length (le_bytes n z) = n.
Proof. revert z. induction n as [|n IH]; intros z; simpl; [done|]. by rewrite IH. Qed.

Lemma byte_of_inj z1 z2 : byte_of z1 = byte_of z2 → (z1 mod 256 = z2 mod 256)%Z.
Proof.
  unfold byte_of. intros H. apply (f_equal N_of_ascii) in H.
  pose proof (Z.mod_pos_bound z1 256 ltac:(lia)).
  pose proof (Z.mod_pos_bound z2 256 ltac:(lia)).
  rewrite !N_ascii_embedding in H by lia. lia.
Qed.

Lemma le_bytes_inj n z1 z2 :
  le_bytes n z1 = le_bytes n z2 → (z1 mod 256 ^ Z.of_nat n = z2 mod 256 ^ Z.of_nat n)%Z.
Proof.
  revert z1 z2. induction n as [|n IH]; intros z1 z2; simpl.
  { intros _. by rewrite !Z.mod_1_r. }
  intros [= Hb%byte_of_inj Ht%IH].
  rewrite Nat2Z.inj_succ, Z.pow_succ_r, !Z.rem_mul_r by lia. by rewrite Hb, Ht.
Qed.

Lemma le_bytes8_inj_i64 z1 z2 :
  is_i64 z1 → is_i64 z2 → le_bytes 8 z1 = le_bytes 8 z2 → z1 = z2.
Proof.
  unfold is_i64, i64_min, i64_max. intros H1 H2 H%le_bytes_inj.
  change (256 ^ Z.of_nat 8)%Z with (2 ^ 64)%Z in H.
  apply (f_equal (λ z, (z + 2 ^ 63) mod 2 ^ 64)%Z) in H.
  rewrite !Z.add_mod_idemp_l, !Z.mod_small in H by lia. lia.
Qed.

(** ** Length framing

    [framed] is [h.update((bytes.len() as u64).to_le_bytes()); h.update(bytes)]
    read as the bytes the digest absorbs. *)
Definition frame (s : string) : string :=
  le_bytes 8 (Z.of_nat (String.length s)) +:+ s.

(** A Rust slice never exceeds [isize::MAX] bytes. *)
Definition slice_len (s : string) : Prop := (Z.of_nat (String.length s) <= i64_max)%Z.

Lemma frame_length s : String.length (frame s) = 8 + String.length s.
Proof. unfold frame. by rewrite str_length_app, le_bytes_length. Qed.

(** The frames are a prefix code: a concatenation that starts with a frame
    determines it. *)
Lemma frame_app_inj a b x y :
  slice_len a → slice_len b → frame a +:+ x = frame b +:+ y → a = b ∧ x = y.
Proof.
  unfold frame, slice_len. intros Ha Hb H. rewrite <-!str_app_assoc in H.
  apply str_app_inj_length in H as [Hl H]; [|by rewrite !le_bytes_length].
  apply le_bytes8_inj_i64 in Hl; unfold is_i64, i64_min in *; [|lia..].
  apply str_app_inj_length in H; [done|lia].
Qed.

Lemma frame_inj a b : slice_len a → slice_len b → frame a = frame b → a = b.
Proof.
  intros Ha Hb H. apply (frame_app_inj a b "" ""); [done..|]. by rewrite H.
Qed.

(** The bytes of a sequence of frames, the [for item in sorted] loop of
    [canonical_set_bytes]. *)
Fixpoint frames (l : list string) : string :=
  match l with [] => "" | s :: l => frame s +:+ frames l end.

Lemma frames_inj l1 l2 :
  Forall slice_len l1 → Forall slice_len l2 → frames l1 = frames l2 → l1 = l2.
Proof.
  revert l2. induction l1 as [|a l1 IH]; intros [|b l2] H1 H2 H; cbn [frames] in H.
  - done.
  - apply (f_equal String.length) in H. rewrite str_length_app, frame_length in H. done.
  - apply (f_equal String.length) in H. rewrite str_length_app, frame_length in H. done.
  - apply Forall_cons in H1 as [? ?], H2 as [? ?].
    apply frame_app_inj in H as [-> H]; [|done..].
    f_equal. by apply IH.
Qed.

(** ** The canonical form of a set of strings

    [sort_unstable] then [dedup], over the byte order of [str]. *)
Definition canonical_set (l : list string) : list string :=
  dedup (stable_sort String.leb l).

Lemma str_leb_trans (x y z : string) :
  String.leb x y = true → String.leb y z = true → String.leb x z = true.
Proof.
  rewrite <-!Is_true_true. change (String.le x y → String.le y z → String.le x z).
  by transitivity y.
Qed.

Lemma str_leb_total (x y : string) : String.leb x y = true ∨ String.leb y x = true.
Proof. apply String.leb_total. Qed.

Lemma str_leb_antisym (x y : string) :
  String.leb x y = true → String.leb y x = true → x = y.
Proof. apply String.leb_antisym. Qed.

Definition str_lt (x y : string) : Prop := String.leb x y = true ∧ x ≠ y.

Lemma dedup_from_strict x l :
  StronglySorted (λ a b, String.leb a b = true) (x :: l) →
  StronglySorted str_lt (x :: dedup_from x l) ∧
  ∀ y, y ∈ x :: dedup_from x l ↔ y ∈ x :: l.
Proof.
  revert x. induction l as [|y l IH]; intros x Hs; simpl.
  { split; [by repeat constructor|done]. }
  inv Hs as [|?? Hs' Hx]. destruct (decide (x = y)) as [<-|Hne].
  { destruct (IH x Hs') as [H1 H2]. split; [done|]. set_solver. }
  destruct (IH y Hs') as [H1 H2]. split.
  - constructor; [done|]. apply Forall_forall. intros z Hz%H2.
    rewrite Forall_forall in Hx. split; [by apply Hx|]. intros <-.
    inv Hs' as [|?? _ Hy]. apply elem_of_cons in Hz as [?|Hz]; [done|].
    rewrite Forall_forall in Hy. apply Hne, str_leb_antisym; [|by apply Hy].
    apply Hx. set_solver.
  - intros z. rewrite elem_of_cons, H2. set_solver.
Qed.

Lemma canonical_set_spec l :
  StronglySorted str_lt (canonical_set l) ∧ ∀ y, y ∈ canonical_set l ↔ y ∈ l.
Proof.
  unfold canonical_set, dedup.
  pose proof (stable_sort_sorted String.leb str_leb_total str_leb_trans l) as Hs.
  setoid_rewrite <-(elem_of_stable_sort String.leb _ l).
  destruct (stable_sort String.leb l) as [|x l']; [split; [constructor|done]|].
  by apply dedup_from_strict.
Qed.

Lemma str_lt_sorted_unique l1 l2 :
  StronglySorted str_lt l1 → StronglySorted str_lt l2 →
  (∀ y, y ∈ l1 ↔ y ∈ l2) → l1 = l2.
Proof.
  revert l2. induction l1 as [|a l1 IH]; intros [|b l2] H1 H2 H.
  - done.
  - exfalso. apply (not_elem_of_nil b), H. left.
  - exfalso. apply (not_elem_of_nil a), H. left.
  - inv H1 as [|?? H1' Ha]. inv H2 as [|?? H2' Hb].
    rewrite Forall_forall in Ha. rewrite Forall_forall in Hb.
    assert (a = b) as <-.
    { destruct (proj1 (elem_of_cons _ _ _) (proj1 (H a) ltac:(left))) as [?|Hin1]; [done|].
      destruct (proj1 (elem_of_cons _ _ _) (proj2 (H b) ltac:(left))) as [?|Hin2]; [done|].
      apply str_leb_antisym; [apply Ha|apply Hb]; done. }
    f_equal. apply IH; [done..|]. intros y. specialize (H y).
    rewrite !elem_of_cons in H. split; intros Hy.
    + destruct (proj1 H (or_intror Hy)) as [->|?]; [|done]. by destruct (Ha a Hy).
    + destruct (proj2 H (or_intror Hy)) as [->|?]; [|done]. by destruct (Hb a Hy).
Qed.

(** The canonical forms of two lists agree exactly when the lists are the same
    set: order and repetition do not matter. *)
Lemma canonical_set_eq l1 l2 :
  canonical_set l1 = canonical_set l2 ↔ (∀ y, y ∈ l1 ↔ y ∈ l2).
Proof.
  destruct (canonical_set_spec l1) as [Hs1 He1], (canonical_set_spec l2) as [Hs2 He2].
  split.
  - intros E y. by rewrite <-He1, <-He2, E.
  - intros E. apply str_lt_sorted_unique; [done..|]. intros y. by rewrite He1, He2.
Qed.

Lemma canonical_set_Forall (P : string → Prop) l : Forall P l → Forall P (canonical_set l).
Proof.
  rewrite !Forall_forall. destruct (canonical_set_spec l) as [_ He].
  intros H x Hx. apply H. by apply He.
Qed.

(** ** Character-level operations *)

Definition is_ascii_upper (c : ascii) : bool :=
  let n := N_of_ascii c in (65 <=? n)%N && (n <=? 90)%N.

(** [char::to_ascii_lowercase]. *)
Definition ascii_lower (c : ascii) : ascii :=
  if is_ascii_upper c then ascii_of_N (N_of_ascii c + 32) else c.

(** [str::to_ascii_lowercase]. *)
Fixpoint to_ascii_lowercase (s : string) : string :=
  match s with
  | EmptyString => ""
  | String c s => String (ascii_lower c) (to_ascii_lowercase s)
  end.

(** [str::eq_ignore_ascii_case]. *)
Definition eq_ignore_ascii_case (a b : string) : bool :=
  bool_decide (to_ascii_lowercase a = to_ascii_lowercase b).

Lemma ascii_lower_idem c : ascii_lower (ascii_lower c) = ascii_lower c.
Proof. by destruct c as [[] [] [] [] [] [] [] []]. Qed.

Lemma to_ascii_lowercase_idem s :
  to_ascii_lowercase (to_ascii_lowercase s) = to_ascii_lowercase s.
Proof. induction s as [|c s IH]; simpl; [done|]. by rewrite ascii_lower_idem, IH. Qed.

Lemma to_ascii_lowercase_app a b :
  to_ascii_lowercase (a +:+ b) = to_ascii_lowercase a +:+ to_ascii_lowercase b.
Proof. induction a as [|c a IH]; str_simpl; [done|]. by rewrite IH. Qed.

(** [str::split_once(':')] and, generally, on one ASCII character. *)
Fixpoint split_once (c : ascii) (s : string) : option (string * string) :=
  match s with
  | EmptyString => None
  | String d s =>
      if decide (c = d) then Some ("", s)
      else let? (a, b) := split_once c s in Some (String d a, b)
  end.

(** The characters of a string do not include [c]. *)
Fixpoint no_char (c : ascii) (s : string) : Prop :=
  match s with EmptyString => True | String d s => c ≠ d ∧ no_char c s end.

Lemma split_once_Some c s a b :
  split_once c s = Some (a, b) ↔ s = a +:+ String c b ∧ no_char c a.
Proof.
  revert a. induction s as [|d s IH]; intros a; simpl.
  { split; [done|]. intros [H _]. by destruct a. }
  destruct (decide (c = d)) as [<-|Hne].
  - split; [by intros [= <- <-]|]. intros [H Ha]. destruct a as [|e a].
    + by injection H as ->.
    + rewrite str_app_cons in H. injection H as <- _. by destruct Ha.
  - destruct (split_once c s) as [[a' b']|] eqn:E.
    + split.
      * intros [= <- <-]. destruct (proj1 (IH a') eq_refl) as [-> ?]. done.
      * intros [H Ha]. destruct a as [|e a]; [by injection H|].
        rewrite str_app_cons in H. injection H as <- H. destruct Ha as [_ Ha].
        assert (Some (a', b') = Some (a, b)) as [= -> ->] by by apply IH. done.
    + split; [done|]. intros [H Ha]. destruct a as [|e a]; [by injection H|].
      rewrite str_app_cons in H. injection H as <- H. destruct Ha as [_ Ha].
      assert (None = Some (a, b)) by by apply IH. done.
Qed.

(** A value without the separator before the first separator is determined by
    the concatenation. *)
Lemma sep_app_inj c a1 b1 a2 b2 :
  no_char c a1 → no_char c a2 →
  a1 +:+ String c b1 = a2 +:+ String c b2 → a1 = a2 ∧ b1 = b2.
Proof.
  intros H1 H2 H.
  assert (split_once c (a1 +:+ String c b1) = Some (a1, b1)) as E1
    by by apply split_once_Some.
  assert (split_once c (a2 +:+ String c b2) = Some (a2, b2)) as E2
    by by apply split_once_Some.
  rewrite H, E2 in E1. by injection E1 as <- <-.
Qed.

(** [\[String\]::join]. *)
Fixpoint join (sep : string) (l : list string) : string :=
  match l with
  | [] => ""
  | [s] => s
  | s :: l => s +:+ sep +:+ join sep l
  end.

(** ** Trimming

    [str::trim] removes the Unicode [White_Space] characters at both ends.  On
    UTF-8 bytes these are six ASCII bytes, two two-byte and seventeen
    three-byte sequences. *)

Definition byte_in (n lo hi : N) : bool := (lo <=? n)%N && (n <=? hi)%N.

Definition ws1 (a : ascii) : bool :=
  let a := N_of_ascii a in byte_in a 9 13 || (a =? 32)%N.

Definition ws2 (a b : ascii) : bool :=
  let a := N_of_ascii a in let b := N_of_ascii b in
  (a =? 194)%N && ((b =? 133)%N || (b =? 160)%N).

Definition ws3 (a b c : ascii) : bool :=
  let a := N_of_ascii a in let b := N_of_ascii b in let c := N_of_ascii c in
  ((a =? 225)%N && (b =? 154)%N && (c =? 128)%N) ||
  ((a =? 226)%N && (b =? 128)%N &&
     (byte_in c 128 138 || (c =? 168)%N || (c =? 169)%N || (c =? 175)%N)) ||
  ((a =? 226)%N && (b =? 129)%N && (c =? 159)%N) ||
  ((a =? 227)%N && (b =? 128)%N && (c =? 128)%N).

(** Drop whitespace characters from the front of a byte list; [w2] and [w3]
    recognise the multi-byte characters in the direction of the list. *)
Fixpoint drop_ws (w2 : ascii → ascii → bool) (w3 : ascii → ascii → ascii → bool)
    (l : list ascii) : list ascii :=
  match l with
  | [] => []
  | a :: l1 =>
      if ws1 a then drop_ws w2 w3 l1 else
      match l1 with
      | [] => l
      | b :: l2 =>
          if w2 a b then drop_ws w2 w3 l2 else
          match l2 with
          | [] => l
          | c :: l3 => if w3 a b c then drop_ws w2 w3 l3 else l
          end
      end
  end.

Definition trim_start (l : list ascii) : list ascii := drop_ws ws2 ws3 l.
Definition trim_end (l : list ascii) : list ascii :=
  reverse (drop_ws (λ a b, ws2 b a) (λ a b c, ws3 c b a) (reverse l)).

(** [str::trim]. *)
Definition trim (s : string) : string :=
  String.string_of_list_ascii (trim_end (trim_start (String.list_ascii_of_string s))).

(** [s.trim().is_empty()]. *)
Definition blank (s : string) : bool := bool_decide (trim s = "").

Example trim_ascii : trim "  a b
 " = "a b". Proof. reflexivity. Qed.

(** ** Decimal rendering

    [Display] of a Rust integer is stdpp's [pretty]. *)
Lemma no_char_app c a b : no_char c (a +:+ b) ↔ no_char c a ∧ no_char c b.
Proof. induction a as [|d a IH]; str_simpl; [naive_solver|]. rewrite IH. naive_solver. Qed.

Definition is_digit (c : ascii) : bool := byte_in (N_of_ascii c) 48 57.

Lemma no_char_pretty_N c (n : N) : is_digit c = false → no_char c (pretty n).
Proof.
  intros Hc.
  assert (∀ m, c ≠ pretty_N_char m) as Hd.
  { intros m ->. revert Hc. unfold pretty_N_char. by repeat case_match. }
  unfold pretty, pretty_N. case_decide; [split; [|done]; apply (Hd 0%N)|].
  assert (∀ s, no_char c s → no_char c (pretty_N_go n s)) as Hgo; [|by apply Hgo].
  clear -Hd. induction (N.lt_wf_0 n) as [n _ IH]. intros s Hs.
  destruct (decide (0 < n)%N) as [Hn|Hn].
  - rewrite pretty_N_go_step by done. apply IH; [by apply N.div_lt|]. by split.
  - assert (n = 0)%N as -> by lia. by rewrite pretty_N_go_0.
Qed.

Lemma no_char_pretty_Z c (z : Z) :
  is_digit c = false → c ≠ "-"%char → no_char c (pretty z).
Proof.
  intros Hc Hm. unfold pretty, pretty_Z.
  destruct z; [by apply (no_char_pretty_N c 0)|by apply no_char_pretty_N|].
  apply no_char_app. split; [done|]. by apply no_char_pretty_N.
Qed.

(** ** Facts about trimming *)
Local Open Scope list_scope.

Section trim_facts.
Context (w2 : ascii → ascii → bool) (w3 : ascii → ascii → ascii → bool).
Local Abbreviation drop := (drop_ws w2 w3).

(** No whitespace character at the front. *)
Definition clean_front (l : list ascii) : Prop :=
  match l with
  | [] => True
  | a :: l1 =>
      ws1 a = false ∧
      match l1 with
      | [] => True
      | b :: l2 =>
          w2 a b = false ∧ match l2 with [] => True | c :: _ => w3 a b c = false end
      end
  end.

Lemma drop_clean l : clean_front l → drop l = l.
Proof.
  destruct l as [|a [|b [|c l]]]; simpl; [done|..]; intros H; destruct_and?;
    by repeat match goal with E : _ = false |- _ => rewrite E; clear E end.
Qed.

(** [drop_ws] removes a prefix and stops at a clean front. *)
Lemma drop_spec l : clean_front (drop l) ∧ ∃ k, l = k ++ drop l.
Proof.
  cut (∀ n l, length l < n → clean_front (drop l) ∧ ∃ k, l = k ++ drop l);
    [intros H; apply (H (S (length l))); lia|].
  clear l. induction n as [|n IH]; intros l Hl; [lia|].
  destruct l as [|a l1]; [split; [done|by exists []]|].
  cbn [drop_ws]. destruct (ws1 a) eqn:E1.
  { destruct (IH l1 ltac:(simpl in *; lia)) as [? [k Hk]].
    split; [done|]. exists (a :: k). by rewrite Hk at 1. }
  destruct l1 as [|b l2]; [split; [by split|by exists []]|].
  destruct (w2 a b) eqn:E2.
  { destruct (IH l2 ltac:(simpl in *; lia)) as [? [k Hk]].
    split; [done|]. exists (a :: b :: k). by rewrite Hk at 1. }
  destruct l2 as [|c l3]; [split; [by repeat split|by exists []]|].
  destruct (w3 a b c) eqn:E3; [|split; [by repeat split|by exists []]].
  destruct (IH l3 ltac:(simpl in *; lia)) as [? [k Hk]].
  split; [done|]. exists (a :: b :: c :: k). by rewrite Hk at 1.
Qed.

Lemma clean_drop l : clean_front (drop l).
Proof. apply drop_spec. Qed.

Lemma drop_idem l : drop (drop l) = drop l.
Proof. apply drop_clean, clean_drop. Qed.

Lemma clean_drop_fixed l : drop l = l → clean_front l.
Proof. intros <-. apply clean_drop. Qed.

Lemma clean_prefix l k : clean_front (l ++ k) → clean_front l.
Proof. destruct l as [|a [|b [|c l]]]; simpl; naive_solver. Qed.

(** Past a byte that occurs in no multi-byte whitespace, the tail is free. *)
Lemma clean_sep r c x y :
  r ≠ [] → (∀ a, w2 a c = false) → (∀ a b, w3 a b c = false) →
  (∀ a b, w3 a c b = false) →
  clean_front (r ++ c :: x) → clean_front (r ++ c :: y).
Proof.
  intros Hr H2 H3 H4.
  destruct r as [|a [|b [|d r]]]; simpl; [done|..]; intros H; destruct_and?;
    repeat split; auto; destruct y; auto.
Qed.
End trim_facts.

Definition w2_rev (a b : ascii) : bool := ws2 b a.
Definition w3_rev (a b c : ascii) : bool := ws3 c b a.

(** Clean at both ends, as the characters of a trimmed string are. *)
Definition clean_ends (l : list ascii) : Prop :=
  clean_front ws2 ws3 l ∧ clean_front w2_rev w3_rev (reverse l).

Lemma trim_end_clean l : clean_ends (trim_end (trim_start l)).
Proof.
  unfold trim_end, clean_ends. rewrite reverse_involutive. split; [|apply clean_drop].
  destruct (drop_spec w2_rev w3_rev (reverse (trim_start l))) as [_ [k Hk]].
  apply (f_equal reverse) in Hk. rewrite reverse_involutive, reverse_app in Hk.
  apply (clean_prefix _ _ _ (reverse k)). unfold w2_rev, w3_rev in *. rewrite <-Hk.
  apply clean_drop.
Qed.

Lemma trim_clean s : clean_ends (String.list_ascii_of_string (trim s)).
Proof. unfold trim. rewrite String.list_ascii_of_string_of_list_ascii. apply trim_end_clean. Qed.

Lemma clean_trim s : clean_ends (String.list_ascii_of_string s) → trim s = s.
Proof.
  intros [Hf He]. unfold trim, trim_end, trim_start.
  rewrite (drop_clean _ _ _ Hf). unfold w2_rev, w3_rev in He. rewrite (drop_clean _ _ _ He).
  by rewrite reverse_involutive, String.string_of_list_ascii_of_string.
Qed.

Lemma trim_idem s : trim (trim s) = trim s.
Proof. apply clean_trim, trim_clean. Qed.

Local Open Scope string_scope.

Lemma list_ascii_app a b :
  String.list_ascii_of_string (a +:+ b) =
  (String.list_ascii_of_string a ++ String.list_ascii_of_string b)%list.
Proof. induction a as [|c a IH]; str_simpl; [done|]. by rewrite IH. Qed.

Lemma letter_clean_front c l :
  (65 <= N_of_ascii c <= 122)%N → clean_front ws2 ws3 (c :: l).
Proof.
  intros Hc.
  assert (ws1 c = false ∧ (∀ b, ws2 c b = false) ∧ ∀ b d, ws3 c b d = false)
    as (H1 & H2 & H3).
  { unfold ws1, ws2, ws3, byte_in.
    rewrite (proj2 (N.leb_gt (N_of_ascii c) 13)) by lia.
    rewrite !(λ n, proj2 (N.eqb_neq (N_of_ascii c) n)) by lia.
    by rewrite andb_false_r. }
  simpl. split; [done|]. repeat (case_match; [done|]); auto.
Qed.

(** Replacing what stands before the first [':'] of a trimmed string by a word
    that starts with a letter leaves it trimmed. *)
Lemma trim_replace_prefix c p q r :
  r ≠ "" → (65 <= N_of_ascii c <= 122)%N →
  trim (p +:+ String ":" r) = p +:+ String ":" r →
  trim (String c q +:+ String ":" r) = String c q +:+ String ":" r.
Proof.
  intros Hr Hc Ht. apply clean_trim. pose proof (trim_clean (p +:+ String ":" r)) as Hcl.
  rewrite Ht in Hcl. destruct Hcl as [_ He]. rewrite list_ascii_app in He |- *. split.
  - by apply letter_clean_front.
  - change (String.list_ascii_of_string (String ":" r))
      with (":"%char :: String.list_ascii_of_string r) in *.
    rewrite reverse_app, reverse_cons, <-app_assoc in He |- *. simpl in He |- *.
    eapply clean_sep; [| | | |exact He].
    + intros E. apply (f_equal reverse) in E. rewrite reverse_involutive in E.
      by destruct r.
    + intros a. unfold w2_rev, ws2. by destruct (N_of_ascii a).
    + intros a b. unfold w3_rev, ws3. simpl. done.
    + intros a b. unfold w3_rev, ws3. simpl. by rewrite !andb_false_r.
Qed.

(** ** Trimming and case *)

Lemma lower_eqb (a : ascii) (n : N) :
  (n < 65)%N ∨ (122 < n)%N → (N_of_ascii (ascii_lower a) =? n)%N = (N_of_ascii a =? n)%N.
Proof.
  intros Hn. unfold ascii_lower. destruct (is_ascii_upper a) eqn:E; [|done].
  unfold is_ascii_upper in E. apply andb_prop in E as [?%N.leb_le ?%N.leb_le].
  rewrite N_ascii_embedding by lia. rewrite !(proj2 (N.eqb_neq _ n)) by lia. done.
Qed.

Lemma lower_byte_in (a : ascii) lo hi :
  (hi < 65)%N ∨ (122 < lo)%N → byte_in (N_of_ascii (ascii_lower a)) lo hi = byte_in (N_of_ascii a) lo hi.
Proof.
  intros Hn. unfold ascii_lower. destruct (is_ascii_upper a) eqn:E; [|done].
  unfold is_ascii_upper in E. apply andb_prop in E as [?%N.leb_le ?%N.leb_le].
  rewrite N_ascii_embedding by lia. unfold byte_in. apply eq_true_iff_eq.
  rewrite !andb_true_iff, !N.leb_le. lia.
Qed.

Lemma ws1_lower a : ws1 (ascii_lower a) = ws1 a.
Proof. unfold ws1. by rewrite lower_byte_in, lower_eqb by lia. Qed.

Lemma ws2_lower a b : ws2 (ascii_lower a) (ascii_lower b) = ws2 a b.
Proof. unfold ws2. by rewrite !lower_eqb by lia. Qed.

Lemma ws3_lower a b c : ws3 (ascii_lower a) (ascii_lower b) (ascii_lower c) = ws3 a b c.
Proof. unfold ws3. by rewrite !lower_byte_in, !lower_eqb by lia. Qed.

Lemma clean_front_lower w2 w3 l :
  (∀ a b, w2 (ascii_lower a) (ascii_lower b) = w2 a b) →
  (∀ a b c, w3 (ascii_lower a) (ascii_lower b) (ascii_lower c) = w3 a b c) →
  clean_front w2 w3 l → clean_front w2 w3 (ascii_lower <$> l).
Proof.
  intros H2 H3. destruct l as [|a [|b [|c l]]]; simpl; rewrite ?ws1_lower, ?H2, ?H3; done.
Qed.

Lemma list_ascii_lower s :
  String.list_ascii_of_string (to_ascii_lowercase s) =
  ascii_lower <$> String.list_ascii_of_string s.
Proof. induction s as [|c s IH]; simpl; [done|]. by rewrite IH. Qed.

(** Lowercasing a trimmed string leaves it trimmed. *)
Lemma trim_lower_trim s :
  to_ascii_lowercase (trim (to_ascii_lowercase (trim s))) = to_ascii_lowercase (trim s).
Proof.
  rewrite clean_trim; [apply to_ascii_lowercase_idem|].
  destruct (trim_clean s) as [Hf He]. unfold clean_ends. rewrite list_ascii_lower, <-fmap_reverse.
  split; apply clean_front_lower; auto.
  - apply ws2_lower.
  - apply ws3_lower.
  - intros. apply ws2_lower.
  - intros. apply ws3_lower.
Qed.

(** A string that starts with a letter is trimmed at its end only. *)
Lemma trim_letter c s :
  (65 <= N_of_ascii c <= 122)%N → ∃ x, String c s = trim (String c s) +:+ x.
Proof.
  intros Hc. unfold trim, trim_start.
  change (String.list_ascii_of_string (String c s)) with (c :: String.list_ascii_of_string s).
  rewrite drop_clean by by apply letter_clean_front.
  set (l := c :: String.list_ascii_of_string s).
  destruct (drop_spec w2_rev w3_rev (reverse l)) as [_ [k Hk]].
  apply (f_equal reverse) in Hk. rewrite reverse_involutive, reverse_app in Hk.
  exists (String.string_of_list_ascii (reverse k)).
  assert (∀ a b, String.string_of_list_ascii (a ++ b)%list =
    String.string_of_list_ascii a +:+ String.string_of_list_ascii b) as Happ.
  { induction a as [|x a IH]; intros b; [done|]. simpl. by rewrite IH. }
  rewrite <-Happ. unfold trim_end. fold w2_rev w3_rev.
  change (λ a b, ws2 b a) with w2_rev. change (λ a b c, ws3 c b a) with w3_rev.
  rewrite <-Hk. unfold l. simpl. by rewrite String.string_of_list_ascii_of_string.
Qed.

(** ** The byte order of strings *)

Lemma str_compare_refl s : String.compare s s = Eq.
Proof.
  pose proof (String.compare_antisym s s) as E. by destruct (String.compare s s).
Qed.

Lemma str_compare_eq s t : String.compare s t = Eq ↔ s = t.
Proof. split; [apply String.compare_eq_iff|intros ->; apply str_compare_refl]. Qed.

Lemma cmp_str_ok : cmp_ok String.compare.
Proof.
  split; [intros; apply String.compare_antisym|]. intros x y z.
  pose proof (str_leb_trans x y z) as T. unfold String.leb in T.
  destruct (String.compare x y), (String.compare y z), (String.compare x z); naive_solver.
Qed.
#[export] Hint Resolve cmp_str_ok : forge.

(** ** Matching, splitting, characters *)

(** A [match] of a string against groups of literals. *)
Fixpoint pick {A} (arms : list (list string * A)) (v : string) : option A :=
  match arms with
  | [] => None
  | (names, x) :: arms => if contains v names then Some x else pick arms v
  end.

(** [str::starts_with], [str::strip_prefix]. *)
Fixpoint strip_prefix (p s : string) : option string :=
  match p, s with
  | EmptyString, _ => Some s
  | String a p, String b s => if decide (a = b) then strip_prefix p s else None
  | String _ _, EmptyString => None
  end.

Definition starts_with (p s : string) : bool :=
  match strip_prefix p s with Some _ => true | None => false end.

Lemma strip_prefix_Some p s r : strip_prefix p s = Some r ↔ s = p +:+ r.
Proof.
  revert s. induction p as [|a p IH]; intros s; simpl.
  { rewrite str_app_nil_l. split; [by intros [= ->]|by intros ->]. }
  rewrite str_app_cons. destruct s as [|b s]; [done|].
  destruct (decide (a = b)) as [<-|Hne].
  - rewrite IH. split; [by intros ->|by intros [= ->]].
  - split; [done|]. by intros [= -> ->].
Qed.

Lemma starts_with_app p r : starts_with p (p +:+ r) = true.
Proof.
  unfold starts_with. by rewrite (proj2 (strip_prefix_Some p (p +:+ r) r) eq_refl).
Qed.

Definition str_rev (s : string) : string :=
  String.string_of_list_ascii (reverse (String.list_ascii_of_string s)).

(** [str::ends_with]. *)
Definition ends_with (p s : string) : bool := starts_with (str_rev p) (str_rev s).

(** The pieces of [split(c)]. *)
Fixpoint split_on (c : ascii) (s : string) : list string :=
  match s with
  | EmptyString => [""]
  | String d s =>
      if decide (c = d) then "" :: split_on c s else
      match split_on c s with
      | [] => [String d ""]
      | w :: ws => String d w :: ws
      end
  end.

Definition newline : ascii := ascii_of_N 10.
Definition carriage_return : ascii := ascii_of_N 13.

Definition strip_cr (line : string) : string :=
  match strip_prefix (String carriage_return "") (str_rev line) with
  | Some r => str_rev r
  | None => line
  end.

(** [str::lines]: the pieces between line feeds without a final empty one,
    each without one trailing carriage return. *)
Definition lines (s : string) : list string :=
  let ws := split_on newline s in
  let ws := match last ws with Some "" => removelast ws | _ => ws end in
  map strip_cr ws.

(** [str::split_whitespace]: the non-empty pieces between white space. *)
Fixpoint fields_from (cur : list ascii) (l : list ascii) : list (list ascii) :=
  let flush := match cur with [] => [] | _ => [reverse cur] end in
  match l with
  | [] => flush
  | a :: l1 =>
      if ws1 a then flush ++ fields_from [] l1 else
      match l1 with
      | [] => fields_from (a :: cur) l1
      | b :: l2 =>
          if ws2 a b then flush ++ fields_from [] l2 else
          match l2 with
          | [] => fields_from (a :: cur) l1
          | c :: l3 =>
              if ws3 a b c then flush ++ fields_from [] l3 else fields_from (a :: cur) l1
          end
      end
  end.

Definition split_whitespace (s : string) : list string :=
  String.string_of_list_ascii <$> fields_from [] (String.list_ascii_of_string s).

Example split_whitespace_ascii : split_whitespace " ab  c " = ["ab"; "c"].
Proof. reflexivity. Qed.

(** [str::chars]: a UTF-8 continuation byte belongs to the character before. *)
Definition is_continuation (c : ascii) : bool := byte_in (N_of_ascii c) 128 191.

Fixpoint chars (s : string) : list string :=
  match s with
  | EmptyString => []
  | String c s =>
      match chars s with
      | String d ch :: rest =>
          if is_continuation d then String c (String d ch) :: rest
          else String c "" :: String d ch :: rest
      | rest => String c "" :: rest
      end
  end.

Example chars_utf8 : chars "a…b" = ["a"; "…"; "b"]. Proof. reflexivity. Qed.

(** [char::is_ascii_hexdigit]. *)
Definition is_ascii_hexdigit (c : ascii) : bool :=
  let n := N_of_ascii c in byte_in n 48 57 || byte_in n 65 70 || byte_in n 97 102.

Definition all_chars (p : ascii → bool) (s : string) : bool :=
  forallb p (String.list_ascii_of_string s).

(** [str::contains] of a non-empty pattern. *)
Fixpoint str_contains (p s : string) : bool :=
  starts_with p s || match s with EmptyString => false | String _ s => str_contains p s end.

(** ** Unsigned integers of a radix up to 16 *)

Definition digit_value (c : ascii) : option Z :=
  let n := Z.of_N (N_of_ascii c) in
  if ((48 <=? n) && (n <=? 57))%Z then Some (n - 48)%Z
  else if ((97 <=? n) && (n <=? 102))%Z then Some (n - 87)%Z
  else if ((65 <=? n) && (n <=? 70))%Z then Some (n - 55)%Z else None.

Fixpoint radix_value (radix acc : Z) (s : string) : option Z :=
  match s with
  | EmptyString => Some acc
  | String c s =>
      let? d := digit_value c in
      if (d <? radix)%Z then radix_value radix (acc * radix + d) s else None
  end.

(** [from_str_radix] of the unsigned type with maximum [max]: a leading plus
    sign is accepted, an empty string and an overflow are errors. *)
Definition from_str_radix (radix max : Z) (s : string) : option Z :=
  let body := match s with String "+"%char (String c b) => String c b | _ => s end in
  if bool_decide (body = "") then None else
  let? v := radix_value radix 0 body in
  if (v <=? max)%Z then Some v else None.

Lemma radix_value_app radix acc a b :
  radix_value radix acc (a +:+ b)
  = (let? v := radix_value radix acc a in radix_value radix v b).
Proof.
  revert acc. induction a as [|c a IH]; intros acc; [done|]. str_simpl. simpl.
  destruct (digit_value c) as [d|]; [|done]. by destruct (_ <? _)%Z.
Qed.

(** ** Hexadecimal *)

Definition hex_digit (d : Z) : ascii := ascii_of_N (Z.to_N (if d <? 10 then 48 + d else 87 + d)%Z).

Fixpoint hex_from (digits : nat) (n : Z) : string :=
  match digits with
  | O => ""
  | S k => if (n <? 16)%Z then String (hex_digit n) ""
           else hex_from k (n / 16)%Z +:+ String (hex_digit (n mod 16)%Z) ""
  end.

(** [format!("{:#x}")] of a [u64]: sixteen digits hold it. *)
Definition lower_hex (n : Z) : string := "0x" +:+ hex_from 16 n.

Lemma digit_value_hex d : (0 <= d < 16)%Z → digit_value (hex_digit d) = Some d.
Proof.
  intros Hd. assert (d ∈ seqZ 0 16) as Hin by by apply elem_of_seqZ.
  vm_compute in Hin. repeat (apply elem_of_cons in Hin as [->|Hin]; [reflexivity|]).
  by apply not_elem_of_nil in Hin.
Qed.

Lemma hex_from_value k n : (0 <= n < 16 ^ Z.of_nat k)%Z → radix_value 16 0 (hex_from k n) = Some n.
Proof.
  revert n. induction k as [|k IH]; intros n Hn; [simpl in Hn |- *; f_equal; lia|].
  rewrite Nat2Z.inj_succ, Z.pow_succ_r in Hn by lia. cbn [hex_from].
  destruct (Z.ltb_spec n 16).
  - cbn [radix_value]. rewrite digit_value_hex by lia. destruct (Z.ltb_spec n 16); [|lia].
    cbn [radix_value]. f_equal; lia.
  - rewrite radix_value_app, IH by (split; [apply Z.div_pos|apply Z.div_lt_upper_bound]; lia).
    cbn [radix_value]. pose proof (Z.mod_pos_bound n 16 ltac:(lia)).
    rewrite digit_value_hex by lia. destruct (Z.ltb_spec (n mod 16) 16); [|lia].
    cbn [radix_value]. f_equal. pose proof (Z.div_mod n 16). lia.
Qed.

(** A number printed is a digit first, so it has no sign to strip. *)
Lemma hex_from_head k n : (0 <= n)%Z → ∃ d s, (0 <= d < 16)%Z ∧ hex_from (S k) n = String (hex_digit d) s.
Proof.
  revert n. induction k as [|k IH]; intros n Hn.
  - pose proof (Z.mod_pos_bound n 16 ltac:(lia)). cbn [hex_from].
    destruct (Z.ltb_spec n 16); [exists n|exists (n mod 16)%Z]; eexists; (split; [lia|]); [done|].
    str_simpl. done.
  - change (hex_from (S (S k)) n) with (if (n <? 16)%Z then String (hex_digit n) ""
      else hex_from (S k) (n / 16)%Z +:+ String (hex_digit (n mod 16)%Z) "").
    destruct (Z.ltb_spec n 16); [exists n; eexists; split; [lia|done]|].
    destruct (IH (n / 16)%Z) as (d & s & Hd & ->); [by apply Z.div_pos|].
    exists d. str_simpl. by eexists.
Qed.

Lemma radix_value_nonneg radix acc s v : (0 < radix)%Z → (0 <= acc)%Z → radix_value radix acc s = Some v → (0 <= v)%Z.
Proof.
  intros Hr. revert acc. induction s as [|c s IH]; intros acc Ha; simpl; [intros [= <-]; done|].
  destruct (digit_value c) as [d|] eqn:Ed; [|done]. destruct (d <? radix)%Z; [|done]. apply IH.
  assert (0 <= d)%Z; [|nia]. unfold digit_value in Ed.
  repeat (destruct (_ && _) eqn:?E in Ed; [injection Ed as <-; lia|]). done.
Qed.

(** What is read fits the type. *)
Lemma from_str_radix_range radix max s v : (0 < radix)%Z → from_str_radix radix max s = Some v → (0 <= v <= max)%Z.
Proof.
  intros Hr. unfold from_str_radix. set (body := match s with EmptyString => _ | String _ _ => _ end).
  case_bool_decide; [done|]. destruct (radix_value radix 0 body) as [w|] eqn:E; [|done].
  apply radix_value_nonneg in E; [|lia..]. destruct (Z.leb_spec w max); [|done]. intros [= <-]. lia.
Qed.

(** ** Decimal numerals *)

Lemma radix_value_pretty_go n s :
  radix_value 10 0 (pretty_N_go n s) = radix_value 10 (Z.of_N n) s.
Proof.
  revert s. induction (N.lt_wf_0 n) as [n _ IH]. intros s.
  destruct (decide (0 < n)%N) as [Hn|Hn]; [|assert (n = 0)%N as -> by lia; by rewrite pretty_N_go_0].
  rewrite pretty_N_go_step by done. rewrite IH by by apply N.div_lt. cbn [radix_value].
  pose proof (N.mod_lt n 10 ltac:(done)) as Hm.
  assert (digit_value (pretty_N_char (n mod 10)) = Some (Z.of_N (n mod 10))) as ->.
  { revert Hm. generalize (n mod 10)%N as d. intros d Hd. assert (Z.of_N d ∈ seqZ 0 10) as Hin by (apply elem_of_seqZ; lia).
    rewrite <-(N2Z.id d). revert Hin. generalize (Z.of_N d) as z. clear. intros z Hin.
    vm_compute in Hin. repeat (apply elem_of_cons in Hin as [->|Hin]; [reflexivity|]).
    by apply not_elem_of_nil in Hin. }
  destruct (Z.ltb_spec (Z.of_N (n mod 10)) 10); [|lia].
  f_equal. rewrite N2Z.inj_div, N2Z.inj_mod. pose proof (Z.div_mod (Z.of_N n) 10). lia.
Qed.

Lemma radix_value_pretty (z : Z) : (0 <= z)%Z → radix_value 10 0 (pretty z) = Some z.
Proof.
  intros Hz. destruct z as [|p|p]; [done| |lia].
  change (pretty (Z.pos p)) with (pretty (N.pos p)). unfold pretty, pretty_N.
  case_decide; [done|]. by rewrite radix_value_pretty_go.
Qed.

(** A number printed reads back. *)
Lemma from_str_radix_pretty (max z : Z) : (0 <= z <= max)%Z → from_str_radix 10 max (pretty z) = Some z.
Proof.
  intros Hz. pose proof (radix_value_pretty z ltac:(lia)) as Hv.
  assert (pretty z ≠ "") as He.
  { intros E. rewrite E in Hv. injection Hv as <-. done. }
  assert (no_char "+"%char (pretty z)) as Hp by by apply no_char_pretty_Z.
  revert Hv Hp He. generalize (pretty z) as s. intros s Hv Hp He. unfold from_str_radix.
  assert (match s with String "+"%char (String c b) => String c b | _ => s end = s) as ->.
  { destruct s as [|c s]; [done|]. destruct Hp as [Hp _].
    destruct c as [[] [] [] [] [] [] [] []]; try reflexivity. by destruct Hp. }
  rewrite bool_decide_eq_false_2 by done. rewrite Hv. cbn beta iota.
  destruct (Z.leb_spec z max); [done|lia].
Qed.
