(* ===== verification/Slices.v ===== *)
(** * Slices and searches of strings

    The [str] operations that index a string by bytes: slices, which panic when
    an end is past the string or inside a character, [find], [char_indices] and
    [char::is_whitespace]. *)
From stdpp Require Import base list strings.
From stdpp Require Import options.
From S2P Require Import Prelude Text.
Local Open Scope string_scope.
Local Open Scope list_scope.
Local Open Scope nat_scope.

(** [str::is_char_boundary] before a slice from [i]. *)
Definition char_boundary (i : nat) (s : string) : bool :=
  match String.get i s with Some c => negb (is_continuation c) | None => true end.

Fixpoint str_take (n : nat) (s : string) : string :=
  match n, s with
  | S n, String c s => String c (str_take n s)
  | _, _ => ""
  end.

Fixpoint str_drop (n : nat) (s : string) : string :=
  match n, s with
  | S n, String _ s => str_drop n s
  | _, _ => s
  end.

Definition in_bounds (i : nat) (s : string) : bool := (i <=? String.length s) && char_boundary i s.

(** [&s[i..]], [&s[..i]] and [&s[i..j]]. *)
Definition slice_from (i : nat) (s : string) : outcome string :=
  if in_bounds i s then Done (str_drop i s) else Panicked.

Definition slice_to (i : nat) (s : string) : outcome string :=
  if in_bounds i s then Done (str_take i s) else Panicked.

Definition slice (i j : nat) (s : string) : outcome string :=
  if (i <=? j) && in_bounds i s && in_bounds j s then Done (str_take (j - i) (str_drop i s)) else Panicked.

(** [str::find] of a string. *)
Fixpoint str_find (p s : string) : option nat :=
  if starts_with p s then Some 0 else
  match s with EmptyString => None | String _ s => S <$> str_find p s end.

(** [str::char_indices]. *)
Fixpoint indices_from (offset : nat) (l : list string) : list (nat * string) :=
  match l with
  | [] => []
  | ch :: l => (offset, ch) :: indices_from (offset + String.length ch) l
  end.

Definition char_indices (s : string) : list (nat * string) := indices_from 0 (chars s).

Fixpoint concat_str (l : list string) : string :=
  match l with [] => "" | ch :: l => ch +:+ concat_str l end.

(** [char::is_whitespace] of a character. *)
Definition is_whitespace (ch : string) : bool :=
  match ch with
  | String a EmptyString => ws1 a
  | String a (String b EmptyString) => ws2 a b
  | String a (String b (String c EmptyString)) => ws3 a b c
  | _ => false
  end.

(** ** Bytes *)

Lemma take_drop_str n s : str_take n s +:+ str_drop n s = s.
Proof.
  revert s. induction n as [|n IH]; intros [|c s]; try done.
  cbn [str_take str_drop]. by rewrite str_app_cons, IH.
Qed.

Lemma drop_drop_str i j s : str_drop i (str_drop j s) = str_drop (j + i) s.
Proof. revert s. induction j as [|j IH]; intros [|c s]; [done|done|by destruct i|apply IH]. Qed.

Lemma str_drop_app a b : str_drop (String.length a) (a +:+ b) = b.
Proof. induction a as [|c a IH]; [by rewrite str_app_nil_l|]. rewrite str_app_cons. apply IH. Qed.

Lemma str_take_app a b : str_take (String.length a) (a +:+ b) = a.
Proof.
  induction a as [|c a IH]; [by destruct (_ +:+ _)|]. rewrite str_app_cons. cbn [String.length str_take].
  by rewrite IH.
Qed.

Lemma length_str_drop n s : String.length (str_drop n s) = String.length s - n.
Proof. revert s. induction n as [|n IH]; intros [|c s]; try done. apply IH. Qed.

Lemma length_str_take n s : n <= String.length s → String.length (str_take n s) = n.
Proof.
  revert s. induction n as [|n IH]; intros [|c s] Hn; try done; [by inversion Hn|].
  cbn [str_take String.length] in *. rewrite IH by lia. done.
Qed.

Lemma get_app a b i : String.get (String.length a + i) (a +:+ b) = String.get i b.
Proof. induction a as [|c a IH]; [by rewrite str_app_nil_l|]. rewrite str_app_cons. apply IH. Qed.

Lemma get_drop i j s : String.get j (str_drop i s) = String.get (i + j) s.
Proof. revert s. induction i as [|i IH]; intros [|c s]; [done|done|by destruct j|apply IH]. Qed.

Lemma boundary_app a b i : char_boundary (String.length a + i) (a +:+ b) = char_boundary i b.
Proof. unfold char_boundary. by rewrite get_app. Qed.

Lemma boundary_drop i j s : char_boundary j (str_drop i s) = char_boundary (i + j) s.
Proof. unfold char_boundary. by rewrite get_drop. Qed.

Lemma in_bounds_app a b : char_boundary 0 b = true → in_bounds (String.length a) (a +:+ b) = true.
Proof.
  intros Hb. unfold in_bounds. rewrite str_length_app.
  pose proof (boundary_app a b 0) as E. rewrite Nat.add_0_r in E. rewrite E, Hb, andb_true_r.
  apply Nat.leb_le. lia.
Qed.

(** The pieces of a string cut at boundaries. *)
Lemma slice_app a b c : char_boundary 0 (b +:+ c) = true → char_boundary 0 c = true →
  slice (String.length a) (String.length a + String.length b) (a +:+ (b +:+ c)) = Done b.
Proof.
  intros H1 H2. unfold slice. rewrite (in_bounds_app a (b +:+ c)) by done.
  pose proof (in_bounds_app (a +:+ b) c H2) as E. rewrite str_length_app, <-str_app_assoc in E. rewrite E.
  rewrite (proj2 (Nat.leb_le _ _)) by lia. cbn [andb].
  rewrite str_drop_app. replace (_ + _ - _) with (String.length b) by lia. by rewrite str_take_app.
Qed.

(** ** Searching *)

Lemma starts_with_spec p s : starts_with p s = true ↔ ∃ r, s = p +:+ r.
Proof.
  unfold starts_with. destruct (strip_prefix p s) as [r|] eqn:E.
  - apply strip_prefix_Some in E. split; [by exists r|done].
  - split; [done|]. intros [r Hr%strip_prefix_Some]. congruence.
Qed.

Lemma str_find_Some p s i : str_find p s = Some i →
  i <= String.length s ∧ starts_with p (str_drop i s) = true
  ∧ ∀ j, j < i → starts_with p (str_drop j s) = false.
Proof.
  revert i. induction s as [|c s IH]; intros i; cbn [str_find].
  - destruct (starts_with p "") eqn:E; [|done]. intros [= <-]. split_and!; [lia|done|lia].
  - destruct (starts_with p (String c s)) eqn:E.
    + intros [= <-]. split_and!; [lia|done|lia].
    + destruct (str_find p s) as [k|] eqn:Ek; [|done]. intros [= <-].
      destruct (IH k eq_refl) as (H1 & H2 & H3). cbn [String.length]. split_and!; [lia|done|].
      intros [|j] Hj; [done|]. apply H3. lia.
Qed.

Lemma str_find_None p s : p ≠ "" → str_find p s = None → ∀ j, starts_with p (str_drop j s) = false.
Proof.
  intros Hp. induction s as [|c s IH]; cbn [str_find].
  - destruct (starts_with p "") eqn:E; [done|]. intros _ j. by destruct j.
  - destruct (starts_with p (String c s)) eqn:E; [done|].
    destruct (str_find p s) as [k|] eqn:Ek; [done|]. intros _ [|j]; [done|]. by apply IH.
Qed.

(** ** Characters *)

Lemma chars_concat s : concat_str (chars s) = s.
Proof.
  induction s as [|c s IH]; [done|]. cbn [chars]. destruct (chars s) as [|[|d ch] rest]; cbn [concat_str] in *.
  - subst s. done.
  - rewrite <-IH. done.
  - destruct (is_continuation d); cbn [concat_str]; rewrite <-IH; done.
Qed.

Definition starts_char (ch : string) : Prop :=
  match ch with String c _ => is_continuation c = false | EmptyString => False end.

Lemma chars_starts s : Forall starts_char (tail (chars s)) ∧ Forall (λ ch, ch ≠ "") (chars s).
Proof.
  induction s as [|c s [IH1 IH2]]; [by split; constructor|]. cbn [chars].
  destruct (chars s) as [|[|d ch] rest]; [by split; repeat constructor| |].
  - inversion_clear IH2. done.
  - inversion_clear IH2. cbn [tail] in IH1. destruct (is_continuation d) eqn:E; cbn [tail].
    + split; [done|by constructor].
    + split; [by constructor|by repeat constructor].
Qed.

Lemma boundary_chars ch l : Forall starts_char (ch :: l) → char_boundary 0 (concat_str (ch :: l)) = true.
Proof.
  intros Hf. inversion_clear Hf as [|? ? Hs _]. destruct ch as [|c ch]; [done|].
  change (is_continuation c = false) in Hs. change (negb (is_continuation c) = true). by rewrite Hs.
Qed.

(** What follows a non-empty run of characters starts at a boundary. *)
Lemma boundary_after s pre post : chars s = pre ++ post → pre ≠ [] → char_boundary 0 (concat_str post) = true.
Proof.
  intros E Hp. destruct pre as [|c pre]; [done|]. destruct post as [|d post]; [done|].
  apply boundary_chars. pose proof (proj1 (chars_starts s)) as H. rewrite E in H. cbn [tail app] in H.
  by apply Forall_app in H as [_ H].
Qed.

Lemma concat_str_app l k : concat_str (l ++ k) = concat_str l +:+ concat_str k.
Proof. induction l as [|c l IH]; [done|]. cbn [concat_str app]. by rewrite IH, str_app_assoc. Qed.

Definition is_ascii (c : ascii) : bool := (N_of_ascii c <? 128)%N.

Lemma ascii_not_continuation c : is_ascii c = true → is_continuation c = false.
Proof.
  unfold is_ascii, is_continuation, byte_in. rewrite N.ltb_lt. intros H.
  apply andb_false_iff. left. apply N.leb_gt. lia.
Qed.

(** Characters end where an ASCII byte starts one. *)
Lemma chars_app_ascii a c b : is_continuation c = false → chars (a +:+ String c b) = chars a ++ chars (String c b).
Proof.
  intros Hc. induction a as [|d a IH]; [done|]. rewrite str_app_cons. cbn [chars]. rewrite IH. clear IH.
  destruct (chars a) as [|[|e ch] rest]; [|done|].
  - cbn [app]. cbn [chars]. destruct (chars b) as [|[|x y] z]; [by rewrite Hc|by rewrite Hc|].
    destruct (is_continuation x); by rewrite Hc.
  - cbn [app]. by destruct (is_continuation e).
Qed.

Lemma last_char_ascii a c : is_continuation c = false → last (chars (a +:+ String c "")) = Some (String c "").
Proof. intros Hc. rewrite chars_app_ascii by done. by rewrite last_app. Qed.

Lemma length_chars_ascii s : all_chars is_ascii s = true → length (chars s) = String.length s.
Proof.
  unfold all_chars. induction s as [|c s IH]; [done|]. cbn. intros [Hc Hs]%andb_prop. specialize (IH Hs).
  destruct s as [|d s]; [done|]. cbn in Hs. apply andb_prop in Hs as [Hd _].
  destruct (chars (String d s)) as [|[|e ch] rest] eqn:E; [done|by cbn in *; lia|].
  assert (e = d) as ->.
  { pose proof (chars_concat (String d s)) as Ec. rewrite E in Ec. cbn in Ec. by injection Ec. }
  rewrite (ascii_not_continuation _ Hd). cbn in *. lia.
Qed.

Lemma ascii_boundary s i : all_chars is_ascii s = true → char_boundary i s = true.
Proof.
  unfold all_chars, char_boundary. revert i. induction s as [|c s IH]; intros i; [by destruct i|].
  cbn. intros [Hc Hs]%andb_prop. destruct i as [|i]; [|by apply IH]. by rewrite (ascii_not_continuation _ Hc).
Qed.
