(* ===== verification/Rows.v ===== *)
(** * Tables as lists of rows

    [INSERT .. ON CONFLICT DO NOTHING] on a table kept as the list of its rows
    in insertion order, for a key given by the test [same]. *)
From S2P Require Import Prelude.
From stdpp Require Import options.
Local Open Scope list_scope.

Section insert.
Context {A : Type} (same : A → A → bool).

Definition insert_absent (row : A) (rows : list A) : list A :=
  if existsb (same row) rows then rows else rows ++ [row].

(** No two rows share a key. *)
Definition unique_rows (rows : list A) : Prop :=
  ∀ i j a b, rows !! i = Some a → rows !! j = Some b → same a b = true → i = j.

Context (same_sym : ∀ a b, same a b = same b a).

Lemma insert_absent_unique row rows : unique_rows rows → unique_rows (insert_absent row rows).
Proof using same_sym.
  intros Hu. unfold insert_absent. destruct (existsb (same row) rows) eqn:E; [done|].
  rewrite existsb_false_elem in E.
  intros i j a b Hi Hj Hs.
  apply lookup_app_Some in Hi as [Hi|[Li Hi]]; apply lookup_app_Some in Hj as [Hj|[Lj Hj]].
  - by eapply Hu.
  - apply list_lookup_singleton_Some in Hj as [? <-].
    rewrite same_sym, E in Hs; [done|]. by eapply list_elem_of_lookup_2.
  - apply list_lookup_singleton_Some in Hi as [? <-].
    rewrite E in Hs; [done|]. by eapply list_elem_of_lookup_2.
  - apply list_lookup_singleton_Some in Hi as [? _].
    apply list_lookup_singleton_Some in Hj as [? _]. lia.
Qed.

Lemma insert_absent_again row rows (Hrefl : same row row = true) :
  insert_absent row (insert_absent row rows) = insert_absent row rows.
Proof.
  unfold insert_absent at 2 3. destruct (existsb (same row) rows) eqn:E.
  - unfold insert_absent. by rewrite E.
  - unfold insert_absent. rewrite existsb_app. cbn [existsb]. by rewrite Hrefl, orb_true_r.
Qed.

Lemma insert_absent_exists row rows (Hrefl : same row row = true) :
  existsb (same row) (insert_absent row rows) = true.
Proof.
  unfold insert_absent. destruct (existsb (same row) rows) eqn:E; [done|].
  rewrite existsb_app, E. cbn [existsb]. by rewrite Hrefl.
Qed.

(** A row with the key is there afterwards: the first one that came. *)
Lemma insert_absent_found row rows (Hrefl : same row row = true) :
  find_first (same row) (insert_absent row rows)
  = Some (default row (find_first (same row) rows)).
Proof.
  assert (∀ l, find_first (same row) (l ++ [row]) = Some (default row (find_first (same row) l))) as Hl.
  { induction l as [|x l IH]; cbn [app find_first]; [by rewrite Hrefl|]. by destruct (same row x). }
  unfold insert_absent. destruct (existsb (same row) rows) eqn:E; [|apply Hl].
  destruct (find_first (same row) rows) eqn:F; [done|].
  rewrite find_first_None in F. apply existsb_exists_elem in E as (x & Hx & Hs).
  by rewrite (F x Hx) in Hs.
Qed.
End insert.
