(* ===== verification/Domain.v ===== *)
(** * The frozen domain types (src/src/sf/)

    The data the runtime modules consume: the enums and structs of core.rs,
    graph.rs, token.rs, browser.rs, execution.rs and recent.rs, one [Module]
    per Rust type so that a constructor or a field is written with the name
    the source gives it ([TruthStatus.Confirmed], [EntityEdge.valid_from]).

    Representation: a [String] is its bytes; an [Option] is an [option]; an
    [f64] is an IEEE binary64 [spec_float]; a chrono [DateTime<Utc>] is its
    nanoseconds since the epoch, whose order is the instants' order (the
    parser of RFC 3339 text is a parameter of the functions that parse); a
    [serde_json::Value] that the program only stores is a type parameter. *)
From S2P Require Import Prelude Text.
From Stdlib Require Export SpecFloat.
From stdpp Require Import options.
Local Open Scope string_scope.

(** An instant, in nanoseconds; [num_seconds] of a difference truncates. *)
Definition instant := Z.
Definition num_seconds (d : Z) : Z := Z.quot d 1000000000.
(** [DateTime::timestamp]: the whole seconds, rounded down. *)
Definition timestamp (t : instant) : Z := Z.div t 1000000000.

(** ** core.rs *)

Module TruthStatus.
Inductive TruthStatus :=
  | Unknown | Confirmed | Disputed | Superseded | Erroneous.
#[global] Instance TruthStatus_eq_dec : EqDecision TruthStatus.
Proof. solve_decision. Defined.
End TruthStatus.
Abbreviation TruthStatus := TruthStatus.TruthStatus.

Module SourceHealthState.
Inductive SourceHealthState :=
  | Up | Silent | Degraded | Down | Recovering | Disabled.
#[global] Instance SourceHealthState_eq_dec : EqDecision SourceHealthState.
Proof. solve_decision. Defined.

Definition health_rank (s : SourceHealthState) : Z :=
  match s with
  | Up => 4 | Recovering => 3 | Degraded => 2 | Silent => 1
  | Down => 0 | Disabled => 0
  end.
End SourceHealthState.
Abbreviation SourceHealthState := SourceHealthState.SourceHealthState.

(** ** graph.rs *)

Module NodeType.
Inductive NodeType :=
  | Token | Contract | TokenFamily | Wallet | WalletCluster | Caller
  | SourceAccount | Post | Message | ExternalEvent | Narrative | Pool
  | Position | Strategy | Policy | Decision | Intent | Execution.
#[global] Instance NodeType_eq_dec : EqDecision NodeType.
Proof. solve_decision. Defined.
End NodeType.
Abbreviation NodeType := NodeType.NodeType.

Module EdgeType.
Inductive EdgeType :=
  | DeployedBy | FundedBy | CalledBy | AmplifiedBy | DerivedFrom
  | OfficiallyAdoptedBy | FirstLiquidOn | Holds | Swapped | LpProvided
  | SameFamilyAs | EvidencedBy | ResultedIn
  | SameDeployer | SameAuthority | SameFeePayer | SameFunder
  | SameSocialAccount | ReusedSocialLink | OfficialCaAnnouncement
  | CrossChainDeployment | SuspectedCopycat | LiquidityAttentionRotatedTo.
#[global] Instance EdgeType_eq_dec : EqDecision EdgeType.
Proof. solve_decision. Defined.
End EdgeType.
Abbreviation EdgeType := EdgeType.EdgeType.

Module EntityNode.
Record EntityNode := mk {
  entity_key : string;
  node_type : NodeType;
}.
End EntityNode.
Abbreviation EntityNode := EntityNode.EntityNode.

Module EntityEdge.
Record EntityEdge := mk {
  from_entity_key : string;
  to_entity_key : string;
  edge_type : EdgeType;
  occurred_at : string;
  source_id : option string;
  truth_status : TruthStatus;
  confidence : option spec_float;
  valid_from : string;
  valid_until : option string;
  supersedes : option string;
  evidence_refs : list string;
}.
End EntityEdge.
Abbreviation EntityEdge := EntityEdge.EntityEdge.

(** ** token.rs *)

Module TokenLifecycle.
Inductive TokenLifecycle :=
  | Created | PreGraduation | Migrated | FirstLiquidity | Active | Cooling
  | Dormant | Archived | Tombstoned.
#[global] Instance TokenLifecycle_eq_dec : EqDecision TokenLifecycle.
Proof. solve_decision. Defined.
End TokenLifecycle.
Abbreviation TokenLifecycle := TokenLifecycle.TokenLifecycle.

(** ** browser.rs *)

Module BrowserPlatform.
Inductive BrowserPlatform := X | Tiktok | Web.
End BrowserPlatform.
Abbreviation BrowserPlatform := BrowserPlatform.BrowserPlatform.

Module ChallengeHealth.
Inductive ChallengeHealth := Ok | ChallengeDetected | Failed.
#[global] Instance ChallengeHealth_eq_dec : EqDecision ChallengeHealth.
Proof. solve_decision. Defined.
End ChallengeHealth.
Abbreviation ChallengeHealth := ChallengeHealth.ChallengeHealth.

Module SessionHealth.
Inductive SessionHealth := Ok | Expired | Invalid.
#[global] Instance SessionHealth_eq_dec : EqDecision SessionHealth.
Proof. solve_decision. Defined.
End SessionHealth.
Abbreviation SessionHealth := SessionHealth.SessionHealth.

(** ** recent.rs *)

Module RecentRelation.
Inductive RecentRelation :=
  | SameDeployer | SameAuthority | SameFeePayer | SameFunder
  | FundedByKnownDeployer | SameSocialAccount | ReusedSocialLink
  | OfficialCaAnnouncement | CrossChainDeployment | DerivativeOf
  | SuspectedCopycat | LiquidityAttentionRotatedTo.
#[global] Instance RecentRelation_eq_dec : EqDecision RecentRelation.
Proof. solve_decision. Defined.
#[global] Program Instance RecentRelation_finite : Finite RecentRelation := {|
  enum := [SameDeployer; SameAuthority; SameFeePayer; SameFunder;
           FundedByKnownDeployer; SameSocialAccount; ReusedSocialLink;
           OfficialCaAnnouncement; CrossChainDeployment; DerivativeOf;
           SuspectedCopycat; LiquidityAttentionRotatedTo] |}.
Next Obligation. by apply (bool_decide_unpack _). Qed.
Next Obligation. by intros []; apply (bool_decide_unpack _). Qed.

Definition as_str (r : RecentRelation) : string :=
  match r with
  | SameDeployer => "same_deployer"
  | SameAuthority => "same_authority"
  | SameFeePayer => "same_fee_payer"
  | SameFunder => "same_funder"
  | FundedByKnownDeployer => "funded_by_known_deployer"
  | SameSocialAccount => "same_social_account"
  | ReusedSocialLink => "reused_social_link"
  | OfficialCaAnnouncement => "official_ca_announcement"
  | CrossChainDeployment => "cross_chain_deployment"
  | DerivativeOf => "derivative_of"
  | SuspectedCopycat => "suspected_copycat"
  | LiquidityAttentionRotatedTo => "liquidity_attention_rotated_to"
  end.

#[global] Instance as_str_inj : Inj (=) (=) as_str.
Proof. intros [] []; done. Qed.
End RecentRelation.
Abbreviation RecentRelation := RecentRelation.RecentRelation.

Module RecentConfidence.
Inductive RecentConfidence := Exact | Reconstructed | Estimated | Insufficient.
#[global] Instance RecentConfidence_eq_dec : EqDecision RecentConfidence.
Proof. solve_decision. Defined.

Definition as_str (c : RecentConfidence) : string :=
  match c with
  | Exact => "exact"
  | Reconstructed => "reconstructed"
  | Estimated => "estimated"
  | Insufficient => "insufficient"
  end.

Definition rank (c : RecentConfidence) : Z :=
  match c with
  | Exact => 3 | Reconstructed => 2 | Estimated => 1 | Insufficient => 0
  end.

#[global] Instance as_str_inj : Inj (=) (=) as_str.
Proof. intros [] []; done. Qed.
End RecentConfidence.
Abbreviation RecentConfidence := RecentConfidence.RecentConfidence.

Module IdentityKind.
Inductive IdentityKind := Token | Wallet | Social | Website | Telegram.
#[global] Instance IdentityKind_eq_dec : EqDecision IdentityKind.
Proof. solve_decision. Defined.
#[global] Program Instance IdentityKind_finite : Finite IdentityKind := {|
  enum := [Token; Wallet; Social; Website; Telegram] |}.
Next Obligation. by apply (bool_decide_unpack _). Qed.
Next Obligation. by intros []; apply (bool_decide_unpack _). Qed.

Definition as_str (k : IdentityKind) : string :=
  match k with
  | Token => "token"
  | Wallet => "wallet"
  | Social => "social"
  | Website => "website"
  | Telegram => "telegram"
  end.

#[global] Instance as_str_inj : Inj (=) (=) as_str.
Proof. intros [] []; done. Qed.
End IdentityKind.
Abbreviation IdentityKind := IdentityKind.IdentityKind.

Module IdentityKey.
Record IdentityKey := mk {
  kind : IdentityKind;
  value : string;
}.
#[global] Instance IdentityKey_eq_dec : EqDecision IdentityKey.
Proof. solve_decision. Defined.
End IdentityKey.
Abbreviation IdentityKey := IdentityKey.IdentityKey.

Module ActorExtraction.
Record ActorExtraction := mk {
  token : string;
  deployer : option string;
  authority : option string;
  fee_payer : option string;
  factory : option string;
  initial_funder : option string;
  authority_changes : list string;
  social_identities : list string;
}.
End ActorExtraction.
Abbreviation ActorExtraction := ActorExtraction.ActorExtraction.

Module ActivationTrigger.
Inductive ActivationTrigger :=
  | FirstLiquidity | Migration | CredibleCaller | SmartWalletEntry
  | FreshWalletBurst | RevivalWake | VolumeActivation | SocialProfileChange
  | OperatorRequest.
#[global] Instance ActivationTrigger_eq_dec : EqDecision ActivationTrigger.
Proof. solve_decision. Defined.
End ActivationTrigger.
Abbreviation ActivationTrigger := ActivationTrigger.ActivationTrigger.

Module Coverage.
Inductive Coverage := Full | Degraded | OnDemand | Unavailable.
#[global] Instance Coverage_eq_dec : EqDecision Coverage.
Proof. solve_decision. Defined.
End Coverage.
Abbreviation Coverage := Coverage.Coverage.

Module CapabilityStatus.
Inductive CapabilityStatus := Available | Insufficient | Unavailable.
#[global] Instance CapabilityStatus_eq_dec : EqDecision CapabilityStatus.
Proof. solve_decision. Defined.
End CapabilityStatus.
Abbreviation CapabilityStatus := CapabilityStatus.CapabilityStatus.

Module Freshness.
Record Freshness := mk {
  checked_at : instant;
  age_seconds : Z;
}.
End Freshness.
Abbreviation Freshness := Freshness.Freshness.

Module Retraction.
Record Retraction := mk {
  target_event_id : string;
  retracted_at : instant;
  truth_status : TruthStatus;
}.
End Retraction.
Abbreviation Retraction := Retraction.Retraction.

Module OfficialSocialBinding.
Record OfficialSocialBinding := mk {
  immutable_account_id : string;
  chain_qualified_contract : string;
  valid_from : instant;
  valid_until : option instant;
}.
End OfficialSocialBinding.
Abbreviation OfficialSocialBinding := OfficialSocialBinding.OfficialSocialBinding.

Module RecentEvent.
Record RecentEvent := mk {
  event_id : string;
  event_type : string;
  anchor_identity : string;
  related_identities : list IdentityKey;
  chain_qualified_contract : string;
  occurred_at : instant;
  observed_at : instant;
  relation : option RecentRelation;
  truth_status : TruthStatus;
  confidence : option spec_float;
  confidence_level : RecentConfidence;
  evidence_refs : list string;
  dependency_group : option string;
  freshness : option Freshness;
  coverage : Coverage;
  capability_status : CapabilityStatus;
  missing_inputs : list string;
  retraction : option Retraction;
  is_current_coverage : bool;
}.
End RecentEvent.
Abbreviation RecentEvent := RecentEvent.RecentEvent.

Module RecentTimeline.
Record RecentTimeline := mk {
  token : string;
  events : list RecentEvent;
}.
End RecentTimeline.
Abbreviation RecentTimeline := RecentTimeline.RecentTimeline.

Module CandidateRelation.
Record CandidateRelation := mk {
  to_identity : IdentityKey;
  relation : RecentRelation;
  confidence : RecentConfidence;
  evidence_refs : list string;
}.
End CandidateRelation.
Abbreviation CandidateRelation := CandidateRelation.CandidateRelation.

Module SocialEvidenceKind.
Inductive SocialEvidenceKind :=
  | OfficialCaAnnouncement | Mention | ProfileCaChange | ProfileLinkChange.
End SocialEvidenceKind.
Abbreviation SocialEvidenceKind := SocialEvidenceKind.SocialEvidenceKind.

Module SocialEvidenceObservation.
Record SocialEvidenceObservation := mk {
  platform : BrowserPlatform;
  post_or_profile_id : string;
  immutable_account_id : string;
  text_media_hash : string;
  published_at : instant;
  observed_at : instant;
  announced_contract : option string;
  relation_kind : SocialEvidenceKind;
  raw_ref : string;
  parser_version : string;
  coverage : Coverage;
  session_health : SessionHealth;
}.
End SocialEvidenceObservation.
Abbreviation SocialEvidenceObservation := SocialEvidenceObservation.SocialEvidenceObservation.
