(* ===== verification/EventKeys.v ===== *)
(** * Stable event keys (src/src/sf/recent_pipeline.rs)

    The content-derived keys that make the recent-intelligence pipeline
    idempotent: the relation key, the coverage key, their two superseded
    encodings, and the workspace scope they bind.

    The digest is the [sha2] crate's: it is a parameter, [sha256_hex], the
    rendering [{:x}] of the digest of the bytes absorbed so far.  No theorem
    assumes it injective: where a theorem needs two preimages to be told apart
    it gives, as the alternative, two distinct byte strings with one digest. *)
From S2P Require Import Prelude Text Domain.
From stdpp Require Import options.
Local Open Scope string_scope.

(** ** Workspace scope *)

Module WorkspaceScope.
Record WorkspaceScope := mk { id : Z }.

Definition from_job_context (workspace_id : Z) : result WorkspaceScope :=
  if (workspace_id <=? 0)%Z
  then RErr ("workspace id must be positive; got " +:+ pretty workspace_id)
  else ROk (mk workspace_id).
End WorkspaceScope.
Abbreviation WorkspaceScope := WorkspaceScope.WorkspaceScope.

Definition RELATION_KEY_VERSION : Z := 2.
Definition COVERAGE_KEY_VERSION : Z := 2.
Definition COVERAGE_REFRESH_SECONDS : Z := 6 * 60 * 60.

(** Canonical bytes of a set: sorted, deduplicated, each item framed. *)
Definition canonical_set_bytes (items : list string) : string :=
  frames (canonical_set items).

Section keys.
Context (sha256_hex : string → string).

(** ** Relation keys *)

Definition relation_preimage (workspace : WorkspaceScope)
    (anchor relation target : string) (target_kind : IdentityKind)
    (confidence : RecentConfidence) (evidence_refs : list string) : string :=
  frame (le_bytes 4 RELATION_KEY_VERSION)
    +:+ frame (le_bytes 8 (WorkspaceScope.id workspace))
    +:+ frame anchor +:+ frame relation +:+ frame target
    +:+ frame (IdentityKind.as_str target_kind)
    +:+ frame (RecentConfidence.as_str confidence)
    +:+ frame (canonical_set_bytes evidence_refs).

Definition relation_event_key (workspace : WorkspaceScope)
    (anchor relation target : string) (target_kind : IdentityKind)
    (confidence : RecentConfidence) (evidence_refs : list string) : string :=
  "rel:" +:+ sha256_hex (relation_preimage workspace anchor relation target
    target_kind confidence evidence_refs).

Definition relation_event_key_rev065 (workspace : WorkspaceScope)
    (anchor relation target : string) (target_kind : IdentityKind)
    (confidence : RecentConfidence) (evidence_refs : list string) : string :=
  "rel:" +:+ sha256_hex (
    frame (le_bytes 8 (WorkspaceScope.id workspace))
      +:+ frame anchor +:+ frame relation +:+ frame target
      +:+ frame (IdentityKind.as_str target_kind)
      +:+ frame (RecentConfidence.as_str confidence)
      +:+ frame (canonical_set_bytes evidence_refs)).

Definition relation_event_key_rev063 (workspace : WorkspaceScope)
    (anchor relation target : string) (target_kind : IdentityKind)
    (confidence : RecentConfidence) (evidence_refs : list string) : string :=
  "rel:" +:+ sha256_hex (
    le_bytes 8 (WorkspaceScope.id workspace) +:+ "|" +:+ anchor +:+ "|"
      +:+ relation +:+ "|" +:+ target +:+ "|"
      +:+ IdentityKind.as_str target_kind +:+ "|"
      +:+ RecentConfidence.as_str confidence +:+ "|"
      +:+ canonical_set_bytes evidence_refs).

Definition legacy_relation_event_keys (workspace : WorkspaceScope)
    (anchor relation target : string) (target_kind : IdentityKind)
    (confidence : RecentConfidence) (evidence_refs : list string) : list string :=
  [relation_event_key_rev065 workspace anchor relation target target_kind
     confidence evidence_refs;
   relation_event_key_rev063 workspace anchor relation target target_kind
     confidence evidence_refs].

(** ** Coverage keys *)

Definition coverage_preimage (workspace : WorkspaceScope) (anchor : string)
    (missing_inputs : list string) (refresh_bucket : Z) (predecessor : string) : string :=
  frame (le_bytes 4 COVERAGE_KEY_VERSION)
    +:+ frame (le_bytes 8 (WorkspaceScope.id workspace))
    +:+ frame anchor +:+ frame (canonical_set_bytes missing_inputs)
    +:+ frame (le_bytes 8 refresh_bucket) +:+ frame predecessor.

Definition coverage_event_key (workspace : WorkspaceScope) (anchor : string)
    (missing_inputs : list string) (refresh_bucket : Z) (predecessor : string) : string :=
  "cov:" +:+ sha256_hex (coverage_preimage workspace anchor missing_inputs
    refresh_bucket predecessor).

Definition coverage_event_key_rev065 (workspace : WorkspaceScope) (anchor : string)
    (missing_inputs : list string) (refresh_bucket : Z) (predecessor : string) : string :=
  "cov:" +:+ sha256_hex (
    frame (le_bytes 8 (WorkspaceScope.id workspace))
      +:+ frame anchor +:+ frame (canonical_set_bytes missing_inputs)
      +:+ frame (le_bytes 8 refresh_bucket) +:+ frame predecessor).

Definition coverage_event_key_rev063 (workspace : WorkspaceScope) (anchor : string)
    (missing_inputs : list string) (refresh_bucket : Z) (predecessor : string) : string :=
  "cov:" +:+ sha256_hex (
    le_bytes 8 (WorkspaceScope.id workspace) +:+ "|" +:+ anchor +:+ "|"
      +:+ canonical_set_bytes missing_inputs +:+ "|"
      +:+ le_bytes 8 refresh_bucket +:+ "|" +:+ predecessor).

Definition legacy_coverage_event_keys (workspace : WorkspaceScope) (anchor : string)
    (missing_inputs : list string) (refresh_bucket : Z) (predecessor : string) :
    list string :=
  [coverage_event_key_rev065 workspace anchor missing_inputs refresh_bucket predecessor;
   coverage_event_key_rev063 workspace anchor missing_inputs refresh_bucket predecessor].

(** ** Specification vocabulary *)

(** Two distinct byte strings with one digest. *)
Definition digest_collision : Prop := ∃ p q, p ≠ q ∧ sha256_hex p = sha256_hex q.

Lemma digest_eq p q : sha256_hex p = sha256_hex q → p = q ∨ digest_collision.
Proof. intros H. destruct (decide (p = q)); [by left|right]. by exists p, q. Qed.

Lemma prefixed_digest_eq pre p q :
  pre +:+ sha256_hex p = pre +:+ sha256_hex q → p = q ∨ digest_collision.
Proof. intros H. apply digest_eq. by apply (String.app_inj pre) in H. Qed.

(** The fact a relation key identifies, and when two of them are one fact: the
    evidence is a set. *)
Record RelationFact := MkRelationFact {
  rf_workspace : WorkspaceScope;
  rf_anchor : string;
  rf_relation : string;
  rf_target : string;
  rf_kind : IdentityKind;
  rf_confidence : RecentConfidence;
  rf_evidence : list string;
}.

Definition same_relation_fact (f g : RelationFact) : Prop :=
  rf_workspace f = rf_workspace g ∧ rf_anchor f = rf_anchor g ∧
  rf_relation f = rf_relation g ∧ rf_target f = rf_target g ∧
  rf_kind f = rf_kind g ∧ rf_confidence f = rf_confidence g ∧
  ∀ x, x ∈ rf_evidence f ↔ x ∈ rf_evidence g.

(** The values fit their Rust types: an [i64] workspace and in-memory strings. *)
Definition relation_fact_sized (f : RelationFact) : Prop :=
  is_i64 (WorkspaceScope.id (rf_workspace f)) ∧ slice_len (rf_anchor f) ∧
  slice_len (rf_relation f) ∧ slice_len (rf_target f) ∧
  Forall slice_len (rf_evidence f) ∧ slice_len (canonical_set_bytes (rf_evidence f)).

Definition relation_fact_key (f : RelationFact) : string :=
  relation_event_key (rf_workspace f) (rf_anchor f) (rf_relation f) (rf_target f)
    (rf_kind f) (rf_confidence f) (rf_evidence f).

(** ** Lemmas *)

Lemma slice_len_le_bytes n z : (Z.of_nat n <= i64_max)%Z → slice_len (le_bytes n z).
Proof. unfold slice_len. by rewrite le_bytes_length. Qed.

Lemma slice_len_le4 z : slice_len (le_bytes 4 z).
Proof. by apply slice_len_le_bytes. Qed.

Lemma slice_len_le8 z : slice_len (le_bytes 8 z).
Proof. by apply slice_len_le_bytes. Qed.

Lemma slice_len_kind k : slice_len (IdentityKind.as_str k).
Proof. by destruct k. Qed.

Lemma slice_len_confidence c : slice_len (RecentConfidence.as_str c).
Proof. by destruct c. Qed.

Lemma canonical_set_bytes_inj l1 l2 :
  Forall slice_len l1 → Forall slice_len l2 →
  canonical_set_bytes l1 = canonical_set_bytes l2 → ∀ x, x ∈ l1 ↔ x ∈ l2.
Proof.
  intros H1 H2 H%frames_inj; [by apply canonical_set_eq|by apply canonical_set_Forall..].
Qed.

Lemma canonical_set_bytes_ext l1 l2 :
  (∀ x, x ∈ l1 ↔ x ∈ l2) → canonical_set_bytes l1 = canonical_set_bytes l2.
Proof. intros H%canonical_set_eq. unfold canonical_set_bytes. by rewrite H. Qed.

Lemma frame_le_bytes_neq n m x y a b :
  n ≠ m → (Z.of_nat n <= i64_max)%Z → (Z.of_nat m <= i64_max)%Z →
  frame (le_bytes n x) +:+ a ≠ frame (le_bytes m y) +:+ b.
Proof.
  intros Hne Hn Hm H. apply Hne.
  apply frame_app_inj in H as [H _]; [|by apply slice_len_le_bytes..].
  apply (f_equal String.length) in H. by rewrite !le_bytes_length in H.
Qed.
End keys.

Create HintDb slice_len.
#[export] Hint Resolve slice_len_kind slice_len_confidence slice_len_le4 slice_len_le8
  : slice_len.

(** Peel the frames of an equation of concatenated frames, one at a time. *)
Ltac peel_frames H :=
  repeat lazymatch type of H with
  | frame _ +:+ _ = frame _ +:+ _ =>
      let E := fresh "Hpeel" in
      apply frame_app_inj in H as [E H];
      [|by auto with slice_len..]
  | frame _ = frame _ =>
      apply frame_inj in H;
      [|by auto with slice_len..]
  end.

(** A digest for the examples: 64 hexadecimal-alphabet characters of a
    polynomial checksum. *)
Fixpoint checksum (acc : N) (s : string) : N :=
  match s with
  | EmptyString => acc
  | String c s => checksum ((acc * 257 + N_of_ascii c + 1) mod (2 ^ 192 - 237))%N s
  end.

Fixpoint low_digits (n : nat) (z : N) : string :=
  match n with
  | O => ""
  | S n => String (ascii_of_N (48 + z mod 8)) (low_digits n (z / 8))
  end.

Definition toy_digest (s : string) : string := low_digits 64 (checksum 1 s).

Lemma low_digits_length n z : String.length (low_digits n z) = n.
Proof. revert z. induction n as [|n IH]; intros z; simpl; [done|]. by rewrite IH. Qed.

(** ** Theorems *)

(** Claim C13: Relation keys are injective up to a digest collision: if two relation
    events carry one key then they assert the same fact - the same workspace,
    anchor, relation, target, target kind and confidence, and the same set of
    evidence refs - or the two preimages are a collision of the digest. No
    value of any field can be read as a different split of the fields. *)
Theorem relation_event_key_injective (sha256_hex : string → string) (f g : RelationFact) :
  relation_fact_sized f → relation_fact_sized g →
  relation_fact_key sha256_hex f = relation_fact_key sha256_hex g →
  same_relation_fact f g ∨ digest_collision sha256_hex.
Proof.
  destruct f as [[w1] a1 r1 t1 k1 c1 e1], g as [[w2] a2 r2 t2 k2 c2 e2].
  intros (?&?&?&?&?&?) (?&?&?&?&?&?) Hkey. simpl in *.
  destruct (prefixed_digest_eq _ _ _ _ Hkey) as [H'|H']; [|by right].
  unfold relation_preimage in H'. simpl in H'. peel_frames H'. left.
  apply le_bytes8_inj_i64 in Hpeel0; [|done..].
  apply (inj IdentityKind.as_str) in Hpeel4. apply (inj RecentConfidence.as_str) in Hpeel5.
  subst. repeat split; try done; by apply (canonical_set_bytes_inj e1 e2).
Qed.

(** Retrying is idempotent: two resolutions of the same fact produce the
    same relation key whatever the order and repetition of their evidence
    refs. *)
Theorem relation_event_key_stable (sha256_hex : string → string) (f g : RelationFact) :
  same_relation_fact f g →
  relation_fact_key sha256_hex f = relation_fact_key sha256_hex g.
Proof.
  destruct f as [w1 a1 r1 t1 k1 c1 e1], g as [w2 a2 r2 t2 k2 c2 e2].
  intros (?&?&?&?&?&?&E). simpl in *. subst.
  unfold relation_fact_key, relation_event_key, relation_preimage. simpl.
  by rewrite (canonical_set_bytes_ext e1 e2 E).
Qed.

(** The delimiter-joined encoding the pipeline superseded is ambiguous:
    there are two different facts with one REV-063 key, whatever the digest. *)
Theorem relation_event_key_rev063_ambiguous :
  ∃ f g, ¬ same_relation_fact f g ∧
    relation_fact_sized f ∧ relation_fact_sized g ∧
    ∀ sha256_hex : string → string,
      relation_event_key_rev063 sha256_hex (rf_workspace f) (rf_anchor f)
        (rf_relation f) (rf_target f) (rf_kind f) (rf_confidence f) (rf_evidence f)
      = relation_event_key_rev063 sha256_hex (rf_workspace g) (rf_anchor g)
          (rf_relation g) (rf_target g) (rf_kind g) (rf_confidence g) (rf_evidence g).
Proof.
  exists (MkRelationFact (WorkspaceScope.mk 7) "A" "same_deployer" "B|same_deployer|C"
    IdentityKind.Token RecentConfidence.Exact ["ev1"]).
  exists (MkRelationFact (WorkspaceScope.mk 7) "A|same_deployer|B" "same_deployer" "C"
    IdentityKind.Token RecentConfidence.Exact ["ev1"]).
  split; [intros (_&H&_); done|].
  split; [|split; [|done]]; repeat split; repeat constructor; by vm_compute.
Qed.

(** A reordered and duplicated evidence list, the retry of the source's test. *)
Definition fact_ev12 : RelationFact :=
  MkRelationFact (WorkspaceScope.mk 7) "solana:AAA" "same_deployer" "solana:BBB"
    IdentityKind.Token RecentConfidence.Exact ["ev1"; "ev2"].
Definition fact_ev211 : RelationFact :=
  MkRelationFact (WorkspaceScope.mk 7) "solana:AAA" "same_deployer" "solana:BBB"
    IdentityKind.Token RecentConfidence.Exact ["ev2"; "ev1"; "ev1"].

Lemma relation_event_key_injective_witness :
  same_relation_fact fact_ev12 fact_ev211 ∨ digest_collision (λ s, s).
Proof.
  apply relation_event_key_injective; [| |by vm_compute];
    repeat split; repeat constructor; by vm_compute.
Defined.

Lemma relation_event_key_stable_witness :
  relation_fact_key toy_digest fact_ev12 = relation_fact_key toy_digest fact_ev211.
Proof. apply relation_event_key_stable. repeat split; set_solver. Defined.

(** The current relation encoding never reproduces the key an earlier
    release minted, for the same or any other fact, unless the digest
    collides: the versioned, the REV-065 and the REV-063 preimages are
    pairwise told apart from the first bytes. *)
Theorem relation_key_generations_disjoint (sha256_hex : string → string)
    (f g : RelationFact) :
  relation_fact_key sha256_hex f ∈
    legacy_relation_event_keys sha256_hex (rf_workspace g) (rf_anchor g)
      (rf_relation g) (rf_target g) (rf_kind g) (rf_confidence g) (rf_evidence g) →
  digest_collision sha256_hex.
Proof.
  destruct f as [[w1] a1 r1 t1 k1 c1 e1], g as [[w2] a2 r2 t2 k2 c2 e2].
  unfold legacy_relation_event_keys, relation_event_key_rev065,
    relation_event_key_rev063, relation_fact_key, relation_event_key. simpl.
  intros [H|[H|[]%not_elem_of_nil]%elem_of_cons]%elem_of_cons;
    destruct (prefixed_digest_eq _ _ _ _ H) as [E|]; [exfalso|done|exfalso|done];
    unfold relation_preimage in E; simpl in E.
  - by apply (frame_le_bytes_neq 4 8) in E.
  - unfold frame at 1 in E. rewrite <-str_app_assoc in E.
    apply str_app_inj_length in E as [_ E]; [|by rewrite !le_bytes_length]. done.
Qed.

Lemma relation_key_generations_disjoint_witness : digest_collision (λ _, "").
Proof.
  apply (relation_key_generations_disjoint _ fact_ev12 fact_ev211). vm_compute. left.
Defined.

(** ** Coverage keys *)

(** One transition of the coverage state: the set that became current and the
    refresh bucket it was published in. *)
Record CoverageStep := MkCoverageStep {
  cs_missing : list string;
  cs_bucket : Z;
}.

Definition coverage_step_sized (s : CoverageStep) : Prop :=
  is_i64 (cs_bucket s) ∧ Forall slice_len (cs_missing s) ∧
  slice_len (canonical_set_bytes (cs_missing s)).

(** The keys of a history of transitions, each keyed on the event id of the
    row it supersedes, as [run_for_anchor] threads them. *)
Fixpoint disclosure_chain (sha256_hex : string → string) (workspace : WorkspaceScope)
    (anchor predecessor : string) (steps : list CoverageStep) : list string :=
  match steps with
  | [] => []
  | s :: steps =>
      let k := coverage_event_key sha256_hex workspace anchor (cs_missing s)
                 (cs_bucket s) predecessor in
      k :: disclosure_chain sha256_hex workspace anchor k steps
  end.

Section coverage.
Context (sha256_hex : string → string) (workspace : WorkspaceScope) (anchor : string).
Hypothesis workspace_i64 : is_i64 (WorkspaceScope.id workspace).
Hypothesis anchor_sized : slice_len anchor.
(** A SHA-256 digest renders as 64 characters. *)
Hypothesis digest_length : ∀ s, String.length (sha256_hex s) = 64.

Lemma coverage_key_sized m b p :
  slice_len (coverage_event_key sha256_hex workspace anchor m b p).
Proof using digest_length.
  unfold coverage_event_key, slice_len. by rewrite str_length_app, digest_length.
Qed.

Lemma coverage_key_inj s1 s2 p1 p2 :
  coverage_step_sized s1 → coverage_step_sized s2 → slice_len p1 → slice_len p2 →
  coverage_event_key sha256_hex workspace anchor (cs_missing s1) (cs_bucket s1) p1 =
  coverage_event_key sha256_hex workspace anchor (cs_missing s2) (cs_bucket s2) p2 →
  (p1 = p2 ∧ cs_bucket s1 = cs_bucket s2 ∧
     ∀ x, x ∈ cs_missing s1 ↔ x ∈ cs_missing s2) ∨ digest_collision sha256_hex.
Proof using workspace_i64 anchor_sized.
  destruct s1 as [m1 b1], s2 as [m2 b2]. intros (?&?&?) (?&?&?) ?? Hkey. simpl in *.
  destruct (prefixed_digest_eq _ _ _ _ Hkey) as [E|]; [left|by right].
  unfold coverage_preimage in E. peel_frames E.
  apply le_bytes8_inj_i64 in Hpeel3; [|done..].
  repeat split; try done; by apply (canonical_set_bytes_inj m1 m2).
Qed.

Lemma disclosure_chain_lookup p steps i k :
  disclosure_chain sha256_hex workspace anchor p steps !! i = Some k →
  ∃ s q, s ∈ steps ∧
    k = coverage_event_key sha256_hex workspace anchor (cs_missing s) (cs_bucket s) q ∧
    match i with
    | O => q = p
    | S j => disclosure_chain sha256_hex workspace anchor p steps !! j = Some q
    end.
Proof using Type.
  revert p i. induction steps as [|s steps IH]; intros p i; simpl; [by rewrite lookup_nil|].
  destruct i as [|i]; simpl.
  { intros [= <-]. exists s, p. split; [left|done]. }
  intros (s' & q & Hs & -> & Hq)%IH. exists s', q. split; [by right|]. split; [done|].
  destruct i; simpl; [by subst|done].
Qed.

(** A repeated key in a history that started from no disclosure unwinds, one
    predecessor at a time, to the first row: only a collision allows it. *)
Lemma disclosure_chain_dup steps i j k :
  Forall coverage_step_sized steps →
  i < j →
  disclosure_chain sha256_hex workspace anchor "" steps !! i = Some k →
  disclosure_chain sha256_hex workspace anchor "" steps !! j = Some k →
  digest_collision sha256_hex.
Proof using workspace_i64 anchor_sized digest_length.
  intros Hst. rewrite Forall_forall in Hst. revert j k.
  set (ks := disclosure_chain sha256_hex workspace anchor "" steps).
  assert (∀ l q, match l with O => q = "" | S l => ks !! l = Some q end → slice_len q)
    as Hsized.
  { intros [|l] q Hq; [by rewrite Hq|].
    apply disclosure_chain_lookup in Hq as (s & r & _ & -> & _). apply coverage_key_sized. }
  induction i as [|i IH]; intros j k Hij Hi Hj; (destruct j as [|j]; [lia|]);
    apply disclosure_chain_lookup in Hi as (s1 & q1 & Hs1 & -> & Hq1);
    apply disclosure_chain_lookup in Hj as (s2 & q2 & Hs2 & Hk & Hq2);
    pose proof (Hsized (S j) q2 Hq2) as Hl2.
  - destruct (coverage_key_inj s1 s2 q1 q2 (Hst _ Hs1) (Hst _ Hs2) (Hsized 0 q1 Hq1)
      Hl2 Hk) as [[-> _]|?]; [|done].
    subst q2. by apply disclosure_chain_lookup in Hq2 as (? & ? & _ & ? & _).
  - destruct (coverage_key_inj s1 s2 q1 q2 (Hst _ Hs1) (Hst _ Hs2) (Hsized (S i) q1 Hq1)
      Hl2 Hk) as [[-> _]|?]; [|done].
    apply (IH j q2); [lia|done..].
Qed.
End coverage.

(** Every coverage transition is its own row: the keys of a whole history
    of disclosures, each keyed on the row it supersedes, are pairwise
    distinct, however often the missing-input sets and the refresh buckets
    repeat along it (A, B, A, B within one bucket), unless the digest
    collides. *)
Theorem disclosure_chain_distinct (sha256_hex : string → string)
    (workspace : WorkspaceScope) (anchor : string) (steps : list CoverageStep) :
  is_i64 (WorkspaceScope.id workspace) → slice_len anchor →
  (∀ s, String.length (sha256_hex s) = 64) →
  Forall coverage_step_sized steps →
  NoDup (disclosure_chain sha256_hex workspace anchor "" steps) ∨
  digest_collision sha256_hex.
Proof.
  intros Hw Ha Hd Hs.
  destruct (NoDup_or_dup (disclosure_chain sha256_hex workspace anchor "" steps))
    as [?|(i & j & k & Hij & Hi & Hj)]; [by left|right].
  by eapply disclosure_chain_dup.
Qed.

(** The cycle of the source's test: A, B, A, B within bucket 42. *)
Definition cycle_abab : list CoverageStep :=
  let a := MkCoverageStep ["deployer"; "authority"] 42 in
  let b := MkCoverageStep ["authority"] 42 in [a; b; a; b].

Lemma disclosure_chain_distinct_witness :
  NoDup (disclosure_chain toy_digest (WorkspaceScope.mk 7) "solana:AAA" "" cycle_abab) ∨
  digest_collision toy_digest.
Proof.
  apply disclosure_chain_distinct; [by vm_compute|by vm_compute| |].
  - intros s. apply low_digits_length.
  - repeat constructor; by vm_compute.
Defined.

(** A retry of one coverage state - the same set in any order, bucket and
    predecessor - keeps its key, so the append is a no-op. *)
Theorem coverage_event_key_stable (sha256_hex : string → string)
    (workspace : WorkspaceScope) (anchor : string) (m1 m2 : list string) (b : Z)
    (p : string) :
  (∀ x, x ∈ m1 ↔ x ∈ m2) →
  coverage_event_key sha256_hex workspace anchor m1 b p =
  coverage_event_key sha256_hex workspace anchor m2 b p.
Proof.
  intros E. unfold coverage_event_key, coverage_preimage.
  by rewrite (canonical_set_bytes_ext m1 m2 E).
Qed.
