(* ===== verification/Identity.v ===== *)
(** * Chain-qualified identities (src/src/sf/recent_runtime.rs)

    Normalisation of raw identity values into canonical keys, the canonical
    comparisons every wallet, token and social join of the resolver goes
    through, and the authority records that tell an immutable account id from
    a handle.  The [url] crate's host extraction is a parameter,
    [url_host v] = [Url::parse(v).ok()?.host_str()]. *)
From S2P Require Import Prelude Text Domain.
From stdpp Require Import options.
Local Open Scope string_scope.

Module StoredSocialIdentity.
Record StoredSocialIdentity := mk {
  platform : string;
  immutable_user_id : string;
  handles : list string;
}.
End StoredSocialIdentity.
Abbreviation StoredSocialIdentity := StoredSocialIdentity.StoredSocialIdentity.

Module SocialIdentityRecord.
Record SocialIdentityRecord := mk {
  platform : string;
  immutable_user_id : string;
  handles : list string;
}.
End SocialIdentityRecord.
Abbreviation SocialIdentityRecord := SocialIdentityRecord.SocialIdentityRecord.

(** [host.trim_start_matches("www.")]: the prefix is removed repeatedly. *)
Fixpoint strip_www (s : string) : string :=
  match s with
  | String "w" (String "w" (String "w" (String "." r))) => strip_www r
  | _ => s
  end.

(** The platform or chain part of [prefix:rest], both parts non-empty. *)
Definition chain_prefix (key : string) : option string :=
  let? (chain, rest) := split_once ":" key in
  if decide (chain = "" ∨ rest = "") then None else Some chain.

Definition canonical_chain_name (chain : string) : option string :=
  if contains chain ["sol"; "solana"] then Some "solana" else
  if contains chain ["rh"; "robinhood"] then Some "robinhood" else
  if contains chain ["eth"; "ethereum"] then Some "ethereum" else
  if decide (chain = "base") then Some "base" else
  if decide (chain = "bsc") then Some "bsc" else None.

Definition canonical_chain (key : string) : option string :=
  let? (chain, rest) := split_once ":" key in
  if decide (chain = "" ∨ rest = "") then None
  else canonical_chain_name (to_ascii_lowercase chain).

(** ** Chain names *)

Definition chain_names : list string := ["solana"; "robinhood"; "ethereum"; "base"; "bsc"].

Lemma canonical_chain_name_in c n : canonical_chain_name c = Some n → n ∈ chain_names.
Proof.
  unfold canonical_chain_name, chain_names.
  repeat (case_match || case_decide); intros [= <-]; set_solver.
Qed.

Lemma canonical_chain_name_fixed n :
  n ∈ chain_names → canonical_chain_name (to_ascii_lowercase n) = Some n.
Proof.
  unfold chain_names. intros H.
  repeat (apply elem_of_cons in H as [->|H]; [done|]). by apply not_elem_of_nil in H.
Qed.

Lemma chain_names_shape n :
  n ∈ chain_names → no_char ":" n ∧ ∃ c q, n = String c q ∧ (65 <= N_of_ascii c <= 122)%N.
Proof.
  unfold chain_names. intros H.
  repeat (apply elem_of_cons in H as [->|H];
    [split; [by repeat split|eexists _, _; by split]|]). by apply not_elem_of_nil in H.
Qed.

Lemma split_once_chain n r : n ∈ chain_names → split_once ":" (n +:+ ":" +:+ r) = Some (n, r).
Proof. intros [H _]%chain_names_shape. by apply split_once_Some. Qed.

Lemma canonical_chain_key n r :
  n ∈ chain_names → r ≠ "" → canonical_chain (n +:+ ":" +:+ r) = Some n.
Proof.
  intros Hn Hr. unfold canonical_chain. rewrite split_once_chain by done.
  rewrite decide_False; [by apply canonical_chain_name_fixed|].
  intros [->|?]; [|done]. by apply chain_names_shape in Hn as (_&?&?&?&_).
Qed.

Lemma canonical_chain_name_letter c n :
  canonical_chain_name (to_ascii_lowercase c) = Some n →
  ∃ a q, c = String a q ∧ (65 <= N_of_ascii a <= 122)%N.
Proof.
  destruct c as [|a q]; [done|]. intros Hn. exists a, q. split; [done|].
  assert (65 <= N_of_ascii (ascii_lower a) <= 122)%N as Hl.
  { revert Hn. unfold canonical_chain_name, contains. simpl.
    repeat (case_match || case_decide); intros [= <-]; bool_prop;
      repeat match goal with
      | E : _ ∈ _ |- _ => apply elem_of_cons in E as [E|E]; [injection E as -> _; done|]
      | E : _ ∈ [] |- _ => by apply not_elem_of_nil in E
      | E : String _ _ = _ |- _ => injection E as -> _; done
      end. }
  destruct (is_ascii_upper a) eqn:Eu; [|unfold ascii_lower in Hl; by rewrite Eu in Hl].
  unfold is_ascii_upper in Eu. apply andb_prop in Eu as [?%N.leb_le ?%N.leb_le]. lia.
Qed.

(** Trimming does not change the chain of a value that has one. *)
Lemma canonical_chain_trim v n m :
  canonical_chain v = Some n → canonical_chain (trim v) = Some m → n = m.
Proof.
  unfold canonical_chain.
  destruct (split_once ":" v) as [[c r]|] eqn:E1; [|done]. case_decide; [done|]. intros Hn.
  destruct (split_once ":" (trim v)) as [[c' r']|] eqn:E2; [|done]. case_decide; [done|]. intros Hm.
  apply split_once_Some in E1 as [Hv Hc], E2 as [Ht Hc'].
  destruct (canonical_chain_name_letter _ _ Hn) as (a & q & -> & Ha).
  destruct (trim_letter a (q +:+ String ":" r) Ha) as [x Hx].
  rewrite str_app_cons in Hv. rewrite <-Hv, Ht in Hx.
  rewrite <-str_app_assoc, str_app_cons in Hx.
  assert (c' = String a q) as ->; [|congruence].
  rewrite Hv, <-str_app_cons in Hx. by apply sep_app_inj in Hx as [? _].
Qed.

Section identity.
Context (url_host : string → option string).

Definition normalize_identity (kind : IdentityKind) (value : string) : option IdentityKey :=
  let value := trim value in
  if decide (value = "") then None else
  match kind with
  | IdentityKind.Website =>
      let? host := url_host value in
      let host := to_ascii_lowercase (strip_www host) in
      if decide (host = "") then None else Some (IdentityKey.mk kind host)
  | IdentityKind.Token | IdentityKind.Wallet =>
      let? chain := canonical_chain value in
      let? (_, rest) := split_once ":" value in
      Some (IdentityKey.mk kind (chain +:+ ":" +:+ rest))
  | IdentityKind.Social | IdentityKind.Telegram =>
      let? _ := chain_prefix value in Some (IdentityKey.mk kind value)
  end.

Definition same_wallet (a b : string) : bool :=
  match normalize_identity IdentityKind.Wallet a,
        normalize_identity IdentityKind.Wallet b with
  | Some a, Some b => bool_decide (IdentityKey.value a = IdentityKey.value b)
  | _, _ => false
  end.

Definition same_token (a b : string) : bool :=
  match normalize_identity IdentityKind.Token a,
        normalize_identity IdentityKind.Token b with
  | Some a, Some b => bool_decide (IdentityKey.value a = IdentityKey.value b)
  | _, _ => false
  end.

Definition canonical_social_key (key : string) : option string :=
  let? _ := normalize_identity IdentityKind.Social key in
  let? (platform, id) := split_once ":" key in
  let platform := to_ascii_lowercase (trim platform) in
  let id := trim id in
  if decide (platform = "" ∨ id = "") then None
  else Some (platform +:+ ":" +:+ id).

Definition same_social_identity (a b : string) : bool :=
  match canonical_social_key a, canonical_social_key b with
  | Some a, Some b => bool_decide (a = b)
  | _, _ => false
  end.

Definition same_actor (anchor_actor : option string) (edge_actor : string) : bool :=
  match anchor_actor with
  | None => false
  | Some anchor_actor =>
      match normalize_identity IdentityKind.Wallet anchor_actor with
      | None => false
      | Some a =>
          match normalize_identity IdentityKind.Wallet edge_actor with
          | None => false
          | Some b => bool_decide (IdentityKey.value a = IdentityKey.value b)
          end
      end
  end.

(** ** Authority records *)

Definition is_immutable_social_identity (key : string)
    (bindings : list SocialIdentityRecord) : bool :=
  match split_once ":" key with
  | None => false
  | Some (platform, id) =>
      let platform := to_ascii_lowercase (trim platform) in
      let id := trim id in
      if decide (platform = "" ∨ id = "") then false else
      existsb (λ b,
        bool_decide (to_ascii_lowercase (trim (SocialIdentityRecord.platform b)) = platform)
        && bool_decide (trim (SocialIdentityRecord.immutable_user_id b) = id)
        && negb (existsb (λ h, eq_ignore_ascii_case (trim h) id)
                   (SocialIdentityRecord.handles b))) bindings
  end.

Definition record_from_row (r : StoredSocialIdentity) : option SocialIdentityRecord :=
  let platform := to_ascii_lowercase (trim (StoredSocialIdentity.platform r)) in
  let id := trim (StoredSocialIdentity.immutable_user_id r) in
  if decide (platform = "" ∨ id = "") then None else
  if existsb (λ h, eq_ignore_ascii_case (trim h) id) (StoredSocialIdentity.handles r)
  then None
  else Some (SocialIdentityRecord.mk platform id (StoredSocialIdentity.handles r)).

Definition records_from_store (rows : list StoredSocialIdentity) : list SocialIdentityRecord :=
  omap record_from_row rows.

(** What a chain-qualified kind normalises to: the trimmed value split at its
    first colon, its chain replaced by the canonical name. *)
Lemma normalize_chain_inv kind v k :
  kind = IdentityKind.Token ∨ kind = IdentityKind.Wallet →
  normalize_identity kind v = Some k →
  ∃ c n r, trim v = c +:+ ":" +:+ r ∧ no_char ":" c ∧ r ≠ "" ∧ n ∈ chain_names ∧
    canonical_chain_name (to_ascii_lowercase c) = Some n ∧
    k = IdentityKey.mk kind (n +:+ ":" +:+ r).
Proof.
  intros Hk. unfold normalize_identity, canonical_chain.
  case_decide; [done|].
  destruct (split_once ":" (trim v)) as [[c r]|] eqn:E; [|by destruct Hk as [-> | ->]].
  apply split_once_Some in E as [E Hc].
  destruct (decide (c = "" ∨ r = "")) as [|Hne]; [by destruct Hk as [-> | ->]|].
  destruct (canonical_chain_name (to_ascii_lowercase c)) as [n|] eqn:En;
    [|by destruct Hk as [-> | ->]].
  intros Heq. exists c, n, r. split; [done|]. split; [done|]. split; [naive_solver|].
  split; [by eapply canonical_chain_name_in|]. split; [done|].
  destruct Hk as [-> | ->]; by injection Heq.
Qed.

Lemma normalize_chain_of kind v c r n :
  kind = IdentityKind.Token ∨ kind = IdentityKind.Wallet →
  trim v = c +:+ ":" +:+ r → no_char ":" c → r ≠ "" →
  canonical_chain_name (to_ascii_lowercase c) = Some n →
  normalize_identity kind v = Some (IdentityKey.mk kind (n +:+ ":" +:+ r)).
Proof.
  intros Hk Ht Hc Hr Hn. unfold normalize_identity, canonical_chain. rewrite Ht.
  rewrite decide_False by (by destruct c).
  assert (split_once ":" (c +:+ ":" +:+ r) = Some (c, r)) as E by by apply split_once_Some.
  rewrite E. rewrite decide_False, Hn by (intros [->|?]; done).
  by destruct Hk as [-> | ->].
Qed.

(** A canonical key is a fixed point of [trim]. *)
Lemma trim_canonical v c n r :
  trim v = c +:+ ":" +:+ r → n ∈ chain_names → r ≠ "" →
  trim (n +:+ ":" +:+ r) = n +:+ ":" +:+ r.
Proof.
  intros Ht (_ & a & q & -> & Ha)%chain_names_shape Hr.
  apply (trim_replace_prefix _ c); [done..|]. change (String ":" r) with (":" +:+ r).
  by rewrite <-Ht, trim_idem.
Qed.

Lemma normalize_chain_canonical kind v k :
  kind = IdentityKind.Token ∨ kind = IdentityKind.Wallet →
  normalize_identity kind v = Some k →
  normalize_identity kind (IdentityKey.value k) = Some k ∧
  IdentityKey.kind k = kind ∧
  ∃ n r, n ∈ chain_names ∧ r ≠ "" ∧ IdentityKey.value k = n +:+ ":" +:+ r ∧
    canonical_chain (IdentityKey.value k) = Some n.
Proof.
  intros Hk (c & n & r & Ht & Hc & Hr & Hn & Hcn & ->)%normalize_chain_inv; [|done]. simpl.
  split; [|split; [done|exists n, r; repeat split; try done; by apply canonical_chain_key]].
  eapply normalize_chain_of; [done|by eapply trim_canonical| |done|].
  - by apply chain_names_shape in Hn as [? _].
  - by apply canonical_chain_name_fixed.
Qed.

Lemma normalize_kind kind v k :
  normalize_identity kind v = Some k → IdentityKey.kind k = kind.
Proof.
  unfold normalize_identity. case_decide; [done|].
  destruct kind; intros H'; split_cases; done.
Qed.

(** Token and wallet keys normalise alike. *)
Lemma normalize_token_wallet v :
  IdentityKey.value <$> normalize_identity IdentityKind.Token v =
  IdentityKey.value <$> normalize_identity IdentityKind.Wallet v.
Proof.
  unfold normalize_identity. case_decide; [done|].
  destruct (canonical_chain (trim v)); [|done].
  by destruct (split_once ":" (trim v)) as [[]|].
Qed.

Lemma same_token_eq_same_wallet a b : same_token a b = same_wallet a b.
Proof.
  unfold same_token, same_wallet.
  pose proof (normalize_token_wallet a) as Ha. pose proof (normalize_token_wallet b) as Hb.
  destruct (normalize_identity IdentityKind.Token a) as [ka|],
    (normalize_identity IdentityKind.Wallet a) as [ka'|]; simplify_eq/=; [|done].
  destruct (normalize_identity IdentityKind.Token b) as [kb|],
    (normalize_identity IdentityKind.Wallet b) as [kb'|]; simplify_eq/=; [|done].
  by rewrite Ha, Hb.
Qed.

Lemma same_actor_eq_same_wallet (a : option string) (b : string) :
  same_actor a b = match a with Some a => same_wallet a b | None => false end.
Proof. unfold same_actor, same_wallet. by destruct a. Qed.

Lemma same_wallet_Some a b :
  same_wallet a b = true ↔
  ∃ k, normalize_identity IdentityKind.Wallet a = Some k ∧
       normalize_identity IdentityKind.Wallet b = Some k.
Proof.
  unfold same_wallet. split.
  - destruct (normalize_identity IdentityKind.Wallet a) as [[ka va]|] eqn:Ea; [|done].
    destruct (normalize_identity IdentityKind.Wallet b) as [[kb vb]|] eqn:Eb; [|done].
    intros ?%bool_decide_eq_true. simpl in *. subst vb.
    apply normalize_kind in Ea as Ea', Eb as Eb'. simpl in *. subst. eauto.
  - intros (k & -> & ->). by apply bool_decide_eq_true.
Qed.

Lemma same_wallet_sym a b : same_wallet a b = same_wallet b a.
Proof.
  apply eq_true_iff_eq. rewrite !same_wallet_Some. naive_solver.
Qed.

Lemma same_wallet_trans a b c :
  same_wallet a b = true → same_wallet b c = true → same_wallet a c = true.
Proof. rewrite !same_wallet_Some. intros (k&?&?) (k'&?&?). simplify_eq. eauto. Qed.


Lemma same_wallet_inv a b :
  same_wallet a b = true ↔
  ∃ ca cb n r, trim a = ca +:+ ":" +:+ r ∧ trim b = cb +:+ ":" +:+ r ∧ r ≠ "" ∧
    no_char ":" ca ∧ no_char ":" cb ∧
    canonical_chain_name (to_ascii_lowercase ca) = Some n ∧
    canonical_chain_name (to_ascii_lowercase cb) = Some n.
Proof.
  rewrite same_wallet_Some. split.
  - intros (k & (ca & n & r & Ha & Hca & Hr & Hn & Hna & ->)%normalize_chain_inv
      & (cb & n' & r' & Hb & Hcb & Hr' & Hn' & Hnb & Hk)%normalize_chain_inv); [|auto..].
    injection Hk as Hk. apply sep_app_inj in Hk as [-> ->];
      [|by apply chain_names_shape|by apply chain_names_shape].
    by exists ca, cb, n', r'.
  - intros (ca & cb & n & r & Ha & Hb & Hr & Hca & Hcb & Hna & Hnb).
    eexists; split; eapply normalize_chain_of; eauto.
Qed.

End identity.

Lemma is_immutable_exists key p id recs :
  split_once ":" key = Some (p, id) → to_ascii_lowercase (trim p) ≠ "" → trim id ≠ "" →
  is_immutable_social_identity key recs = true ↔
  ∃ b, b ∈ recs ∧
    to_ascii_lowercase (trim (SocialIdentityRecord.platform b)) = to_ascii_lowercase (trim p) ∧
    trim (SocialIdentityRecord.immutable_user_id b) = trim id ∧
    ∀ h, h ∈ SocialIdentityRecord.handles b → eq_ignore_ascii_case (trim h) (trim id) = false.
Proof.
  intros Hs Hp Hid. unfold is_immutable_social_identity. rewrite Hs.
  rewrite decide_False by naive_solver. rewrite existsb_exists_elem.
  setoid_rewrite andb_true_iff. setoid_rewrite andb_true_iff.
  setoid_rewrite bool_decide_eq_true. setoid_rewrite negb_true_iff.
  setoid_rewrite existsb_false_elem. naive_solver.
Qed.

Lemma record_from_row_Some r b :
  record_from_row r = Some b ↔
  to_ascii_lowercase (trim (StoredSocialIdentity.platform r)) ≠ "" ∧
  trim (StoredSocialIdentity.immutable_user_id r) ≠ "" ∧
  (∀ h, h ∈ StoredSocialIdentity.handles r →
     eq_ignore_ascii_case (trim h) (trim (StoredSocialIdentity.immutable_user_id r)) = false) ∧
  b = SocialIdentityRecord.mk (to_ascii_lowercase (trim (StoredSocialIdentity.platform r)))
        (trim (StoredSocialIdentity.immutable_user_id r)) (StoredSocialIdentity.handles r).
Proof.
  unfold record_from_row. case_decide; [naive_solver|].
  rewrite <-existsb_false_elem. destruct existsb; naive_solver.
Qed.

(** ** Theorems *)

(** Normalisation emits canonical keys.  A key that a token, wallet,
    social or Telegram value normalises to keeps the kind and is a fixed point
    of normalisation; for tokens and wallets it is [chain:address] with the
    chain one of the five canonical names, whatever alias, case or surrounding
    whitespace the value used. *)
Theorem normalize_identity_canonical url_host kind v k :
  kind ≠ IdentityKind.Website →
  normalize_identity url_host kind v = Some k →
  normalize_identity url_host kind (IdentityKey.value k) = Some k ∧
  IdentityKey.kind k = kind ∧
  (kind = IdentityKind.Token ∨ kind = IdentityKind.Wallet →
   ∃ n r, n ∈ chain_names ∧ r ≠ "" ∧ IdentityKey.value k = n +:+ ":" +:+ r ∧
     canonical_chain (IdentityKey.value k) = Some n).
Proof.
  intros Hw Hk. pose proof (normalize_kind _ _ _ _ Hk) as Hkind.
  destruct kind; [| | |done|];
    try by apply normalize_chain_canonical in Hk as (?&?&?); [|auto].
  all: split; [|split; [done|intros [?|?]; done]].
  all: unfold normalize_identity in Hk; case_decide as Hb; [done|].
  all: destruct (chain_prefix (trim v)) as [c|] eqn:E; [|done]; injection Hk as <-.
  all: unfold normalize_identity; simpl; rewrite trim_idem, decide_False by done.
  all: by rewrite E.
Qed.

Lemma normalize_identity_canonical_witness :
  normalize_identity (λ _, None) IdentityKind.Wallet "solana:AAA" =
    Some (IdentityKey.mk IdentityKind.Wallet "solana:AAA").
Proof.
  apply (normalize_identity_canonical (λ _, None) IdentityKind.Wallet " SOL:AAA "
    (IdentityKey.mk IdentityKind.Wallet "solana:AAA")); [done|by vm_compute].
Defined.

(** The canonical joins decide identity of keys.  The wallet, token
    and actor comparisons agree, and hold exactly when both values name the
    same canonical chain (under any accepted alias) with the same address
    bytes; an unqualified value or an unknown chain equals nothing, itself
    included; an absent anchor actor equals nothing. *)
Theorem same_wallet_spec url_host a b :
  same_token url_host a b = same_wallet url_host a b ∧
  same_actor url_host (Some a) b = same_wallet url_host a b ∧
  same_actor url_host None b = false ∧
  (same_wallet url_host a b = true ↔
   ∃ ca cb n r, trim a = ca +:+ ":" +:+ r ∧ trim b = cb +:+ ":" +:+ r ∧ r ≠ "" ∧
     no_char ":" ca ∧ no_char ":" cb ∧
     canonical_chain_name (to_ascii_lowercase ca) = Some n ∧
     canonical_chain_name (to_ascii_lowercase cb) = Some n).
Proof.
  split; [apply same_token_eq_same_wallet|]. split; [done|]. split; [done|].
  apply same_wallet_inv.
Qed.

(** An identity is immutable only on a store row's authority.  Over
    records projected from store rows, a key [platform:id] counts as immutable
    exactly when some row asserts that platform (up to case) and exactly that
    account id, and none of the row's handles is that id up to ASCII case;
    contradictory and incomplete rows establish nothing. *)
Theorem immutable_identity_authority key rows :
  is_immutable_social_identity key (records_from_store rows) = true ↔
  ∃ p id r, split_once ":" key = Some (p, id) ∧ trim id ≠ "" ∧
    to_ascii_lowercase (trim p) ≠ "" ∧ r ∈ rows ∧
    to_ascii_lowercase (trim (StoredSocialIdentity.platform r)) = to_ascii_lowercase (trim p) ∧
    trim (StoredSocialIdentity.immutable_user_id r) = trim id ∧
    ∀ h, h ∈ StoredSocialIdentity.handles r →
      eq_ignore_ascii_case (trim h) (trim id) = false.
Proof.
  destruct (split_once ":" key) as [[p id]|] eqn:Hs.
  2: { unfold is_immutable_social_identity. rewrite Hs. split; [done|]. by intros (?&?&?&?&_). }
  destruct (decide (to_ascii_lowercase (trim p) = "" ∨ trim id = "")) as [He|He].
  { unfold is_immutable_social_identity. rewrite Hs, decide_True by done.
    split; [done|]. intros (?&?&?&[= <- <-]&?&?&_). naive_solver. }
  rewrite (is_immutable_exists _ _ _ _ Hs) by naive_solver.
  unfold records_from_store. setoid_rewrite list_elem_of_omap.
  setoid_rewrite record_from_row_Some. split.
  - intros (b & (r & Hr & Hrp & Hrid & Hh & ->) & Hp & Hid & Hb). simpl in *.
    rewrite trim_lower_trim in Hp. rewrite trim_idem in Hid.
    exists p, id, r. repeat split; naive_solver.
  - intros (? & ? & r & [= <- <-] & Hid0 & Hp0 & Hr & Hp & Hid & Hh).
    eexists; split; [exists r; split; [done|]|]; [split; [|split; [|split; [|reflexivity]]]|].
    + congruence.
    + congruence.
    + by rewrite Hid.
    + simpl. by rewrite trim_lower_trim, trim_idem.
Qed.
