(* ===== verification/Graph.v ===== *)
(** * Entity graph (src/src/sf/graph_runtime.rs)

    Edge validity windows, false-confluence detection and the distinct
    neighbour count.  The chrono RFC 3339 parser is a parameter,
    [parse_rfc3339 s] = [s.parse::<DateTime<Utc>>().ok()]. *)
From S2P Require Import Prelude Text Domain.
From stdpp Require Import options.
Local Open Scope Z_scope.

Section graph.
Context (parse_rfc3339 : string → option instant).

(** Whole seconds of an RFC 3339 timestamp. *)
Definition parse_secs (s : string) : option Z :=
  match parse_rfc3339 s with Some dt => Some (timestamp dt) | None => None end.

Definition is_edge_valid (edge : EntityEdge) (now_secs : Z) : bool :=
  match parse_secs (EntityEdge.valid_from edge) with
  | None => false
  | Some from =>
      if now_secs <? from then false else
      match EntityEdge.valid_until edge with
      | Some until =>
          match parse_secs until with Some u => now_secs <=? u | None => false end
      | None => true
      end
  end.

Lemma is_edge_valid_spec e now :
  is_edge_valid e now = true ↔
  ∃ from, parse_secs (EntityEdge.valid_from e) = Some from ∧ from <= now ∧
    (EntityEdge.valid_until e = None ∨
     ∃ until u, EntityEdge.valid_until e = Some until ∧ parse_secs until = Some u ∧ now <= u).
Proof.
  unfold is_edge_valid. destruct (parse_secs (EntityEdge.valid_from e)) as [from|]; [|naive_solver].
  destruct (Z.ltb_spec now from) as [Hlt|Hge].
  { split; [done|]. intros (f & [= <-] & ? & _). lia. }
  destruct (EntityEdge.valid_until e) as [until|]; [|naive_solver].
  destruct (parse_secs until) as [u|] eqn:Eu.
  - rewrite Z.leb_le. split.
    + intros ?. exists from. repeat split; [done|]. right. eauto.
    + intros (f & [= <-] & _ & [?|(?&?&[= <-]&?&?)]); [done|congruence].
  - split; [done|]. intros (f & [= <-] & _ & [?|(?&?&[= <-]&?&?)]); congruence.
Qed.
End graph.

(** The literal [0.5]. *)
Definition f64_half : spec_float := S754_finite false (2 ^ 52) (-53).

Definition is_false_confluence (a b : EntityEdge) : bool :=
  if negb (bool_decide (EntityEdge.from_entity_key a = EntityEdge.from_entity_key b))
     || negb (bool_decide (EntityEdge.to_entity_key a = EntityEdge.to_entity_key b))
     || negb (bool_decide (EntityEdge.edge_type a = EntityEdge.edge_type b))
  then false else
  let disjoint :=
    forallb (λ r, negb (contains r (EntityEdge.evidence_refs b))) (EntityEdge.evidence_refs a)
    && negb (bool_decide (EntityEdge.evidence_refs a = []))
    && negb (bool_decide (EntityEdge.evidence_refs b = [])) in
  let low_confidence :=
    match EntityEdge.confidence a, EntityEdge.confidence b with
    | Some ca, Some cb => SFltb ca f64_half && SFltb cb f64_half
    | _, _ => false
    end in
  let non_confirmed :=
    negb (bool_decide (EntityEdge.truth_status a = TruthStatus.Confirmed))
    && negb (bool_decide (EntityEdge.truth_status b = TruthStatus.Confirmed)) in
  disjoint && low_confidence && non_confirmed.

(** The two end points other than the node itself. *)
Definition other_ends (node : EntityNode) (e : EntityEdge) : list string :=
  filter (λ k, k ≠ EntityNode.entity_key node)
    [EntityEdge.from_entity_key e; EntityEdge.to_entity_key e].

Definition neighbor_count (node : EntityNode) (edges : list EntityEdge)
    (edge_type : EdgeType) : nat :=
  size (list_to_set (C := gset string)
    (flat_map (other_ends node)
       (List.filter (λ e,
          bool_decide (EntityEdge.edge_type e = edge_type)
          && (bool_decide (EntityEdge.from_entity_key e = EntityNode.entity_key node)
              || bool_decide (EntityEdge.to_entity_key e = EntityNode.entity_key node))) edges))).

(** ** Theorems *)

(** False confluence is symmetric and cautious.  The relation does
    not depend on the order of the two edges, no edge is in confluence with
    itself, and a flagged pair claims one relationship with disjoint non-empty
    evidence, both confidences present, and neither edge confirmed. *)
Theorem false_confluence_symmetric a b :
  is_false_confluence a b = is_false_confluence b a ∧
  is_false_confluence a a = false ∧
  (is_false_confluence a b = true →
   EntityEdge.truth_status a ≠ TruthStatus.Confirmed ∧
   EntityEdge.truth_status b ≠ TruthStatus.Confirmed ∧
   is_Some (EntityEdge.confidence a) ∧ is_Some (EntityEdge.confidence b) ∧
   EntityEdge.evidence_refs a ≠ [] ∧ EntityEdge.evidence_refs b ≠ [] ∧
   ∀ r, r ∈ EntityEdge.evidence_refs a → r ∉ EntityEdge.evidence_refs b).
Proof.
  assert (∀ a b, is_false_confluence a b = true →
    is_false_confluence b a = true ∧
    EntityEdge.truth_status a ≠ TruthStatus.Confirmed ∧
    EntityEdge.truth_status b ≠ TruthStatus.Confirmed ∧
    is_Some (EntityEdge.confidence a) ∧ is_Some (EntityEdge.confidence b) ∧
    EntityEdge.evidence_refs a ≠ [] ∧ EntityEdge.evidence_refs b ≠ [] ∧
    ∀ r, r ∈ EntityEdge.evidence_refs a → r ∉ EntityEdge.evidence_refs b) as Hdir.
  { clear. intros a b. unfold is_false_confluence.
    destruct (negb _ || negb _ || negb _)%bool eqn:Hsame; [done|]. bool_prop.
    intros Hb. bool_prop.
    destruct (EntityEdge.confidence a) as [ca|], (EntityEdge.confidence b) as [cb|]; try done.
    bool_prop.
    match goal with H : forallb _ _ = true |- _ => rename H into Hd end.
    rewrite forallb_forall_elem in Hd. unfold contains in Hd.
    setoid_rewrite negb_true_iff in Hd. setoid_rewrite bool_decide_eq_false in Hd.
    split; [|by eauto 10]. repeat match goal with H : _ = _ :> string |- _ => rewrite H; clear H end.
    match goal with H : EntityEdge.edge_type _ = _ |- _ => rewrite H; clear H end.
    rewrite !bool_decide_true by done. simpl.
    rewrite !bool_decide_false by done. simpl. rewrite !andb_true_r, andb_true_iff, forallb_forall_elem.
    split; [|by apply andb_true_intro]. intros r Hr. apply negb_true_iff, bool_decide_eq_false.
    intros Hr'. by apply (Hd r). }
  split; [|split].
  - apply eq_true_iff_eq. split; intros (?&_)%Hdir; done.
  - destruct (is_false_confluence a a) eqn:E; [|done]. apply Hdir in E as (_&_&_&_&_&Hne&_&Hd).
    destruct (EntityEdge.evidence_refs a) as [|r l]; [done|]. exfalso. apply (Hd r); set_solver.
  - intros (_&?)%Hdir. done.
Qed.

Definition confluence_edge (refs : list string) : EntityEdge :=
  EntityEdge.mk "A" "B" EdgeType.FundedBy "2026-01-01T00:00:00Z" None TruthStatus.Disputed
    (Some (S754_finite false (2 ^ 52) (-54))) "2026-01-01T00:00:00Z" None None refs.

Lemma false_confluence_symmetric_witness :
  is_false_confluence (confluence_edge ["ev1"%string]) (confluence_edge ["ev2"%string]) = true ∧
  EntityEdge.truth_status (confluence_edge ["ev1"%string]) ≠ TruthStatus.Confirmed.
Proof.
  split; [by vm_compute|].
  apply (proj2 (proj2 (false_confluence_symmetric (confluence_edge ["ev1"%string])
    (confluence_edge ["ev2"%string]))) ltac:(by vm_compute)).
Defined.

(** The neighbour count is the number of distinct entities joined to
    the node by an edge of the type, in either direction, the node itself not
    counted; duplicate edges and edge order do not change it. *)
Theorem neighbor_count_distinct node edges ty :
  ∃ s : gset string, neighbor_count node edges ty = size s ∧
  ∀ k, k ∈ s ↔ k ≠ EntityNode.entity_key node ∧
    ∃ e, e ∈ edges ∧ EntityEdge.edge_type e = ty ∧
      ((EntityEdge.from_entity_key e = EntityNode.entity_key node ∧ EntityEdge.to_entity_key e = k) ∨
       (EntityEdge.to_entity_key e = EntityNode.entity_key node ∧ EntityEdge.from_entity_key e = k)).
Proof.
  eexists; split; [reflexivity|]. intros k.
  rewrite elem_of_list_to_set, list_elem_of_In, in_flat_map.
  setoid_rewrite filter_In. setoid_rewrite <-list_elem_of_In.
  setoid_rewrite andb_true_iff. setoid_rewrite orb_true_iff.
  setoid_rewrite bool_decide_eq_true. unfold other_ends.
  setoid_rewrite list_elem_of_filter. set_solver.
Qed.
