(* ===== verification/Resolver.v ===== *)
(** * Candidate resolution (src/src/sf/recent_runtime.rs, resolve_candidates)

    The resolver walks the edges four times (cross-chain deployments, actor
    reverse lookup, funding by a known deployer, reused social identities) and
    emits every relation through one closure that canonicalises the identity
    and drops a key it has seen.  The closure's state is threaded explicitly.
    [resolve_refines] shows the loops compute the plain specification
    [stable_sort (first_wins requests)]; the other theorems follow from it. *)
From S2P Require Import Prelude Text Domain Identity Graph.
From stdpp Require Import options.
Local Open Scope string_scope.
Local Open Scope list_scope.

(** The key [emit] dedupes on: canonical value, kind and relation. *)
Abbreviation emit_key := (string * IdentityKind * RecentRelation)%type.
(** [seen] and [out] of the source. *)
Abbreviation emit_state := (list emit_key * list CandidateRelation)%type.

(** The arguments of one call of [emit]. *)
Record request := Request {
  req_kind : IdentityKind;
  req_raw : string;
  req_relation : RecentRelation;
  req_confidence : RecentConfidence;
  req_refs : list string;
}.

Definition candidate_key (c : CandidateRelation) : emit_key :=
  (IdentityKey.value (CandidateRelation.to_identity c),
   IdentityKey.kind (CandidateRelation.to_identity c), CandidateRelation.relation c).

(** The sort order: confidence rank descending, relation name, value. *)
Definition candidate_leb (a b : CandidateRelation) : bool :=
  match Z.compare (RecentConfidence.rank (CandidateRelation.confidence b))
          (RecentConfidence.rank (CandidateRelation.confidence a)) with
  | Lt => true
  | Gt => false
  | Eq =>
      match String.compare (RecentRelation.as_str (CandidateRelation.relation a))
              (RecentRelation.as_str (CandidateRelation.relation b)) with
      | Lt => true
      | Gt => false
      | Eq => String.leb (IdentityKey.value (CandidateRelation.to_identity a))
                (IdentityKey.value (CandidateRelation.to_identity b))
      end
  end.

Definition is_type (ty : EdgeType) (e : EntityEdge) : bool :=
  bool_decide (EntityEdge.edge_type e = ty).

Section resolver.
Context (url_host : string → option string) (parse_rfc3339 : string → option instant).
Local Abbreviation parse_secs := (parse_secs parse_rfc3339).
Local Abbreviation same_wallet := (same_wallet url_host).
Local Abbreviation same_token := (same_token url_host).
Local Abbreviation same_actor := (same_actor url_host).
Local Abbreviation same_social_identity := (same_social_identity url_host).

Definition edge_is_authoritative (edge : EntityEdge) (now_secs : Z) : bool :=
  if negb (bool_decide (EntityEdge.truth_status edge = TruthStatus.Confirmed)) then false else
  if bool_decide (EntityEdge.evidence_refs edge = []) then false else
  match parse_secs (EntityEdge.valid_from edge) with
  | None => false
  | Some from =>
      if (now_secs <? from)%Z then false else
      match EntityEdge.valid_until edge with
      | Some until =>
          match parse_secs until with Some u => (now_secs <=? u)%Z | None => false end
      | None => true
      end
  end.

Definition emit (kind : IdentityKind) (raw_value : string) (relation : RecentRelation)
    (confidence : RecentConfidence) (evidence_refs : list string) (st : emit_state) : emit_state :=
  match normalize_identity url_host kind raw_value with
  | None => st
  | Some identity =>
      let key := (IdentityKey.value identity, IdentityKey.kind identity, relation) in
      if contains key st.1 then st
      else (key :: st.1,
            st.2 ++ [CandidateRelation.mk identity relation confidence evidence_refs])
  end.

(** One iteration of the cross-chain loop. *)
Definition cross_chain_step (anchor_token anchor_chain : string) (now_secs : Z)
    (st : emit_state) (e : EntityEdge) : emit_state :=
  if negb (is_type EdgeType.CrossChainDeployment e) then st else
  if negb (same_token (EntityEdge.from_entity_key e) anchor_token) then st else
  let distinct_chain :=
    match canonical_chain (EntityEdge.to_entity_key e) with
    | Some t => negb (bool_decide (t = anchor_chain))
    | None => false
    end in
  if negb distinct_chain || negb (edge_is_authoritative e now_secs) then st else
  emit IdentityKind.Token (EntityEdge.to_entity_key e) RecentRelation.CrossChainDeployment
    RecentConfidence.Exact (EntityEdge.evidence_refs e) st.

(** The relation an edge into another token establishes with the anchor. *)
Definition actor_relation (anchor : ActorExtraction) (e : EntityEdge) : option RecentRelation :=
  let actor := EntityEdge.from_entity_key e in
  let relation :=
    match EntityEdge.edge_type e with
    | EdgeType.DeployedBy =>
        if same_actor (ActorExtraction.deployer anchor) actor
        then Some RecentRelation.SameDeployer else None
    | EdgeType.FundedBy =>
        if same_actor (ActorExtraction.initial_funder anchor) actor
        then Some RecentRelation.SameFunder else None
    | _ => None
    end in
  match relation with
  | Some r => Some r
  | None =>
      match EntityEdge.edge_type e with
      | EdgeType.SameAuthority =>
          if same_actor (ActorExtraction.authority anchor) actor
          then Some RecentRelation.SameAuthority else None
      | EdgeType.SameFeePayer =>
          if same_actor (ActorExtraction.fee_payer anchor) actor
          then Some RecentRelation.SameFeePayer else None
      | _ => None
      end
  end.

Definition actor_edge_step (anchor : ActorExtraction) (other_canonical : string) (now_secs : Z)
    (st : emit_state) (e : EntityEdge) : emit_state :=
  if same_actor (ActorExtraction.factory anchor) (EntityEdge.from_entity_key e) then st else
  let authoritative := edge_is_authoritative e now_secs in
  match actor_relation anchor e with
  | Some relation =>
      let confidence :=
        if authoritative then RecentConfidence.Exact else RecentConfidence.Insufficient in
      emit IdentityKind.Token other_canonical relation confidence (EntityEdge.evidence_refs e) st
  | None => st
  end.

Definition actor_node_step (anchor : ActorExtraction) (edges : list EntityEdge) (now_secs : Z)
    (st : emit_state) (node : EntityNode) : emit_state :=
  let other := EntityNode.entity_key node in
  if same_token other (ActorExtraction.token anchor) then st else
  match normalize_identity url_host IdentityKind.Token other with
  | None => st
  | Some k =>
      foldl (actor_edge_step anchor (IdentityKey.value k) now_secs) st
        (List.filter (λ e, same_token (EntityEdge.to_entity_key e) other) edges)
  end.

(** The condition of the search for one corroborating social edge. *)
Definition corroborates (anchor : ActorExtraction) (social_bindings : list SocialIdentityRecord)
    (now_secs occ : Z) (e re : EntityEdge) : bool :=
  is_type EdgeType.ReusedSocialLink re
  && same_wallet (EntityEdge.from_entity_key re) (EntityEdge.to_entity_key e)
  && edge_is_authoritative re now_secs
  && existsb (λ s, same_social_identity (EntityEdge.to_entity_key re) s
                   && is_immutable_social_identity s social_bindings)
       (ActorExtraction.social_identities anchor)
  && match parse_secs (EntityEdge.valid_from re) with
     | Some vf => (vf <=? occ)%Z | None => false end
  && match (let? until := EntityEdge.valid_until re in parse_secs until) with
     | Some vu => (occ <=? vu)%Z | None => true end.

Definition funding_confidence (anchor : ActorExtraction) (edges : list EntityEdge)
    (social_bindings : list SocialIdentityRecord) (now_secs : Z) (e : EntityEdge)
    : RecentConfidence :=
  let authoritative := edge_is_authoritative e now_secs in
  let corroborating_social_edge :=
    let? occ := parse_secs (EntityEdge.occurred_at e) in
    find_first (corroborates anchor social_bindings now_secs occ e) edges in
  if authoritative && bool_decide (is_Some corroborating_social_edge)
  then RecentConfidence.Reconstructed
  else if authoritative then RecentConfidence.Estimated else RecentConfidence.Insufficient.

Definition is_wallet_node (nodes : list EntityNode) (key : string) : bool :=
  existsb (λ n, same_wallet (EntityNode.entity_key n) key
                && bool_decide (EntityNode.node_type n = NodeType.Wallet)) nodes.

Definition is_token_node (nodes : list EntityNode) (key : string) : bool :=
  existsb (λ n, same_token (EntityNode.entity_key n) key
                && bool_decide (EntityNode.node_type n = NodeType.Token)) nodes.

Definition funding_step (anchor : ActorExtraction) (nodes : list EntityNode)
    (edges : list EntityEdge) (social_bindings : list SocialIdentityRecord) (now_secs : Z)
    (st : emit_state) (e : EntityEdge) : emit_state :=
  if negb (is_type EdgeType.FundedBy e) then st else
  if negb (same_actor (ActorExtraction.deployer anchor) (EntityEdge.from_entity_key e)) then st else
  if negb (is_wallet_node nodes (EntityEdge.to_entity_key e)) then st else
  emit IdentityKind.Wallet (EntityEdge.to_entity_key e) RecentRelation.FundedByKnownDeployer
    (funding_confidence anchor edges social_bindings now_secs e)
    (EntityEdge.evidence_refs e) st.

Definition reuse_edge_step (nodes : list EntityNode) (identity : string)
    (st : emit_state) (e : EntityEdge) : emit_state :=
  if negb (is_type EdgeType.ReusedSocialLink e) then st else
  if same_social_identity (EntityEdge.to_entity_key e) identity then
    if negb (is_token_node nodes (EntityEdge.from_entity_key e)) then st else
    emit IdentityKind.Token (EntityEdge.from_entity_key e) RecentRelation.ReusedSocialLink
      RecentConfidence.Insufficient (EntityEdge.evidence_refs e) st
  else st.

Definition resolve_candidates (anchor : ActorExtraction) (nodes : list EntityNode)
    (edges : list EntityEdge) (social_bindings : list SocialIdentityRecord) (now_secs : Z)
    : list CandidateRelation :=
  let anchor_token := ActorExtraction.token anchor in
  match canonical_chain anchor_token with
  | None => []
  | Some anchor_chain =>
      let st := foldl (cross_chain_step anchor_token anchor_chain now_secs) ([], []) edges in
      let token_nodes :=
        List.filter (λ n, bool_decide (EntityNode.node_type n = NodeType.Token)) nodes in
      let st := foldl (actor_node_step anchor edges now_secs) st token_nodes in
      let st := foldl (funding_step anchor nodes edges social_bindings now_secs) st edges in
      let st := foldl (λ st identity, foldl (reuse_edge_step nodes identity) st edges) st
                  (ActorExtraction.social_identities anchor) in
      stable_sort candidate_leb st.2
  end.

(** ** The requests the loops make

    Each loop body makes at most one call of [emit]; the list of the calls,
    in the code's order, is the specification the fold is compared with. *)

Definition run_request (st : emit_state) (r : request) : emit_state :=
  emit (req_kind r) (req_raw r) (req_relation r) (req_confidence r) (req_refs r) st.

Definition cross_chain_requests (anchor_token anchor_chain : string) (now : Z)
    (e : EntityEdge) : list request :=
  if is_type EdgeType.CrossChainDeployment e
     && same_token (EntityEdge.from_entity_key e) anchor_token
     && match canonical_chain (EntityEdge.to_entity_key e) with
        | Some t => negb (bool_decide (t = anchor_chain)) | None => false end
     && edge_is_authoritative e now
  then [Request IdentityKind.Token (EntityEdge.to_entity_key e)
          RecentRelation.CrossChainDeployment RecentConfidence.Exact (EntityEdge.evidence_refs e)]
  else [].

Definition actor_edge_requests (anchor : ActorExtraction) (other : string) (now : Z)
    (e : EntityEdge) : list request :=
  match same_actor (ActorExtraction.factory anchor) (EntityEdge.from_entity_key e),
        actor_relation anchor e with
  | false, Some r =>
      [Request IdentityKind.Token other r
         (if edge_is_authoritative e now then RecentConfidence.Exact
          else RecentConfidence.Insufficient) (EntityEdge.evidence_refs e)]
  | _, _ => []
  end.

Definition actor_node_requests (anchor : ActorExtraction) (edges : list EntityEdge) (now : Z)
    (node : EntityNode) : list request :=
  let other := EntityNode.entity_key node in
  if same_token other (ActorExtraction.token anchor) then [] else
  match normalize_identity url_host IdentityKind.Token other with
  | None => []
  | Some k =>
      flat_map (actor_edge_requests anchor (IdentityKey.value k) now)
        (List.filter (λ e, same_token (EntityEdge.to_entity_key e) other) edges)
  end.

Definition funding_requests (anchor : ActorExtraction) (nodes : list EntityNode)
    (edges : list EntityEdge) (bindings : list SocialIdentityRecord) (now : Z)
    (e : EntityEdge) : list request :=
  if is_type EdgeType.FundedBy e
     && same_actor (ActorExtraction.deployer anchor) (EntityEdge.from_entity_key e)
     && is_wallet_node nodes (EntityEdge.to_entity_key e)
  then [Request IdentityKind.Wallet (EntityEdge.to_entity_key e)
          RecentRelation.FundedByKnownDeployer
          (funding_confidence anchor edges bindings now e) (EntityEdge.evidence_refs e)]
  else [].

Definition reuse_edge_requests (nodes : list EntityNode) (identity : string)
    (e : EntityEdge) : list request :=
  if is_type EdgeType.ReusedSocialLink e
     && same_social_identity (EntityEdge.to_entity_key e) identity
     && is_token_node nodes (EntityEdge.from_entity_key e)
  then [Request IdentityKind.Token (EntityEdge.from_entity_key e)
          RecentRelation.ReusedSocialLink RecentConfidence.Insufficient
          (EntityEdge.evidence_refs e)]
  else [].

Definition requests (anchor : ActorExtraction) (anchor_chain : string) (nodes : list EntityNode)
    (edges : list EntityEdge) (bindings : list SocialIdentityRecord) (now : Z) : list request :=
  flat_map (cross_chain_requests (ActorExtraction.token anchor) anchor_chain now) edges ++
  flat_map (actor_node_requests anchor edges now)
    (List.filter (λ n, bool_decide (EntityNode.node_type n = NodeType.Token)) nodes) ++
  flat_map (funding_requests anchor nodes edges bindings now) edges ++
  flat_map (λ identity, flat_map (reuse_edge_requests nodes identity) edges)
    (ActorExtraction.social_identities anchor).

(** What a request emits when its key is new. *)
Definition candidate_of (r : request) : option CandidateRelation :=
  (λ k, CandidateRelation.mk k (req_relation r) (req_confidence r) (req_refs r)) <$>
    normalize_identity url_host (req_kind r) (req_raw r).

(** A fold whose step runs the requests of its element runs all of them. *)
Lemma foldl_requests {A} (f : emit_state → A → emit_state) (g : A → list request) l st :
  (∀ st x, f st x = foldl run_request st (g x)) →
  foldl f st l = foldl run_request st (flat_map g l).
Proof.
  intros Hf. revert st. induction l as [|x l IH]; intros st; simpl; [done|].
  by rewrite foldl_app, <-Hf, IH.
Qed.

Lemma cross_chain_step_requests t c now st e :
  cross_chain_step t c now st e = foldl run_request st (cross_chain_requests t c now e).
Proof.
  unfold cross_chain_step, cross_chain_requests.
  destruct (is_type _ e), (same_token _ t); try done. simpl.
  destruct (canonical_chain _); simpl; [|done].
  by destruct (bool_decide _), (edge_is_authoritative e now).
Qed.

Lemma actor_edge_step_requests a o now st e :
  actor_edge_step a o now st e = foldl run_request st (actor_edge_requests a o now e).
Proof.
  unfold actor_edge_step, actor_edge_requests.
  by destruct (same_actor _ _), (actor_relation a e).
Qed.

Lemma actor_node_step_requests a es now st n :
  actor_node_step a es now st n = foldl run_request st (actor_node_requests a es now n).
Proof.
  unfold actor_node_step, actor_node_requests.
  destruct (same_token _ _); [done|]. destruct (normalize_identity _ _ _); [|done].
  apply foldl_requests, actor_edge_step_requests.
Qed.

Lemma funding_step_requests a ns es b now st e :
  funding_step a ns es b now st e = foldl run_request st (funding_requests a ns es b now e).
Proof.
  unfold funding_step, funding_requests.
  by destruct (is_type _ e), (same_actor _ _), (is_wallet_node ns _).
Qed.

Lemma reuse_edge_step_requests ns i st e :
  reuse_edge_step ns i st e = foldl run_request st (reuse_edge_requests ns i e).
Proof.
  unfold reuse_edge_step, reuse_edge_requests.
  by destruct (is_type _ e), (same_social_identity _ _), (is_token_node ns _).
Qed.
End resolver.

(** First occurrence per key. *)
Fixpoint first_by_key (seen : list emit_key) (l : list CandidateRelation)
    : list CandidateRelation :=
  match l with
  | [] => []
  | c :: l =>
      if contains (candidate_key c) seen then first_by_key seen l
      else c :: first_by_key (candidate_key c :: seen) l
  end.

Lemma run_requests_first url_host st rs :
  (foldl (run_request url_host) st rs).2 =
  st.2 ++ first_by_key st.1 (omap (candidate_of url_host) rs).
Proof.
  revert st. induction rs as [|r rs IH]; intros [seen out]; simpl.
  { by rewrite app_nil_r. }
  rewrite IH. unfold run_request, emit, candidate_of at 2.
  destruct (normalize_identity url_host (req_kind r) (req_raw r)) as [k|]; simpl; [|done].
  unfold candidate_key; simpl. destruct (contains _ seen) eqn:E; simpl; [done|].
  by rewrite <-app_assoc.
Qed.

Lemma first_by_key_elem seen l c :
  c ∈ first_by_key seen l → c ∈ l ∧ candidate_key c ∉ seen.
Proof.
  revert seen. induction l as [|d l IH]; intros seen; simpl; [set_solver|].
  unfold contains. case_bool_decide as E; [set_solver|].
  intros [->|H]%elem_of_cons; [set_solver|]. apply IH in H. set_solver.
Qed.

Lemma first_by_key_complete seen l c :
  c ∈ l → candidate_key c ∈ seen ∨
  ∃ d, d ∈ first_by_key seen l ∧ candidate_key d = candidate_key c.
Proof.
  revert seen. induction l as [|d l IH]; intros seen; simpl; [set_solver|].
  unfold contains. case_bool_decide as E.
  - intros [->|H]%elem_of_cons; [by left|by apply IH].
  - intros [->|H]%elem_of_cons; [right; exists d; set_solver|].
    destruct (IH (candidate_key d :: seen) H) as [[?|?]%elem_of_cons|(x&?&?)].
    + right. exists d. split; [by left|congruence].
    + by left.
    + right. exists x. split; [by right|congruence].
Qed.

Lemma first_by_key_NoDup seen l : NoDup (candidate_key <$> first_by_key seen l).
Proof.
  revert seen. induction l as [|d l IH]; intros seen; simpl; [constructor|].
  unfold contains. case_bool_decide as E; [done|]. simpl. constructor; [|done].
  intros (c & Hk & Hc)%list_elem_of_fmap. apply first_by_key_elem in Hc as [_ Hc].
  apply Hc. rewrite <-Hk. left.
Qed.

Lemma candidate_leb_spec a b :
  candidate_leb a b = true ↔
  (RecentConfidence.rank (CandidateRelation.confidence b) <
   RecentConfidence.rank (CandidateRelation.confidence a))%Z ∨
  (RecentConfidence.rank (CandidateRelation.confidence b) =
     RecentConfidence.rank (CandidateRelation.confidence a) ∧
   (str_lt (RecentRelation.as_str (CandidateRelation.relation a))
           (RecentRelation.as_str (CandidateRelation.relation b)) ∨
    (RecentRelation.as_str (CandidateRelation.relation a) =
       RecentRelation.as_str (CandidateRelation.relation b) ∧
     String.leb (IdentityKey.value (CandidateRelation.to_identity a))
       (IdentityKey.value (CandidateRelation.to_identity b)) = true))).
Proof.
  unfold candidate_leb.
  destruct (Z.compare_spec (RecentConfidence.rank (CandidateRelation.confidence b))
    (RecentConfidence.rank (CandidateRelation.confidence a))) as [E|?|?].
  - rewrite E. generalize (RecentRelation.as_str (CandidateRelation.relation a)),
      (RecentRelation.as_str (CandidateRelation.relation b)). intros x y.
    unfold str_lt, String.leb at 2. destruct (String.compare x y) eqn:C.
    + apply String.compare_eq_iff in C. subst. split; [auto|]. intros [?|[_ [[_ ?]|[_ ?]]]]; [lia|done..].
    + assert (x ≠ y) by (intros ->; by rewrite str_compare_refl in C). split; auto.
    + assert (x ≠ y) by (intros ->; by rewrite str_compare_refl in C).
      split; [done|]. intros [?|[_ [[? _]|[? _]]]]; [lia|done..].
  - split; auto.
  - split; [done|]. intros [?|[? _]]; lia.
Qed.

Lemma str_lt_trans x y z : str_lt x y → str_lt y z → str_lt x z.
Proof.
  intros [H1 N1] [H2 N2]. split; [by eapply str_leb_trans|]. intros ->.
  by apply N1, str_leb_antisym.
Qed.

Lemma candidate_leb_trans a b c :
  candidate_leb a b = true → candidate_leb b c = true → candidate_leb a c = true.
Proof.
  rewrite !candidate_leb_spec. intros [?|[? [?|[E1 L1]]]] [?|[? [?|[E2 L2]]]];
    try (left; lia); right; (split; [lia|]).
  - left. by eapply str_lt_trans.
  - left. by rewrite <-E2.
  - left. by rewrite E1.
  - right. split; [congruence|]. by eapply str_leb_trans.
Qed.

Lemma candidate_leb_total a b : candidate_leb a b = true ∨ candidate_leb b a = true.
Proof.
  rewrite !candidate_leb_spec.
  destruct (Z.lt_total (RecentConfidence.rank (CandidateRelation.confidence a))
    (RecentConfidence.rank (CandidateRelation.confidence b))) as [?|[?|?]]; [auto| |auto].
  destruct (decide (RecentRelation.as_str (CandidateRelation.relation a) =
     RecentRelation.as_str (CandidateRelation.relation b))) as [E|N].
  - destruct (str_leb_total (IdentityKey.value (CandidateRelation.to_identity a))
       (IdentityKey.value (CandidateRelation.to_identity b))); auto 10.
  - unfold str_lt. destruct (str_leb_total (RecentRelation.as_str (CandidateRelation.relation a))
     (RecentRelation.as_str (CandidateRelation.relation b))); auto 10.
Qed.

#[export] Hint Resolve candidate_leb_trans candidate_leb_total : forge.

(** ** What justifies a relation

    The four rules of the resolver, stated without loops. *)
Section justified.
Context (url_host : string → option string) (parse_rfc3339 : string → option instant).
Context (anchor : ActorExtraction) (nodes : list EntityNode) (edges : list EntityEdge).
Context (bindings : list SocialIdentityRecord) (now : Z).
Local Abbreviation same_wallet := (same_wallet url_host).
Local Abbreviation same_token := (same_token url_host).
Local Abbreviation same_actor := (same_actor url_host).
Local Abbreviation same_social_identity := (same_social_identity url_host).
Local Abbreviation authoritative := (λ e, edge_is_authoritative parse_rfc3339 e now).

Definition token_node (key : string) : Prop :=
  ∃ n, n ∈ nodes ∧ EntityNode.node_type n = NodeType.Token ∧
    same_token (EntityNode.entity_key n) key = true.

Definition wallet_node (key : string) : Prop :=
  ∃ n, n ∈ nodes ∧ EntityNode.node_type n = NodeType.Wallet ∧
    same_wallet (EntityNode.entity_key n) key = true.

Inductive justified : request → Prop :=
  | justified_cross_chain e ac tc :
      e ∈ edges → EntityEdge.edge_type e = EdgeType.CrossChainDeployment →
      same_token (EntityEdge.from_entity_key e) (ActorExtraction.token anchor) = true →
      canonical_chain (ActorExtraction.token anchor) = Some ac →
      canonical_chain (EntityEdge.to_entity_key e) = Some tc → tc ≠ ac →
      authoritative e = true →
      justified (Request IdentityKind.Token (EntityEdge.to_entity_key e)
        RecentRelation.CrossChainDeployment RecentConfidence.Exact (EntityEdge.evidence_refs e))
  | justified_actor n k e rel :
      n ∈ nodes → EntityNode.node_type n = NodeType.Token →
      same_token (EntityNode.entity_key n) (ActorExtraction.token anchor) = false →
      normalize_identity url_host IdentityKind.Token (EntityNode.entity_key n) = Some k →
      e ∈ edges → same_token (EntityEdge.to_entity_key e) (EntityNode.entity_key n) = true →
      same_actor (ActorExtraction.factory anchor) (EntityEdge.from_entity_key e) = false →
      actor_relation url_host anchor e = Some rel →
      justified (Request IdentityKind.Token (IdentityKey.value k) rel
        (if authoritative e then RecentConfidence.Exact else RecentConfidence.Insufficient)
        (EntityEdge.evidence_refs e))
  | justified_funding e :
      e ∈ edges → EntityEdge.edge_type e = EdgeType.FundedBy →
      same_actor (ActorExtraction.deployer anchor) (EntityEdge.from_entity_key e) = true →
      wallet_node (EntityEdge.to_entity_key e) →
      justified (Request IdentityKind.Wallet (EntityEdge.to_entity_key e)
        RecentRelation.FundedByKnownDeployer
        (funding_confidence url_host parse_rfc3339 anchor edges bindings now e)
        (EntityEdge.evidence_refs e))
  | justified_reuse identity e :
      identity ∈ ActorExtraction.social_identities anchor →
      e ∈ edges → EntityEdge.edge_type e = EdgeType.ReusedSocialLink →
      same_social_identity (EntityEdge.to_entity_key e) identity = true →
      token_node (EntityEdge.from_entity_key e) →
      justified (Request IdentityKind.Token (EntityEdge.from_entity_key e)
        RecentRelation.ReusedSocialLink RecentConfidence.Insufficient
        (EntityEdge.evidence_refs e)).

Lemma elem_of_flat_map {A B} (f : A → list B) l y :
  y ∈ flat_map f l ↔ ∃ x, x ∈ l ∧ y ∈ f x.
Proof using. rewrite list_elem_of_In, in_flat_map. by setoid_rewrite <-list_elem_of_In. Qed.

Lemma elem_of_filter_bool {A} (f : A → bool) l y :
  y ∈ List.filter f l ↔ y ∈ l ∧ f y = true.
Proof using. by rewrite list_elem_of_In, filter_In, <-list_elem_of_In. Qed.

Lemma elem_of_if_singleton {A} (b : bool) (x y : A) :
  y ∈ (if b then [x] else []) ↔ b = true ∧ y = x.
Proof using. destruct b; set_solver. Qed.

Lemma is_token_node_spec key : is_token_node url_host nodes key = true ↔ token_node key.
Proof using.
  unfold is_token_node. rewrite existsb_exists_elem. setoid_rewrite andb_true_iff.
  setoid_rewrite bool_decide_eq_true. unfold token_node.
  split; [intros (n & ? & ? & ?)|intros (n & ? & ? & ?)]; by exists n.
Qed.

Lemma is_wallet_node_spec key : is_wallet_node url_host nodes key = true ↔ wallet_node key.
Proof using.
  unfold is_wallet_node. rewrite existsb_exists_elem. setoid_rewrite andb_true_iff.
  setoid_rewrite bool_decide_eq_true. unfold wallet_node.
  split; [intros (n & ? & ? & ?)|intros (n & ? & ? & ?)]; by exists n.
Qed.

Lemma is_type_spec ty e : is_type ty e = true ↔ EntityEdge.edge_type e = ty.
Proof using. apply bool_decide_eq_true. Qed.

Lemma cross_chain_requests_spec ac r :
  canonical_chain (ActorExtraction.token anchor) = Some ac →
  (∃ e, e ∈ edges ∧ r ∈ cross_chain_requests url_host parse_rfc3339
     (ActorExtraction.token anchor) ac now e) → justified r.
Proof using.
  intros Hac (e & He & Hr). unfold cross_chain_requests in Hr.
  apply elem_of_if_singleton in Hr as [Hc ->].
  destruct (canonical_chain (EntityEdge.to_entity_key e)) as [tc|] eqn:Ht;
    [|by rewrite andb_false_r in Hc].
  bool_prop. eapply justified_cross_chain; eauto. by apply is_type_spec.
Qed.

Lemma actor_node_requests_spec n r :
  n ∈ nodes → EntityNode.node_type n = NodeType.Token →
  r ∈ actor_node_requests url_host parse_rfc3339 anchor edges now n → justified r.
Proof using.
  intros Hn Ht. unfold actor_node_requests.
  destruct (same_token _ _) eqn:Es; [set_solver|].
  destruct (normalize_identity _ _ _) as [k|] eqn:Ek; [|set_solver].
  rewrite elem_of_flat_map. intros (e & [He Hto]%elem_of_filter_bool & Hr).
  unfold actor_edge_requests in Hr.
  destruct (same_actor _ _) eqn:Ef; [set_solver|].
  destruct (actor_relation _ _ _) as [rel|] eqn:Erel; [|set_solver].
  apply list_elem_of_singleton in Hr as ->. eapply justified_actor; eauto.
Qed.

Lemma requests_justified ac r :
  canonical_chain (ActorExtraction.token anchor) = Some ac →
  r ∈ requests url_host parse_rfc3339 anchor ac nodes edges bindings now ↔ justified r.
Proof using.
  intros Hac. unfold requests. rewrite !elem_of_app, !elem_of_flat_map. split.
  - intros [?|[(n & [Hn ?%bool_decide_eq_true]%elem_of_filter_bool & Hr)
           |[(e & He & Hr)|(i & Hi & Hr)]]].
    + by eapply cross_chain_requests_spec.
    + by eapply actor_node_requests_spec.
    + apply elem_of_if_singleton in Hr as [Hc ->]. bool_prop.
      apply justified_funding; [done|by apply is_type_spec|done|by apply is_wallet_node_spec].
    + apply elem_of_flat_map in Hr as (e & He & [Hc ->]%elem_of_if_singleton). bool_prop.
      eapply justified_reuse; [done|done|by apply is_type_spec|done|by apply is_token_node_spec].
  - destruct 1 as [e ac' tc He Hty Hs Hac' Htc Hne Hau|n k e rel Hn Hty Hs Hk He Hto Hf Hrel
      |e He Hty Hs Hw|i e Hi He Hty Hs Ht].
    + left. exists e. split; [done|]. apply elem_of_if_singleton. split; [|done].
      rewrite Hs, Htc, Hau, (proj2 (is_type_spec _ _) Hty). simplify_eq.
      by rewrite bool_decide_false.
    + right; left. exists n. split; [apply elem_of_filter_bool; split; [done|]; by apply bool_decide_eq_true|].
      unfold actor_node_requests. rewrite Hs, Hk. apply elem_of_flat_map. exists e.
      split; [by apply elem_of_filter_bool|]. unfold actor_edge_requests. rewrite Hf, Hrel. left.
    + right; right; left. exists e. split; [done|]. apply elem_of_if_singleton. split; [|done].
      by rewrite Hs, (proj2 (is_type_spec _ _) Hty), (proj2 (is_wallet_node_spec _) Hw).
    + right; right; right. exists i. split; [done|]. apply elem_of_flat_map. exists e.
      split; [done|]. apply elem_of_if_singleton. split; [|done].
      by rewrite Hs, (proj2 (is_type_spec _ _) Hty), (proj2 (is_token_node_spec _) Ht).
Qed.

Lemma resolve_requests ac :
  canonical_chain (ActorExtraction.token anchor) = Some ac →
  resolve_candidates url_host parse_rfc3339 anchor nodes edges bindings now =
  stable_sort candidate_leb (first_by_key [] (omap (candidate_of url_host)
    (requests url_host parse_rfc3339 anchor ac nodes edges bindings now))).
Proof using.
  intros Hac. unfold resolve_candidates. rewrite Hac.
  rewrite (foldl_requests _ _ _ _ _ (cross_chain_step_requests _ _ _ _ _)).
  rewrite (foldl_requests _ _ _ _ _ (actor_node_step_requests _ _ _ _ _)).
  rewrite (foldl_requests _ _ _ _ _ (funding_step_requests _ _ _ _ _ _ _)).
  rewrite (foldl_requests url_host (λ st identity, foldl (reuse_edge_step url_host nodes identity) st edges)
    (λ identity, flat_map (reuse_edge_requests url_host nodes identity) edges)).
  2: { intros st i. apply foldl_requests. intros. apply reuse_edge_step_requests. }
  rewrite <-!foldl_app, run_requests_first. done.
Qed.

(** Every candidate of the output comes from a justified request. *)
Lemma resolve_sound c :
  c ∈ resolve_candidates url_host parse_rfc3339 anchor nodes edges bindings now →
  ∃ r, justified r ∧ candidate_of url_host r = Some c.
Proof using.
  destruct (canonical_chain (ActorExtraction.token anchor)) as [ac|] eqn:Hac.
  2: { unfold resolve_candidates. rewrite Hac. set_solver. }
  rewrite (resolve_requests ac Hac), elem_of_stable_sort.
  intros [(r & Hr & Hc)%list_elem_of_omap _]%first_by_key_elem.
  exists r. split; [by eapply requests_justified|done].
Qed.
End justified.

(** ** Theorems *)

Lemma edge_is_authoritative_inv parse e now :
  edge_is_authoritative parse e now = true ↔
  EntityEdge.truth_status e = TruthStatus.Confirmed ∧
  EntityEdge.evidence_refs e ≠ [] ∧ is_edge_valid parse e now = true.
Proof.
  unfold edge_is_authoritative, is_edge_valid.
  case_bool_decide as Ht; simpl; [|naive_solver].
  case_bool_decide as Hr; [naive_solver|].
  split; [done|]. by intros (_&_&?).
Qed.

(** What makes an edge authoritative: it is confirmed, has evidence, and its
    validity window is parseable and contains the instant. *)
Definition authoritative_at (parse : string → option instant) (e : EntityEdge) (now : Z) : Prop :=
  EntityEdge.truth_status e = TruthStatus.Confirmed ∧
  EntityEdge.evidence_refs e ≠ [] ∧
  ∃ from, parse_secs parse (EntityEdge.valid_from e) = Some from ∧ (from <= now)%Z ∧
    (EntityEdge.valid_until e = None ∨
     ∃ until u, EntityEdge.valid_until e = Some until ∧
       parse_secs parse until = Some u ∧ (now <= u)%Z).

Lemma edge_is_authoritative_spec parse e now :
  edge_is_authoritative parse e now = true ↔ authoritative_at parse e now.
Proof. by rewrite edge_is_authoritative_inv, is_edge_valid_spec. Qed.

Lemma find_first_is_Some {A} (p : A → bool) l :
  is_Some (find_first p l) ↔ ∃ x, x ∈ l ∧ p x = true.
Proof.
  split.
  - intros [x Hx%find_first_Some]. by exists x.
  - intros (x & Hx & Hp). destruct (find_first p l) eqn:E; [done|].
    rewrite find_first_None in E. rewrite E in Hp; done.
Qed.

Lemma funding_confidence_spec url parse anchor edges bs now e :
  funding_confidence url parse anchor edges bs now e ≠ RecentConfidence.Exact ∧
  (funding_confidence url parse anchor edges bs now e = RecentConfidence.Reconstructed →
   edge_is_authoritative parse e now = true ∧
   ∃ occ re, parse_secs parse (EntityEdge.occurred_at e) = Some occ ∧ re ∈ edges ∧
     corroborates url parse anchor bs now occ e re = true) ∧
  (funding_confidence url parse anchor edges bs now e = RecentConfidence.Estimated →
   edge_is_authoritative parse e now = true).
Proof.
  unfold funding_confidence. destruct (edge_is_authoritative parse e now); simpl; [|done].
  case_bool_decide as Hs; [|done]. split; [done|]. split; [|done]. intros _. split; [done|].
  destruct (parse_secs parse (EntityEdge.occurred_at e)) as [occ|]; [|by destruct Hs].
  apply find_first_is_Some in Hs as (re & ? & ?). by exists occ, re.
Qed.

Lemma corroborates_inv url parse anchor bs now occ e re :
  corroborates url parse anchor bs now occ e re = true →
  EntityEdge.edge_type re = EdgeType.ReusedSocialLink ∧
  same_wallet url (EntityEdge.from_entity_key re) (EntityEdge.to_entity_key e) = true ∧
  edge_is_authoritative parse re now = true ∧
  (∃ s, s ∈ ActorExtraction.social_identities anchor ∧
     same_social_identity url (EntityEdge.to_entity_key re) s = true ∧
     is_immutable_social_identity s bs = true) ∧
  ∃ vf, parse_secs parse (EntityEdge.valid_from re) = Some vf ∧ (vf <= occ)%Z ∧
    ∀ u vu, EntityEdge.valid_until re = Some u → parse_secs parse u = Some vu → (occ <= vu)%Z.
Proof.
  unfold corroborates. intros H. bool_prop.
  destruct (parse_secs parse (EntityEdge.valid_from re)) as [vf|]; [|done].
  split; [by apply is_type_spec|]. split; [done|]. split; [done|]. split.
  - match goal with E : existsb _ _ = true |- _ =>
      apply existsb_exists_elem in E as (s & Hs & Hb) end. bool_prop. eauto.
  - exists vf. split; [done|]. split; [by apply Z.leb_le|]. intros u vu Hu Hv.
    rewrite Hu, Hv in *. by apply Z.leb_le.
Qed.

(** The relation an edge type stands for in the reverse lookup. *)
Lemma actor_relation_inv url anchor e rel :
  actor_relation url anchor e = Some rel →
  let actor := EntityEdge.from_entity_key e in
  (rel = RecentRelation.SameDeployer ∧ EntityEdge.edge_type e = EdgeType.DeployedBy ∧
     same_actor url (ActorExtraction.deployer anchor) actor = true) ∨
  (rel = RecentRelation.SameFunder ∧ EntityEdge.edge_type e = EdgeType.FundedBy ∧
     same_actor url (ActorExtraction.initial_funder anchor) actor = true) ∨
  (rel = RecentRelation.SameAuthority ∧ EntityEdge.edge_type e = EdgeType.SameAuthority ∧
     same_actor url (ActorExtraction.authority anchor) actor = true) ∨
  (rel = RecentRelation.SameFeePayer ∧ EntityEdge.edge_type e = EdgeType.SameFeePayer ∧
     same_actor url (ActorExtraction.fee_payer anchor) actor = true).
Proof.
  unfold actor_relation. intros H. simpl.
  destruct (EntityEdge.edge_type e); try done; split_cases; auto 10.
Qed.

Lemma resolve_None url parse anchor nodes edges bs now :
  canonical_chain (ActorExtraction.token anchor) = None →
  resolve_candidates url parse anchor nodes edges bs now = [].
Proof. intros H. unfold resolve_candidates. by rewrite H. Qed.

(** A canonical key stands for the value it was computed from. *)
Lemma normalize_same_token url v k b :
  normalize_identity url IdentityKind.Token v = Some k →
  same_token url (IdentityKey.value k) b = same_token url v b.
Proof.
  intros Hk. unfold same_token. rewrite Hk.
  by rewrite (proj1 (normalize_chain_canonical url _ _ _ (or_introl eq_refl) Hk)).
Qed.

Lemma same_token_canonical url v k k' b :
  normalize_identity url IdentityKind.Token v = Some k' →
  normalize_identity url IdentityKind.Token (IdentityKey.value k') = Some k →
  same_token url (IdentityKey.value k) b = same_token url v b.
Proof.
  intros H1 H2. rewrite (normalize_same_token _ _ _ _ H2). by apply normalize_same_token.
Qed.

Lemma cross_chain_other url v k a tc ac :
  normalize_identity url IdentityKind.Token v = Some k →
  canonical_chain v = Some tc → canonical_chain a = Some ac → tc ≠ ac →
  same_token url (IdentityKey.value k) a = false.
Proof.
  intros Hk Hv Ha Hne. rewrite (normalize_same_token _ _ _ _ Hk).
  destruct (same_token url v a) eqn:E; [|done]. exfalso. apply Hne.
  rewrite same_token_eq_same_wallet in E.
  apply same_wallet_inv in E as (cv & ca & n & r & Htv & Hta & Hr & Hcv & Hca & Hnv & Hna).
  assert (∀ w c, trim w = (c +:+ ":" +:+ r)%string → no_char ":" c →
    canonical_chain_name (to_ascii_lowercase c) = Some n → canonical_chain (trim w) = Some n) as Hcc.
  { intros w c Ht Hc Hn. unfold canonical_chain. rewrite Ht.
    rewrite (proj2 (split_once_Some ":" _ c r)) by done.
    rewrite decide_False; [done|]. intros [->|?]; [|done]. done. }
  transitivity n; [|symmetry]; eapply canonical_chain_trim; eauto.
Qed.

(** Claim C10: The four effectful loops of [resolve_candidates] compute their
    specification.  For an anchor of a known chain the output consists of
    emissions justified by one of the four rules, holds an entry for the key of
    every justified emission that normalises, has no two entries with one
    (value, kind, relation), and is sorted by confidence rank descending, then
    relation name, then value; an anchor of no known chain resolves nothing. *)
Theorem resolve_candidates_refines url parse anchor nodes edges bs now :
  let out := resolve_candidates url parse anchor nodes edges bs now in
  let ok := justified url parse anchor nodes edges bs now in
  match canonical_chain (ActorExtraction.token anchor) with
  | None => out = []
  | Some _ =>
      (∀ c, c ∈ out → ∃ r, ok r ∧ candidate_of url r = Some c) ∧
      (∀ r d, ok r → candidate_of url r = Some d →
         ∃ c, c ∈ out ∧ candidate_key c = candidate_key d) ∧
      NoDup (candidate_key <$> out) ∧
      StronglySorted (λ a b, candidate_leb a b = true) out
  end.
Proof.
  simpl. destruct (canonical_chain _) as [ac|] eqn:Hac; [|by apply resolve_None].
  split; [apply resolve_sound|].
  rewrite (resolve_requests _ _ _ _ _ _ _ ac Hac). split; [|split].
  - intros r d Hr Hd. setoid_rewrite elem_of_stable_sort.
    assert (d ∈ omap (candidate_of url) (requests url parse anchor ac nodes edges bs now)) as Hin.
    { apply list_elem_of_omap. exists r. split; [by apply requests_justified|done]. }
    apply (first_by_key_complete []) in Hin as [?|(x & ? & ?)]; [set_solver|eauto].
  - rewrite stable_sort_perm. apply first_by_key_NoDup.
  - apply stable_sort_sorted; auto with forge. apply candidate_leb_trans.
Qed.

(** What an edge must say for its token to be an [Exact] relation of the anchor:
    a deployment of the anchor itself on another chain, or the actor of the
    anchor that the relation is named after. *)
Definition states_relation url (anchor : ActorExtraction) (e : EntityEdge) (rel : RecentRelation) : Prop :=
  let actor := EntityEdge.from_entity_key e in
  (rel = RecentRelation.CrossChainDeployment ∧ EntityEdge.edge_type e = EdgeType.CrossChainDeployment ∧
     same_token url actor (ActorExtraction.token anchor) = true ∧
     canonical_chain (EntityEdge.to_entity_key e) ≠ canonical_chain (ActorExtraction.token anchor)) ∨
  (rel = RecentRelation.SameDeployer ∧ EntityEdge.edge_type e = EdgeType.DeployedBy ∧
     same_actor url (ActorExtraction.deployer anchor) actor = true) ∨
  (rel = RecentRelation.SameFunder ∧ EntityEdge.edge_type e = EdgeType.FundedBy ∧
     same_actor url (ActorExtraction.initial_funder anchor) actor = true) ∨
  (rel = RecentRelation.SameAuthority ∧ EntityEdge.edge_type e = EdgeType.SameAuthority ∧
     same_actor url (ActorExtraction.authority anchor) actor = true) ∨
  (rel = RecentRelation.SameFeePayer ∧ EntityEdge.edge_type e = EdgeType.SameFeePayer ∧
     same_actor url (ActorExtraction.fee_payer anchor) actor = true).

Lemma same_token_sym url a b : same_token url a b = same_token url b a.
Proof.
  unfold same_token. destruct (normalize_identity url IdentityKind.Token a), (normalize_identity url IdentityKind.Token b); try done.
  apply bool_decide_ext. naive_solver.
Qed.

Lemma canonical_same_token url v k :
  normalize_identity url IdentityKind.Token v = Some k → same_token url (IdentityKey.value k) v = true.
Proof. intros Hk. rewrite (normalize_same_token _ _ _ _ Hk). unfold same_token. rewrite Hk. by apply bool_decide_eq_true. Qed.

(** Claim C2: Confidence is earned.  Every emitted identity is canonical.  An
    [Exact] relation names the token one authoritative edge of the inputs
    (confirmed, with evidence, inside its validity window) points at, carries
    the evidence of that edge, and is the relation that edge states: its type,
    and the anchor or the anchor's actor at its other end, never its factory
    in a reverse lookup.  A [Reconstructed] one names the wallet an
    authoritative [FundedBy] edge from the anchor's deployer points at, carries
    that edge's evidence, and is corroborated by one authoritative
    [ReusedSocialLink] edge by which the same wallet reused an immutable social
    identity of the anchor, valid at the funding time. *)
Theorem resolved_confidence_earned url parse anchor nodes edges bs now c :
  c ∈ resolve_candidates url parse anchor nodes edges bs now →
  let id := CandidateRelation.to_identity c in
  normalize_identity url (IdentityKey.kind id) (IdentityKey.value id) = Some id ∧
  (CandidateRelation.confidence c = RecentConfidence.Exact →
   ∃ e, e ∈ edges ∧ authoritative_at parse e now ∧
     CandidateRelation.evidence_refs c = EntityEdge.evidence_refs e ∧
     states_relation url anchor e (CandidateRelation.relation c) ∧
     (CandidateRelation.relation c ≠ RecentRelation.CrossChainDeployment →
        same_actor url (ActorExtraction.factory anchor) (EntityEdge.from_entity_key e) = false) ∧
     IdentityKey.kind id = IdentityKind.Token ∧
     same_token url (IdentityKey.value id) (EntityEdge.to_entity_key e) = true) ∧
  (CandidateRelation.confidence c = RecentConfidence.Reconstructed →
   CandidateRelation.relation c = RecentRelation.FundedByKnownDeployer ∧
   ∃ e re occ, e ∈ edges ∧ re ∈ edges ∧
     authoritative_at parse e now ∧ authoritative_at parse re now ∧
     EntityEdge.edge_type e = EdgeType.FundedBy ∧
     EntityEdge.edge_type re = EdgeType.ReusedSocialLink ∧
     CandidateRelation.evidence_refs c = EntityEdge.evidence_refs e ∧
     normalize_identity url IdentityKind.Wallet (EntityEdge.to_entity_key e) = Some id ∧
     same_actor url (ActorExtraction.deployer anchor) (EntityEdge.from_entity_key e) = true ∧
     same_wallet url (EntityEdge.from_entity_key re) (EntityEdge.to_entity_key e) = true ∧
     (∃ s, s ∈ ActorExtraction.social_identities anchor ∧
        same_social_identity url (EntityEdge.to_entity_key re) s = true ∧
        is_immutable_social_identity s bs = true) ∧
     parse_secs parse (EntityEdge.occurred_at e) = Some occ ∧
     ∃ vf, parse_secs parse (EntityEdge.valid_from re) = Some vf ∧ (vf <= occ)%Z ∧
       ∀ u vu, EntityEdge.valid_until re = Some u → parse_secs parse u = Some vu → (occ <= vu)%Z).
Proof.
  intros (r & Hr & Hc)%resolve_sound. unfold candidate_of in Hc.
  apply fmap_Some in Hc as (k & Hk & ->). simpl.
  assert (IdentityKey.kind k = req_kind r) as Hkind by by eapply normalize_kind.
  assert (req_kind r = IdentityKind.Token ∨ req_kind r = IdentityKind.Wallet) as Hch
    by (destruct Hr; auto).
  split; [rewrite Hkind; by eapply normalize_chain_canonical|].
  destruct Hr as [e ac tc He Hty Hs Hac Htc Hne Hau|n k' e rel Hn Hty Hs Hk' He Hto Hf Hrel
      |e He Hty Hs Hw|i e Hi He Hty Hs Ht]; simpl in *.
  - apply edge_is_authoritative_spec in Hau. split; [|done]. intros _. exists e. split_and!; try done.
    + left. rewrite Hac, Htc. split_and!; try done. congruence.
    + by apply canonical_same_token.
  - destruct (edge_is_authoritative parse e now) eqn:Ea; split; try done.
    apply edge_is_authoritative_spec in Ea. intros _. exists e. split_and!; try done.
    + right. apply (actor_relation_inv _ _ _ _ Hrel).
    + rewrite (same_token_canonical _ _ _ _ _ Hk' Hk), same_token_sym. done.
  - destruct (funding_confidence_spec url parse anchor edges bs now e) as (Hx & Hre & _).
    split; [done|]. intros (Ha & occ & re & Hocc & Hin & Hcor)%Hre. split; [done|].
    apply corroborates_inv in Hcor as (? & Hw' & Hare & Hsoc & vf & ? & ? & ?).
    apply edge_is_authoritative_spec in Ha, Hare. exists e, re, occ. split_and!; try done. by exists vf.
  - done.
Qed.

(** The relations the resolver can emit.  They are the cross-chain,
    reverse-lookup, funding and reused-link relations, so no
    [OfficialCaAnnouncement] ever leaves it; and apart from the reused-link
    path no token relation points back at the anchor under any spelling. *)
Theorem resolved_relation_range url parse anchor nodes edges bs now c :
  c ∈ resolve_candidates url parse anchor nodes edges bs now →
  CandidateRelation.relation c ∈
    [RecentRelation.CrossChainDeployment; RecentRelation.SameDeployer;
     RecentRelation.SameFunder; RecentRelation.SameAuthority; RecentRelation.SameFeePayer;
     RecentRelation.FundedByKnownDeployer; RecentRelation.ReusedSocialLink] ∧
  (IdentityKey.kind (CandidateRelation.to_identity c) = IdentityKind.Token →
   CandidateRelation.relation c ≠ RecentRelation.ReusedSocialLink →
   same_token url (IdentityKey.value (CandidateRelation.to_identity c))
     (ActorExtraction.token anchor) = false).
Proof.
  intros (r & Hr & Hc)%resolve_sound. unfold candidate_of in Hc.
  apply fmap_Some in Hc as (k & Hk & ->). simpl.
  assert (IdentityKey.kind k = req_kind r) as Hkind by by eapply normalize_kind.
  destruct Hr as [e ac tc He Hty Hs Hac Htc Hne Hau|n k' e rel Hn Hty Hs Hk' He Hto Hf Hrel
      |e He Hty Hs Hw|i e Hi He Hty Hs Ht]; simpl in *.
  - split; [set_solver|]. intros _ _. by eapply cross_chain_other.
  - split.
    + apply actor_relation_inv in Hrel. set_solver.
    + intros _ _. rewrite <-Hs. by eapply same_token_canonical.
  - split; [set_solver|]. congruence.
  - split; [set_solver|]. done.
Qed.

(** ** A concrete input *)

(** A parser that knows one timestamp. *)
Definition jan_2026 (s : string) : option instant :=
  if decide (s = "2026-01-01T00:00:00Z") then Some (1767225600 * 10 ^ 9)%Z else None.

Definition no_url (_ : string) : option string := None.

Definition sample_edge (ty : EdgeType) (status : TruthStatus) (from to : string)
    (refs : list string) : EntityEdge :=
  EntityEdge.mk from to ty "2026-01-01T00:00:00Z" None status None "2026-01-01T00:00:00Z"
    None None refs.

Definition sample_anchor : ActorExtraction :=
  ActorExtraction.mk "sol:AAA" (Some "solana:D1") None None None None [] ["x:acct1"].

Definition sample_nodes : list EntityNode :=
  [EntityNode.mk "sol:AAA" NodeType.Token; EntityNode.mk "sol:BBB" NodeType.Token;
   EntityNode.mk "solana:W" NodeType.Wallet].

Definition sample_edges : list EntityEdge :=
  [sample_edge EdgeType.DeployedBy TruthStatus.Confirmed "SOL:D1" "solana:BBB" ["ev1"];
   sample_edge EdgeType.FundedBy TruthStatus.Confirmed "sol:D1" "sol:W" ["ev2"];
   sample_edge EdgeType.ReusedSocialLink TruthStatus.Confirmed "solana:W" "X:acct1" ["ev3"]].

Definition sample_bindings : list SocialIdentityRecord :=
  records_from_store [StoredSocialIdentity.mk " X" "acct1" ["alice"]].

Definition sample_now : Z := 1800000000.

Definition sample_out : list CandidateRelation :=
  [CandidateRelation.mk (IdentityKey.mk IdentityKind.Token "solana:BBB")
     RecentRelation.SameDeployer RecentConfidence.Exact ["ev1"];
   CandidateRelation.mk (IdentityKey.mk IdentityKind.Wallet "solana:W")
     RecentRelation.FundedByKnownDeployer RecentConfidence.Reconstructed ["ev2"]].

Example sample_resolves :
  resolve_candidates no_url jan_2026 sample_anchor sample_nodes sample_edges sample_bindings
    sample_now = sample_out.
Proof. vm_compute. reflexivity. Qed.

Lemma resolved_confidence_earned_witness :
  ∃ e re, e ∈ sample_edges ∧ re ∈ sample_edges ∧
    authoritative_at jan_2026 e sample_now ∧
    authoritative_at jan_2026 re sample_now ∧
    EntityEdge.edge_type e = EdgeType.FundedBy ∧ EntityEdge.edge_type re = EdgeType.ReusedSocialLink.
Proof.
  destruct (resolved_confidence_earned no_url jan_2026 sample_anchor sample_nodes sample_edges
    sample_bindings sample_now
    (CandidateRelation.mk (IdentityKey.mk IdentityKind.Wallet "solana:W")
     RecentRelation.FundedByKnownDeployer RecentConfidence.Reconstructed ["ev2"]))
    as (_ & _ & H).
  - rewrite sample_resolves. right. left.
  - destruct (H eq_refl) as (_ & e & re & occ & ? & ? & ? & ? & ? & ? & _). by exists e, re.
Defined.

Lemma resolved_relation_range_witness :
  same_token no_url "solana:BBB" "sol:AAA" = false.
Proof.
  apply (resolved_relation_range no_url jan_2026 sample_anchor sample_nodes sample_edges
    sample_bindings sample_now
    (CandidateRelation.mk (IdentityKey.mk IdentityKind.Token "solana:BBB")
     RecentRelation.SameDeployer RecentConfidence.Exact ["ev1"])); [|done|done].
  rewrite sample_resolves. left.
Defined.

(** The reused-link path does not exclude the anchor.  When the
    anchor token is a token node and one of the reuse edges of its own social
    identity starts at the anchor itself, the output relates the anchor to
    itself by [ReusedSocialLink], although the path is documented to return the
    OTHER token. *)
Theorem reused_link_returns_anchor url parse anchor nodes edges bs now identity e k :
  identity ∈ ActorExtraction.social_identities anchor →
  e ∈ edges → EntityEdge.edge_type e = EdgeType.ReusedSocialLink →
  same_social_identity url (EntityEdge.to_entity_key e) identity = true →
  EntityEdge.from_entity_key e = ActorExtraction.token anchor →
  EntityNode.mk (ActorExtraction.token anchor) NodeType.Token ∈ nodes →
  normalize_identity url IdentityKind.Token (ActorExtraction.token anchor) = Some k →
  is_Some (canonical_chain (ActorExtraction.token anchor)) →
  ∃ c, c ∈ resolve_candidates url parse anchor nodes edges bs now ∧
    CandidateRelation.relation c = RecentRelation.ReusedSocialLink ∧
    IdentityKey.value (CandidateRelation.to_identity c) = IdentityKey.value k ∧
    same_token url (IdentityKey.value (CandidateRelation.to_identity c))
      (ActorExtraction.token anchor) = true.
Proof.
  intros Hi He Hty Hs Hfrom Hn Hk [ac Hac].
  assert (same_token url (ActorExtraction.token anchor) (ActorExtraction.token anchor) = true) as Hrefl.
  { unfold same_token. rewrite Hk. by apply bool_decide_eq_true. }
  assert (justified url parse anchor nodes edges bs now
    (Request IdentityKind.Token (EntityEdge.from_entity_key e) RecentRelation.ReusedSocialLink
       RecentConfidence.Insufficient (EntityEdge.evidence_refs e))) as Hj.
  { eapply justified_reuse; eauto. rewrite Hfrom. by eexists. }
  rewrite (resolve_requests _ _ _ _ _ _ _ ac Hac). setoid_rewrite elem_of_stable_sort.
  apply (requests_justified _ _ _ _ _ _ _ ac _ Hac) in Hj.
  destruct (first_by_key_complete [] (omap (candidate_of url)
      (requests url parse anchor ac nodes edges bs now))
    (CandidateRelation.mk k RecentRelation.ReusedSocialLink RecentConfidence.Insufficient
       (EntityEdge.evidence_refs e))) as [?|(c & Hc & Hkey)].
  - apply list_elem_of_omap. eexists. split; [exact Hj|]. unfold candidate_of. simpl.
    by rewrite Hfrom, Hk.
  - by apply not_elem_of_nil in H.
  - exists c. unfold candidate_key in Hkey. simpl in Hkey. injection Hkey as Hv _ Hr.
    split; [done|]. split; [done|]. split; [done|]. rewrite Hv.
    by rewrite (normalize_same_token _ _ _ _ Hk).
Qed.

Lemma reused_link_returns_anchor_witness :
  ∃ c, c ∈ resolve_candidates no_url jan_2026 sample_anchor sample_nodes
         [sample_edge EdgeType.ReusedSocialLink TruthStatus.Confirmed "sol:AAA" "x:acct1" ["ev"]]
         [] sample_now ∧
    CandidateRelation.relation c = RecentRelation.ReusedSocialLink ∧
    IdentityKey.value (CandidateRelation.to_identity c) = "solana:AAA" ∧
    same_token no_url (IdentityKey.value (CandidateRelation.to_identity c)) "sol:AAA" = true.
Proof.
  apply (reused_link_returns_anchor no_url jan_2026 sample_anchor sample_nodes
    [sample_edge EdgeType.ReusedSocialLink TruthStatus.Confirmed "sol:AAA" "x:acct1" ["ev"]]
    [] sample_now "x:acct1"
    (sample_edge EdgeType.ReusedSocialLink TruthStatus.Confirmed "sol:AAA" "x:acct1" ["ev"])
    (IdentityKey.mk IdentityKind.Token "solana:AAA"));
    first [left|by vm_compute|by eexists].
Defined.

(** The first edge decides.  With two deployment edges into one
    token, one disputed and one authoritative, the output holds the
    [Exact] relation only when the authoritative edge is listed first; listed
    second, it is dropped by the dedupe and the relation stays
    [Insufficient]. *)
Theorem first_edge_decides_confidence :
  let bad := sample_edge EdgeType.DeployedBy TruthStatus.Disputed "sol:D1" "sol:BBB" ["ev1"] in
  let good := sample_edge EdgeType.DeployedBy TruthStatus.Confirmed "sol:D1" "sol:BBB" ["ev2"] in
  let run := λ edges, (λ c, (CandidateRelation.confidence c, CandidateRelation.evidence_refs c)) <$>
    resolve_candidates no_url jan_2026 sample_anchor sample_nodes edges [] sample_now in
  edge_is_authoritative jan_2026 good sample_now = true ∧
  run [good; bad] = [(RecentConfidence.Exact, ["ev2"])] ∧
  run [bad; good] = [(RecentConfidence.Insufficient, ["ev1"])].
Proof. vm_compute. auto. Qed.

