(* ===== verification/Recent.v ===== *)
(** * Timelines, dependency groups, retraction, coverage
      (src/src/sf/recent_runtime.rs)

    The pure helpers of the recent-intelligence runtime.  [dependency_roots]
    is recursive in the code without a bound: here [find_root] carries fuel,
    [None] standing for a recursion that has not returned, and the fuel
    [S (size parent)] is shown to be enough exactly when the parent map has no
    cycle.  The iteration order of the hash map is an argument. *)
From S2P Require Import Prelude Text Domain.
From stdpp Require Import options.
Local Open Scope string_scope.
Local Open Scope list_scope.

(** ** Timelines *)

(** [occurred_at], then [observed_at]. *)
Definition event_leb (a b : RecentEvent) : bool :=
  match Z.compare (RecentEvent.occurred_at a) (RecentEvent.occurred_at b) with
  | Lt => true
  | Gt => false
  | Eq => (RecentEvent.observed_at a <=? RecentEvent.observed_at b)%Z
  end.

Definition build_timeline (anchor : string) (events : list RecentEvent) : RecentTimeline :=
  let evs := List.filter (λ e, bool_decide (RecentEvent.anchor_identity e = anchor)) events in
  RecentTimeline.mk anchor (stable_sort event_leb evs).

Lemma event_leb_spec a b :
  event_leb a b = true ↔
  (RecentEvent.occurred_at a < RecentEvent.occurred_at b)%Z ∨
  (RecentEvent.occurred_at a = RecentEvent.occurred_at b ∧
   (RecentEvent.observed_at a <= RecentEvent.observed_at b)%Z).
Proof.
  unfold event_leb.
  destruct (Z.compare_spec (RecentEvent.occurred_at a) (RecentEvent.occurred_at b));
    rewrite ?Z.leb_le; split; try done; lia.
Qed.

Lemma event_leb_total a b : event_leb a b = true ∨ event_leb b a = true.
Proof. rewrite !event_leb_spec. lia. Qed.

Lemma event_leb_trans a b c :
  event_leb a b = true → event_leb b c = true → event_leb a c = true.
Proof. rewrite !event_leb_spec. lia. Qed.

(** ** Dependency groups *)

(** [parent.insert(downstream, upstream)] for every pair, in order. *)
Definition parent_map (deps : list (string * string)) : gmap string string :=
  foldl (λ parent '(upstream, downstream), <[downstream := upstream]> parent) ∅ deps.

Fixpoint find_root (fuel : nat) (r : string) (parent roots : gmap string string)
    : option (string * gmap string string) :=
  match fuel with
  | 0 => None
  | S fuel =>
      match roots !! r with
      | Some cached => Some (cached, roots)
      | None =>
          let? (root, roots) :=
            match parent !! r with
            | Some up => find_root fuel up parent roots
            | None => Some (r, roots)
            end in
          Some (root, <[r := root]> roots)
      end
  end.

(** [for r in parent.keys()], in the order [keys]. *)
Fixpoint find_roots (fuel : nat) (keys : list string) (parent roots : gmap string string)
    : option (gmap string string) :=
  match keys with
  | [] => Some roots
  | r :: keys =>
      let? (_, roots) := find_root fuel r parent roots in
      find_roots fuel keys parent roots
  end.

(** [entry(upstream).or_insert(upstream)]. *)
Definition or_insert_self (roots : gmap string string) (dep : string * string)
    : gmap string string :=
  match roots !! dep.1 with
  | Some _ => roots
  | None => <[dep.1 := dep.1]> roots
  end.

Definition dependency_roots (keys : list string) (deps : list (string * string))
    : option (gmap string string) :=
  let parent := parent_map deps in
  let? roots := find_roots (S (size parent)) keys parent ∅ in
  Some (foldl or_insert_self roots deps).

(** [Iterator::find_map]. *)
Fixpoint find_map {A B} (f : A → option B) (l : list A) : option B :=
  match l with
  | [] => None
  | x :: l => match f x with Some y => Some y | None => find_map f l end
  end.

Definition set_dependency_group (e : RecentEvent) (g : string) : RecentEvent :=
  match e with
  | RecentEvent.mk id ty anchor rel cqc occ obs r ts cf cl refs _ fr cov cap mis ret cur =>
      RecentEvent.mk id ty anchor rel cqc occ obs r ts cf cl refs (Some g) fr cov cap mis ret cur
  end.

Definition assign_event_group (roots : gmap string string) (e : RecentEvent) : RecentEvent :=
  match RecentEvent.dependency_group e with
  | Some _ => e
  | None =>
      let root :=
        match find_map (λ r, roots !! r) (RecentEvent.evidence_refs e) with
        | Some root => Some root
        | None => head (RecentEvent.evidence_refs e)
        end in
      match root with
      | Some root => set_dependency_group e ("group:" +:+ root)
      | None => e
      end
  end.

Definition assign_dependency_group (keys : list string) (events : list RecentEvent)
    (deps : list (string * string)) : option (list RecentEvent) :=
  let? roots := dependency_roots keys deps in
  Some (assign_event_group roots <$> events).

(** ** Retraction *)

Definition is_legal_retraction (r : Retraction) : bool :=
  match Retraction.truth_status r with
  | TruthStatus.Superseded | TruthStatus.Erroneous => true
  | _ => false
  end.

Definition retract_event (r : Retraction) (e : RecentEvent) : RecentEvent :=
  match e with
  | RecentEvent.mk id ty anchor rel cqc occ obs rl _ cf cl refs dg fr cov cap mis _ cur =>
      RecentEvent.mk id ty anchor rel cqc occ obs rl (Retraction.truth_status r) cf cl refs dg
        fr cov cap mis (Some r) cur
  end.

(** [iter_mut().find(..)] and the assignment to what it found. *)
Fixpoint update_first {A} (p : A → bool) (f : A → A) (l : list A) : list A :=
  match l with
  | [] => []
  | x :: l => if p x then f x :: l else x :: update_first p f l
  end.

Definition targets (r : Retraction) (e : RecentEvent) : bool :=
  bool_decide (RecentEvent.event_id e = Retraction.target_event_id r).

Definition retraction_step (out : list RecentEvent) (r : Retraction) : list RecentEvent :=
  if negb (is_legal_retraction r) then out
  else update_first (targets r) (retract_event r) out.

Definition apply_retraction (events : list RecentEvent) (retractions : list Retraction)
    : list RecentEvent :=
  foldl retraction_step events retractions.

(** ** Coverage and lookup *)

Definition coverage_is (c : Coverage) (e : RecentEvent) : bool :=
  bool_decide (RecentEvent.coverage e = c).

Definition coverage_status (events : list RecentEvent) : Coverage :=
  match events with
  | [] => Coverage.Unavailable
  | _ =>
      if forallb (coverage_is Coverage.Full) events then Coverage.Full else
      if forallb (coverage_is Coverage.OnDemand) events then Coverage.OnDemand else
      if forallb (coverage_is Coverage.Unavailable) events then Coverage.Unavailable
      else Coverage.Degraded
  end.

Definition should_trigger_lookup (lifecycle : TokenLifecycle)
    (trigger : option ActivationTrigger) : bool :=
  match trigger with
  | None => false
  | Some trigger =>
      match lifecycle with
      | TokenLifecycle.Dormant | TokenLifecycle.Archived | TokenLifecycle.Tombstoned =>
          match trigger with
          | ActivationTrigger.RevivalWake | ActivationTrigger.OperatorRequest => true
          | _ => false
          end
      | TokenLifecycle.Created | TokenLifecycle.PreGraduation | TokenLifecycle.Migrated
      | TokenLifecycle.FirstLiquidity | TokenLifecycle.Active | TokenLifecycle.Cooling => true
      end
  end.

(** The closure [push] over [terms]. *)
Definition push_term (terms : list string) (t : string) : list string :=
  let t := trim t in
  if negb (bool_decide (t = "")) && negb (contains t terms) then terms ++ [t] else terms.

Definition push_opt (terms : list string) (o : option string) : list string :=
  match o with Some t => push_term terms t | None => terms end.

Definition build_lookup_query (actor : ActorExtraction) : list string :=
  let terms := push_term [] (ActorExtraction.token actor) in
  let terms := push_opt terms (ActorExtraction.deployer actor) in
  let terms := push_opt terms (ActorExtraction.authority actor) in
  let terms := push_opt terms (ActorExtraction.fee_payer actor) in
  let terms := push_opt terms (ActorExtraction.factory actor) in
  let terms := push_opt terms (ActorExtraction.initial_funder actor) in
  let terms := foldl push_term terms (ActorExtraction.authority_changes actor) in
  foldl push_term terms (ActorExtraction.social_identities actor).

Definition classify_social (obs : SocialEvidenceObservation) (anchor_contract : string)
    (official_binding : option OfficialSocialBinding) : RecentRelation :=
  match SocialEvidenceObservation.relation_kind obs with
  | SocialEvidenceKind.ProfileCaChange | SocialEvidenceKind.ProfileLinkChange =>
      RecentRelation.ReusedSocialLink
  | SocialEvidenceKind.OfficialCaAnnouncement =>
      let ca_matches :=
        match SocialEvidenceObservation.announced_contract obs with
        | Some ca => bool_decide (ca = anchor_contract)
        | None => false
        end in
      let binding_valid :=
        match official_binding with
        | None => false
        | Some b =>
            bool_decide (OfficialSocialBinding.immutable_account_id b =
                         SocialEvidenceObservation.immutable_account_id obs)
            && bool_decide (OfficialSocialBinding.chain_qualified_contract b = anchor_contract)
            && (OfficialSocialBinding.valid_from b <=? SocialEvidenceObservation.published_at obs)%Z
            && match OfficialSocialBinding.valid_until b with
               | Some u => (SocialEvidenceObservation.published_at obs <=? u)%Z
               | None => true
               end
        end in
      let has_evidence := negb (blank (SocialEvidenceObservation.raw_ref obs)) in
      if ca_matches && binding_valid && has_evidence
      then RecentRelation.OfficialCaAnnouncement else RecentRelation.SameSocialAccount
  | SocialEvidenceKind.Mention => RecentRelation.SameSocialAccount
  end.

(** ** Lemmas on dependency roots *)
Section roots.
Context (parent : gmap string string).

(** The walk from [r] through its ancestors [l] to the root [x]. *)
Inductive chain : string → list string → string → Prop :=
  | chain_nil r : parent !! r = None → chain r [] r
  | chain_cons r u l x : parent !! r = Some u → chain u l x → chain r (r :: l) x.

Lemma chain_det r l x : chain r l x → ∀ l' x', chain r l' x' → l = l' ∧ x = x'.
Proof.
  induction 1 as [r Hr|r u l x Hr _ IH]; intros l' x'; inversion 1; simplify_eq; [done|].
  by edestruct IH as [-> ->].
Qed.

Lemma chain_keys r l x : chain r l x → ∀ y, y ∈ l → is_Some (parent !! y) ∧ ∃ l', chain y l' x ∧ length l' <= length l.
Proof.
  induction 1 as [r Hr|r u l x Hr Hc IH]; intros y; [set_solver|].
  intros [->|Hy]%elem_of_cons.
  - split; [by eexists|]. exists (r :: l). split; [by econstructor|done].
  - destruct (IH y Hy) as (? & l' & ? & ?). split; [done|]. exists l'. simpl. split; [done|lia].
Qed.

Lemma chain_NoDup r l x : chain r l x → NoDup l.
Proof.
  induction 1 as [r Hr|r u l x Hr Hc IH]; constructor; [|done].
  intros Hin. destruct (chain_keys _ _ _ Hc _ Hin) as (_ & l' & Hl' & Hlen).
  destruct (chain_det _ _ _ Hl' (r :: l) x) as [-> _]; [by econstructor|]. simpl in Hlen. lia.
Qed.

Lemma chain_length r l x : chain r l x → length l <= size parent.
Proof.
  intros Hc. rewrite <-size_dom, <-(size_list_to_set (C := gset string)) by by eapply chain_NoDup.
  apply subseteq_size. intros y Hy%elem_of_list_to_set. apply elem_of_dom.
  by eapply chain_keys in Hy as [? _].
Qed.

(** No cycle: every step to a parent goes down some measure. *)
Definition acyclic : Prop :=
  ∃ h : string → nat, ∀ d u, parent !! d = Some u → h u < h d.

Lemma acyclic_chain r : acyclic → ∃ l x, chain r l x.
Proof.
  intros [h Hh]. remember (h r) as n eqn:E. revert r E.
  induction (lt_wf n) as [n _ IH]; intros r ->.
  destruct (parent !! r) as [u|] eqn:Hr; [|exists [], r; by constructor].
  destruct (IH (h u) (Hh _ _ Hr) u eq_refl) as (l & x & ?). exists (r :: l), x. by econstructor.
Qed.

(** A ref some dependency names. *)
Definition known (r : string) : Prop :=
  is_Some (parent !! r) ∨ ∃ d, parent !! d = Some r.

Definition roots_ok (roots : gmap string string) : Prop :=
  ∀ r x, roots !! r = Some x → known r ∧ ∃ l, chain r l x.

Lemma roots_ok_empty : roots_ok ∅.
Proof. intros r x Hr. by rewrite lookup_empty in Hr. Qed.

Lemma roots_ok_insert roots r l x :
  roots_ok roots → known r → chain r l x → roots_ok (<[r:=x]> roots).
Proof.
  intros Hok Hk Hc y z. destruct (decide (y = r)) as [->|Hne].
  - rewrite lookup_insert_eq. intros [= <-]. eauto.
  - rewrite lookup_insert_ne by done. apply Hok.
Qed.

(** Partial correctness: what [find_root] returns is the walk's root. *)
Lemma find_root_sound fuel r roots x roots' :
  find_root fuel r parent roots = Some (x, roots') → known r → roots_ok roots →
  roots_ok roots' ∧ roots' !! r = Some x ∧
  (∀ y, is_Some (roots !! y) → is_Some (roots' !! y)).
Proof.
  revert r roots x roots'. induction fuel as [|fuel IH]; intros r roots x roots'; simpl; [done|].
  intros Hf Hk Hok. destruct (roots !! r) as [c|] eqn:Ec; [by simplify_eq|].
  assert (∃ out l, roots' = <[r:=x]> out ∧ roots_ok out ∧ chain r l x ∧
    (∀ y, is_Some (roots !! y) → is_Some (out !! y))) as (out & l & -> & Hout & Hc & Hm).
  { destruct (parent !! r) as [u|] eqn:Hr.
    - destruct (find_root fuel u parent roots) as [[x' out]|] eqn:E; simplify_eq.
      destruct (IH _ _ _ _ E) as (Hout & Hu & Hm); [by right; eexists|done|].
      destruct (Hout u x Hu) as [_ [l Hl]]. exists out, (r :: l).
      split_and!; try done. by econstructor.
    - simplify_eq. exists roots, []. split_and!; try done. by constructor. }
  split; [by eapply roots_ok_insert|]. rewrite lookup_insert_eq. split; [done|].
  intros y Hy. destruct (decide (y = r)) as [->|]; [by rewrite lookup_insert_eq|].
  rewrite lookup_insert_ne by done. auto.
Qed.

(** Enough fuel: one more than the length of the walk. *)
Lemma find_root_total fuel r l x roots :
  chain r l x → length l < fuel → is_Some (find_root fuel r parent roots).
Proof.
  intros Hc. revert fuel. induction Hc as [r Hr|r u l x Hr Hc IH];
    intros [|fuel] Hl; simpl in *; try lia; (destruct (roots !! r); [done|]); rewrite Hr; [done|].
  destruct (IH fuel ltac:(lia)) as [[] ->]. done.
Qed.

Lemma find_roots_sound fuel keys roots roots' :
  find_roots fuel keys parent roots = Some roots' →
  (∀ y, y ∈ keys → known y) → roots_ok roots →
  roots_ok roots' ∧ ∀ y, is_Some (roots !! y) ∨ y ∈ keys → is_Some (roots' !! y).
Proof.
  revert roots. induction keys as [|r keys IH]; intros roots Hf Hk Hok; simpl in Hf.
  { simplify_eq. split; [done|]. intros y [?|?%not_elem_of_nil]; done. }
  destruct (find_root fuel r parent roots) as [[x out]|] eqn:E; [|done].
  destruct (find_root_sound _ _ _ _ _ E) as (Hout & Hr & Hm); [apply Hk; left|done|].
  destruct (IH out Hf) as [? Hi]; [intros y ?; apply Hk; by right|done|].
  split; [done|]. intros y [?|[->|?]%elem_of_cons]; apply Hi; auto.
Qed.

Lemma find_roots_total keys roots :
  (∀ y, y ∈ keys → ∃ l x, chain y l x) →
  is_Some (find_roots (S (size parent)) keys parent roots).
Proof.
  revert roots. induction keys as [|r keys IH]; intros roots Hk; [done|].
  destruct (Hk r ltac:(left)) as (l & x & Hc). pose proof (chain_length _ _ _ Hc).
  destruct (find_root_total (S (size parent)) r l x roots Hc ltac:(lia)) as [[x' out] E].
  cbn [find_roots]. rewrite E. apply IH. intros y ?. apply Hk. by right.
Qed.

(** More fuel does not change a result. *)
Lemma find_root_None_cycle fuel r roots :
  find_root fuel r parent roots = None → size parent < fuel → ¬ ∃ l x, chain r l x.
Proof.
  intros Hf Hs (l & x & Hc). pose proof (chain_length _ _ _ Hc).
  destruct (find_root_total fuel r l x roots Hc ltac:(lia)) as [? E]. congruence.
Qed.
End roots.

Lemma parent_map_snoc deps u d :
  parent_map (deps ++ [(u, d)]) = <[d := u]> (parent_map deps).
Proof. unfold parent_map. by rewrite foldl_app. Qed.

Lemma parent_map_key deps d :
  is_Some (parent_map deps !! d) ↔ ∃ u, (u, d) ∈ deps.
Proof.
  induction deps as [|[u' d'] deps IH] using rev_ind; [unfold parent_map; simpl; rewrite lookup_empty; split; [by intros []|set_solver]|].
  rewrite parent_map_snoc. destruct (decide (d = d')) as [->|Hne].
  - rewrite lookup_insert_eq. split; [|done]. intros _. exists u'. set_solver.
  - rewrite lookup_insert_ne by done. rewrite IH. setoid_rewrite elem_of_app. set_solver.
Qed.

Lemma parent_map_value deps d u : parent_map deps !! d = Some u → (u, d) ∈ deps.
Proof.
  induction deps as [|[u' d'] deps IH] using rev_ind; [done|].
  rewrite parent_map_snoc, elem_of_app. destruct (decide (d = d')) as [->|Hne].
  - rewrite lookup_insert_eq. intros [= ->]. set_solver.
  - rewrite lookup_insert_ne by done. auto.
Qed.

Lemma or_insert_lookup deps roots r x :
  foldl or_insert_self roots deps !! r = Some x ↔
  roots !! r = Some x ∨ (roots !! r = None ∧ x = r ∧ ∃ d, (r, d) ∈ deps).
Proof.
  revert roots. induction deps as [|[u d] deps IH]; intros roots; simpl.
  { split; [auto|]. intros [?|(_&_&?&?%not_elem_of_nil)]; done. }
  rewrite IH. unfold or_insert_self. simpl.
  destruct (roots !! u) as [c|] eqn:E.
  - split; [set_solver|]. intros [?|(?&?&?&[?|?]%elem_of_cons)]; simplify_eq; eauto 6.
  - destruct (decide (r = u)) as [->|Hne].
    + rewrite lookup_insert_eq, E. split; [|naive_solver].
      intros [?|(?&_)]; simplify_eq. right. set_solver.
    + rewrite lookup_insert_ne by done. set_solver.
Qed.

(** ** Lemmas on retraction *)

Lemma update_first_length {A} (p : A → bool) f l : length (update_first p f l) = length l.
Proof. induction l as [|x l IH]; simpl; [done|]. destruct (p x); simpl; lia. Qed.

(** The first index [p] holds at, updated; every other index unchanged. *)
Lemma update_first_lookup {A} (p : A → bool) f l i x :
  l !! i = Some x →
  update_first p f l !! i =
    Some (if p x && forallb (λ y, negb (p y)) (take i l) then f x else x).
Proof.
  revert i. induction l as [|y l IH]; intros [|i] Hi; simplify_eq/=.
  - rewrite andb_true_r. by destruct (p x).
  - destruct (p y) eqn:E; simpl; [by rewrite andb_false_r|]. by apply IH.
Qed.

Lemma retract_event_id r e : RecentEvent.event_id (retract_event r e) = RecentEvent.event_id e.
Proof. by destruct e. Qed.

Lemma retract_event_twice r1 r2 e : retract_event r2 (retract_event r1 e) = retract_event r2 e.
Proof. by destruct e. Qed.

Lemma update_first_ids r l :
  RecentEvent.event_id <$> update_first (targets r) (retract_event r) l =
  RecentEvent.event_id <$> l.
Proof.
  induction l as [|e l IH]; [done|]. cbn [update_first].
  destruct (targets r e); csimpl; [by rewrite retract_event_id|by rewrite IH].
Qed.

Lemma apply_retraction_ids events rs :
  RecentEvent.event_id <$> apply_retraction events rs = RecentEvent.event_id <$> events.
Proof.
  unfold apply_retraction. revert events. induction rs as [|r rs IH]; intros l; simpl; [done|].
  rewrite IH. unfold retraction_step. destruct (negb _); [done|]. apply update_first_ids.
Qed.

(** The retraction that decides an id: the last legal one that names it. *)
Definition deciding_retraction (rs : list Retraction) (id : string) : option Retraction :=
  last (List.filter (λ r, is_legal_retraction r
                          && bool_decide (Retraction.target_event_id r = id)) rs).

Lemma forallb_ids r l1 l2 :
  RecentEvent.event_id <$> l1 = RecentEvent.event_id <$> l2 →
  forallb (λ y, negb (targets r y)) l1 = forallb (λ y, negb (targets r y)) l2.
Proof.
  revert l2. induction l1 as [|a l1 IH]; intros [|b l2] H; simplify_eq/=; [done|].
  unfold targets at 1 3. rewrite H. f_equal. by apply IH.
Qed.

Lemma first_id_forallb (events : list RecentEvent) i id r :
  Retraction.target_event_id r = id →
  forallb (λ y, negb (targets r y)) (take i events) = true ↔
  ∀ j e, j < i → events !! j = Some e → RecentEvent.event_id e ≠ id.
Proof.
  intros <-. rewrite forallb_forall_elem. unfold targets. setoid_rewrite negb_true_iff.
  setoid_rewrite bool_decide_eq_false. split.
  - intros H j e Hj He. apply H. apply list_elem_of_lookup. exists j.
    by rewrite lookup_take_lt.
  - intros H e [j Hj]%list_elem_of_lookup. apply lookup_take_Some in Hj as [??]. eauto.
Qed.

(** What index [i] of the output holds. *)
Definition retracted_entry (events : list RecentEvent) (rs : list Retraction) (i : nat)
    (e : RecentEvent) : RecentEvent :=
  if forallb (λ y, negb (bool_decide (RecentEvent.event_id y = RecentEvent.event_id e)))
       (take i events)
  then match deciding_retraction rs (RecentEvent.event_id e) with
       | Some r => retract_event r e
       | None => e
       end
  else e.

Lemma deciding_retraction_snoc rs r id :
  deciding_retraction (rs ++ [r]) id =
  if is_legal_retraction r && bool_decide (Retraction.target_event_id r = id)
  then Some r else deciding_retraction rs id.
Proof.
  unfold deciding_retraction. rewrite List.filter_app. simpl.
  destruct (is_legal_retraction r && _); [by rewrite last_snoc|by rewrite app_nil_r].
Qed.

Lemma retracted_entry_id events rs i e :
  RecentEvent.event_id (retracted_entry events rs i e) = RecentEvent.event_id e.
Proof.
  unfold retracted_entry. destruct (forallb _ _); [|done].
  destruct (deciding_retraction _ _); [apply retract_event_id|done].
Qed.

Lemma forallb_ids_of events rs i r e :
  Retraction.target_event_id r = RecentEvent.event_id e →
  forallb (λ y, negb (targets r y)) (take i (apply_retraction events rs)) =
  forallb (λ y, negb (bool_decide (RecentEvent.event_id y = RecentEvent.event_id e)))
    (take i events).
Proof.
  intros Ht. rewrite (forallb_ids r _ (take i events)).
  - unfold targets. by rewrite Ht.
  - by rewrite !fmap_take, apply_retraction_ids.
Qed.

Lemma apply_retraction_entry events rs i e :
  events !! i = Some e →
  apply_retraction events rs !! i = Some (retracted_entry events rs i e).
Proof.
  intros He. induction rs as [|r rs IH] using rev_ind.
  { unfold retracted_entry, deciding_retraction. simpl. rewrite He. by destruct (forallb _ _). }
  unfold apply_retraction. rewrite foldl_app. fold (apply_retraction events rs). simpl.
  unfold retraction_step, retracted_entry. rewrite deciding_retraction_snoc.
  destruct (is_legal_retraction r) eqn:El; simpl; [|exact IH].
  erewrite update_first_lookup by exact IH. unfold targets at 1. rewrite retracted_entry_id.
  case_bool_decide as Et.
  - rewrite bool_decide_true by done. simpl. rewrite (forallb_ids_of _ _ _ _ e) by done.
    unfold retracted_entry. destruct (forallb _ _); [|done].
    destruct (deciding_retraction _ _); [by rewrite retract_event_twice|done].
  - rewrite bool_decide_false by done. simpl. done.
Qed.

(** ** Theorems *)

(** Claim C12: Dependency resolution returns exactly on acyclic dependencies,
    whatever the hash map's iteration order, and then maps every ref a pair
    names to its transitive root.  [keys] is any enumeration of the map's
    keys, [chain] the walk from a ref through its upstreams. *)
Theorem dependency_roots_correct deps keys :
  (∀ y, y ∈ keys ↔ is_Some (parent_map deps !! y)) →
  (is_Some (dependency_roots keys deps) ↔
     ∀ y, y ∈ keys → ∃ l x, chain (parent_map deps) y l x) ∧
  ∀ roots, dependency_roots keys deps = Some roots → ∀ r x,
    roots !! r = Some x ↔
    (∃ u d, (u, d) ∈ deps ∧ (r = u ∨ r = d)) ∧ ∃ l, chain (parent_map deps) r l x.
Proof.
  intros Hkeys. unfold dependency_roots.
  assert (∀ y, y ∈ keys → known (parent_map deps) y) as Hknown by (intros y ?%Hkeys; by left).
  assert (∀ out, find_roots (S (size (parent_map deps))) keys (parent_map deps) ∅ = Some out →
    roots_ok (parent_map deps) out ∧ ∀ y, y ∈ keys → is_Some (out !! y)) as Hsound.
  { intros out Hout. destruct (find_roots_sound _ _ _ _ _ Hout Hknown) as [? H]; [apply roots_ok_empty|].
    eauto. }
  split.
  - split.
    + intros [roots Hr] y Hy.
      destruct (find_roots _ _ _ _) as [out|]; [|done].
      destruct (Hsound out eq_refl) as [Hok [x Hx]%(λ f, f y Hy)].
      destruct (Hok y x Hx) as [_ [l ?]]. eauto.
    + intros Hc. by destruct (find_roots_total _ _ ∅ Hc) as [out ->].
  - intros roots Hr r x. destruct (find_roots _ _ _ _) as [out|]; [|done].
    destruct (Hsound out eq_refl) as [Hok Hdef]. injection Hr as <-.
    rewrite or_insert_lookup. split.
    + intros [Hx|(Hn & -> & d & Hd)].
      * destruct (Hok r x Hx) as [[Hk|[d Hk]] Hc].
        -- apply parent_map_key in Hk as [u ?]. split; [by exists u, r; auto|done].
        -- apply parent_map_value in Hk. split; [by exists r, d; auto|done].
      * split; [by exists r, d; auto|]. exists []. constructor.
        destruct (parent_map deps !! r) eqn:E; [|done].
        destruct (Hdef r) as [? ?]; [by apply Hkeys|congruence].
    + intros [(u & d & Hin & Hr) [l Hc]]. destruct (out !! r) as [x'|] eqn:E.
      * left. destruct (Hok r x' E) as [_ [l' Hc']].
        by destruct (chain_det _ _ _ _ Hc _ _ Hc') as [_ ->].
      * right. split; [done|].
        assert (parent_map deps !! r = None) as Hnp.
        { destruct (parent_map deps !! r) eqn:Ep; [|done].
          destruct (Hdef r) as [? ?]; [by apply Hkeys|congruence]. }
        destruct Hr as [->| ->].
        -- inversion Hc; simplify_eq. eauto.
        -- assert (is_Some (parent_map deps !! d)) as [??] by (apply parent_map_key; eauto).
           congruence.
Qed.

Lemma dependency_roots_correct_witness :
  is_Some (dependency_roots ["d2"; "d"] [("u", "d"); ("d", "d2")]).
Proof.
  assert (∀ y, y ∈ ["d2"; "d"] ↔ is_Some (parent_map [("u", "d"); ("d", "d2")] !! y)) as Hk.
  { intros y. rewrite parent_map_key. split.
    - intros [->|[->|[]%not_elem_of_nil]%elem_of_cons]%elem_of_cons;
        [exists "d"|exists "u"]; set_solver.
    - set_solver. }
  apply (proj1 (dependency_roots_correct _ _ Hk)).
  assert (chain (parent_map [("u", "d"); ("d", "d2")]) "d" ["d"] "u") as Hd.
  { by eapply chain_cons; [|constructor]. }
  intros y [->|[->|[]%not_elem_of_nil]%elem_of_cons]%elem_of_cons; [|eauto].
  exists ["d2"; "d"], "u". by eapply chain_cons.
Defined.

(** A dependency cycle makes the resolution recurse for ever.  When
    a key's walk through its upstreams reaches no root, no number of recursive
    calls is enough: [find_root] has no guard against the cycle. *)
Theorem dependency_cycle_diverges deps keys r fuel :
  r ∈ keys → (∀ y, y ∈ keys → is_Some (parent_map deps !! y)) →
  (∀ l x, ¬ chain (parent_map deps) r l x) →
  find_roots fuel keys (parent_map deps) ∅ = None.
Proof.
  intros Hr Hkeys Hc. destruct (find_roots _ _ _ _) as [out|] eqn:E; [|done]. exfalso.
  destruct (find_roots_sound _ _ _ _ _ E) as [Hok H].
  - intros y ?%Hkeys. by left.
  - apply roots_ok_empty.
  - destruct (H r) as [x Hx]; [by right|]. destruct (Hok r x Hx) as [_ [l ?]]. by eapply Hc.
Qed.

Lemma dependency_cycle_diverges_witness :
  find_roots 1000 ["a"; "b"] (parent_map [("a", "b"); ("b", "a")]) ∅ = None.
Proof.
  apply (dependency_cycle_diverges _ _ "a"); [left| |].
  - intros y [->|[->|[]%not_elem_of_nil]%elem_of_cons]%elem_of_cons; by eexists.
  - intros l x Hc. assert (∀ y, chain (parent_map [("a", "b"); ("b", "a")]) y l x →
      y = "a" ∨ y = "b" → False) as H; [|by eapply H; eauto]. clear Hc.
    induction l as [|z l IH]; intros y Hc Hy; inversion Hc as [? Hn|? u ? ? Hu Hl]; subst.
    + by destruct Hy as [->| ->].
    + apply (IH u Hl). destruct Hy as [->| ->]; vm_compute in Hu; injection Hu as <-; auto.
Defined.

(** Retraction is archive-not-delete.  Applying retractions keeps
    every event, its id and its position; the event at a position changes only
    when it is the first with its id and some legal (superseding or erroneous)
    retraction names that id, and then it carries the status of the last one;
    illegal and dangling retractions change nothing. *)
Theorem apply_retraction_spec events rs :
  RecentEvent.event_id <$> apply_retraction events rs = RecentEvent.event_id <$> events ∧
  ∀ i e, events !! i = Some e →
    ((∀ j e', j < i → events !! j = Some e' → RecentEvent.event_id e' ≠ RecentEvent.event_id e) →
     apply_retraction events rs !! i = Some
       match deciding_retraction rs (RecentEvent.event_id e) with
       | Some r => retract_event r e
       | None => e
       end) ∧
    (∀ j e', j < i → events !! j = Some e' → RecentEvent.event_id e' = RecentEvent.event_id e →
     apply_retraction events rs !! i = Some e).
Proof.
  split; [apply apply_retraction_ids|]. intros i e He.
  rewrite (apply_retraction_entry _ _ _ _ He). unfold retracted_entry. split.
  - intros Hfirst.
    rewrite (proj2 (forallb_forall_elem _ _)); [done|]. intros y [j Hj]%list_elem_of_lookup.
    apply lookup_take_Some in Hj as [Hj Hlt]. apply negb_true_iff, bool_decide_eq_false. eauto.
  - intros j e' Hlt He' Hid. destruct (forallb _ _) eqn:Ef; [|done]. exfalso.
    rewrite forallb_forall_elem in Ef. specialize (Ef e').
    rewrite bool_decide_true in Ef by done. discriminate Ef.
    apply list_elem_of_lookup. exists j. by rewrite lookup_take_lt.
Qed.

Definition sample_event (id anchor : string) (occ obs : instant) (cov : Coverage) : RecentEvent :=
  RecentEvent.mk id "transfer" anchor [] anchor occ obs None TruthStatus.Confirmed None
    RecentConfidence.Estimated ["ev"] None None cov CapabilityStatus.Available [] None false.

Lemma apply_retraction_spec_witness :
  apply_retraction [sample_event "e1" "a" 1%Z 1%Z Coverage.Full]
    [Retraction.mk "e1" 5%Z TruthStatus.Superseded; Retraction.mk "e1" 6%Z TruthStatus.Disputed] !! 0 =
  Some (retract_event (Retraction.mk "e1" 5%Z TruthStatus.Superseded)
          (sample_event "e1" "a" 1%Z 1%Z Coverage.Full)).
Proof.
  apply (proj1 (proj2 (apply_retraction_spec [sample_event "e1" "a" 1%Z 1%Z Coverage.Full]
    [Retraction.mk "e1" 5%Z TruthStatus.Superseded; Retraction.mk "e1" 6%Z TruthStatus.Disputed])
    0 _ eq_refl)). intros j e' Hj. lia.
Defined.

(** A timeline is the anchored events in chronological order:
    exactly the events of the anchor, each as often as it occurs, sorted by
    occurrence then observation time, events with equal times in input order. *)
Theorem build_timeline_chronological anchor events :
  RecentTimeline.events (build_timeline anchor events) ≡ₚ
    List.filter (λ e, bool_decide (RecentEvent.anchor_identity e = anchor)) events ∧
  StronglySorted (λ a b,
    (RecentEvent.occurred_at a < RecentEvent.occurred_at b)%Z ∨
    (RecentEvent.occurred_at a = RecentEvent.occurred_at b ∧
     (RecentEvent.observed_at a <= RecentEvent.observed_at b)%Z))
    (RecentTimeline.events (build_timeline anchor events)) ∧
  ∀ t o, List.filter (λ e, bool_decide (RecentEvent.occurred_at e = t)
                           && bool_decide (RecentEvent.observed_at e = o))
           (RecentTimeline.events (build_timeline anchor events)) =
         List.filter (λ e, bool_decide (RecentEvent.occurred_at e = t)
                           && bool_decide (RecentEvent.observed_at e = o))
           (List.filter (λ e, bool_decide (RecentEvent.anchor_identity e = anchor)) events).
Proof.
  unfold build_timeline; simpl. split; [apply stable_sort_perm|]. split.
  - eapply StronglySorted_weaken; [|apply stable_sort_sorted].
    + intros a b. apply event_leb_spec.
    + apply event_leb_total.
    + apply event_leb_trans.
  - intros t o. apply stable_sort_filter. intros a b Ha Hb. bool_prop.
    apply event_leb_spec. lia.
Qed.

(** Aggregate coverage never overstates.  It is [Full] exactly when
    there are events and all are full, [Unavailable] exactly when there are
    none or all are unavailable, [OnDemand] exactly when there are events and
    all are on demand, and [Degraded] in every other case; the order of the
    events does not matter. *)
Theorem coverage_status_spec events :
  (coverage_status events = Coverage.Full ↔
     events ≠ [] ∧ ∀ e, e ∈ events → RecentEvent.coverage e = Coverage.Full) ∧
  (coverage_status events = Coverage.OnDemand ↔
     events ≠ [] ∧ ∀ e, e ∈ events → RecentEvent.coverage e = Coverage.OnDemand) ∧
  (coverage_status events = Coverage.Unavailable ↔
     ∀ e, e ∈ events → RecentEvent.coverage e = Coverage.Unavailable).
Proof.
  destruct events as [|e0 l]; [split_and!; split; try done; [by intros [? _]..|set_solver]|].
  assert (∀ c, forallb (coverage_is c) (e0 :: l) = true ↔
    ∀ e, e ∈ e0 :: l → RecentEvent.coverage e = c) as Hall.
  { intros c. rewrite forallb_forall_elem. unfold coverage_is. by setoid_rewrite bool_decide_eq_true. }
  rewrite <-!Hall. unfold coverage_status.
  assert (∀ c c', forallb (coverage_is c) (e0 :: l) = true →
    forallb (coverage_is c') (e0 :: l) = true → c = c') as Hex.
  { intros c c' H1 H2. rewrite Hall in H1. rewrite Hall in H2.
    rewrite <-(H1 e0), <-(H2 e0); [done|left|left]. }
  destruct (forallb (coverage_is Coverage.Full) _) eqn:E1;
  destruct (forallb (coverage_is Coverage.OnDemand) _) eqn:E2;
  destruct (forallb (coverage_is Coverage.Unavailable) _) eqn:E3;
    split_and!; split; intros; destruct_and?; try done;
    first [by specialize (Hex _ _ E1 E2)|by specialize (Hex _ _ E1 E3)|by specialize (Hex _ _ E2 E3)].
Qed.

Lemma push_term_inv terms t :
  NoDup terms → Forall (λ s, trim s = s ∧ s ≠ "") terms →
  NoDup (push_term terms t) ∧ Forall (λ s, trim s = s ∧ s ≠ "") (push_term terms t) ∧
  ∀ x, x ∈ push_term terms t ↔ x ∈ terms ∨ (x = trim t ∧ x ≠ "").
Proof.
  intros Hnd Hall. unfold push_term, contains.
  case_bool_decide as E1; simpl; [rewrite E1; naive_solver|].
  case_bool_decide as E2; simpl;
    [split_and!; [done|done|]; intros x; split; [auto|]; by intros [?|[-> _]]|]. split_and!.
  - apply NoDup_app. split_and!; [done| |apply NoDup_singleton].
    intros x Hx ->%list_elem_of_singleton. done.
  - apply Forall_app. split; [done|]. constructor; [|done]. split; [apply trim_idem|done].
  - set_solver.
Qed.

Definition query_ok (terms : list string) : Prop :=
  NoDup terms ∧ Forall (λ s, trim s = s ∧ s ≠ "") terms.

Lemma push_opt_list terms o : push_opt terms o = foldl push_term terms (option_list o).
Proof. by destruct o. Qed.

Lemma push_list_inv terms l :
  query_ok terms → query_ok (foldl push_term terms l) ∧
  ∀ x, x ∈ foldl push_term terms l ↔ x ∈ terms ∨ (∃ t, t ∈ l ∧ x = trim t ∧ x ≠ "").
Proof.
  revert terms. induction l as [|t l IH]; intros terms [Hn Hf]; simpl.
  { split; [done|]. intros x. split; [auto|]. intros [?|(t & []%not_elem_of_nil & _)]. done. }
  destruct (push_term_inv terms t Hn Hf) as (?&?&Hx).
  destruct (IH (push_term terms t)) as [? Hy]; [done|]. split; [done|].
  intros x. rewrite Hy, Hx. setoid_rewrite elem_of_cons. naive_solver.
Qed.

(** The raw values a lookup is built from. *)
Definition lookup_sources (a : ActorExtraction) : list string :=
  [ActorExtraction.token a] ++
  option_list (ActorExtraction.deployer a) ++ option_list (ActorExtraction.authority a) ++
  option_list (ActorExtraction.fee_payer a) ++ option_list (ActorExtraction.factory a) ++
  option_list (ActorExtraction.initial_funder a) ++
  ActorExtraction.authority_changes a ++ ActorExtraction.social_identities a.

Lemma build_lookup_query_fold a :
  build_lookup_query a = foldl push_term [] (lookup_sources a).
Proof.
  unfold build_lookup_query, lookup_sources. rewrite !push_opt_list.
  by rewrite !foldl_app.
Qed.

(** A lookup query is the set of trimmed actor values: no duplicate,
    no blank, no surrounding whitespace, and a term is in it exactly when it is
    the trimmed, non-empty form of one of the extraction's values. *)
Theorem build_lookup_query_spec a :
  NoDup (build_lookup_query a) ∧
  Forall (λ s, trim s = s ∧ s ≠ "") (build_lookup_query a) ∧
  ∀ x, x ∈ build_lookup_query a ↔ ∃ v, v ∈ lookup_sources a ∧ x = trim v ∧ x ≠ "".
Proof.
  rewrite build_lookup_query_fold.
  destruct (push_list_inv [] (lookup_sources a)) as [[??] Hx]; [by repeat constructor|].
  split; [done|]. split; [done|]. intros x. rewrite Hx, elem_of_nil. naive_solver.
Qed.

(** An official announcement needs everything at once.  A social
    observation is classified [OfficialCaAnnouncement] exactly when it is an
    announcement of exactly the anchor's contract, by the account the binding
    names for that contract, published inside the binding's validity, with a
    non-blank evidence reference; a mention never is, and without a binding
    nothing is. *)
Theorem classify_social_official obs anchor binding :
  classify_social obs anchor binding = RecentRelation.OfficialCaAnnouncement ↔
  SocialEvidenceObservation.relation_kind obs = SocialEvidenceKind.OfficialCaAnnouncement ∧
  SocialEvidenceObservation.announced_contract obs = Some anchor ∧
  trim (SocialEvidenceObservation.raw_ref obs) ≠ "" ∧
  ∃ b, binding = Some b ∧
    OfficialSocialBinding.immutable_account_id b =
      SocialEvidenceObservation.immutable_account_id obs ∧
    OfficialSocialBinding.chain_qualified_contract b = anchor ∧
    (OfficialSocialBinding.valid_from b <= SocialEvidenceObservation.published_at obs)%Z ∧
    ∀ u, OfficialSocialBinding.valid_until b = Some u →
      (SocialEvidenceObservation.published_at obs <= u)%Z.
Proof.
  unfold classify_social, blank.
  destruct (SocialEvidenceObservation.relation_kind obs); try (split; [done|by intros [? _]]).
  destruct (SocialEvidenceObservation.announced_contract obs) as [ca|]; simpl;
    [|split; [done|by intros (_&?&_)]].
  destruct binding as [b|]; simpl.
  2: { rewrite andb_false_r. simpl. split; [done|]. by intros (_&_&_&?&?&_). }
  split.
  - intros H.
    destruct (_ && _ && _) eqn:E in H; [|done]. bool_prop. subst.
    split_and!; try done. exists b. split_and!; try done; [by apply Z.leb_le|].
    intros u Hu. rewrite Hu in *. by apply Z.leb_le.
  - intros (_ & [= ->] & Hr & ? & [= <-] & Hid & Hc & Hf & Hu).
    rewrite Hid, Hc, !bool_decide_true by done. rewrite (bool_decide_false _ Hr).
    rewrite (proj2 (Z.leb_le _ _) Hf).
    destruct (OfficialSocialBinding.valid_until b) as [u|]; simpl; [|done].
    by rewrite (proj2 (Z.leb_le _ _) (Hu u eq_refl)).
Qed.

(** Lookups are event-driven.  No trigger means no lookup; a dormant,
    archived or tombstoned token is looked up only on a revival wake or an
    operator request; any other lifecycle on any trigger. *)
Theorem should_trigger_lookup_spec lifecycle trigger :
  should_trigger_lookup lifecycle trigger = true ↔
  ∃ t, trigger = Some t ∧
    (lifecycle = TokenLifecycle.Dormant ∨ lifecycle = TokenLifecycle.Archived ∨
     lifecycle = TokenLifecycle.Tombstoned →
     t = ActivationTrigger.RevivalWake ∨ t = ActivationTrigger.OperatorRequest).
Proof.
  destruct trigger as [t|]; simpl; [|naive_solver].
  destruct lifecycle, t; simpl; naive_solver.
Qed.
