(* ===== verification/Store.v ===== *)
(** * The recent-events store (src/src/sf/recent_store.rs)

    The [recent_events] table as an append-only list of rows, the textual enum
    columns and their parsers, the atomic append ([INSERT .. ON CONFLICT
    (workspace_id, event_id) DO NOTHING]), the check for a row an older release
    published, the current relation view and the timeline query.

    PostgreSQL is modelled by what the statements ask of it: the rows in insert
    order with a serial [id], selection by the [WHERE] clause, [ORDER BY] as a
    sort.  A JSON column holds the value that was bound.  The constraints and
    triggers of the migrations are a parameter, [accepts ws row]: a row they
    refuse is an error of the statement. *)
From S2P Require Import Prelude Text Domain Identity Resolver.
From stdpp Require Import options.
Local Open Scope string_scope.
Local Open Scope list_scope.

(** ** Enum columns *)

Definition truth_status_str (s : TruthStatus) : string :=
  match s with
  | TruthStatus.Unknown => "unknown"
  | TruthStatus.Confirmed => "confirmed"
  | TruthStatus.Disputed => "disputed"
  | TruthStatus.Superseded => "superseded"
  | TruthStatus.Erroneous => "erroneous"
  end.

Definition truth_status_from_str (s : string) : TruthStatus :=
  if decide (s = "confirmed") then TruthStatus.Confirmed else
  if decide (s = "disputed") then TruthStatus.Disputed else
  if decide (s = "superseded") then TruthStatus.Superseded else
  if decide (s = "erroneous") then TruthStatus.Erroneous else TruthStatus.Unknown.

Definition confidence_from_str (s : string) : RecentConfidence :=
  if decide (s = "exact") then RecentConfidence.Exact else
  if decide (s = "reconstructed") then RecentConfidence.Reconstructed else
  if decide (s = "estimated") then RecentConfidence.Estimated
  else RecentConfidence.Insufficient.

Definition coverage_str (c : Coverage) : string :=
  match c with
  | Coverage.Full => "full"
  | Coverage.Degraded => "degraded"
  | Coverage.OnDemand => "on_demand"
  | Coverage.Unavailable => "unavailable"
  end.

Definition coverage_from_str (s : string) : Coverage :=
  if decide (s = "full") then Coverage.Full else
  if decide (s = "degraded") then Coverage.Degraded else
  if decide (s = "on_demand") then Coverage.OnDemand else Coverage.Unavailable.

Definition capability_str (c : CapabilityStatus) : string :=
  match c with
  | CapabilityStatus.Available => "available"
  | CapabilityStatus.Insufficient => "insufficient"
  | CapabilityStatus.Unavailable => "unavailable"
  end.

Definition capability_from_str (s : string) : CapabilityStatus :=
  if decide (s = "available") then CapabilityStatus.Available else
  if decide (s = "insufficient") then CapabilityStatus.Insufficient
  else CapabilityStatus.Unavailable.

(** ** Rows *)

Module RecentEventRow.
Record RecentEventRow := mk {
  event_id : string;
  event_type : string;
  anchor_identity : string;
  related_identities : list IdentityKey;
  chain_qualified_contract : string;
  occurred_at : instant;
  observed_at : instant;
  relation : option RecentRelation;
  truth_status : string;
  confidence : option spec_float;
  confidence_level : string;
  evidence_refs : list string;
  dependency_group : option string;
  freshness : option Freshness;
  coverage : string;
  capability_status : string;
  missing_inputs : list string;
  retraction : option Retraction;
  is_current_coverage : bool;
}.
End RecentEventRow.
Abbreviation RecentEventRow := RecentEventRow.RecentEventRow.

Definition into_event (r : RecentEventRow) : option RecentEvent :=
  Some (RecentEvent.mk (RecentEventRow.event_id r) (RecentEventRow.event_type r)
    (RecentEventRow.anchor_identity r) (RecentEventRow.related_identities r)
    (RecentEventRow.chain_qualified_contract r) (RecentEventRow.occurred_at r)
    (RecentEventRow.observed_at r) (RecentEventRow.relation r)
    (truth_status_from_str (RecentEventRow.truth_status r)) (RecentEventRow.confidence r)
    (confidence_from_str (RecentEventRow.confidence_level r)) (RecentEventRow.evidence_refs r)
    (RecentEventRow.dependency_group r) (RecentEventRow.freshness r)
    (coverage_from_str (RecentEventRow.coverage r))
    (capability_from_str (RecentEventRow.capability_status r))
    (RecentEventRow.missing_inputs r) (RecentEventRow.retraction r)
    (RecentEventRow.is_current_coverage r)).

(** The columns bound by the insert; [is_current_coverage] is not a column but
    the flag the reading query computes. *)
Definition bind_row (e : RecentEvent) (current : bool) : RecentEventRow :=
  RecentEventRow.mk (RecentEvent.event_id e) (RecentEvent.event_type e)
    (RecentEvent.anchor_identity e) (RecentEvent.related_identities e)
    (RecentEvent.chain_qualified_contract e) (RecentEvent.occurred_at e)
    (RecentEvent.observed_at e) (RecentEvent.relation e)
    (truth_status_str (RecentEvent.truth_status e)) (RecentEvent.confidence e)
    (RecentConfidence.as_str (RecentEvent.confidence_level e)) (RecentEvent.evidence_refs e)
    (RecentEvent.dependency_group e) (RecentEvent.freshness e)
    (coverage_str (RecentEvent.coverage e)) (capability_str (RecentEvent.capability_status e))
    (RecentEvent.missing_inputs e) (RecentEvent.retraction e) current.

Record db_row := DbRow {
  row_id : nat;
  row_workspace : Z;
  token_identity : string;
  columns : RecentEventRow;
}.
Abbreviation db_event_id r := (RecentEventRow.event_id (columns r)).

(** The table, in insert order. *)
Abbreviation store := (list db_row).

(** ** Append *)

Definition has_event (s : store) (workspace_id : Z) (event_id : string) : bool :=
  existsb (λ r, bool_decide (row_workspace r = workspace_id)
                && bool_decide (db_event_id r = event_id)) s.

Section append.
Context (accepts : Z → RecentEvent → bool).

Definition append_recent_event_on (s : store) (workspace_id : Z) (e : RecentEvent)
    : store * result bool :=
  if negb (bool_decide (RecentEvent.anchor_identity e = RecentEvent.chain_qualified_contract e))
  then (s, RErr "anchor_identity != chain_qualified_contract") else
  if negb (bool_decide (RecentEvent.missing_inputs e = []))
     && bool_decide (RecentEvent.coverage e = Coverage.Full)
  then (s, RErr "coverage=full contradicts missing_inputs") else
  if negb (accepts workspace_id e) then (s, RErr "database error") else
  if has_event s workspace_id (RecentEvent.event_id e) then (s, ROk false)
  else (s ++ [DbRow (length s) workspace_id (RecentEvent.anchor_identity e) (bind_row e false)],
        ROk true).
End append.

(** ** The row an older release published *)

Definition identity_pair (i : IdentityKey) : string * string :=
  (IdentityKind.as_str (IdentityKey.kind i), IdentityKey.value i).

(** Lexicographic order of the pairs. *)
Definition pair_leb (a b : string * string) : bool :=
  match String.compare a.1 b.1 with
  | Lt => true | Gt => false | Eq => String.leb a.2 b.2
  end.

Definition identity_set (e : RecentEvent) : list (string * string) :=
  dedup (stable_sort pair_leb (identity_pair <$> RecentEvent.related_identities e)).

Definition same_published_fact (stored candidate : RecentEvent) : bool :=
  let core :=
    bool_decide (RecentEvent.event_type stored = RecentEvent.event_type candidate)
    && bool_decide (RecentEvent.anchor_identity stored = RecentEvent.anchor_identity candidate)
    && bool_decide (RecentEvent.chain_qualified_contract stored =
                    RecentEvent.chain_qualified_contract candidate)
    && bool_decide (RecentEvent.relation stored = RecentEvent.relation candidate)
    && bool_decide (RecentEvent.confidence_level stored = RecentEvent.confidence_level candidate)
    && bool_decide (identity_set stored = identity_set candidate)
    && bool_decide (canonical_set (RecentEvent.evidence_refs stored) =
                    canonical_set (RecentEvent.evidence_refs candidate)) in
  if negb core then false else
  if decide (RecentEvent.event_type candidate = "coverage_disclosure") then
    bool_decide (RecentEvent.coverage stored = RecentEvent.coverage candidate)
    && bool_decide (canonical_set (RecentEvent.missing_inputs stored) =
                    canonical_set (RecentEvent.missing_inputs candidate))
  else true.

Definition legacy_row_publishes_the_same_fact (s : store) (workspace_id : Z)
    (legacy_keys : list string) (e : RecentEvent) : bool :=
  match legacy_keys with
  | [] => false
  | _ =>
      let rows := List.filter (λ r, bool_decide (row_workspace r = workspace_id)
                                    && contains (db_event_id r) legacy_keys) s in
      existsb (λ stored, same_published_fact stored e) (omap (into_event ∘ columns) rows)
  end.

(** ** Reads *)

(** [ORDER BY occurred_at DESC, id DESC]. *)
Definition newest_first_leb (a b : db_row) : bool :=
  let ta := RecentEventRow.occurred_at (columns a) in
  let tb := RecentEventRow.occurred_at (columns b) in
  match Z.compare tb ta with
  | Lt => true | Gt => false | Eq => (row_id b <=? row_id a)%nat
  end.

Definition is_disclosure (r : db_row) : bool :=
  bool_decide (RecentEventRow.event_type (columns r) = "coverage_disclosure").

(** A retraction row that counts against event [e]. *)
Definition retracts (e r : db_row) : bool :=
  bool_decide (row_workspace r = row_workspace e)
  && match RecentEventRow.retraction (columns r) with
     | None => false
     | Some x =>
         bool_decide (token_identity r = token_identity e)
         && negb (bool_decide (Retraction.target_event_id x = ""))
         && bool_decide (Retraction.target_event_id x = db_event_id e)
         && contains (truth_status_str (Retraction.truth_status x)) ["superseded"; "erroneous"]
         && bool_decide (RecentEventRow.truth_status (columns r) = "confirmed")
     end.

(** The rows of the [fetch_relations] query. *)
Definition relation_rows (s : store) (workspace_id : Z) (token : string) : list db_row :=
  stable_sort newest_first_leb
    (List.filter (λ e,
       bool_decide (row_workspace e = workspace_id)
       && bool_decide (token_identity e = token)
       && bool_decide (is_Some (RecentEventRow.relation (columns e)))
       && bool_decide (RecentEventRow.truth_status (columns e) = "confirmed")
       && negb (existsb (retracts e) s)) s).

(** The candidates of one row, one per related identity. *)
Definition row_candidates (r : db_row) : list CandidateRelation :=
  match RecentEventRow.relation (columns r) with
  | None => []
  | Some rel =>
      (λ to_identity, CandidateRelation.mk to_identity rel
         (confidence_from_str (RecentEventRow.confidence_level (columns r)))
         (RecentEventRow.evidence_refs (columns r)))
      <$> RecentEventRow.related_identities (columns r)
  end.

Definition fetch_relations (s : store) (workspace_id : Z) (token : string)
    : list CandidateRelation :=
  first_by_key [] (flat_map row_candidates (relation_rows s workspace_id token)).

(** The window of the timeline query, in nanoseconds; none for ["all"]. *)
Definition window_interval (window : string) : option Z :=
  let hour := (3600 * 10 ^ 9)%Z in
  if decide (window = "1h") then Some hour else
  if decide (window = "24h") then Some (24 * hour)%Z else
  if decide (window = "7d") then Some (7 * 24 * hour)%Z else
  if decide (window = "30d") then Some (30 * 24 * hour)%Z else None.

(** The newest coverage disclosure of the token. *)
Definition current_coverage (s : store) (workspace_id : Z) (token : string) : option db_row :=
  head (stable_sort newest_first_leb
    (List.filter (λ c, bool_decide (row_workspace c = workspace_id)
                       && bool_decide (token_identity c = token) && is_disclosure c) s)).

Definition flag_current (current : bool) (r : RecentEventRow) : RecentEventRow :=
  match r with
  | RecentEventRow.mk id ty a ri c occ obs rel ts cf cl er dg fr cov cap mis ret _ =>
      RecentEventRow.mk id ty a ri c occ obs rel ts cf cl er dg fr cov cap mis ret current
  end.

Definition fetch_recent_timeline (db_now : instant) (s : store) (workspace_id : Z)
    (token : string) (window : string) : list RecentEvent :=
  let current r :=
    match current_coverage s workspace_id token with
    | Some c => bool_decide (row_id r = row_id c)
    | None => false
    end in
  let in_window r :=
    match window_interval window with
    | None => true
    | Some interval =>
        current r
        || ((db_now - interval <=? RecentEventRow.occurred_at (columns r))%Z
            && negb (is_disclosure r))
    end in
  let rows := stable_sort (λ a b, (RecentEventRow.occurred_at (columns a) <=?
                                   RecentEventRow.occurred_at (columns b))%Z)
    (List.filter (λ r, bool_decide (row_workspace r = workspace_id)
                       && bool_decide (token_identity r = token) && in_window r) s) in
  omap (λ r, into_event (flag_current (current r) (columns r))) rows.

(** ** Social identities *)

(** A row of [social_identities_current]. *)
Record social_row := SocialRow {
  soc_workspace : Z;
  soc_platform : string;
  soc_immutable_user_id : string;
  soc_current_handle : option string;
  soc_historical_handles : list string;
}.

Definition fetch_social_identities (rows : list social_row) (workspace_id : Z)
    : list StoredSocialIdentity :=
  (λ r,
     let handles := soc_historical_handles r in
     let handles :=
       match soc_current_handle r with
       | Some current => if blank current then handles else handles ++ [current]
       | None => handles
       end in
     StoredSocialIdentity.mk (soc_platform r) (soc_immutable_user_id r) handles)
  <$> List.filter (λ r, bool_decide (soc_workspace r = workspace_id)) rows.

Definition resolve_candidates_from_store (url_host : string → option string)
    (parse_rfc3339 : string → option instant) (social : list social_row) (workspace_id : Z)
    (anchor : ActorExtraction) (nodes : list EntityNode) (edges : list EntityEdge)
    (now_secs : Z) : list CandidateRelation :=
  let rows := fetch_social_identities social workspace_id in
  let bindings := records_from_store rows in
  resolve_candidates url_host parse_rfc3339 anchor nodes edges bindings now_secs.

(** ** Lemmas *)

Lemma has_event_spec s ws id :
  has_event s ws id = true ↔ ∃ r, r ∈ s ∧ row_workspace r = ws ∧ db_event_id r = id.
Proof.
  unfold has_event. rewrite existsb_exists_elem. setoid_rewrite andb_true_iff.
  by setoid_rewrite bool_decide_eq_true.
Qed.

Lemma has_event_app s t ws id :
  has_event (s ++ t) ws id = has_event s ws id || has_event t ws id.
Proof. apply existsb_app. Qed.

(** The unique index on [(workspace_id, event_id)] and the serial ids. *)
Definition store_ok (s : store) : Prop :=
  NoDup ((λ r, (row_workspace r, db_event_id r)) <$> s) ∧
  ∀ i r, s !! i = Some r → row_id r = i.

Lemma append_cases accepts s ws e s' res :
  append_recent_event_on accepts s ws e = (s', res) →
  (s' = s ∧ res ≠ ROk true) ∨
  (res = ROk true ∧ has_event s ws (RecentEvent.event_id e) = false ∧
   s' = s ++ [DbRow (length s) ws (RecentEvent.anchor_identity e) (bind_row e false)]).
Proof.
  unfold append_recent_event_on. repeat (case_match; [intros [= <- <-]; by left|]).
  intros [= <- <-]. by right.
Qed.

(** What [append] reports: [true] appended, [false] was there. *)
Lemma append_false accepts s ws e s' :
  append_recent_event_on accepts s ws e = (s', ROk false) →
  s' = s ∧ has_event s ws (RecentEvent.event_id e) = true.
Proof.
  unfold append_recent_event_on. by repeat (case_match; [intros [= <-]|]).
Qed.

Lemma append_has accepts s ws e s' b :
  append_recent_event_on accepts s ws e = (s', ROk b) →
  has_event s' ws (RecentEvent.event_id e) = true.
Proof.
  intros H. destruct b.
  - apply append_cases in H as [[_ ?]|(_ & _ & ->)]; [done|].
    rewrite has_event_app. apply orb_true_intro. right.
    unfold has_event. simpl. by rewrite !bool_decide_true.
  - by apply append_false in H as [-> ?].
Qed.

(** An append that went through is a no-op on any extension of its result. *)
Lemma append_again accepts s ws e s' b t :
  append_recent_event_on accepts s ws e = (s', ROk b) →
  append_recent_event_on accepts (s' ++ t) ws e = (s' ++ t, ROk false).
Proof.
  intros H. pose proof (append_has _ _ _ _ _ _ H) as Hh. revert H.
  unfold append_recent_event_on. repeat (case_match; [done|]).
  intros _. by rewrite has_event_app, Hh.
Qed.

Lemma append_store_ok accepts s ws e s' res :
  store_ok s → append_recent_event_on accepts s ws e = (s', res) → store_ok s'.
Proof.
  intros [Hn Hid] [[-> _]|(_ & Hf & ->)]%append_cases; [done|]. split.
  - rewrite fmap_app. apply NoDup_app. split_and!; [done| |apply NoDup_singleton].
    intros p (r & -> & Hr)%list_elem_of_fmap [= Hw He]%list_elem_of_singleton.
    apply not_true_iff_false in Hf. apply Hf. apply has_event_spec. eauto.
  - intros i r. rewrite lookup_app. destruct (s !! i) eqn:E; [intros [= <-]; by apply Hid|].
    intros [Hi <-]%list_lookup_singleton_Some. simpl. apply lookup_ge_None in E. lia.
Qed.

Lemma legacy_prefix s t ws keys e :
  legacy_row_publishes_the_same_fact s ws keys e = true →
  legacy_row_publishes_the_same_fact (s ++ t) ws keys e = true.
Proof.
  unfold legacy_row_publishes_the_same_fact. destruct keys; [done|].
  rewrite List.filter_app, omap_app, existsb_app. by intros ->.
Qed.

Lemma newest_first_spec a b :
  newest_first_leb a b = true ↔
  (RecentEventRow.occurred_at (columns b) < RecentEventRow.occurred_at (columns a))%Z ∨
  (RecentEventRow.occurred_at (columns a) = RecentEventRow.occurred_at (columns b) ∧
   (row_id b <= row_id a)%nat).
Proof.
  unfold newest_first_leb.
  destruct (Z.compare_spec (RecentEventRow.occurred_at (columns b))
    (RecentEventRow.occurred_at (columns a))); rewrite ?Nat.leb_le; split; try done; lia.
Qed.

Lemma newest_first_total a b : newest_first_leb a b = true ∨ newest_first_leb b a = true.
Proof. rewrite !newest_first_spec. lia. Qed.

Lemma newest_first_trans a b c :
  newest_first_leb a b = true → newest_first_leb b c = true → newest_first_leb a c = true.
Proof. rewrite !newest_first_spec. lia. Qed.

Lemma head_stable_sort l r :
  head (stable_sort newest_first_leb l) = Some r →
  r ∈ l ∧ ∀ x, x ∈ l → newest_first_leb r x = true.
Proof. apply stable_sort_head; [apply newest_first_total|apply newest_first_trans]. Qed.

Lemma first_by_key_split seen l c :
  c ∈ first_by_key seen l →
  ∃ l1 l2, l = l1 ++ c :: l2 ∧ ∀ d, d ∈ l1 → candidate_key d ≠ candidate_key c.
Proof.
  revert seen. induction l as [|d l IH]; intros seen; simpl; [by intros ?%not_elem_of_nil|].
  unfold contains. case_bool_decide as E.
  - intros Hc. destruct (first_by_key_elem _ _ _ Hc) as [_ Hns].
    destruct (IH _ Hc) as (l1 & l2 & -> & H1). exists (d :: l1), l2. split; [done|].
    intros x [->|Hx]%elem_of_cons; [congruence|auto].
  - intros [->|Hc]%elem_of_cons.
    + exists [], l. split; [done|]. by intros ? ?%not_elem_of_nil.
    + destruct (first_by_key_elem _ _ _ Hc) as [_ Hns].
      destruct (IH _ Hc) as (l1 & l2 & -> & H1). exists (d :: l1), l2. split; [done|].
      intros x [->|Hx]%elem_of_cons; [|auto]. intros Heq. apply Hns. rewrite <-Heq. left.
Qed.

Lemma flat_map_split {A B} (f : A → list B) l l1 c l2 :
  flat_map f l = l1 ++ c :: l2 →
  ∃ r1 r r2 k, l = r1 ++ r :: r2 ∧ c ∈ f r ∧ l1 = flat_map f r1 ++ k.
Proof.
  revert l1. induction l as [|x l IH]; intros l1 H; simpl in H; [by destruct l1|].
  apply app_eq_inv in H as [(k & Hfx & Hk)|(k & Hx & H)].
  - destruct k as [|y k].
    + rewrite app_nil_r in Hfx. simpl in Hk. destruct (IH [] (eq_sym Hk)) as (r1 & r & r2 & k & -> & ? & Hn).
      symmetry in Hn. apply app_nil in Hn as [Hr1 ->].
      exists (x :: r1), r, r2, []. split; [done|]. split; [done|]. simpl. by rewrite Hr1, Hfx, !app_nil_r.
    + injection Hk as <- _. exists [], x, l, l1. split; [done|]. split; [rewrite Hfx; set_solver|done].
  - destruct (IH k H) as (r1 & r & r2 & k' & -> & ? & ->).
    exists (x :: r1), r, r2, k'. split; [done|]. split; [done|]. simpl. by rewrite Hx, app_assoc.
Qed.

Lemma StronglySorted_app_r {A} (R : A → A → Prop) l1 l2 :
  StronglySorted R (l1 ++ l2) → StronglySorted R l2.
Proof. induction l1 as [|x l1 IH]; simpl; [done|]. by intros [? _]%StronglySorted_inv; auto. Qed.

Lemma relation_rows_elem s ws tok e :
  e ∈ relation_rows s ws tok ↔
  e ∈ s ∧ row_workspace e = ws ∧ token_identity e = tok ∧
  is_Some (RecentEventRow.relation (columns e)) ∧
  RecentEventRow.truth_status (columns e) = "confirmed" ∧
  ∀ r, r ∈ s → retracts e r = false.
Proof.
  unfold relation_rows. rewrite elem_of_stable_sort, elem_of_filter_bool.
  rewrite !andb_true_iff, !bool_decide_eq_true, negb_true_iff, existsb_false_elem. tauto.
Qed.

(** ** Theorems *)

(** A row read back is the event that was bound: the textual enum
    columns and their parsers are inverse on every constructor, and an
    unrecognised text reads as the most cautious value. *)
Theorem row_round_trip e :
  into_event (bind_row e (RecentEvent.is_current_coverage e)) = Some e ∧
  truth_status_from_str "?" = TruthStatus.Unknown ∧
  confidence_from_str "?" = RecentConfidence.Insufficient ∧
  coverage_from_str "?" = Coverage.Unavailable ∧
  capability_from_str "?" = CapabilityStatus.Unavailable.
Proof.
  split; [|done]. destruct e as [???????? ts ? cl ??? cov cap ???].
  unfold into_event, bind_row; simpl.
  by destruct ts, cl, cov, cap.
Qed.

(** Claim C11: The append is atomic and idempotent.  Appending keeps the unique
    index and the serial ids; it adds one row exactly when it answers [true];
    every error and every [false] leaves the table as it was; [false] means the
    id was there; and after any successful append, whatever rows others appended
    since, the same append answers [false] and changes nothing. *)
Theorem append_atomic accepts s ws e s' res :
  append_recent_event_on accepts s ws e = (s', res) →
  (store_ok s → store_ok s') ∧
  (res = ROk true → s' = s ++ [DbRow (length s) ws (RecentEvent.anchor_identity e) (bind_row e false)]) ∧
  (res ≠ ROk true → s' = s) ∧
  (res = ROk false → has_event s ws (RecentEvent.event_id e) = true) ∧
  (∀ b t, res = ROk b →
     append_recent_event_on accepts (s' ++ t) ws e = (s' ++ t, ROk false)).
Proof.
  intros H. split_and!.
  - intros Hok. by eapply append_store_ok.
  - intros ->. by apply append_cases in H as [[_ ?]|(_ & _ & ->)].
  - intros Hne. by apply append_cases in H as [[-> _]|(? & _)].
  - intros ->. by apply append_false in H as [_ ?].
  - intros b t ->. by eapply append_again.
Qed.

(** An event anchored on a token. *)
Definition plain_event (id : string) : RecentEvent :=
  RecentEvent.mk id "relation_resolved" "solana:AAA" [IdentityKey.mk IdentityKind.Token "solana:BBB"]
    "solana:AAA" 5%Z 5%Z (Some RecentRelation.SameDeployer) TruthStatus.Confirmed None
    RecentConfidence.Exact ["ev1"] None None Coverage.Degraded CapabilityStatus.Available
    ["deployer"] None false.

Lemma append_atomic_witness :
  append_recent_event_on (λ _ _, true) [] 7 (plain_event "k") =
    ([DbRow 0 7 "solana:AAA" (bind_row (plain_event "k") false)], ROk true) ∧
  append_recent_event_on (λ _ _, true) [DbRow 0 7 "solana:AAA" (bind_row (plain_event "k") false)]
    7 (plain_event "k") =
    ([DbRow 0 7 "solana:AAA" (bind_row (plain_event "k") false)], ROk false).
Proof.
  assert (append_recent_event_on (λ _ _, true) [] 7 (plain_event "k") =
    ([DbRow 0 7 "solana:AAA" (bind_row (plain_event "k") false)], ROk true)) as H by done.
  split; [exact H|].
  destruct (append_atomic _ _ _ _ _ _ H) as (_ & _ & _ & _ & H').
  exact (H' true [] eq_refl).
Defined.

(** The relation view is the current, corroborated one.  Each
    candidate it returns comes from a confirmed row of this workspace and token
    that no valid retraction targets, and that row is the newest such row (by
    time, then id) carrying the candidate's relation, kind and value; no key is
    returned twice, and every current row is represented. *)
Theorem fetch_relations_current s ws tok :
  NoDup (candidate_key <$> fetch_relations s ws tok) ∧
  (∀ c, c ∈ fetch_relations s ws tok →
     ∃ r, r ∈ relation_rows s ws tok ∧ c ∈ row_candidates r ∧
       ∀ r' d, r' ∈ relation_rows s ws tok → d ∈ row_candidates r' →
         candidate_key d = candidate_key c → newest_first_leb r r' = true) ∧
  (∀ r d, r ∈ relation_rows s ws tok → d ∈ row_candidates r →
     ∃ c, c ∈ fetch_relations s ws tok ∧ candidate_key c = candidate_key d) ∧
  (∀ r, r ∈ relation_rows s ws tok ↔
     r ∈ s ∧ row_workspace r = ws ∧ token_identity r = tok ∧
     is_Some (RecentEventRow.relation (columns r)) ∧
     RecentEventRow.truth_status (columns r) = "confirmed" ∧
     ∀ x, x ∈ s → retracts r x = false).
Proof.
  split; [apply first_by_key_NoDup|]. split; [|split; [|apply relation_rows_elem]].
  - intros c (l1 & l2 & Hl & Hfirst)%first_by_key_split.
    apply flat_map_split in Hl as (r1 & r & r2 & k & Hrows & Hc & ->).
    exists r. split; [rewrite Hrows; set_solver|]. split; [done|].
    intros r' d Hr' Hd Hk. pose proof (stable_sort_sorted _ newest_first_total newest_first_trans
      (List.filter (λ e, bool_decide (row_workspace e = ws)
       && bool_decide (token_identity e = tok)
       && bool_decide (is_Some (RecentEventRow.relation (columns e)))
       && bool_decide (RecentEventRow.truth_status (columns e) = "confirmed")
       && negb (existsb (retracts e) s)) s)) as Hs.
    fold (relation_rows s ws tok) in Hs. rewrite Hrows in Hs, Hr'.
    apply StronglySorted_app_r in Hs. apply StronglySorted_inv in Hs as [_ Hf].
    rewrite Forall_forall in Hf. apply elem_of_app in Hr' as [Hin|[->|Hin]%elem_of_cons].
    + exfalso. apply (Hfirst d); [|done]. apply elem_of_app. left.
      apply elem_of_flat_map. eauto.
    + by destruct (newest_first_total r r).
    + by apply Hf.
  - intros r d Hr Hd.
    destruct (first_by_key_complete [] (flat_map row_candidates (relation_rows s ws tok)) d)
      as [[]%not_elem_of_nil|?]; [|done]. apply elem_of_flat_map. eauto.
Qed.

Lemma fetch_relations_current_witness :
  ∃ c, c ∈ fetch_relations [DbRow 0 7 "solana:AAA" (bind_row (plain_event "k") false)] 7 "solana:AAA".
Proof.
  set (r := DbRow 0 7 "solana:AAA" (bind_row (plain_event "k") false)).
  destruct (proj1 (proj2 (proj2 (fetch_relations_current [r] 7 "solana:AAA"))) r
    (CandidateRelation.mk (IdentityKey.mk IdentityKind.Token "solana:BBB")
       RecentRelation.SameDeployer RecentConfidence.Exact ["ev1"])) as (c & ? & _).
  - vm_compute. left.
  - vm_compute. left.
  - by exists c.
Defined.

(** The timeline never loses the coverage disclosure.  Whatever the
    window and the clock, when the token has a disclosure in the workspace the
    newest one (by time, then id) is among the returned events and flagged
    current, and no other returned event is. *)
Theorem timeline_pins_coverage db_now s ws tok window c :
  store_ok s → current_coverage s ws tok = Some c →
  (∀ x, x ∈ s → row_workspace x = ws → token_identity x = tok → is_disclosure x = true →
     newest_first_leb c x = true) ∧
  (∃ e, into_event (flag_current true (columns c)) = Some e ∧
     e ∈ fetch_recent_timeline db_now s ws tok window ∧
     RecentEvent.is_current_coverage e = true) ∧
  ∀ e, e ∈ fetch_recent_timeline db_now s ws tok window →
     RecentEvent.is_current_coverage e = true → into_event (flag_current true (columns c)) = Some e.
Proof.
  intros [_ Hid] Hc. pose proof Hc as Hcc. unfold current_coverage in Hc.
  apply head_stable_sort in Hc as [Hcs Hnew]. apply elem_of_filter_bool in Hcs as [Hcs Hb].
  bool_prop. split; [|split].
  - intros x Hx Hw Ht Hd. apply Hnew. apply elem_of_filter_bool. split; [done|].
    by rewrite Hw, Ht, Hd, !bool_decide_true.
  - eexists. split; [reflexivity|]. unfold fetch_recent_timeline. rewrite Hcc. split.
    + apply list_elem_of_omap. exists c. rewrite elem_of_stable_sort, elem_of_filter_bool.
      rewrite (bool_decide_true (row_id c = row_id c)) by done. split; [|done].
      split; [done|]. rewrite !bool_decide_true by done. simpl.
      destruct (window_interval window); done.
    + by destruct (columns c).
  - intros e He Hcur. unfold fetch_recent_timeline in He. rewrite Hcc in He.
    apply list_elem_of_omap in He as (r & Hr & He). rewrite elem_of_stable_sort in Hr.
    apply elem_of_filter_bool in Hr as [Hr _]. case_bool_decide as Hrid.
    + assert (r = c) as ->; [|done].
      apply list_elem_of_lookup in Hr as [i Hi], Hcs as [j Hj].
      rewrite (Hid _ _ Hi), (Hid _ _ Hj) in Hrid. congruence.
    + exfalso. destruct (columns r). injection He as <-. done.
Qed.

Definition disclosure_event (id : string) (t : instant) : RecentEvent :=
  RecentEvent.mk id "coverage_disclosure" "solana:AAA" [] "solana:AAA" t t None
    TruthStatus.Confirmed None RecentConfidence.Insufficient [] None None Coverage.Degraded
    CapabilityStatus.Insufficient ["deployer"; "authority"; "initial_funder"] None false.

Lemma timeline_pins_coverage_witness :
  ∃ e, e ∈ fetch_recent_timeline (90000 * 10 ^ 9)%Z
         [DbRow 0 7 "solana:AAA" (bind_row (disclosure_event "d" 0%Z) false)] 7 "solana:AAA" "24h" ∧
    RecentEvent.is_current_coverage e = true.
Proof.
  destruct (timeline_pins_coverage (90000 * 10 ^ 9)%Z
    [DbRow 0 7 "solana:AAA" (bind_row (disclosure_event "d" 0%Z) false)] 7 "solana:AAA" "24h"
    (DbRow 0 7 "solana:AAA" (bind_row (disclosure_event "d" 0%Z) false))) as (_ & (e & _ & ? & ?) & _).
  - split; [apply NoDup_singleton|]. intros [|i] r; [by intros [= <-]|done].
  - vm_compute. reflexivity.
  - by exists e.
Defined.
