(* ===== verification/Pipeline.v ===== *)
(** * The recent-intelligence pipeline (src/src/sf/recent_pipeline.rs)

    [run_for_anchor]: the activation gate, the resolution against the store,
    the append of every resolved relation, and the disclosure of what could not
    be checked.  The table is threaded through; an error leaves the rows already
    appended where they are, each statement being its own transaction. *)
From S2P Require Import Prelude Text Domain EventKeys Identity Resolver Recent Store.
From stdpp Require Import options.
Local Open Scope string_scope.
Local Open Scope list_scope.

Module PipelineOutcome.
Record PipelineOutcome := mk {
  resolved : nat;
  appended : nat;
  duplicates : nat;
  disclosed_partial_coverage : bool;
  disclosed_full_coverage : bool;
  skipped_not_triggered : bool;
}.

Definition default : PipelineOutcome := mk 0 0 0 false false false.
End PipelineOutcome.
Abbreviation PipelineOutcome := PipelineOutcome.PipelineOutcome.

Definition count_appended (o : PipelineOutcome) : PipelineOutcome :=
  match o with
  | PipelineOutcome.mk r a d p f s => PipelineOutcome.mk r (S a) d p f s
  end.

Definition count_duplicate (o : PipelineOutcome) : PipelineOutcome :=
  match o with
  | PipelineOutcome.mk r a d p f s => PipelineOutcome.mk r a (S d) p f s
  end.

Definition set_disclosed (partial full : bool) (o : PipelineOutcome) : PipelineOutcome :=
  match o with
  | PipelineOutcome.mk r a d _ _ s => PipelineOutcome.mk r a d partial full s
  end.

Definition missing_actor_inputs (anchor : ActorExtraction) : list string :=
  (if bool_decide (ActorExtraction.deployer anchor = None) then ["deployer"] else []) ++
  (if bool_decide (ActorExtraction.authority anchor = None) then ["authority"] else []) ++
  (if bool_decide (ActorExtraction.initial_funder anchor = None)
   then ["initial_funder"] else []).

Definition run_coverage (missing_inputs : list string) : Coverage :=
  if bool_decide (missing_inputs = []) then Coverage.Full else Coverage.Degraded.

Definition run_capability (missing_inputs : list string) : CapabilityStatus :=
  if bool_decide (length missing_inputs = 3) then CapabilityStatus.Insufficient
  else CapabilityStatus.Available.

Section pipeline.
Context (sha256_hex : string → string) (url_host : string → option string).
Context (parse_rfc3339 : string → option instant) (accepts : Z → RecentEvent → bool).
Context (social : list social_row) (workspace : WorkspaceScope).
Context (lifecycle : TokenLifecycle) (trigger : option ActivationTrigger).
Context (anchor : ActorExtraction) (nodes : list EntityNode) (edges : list EntityEdge).
Context (now : instant).
Local Abbreviation ws := (WorkspaceScope.id workspace).
Local Abbreviation token := (ActorExtraction.token anchor).

Definition relation_event (missing_inputs : list string) (c : CandidateRelation) : RecentEvent :=
  let event_id :=
    relation_event_key sha256_hex workspace token
      (RecentRelation.as_str (CandidateRelation.relation c))
      (IdentityKey.value (CandidateRelation.to_identity c))
      (IdentityKey.kind (CandidateRelation.to_identity c))
      (CandidateRelation.confidence c) (CandidateRelation.evidence_refs c) in
  RecentEvent.mk event_id "relation_resolved" token [CandidateRelation.to_identity c] token
    now now (Some (CandidateRelation.relation c)) TruthStatus.Confirmed None
    (CandidateRelation.confidence c) (CandidateRelation.evidence_refs c) None None
    (run_coverage missing_inputs) (run_capability missing_inputs) missing_inputs None false.

Definition relation_legacy_keys (c : CandidateRelation) : list string :=
  legacy_relation_event_keys sha256_hex workspace token
    (RecentRelation.as_str (CandidateRelation.relation c))
    (IdentityKey.value (CandidateRelation.to_identity c))
    (IdentityKey.kind (CandidateRelation.to_identity c))
    (CandidateRelation.confidence c) (CandidateRelation.evidence_refs c).

(** [for c in &candidates]. *)
Fixpoint append_candidates (missing_inputs : list string) (s : store)
    (candidates : list CandidateRelation) (outcome : PipelineOutcome)
    : store * result PipelineOutcome :=
  match candidates with
  | [] => (s, ROk outcome)
  | c :: candidates =>
      let event := relation_event missing_inputs c in
      if legacy_row_publishes_the_same_fact s ws (relation_legacy_keys c) event then
        append_candidates missing_inputs s candidates (count_duplicate outcome)
      else
        match append_recent_event_on accepts s ws event with
        | (s, RErr _) => (s, RErr "failed to append a resolved relation")
        | (s, ROk appended) =>
            append_candidates missing_inputs s candidates
              (if appended then count_appended outcome else count_duplicate outcome)
        end
  end.

(** The row of the current coverage state. *)
Definition latest_disclosure (s : store) : option db_row :=
  head (stable_sort newest_first_leb
    (List.filter (λ r, bool_decide (row_workspace r = ws)
                       && bool_decide (RecentEventRow.anchor_identity (columns r) = token)
                       && is_disclosure r) s)).

Definition coverage_event (missing_inputs : list string) (event_id : string) : RecentEvent :=
  RecentEvent.mk event_id "coverage_disclosure" token [] token now now None
    TruthStatus.Confirmed None
    (if bool_decide (missing_inputs = []) then RecentConfidence.Exact
     else RecentConfidence.Insufficient)
    [] None None (run_coverage missing_inputs) (run_capability missing_inputs)
    missing_inputs None false.

(** Whether a coverage row is due. *)
Definition disclosure_due (missing_inputs : list string) (latest : option db_row) : bool :=
  let current_missing := (λ r, RecentEventRow.missing_inputs (columns r)) <$> latest in
  let changed := negb (bool_decide (current_missing = Some missing_inputs)) in
  let stale :=
    match latest with
    | None => true
    | Some r =>
        (COVERAGE_REFRESH_SECONDS <=?
         num_seconds (now - RecentEventRow.occurred_at (columns r)))%Z
    end in
  let first_and_full :=
    negb (bool_decide (is_Some latest)) && bool_decide (missing_inputs = []) in
  (changed || stale) && negb first_and_full.

Definition disclosure_bucket : Z := Z.quot (timestamp now) COVERAGE_REFRESH_SECONDS.

Definition disclosure_predecessor (latest : option db_row) : string :=
  match latest with Some r => db_event_id r | None => "" end.

Definition disclose_coverage (missing_inputs : list string) (s : store)
    (outcome : PipelineOutcome) : store * result PipelineOutcome :=
  let latest := latest_disclosure s in
  if disclosure_due missing_inputs latest then
    let predecessor := disclosure_predecessor latest in
    let event_id :=
      coverage_event_key sha256_hex workspace token missing_inputs disclosure_bucket predecessor in
    let event := coverage_event missing_inputs event_id in
    let legacy_keys :=
      legacy_coverage_event_keys sha256_hex workspace token missing_inputs disclosure_bucket
        predecessor in
    if legacy_row_publishes_the_same_fact s ws legacy_keys event then (s, ROk outcome)
    else
      match append_recent_event_on accepts s ws event with
      | (s, RErr _) => (s, RErr "failed to append the coverage state")
      | (s, ROk true) =>
          (s, ROk (set_disclosed (negb (bool_decide (missing_inputs = [])))
                     (bool_decide (missing_inputs = [])) outcome))
      | (s, ROk false) => (s, ROk outcome)
      end
  else (s, ROk outcome).

Definition run_for_anchor (s : store) : store * result PipelineOutcome :=
  if negb (should_trigger_lookup lifecycle trigger)
  then (s, ROk (PipelineOutcome.mk 0 0 0 false false true)) else
  let candidates :=
    resolve_candidates_from_store url_host parse_rfc3339 social ws anchor nodes edges
      (timestamp now) in
  let outcome := PipelineOutcome.mk (length candidates) 0 0 false false false in
  let missing_inputs := missing_actor_inputs anchor in
  match append_candidates missing_inputs s candidates outcome with
  | (s, RErr e) => (s, RErr e)
  | (s, ROk outcome) => disclose_coverage missing_inputs s outcome
  end.

(** ** Lemmas *)

(** What every row a run appends looks like. *)
Definition published_row (r : db_row) : Prop :=
  row_workspace r = ws ∧ token_identity r = token ∧
  RecentEventRow.anchor_identity (columns r) = token ∧
  RecentEventRow.occurred_at (columns r) = now ∧
  RecentEventRow.truth_status (columns r) = "confirmed" ∧
  RecentEventRow.missing_inputs (columns r) = missing_actor_inputs anchor ∧
  RecentEventRow.coverage (columns r) = coverage_str (run_coverage (missing_actor_inputs anchor)) ∧
  (RecentEventRow.relation (columns r) = None ↔ is_disclosure r = true) ∧
  ((is_disclosure r = false ∧ ∃ d, db_event_id r = "rel:" +:+ d) ∨
   (is_disclosure r = true ∧ ∃ d, db_event_id r = "cov:" +:+ d)).

Definition new_rows (s s' : store) (n : nat) : Prop :=
  ∃ new, s' = s ++ new ∧ length new = n ∧ Forall published_row new.

Lemma new_rows_nil s : new_rows s s 0.
Proof. exists []. by rewrite app_nil_r. Qed.

Lemma new_rows_trans s1 s2 s3 n m : new_rows s1 s2 n → new_rows s2 s3 m → new_rows s1 s3 (n + m).
Proof.
  intros (x & -> & <- & Hx) (y & -> & <- & Hy). exists (x ++ y).
  rewrite app_assoc, length_app. split_and!; [done|done|]. by apply Forall_app.
Qed.

Lemma append_new_rows s e s' b :
  published_row (DbRow (length s) ws (RecentEvent.anchor_identity e) (bind_row e false)) →
  append_recent_event_on accepts s ws e = (s', b) →
  (b = ROk true ∧ new_rows s s' 1) ∨ (b ≠ ROk true ∧ s' = s).
Proof.
  intros Hp [[-> ?]|(-> & _ & ->)]%append_cases; [by right|left]. split; [done|].
  eexists. split; [reflexivity|]. split; [done|]. by constructor.
Qed.

Lemma published_relation i c :
  published_row (DbRow i ws token (bind_row (relation_event (missing_actor_inputs anchor) c) false)).
Proof. repeat (split; [done|]). left. split; [done|]. by eexists. Qed.

Lemma published_coverage i m b p :
  published_row (DbRow i ws token (bind_row (coverage_event (missing_actor_inputs anchor)
    (coverage_event_key sha256_hex workspace token m b p)) false)).
Proof. repeat (split; [done|]). right. split; [done|]. by eexists. Qed.

Local Abbreviation missing := (missing_actor_inputs anchor).

Lemma append_candidates_rows s cs o s' res :
  append_candidates missing s cs o = (s', res) →
  (store_ok s → store_ok s') ∧
  ∃ n, new_rows s s' n ∧
  match res with
  | RErr _ => True
  | ROk o' =>
      o' = PipelineOutcome.mk (PipelineOutcome.resolved o) (PipelineOutcome.appended o + n)
             (PipelineOutcome.duplicates o + (length cs - n))
             (PipelineOutcome.disclosed_partial_coverage o)
             (PipelineOutcome.disclosed_full_coverage o)
             (PipelineOutcome.skipped_not_triggered o) ∧ n <= length cs
  end.
Proof.
  clear url_host parse_rfc3339 social lifecycle trigger nodes edges.
  revert s o. induction cs as [|c cs IH]; intros s o; cbn [append_candidates].
  { intros [= <- <-]. split; [done|]. exists 0. split; [apply new_rows_nil|].
    destruct o; simpl. by rewrite !Nat.add_0_r. }
  destruct (legacy_row_publishes_the_same_fact _ _ _ _);
    [|destruct (append_recent_event_on _ _ _ _) as [s1 [b|]] eqn:E].
  - intros (Hok & n & Hn & Hres)%IH. split; [done|]. exists n. split; [done|].
    destruct res; [|done]. destruct Hres as [-> Hle]. destruct o; simpl.
    split; [f_equal; lia|lia].
  - intros (Hok & n & Hn & Hres)%IH. split.
    { intros Hs. apply Hok. by eapply append_store_ok. }
    pose proof E as E'. apply append_new_rows in E' as [[Hb H1]|[Hb ->]];
      [| |apply published_relation].
    + injection Hb as ->. exists (S n). split; [by apply (new_rows_trans _ _ _ 1 n H1)|].
      destruct res; [|done]. destruct Hres as [-> Hle]. destruct o; simpl.
      split; [f_equal; lia|lia].
    + destruct b; [done|]. exists n. split; [done|].
      destruct res; [|done]. destruct Hres as [-> Hle]. destruct o; simpl.
      split; [f_equal; lia|lia].
  - intros [= <- <-]. split; [intros Hs; by eapply append_store_ok|].
    apply append_new_rows in E as [[? _]|[_ ->]]; [done| |apply published_relation].
    exists 0. split; [apply new_rows_nil|done].
Qed.

Lemma disclose_rows s o s' res :
  disclose_coverage missing s o = (s', res) →
  (store_ok s → store_ok s') ∧
  ((s' = s ∧ ∀ o', res = ROk o' → o' = o) ∨
   (new_rows s s' 1 ∧ disclosure_due missing (latest_disclosure s) = true ∧
    res = ROk (set_disclosed (negb (bool_decide (missing = []))) (bool_decide (missing = [])) o))).
Proof.
  clear url_host parse_rfc3339 social lifecycle trigger nodes edges.
  unfold disclose_coverage. destruct (disclosure_due _ _) eqn:Ed; [|intros [= <- <-]; naive_solver].
  destruct (legacy_row_publishes_the_same_fact _ _ _ _); [intros [= <- <-]; naive_solver|].
  destruct (append_recent_event_on _ _ _ _) as [s1 b] eqn:E. intros Hres.
  assert (s' = s1) as -> by (destruct b as [[]|]; by simplify_eq).
  split; [intros; by eapply append_store_ok|].
  apply append_new_rows in E as [[-> Hn]|[Hb ->]]; [| |apply published_coverage].
  - right. split; [done|]. split; [done|]. by simplify_eq.
  - left. split; [done|]. destruct b as [[]|]; simplify_eq; naive_solver.
Qed.

(** ** Running again *)

Lemma append_candidates_again m s cs o s' o' t o2 :
  append_candidates m s cs o = (s', ROk o') →
  (∃ x, s' = s ++ x) ∧
  append_candidates m (s' ++ t) cs o2 =
    (s' ++ t, ROk (Nat.iter (length cs) count_duplicate o2)).
Proof.
  clear url_host parse_rfc3339 social lifecycle trigger nodes edges.
  revert s o o2. induction cs as [|c cs IH]; intros s o o2; cbn [append_candidates].
  { intros [= -> ->]. split; [exists []; by rewrite app_nil_r|done]. }
  destruct (legacy_row_publishes_the_same_fact s _ _ _) eqn:El.
  - intros H. destruct (IH _ _ (count_duplicate o2) H) as [[x ->] H2]. split; [by exists x|].
    rewrite <-app_assoc. rewrite (legacy_prefix s) by done. rewrite app_assoc, H2.
    cbn [length]. by rewrite Nat.iter_succ_r.
  - destruct (append_recent_event_on accepts s _ _) as [s1 [b|]] eqn:E; [|done].
    intros H. destruct (IH _ _ (count_duplicate o2) H) as [[x ->] H2].
    assert (∃ y, s1 = s ++ y) as [y Hy].
    { apply append_cases in E as [[-> _]|(_ & _ & ->)]; [exists []; by rewrite app_nil_r|eauto]. }
    split; [exists (y ++ x); by rewrite Hy, app_assoc|].
    cbn [length]. rewrite Nat.iter_succ_r, <-H2.
    rewrite <-app_assoc, (append_again _ _ _ _ _ _ _ E).
    match goal with |- context [if ?b then _ else _] => by destruct b end.
Qed.

Lemma iter_count_duplicate n o :
  Nat.iter n count_duplicate o =
  PipelineOutcome.mk (PipelineOutcome.resolved o) (PipelineOutcome.appended o)
    (PipelineOutcome.duplicates o + n) (PipelineOutcome.disclosed_partial_coverage o)
    (PipelineOutcome.disclosed_full_coverage o) (PipelineOutcome.skipped_not_triggered o).
Proof.
  induction n as [|n IH]; [destruct o; simpl; by rewrite Nat.add_0_r|].
  rewrite Nat.iter_succ, IH. simpl. f_equal. lia.
Qed.

Lemma latest_append s r :
  store_ok (s ++ [r]) →
  latest_disclosure (s ++ [r]) = latest_disclosure s ∨ latest_disclosure (s ++ [r]) = Some r.
Proof.
  clear url_host parse_rfc3339 social lifecycle trigger nodes edges.
  intros [_ Hid]. unfold latest_disclosure. rewrite List.filter_app. cbn [List.filter].
  destruct (_ && _ && _) eqn:Er; [|left; by rewrite app_nil_r].
  set (l := List.filter _ s).
  destruct (head (stable_sort newest_first_leb (l ++ [r]))) as [h|] eqn:Eh.
  2: { apply head_None in Eh. pose proof (length_stable_sort newest_first_leb (l ++ [r])) as Hlen.
       rewrite Eh, length_app in Hlen. simpl in Hlen. lia. }
  apply head_stable_sort in Eh as [Hin Hnew].
  apply elem_of_app in Hin as [Hin|Hin%list_elem_of_singleton]; [left|right; by f_equal].
  destruct (head (stable_sort newest_first_leb l)) as [h0|] eqn:Eh0.
  2: { apply head_None in Eh0. pose proof (elem_of_stable_sort newest_first_leb h l) as Hel.
       rewrite Eh0 in Hel. apply Hel in Hin. by apply not_elem_of_nil in Hin. }
  apply head_stable_sort in Eh0 as [Hin0 Hnew0].
  assert (row_id h = row_id h0) as Heq.
  { specialize (Hnew0 _ Hin). assert (newest_first_leb h h0 = true) as Hn
      by (apply Hnew, elem_of_app; by left).
    apply newest_first_spec in Hnew0, Hn. lia. }
  apply elem_of_filter_bool in Hin as [[i Hi]%list_elem_of_lookup _], Hin0 as [[j Hj]%list_elem_of_lookup _].
  apply (lookup_app_l_Some _ [r]) in Hi, Hj. rewrite (Hid _ _ Hi), (Hid _ _ Hj) in Heq. congruence.
Qed.

Lemma disclose_again m s o s' o' o2 :
  store_ok s → disclose_coverage m s o = (s', ROk o') →
  disclose_coverage m s' o2 = (s', ROk o2).
Proof.
  clear url_host parse_rfc3339 social lifecycle trigger nodes edges.
  intros Hok. unfold disclose_coverage.
  destruct (disclosure_due m (latest_disclosure s)) eqn:Ed; [|intros [= -> _]; by rewrite Ed].
  destruct (legacy_row_publishes_the_same_fact s _ _ _) eqn:El.
  { intros [= -> _]. by rewrite Ed, El. }
  destruct (append_recent_event_on accepts s _ _) as [s1 [b|]] eqn:E; [|done].
  intros Hres. assert (s' = s1) as -> by (destruct b; by simplify_eq). clear Hres.
  destruct b.
  - pose proof (append_store_ok _ _ _ _ _ _ Hok E) as Hok1.
    pose proof (append_again _ _ _ _ _ _ [] E) as Hagain. rewrite app_nil_r in Hagain.
    apply append_cases in E as [[_ ?]|(_ & _ & ->)]; [done|].
    destruct (latest_append _ _ Hok1) as [-> | ->].
    + rewrite Ed. case_match; [done|]. by rewrite Hagain.
    + assert (disclosure_due m (Some (DbRow (length s) ws token (bind_row (coverage_event m
        (coverage_event_key sha256_hex workspace token m disclosure_bucket
          (disclosure_predecessor (latest_disclosure s)))) false))) = false) as Hd.
      { unfold disclosure_due. simpl. rewrite bool_decide_true by done.
        rewrite Z.sub_diag. done. }
      simpl in Hd |- *. by rewrite Hd.
  - pose proof E as E'. apply append_false in E' as [-> _]. by rewrite Ed, El, E.
Qed.

(** ** Completeness *)

Lemma append_accepted s e :
  (∀ ws e, accepts ws e = true) →
  RecentEvent.anchor_identity e = RecentEvent.chain_qualified_contract e →
  RecentEvent.coverage e = run_coverage (RecentEvent.missing_inputs e) →
  ∃ s' b, append_recent_event_on accepts s ws e = (s', ROk b).
Proof.
  intros Hacc Ha Hc. unfold append_recent_event_on. rewrite (bool_decide_true _ Ha), Hc, Hacc.
  unfold run_coverage. case_bool_decide; simpl; case_match; eauto.
Qed.

Lemma append_candidates_total s cs o :
  (∀ ws e, accepts ws e = true) →
  ∃ s' o', append_candidates missing s cs o = (s', ROk o').
Proof.
  clear url_host parse_rfc3339 social lifecycle trigger nodes edges.
  intros Hacc. revert s o. induction cs as [|c cs IH]; intros s o; cbn [append_candidates]; [eauto|].
  destruct (legacy_row_publishes_the_same_fact _ _ _ _); [apply IH|].
  destruct (append_accepted s (relation_event missing c) Hacc) as (s1 & b & ->); [done..|].
  apply IH.
Qed.

Lemma disclose_total s o :
  (∀ ws e, accepts ws e = true) →
  ∃ s' o', disclose_coverage missing s o = (s', ROk o').
Proof.
  clear url_host parse_rfc3339 social lifecycle trigger nodes edges.
  intros Hacc. unfold disclose_coverage. destruct (disclosure_due _ _); [|eauto].
  destruct (legacy_row_publishes_the_same_fact _ _ _ _); [eauto|].
  edestruct (append_accepted s) as (s1 & b & ->); [done| | |destruct b; eauto]; done.
Qed.

(** A row that discloses the anchor's coverage. *)
Definition discloses (r : db_row) : Prop :=
  row_workspace r = ws ∧ RecentEventRow.anchor_identity (columns r) = token ∧
  is_disclosure r = true.

Lemma latest_disclosure_None s :
  latest_disclosure s = None → ∀ r, r ∈ s → ¬ discloses r.
Proof.
  unfold latest_disclosure. intros Hn%head_None r Hr (Hw & Ha & Hd).
  pose proof (elem_of_stable_sort newest_first_leb r (List.filter (λ r,
    bool_decide (row_workspace r = ws)
    && bool_decide (RecentEventRow.anchor_identity (columns r) = token) && is_disclosure r) s)) as Hel.
  rewrite Hn in Hel. apply (not_elem_of_nil r), Hel, elem_of_filter_bool.
  split; [done|]. by rewrite Hw, Ha, Hd, !bool_decide_true.
Qed.

Lemma latest_disclosure_Some s r :
  latest_disclosure s = Some r → r ∈ s ∧ discloses r.
Proof.
  intros [[Hin Hb]%elem_of_filter_bool _]%head_stable_sort. bool_prop. done.
Qed.

Lemma legacy_discloses s keys id :
  legacy_row_publishes_the_same_fact s ws keys (coverage_event missing id) = true →
  ∃ r, r ∈ s ∧ discloses r.
Proof.
  clear url_host parse_rfc3339 social lifecycle trigger nodes edges.
  unfold legacy_row_publishes_the_same_fact. destruct keys as [|k ks]; [done|].
  intros (e & (r & [Hr Hb]%elem_of_filter_bool & He)%list_elem_of_omap & Hs)%existsb_exists_elem.
  injection He as <-. unfold same_published_fact in Hs.
  destruct (negb _) eqn:Hcore in Hs; [done|]. clear Hs. bool_prop. simpl in *.
  exists r. split; [done|]. split; [done|]. split; [done|]. by apply bool_decide_eq_true.
Qed.

(** The ids of coverage keys belong to disclosures of the anchor. *)
Definition coverage_keys_sound (s : store) : Prop :=
  ∀ r m b p, r ∈ s → row_workspace r = ws →
    db_event_id r = coverage_event_key sha256_hex workspace token m b p → discloses r.

Lemma disclose_leaves_disclosure s o s' o' :
  missing ≠ [] → coverage_keys_sound s →
  disclose_coverage missing s o = (s', ROk o') → ∃ r, r ∈ s' ∧ discloses r.
Proof.
  clear url_host parse_rfc3339 social lifecycle trigger nodes edges.
  intros Hm Hsound Hd. destruct (latest_disclosure s) as [r|] eqn:Hl.
  { apply latest_disclosure_Some in Hl as [Hin Hr]. exists r. split; [|done].
    apply disclose_rows in Hd as [_ [[-> _]|[(new & -> & _) _]]]; [done|].
    apply elem_of_app. by left. }
  revert Hd. unfold disclose_coverage. rewrite Hl.
  assert (disclosure_due missing None = true) as ->.
  { unfold disclosure_due. simpl. by rewrite bool_decide_false. }
  destruct (legacy_row_publishes_the_same_fact _ _ _ _) eqn:El.
  { intros [= <- _]. by eapply legacy_discloses. }
  destruct (append_recent_event_on accepts s _ _) as [s1 [b|]] eqn:E; [|done].
  intros Hres. assert (s' = s1) as -> by (destruct b; by simplify_eq). clear Hres.
  destruct b.
  - apply append_cases in E as [[_ ?]|(_ & _ & ->)]; [done|].
    eexists. split; [apply elem_of_app; right; left|]. by repeat split.
  - apply append_false in E as [-> (r & Hr & Hw & Hid)%has_event_spec].
    exists r. split; [done|]. simpl in Hid. eapply Hsound; [done|done|exact Hid].
Qed.
End pipeline.

(** ** Theorems *)

Section theorems.
Context (sha256_hex : string → string) (url_host : string → option string).
Context (parse_rfc3339 : string → option instant) (accepts : Z → RecentEvent → bool).
Context (social : list social_row) (workspace : WorkspaceScope).
Context (lifecycle : TokenLifecycle) (trigger : option ActivationTrigger).
Context (anchor : ActorExtraction) (nodes : list EntityNode) (edges : list EntityEdge).
Context (now : instant).
Local Abbreviation run :=
  (run_for_anchor sha256_hex url_host parse_rfc3339 accepts social workspace lifecycle trigger
     anchor nodes edges now).

(** Claim C1: A retry publishes nothing.  Running the pipeline again with the
    same inputs on the table an earlier run succeeded on leaves the table as it
    is: every candidate is counted as a duplicate, none as appended, and no
    coverage row is added, whatever digest the keys use. *)
Theorem run_idempotent s s' o :
  store_ok s → run s = (s', ROk o) →
  run s' = (s', ROk (PipelineOutcome.mk (PipelineOutcome.resolved o) 0
                       (PipelineOutcome.resolved o) false false
                       (PipelineOutcome.skipped_not_triggered o))).
Proof.
  intros Hok. unfold run_for_anchor.
  destruct (negb _); [by intros [= <- <-]|].
  set (cs := resolve_candidates_from_store _ _ _ _ _ _ _ _).
  set (o0 := PipelineOutcome.mk (length cs) 0 0 false false false).
  destruct (append_candidates _ _ _ _ _ _ s cs o0) as [s1 [o1|]] eqn:E1; [|done]. intros E2.
  pose proof E1 as (Hok1 & n & _ & -> & Hle)%append_candidates_rows.
  pose proof E2 as (_ & Hd)%disclose_rows.
  assert (∃ t, s' = s1 ++ t ∧ PipelineOutcome.resolved o = length cs ∧
    PipelineOutcome.skipped_not_triggered o = false) as (t & -> & Hr & Hsk).
  { destruct Hd as [[-> Ho]|[(new & -> & _) [_ [= ->]]]].
    - exists []. rewrite app_nil_r. by rewrite (Ho o eq_refl).
    - by exists new. }
  apply append_candidates_again with (t := t) (o2 := o0) in E1 as [_ ->].
  rewrite iter_count_duplicate. simpl.
  rewrite Hr, Hsk. by eapply disclose_again; [apply Hok1|].
Qed.

Lemma run_coverage_full :
  run_coverage (missing_actor_inputs anchor) = Coverage.Full ↔
     is_Some (ActorExtraction.deployer anchor) ∧ is_Some (ActorExtraction.authority anchor) ∧
     is_Some (ActorExtraction.initial_funder anchor).
Proof.
  clear. unfold run_coverage, missing_actor_inputs.
  destruct (ActorExtraction.deployer anchor), (ActorExtraction.authority anchor),
    (ActorExtraction.initial_funder anchor); simpl; split; try done;
    by intros ([? ?] & [? ?] & [? ?]).
Qed.

Lemma run_store_ok s s' res : run s = (s', res) → store_ok s → store_ok s'.
Proof.
  unfold run_for_anchor. destruct (negb _); [by intros [= <- _]|].
  destruct (append_candidates _ _ _ _ _ _ _ _ _) as [s1 [o1|]] eqn:E1.
  - intros E2 Hs. apply append_candidates_rows in E1 as [H1 _].
    apply disclose_rows in E2 as [H2 _]. auto.
  - intros [= <- _] Hs. apply append_candidates_rows in E1 as [H1 _]. auto.
Qed.

Lemma run_rows s s' res :
  run s = (s', res) →
  ∃ new, s' = s ++ new ∧ Forall (published_row workspace anchor now) new ∧
     match res with
     | RErr _ => True
     | ROk o =>
         PipelineOutcome.appended o + PipelineOutcome.duplicates o = PipelineOutcome.resolved o ∧
         length new = PipelineOutcome.appended o +
           (if PipelineOutcome.disclosed_partial_coverage o
               || PipelineOutcome.disclosed_full_coverage o then 1 else 0) ∧
         (PipelineOutcome.disclosed_partial_coverage o = true →
            missing_actor_inputs anchor ≠ []) ∧
         (PipelineOutcome.disclosed_full_coverage o = true →
            missing_actor_inputs anchor = []) ∧
         PipelineOutcome.skipped_not_triggered o = negb (should_trigger_lookup lifecycle trigger)
     end.
Proof.
  unfold run_for_anchor. destruct (should_trigger_lookup lifecycle trigger); cbn [negb].
  2: { intros [= <- <-]. exists []. by rewrite app_nil_r. }
  destruct (append_candidates _ _ _ _ _ _ _ _ _) as [s1 [o1|]] eqn:E1.
  2: { intros [= <- <-]. apply append_candidates_rows in E1 as (_ & n & (t & -> & _ & Hp) & _). eauto. }
  intros E2. apply append_candidates_rows in E1 as (_ & n & (t & -> & Hn & Hp) & -> & Hle).
  apply disclose_rows in E2 as [_ [[-> Ho]|[(t2 & -> & Hn2 & Hp2) [_ ->]]]]; simpl in *.
  - exists t. split; [done|]. split; [done|]. destruct res as [o|]; [|done].
    rewrite (Ho o eq_refl). simpl. split_and!; try done; lia.
  - exists (t ++ t2). rewrite app_assoc. split; [done|]. split; [by apply Forall_app|].
    rewrite length_app, Hn2. case_bool_decide; simpl; split_and!; try done; lia.
Qed.

(** What a run publishes.  On success and on error alike the table
    only grows, keeps its unique index, and every new row is in the run's
    workspace, anchored on the run's token, confirmed, stamped with the run's
    time, and honest about coverage: it carries exactly the absent actor inputs
    and claims [full] coverage exactly when none is absent.  On success the
    counts account for every resolved candidate and every new row; without an
    allowed trigger nothing is resolved or written. *)
Theorem run_publishes s s' res :
  run s = (s', res) →
  (store_ok s → store_ok s') ∧
  (∃ new, s' = s ++ new ∧
     Forall (published_row workspace anchor now) new ∧
     match res with
     | RErr _ => True
     | ROk o =>
         PipelineOutcome.appended o + PipelineOutcome.duplicates o = PipelineOutcome.resolved o ∧
         length new = PipelineOutcome.appended o +
           (if PipelineOutcome.disclosed_partial_coverage o
               || PipelineOutcome.disclosed_full_coverage o then 1 else 0) ∧
         (PipelineOutcome.disclosed_partial_coverage o = true →
            missing_actor_inputs anchor ≠ []) ∧
         (PipelineOutcome.disclosed_full_coverage o = true →
            missing_actor_inputs anchor = []) ∧
         PipelineOutcome.skipped_not_triggered o = negb (should_trigger_lookup lifecycle trigger)
     end) ∧
  (should_trigger_lookup lifecycle trigger = false → s' = s) ∧
  (run_coverage (missing_actor_inputs anchor) = Coverage.Full ↔
     is_Some (ActorExtraction.deployer anchor) ∧ is_Some (ActorExtraction.authority anchor) ∧
     is_Some (ActorExtraction.initial_funder anchor)).
Proof.
  intros Hrun. split; [|split; [|split; [|apply run_coverage_full]]].
  - by eapply run_store_ok.
  - by apply run_rows.
  - intros Hf. unfold run_for_anchor in Hrun. rewrite Hf in Hrun. by injection Hrun.
Qed.

(** The pipeline never trips over its own guards.  When the database
    accepts its rows, a run always succeeds: no row it builds is refused for an
    anchor that differs from its contract, or for claiming full coverage with
    inputs missing. *)
Theorem run_total s :
  (∀ w e, accepts w e = true) → ∃ s' o, run s = (s', ROk o).
Proof.
  intros Hacc. unfold run_for_anchor. destruct (negb _); [eauto|].
  destruct (append_candidates_total sha256_hex accepts workspace anchor now s
    (resolve_candidates_from_store url_host parse_rfc3339 social (WorkspaceScope.id workspace)
       anchor nodes edges (timestamp now))
    (PipelineOutcome.mk (length (resolve_candidates_from_store url_host parse_rfc3339 social
       (WorkspaceScope.id workspace) anchor nodes edges (timestamp now))) 0 0 false false false)
    Hacc) as (s1 & o1 & ->).
  by apply disclose_total.
Qed.

(** A gap is never silent.  After a successful triggered run with an
    actor input missing, the workspace holds a coverage disclosure of the token,
    so an empty relation list cannot be read as a checked absence; it is assumed
    that the rows already stored use coverage keys for disclosures only. *)
Theorem run_discloses_gap s s' o :
  should_trigger_lookup lifecycle trigger = true →
  missing_actor_inputs anchor ≠ [] →
  coverage_keys_sound sha256_hex workspace anchor s →
  run s = (s', ROk o) →
  ∃ r, r ∈ s' ∧ discloses workspace anchor r.
Proof.
  intros Ht Hm Hsound. unfold run_for_anchor. rewrite Ht. simpl.
  destruct (append_candidates _ _ _ _ _ _ _ _ _) as [s1 [o1|]] eqn:E1; [|done]. intros E2.
  apply append_candidates_rows in E1 as (_ & n & (t & -> & _ & Hp) & _).
  eapply disclose_leaves_disclosure; [done| |exact E2].
  intros r m b p Hr Hw Hid. apply elem_of_app in Hr as [Hr|Hr]; [by eapply Hsound|].
  rewrite Forall_forall in Hp. destruct (Hp r Hr) as (_ & _ & Ha & _ & _ & _ & _ & _ & Hk).
  split; [done|]. split; [done|]. destruct Hk as [[_ [d Hd]]|[? _]]; [|done].
  rewrite Hid in Hd. discriminate Hd.
Qed.
End theorems.

(** ** A concrete run *)

Definition sample_social : list social_row := [SocialRow 7 "X" "acct1" (Some "alice") []].

Definition sample_run (s : store) : store * result PipelineOutcome :=
  run_for_anchor toy_digest no_url jan_2026 (λ _ _, true) sample_social (WorkspaceScope.mk 7)
    TokenLifecycle.Active (Some ActivationTrigger.CredibleCaller) sample_anchor sample_nodes
    sample_edges (1800000000 * 10 ^ 9)%Z s.

Definition sample_first_run : store * result PipelineOutcome := Eval vm_compute in sample_run [].

Lemma store_ok_nil : store_ok [].
Proof. split; [constructor|done]. Qed.

Lemma run_idempotent_witness :
  sample_run sample_first_run.1 =
  (sample_first_run.1, ROk (PipelineOutcome.mk 2 0 2 false false false)).
Proof.
  apply (run_idempotent _ _ _ _ _ _ _ _ _ _ _ _ [] sample_first_run.1
    (PipelineOutcome.mk 2 2 0 true false false)); [apply store_ok_nil|by vm_compute].
Defined.

Lemma run_publishes_witness :
  length sample_first_run.1 = 3 ∧ store_ok sample_first_run.1.
Proof.
  split; [by vm_compute|].
  apply (run_publishes toy_digest no_url jan_2026 (λ _ _, true) sample_social (WorkspaceScope.mk 7)
    TokenLifecycle.Active (Some ActivationTrigger.CredibleCaller) sample_anchor sample_nodes
    sample_edges (1800000000 * 10 ^ 9)%Z [] sample_first_run.1
    (ROk (PipelineOutcome.mk 2 2 0 true false false))); [by vm_compute|apply store_ok_nil].
Defined.

Lemma run_total_witness : ∃ s' o, sample_run [] = (s', ROk o).
Proof. apply run_total. done. Defined.

Lemma run_discloses_gap_witness :
  ∃ r, r ∈ sample_first_run.1 ∧ discloses (WorkspaceScope.mk 7) sample_anchor r.
Proof.
  apply (run_discloses_gap toy_digest no_url jan_2026 (λ _ _, true) sample_social
    (WorkspaceScope.mk 7) TokenLifecycle.Active (Some ActivationTrigger.CredibleCaller)
    sample_anchor sample_nodes sample_edges (1800000000 * 10 ^ 9)%Z [] sample_first_run.1
    (PipelineOutcome.mk 2 2 0 true false false)); [done|done| |by vm_compute].
  intros r m b p Hr. by apply not_elem_of_nil in Hr.
Defined.
