(* ===== verification/Floats.v ===== *)
(** * binary64

    The [f64] operations the program uses, on the Standard Library's
    executable IEEE 754 specification (precision 53, maximal exponent 1024,
    round to nearest even): literals, arithmetic, [round], [max], the
    saturating [as u64] cast; and the order, shown to be the lexicographic
    order of (class, exponent, mantissa), from which transitivity and the
    failure of every comparison with NaN follow. *)
From S2P Require Import Prelude.
From Stdlib Require Export SpecFloat.
From stdpp Require Import options.
Local Open Scope Z_scope.

Definition f64 : Type := spec_float.

(** An integer literal, rounded to the format. *)
Definition f64_of_Z (z : Z) : f64 := binary_normalize 53 1024 z 0 false.
Definition f64_add : f64 → f64 → f64 := SFadd 53 1024.
Definition f64_sub : f64 → f64 → f64 := SFsub 53 1024.
Definition f64_mul : f64 → f64 → f64 := SFmul 53 1024.
Definition f64_div : f64 → f64 → f64 := SFdiv 53 1024.
Definition f64_ltb (a b : f64) : bool := SFltb a b.
Definition f64_leb (a b : f64) : bool := SFleb a b.
Definition f64_is_nan (a : f64) : bool := match a with S754_nan => true | _ => false end.

(** [f64::MAX]. *)
Definition f64_MAX : f64 := S754_finite false (2 ^ 53 - 1) 971.

(** A decimal literal [n / d], correctly rounded. *)
Definition f64_lit (n d : Z) : f64 := f64_div (f64_of_Z n) (f64_of_Z d).

(** [f64::max]: a NaN operand is ignored. *)
Definition f64_max (a b : f64) : f64 :=
  if f64_is_nan a then b else if f64_is_nan b then a else
  if f64_ltb a b then b else a.

Definition f64_min (a b : f64) : f64 :=
  if f64_is_nan a then b else if f64_is_nan b then a else
  if f64_ltb b a then b else a.

(** [f64::round]: to the nearest integer, half away from zero. *)
Definition f64_round (a : f64) : f64 :=
  match a with
  | S754_finite s m e =>
      if 0 <=? e then a else
      let q := (Z.pos m + 2 ^ (- e - 1)) / 2 ^ (- e) in
      binary_normalize 53 1024 (if s then - q else q) 0 s
  | _ => a
  end.

(** The integer part. *)
Definition f64_trunc (s : bool) (m : positive) (e : Z) : Z :=
  let q := if 0 <=? e then Z.pos m * 2 ^ e else Z.pos m / 2 ^ (- e) in
  if s then - q else q.

(** [x as u64]: truncation, saturating at both ends, NaN to zero. *)
Definition f64_as_u64 (a : f64) : Z :=
  match a with
  | S754_nan | S754_zero _ => 0
  | S754_infinity true => 0
  | S754_infinity false => u64_max
  | S754_finite s m e => Z.max 0 (Z.min u64_max (f64_trunc s m e))
  end.

Lemma f64_as_u64_range a : is_u64 (f64_as_u64 a).
Proof.
  unfold is_u64, f64_as_u64, u64_max. destruct a as [[]|[]| |s m e]; lia.
Qed.

(** [x as i32]. *)
Definition f64_as_i32 (a : f64) : Z :=
  match a with
  | S754_nan | S754_zero _ => 0
  | S754_infinity s => if s then - 2 ^ 31 else 2 ^ 31 - 1
  | S754_finite s m e => Z.max (- 2 ^ 31) (Z.min (2 ^ 31 - 1) (f64_trunc s m e))
  end.

(** The value in hundredths, rounded half to even. *)
Definition f64_hundredths (m : positive) (e : Z) : Z :=
  if 0 <=? e then Z.pos m * 2 ^ e * 100 else
  let n := Z.pos m * 100 in
  let q := n / 2 ^ (- e) in
  let r := n mod 2 ^ (- e) in
  match Z.compare (2 * r) (2 ^ (- e)) with
  | Lt => q
  | Gt => q + 1
  | Eq => if Z.even q then q else q + 1
  end.

(** [format!("{:.2}")]. *)
Definition f64_fixed2 (a : f64) : string :=
  let sign (s : bool) : string := if s then "-"%string else ""%string in
  match a with
  | S754_nan => "NaN"
  | S754_infinity s => sign s +:+ "inf"
  | S754_zero s => sign s +:+ "0.00"
  | S754_finite s m e =>
      let h := f64_hundredths m e in
      let cents := h mod 100 in
      sign s +:+ pretty (h / 100) +:+ "." +:+ (if cents <? 10 then "0" else "") +:+ pretty cents
  end.

Example f64_fixed2_095 : f64_fixed2 (f64_lit 95 100) = "0.95"%string. Proof. vm_compute. reflexivity. Qed.

(** ** [Display] *)

(** The quotient of two positive integers, correctly rounded. *)
Definition f64_quotient (p q : Z) : f64 :=
  match p, q with
  | Z.pos p, Z.pos q => SFdiv 53 1024 (S754_finite false p 0) (S754_finite false q 0)
  | _, _ => f64_of_Z 0
  end.

(** The value [d * 10^k], correctly rounded. *)
Definition f64_of_digits (d k : Z) : f64 :=
  if 0 <=? k then f64_quotient (d * 10 ^ k) 1 else f64_quotient d (10 ^ (- k)).

(** [n] decimal digits of [m * 2^e], rounded to nearest, at the exponent [k]
    of the last one. *)
Definition f64_digits_at (m : positive) (e k : Z) : Z :=
  let num := Z.pos m * 2 ^ Z.max 0 e * 10 ^ Z.max 0 (- k) in
  let den := 2 ^ Z.max 0 (- e) * 10 ^ Z.max 0 k in
  (2 * num + den) / (2 * den).

(** The decimal exponent of the first digit of [m * 2^e]. *)
Definition f64_magnitude (m : positive) (e : Z) : Z :=
  let num := Z.pos m * 2 ^ Z.max 0 e in
  let den := 2 ^ Z.max 0 (- e) in
  let guess := (Z.log2 num - Z.log2 den) * 30103 / 100000 in
  let below k := (* 10^k <= num / den *)
    (10 ^ Z.max 0 k * den <=? num * 10 ^ Z.max 0 (- k)) in
  if below (guess + 1) then guess + 1 else if below guess then guess else guess - 1.

#[global] Instance spec_float_eq_dec : EqDecision spec_float.
Proof. solve_decision. Defined.

(** The shortest digits that read back as the value: at most 17. *)
Fixpoint f64_shortest (fuel : nat) (m : positive) (e top : Z) (n : Z) : Z * Z :=
  let k := top - n + 1 in
  let d := f64_digits_at m e k in
  match fuel with
  | O => (d, k)
  | S fuel =>
      if bool_decide (f64_of_digits d k = S754_finite false m e) then (d, k)
      else f64_shortest fuel m e top (n + 1)
  end.

Fixpoint zeros (n : nat) : string := match n with O => "" | S n => "0" +:+ zeros n end.

(** Decimal notation without an exponent. *)
Definition positional (d k : Z) : string :=
  let s := pretty d in
  if 0 <=? k then s +:+ zeros (Z.to_nat k) else
  let places := Z.to_nat (- k) in
  let len := String.length s in
  if (len <=? places)%nat then "0." +:+ zeros (places - len) +:+ s
  else String.substring 0 (len - places) s +:+ "." +:+ String.substring (len - places) places s.

(** [format!("{}")]. *)
Definition f64_display (a : f64) : string :=
  let sign (s : bool) : string := if s then "-"%string else ""%string in
  match a with
  | S754_nan => "NaN"
  | S754_infinity s => sign s +:+ "inf"
  | S754_zero s => sign s +:+ "0"
  | S754_finite s m e =>
      let '(d, k) := f64_shortest 16 m e (f64_magnitude m e) 1 in
      sign s +:+ positional d k
  end.

(** [f64::fract() == 0.0]. *)
Definition f64_is_integral (a : f64) : bool :=
  match a with
  | S754_zero _ => true
  | S754_finite _ m e => (0 <=? e) || (Z.pos m mod 2 ^ (- e) =? 0)
  | _ => false
  end.

(** [x as i64]. *)
Definition f64_as_i64 (a : f64) : Z :=
  match a with
  | S754_nan | S754_zero _ => 0
  | S754_infinity s => if s then i64_min else i64_max
  | S754_finite s m e => Z.max i64_min (Z.min i64_max (f64_trunc s m e))
  end.

Example f64_display_07 : f64_display (f64_lit 7 10) = "0.7"%string. Proof. vm_compute. reflexivity. Qed.
Example f64_display_third : f64_display (f64_lit 1 3) = "0.3333333333333333"%string.
Proof. vm_compute. reflexivity. Qed.
Example f64_display_1e21 : f64_display (f64_of_Z (10 ^ 21)) = "1000000000000000000000"%string.
Proof. vm_compute. reflexivity. Qed.
Example f64_display_small : f64_display (f64_lit 123 100000000) = "0.00000123"%string.
Proof. vm_compute. reflexivity. Qed.
Example f64_display_sum : f64_display (f64_add (f64_lit 1 10) (f64_lit 2 10)) = "0.30000000000000004"%string.
Proof. vm_compute. reflexivity. Qed.

(** ** The order *)

Definition f64_class (a : f64) : Z :=
  match a with
  | S754_infinity true => -2
  | S754_finite true _ _ => -1
  | S754_zero _ | S754_nan => 0
  | S754_finite false _ _ => 1
  | S754_infinity false => 2
  end.

Definition f64_exp (a : f64) : Z :=
  match a with S754_finite s _ e => if s then - e else e | _ => 0 end.

Definition f64_mant (a : f64) : Z :=
  match a with S754_finite s m _ => if s then Z.neg m else Z.pos m | _ => 0 end.

Definition f64_cmp : f64 → f64 → comparison :=
  cmp_then (cmp_by f64_class Z.compare)
    (cmp_then (cmp_by f64_exp Z.compare) (cmp_by f64_mant Z.compare)).

Lemma f64_cmp_ok : cmp_ok f64_cmp.
Proof. unfold f64_cmp. auto with forge. Qed.

Lemma Z_compare_opp a b : Z.compare (- a) (- b) = CompOpp (Z.compare a b).
Proof. rewrite Z.compare_opp. apply Z.compare_antisym. Qed.

(** The comparison of non-NaN values is [f64_cmp]. *)
Lemma SFcompare_cmp a b :
  f64_is_nan a = false → f64_is_nan b = false → SFcompare a b = Some (f64_cmp a b).
Proof.
  unfold f64_cmp, cmp_then, cmp_by.
  destruct a as [sa|sa| |sa ma ea], b as [sb|sb| |sb mb eb]; try done; intros _ _;
    try (by destruct sa); try (by destruct sb); try (by destruct sa, sb).
  destruct sa, sb; simpl; try done.
  rewrite Z_compare_opp. destruct (Z.compare ea eb); simpl; try done.
Qed.

Lemma f64_leb_nan a b : f64_leb a b = true → f64_is_nan a = false ∧ f64_is_nan b = false.
Proof. unfold f64_leb, SFleb, SFcompare. destruct a as [|[]| |[]], b; try done. Qed.

Lemma f64_ltb_nan a b : f64_ltb a b = true → f64_is_nan a = false ∧ f64_is_nan b = false.
Proof. unfold f64_ltb, SFltb, SFcompare. destruct a as [|[]| |[]], b; try done. Qed.

Lemma f64_leb_cmp a b :
  f64_leb a b = true ↔
  f64_is_nan a = false ∧ f64_is_nan b = false ∧ cmp_leb f64_cmp a b = true.
Proof.
  split.
  - intros H. destruct (f64_leb_nan _ _ H) as [Ha Hb]. split; [done|]. split; [done|].
    unfold f64_leb, SFleb in H. rewrite (SFcompare_cmp _ _ Ha Hb) in H.
    unfold cmp_leb. by destruct (f64_cmp a b).
  - intros (Ha & Hb & H). unfold f64_leb, SFleb. rewrite (SFcompare_cmp _ _ Ha Hb).
    unfold cmp_leb in H. by destruct (f64_cmp a b).
Qed.

Lemma f64_ltb_cmp a b :
  f64_ltb a b = true ↔
  f64_is_nan a = false ∧ f64_is_nan b = false ∧ cmp_ltb f64_cmp a b = true.
Proof.
  split.
  - intros H. destruct (f64_ltb_nan _ _ H) as [Ha Hb]. split; [done|]. split; [done|].
    unfold f64_ltb, SFltb in H. rewrite (SFcompare_cmp _ _ Ha Hb) in H.
    unfold cmp_ltb. by destruct (f64_cmp a b).
  - intros (Ha & Hb & H). unfold f64_ltb, SFltb. rewrite (SFcompare_cmp _ _ Ha Hb).
    unfold cmp_ltb in H. by destruct (f64_cmp a b).
Qed.

Lemma f64_leb_trans a b c : f64_leb a b = true → f64_leb b c = true → f64_leb a c = true.
Proof.
  rewrite !f64_leb_cmp. intros (? & ? & H1) (? & ? & H2). split; [done|]. split; [done|].
  eapply cmp_leb_trans; [apply f64_cmp_ok|done|done].
Qed.

Lemma f64_le_lt_trans a b c : f64_leb a b = true → f64_ltb b c = true → f64_ltb a c = true.
Proof.
  rewrite f64_leb_cmp, !f64_ltb_cmp. intros (? & ? & H1) (? & ? & H2).
  split; [done|]. split; [done|]. rewrite cmp_ltb_leb in H2 |- * by apply f64_cmp_ok.
  apply negb_true_iff in H2. apply negb_true_iff.
  destruct (cmp_leb f64_cmp c a) eqn:E; [|done].
  by rewrite (cmp_leb_trans _ f64_cmp_ok _ _ _ E H1) in H2.
Qed.

#[export] Hint Resolve f64_cmp_ok f64_as_u64_range : forge.
