(* ===== verification/Execution.v ===== *)
(** * Intents, execution guards and bounded autonomy
      (src/src/sf/intent.rs, execution.rs, execution_runtime.rs, autonomy.rs,
      autonomy_runtime.rs)

    The immutable-intent state machine and its reservation rule, the kill
    switches, the action parser, the signer checklist, and the single gate
    every autonomous action goes through. *)
From S2P Require Import Prelude Text Floats.
From stdpp Require Import options.
Local Open Scope string_scope.
Local Open Scope list_scope.

(** ** intent.rs *)

Module IntentState.
Inductive IntentState :=
  | Proposed | Approved | Reserved | Built | Simulated | Signed | Submitted
  | Confirmed | FailedSafe | UnknownReconciliation | Cancelled.
#[global] Instance IntentState_eq_dec : EqDecision IntentState.
Proof. solve_decision. Defined.
#[global] Program Instance IntentState_finite : Finite IntentState := {|
  enum := [Proposed; Approved; Reserved; Built; Simulated; Signed; Submitted;
           Confirmed; FailedSafe; UnknownReconciliation; Cancelled] |}.
Next Obligation. by apply (bool_decide_unpack _). Qed.
Next Obligation. by intros []; apply (bool_decide_unpack _). Qed.

Definition can_transition_to (self next : IntentState) : bool :=
  match self, next with
  | Proposed, Approved | Approved, Reserved | Reserved, Built | Built, Simulated
  | Simulated, Signed | Signed, Submitted | Submitted, Confirmed
  | Proposed, Cancelled | Approved, Cancelled
  | Reserved, FailedSafe | Built, FailedSafe | Simulated, FailedSafe
  | Signed, FailedSafe | Submitted, FailedSafe
  | Submitted, UnknownReconciliation | UnknownReconciliation, Confirmed
  | UnknownReconciliation, FailedSafe | UnknownReconciliation, Cancelled => true
  | _, _ => false
  end.

Definition is_terminal (self : IntentState) : bool :=
  match self with Confirmed | FailedSafe | Cancelled => true | _ => false end.
End IntentState.
Abbreviation IntentState := IntentState.IntentState.

Module ReservationAction.
Inductive ReservationAction := Hold | Release.
End ReservationAction.
Abbreviation ReservationAction := ReservationAction.ReservationAction.

Definition reservation_action (to : IntentState) : ReservationAction :=
  match to with
  | IntentState.Confirmed | IntentState.FailedSafe | IntentState.Cancelled =>
      ReservationAction.Release
  | IntentState.UnknownReconciliation => ReservationAction.Hold
  | _ => ReservationAction.Hold
  end.

(** ** execution.rs *)

Module TradeAction.
Inductive TradeAction := Buy | Sell | PartialSell | Close | EmergencyExit.
#[global] Instance TradeAction_eq_dec : EqDecision TradeAction.
Proof. solve_decision. Defined.
End TradeAction.
Abbreviation TradeAction := TradeAction.TradeAction.

Module LpAction.
Inductive LpAction :=
  | OpenPosition | AddLiquidity | ClaimFees | CompoundFees | PartialWithdraw
  | ClosePosition | ReseedPosition | SwapResiduals | EmergencyExit.
#[global] Instance LpAction_eq_dec : EqDecision LpAction.
Proof. solve_decision. Defined.
End LpAction.
Abbreviation LpAction := LpAction.LpAction.

Module Action.
Inductive Action := Trade (a : TradeAction) | Lp (a : LpAction).
#[global] Instance Action_eq_dec : EqDecision Action.
Proof. solve_decision. Defined.
End Action.
Abbreviation Action := Action.Action.

Module KillSwitchScope.
Inductive KillSwitchScope :=
  | Global | Chain | Wallet | Strategy | Protocol | SourceHealth | DailyLoss | SignerLocal.
End KillSwitchScope.
Abbreviation KillSwitchScope := KillSwitchScope.KillSwitchScope.

Module KillSwitchMode.
Inductive KillSwitchMode := Halt | ExitOnly.
#[global] Instance KillSwitchMode_eq_dec : EqDecision KillSwitchMode.
Proof. solve_decision. Defined.
End KillSwitchMode.
Abbreviation KillSwitchMode := KillSwitchMode.KillSwitchMode.

Module KillSwitch.
Record KillSwitch := mk {
  scope : KillSwitchScope;
  scope_key : option string;
  mode : KillSwitchMode;
  active : bool;
}.
End KillSwitch.
Abbreviation KillSwitch := KillSwitch.KillSwitch.

Module SignerPolicy.
Record SignerPolicy := mk {
  chain_id : option string;
  chain_genesis : option string;
  policy_active : bool;
  policy_not_expired : bool;
  policy_not_halted : bool;
  intent_hash_valid : bool;
  nonce_valid : bool;
  router_allowed : bool;
  program_allowed : bool;
  function_selector : option string;
  token_pair_verified : bool;
  recipient_verified : bool;
  max_native_debit : option string;
  max_token_debit : option string;
  min_output : option string;
  slippage_ok : bool;
  price_impact_ok : bool;
  deadline_ok : bool;
  simulation_delta_ok : bool;
  workspace_binding_valid : bool;
  wallet_binding_valid : bool;
  policy_binding_valid : bool;
  idempotency_binding_valid : bool;
  factory_allowed : bool;
  manager_allowed : bool;
  pool_verified : bool;
  authority_verified : bool;
  gas_ok : bool;
  priority_fee_ok : bool;
  tip_ok : bool;
  rent_ok : bool;
  writable_accounts_allowed : bool;
  approvals_bounded : bool;
  instructions_decoded : bool;
  no_unrelated_operations : bool;
}.
End SignerPolicy.
Abbreviation SignerPolicy := SignerPolicy.SignerPolicy.

(** ** execution_runtime.rs *)

Definition can_transition (current next : IntentState) : bool :=
  IntentState.can_transition_to current next.

Definition is_halted (switches : list KillSwitch) : bool := existsb KillSwitch.active switches.

Definition is_risk_reducing (action : TradeAction) : bool :=
  match action with
  | TradeAction.Sell | TradeAction.PartialSell | TradeAction.Close
  | TradeAction.EmergencyExit => true
  | TradeAction.Buy => false
  end.

Definition is_lp_risk_reducing (action : LpAction) : bool :=
  match action with
  | LpAction.ClaimFees | LpAction.PartialWithdraw | LpAction.ClosePosition
  | LpAction.SwapResiduals | LpAction.EmergencyExit => true
  | _ => false
  end.

Definition action_permitted (switches : list KillSwitch) (action : TradeAction) : bool :=
  let active := List.filter KillSwitch.active switches in
  match active with
  | [] => true
  | _ =>
      let has_halt :=
        existsb (λ s, bool_decide (KillSwitch.mode s = KillSwitchMode.Halt)) active in
      if has_halt then false else is_risk_reducing action
  end.

Definition parse_action (s : string) : option Action :=
  let one_of names := contains s names in
  if one_of ["buy"; "Buy"; "BUY"] then Some (Action.Trade TradeAction.Buy) else
  if one_of ["sell"; "Sell"; "SELL"] then Some (Action.Trade TradeAction.Sell) else
  if one_of ["partial_sell"; "PartialSell"; "PARTIAL_SELL"]
  then Some (Action.Trade TradeAction.PartialSell) else
  if one_of ["close"; "Close"; "CLOSE"] then Some (Action.Trade TradeAction.Close) else
  if one_of ["emergency_exit"; "EmergencyExit"; "EMERGENCY_EXIT"]
  then Some (Action.Trade TradeAction.EmergencyExit) else
  if one_of ["lp_emergency_exit"; "LpEmergencyExit"; "LP_EMERGENCY_EXIT"]
  then Some (Action.Lp LpAction.EmergencyExit) else
  if one_of ["open_position"; "OpenPosition"; "OPEN_POSITION"]
  then Some (Action.Lp LpAction.OpenPosition) else
  if one_of ["add_liquidity"; "AddLiquidity"; "ADD_LIQUIDITY"]
  then Some (Action.Lp LpAction.AddLiquidity) else
  if one_of ["claim_fees"; "ClaimFees"; "CLAIM_FEES"] then Some (Action.Lp LpAction.ClaimFees) else
  if one_of ["compound_fees"; "CompoundFees"; "COMPOUND_FEES"]
  then Some (Action.Lp LpAction.CompoundFees) else
  if one_of ["partial_withdraw"; "PartialWithdraw"; "PARTIAL_WITHDRAW"]
  then Some (Action.Lp LpAction.PartialWithdraw) else
  if one_of ["close_position"; "ClosePosition"; "CLOSE_POSITION"]
  then Some (Action.Lp LpAction.ClosePosition) else
  if one_of ["reseed_position"; "ReseedPosition"; "RESEED_POSITION"]
  then Some (Action.Lp LpAction.ReseedPosition) else
  if one_of ["swap_residuals"; "SwapResiduals"; "SWAP_RESIDUALS"]
  then Some (Action.Lp LpAction.SwapResiduals) else None.

(** The closure [non_empty]. *)
Definition non_empty (s : option string) : bool :=
  match s with Some v => negb (blank v) | None => false end.

Definition signer_policy_passes (p : SignerPolicy) : bool :=
  non_empty (SignerPolicy.chain_id p)
  && non_empty (SignerPolicy.chain_genesis p)
  && non_empty (SignerPolicy.function_selector p)
  && non_empty (SignerPolicy.max_native_debit p)
  && non_empty (SignerPolicy.max_token_debit p)
  && non_empty (SignerPolicy.min_output p)
  && SignerPolicy.policy_active p
  && SignerPolicy.policy_not_expired p
  && SignerPolicy.policy_not_halted p
  && SignerPolicy.intent_hash_valid p
  && SignerPolicy.nonce_valid p
  && SignerPolicy.router_allowed p
  && SignerPolicy.program_allowed p
  && SignerPolicy.token_pair_verified p
  && SignerPolicy.recipient_verified p
  && SignerPolicy.slippage_ok p
  && SignerPolicy.price_impact_ok p
  && SignerPolicy.deadline_ok p
  && SignerPolicy.simulation_delta_ok p
  && SignerPolicy.workspace_binding_valid p
  && SignerPolicy.wallet_binding_valid p
  && SignerPolicy.policy_binding_valid p
  && SignerPolicy.idempotency_binding_valid p
  && SignerPolicy.factory_allowed p
  && SignerPolicy.manager_allowed p
  && SignerPolicy.pool_verified p
  && SignerPolicy.authority_verified p
  && SignerPolicy.gas_ok p
  && SignerPolicy.priority_fee_ok p
  && SignerPolicy.tip_ok p
  && SignerPolicy.rent_ok p
  && SignerPolicy.writable_accounts_allowed p
  && SignerPolicy.approvals_bounded p
  && SignerPolicy.instructions_decoded p
  && SignerPolicy.no_unrelated_operations p.

(** ** autonomy.rs *)

Module TradingMode.
Inductive TradingMode := ReadOnly | Shadow | Paper | ConfirmEach | AutoBounded | Paused | Halted.
#[global] Instance TradingMode_eq_dec : EqDecision TradingMode.
Proof. solve_decision. Defined.
End TradingMode.
Abbreviation TradingMode := TradingMode.TradingMode.

Module RolloutThresholds.
Record RolloutThresholds := mk {
  min_forward_sample : Z;
  forward_horizon_days : Z;
  max_drawdown_pct : f64;
  ci_lower_bound : f64;
  requires_human_approval : bool;
}.

Definition default : RolloutThresholds := mk 30 14 (f64_of_Z (-10)) (S754_zero false) true.
End RolloutThresholds.
Abbreviation RolloutThresholds := RolloutThresholds.RolloutThresholds.

Module AutonomyGuard.
Record AutonomyGuard := mk {
  thresholds : RolloutThresholds;
  forward_sample : Z;
  forward_horizon_days : Z;
  current_drawdown_pct : f64;
  ci_lower_bound : f64;
  evidence_refs : list string;
  human_approved : bool;
}.

Definition can_raise_limit (self : AutonomyGuard) : bool :=
  RolloutThresholds.requires_human_approval (thresholds self)
  && human_approved self
  && (RolloutThresholds.min_forward_sample (thresholds self) <=? forward_sample self)%Z
  && (RolloutThresholds.forward_horizon_days (thresholds self) <=? forward_horizon_days self)%Z
  && f64_leb (RolloutThresholds.max_drawdown_pct (thresholds self)) (current_drawdown_pct self)
  && f64_ltb (RolloutThresholds.ci_lower_bound (thresholds self)) (ci_lower_bound self).
End AutonomyGuard.
Abbreviation AutonomyGuard := AutonomyGuard.AutonomyGuard.

Module RolloutPhase.
Inductive RolloutPhase :=
  | Shadow | Paper | ConfirmEach | AutoBoundedClaimClose | AutoBoundedOpenReseed | Advanced.
(** The derived [Ord]: the declaration order. *)
Definition order (p : RolloutPhase) : nat :=
  match p with
  | Shadow => 0 | Paper => 1 | ConfirmEach => 2 | AutoBoundedClaimClose => 3
  | AutoBoundedOpenReseed => 4 | Advanced => 5
  end.
End RolloutPhase.
Abbreviation RolloutPhase := RolloutPhase.RolloutPhase.

Module AutonomousCycle.
Record AutonomousCycle := mk {
  mode : TradingMode;
  phase : RolloutPhase;
  guard : AutonomyGuard;
  canary : bool;
  max_notional : option string;
}.
End AutonomousCycle.
Abbreviation AutonomousCycle := AutonomousCycle.AutonomousCycle.

(** ** autonomy_runtime.rs *)

Definition is_autonomous (mode : TradingMode) : bool :=
  bool_decide (mode = TradingMode.AutoBounded).

Definition can_open (phase : RolloutPhase) : bool :=
  match phase with
  | RolloutPhase.AutoBoundedOpenReseed | RolloutPhase.Advanced => true
  | _ => false
  end.

Definition can_claim_close (phase : RolloutPhase) : bool :=
  match phase with
  | RolloutPhase.AutoBoundedClaimClose | RolloutPhase.AutoBoundedOpenReseed
  | RolloutPhase.Advanced => true
  | _ => false
  end.

Module ActionMaturity.
Inductive ActionMaturity := ClaimClose | Open.
End ActionMaturity.
Abbreviation ActionMaturity := ActionMaturity.ActionMaturity.

Definition classify_action (action : Action) : option ActionMaturity :=
  match action with
  | Action.Lp LpAction.ClaimFees | Action.Lp LpAction.ClosePosition
  | Action.Lp LpAction.PartialWithdraw | Action.Lp LpAction.SwapResiduals
  | Action.Lp LpAction.EmergencyExit | Action.Trade TradeAction.Sell
  | Action.Trade TradeAction.PartialSell | Action.Trade TradeAction.Close
  | Action.Trade TradeAction.EmergencyExit => Some ActionMaturity.ClaimClose
  | Action.Lp LpAction.OpenPosition | Action.Lp LpAction.ReseedPosition
  | Action.Lp LpAction.AddLiquidity | Action.Lp LpAction.CompoundFees
  | Action.Trade TradeAction.Buy => Some ActionMaturity.Open
  end.

Definition thresholds_sane (t : RolloutThresholds) : bool :=
  (30 <=? RolloutThresholds.min_forward_sample t)%Z
  && (14 <=? RolloutThresholds.forward_horizon_days t)%Z
  && f64_leb (f64_of_Z (-10)) (RolloutThresholds.max_drawdown_pct t)
  && f64_ltb (RolloutThresholds.max_drawdown_pct t) (S754_zero false)
  && f64_leb (S754_zero false) (RolloutThresholds.ci_lower_bound t)
  && RolloutThresholds.requires_human_approval t.

Definition autonomous_action_permitted (mode : TradingMode) (phase : RolloutPhase)
    (action : Action) (canary : bool) (guard : AutonomyGuard) : bool :=
  if negb (is_autonomous mode) then false else
  if negb canary then false else
  if negb (thresholds_sane (AutonomyGuard.thresholds guard)) then false else
  match classify_action action with
  | None => false
  | Some maturity =>
      let phase_ok :=
        match maturity with
        | ActionMaturity.Open => can_open phase
        | ActionMaturity.ClaimClose => can_claim_close phase
        end in
      phase_ok && negb (bool_decide (AutonomyGuard.evidence_refs guard = []))
        && AutonomyGuard.can_raise_limit guard
  end.

Definition limit_raise_permitted (phase : RolloutPhase) (guard : AutonomyGuard) : bool :=
  autonomous_action_permitted TradingMode.AutoBounded phase (Action.Lp LpAction.ClaimFees)
    true guard.

Definition cycle_ready (cycle : AutonomousCycle) : bool :=
  autonomous_action_permitted (AutonomousCycle.mode cycle) (AutonomousCycle.phase cycle)
    (Action.Lp LpAction.ClaimFees) (AutonomousCycle.canary cycle) (AutonomousCycle.guard cycle).

(** ** Specification vocabulary *)

(** A run of an intent: the states entered after [s], ending in [t]. *)
Inductive path : IntentState → list IntentState → IntentState → Prop :=
  | path_nil s : path s [] s
  | path_cons s u l t :
      can_transition s u = true → path u l t → path s (u :: l) t.

(** The stage of a state; every transition moves to a later one. *)
Definition stage (s : IntentState) : nat :=
  match s with
  | IntentState.Proposed => 0 | IntentState.Approved => 1 | IntentState.Reserved => 2
  | IntentState.Built => 3 | IntentState.Simulated => 4 | IntentState.Signed => 5
  | IntentState.Submitted => 6 | IntentState.UnknownReconciliation => 7
  | IntentState.Confirmed | IntentState.FailedSafe | IntentState.Cancelled => 8
  end.

Lemma transition_stage s t : can_transition s t = true → stage s < stage t.
Proof. destruct s, t; simpl; try done; lia. Qed.

Lemma path_stage s l t : path s l t → ∀ u, u ∈ l → stage s < stage u.
Proof.
  induction 1 as [s|s u l t Hs Hp IH]; intros v Hv; [by apply not_elem_of_nil in Hv|].
  apply transition_stage in Hs. apply elem_of_cons in Hv as [->|Hv]; [done|].
  specialize (IH v Hv). lia.
Qed.

Lemma path_NoDup s l t : path s l t → NoDup (s :: l).
Proof.
  induction 1 as [s|s u l t Hs Hp IH]; [apply NoDup_singleton|].
  constructor; [|done]. intros Hin.
  assert (stage s < stage s); [|lia]. by apply (path_stage s (u :: l) t (path_cons _ _ _ _ Hs Hp)).
Qed.

Lemma path_length s l t : path s l t → length l + stage s <= 8.
Proof.
  induction 1 as [s|s u l t Hs Hp IH]; simpl; [destruct s; simpl; lia|].
  apply transition_stage in Hs. lia.
Qed.

Lemma path_confirmed l :
  path IntentState.Proposed l IntentState.Confirmed →
  ∃ tail, l = [IntentState.Approved; IntentState.Reserved; IntentState.Built;
               IntentState.Simulated; IntentState.Signed; IntentState.Submitted] ++ tail ∧
    (tail = [IntentState.Confirmed] ∨
     tail = [IntentState.UnknownReconciliation; IntentState.Confirmed]).
Proof.
  intros H.
  repeat match goal with
  | H : path ?s _ IntentState.Confirmed |- _ =>
      inversion H; subst; clear H;
      try match goal with
      | Hs : can_transition _ ?u = true |- _ => destruct u; try discriminate Hs; clear Hs
      end
  end;
  first [exists [IntentState.Confirmed]; by split; [|left]
        |exists [IntentState.UnknownReconciliation; IntentState.Confirmed]; by split; [|right]].
Qed.

(** ** Theorems *)

(** Claim C3: The intent state machine.  Every run visits each state at most
    once and makes at most eight transitions, so every intent ends; a state is
    terminal exactly when nothing follows it; an intent is confirmed only after
    approval, reservation, building, simulation, signing and submission in that
    order; nothing is submitted again once reconciliation is unknown; capital
    is released in exactly the terminal states. *)
Theorem intent_machine_safe s l t :
  path s l t →
  NoDup (s :: l) ∧ length l <= 8 ∧
  (IntentState.is_terminal t = true ↔ ∀ u, can_transition t u = false) ∧
  (s = IntentState.Proposed → t = IntentState.Confirmed →
   ∃ tail, l = [IntentState.Approved; IntentState.Reserved; IntentState.Built;
                IntentState.Simulated; IntentState.Signed; IntentState.Submitted] ++ tail ∧
     (tail = [IntentState.Confirmed] ∨
      tail = [IntentState.UnknownReconciliation; IntentState.Confirmed])) ∧
  (s = IntentState.UnknownReconciliation → IntentState.Submitted ∉ l) ∧
  (reservation_action t = ReservationAction.Release ↔ IntentState.is_terminal t = true).
Proof.
  intros Hp. split_and!.
  - by eapply path_NoDup.
  - apply path_length in Hp. lia.
  - split; [by destruct t; intros Ht []|]. intros H. destruct t; try done; exfalso.
    + by specialize (H IntentState.Approved).
    + by specialize (H IntentState.Reserved).
    + by specialize (H IntentState.Built).
    + by specialize (H IntentState.Simulated).
    + by specialize (H IntentState.Signed).
    + by specialize (H IntentState.Submitted).
    + by specialize (H IntentState.Confirmed).
    + by specialize (H IntentState.Confirmed).
  - intros -> ->. by apply path_confirmed.
  - intros -> Hin. apply (path_stage _ _ _ Hp) in Hin. simpl in Hin. lia.
  - by destruct t.
Qed.

Lemma intent_machine_safe_witness :
  NoDup [IntentState.UnknownReconciliation; IntentState.FailedSafe].
Proof.
  apply (intent_machine_safe IntentState.UnknownReconciliation [IntentState.FailedSafe]
    IntentState.FailedSafe).
  by repeat econstructor.
Defined.

(** Kill switches fail closed.  With no active switch everything is
    permitted; with an active halt nothing is; with only exit-only switches
    active everything but buying is; the order of the switches does
    not matter, inactive ones do not count, and adding switches never permits
    more. *)
Theorem kill_switches_fail_closed switches action :
  (action_permitted switches action = true ↔
     ∀ s, s ∈ switches → KillSwitch.active s = true →
       KillSwitch.mode s = KillSwitchMode.ExitOnly ∧ action ≠ TradeAction.Buy) ∧
  (is_halted switches = false → action_permitted switches action = true) ∧
  ∀ more, action_permitted (switches ++ more) action = true →
    action_permitted switches action = true.
Proof.
  assert (∀ sw, action_permitted sw action = true ↔
    ∀ s, s ∈ sw → KillSwitch.active s = true →
       KillSwitch.mode s = KillSwitchMode.ExitOnly ∧ action ≠ TradeAction.Buy) as Hspec.
  { clear. intros sw.
    assert (is_risk_reducing action = true ↔ action ≠ TradeAction.Buy) as Hrr by by destruct action.
    setoid_rewrite <-Hrr. clear Hrr.
    assert (∀ s, s ∈ List.filter KillSwitch.active sw ↔ s ∈ sw ∧ KillSwitch.active s = true) as Hf.
    { intros s. by rewrite list_elem_of_In, filter_In, <-list_elem_of_In. }
    unfold action_permitted.
    destruct (List.filter KillSwitch.active sw) as [|s0 l] eqn:E.
    { split; [|done]. intros _ s Hs Ha. exfalso. by apply (not_elem_of_nil s), Hf. }
    destruct (existsb _ (s0 :: l)) eqn:Eh.
    - split; [done|]. intros H. apply existsb_exists_elem in Eh as (s & Hs & Hm).
      apply bool_decide_eq_true in Hm. apply Hf in Hs as [??]. destruct (H s) as [Hm' _]; congruence.
    - rewrite existsb_false_elem in Eh. split.
      + intros Hr s Hs Ha. split; [|done]. specialize (Eh s (proj2 (Hf s) (conj Hs Ha))).
        apply bool_decide_eq_false in Eh. by destruct (KillSwitch.mode s).
      + intros H. destruct (proj1 (Hf s0) ltac:(left)) as [??]. by apply (H s0). }
  split; [apply Hspec|split].
  - intros Hh. apply Hspec. intros s Hs Ha. unfold is_halted in Hh.
    rewrite existsb_false_elem in Hh. rewrite Hh in Ha; done.
  - intros more. rewrite !Hspec. intros H s Hs. apply H, elem_of_app. by left.
Qed.

Lemma kill_switches_fail_closed_witness :
  action_permitted [KillSwitch.mk KillSwitchScope.Global None KillSwitchMode.ExitOnly true]
    TradeAction.Sell = true.
Proof.
  apply (proj2 (proj2 (kill_switches_fail_closed
    [KillSwitch.mk KillSwitchScope.Global None KillSwitchMode.ExitOnly true] TradeAction.Sell))
    [KillSwitch.mk KillSwitchScope.Chain None KillSwitchMode.Halt false]).
  by vm_compute.
Defined.

(** The three accepted spellings of an action. *)
Definition spellings (a : Action) : list string :=
  match a with
  | Action.Trade TradeAction.Buy => ["buy"; "Buy"; "BUY"]
  | Action.Trade TradeAction.Sell => ["sell"; "Sell"; "SELL"]
  | Action.Trade TradeAction.PartialSell => ["partial_sell"; "PartialSell"; "PARTIAL_SELL"]
  | Action.Trade TradeAction.Close => ["close"; "Close"; "CLOSE"]
  | Action.Trade TradeAction.EmergencyExit =>
      ["emergency_exit"; "EmergencyExit"; "EMERGENCY_EXIT"]
  | Action.Lp LpAction.OpenPosition => ["open_position"; "OpenPosition"; "OPEN_POSITION"]
  | Action.Lp LpAction.AddLiquidity => ["add_liquidity"; "AddLiquidity"; "ADD_LIQUIDITY"]
  | Action.Lp LpAction.ClaimFees => ["claim_fees"; "ClaimFees"; "CLAIM_FEES"]
  | Action.Lp LpAction.CompoundFees => ["compound_fees"; "CompoundFees"; "COMPOUND_FEES"]
  | Action.Lp LpAction.PartialWithdraw =>
      ["partial_withdraw"; "PartialWithdraw"; "PARTIAL_WITHDRAW"]
  | Action.Lp LpAction.ClosePosition => ["close_position"; "ClosePosition"; "CLOSE_POSITION"]
  | Action.Lp LpAction.ReseedPosition => ["reseed_position"; "ReseedPosition"; "RESEED_POSITION"]
  | Action.Lp LpAction.SwapResiduals => ["swap_residuals"; "SwapResiduals"; "SWAP_RESIDUALS"]
  | Action.Lp LpAction.EmergencyExit =>
      ["lp_emergency_exit"; "LpEmergencyExit"; "LP_EMERGENCY_EXIT"]
  end.

Lemma parse_spelling a s : s ∈ spellings a → parse_action s = Some a.
Proof.
  destruct a as [[]|[]]; simpl; intros H;
    repeat (apply elem_of_cons in H as [->|H]; [by vm_compute|]); by apply not_elem_of_nil in H.
Qed.

(** The action parser is exact.  A text parses to an action exactly
    when it is one of that action's three spellings; no spelling is shared, so
    the token and LP emergency exits stay distinct, and every other text is
    refused. *)
Theorem parse_action_exact s a : parse_action s = Some a ↔ s ∈ spellings a.
Proof.
  split; [|apply parse_spelling]. unfold parse_action, contains.
  repeat (case_bool_decide as H; [intros [= <-]; exact H|clear H]). done.
Qed.

Lemma f64_zero_finite : f64_leb (S754_zero false) (S754_zero false) = true.
Proof. done. Qed.

(** The actions that add exposure. *)
Definition risk_adding : list Action :=
  [Action.Trade TradeAction.Buy; Action.Lp LpAction.OpenPosition; Action.Lp LpAction.ReseedPosition;
   Action.Lp LpAction.AddLiquidity; Action.Lp LpAction.CompoundFees].

Lemma risk_adding_open action :
  action ∈ risk_adding → classify_action action = Some ActionMaturity.Open.
Proof.
  unfold risk_adding. intros H.
  repeat (apply elem_of_cons in H as [->|H]; [done|]). by apply not_elem_of_nil in H.
Qed.

(** The autonomy gate enforces the frozen minimums.  Whatever the
    thresholds a guard carries, a permitted autonomous action runs in bounded
    mode, as a canary, with reviewed evidence and human approval, at least 30
    forward samples over at least 14 days, a drawdown of at least -10 and a
    confidence bound strictly above zero (a NaN satisfies neither); a
    risk-adding action needs the open rung and a risk-reducing one at least the
    claim/close rung. *)
Theorem autonomy_gate_frozen_minimums mode phase action canary guard :
  autonomous_action_permitted mode phase action canary guard = true →
  mode = TradingMode.AutoBounded ∧ canary = true ∧
  AutonomyGuard.evidence_refs guard ≠ [] ∧ AutonomyGuard.human_approved guard = true ∧
  (30 <= AutonomyGuard.forward_sample guard)%Z ∧
  (14 <= AutonomyGuard.forward_horizon_days guard)%Z ∧
  f64_leb (f64_of_Z (-10)) (AutonomyGuard.current_drawdown_pct guard) = true ∧
  f64_ltb (S754_zero false) (AutonomyGuard.ci_lower_bound guard) = true ∧
  RolloutPhase.order RolloutPhase.AutoBoundedClaimClose <= RolloutPhase.order phase ∧
  (action ∈ risk_adding →
   RolloutPhase.order RolloutPhase.AutoBoundedOpenReseed <= RolloutPhase.order phase).
Proof.
  unfold autonomous_action_permitted, is_autonomous.
  case_bool_decide as Em; [|done]. destruct canary; [|done]. cbn [negb].
  destruct (thresholds_sane (AutonomyGuard.thresholds guard)) eqn:Et; [|done]. cbn [negb].
  unfold thresholds_sane in Et. unfold AutonomyGuard.can_raise_limit. bool_prop.
  destruct (classify_action action) as [mat|] eqn:Ec; [|done]. intros Hb. bool_prop.
  rewrite !Z.leb_le in *. split_and!; try done; try lia.
  - by eapply f64_leb_trans.
  - by eapply f64_le_lt_trans.
  - destruct mat, phase; simpl in *; try done; lia.
  - intros Ha%risk_adding_open. rewrite Ec in Ha. injection Ha as ->.
    destruct phase; simpl in *; try done; lia.
Qed.

Definition passing_guard : AutonomyGuard :=
  AutonomyGuard.mk RolloutThresholds.default 31 15 (f64_of_Z (-5)) (f64_lit 1 10) ["ev"] true.

Lemma autonomy_gate_frozen_minimums_witness :
  (30 <= AutonomyGuard.forward_sample passing_guard)%Z.
Proof.
  apply (autonomy_gate_frozen_minimums TradingMode.AutoBounded RolloutPhase.Advanced
    (Action.Trade TradeAction.Buy) true passing_guard).
  by vm_compute.
Defined.

(** Claim and close mature before open and reseed.  A later rollout
    phase permits everything an earlier one does; wherever a risk-adding action
    is permitted every risk-reducing one is; and a limit raise and a ready cycle
    go through the same gate. *)
Theorem rollout_ladder_monotone mode p q action canary guard :
  RolloutPhase.order p <= RolloutPhase.order q →
  autonomous_action_permitted mode p action canary guard = true →
  autonomous_action_permitted mode q action canary guard = true ∧
  (∀ a, classify_action a = Some ActionMaturity.ClaimClose →
     autonomous_action_permitted mode q a canary guard = true) ∧
  limit_raise_permitted q guard = true ∧
  ∀ notional, cycle_ready (AutonomousCycle.mk mode q guard canary notional) = true.
Proof.
  intros Hpq H.
  assert (∀ a, classify_action a = Some ActionMaturity.ClaimClose ∨ a = action →
    autonomous_action_permitted mode q a canary guard = true) as Hq.
  { unfold autonomous_action_permitted in *.
    destruct (is_autonomous mode); [|done]. destruct canary; [|done].
    destruct (thresholds_sane (AutonomyGuard.thresholds guard)); [|done]. cbn [negb] in *.
    destruct (classify_action action) as [mat|] eqn:Ec; [|done].
    intros a Ha. assert (∃ m, classify_action a = Some m ∧ (m = ActionMaturity.ClaimClose ∨ m = mat))
      as (m & -> & Hm) by (destruct Ha as [->| ->]; eauto).
    bool_prop. apply andb_true_intro. split; [|done]. apply andb_true_intro. split; [|by apply negb_true_iff, bool_decide_eq_false].
    destruct Hm as [->| ->]; destruct mat, p, q; simpl in *; try done; lia. }
  assert (mode = TradingMode.AutoBounded ∧ canary = true) as [-> ->].
  { unfold autonomous_action_permitted, is_autonomous in H.
    case_bool_decide; [|done]. by destruct canary. }
  split_and!; [apply Hq; by right|intros a ?; apply Hq; by left| |intros notional];
    apply Hq; by left.
Qed.

Lemma rollout_ladder_monotone_witness :
  limit_raise_permitted RolloutPhase.Advanced passing_guard = true.
Proof.
  apply (rollout_ladder_monotone TradingMode.AutoBounded RolloutPhase.AutoBoundedClaimClose
    RolloutPhase.Advanced (Action.Trade TradeAction.Sell) true passing_guard).
  - simpl. lia.
  - by vm_compute.
Defined.
