(* ===== verification/Source.v ===== *)
(** * Providers and source health
      (src/src/sf/source.rs, source_health_runtime.rs)

    The eligibility filter, the deterministic ranking and the selection of a
    provider; the source-health state machine and the in-place update of a
    provider's health record. *)
From S2P Require Import Prelude Text Domain Floats.
From stdpp Require Import options.
Local Open Scope Z_scope.

(** ** source.rs *)

Module CapabilityRole.
Inductive CapabilityRole := Mandatory | Vendor | Fallback.
End CapabilityRole.
Abbreviation CapabilityRole := CapabilityRole.CapabilityRole.

Module ProviderHealth.
Record ProviderHealth := mk {
  state : SourceHealthState;
  last_request_at : option string;
  last_event_at : option string;
  last_success_at : option string;
  expected_cadence : option string;
  parser_success_rate : option f64;
  schema_stale : bool;
  consecutive_failures : Z;
}.

Definition default : ProviderHealth :=
  mk SourceHealthState.Silent None None None None None false 0.
End ProviderHealth.
Abbreviation ProviderHealth := ProviderHealth.ProviderHealth.

Module IneligibleReason.
Inductive IneligibleReason :=
  | Disabled | CredentialAuthFailed | Cooldown | CircuitBreakerOpen | HealthDown
  | OutOfQuota | ChainIdInvalid.
End IneligibleReason.
Abbreviation IneligibleReason := IneligibleReason.IneligibleReason.

Module ProviderCandidate.
Record ProviderCandidate := mk {
  source_id : string;
  capability_role : CapabilityRole;
  health_state : SourceHealthState;
  weight : f64;
  latency_ms : option Z;
  cost_per_request : option f64;
  enabled : bool;
  credential_active : bool;
  in_cooldown : bool;
  breaker_open : bool;
  has_quota : bool;
  chain_id_valid : bool;
}.

Definition ineligible_reason (self : ProviderCandidate) : option IneligibleReason :=
  if negb (enabled self) then Some IneligibleReason.Disabled else
  if negb (credential_active self) then Some IneligibleReason.CredentialAuthFailed else
  if in_cooldown self then Some IneligibleReason.Cooldown else
  if breaker_open self then Some IneligibleReason.CircuitBreakerOpen else
  match health_state self with
  | SourceHealthState.Down | SourceHealthState.Disabled => Some IneligibleReason.HealthDown
  | _ =>
      if negb (has_quota self) then Some IneligibleReason.OutOfQuota else
      if negb (chain_id_valid self) then Some IneligibleReason.ChainIdInvalid else None
  end.
End ProviderCandidate.
Abbreviation ProviderCandidate := ProviderCandidate.ProviderCandidate.

Record rank := MkRank {
  role_rank : Z;
  health_key : Z;
  weight_key : Z;
  latency_key : Z;
  cost_key : Z;
  id_key : string;
}.

Definition rank_key (c : ProviderCandidate) : rank :=
  let role_rank :=
    match ProviderCandidate.capability_role c with
    | CapabilityRole.Mandatory => 0
    | CapabilityRole.Vendor => 1
    | CapabilityRole.Fallback => 2
    end in
  let health_rank := SourceHealthState.health_rank (ProviderCandidate.health_state c) in
  let health_key := sat_sub 255 health_rank in
  let weight_key :=
    f64_as_u64 (f64_max (f64_sub (f64_of_Z 1000)
      (f64_round (f64_mul (ProviderCandidate.weight c) (f64_of_Z 1000)))) (S754_zero false)) in
  let latency_key := default u64_max (ProviderCandidate.latency_ms c) in
  let cost_key :=
    f64_as_u64 (f64_mul (default f64_MAX (ProviderCandidate.cost_per_request c))
                  (f64_of_Z 1000000)) in
  MkRank role_rank health_key weight_key latency_key cost_key (ProviderCandidate.source_id c).

(** The derived lexicographic order of the tuple. *)
Definition rank_cmp : rank → rank → comparison :=
  cmp_then (cmp_by role_rank Z.compare)
  (cmp_then (cmp_by health_key Z.compare)
  (cmp_then (cmp_by weight_key Z.compare)
  (cmp_then (cmp_by latency_key Z.compare)
  (cmp_then (cmp_by cost_key Z.compare) (cmp_by id_key String.compare))))).

Definition eligible (c : ProviderCandidate) : bool :=
  match ProviderCandidate.ineligible_reason c with None => true | Some _ => false end.

Definition select_provider (candidates : list ProviderCandidate) : option ProviderCandidate :=
  min_by (cmp_ltb (cmp_by rank_key rank_cmp)) (List.filter eligible candidates).

(** ** source_health_runtime.rs *)

Module HealthSignal.
Record HealthSignal := mk {
  last_success_secs : option Z;
  last_request_secs : option Z;
  expected_cadence_secs : option Z;
  parser_success_rate : option f64;
  schema_stale : bool;
  consecutive_failures : Z;
  disabled : bool;
  now_secs : Z;
}.
End HealthSignal.
Abbreviation HealthSignal := HealthSignal.HealthSignal.

(** The subtraction of two [i64]s wraps in a release build. *)
Definition cadence_ok (signal : HealthSignal) (success : Z) : bool :=
  match HealthSignal.expected_cadence_secs signal with
  | Some c =>
      let delta := wrap_i64 (HealthSignal.now_secs signal - success) in
      (0 <=? delta) && (delta <=? c)
  | None => false
  end.

Definition transition (current : ProviderHealth) (signal : HealthSignal) : SourceHealthState :=
  if HealthSignal.disabled signal then SourceHealthState.Disabled else
  if 3 <=? HealthSignal.consecutive_failures signal then SourceHealthState.Down else
  match HealthSignal.last_success_secs signal with
  | Some success =>
      if cadence_ok signal success && negb (HealthSignal.schema_stale signal) then
        match ProviderHealth.state current with
        | SourceHealthState.Degraded | SourceHealthState.Down | SourceHealthState.Silent =>
            SourceHealthState.Recovering
        | _ => SourceHealthState.Up
        end
      else if HealthSignal.schema_stale signal then SourceHealthState.Degraded
      else SourceHealthState.Silent
  | None =>
      if HealthSignal.schema_stale signal then SourceHealthState.Degraded
      else SourceHealthState.Silent
  end.

Definition apply (health : ProviderHealth) (signal : HealthSignal)
    : ProviderHealth * SourceHealthState :=
  let last_success_at :=
    match HealthSignal.last_success_secs signal with
    | Some s => Some (pretty s)
    | None => ProviderHealth.last_success_at health
    end in
  let last_request_at :=
    match HealthSignal.last_request_secs signal with
    | Some r => Some (pretty r)
    | None => ProviderHealth.last_request_at health
    end in
  let parser_success_rate :=
    match HealthSignal.parser_success_rate signal with
    | Some rate => Some rate
    | None => ProviderHealth.parser_success_rate health
    end in
  let updated state :=
    ProviderHealth.mk state last_request_at (ProviderHealth.last_event_at health)
      last_success_at (ProviderHealth.expected_cadence health) parser_success_rate
      (HealthSignal.schema_stale signal) (HealthSignal.consecutive_failures signal) in
  let next := transition (updated (ProviderHealth.state health)) signal in
  (updated next, next).

(** A sequence of observations. *)
Definition apply_all (health : ProviderHealth) (signals : list HealthSignal) : ProviderHealth :=
  foldl (λ h s, (apply h s).1) health signals.

(** ** Lemmas *)

Lemma rank_cmp_ok : cmp_ok rank_cmp.
Proof. unfold rank_cmp. auto 15 with forge. Qed.

Lemma provider_cmp_ok : cmp_ok (cmp_by rank_key rank_cmp).
Proof. apply cmp_by_ok, rank_cmp_ok. Qed.

#[export] Hint Resolve rank_cmp_ok provider_cmp_ok : forge.

(** Equal ranks are equal source ids. *)
Lemma rank_cmp_Eq_id a b :
  rank_cmp (rank_key a) (rank_key b) = Eq →
  ProviderCandidate.source_id a = ProviderCandidate.source_id b.
Proof.
  unfold rank_cmp. rewrite !cmp_then_Eq. intros (_&_&_&_&_&H). by apply str_compare_eq in H.
Qed.

Lemma select_least l c :
  select_provider l = Some c →
  c ∈ l ∧ eligible c = true ∧
  ∀ d, d ∈ l → eligible d = true → cmp_leb rank_cmp (rank_key c) (rank_key d) = true.
Proof.
  intros H. pose proof (min_by_elem _ _ _ H) as Hin.
  rewrite list_elem_of_In, filter_In, <-list_elem_of_In in Hin.
  destruct Hin as [Hin He]. split; [done|]. split; [done|]. intros d Hd Hed.
  pose proof (min_by_least _ (cmp_ltb_irrefl _ provider_cmp_ok)
    (cmp_ltb_trans _ provider_cmp_ok) (cmp_ltb_weak _ provider_cmp_ok) _ _ d H) as Hl.
  rewrite (cmp_ltb_leb _ provider_cmp_ok) in Hl. apply negb_false_iff in Hl.
  - exact Hl.
  - by rewrite list_elem_of_In, filter_In, <-list_elem_of_In.
Qed.

Lemma select_None l : select_provider l = None ↔ ∀ c, c ∈ l → eligible c = false.
Proof.
  unfold select_provider. rewrite min_by_None. split.
  - intros H c Hc. destruct (eligible c) eqn:E; [|done]. exfalso.
    apply (not_elem_of_nil c). rewrite <-H.
    by rewrite list_elem_of_In, filter_In, <-list_elem_of_In.
  - intros H. destruct (List.filter eligible l) as [|c l'] eqn:E; [done|]. exfalso.
    assert (c ∈ List.filter eligible l) as Hc by (rewrite E; left).
    rewrite list_elem_of_In, filter_In, <-list_elem_of_In in Hc. destruct Hc as [Hc He].
    by rewrite H in He.
Qed.

(** A timely success of an enabled, undrifted, not failing provider. *)
Definition is_healthy (s : HealthSignal) : bool :=
  negb (HealthSignal.disabled s) && negb (3 <=? HealthSignal.consecutive_failures s)
  && (negb (HealthSignal.schema_stale s)
      && match HealthSignal.last_success_secs s with
         | Some t => cadence_ok s t
         | None => false
         end).

Definition is_impaired (h : ProviderHealth) : bool :=
  match ProviderHealth.state h with
  | SourceHealthState.Degraded | SourceHealthState.Down | SourceHealthState.Silent => true
  | _ => false
  end.

Lemma is_healthy_spec s :
  is_healthy s = true ↔
  HealthSignal.disabled s = false ∧ (HealthSignal.consecutive_failures s < 3) ∧
  HealthSignal.schema_stale s = false ∧
  ∃ t c, HealthSignal.last_success_secs s = Some t ∧
    HealthSignal.expected_cadence_secs s = Some c ∧
    0 <= wrap_i64 (HealthSignal.now_secs s - t) <= c.
Proof.
  unfold is_healthy. rewrite !andb_true_iff, !negb_true_iff, Z.leb_gt.
  unfold cadence_ok.
  destruct (HealthSignal.last_success_secs s) as [t|]; [|naive_solver].
  destruct (HealthSignal.expected_cadence_secs s) as [c|]; [|naive_solver].
  rewrite andb_true_iff, !Z.leb_le. naive_solver.
Qed.

Lemma transition_cases h s :
  transition h s =
  if HealthSignal.disabled s then SourceHealthState.Disabled else
  if 3 <=? HealthSignal.consecutive_failures s then SourceHealthState.Down else
  if negb (HealthSignal.schema_stale s)
     && match HealthSignal.last_success_secs s with Some t => cadence_ok s t | None => false end
  then (if is_impaired h then SourceHealthState.Recovering else SourceHealthState.Up)
  else if HealthSignal.schema_stale s then SourceHealthState.Degraded
  else SourceHealthState.Silent.
Proof.
  unfold transition, is_impaired.
  destruct (HealthSignal.last_success_secs s) as [t|]; [destruct (cadence_ok s t)|];
    destruct (HealthSignal.schema_stale s), (ProviderHealth.state h); done.
Qed.

(** ** Theorems *)

(** Provider selection is sound and deterministic.  The chosen
    provider is a listed, eligible one, of least rank among the eligible;
    nothing is chosen exactly when nothing is eligible; and when source ids are
    distinct the choice does not depend on the order of the candidates. *)
Theorem select_provider_deterministic candidates :
  (select_provider candidates = None ↔ ∀ c, c ∈ candidates → eligible c = false) ∧
  (∀ c, select_provider candidates = Some c →
     c ∈ candidates ∧ ProviderCandidate.ineligible_reason c = None ∧
     ∀ d, d ∈ candidates → eligible d = true →
       cmp_leb rank_cmp (rank_key c) (rank_key d) = true) ∧
  (NoDup (ProviderCandidate.source_id <$> candidates) →
   ∀ candidates', candidates' ≡ₚ candidates →
     select_provider candidates' = select_provider candidates).
Proof.
  split; [apply select_None|]. split.
  - intros c (H1 & H2 & H3)%select_least. split; [done|]. split; [|done].
    unfold eligible in H2. by destruct (ProviderCandidate.ineligible_reason c).
  - intros Hnd l' Hp.
    destruct (select_provider l') as [a|] eqn:Ea, (select_provider candidates) as [b|] eqn:Eb.
    + apply select_least in Ea as (Ha & Hea & Hla), Eb as (Hb & Heb & Hlb).
      rewrite Hp in Ha. f_equal.
      assert (rank_cmp (rank_key a) (rank_key b) = Eq) as Heq.
      { assert (b ∈ l') as Hb' by by rewrite Hp.
        specialize (Hla b Hb' Heb). specialize (Hlb a Ha Hea). unfold cmp_leb in *.
        rewrite (cmp_antisym _ rank_cmp_ok (rank_key a)) in Hlb.
        by destruct (rank_cmp (rank_key a) (rank_key b)). }
      apply rank_cmp_Eq_id in Heq.
      apply list_elem_of_lookup in Ha as [i Hi], Hb as [j Hj].
      assert (i = j) as ->; [|congruence].
      eapply NoDup_lookup; [exact Hnd| |].
      * rewrite list_lookup_fmap, Hi. reflexivity.
      * rewrite list_lookup_fmap, Hj. simpl. by rewrite Heq.
    + exfalso. apply select_least in Ea as (Ha & Hea & _). rewrite Hp in Ha.
      rewrite select_None in Eb. by rewrite Eb in Hea.
    + exfalso. apply select_least in Eb as (Hb & Heb & _). rewrite <-Hp in Hb.
      rewrite select_None in Ea. by rewrite Ea in Heb.
    + done.
Qed.

Definition sample_provider (id : string) (role : CapabilityRole) (w : f64) : ProviderCandidate :=
  ProviderCandidate.mk id role SourceHealthState.Up w None None true true false false true true.

Lemma select_provider_deterministic_witness :
  select_provider [sample_provider "b" CapabilityRole.Vendor (f64_lit 1 2);
                   sample_provider "a" CapabilityRole.Mandatory (f64_lit 1 4)] =
  Some (sample_provider "a" CapabilityRole.Mandatory (f64_lit 1 4)).
Proof.
  transitivity (select_provider [sample_provider "a" CapabilityRole.Mandatory (f64_lit 1 4);
    sample_provider "b" CapabilityRole.Vendor (f64_lit 1 2)]); [|by vm_compute].
  apply (select_provider_deterministic [sample_provider "a" CapabilityRole.Mandatory (f64_lit 1 4);
    sample_provider "b" CapabilityRole.Vendor (f64_lit 1 2)]).
  - by apply (bool_decide_unpack _).
  - constructor.
Defined.

(** Connected-but-silent is not healthy.  A transition yields [Up]
    only for an enabled provider with fewer than three failures, no schema
    drift, and a success that is not in the future and no older than the known
    cadence, and only from a state that was not degraded, down or silent; the
    same observation after one of those yields [Recovering]; three failures
    always yield [Down], and the stored state is the returned one. *)
Theorem health_transition_spec h s :
  let next := (apply h s).2 in
  let healthy :=
    HealthSignal.disabled s = false ∧ (HealthSignal.consecutive_failures s < 3) ∧
    HealthSignal.schema_stale s = false ∧
    ∃ t c, HealthSignal.last_success_secs s = Some t ∧
      HealthSignal.expected_cadence_secs s = Some c ∧
      0 <= wrap_i64 (HealthSignal.now_secs s - t) <= c in
  let impaired :=
    ProviderHealth.state h = SourceHealthState.Degraded ∨
    ProviderHealth.state h = SourceHealthState.Down ∨
    ProviderHealth.state h = SourceHealthState.Silent in
  ProviderHealth.state (apply h s).1 = next ∧
  (next = SourceHealthState.Up ↔ healthy ∧ ¬ impaired) ∧
  (next = SourceHealthState.Recovering ↔ healthy ∧ impaired) ∧
  (next = SourceHealthState.Disabled ↔ HealthSignal.disabled s = true) ∧
  (next = SourceHealthState.Down ↔
     HealthSignal.disabled s = false ∧ 3 <= HealthSignal.consecutive_failures s).
Proof.
  intros next healthy impaired.
  assert (healthy ↔ is_healthy s = true) as ->.
  { subst healthy. symmetry. apply is_healthy_spec. }
  assert (impaired ↔ is_impaired h = true) as ->.
  { subst impaired. unfold is_impaired. destruct (ProviderHealth.state h); naive_solver. }
  split; [done|]. subst next. unfold apply. cbn [snd]. rewrite transition_cases.
  match goal with |- context [if is_impaired ?x then _ else _] => change (is_impaired x) with (is_impaired h) end.
  rewrite <-Z.leb_le. unfold is_healthy.
  generalize (match HealthSignal.last_success_secs s with
              | Some t => cadence_ok s t | None => false end). intros timely.
  destruct (HealthSignal.disabled s), (3 <=? HealthSignal.consecutive_failures s), timely,
    (HealthSignal.schema_stale s), (is_impaired h); simpl; naive_solver.
Qed.
