(* ===== verification/Outbox.v ===== *)
(** * The alert outbox (src/src/signals.rs)

    Claiming, completing and failing the delivery of an alert: the fenced
    lease, the attempt cap and the bounded backoff, as transitions of the
    [alerts] table.  A row is keyed by its [dedup_key]; each SQL statement is
    one atomic step at the database clock [now]; the claim token is the
    caller's fresh [pid-uuid] text.  Whether a funding case belongs to a
    workspace is a query of another table, the argument [owns_case]. *)
From S2P Require Import Prelude Text.
From stdpp Require Import options.
Local Open Scope string_scope.
Local Open Scope list_scope.
Local Open Scope Z_scope.

Definition ALERT_MAX_ATTEMPTS : Z := 8.
Definition ALERT_MAX_RETRY_AFTER_SECONDS : Z := 600.
Definition ALERT_CLAIM_LEASE_SECONDS : Z := 120.

(** [make_interval(secs => n)] in the clock's nanoseconds. *)
Definition secs (n : Z) : Z := n * 10 ^ 9.

Definition alert_dedup_key (kind : string) (workspace_id subject_id : Z)
    (destination : string) : string :=
  kind +:+ ":" +:+ pretty workspace_id +:+ ":" +:+ pretty subject_id +:+ ":" +:+ destination.

Module AlertState.
Inductive AlertState := Pending | Sent | Dead.
#[global] Instance AlertState_eq_dec : EqDecision AlertState.
Proof. solve_decision. Defined.
End AlertState.
Abbreviation AlertState := AlertState.AlertState.

Module AlertRow.
Record AlertRow := mk {
  subject_kind : string;
  workspace_id : Z;
  signal_id : option Z;
  funding_case_id : option Z;
  destination : string;
  state : AlertState;
  attempt_count : Z;
  next_attempt_at : option Z;
  claim_token : option string;
  claim_expires_at : option Z;
  sent_at : option Z;
  last_error : option string;
}.
End AlertRow.
Abbreviation AlertRow := AlertRow.AlertRow.

Module AlertClaim.
Record AlertClaim := mk { token : string; attempt : Z }.
End AlertClaim.
Abbreviation AlertClaim := AlertClaim.AlertClaim.

(** The [alerts] table by its unique [dedup_key]. *)
Abbreviation outbox := (gmap string AlertRow).

(** SQL [t <= now()]: not true when [t] is null. *)
Definition due (t : option Z) (now : Z) : bool :=
  match t with Some t => t <=? now | None => false end.

(** No active claim: null or expired. *)
Definition unclaimed (r : AlertRow) (now : Z) : bool :=
  match AlertRow.claim_expires_at r with Some t => t <=? now | None => true end.

(** The cap update: a pending row at the cap without a live claim dies. *)
Definition terminalize_row (now : Z) (r : AlertRow) : AlertRow :=
  if bool_decide (AlertRow.state r = AlertState.Pending)
     && (ALERT_MAX_ATTEMPTS <=? AlertRow.attempt_count r) && unclaimed r now
  then AlertRow.mk (AlertRow.subject_kind r) (AlertRow.workspace_id r) (AlertRow.signal_id r)
         (AlertRow.funding_case_id r) (AlertRow.destination r) AlertState.Dead
         (AlertRow.attempt_count r) None None None (AlertRow.sent_at r) (AlertRow.last_error r)
  else r.

Definition terminalize (now : Z) (key : string) (db : outbox) : outbox :=
  alter (terminalize_row now) key db.

(** The [DO UPDATE .. WHERE] of the claim. *)
Definition reclaimable (r : AlertRow) (now : Z) : bool :=
  bool_decide (AlertRow.state r = AlertState.Pending)
  && due (AlertRow.next_attempt_at r) now
  && unclaimed r now
  && (AlertRow.attempt_count r <? ALERT_MAX_ATTEMPTS).

Definition reclaim_row (now : Z) (token : string) (r : AlertRow) : AlertRow :=
  AlertRow.mk (AlertRow.subject_kind r) (AlertRow.workspace_id r) (AlertRow.signal_id r)
    (AlertRow.funding_case_id r) (AlertRow.destination r) (AlertRow.state r)
    (AlertRow.attempt_count r + 1) (Some (now + secs ALERT_CLAIM_LEASE_SECONDS)) (Some token)
    (Some (now + secs ALERT_CLAIM_LEASE_SECONDS)) (AlertRow.sent_at r) (AlertRow.last_error r).

Definition fresh_row (now : Z) (token kind : string) (workspace_id : Z)
    (signal_id funding_case_id : option Z) (destination : string) : AlertRow :=
  AlertRow.mk kind workspace_id signal_id funding_case_id destination AlertState.Pending 1
    (Some (now + secs ALERT_CLAIM_LEASE_SECONDS)) (Some token)
    (Some (now + secs ALERT_CLAIM_LEASE_SECONDS)) None None.

(** [INSERT .. ON CONFLICT DO UPDATE .. WHERE .. RETURNING attempt_count]. *)
Definition upsert_claim (now : Z) (token kind : string) (workspace_id : Z)
    (signal_id funding_case_id : option Z) (destination key : string) (db : outbox)
    : outbox * option Z :=
  match db !! key with
  | None =>
      (<[key := fresh_row now token kind workspace_id signal_id funding_case_id destination]> db,
       Some 1)
  | Some r =>
      if reclaimable r now
      then (<[key := reclaim_row now token r]> db, Some (AlertRow.attempt_count r + 1))
      else (db, None)
  end.

(** The two subject columns of a kind, at most one set. *)
Definition subject_columns (kind : string) (subject_id : Z) : option (option Z * option Z) :=
  if decide (kind = "signal") then Some (Some subject_id, None) else
  if decide (kind = "funding") then Some (None, Some subject_id) else None.

(** The claim after the cap update: the checks and the claiming statement. *)
Definition claim_statement (owns_case : Z → Z → bool) (db : outbox) (now : Z) (token : string)
    (kind : string) (workspace_id subject_id : Z) (destination : string)
    : outbox * result (option AlertClaim) :=
  let key := alert_dedup_key kind workspace_id subject_id destination in
  match subject_columns kind subject_id with
  | None => (db, RErr ("unknown alert subject kind " +:+ kind))
  | Some (signal_id, funding_case_id) =>
      let owned :=
        match funding_case_id with
        | Some case_id => owns_case case_id workspace_id
        | None => true
        end in
      if negb owned then (db, RErr "funding case is not owned by workspace") else
      let (db, row) :=
        upsert_claim now token kind workspace_id signal_id funding_case_id destination key db in
      (db, ROk ((λ attempt, AlertClaim.mk token attempt) <$> row))
  end.

(** The two statements of the call, each at its own clock; other dispatchers
    may run in between (see [run]). *)
Definition claim_alert (owns_case : Z → Z → bool) (db : outbox) (now0 now : Z) (token : string)
    (kind : string) (workspace_id subject_id : Z) (destination : string)
    : outbox * result (option AlertClaim) :=
  let key := alert_dedup_key kind workspace_id subject_id destination in
  let db := terminalize now0 key db in
  claim_statement owns_case db now token kind workspace_id subject_id destination.

(** [WHERE dedup_key = $1 AND state = 'pending' AND claim_token = $2]. *)
Definition held (r : AlertRow) (claim_token : string) : bool :=
  bool_decide (AlertRow.state r = AlertState.Pending)
  && bool_decide (AlertRow.claim_token r = Some claim_token).

Definition fenced_update (db : outbox) (key claim_token : string) (f : AlertRow → AlertRow)
    : outbox * bool :=
  match db !! key with
  | Some r => if held r claim_token then (<[key := f r]> db, true) else (db, false)
  | None => (db, false)
  end.

Definition sent_row (now : Z) (r : AlertRow) : AlertRow :=
  AlertRow.mk (AlertRow.subject_kind r) (AlertRow.workspace_id r) (AlertRow.signal_id r)
    (AlertRow.funding_case_id r) (AlertRow.destination r) AlertState.Sent
    (AlertRow.attempt_count r) None None None (Some now) None.

Definition mark_alert_sent (db : outbox) (now : Z) (kind : string) (workspace_id subject_id : Z)
    (destination claim_token : string) : outbox * bool :=
  fenced_update db (alert_dedup_key kind workspace_id subject_id destination) claim_token
    (sent_row now).

(** [attempt as u32], the shift, and the two caps. *)
Definition backoff (attempt : Z) (retry_after_seconds : option Z) : Z :=
  match retry_after_seconds with
  | Some s => Z.min s ALERT_MAX_RETRY_AFTER_SECONDS
  | None =>
      let exp := Z.min (wrap_u32 attempt) 6 in
      Z.min (Z.shiftl 60 exp) 3600
  end.

Definition failed_row (now : Z) (error : string) (dead : bool) (backoff_seconds : Z)
    (r : AlertRow) : AlertRow :=
  AlertRow.mk (AlertRow.subject_kind r) (AlertRow.workspace_id r) (AlertRow.signal_id r)
    (AlertRow.funding_case_id r) (AlertRow.destination r)
    (if dead then AlertState.Dead else AlertState.Pending)
    (AlertRow.attempt_count r)
    (if dead then None else Some (now + secs backoff_seconds)) None None (AlertRow.sent_at r)
    (Some error).

Definition mark_alert_failed (db : outbox) (now : Z) (kind : string)
    (workspace_id subject_id : Z) (destination claim_token : string) (attempt : Z)
    (error : string) (permanent : bool) (retry_after_seconds : option Z) : outbox * bool :=
  let dead := permanent || (ALERT_MAX_ATTEMPTS <=? attempt) in
  fenced_update db (alert_dedup_key kind workspace_id subject_id destination) claim_token
    (failed_row now error dead (backoff attempt retry_after_seconds)).

(** ** The outbox as a transition system *)

(** One statement of some dispatcher's call, at its time: the cap update and
    the claim of [claim_alert], and the two completions. *)
Inductive op :=
  | Exhaust (kind : string) (workspace_id subject_id : Z) (destination : string)
  | Claim (token kind : string) (workspace_id subject_id : Z) (destination : string)
  | MarkSent (kind : string) (workspace_id subject_id : Z) (destination claim_token : string)
  | MarkFailed (kind : string) (workspace_id subject_id : Z) (destination claim_token : string)
      (attempt : Z) (error : string) (permanent : bool) (retry_after : option Z).

Definition op_key (o : op) : string :=
  match o with
  | Exhaust k w s d | Claim _ k w s d | MarkSent k w s d _ | MarkFailed k w s d _ _ _ _ _ => alert_dedup_key k w s d
  end.

(** The new table and whether the call took the claim. *)
Definition run_op (owns_case : Z → Z → bool) (db : outbox) (now : Z) (o : op)
    : outbox * bool :=
  match o with
  | Exhaust k w s d => (terminalize now (alert_dedup_key k w s d) db, false)
  | Claim t k w s d =>
      let (db, r) := claim_statement owns_case db now t k w s d in
      (db, match r with ROk (Some _) => true | _ => false end)
  | MarkSent k w s d t => ((mark_alert_sent db now k w s d t).1, false)
  | MarkFailed k w s d t a e p ra => ((mark_alert_failed db now k w s d t a e p ra).1, false)
  end.

Definition count_claim (key : string) (o : op) (taken : bool) : Z :=
  if taken && bool_decide (op_key o = key) then 1 else 0.

(** A run from a table: the statements of all dispatchers in the order the
    database serialised them; [n] counts the claims taken on [key]. *)
Inductive run (owns_case : Z → Z → bool) (key : string) : outbox → outbox → Z → Prop :=
  | run_nil db : run owns_case key db db 0
  | run_snoc db db1 db2 n now o taken :
      run owns_case key db db1 n → run_op owns_case db1 now o = (db2, taken) →
      run owns_case key db db2 (n + count_claim key o taken).

(** ** Invariant *)

Definition row_ok (r : AlertRow) : Prop :=
  1 <= AlertRow.attempt_count r <= ALERT_MAX_ATTEMPTS ∧
  (is_Some (AlertRow.claim_token r) ↔ is_Some (AlertRow.claim_expires_at r)) ∧
  (AlertRow.state r = AlertState.Pending ↔ is_Some (AlertRow.next_attempt_at r)) ∧
  (AlertRow.state r ≠ AlertState.Pending → AlertRow.claim_token r = None).

Definition outbox_ok (db : outbox) : Prop := map_Forall (λ _ r, row_ok r) db.

(** How one call may change one row. *)
Inductive row_step (now : Z) : AlertRow → AlertRow → bool → Prop :=
  | step_same r : row_step now r r false
  | step_dead r :
      AlertRow.state r = AlertState.Pending → ALERT_MAX_ATTEMPTS <= AlertRow.attempt_count r →
      unclaimed r now = true → row_step now r (terminalize_row now r) false
  | step_claim r t : reclaimable r now = true → row_step now r (reclaim_row now t r) true
  | step_sent r t : held r t = true → row_step now r (sent_row now r) false
  | step_failed r t e d b : held r t = true → row_step now r (failed_row now e d b r) false.

Lemma reclaimable_spec r now :
  reclaimable r now = true ↔
  AlertRow.state r = AlertState.Pending ∧ due (AlertRow.next_attempt_at r) now = true ∧
  unclaimed r now = true ∧ AlertRow.attempt_count r < ALERT_MAX_ATTEMPTS.
Proof. unfold reclaimable. rewrite !andb_true_iff, bool_decide_eq_true, Z.ltb_lt. tauto. Qed.

Lemma held_spec r t :
  held r t = true ↔
  AlertRow.state r = AlertState.Pending ∧ AlertRow.claim_token r = Some t.
Proof. unfold held. by rewrite andb_true_iff, !bool_decide_eq_true. Qed.

Lemma terminalize_step now r : row_step now r (terminalize_row now r) false.
Proof.
  destruct (bool_decide (AlertRow.state r = AlertState.Pending)
     && (ALERT_MAX_ATTEMPTS <=? AlertRow.attempt_count r) && unclaimed r now) eqn:E.
  - rewrite !andb_true_iff, bool_decide_eq_true, Z.leb_le in E. by apply step_dead; tauto.
  - assert (terminalize_row now r = r) as -> by (unfold terminalize_row; by rewrite E).
    constructor.
Qed.

Lemma row_step_ok now r r' b : row_step now r r' b → row_ok r → row_ok r'.
Proof.
  unfold row_ok, ALERT_MAX_ATTEMPTS.
  destruct 1 as [r|r Hp Ha Hu|r t Hr|r t Hh|r t e d b Hh]; intros (H1 & H2 & H3 & H4).
  - done.
  - unfold terminalize_row. destruct (_ && _ && _); simpl; [|done].
    split_and!; try lia; naive_solver.
  - apply reclaimable_spec in Hr as (Hp & _ & _ & Hl). unfold ALERT_MAX_ATTEMPTS in Hl. simpl.
    split_and!; try lia; naive_solver.
  - simpl. split_and!; try lia; naive_solver.
  - apply held_spec in Hh as [Hp _]. simpl. destruct d; split_and!; try lia; naive_solver.
Qed.

(** What one call does to the row it names. *)
Definition key_step (now : Z) (o : op) (before after : option AlertRow) (taken : bool) : Prop :=
  match before with
  | None =>
      (after = None ∧ taken = false) ∨
      (∃ t k w si fc d, after = Some (fresh_row now t k w si fc d) ∧ taken = true)
  | Some r =>
      ∃ r1 r2, row_step now r r1 false ∧ row_step now r1 r2 taken ∧ after = Some r2
  end.

Lemma terminalize_lookup now key db k :
  terminalize now key db !! k =
  if decide (k = key) then terminalize_row now <$> db !! k else db !! k.
Proof.
  unfold terminalize. case_decide as H.
  - subst. apply lookup_alter_eq.
  - by apply lookup_alter_ne.
Qed.

Lemma fenced_update_step now o db key t f db' b :
  op_key o = key → (∀ r, held r t = true → row_step now r (f r) false) →
  fenced_update db key t f = (db', b) →
  (∀ k, k ≠ key → db' !! k = db !! k) ∧ key_step now o (db !! key) (db' !! key) false.
Proof.
  intros Ho Hf. unfold fenced_update. destruct (db !! key) as [r|] eqn:Er.
  - destruct (held r t) eqn:Eh; intros [= <- _].
    + split; [intros k Hk; by apply lookup_insert_ne|].
      exists r, (f r). rewrite lookup_insert_eq. split; [constructor|]. auto.
    + split; [done|]. rewrite Er. exists r, r. by repeat constructor.
  - intros [= <- _]. split; [done|]. rewrite Er. by left.
Qed.

Lemma run_op_step owns db now o db' taken :
  run_op owns db now o = (db', taken) →
  (∀ k, k ≠ op_key o → db' !! k = db !! k) ∧
  key_step now o (db !! op_key o) (db' !! op_key o) taken.
Proof.
  destruct o as [k w s d|t k w s d|k w s d t|k w s d t a e p ra]; simpl.
  - intros [= <- <-]. set (key := alert_dedup_key k w s d). split.
    { intros x Hx. rewrite terminalize_lookup. by rewrite decide_False. }
    rewrite terminalize_lookup, decide_True by done.
    destruct (db !! key) as [r|]; simpl; [|by left].
    exists (terminalize_row now r), (terminalize_row now r).
    split; [apply terminalize_step|]. split; [constructor|done].
  - unfold claim_statement. set (key := alert_dedup_key k w s d).
    assert (key_step now (Claim t k w s d) (db !! key) (db !! key) false) as Hkey.
    { destruct (db !! key) as [r|]; simpl; [|by left]. exists r, r. by repeat constructor. }
    destruct (subject_columns k s) as [[si fc]|]; [|by intros [= <- <-]].
    destruct (negb _); [by intros [= <- <-]|].
    unfold upsert_claim. destruct (db !! key) as [r|] eqn:Er; simpl.
    + destruct (reclaimable r now) eqn:Ec; intros [= <- <-]; [|by rewrite Er].
      split; [intros x Hx; by rewrite lookup_insert_ne|].
      rewrite lookup_insert_eq. exists r, (reclaim_row now t r). split; [constructor|].
      split; [by apply step_claim|done].
    + intros [= <- <-]. split; [intros x Hx; by rewrite lookup_insert_ne|].
      right. rewrite lookup_insert_eq. eauto 10.
  - unfold mark_alert_sent. destruct (fenced_update _ _ _ _) as [x b] eqn:E.
    intros [= <- <-]. eapply (fenced_update_step now (MarkSent k w s d t)); [done| |exact E].
    intros r Hr. by eapply step_sent.
  - unfold mark_alert_failed. destruct (fenced_update _ _ _ _) as [x b] eqn:E.
    intros [= <- <-]. eapply (fenced_update_step now (MarkFailed k w s d t a e p ra)); [done| |exact E].
    intros r Hr. by eapply step_failed.
Qed.

Lemma key_step_ok now o before after taken :
  key_step now o before after taken →
  (∀ r, before = Some r → row_ok r) → ∀ r, after = Some r → row_ok r.
Proof.
  destruct before as [r|]; simpl.
  - intros (r1 & r2 & H1 & H2 & ->) Hok x [= <-].
    eapply row_step_ok; [exact H2|]. eapply row_step_ok; [exact H1|]. by apply Hok.
  - intros [[-> _]|(t & k & w & si & fc & d & -> & _)] _ x; [done|]. intros [= <-].
    unfold row_ok, ALERT_MAX_ATTEMPTS. simpl. split_and!; try lia; naive_solver.
Qed.

Lemma run_op_ok owns db now o db' taken :
  run_op owns db now o = (db', taken) → outbox_ok db → outbox_ok db'.
Proof.
  intros [Hne Hk]%run_op_step Hok k r Hr. destruct (decide (k = op_key o)) as [->|Hne'].
  - eapply key_step_ok; [exact Hk| |exact Hr]. intros x Hx. by apply (Hok (op_key o)).
  - rewrite Hne in Hr by done. by apply (Hok k).
Qed.

(** The attempts of a row, zero before it exists. *)
Definition attempts (o : option AlertRow) : Z :=
  match o with Some r => AlertRow.attempt_count r | None => 0 end.

Lemma row_step_attempts now r r' b :
  row_step now r r' b →
  AlertRow.attempt_count r' = AlertRow.attempt_count r + (if b then 1 else 0).
Proof.
  destruct 1; simpl; try lia. unfold terminalize_row. destruct (_ && _ && _); simpl; lia.
Qed.

Lemma key_step_attempts now o before after taken :
  key_step now o before after taken → attempts after = attempts before + (if taken then 1 else 0).
Proof.
  destruct before as [r|]; simpl.
  - intros (r1 & r2 & H1%row_step_attempts & H2%row_step_attempts & ->). simpl. lia.
  - intros [[-> ->]|(?&?&?&?&?&?& -> & ->)]; simpl; lia.
Qed.

Lemma run_attempts owns key db db' n :
  run owns key db db' n →
  (outbox_ok db → outbox_ok db') ∧ attempts (db' !! key) = attempts (db !! key) + n.
Proof.
  induction 1 as [db|db db1 db2 n now o taken Hr [IHok IH] Ho]; [split; [done|lia]|].
  split; [intros Hok; eapply run_op_ok; eauto|].
  destruct (run_op_step _ _ _ _ _ _ Ho) as [Hne Hk]. unfold count_claim.
  case_bool_decide as Hkey.
  - subst key. apply key_step_attempts in Hk. rewrite Hk, andb_true_r. lia.
  - rewrite Hne by done. rewrite andb_false_r. lia.
Qed.

Lemma row_step_terminal now r r' b :
  AlertRow.state r ≠ AlertState.Pending → row_step now r r' b → r' = r ∧ b = false.
Proof.
  intros Hs. destruct 1 as [r|r Hp|r t Hr|r t Hh|r t e d b Hh]; [done|done|..].
  - by apply reclaimable_spec in Hr as [? _].
  - by apply held_spec in Hh as [? _].
  - by apply held_spec in Hh as [? _].
Qed.

Lemma terminalize_live now r t :
  AlertRow.claim_expires_at r = Some t → now < t → terminalize_row now r = r.
Proof.
  intros Ht Hlt. unfold terminalize_row, unclaimed. rewrite Ht.
  by rewrite (proj2 (Z.leb_gt _ _) Hlt), andb_false_r.
Qed.

Lemma alter_id (f : AlertRow → AlertRow) (db : outbox) k :
  (∀ r, db !! k = Some r → f r = r) → alter f k db = db.
Proof.
  intros Hf. apply map_eq. intros i. destruct (decide (i = k)) as [->|].
  - rewrite lookup_alter_eq. destruct (db !! k) as [r|]; simpl; [|done]. by rewrite Hf.
  - by rewrite lookup_alter_ne.
Qed.

(** ** Theorems *)

(** Claim C4: The attempt cap is real.  Over any interleaving of the statements
    of any number of dispatchers, from an empty table, every row keeps the invariant
    (attempts between one and the cap, token and lease together, a next attempt
    exactly while pending, no token once sent or dead), the claims taken on a
    delivery are exactly its row's attempt count, and so at most eight. *)
Theorem outbox_attempts_capped owns key db n :
  run owns key ∅ db n →
  outbox_ok db ∧ n = attempts (db !! key) ∧ 0 <= n <= ALERT_MAX_ATTEMPTS.
Proof.
  intros [Hok Hn]%run_attempts. specialize (Hok (map_Forall_empty _)).
  rewrite lookup_empty in Hn. simpl in Hn.
  split; [done|]. split; [lia|]. rewrite <-(Z.add_0_l n), <-Hn.
  destruct (db !! key) as [r|] eqn:Er; simpl; unfold ALERT_MAX_ATTEMPTS; [|lia].
  destruct (Hok key r Er) as [Ha _]. unfold ALERT_MAX_ATTEMPTS in Ha. lia.
Qed.

Definition sample_claim : op := Claim "p-1" "signal" 7 42 "chat".

Lemma outbox_attempts_capped_witness :
  ∃ db, run (λ _ _, true) "signal:7:42:chat" ∅ db 1 ∧ outbox_ok db.
Proof.
  exists (run_op (λ _ _, true) ∅ 0 sample_claim).1.
  assert (run (λ _ _, true) "signal:7:42:chat" ∅
    (run_op (λ _ _, true) ∅ 0 sample_claim).1 1) as Hr.
  { exact (run_snoc _ "signal:7:42:chat" ∅ ∅ _ 0 0 sample_claim true (run_nil _ _ _) eq_refl). }
  split; [exact Hr|]. apply (outbox_attempts_capped _ _ _ _ Hr).
Defined.

(** Claim C5: The lease is exclusive.  While a delivery's lease runs, no claim
    by anyone succeeds and none touches the table; a call that completes with a
    token the row does not hold changes nothing and reports that.  A claim that
    succeeds, the first of a delivery, a retry after a failure or one after an
    expired lease, changes only its row: the row is pending, held by the
    caller's token with a lease of 120 seconds from the claim, due again no
    sooner, and counts one attempt more; it was absent, or pending, due, without
    a running lease and below the cap. *)
Theorem outbox_lease_exclusive owns db now key :
  (∀ r expires, db !! key = Some r → AlertRow.claim_expires_at r = Some expires → now < expires →
   (∀ k w s d, alert_dedup_key k w s d = key →
      run_op owns db now (Exhaust k w s d) = (db, false)) ∧
   (∀ t k w s d, alert_dedup_key k w s d = key →
      run_op owns db now (Claim t k w s d) = (db, false))) ∧
  (∀ r t k w s d, db !! key = Some r → alert_dedup_key k w s d = key → AlertRow.claim_token r ≠ Some t →
     mark_alert_sent db now k w s d t = (db, false) ∧
     ∀ a e p ra, mark_alert_failed db now k w s d t a e p ra = (db, false)) ∧
  (∀ t k w s d db', run_op owns db now (Claim t k w s d) = (db', true) → alert_dedup_key k w s d = key →
     let lease := Some (now + secs 120) in
     ∃ r', db' = <[key := r']> db ∧ AlertRow.state r' = AlertState.Pending ∧ AlertRow.claim_token r' = Some t ∧
       AlertRow.claim_expires_at r' = lease ∧ AlertRow.next_attempt_at r' = lease ∧
       match db !! key with
       | None => AlertRow.attempt_count r' = 1
       | Some r => AlertRow.attempt_count r' = AlertRow.attempt_count r + 1 ∧ AlertRow.attempt_count r < 8 ∧
           AlertRow.state r = AlertState.Pending ∧ (∃ due, AlertRow.next_attempt_at r = Some due ∧ due <= now) ∧
           ∀ expires, AlertRow.claim_expires_at r = Some expires → expires <= now
       end).
Proof.
  split_and!.
  - intros r expires Hr Hexp Hlt. split.
    { intros k w s d Hk. simpl. rewrite Hk. f_equal.
      apply alter_id. intros x Hx. simplify_eq. by eapply terminalize_live. }
    intros t k w s d Hk. simpl. unfold claim_statement. rewrite Hk.
    destruct (subject_columns k s) as [[si fc]|]; [|done]. destruct (negb _); [done|].
    unfold upsert_claim. rewrite Hr. unfold reclaimable, unclaimed. rewrite Hexp.
    by rewrite (proj2 (Z.leb_gt _ _) Hlt), andb_false_r.
  - intros r t k w s d Hr Hk Ht.
    assert (∀ f, fenced_update db key t f = (db, false)) as Hf.
    { intros f. unfold fenced_update, held. rewrite Hr.
      by rewrite (bool_decide_false _ Ht), andb_false_r. }
    unfold mark_alert_sent, mark_alert_failed. rewrite Hk. split; intros; apply Hf.
  - intros t k w s d db' Hop Hk. simpl in Hop. unfold claim_statement in Hop. rewrite Hk in Hop.
    destruct (subject_columns k s) as [[si fc]|]; [|done].
    destruct (negb _); [done|]. unfold upsert_claim in Hop. destruct (db !! key) as [r|] eqn:Hr.
    + destruct (reclaimable r now) eqn:Hre; [|done]. injection Hop as <-.
      unfold reclaimable in Hre. rewrite !andb_true_iff, bool_decide_eq_true, Z.ltb_lt in Hre.
      destruct Hre as [[[Hst Hdue] Hun] Hcap]. exists (reclaim_row now t r). split_and!; try done.
      * unfold due in Hdue. destruct (AlertRow.next_attempt_at r) as [x|]; [|done]. exists x. split; [done|lia].
      * intros expires He. unfold unclaimed in Hun. rewrite He in Hun. lia.
    + injection Hop as <-. by eexists.
Qed.

Lemma outbox_lease_exclusive_witness :
  run_op (λ _ _, true) (run_op (λ _ _, true) ∅ 0 sample_claim).1 1
    (Claim "p-2" "signal" 7 42 "chat") = ((run_op (λ _ _, true) ∅ 0 sample_claim).1, false)
  ∧ ∃ r', (run_op (λ _ _, true) ∅ 0 sample_claim).1 = <["signal:7:42:chat" := r']> ∅
      ∧ AlertRow.claim_expires_at r' = Some (secs 120).
Proof.
  split.
  - refine (proj2 (proj1 (outbox_lease_exclusive (λ _ _, true)
      (run_op (λ _ _, true) ∅ 0 sample_claim).1 1 "signal:7:42:chat")
      (fresh_row 0 "p-1" "signal" 7 (Some 42) None "chat") (secs 120)
      ltac:(by vm_compute) eq_refl _) _ _ _ _ _ _); by vm_compute.
  - destruct (proj2 (proj2 (outbox_lease_exclusive (λ _ _, true) ∅ 0 "signal:7:42:chat"))
      "p-1" "signal" 7 42 "chat" (run_op (λ _ _, true) ∅ 0 sample_claim).1) as (r' & E & _ & _ & Hl & _);
      [by vm_compute..|]. by exists r'.
Defined.

(** Sent and dead are final, and exhaustion is recorded.  No call at
    any time changes a sent or dead row or takes a claim on it; a pending row
    at the cap without a live lease is dead after the next claim call; a due
    pending row below the cap with no live lease is always claimable. *)
Theorem outbox_terminal_and_live owns db now0 now t k w s d r :
  db !! alert_dedup_key k w s d = Some r →
  (AlertRow.state r ≠ AlertState.Pending →
   ∀ o db' b, op_key o = alert_dedup_key k w s d → run_op owns db now o = (db', b) →
     db' !! alert_dedup_key k w s d = Some r ∧ b = false) ∧
  (AlertRow.state r = AlertState.Pending → ALERT_MAX_ATTEMPTS <= AlertRow.attempt_count r →
   unclaimed r now0 = true →
   AlertRow.state <$> (claim_alert owns db now0 now t k w s d).1 !! alert_dedup_key k w s d =
     Some AlertState.Dead) ∧
  (reclaimable r now = true → k = "signal" →
   (claim_alert owns db now0 now t k w s d).2 =
     ROk (Some (AlertClaim.mk t (AlertRow.attempt_count r + 1)))).
Proof.
  intros Hr. split_and!.
  - intros Hs o db' b Ho Hop. destruct (run_op_step _ _ _ _ _ _ Hop) as [_ Hk].
    rewrite Ho, Hr in Hk. destruct Hk as (r1 & r2 & H1 & H2 & ->).
    apply row_step_terminal in H1 as [-> _]; [|done].
    by apply row_step_terminal in H2 as [-> ->].
  - intros Hp Ha Hu. unfold claim_alert. set (key := alert_dedup_key k w s d) in *.
    assert (AlertRow.state (terminalize_row now0 r) = AlertState.Dead) as Hd.
    { unfold terminalize_row. rewrite (bool_decide_true _ Hp), (proj2 (Z.leb_le _ _) Ha), Hu. done. }
    assert (terminalize now0 key db !! key = Some (terminalize_row now0 r)) as Ht.
    { rewrite terminalize_lookup, decide_True by done. by rewrite Hr. }
    unfold claim_statement. fold key.
    destruct (subject_columns k s) as [[si fc]|]; [|simpl; rewrite Ht; simpl; by rewrite Hd].
    destruct (negb _); [simpl; rewrite Ht; simpl; by rewrite Hd|].
    unfold upsert_claim. rewrite Ht. unfold reclaimable.
    rewrite Hd, bool_decide_false by done. simpl. rewrite Ht. simpl. by rewrite Hd.
  - intros Hc ->. unfold claim_alert, claim_statement. simpl.
    assert (terminalize_row now0 r = r) as Hid.
    { apply reclaimable_spec in Hc as (_ & _ & _ & Hl). unfold terminalize_row.
      by rewrite (proj2 (Z.leb_gt _ _) Hl), andb_false_r. }
    unfold upsert_claim. rewrite terminalize_lookup, decide_True, Hr by done. simpl.
    by rewrite Hid, Hc.
Qed.

Lemma outbox_terminal_and_live_witness :
  (claim_alert (λ _ _, true) (run_op (λ _ _, true) ∅ 0 sample_claim).1 0 (secs 120) "p-2"
     "signal" 7 42 "chat").2 = ROk (Some (AlertClaim.mk "p-2" 2)).
Proof.
  apply (proj2 (proj2 (outbox_terminal_and_live (λ _ _, true)
    (run_op (λ _ _, true) ∅ 0 sample_claim).1 0 (secs 120) "p-2" "signal" 7 42 "chat"
    (fresh_row 0 "p-1" "signal" 7 (Some 42) None "chat") ltac:(by vm_compute))));
    by vm_compute.
Defined.

(** Backoff is bounded and grows.  Whatever the attempt number or the
    provider's [Retry-After], a failed delivery waits between zero seconds and
    one hour (ten minutes when the provider names the delay); without a named
    delay the wait is two to the attempt minutes up to an hour, so it never
    shrinks from one attempt to the next. *)
Theorem backoff_bounded attempt retry :
  0 <= attempt <= 2 ^ 31 - 1 → (∀ s, retry = Some s → is_u64 s) →
  0 <= backoff attempt retry <= 3600 ∧
  (∀ s, retry = Some s → backoff attempt retry <= ALERT_MAX_RETRY_AFTER_SECONDS) ∧
  backoff attempt None = Z.min (60 * 2 ^ attempt) 3600 ∧
  backoff attempt None <= backoff (attempt + 1) None.
Proof.
  intros Ha Hs.
  assert (∀ a, 0 <= a <= 2 ^ 31 → backoff a None = Z.min (60 * 2 ^ a) 3600) as Hb.
  { intros a Hr. unfold backoff. rewrite wrap_u32_id by (unfold is_u32, u32_max; lia).
    rewrite Z.shiftl_mul_pow2 by lia. destruct (Z.le_gt_cases a 6) as [H|H].
    - by rewrite (Z.min_l a 6) by lia.
    - rewrite (Z.min_r a 6) by lia. assert (2 ^ 6 <= 2 ^ a) by (apply Z.pow_le_mono_r; lia).
      change (2 ^ 6) with 64 in *. lia. }
  assert (0 < 2 ^ attempt) by (apply Z.pow_pos_nonneg; lia).
  split_and!.
  - destruct retry as [s|]; [|rewrite Hb by lia; lia].
    destruct (Hs s eq_refl). simpl. unfold ALERT_MAX_RETRY_AFTER_SECONDS. lia.
  - destruct retry as [s|]; [|rewrite Hb by lia; lia].
    destruct (Hs s eq_refl). simpl. unfold ALERT_MAX_RETRY_AFTER_SECONDS. lia.
  - intros s ->. simpl. lia.
  - apply Hb. lia.
  - rewrite !Hb by lia. rewrite Z.pow_add_r by lia. lia.
Qed.

Lemma backoff_bounded_witness : backoff 3 None = 480.
Proof.
  change 480 with (Z.min (60 * 2 ^ 3) 3600).
  apply (backoff_bounded 3 None); [lia|done].
Defined.

Lemma pretty_Z_inj_sep (a b : Z) x y :
  pretty a +:+ String ":" x = pretty b +:+ String ":" y → a = b ∧ x = y.
Proof.
  intros H. apply sep_app_inj in H as [H ->]; [|by apply no_char_pretty_Z..].
  split; [|done]. by apply (inj pretty) in H.
Qed.

(** A delivery's identity is all four of its parts.  For kinds
    without a colon, as the two kinds are, equal dedup keys have equal kind,
    workspace, subject and destination, whatever characters the destination
    holds; the kinds other than these two are refused by the claim. *)
Theorem alert_dedup_key_injective k1 w1 s1 d1 k2 w2 s2 d2 :
  no_char ":" k1 → no_char ":" k2 →
  alert_dedup_key k1 w1 s1 d1 = alert_dedup_key k2 w2 s2 d2 →
  k1 = k2 ∧ w1 = w2 ∧ s1 = s2 ∧ d1 = d2.
Proof.
  intros H1 H2 H. unfold alert_dedup_key in H.
  apply sep_app_inj in H as [-> H]; [|done..].
  apply pretty_Z_inj_sep in H as [-> H]. by apply pretty_Z_inj_sep in H as [-> ->].
Qed.

Lemma alert_dedup_key_injective_witness :
  alert_dedup_key "signal" 7 42 "a:b" ≠ alert_dedup_key "signal" 7 42 "a" .
Proof.
  intros H. apply alert_dedup_key_injective in H as (_ & _ & _ & H); [discriminate H|..];
    by repeat split.
Defined.
