(* ===== verification/CostBasis.v ===== *)
(** * FIFO cost basis (src/src/sf/cost_basis.rs, wallet.rs)

    Buys open lots, sells consume them oldest first, per (chain, wallet,
    token).  What the matching computes is in Fifo.v.

    [rust_decimal::Decimal] is a third-party type: a class of its operations,
    [Decimal], and a class of what it documents of them, [DecimalSpec]: a value
    has 96 bits of mantissa and at most 28 decimal places; an operation whose
    exact result is in the range of the type yields it rounded to the places it
    has room for, to one of the two neighbours, so unchanged when it fits, and
    one whose result is not (which panics) is unconstrained.  The canonical
    rationals, which never round, are an instance; hash map iteration orders
    are arguments. *)
From S2P Require Import Prelude Text Domain.
From Stdlib Require Import QArith.QArith QArith.Qcanon QArith.Qround QArith.Qreduction Lqa.
From stdpp Require Import options.
Local Open Scope string_scope.
Local Open Scope nat_scope.
Local Open Scope list_scope.

Class Decimal (D : Type) := {
  d_zero : D;
  d_add : D → D → D;
  d_sub : D → D → D;
  d_mul : D → D → D;
  d_div : D → D → D;
  d_leb : D → D → bool;
  d_eqb : D → D → bool;
  (** [s.parse::<Decimal>().ok()] *)
  d_parse : string → option D;
}.

(** The largest mantissa, and 10^k. *)
Definition max_mantissa : Z := 2 ^ 96 - 1.
Definition pow10 (k : nat) : Q := inject_Z (10 ^ Z.of_nat k).

(** The exact result [q] with [k] decimal places fits the type. *)
Definition fits (k : nat) (q : Q) : Prop :=
  (k <= 28)%nat ∧ (inject_Z (- max_mantissa) <= q * pow10 k)%Q ∧ (q * pow10 k <= inject_Z max_mantissa)%Q.

(** [v] is [q] rounded up or down at every number of places at which it fits:
    no number of that many places lies strictly between them. *)
Definition rounds (q v : Q) : Prop :=
  ∀ k m, fits k q →
    ((inject_Z m <= q * pow10 k → inject_Z m <= v * pow10 k) ∧ (q * pow10 k <= inject_Z m → v * pow10 k <= inject_Z m))%Q.

Class DecimalSpec (D : Type) `{Decimal D} := {
  d_val : D → Q;
  d_zero_val : (d_val d_zero == 0)%Q;
  d_leb_val a b : d_leb a b = true ↔ (d_val a <= d_val b)%Q;
  d_eqb_val a b : d_eqb a b = true ↔ (d_val a == d_val b)%Q;
  d_add_val a b : rounds (d_val a + d_val b) (d_val (d_add a b));
  d_sub_val a b : rounds (d_val a - d_val b) (d_val (d_sub a b));
  d_mul_val a b : rounds (d_val a * d_val b) (d_val (d_mul a b));
  d_div_val a b : ¬ (d_val b == 0)%Q → rounds (d_val a / d_val b) (d_val (d_div a b));
}.

(** ** wallet.rs *)

Module SwapDirection.
Inductive SwapDirection := Buy | Sell.
#[global] Instance SwapDirection_eq_dec : EqDecision SwapDirection.
Proof. solve_decision. Defined.
End SwapDirection.
Abbreviation SwapDirection := SwapDirection.SwapDirection.

Module Swap.
Record Swap := mk {
  chain : string;
  wallet : string;
  token : string;
  direction : SwapDirection;
  amount_in : string;
  amount_out : string;
  timestamp : string;
  tx_hash : string;
}.
End Swap.
Abbreviation Swap := Swap.Swap.

Section fifo.
Context {D : Type} `{Decimal D} (parse_rfc3339 : string → option instant).

Definition timestamp_secs (s : Swap) : option Z :=
  timestamp <$> parse_rfc3339 (Swap.timestamp s).

Record ScoredSwap := MkScored { swap : Swap; usd_value : D }.

Record MatchedPosition := MkPosition {
  pos_token : string;
  realized_pnl : D;
  roi : option D;
  hold_seconds : option Z;
  unmatched_sell_amount : D;
}.

Record OpenLot := MkLot { amount : D; cost_usd : D; time : option Z }.

Definition parse_decimal (s : string) : D := default d_zero (d_parse s).

Definition d_min (a b : D) : D := if d_leb a b then a else b.

(** The mutable variables of the sell branch. *)
Record consumption := MkConsumption {
  remaining : D;
  cost : D;
  open_time : option Z;
  matched_amount : D;
  lots : list OpenLot;
}.

(** One iteration on the first lot. *)
Definition consume_lot (c : consumption) (lot : OpenLot) (rest : list OpenLot) : consumption :=
  let take := d_min (remaining c) (amount lot) in
  let taken_cost := d_mul (cost_usd lot) (d_div take (amount lot)) in
  let '(cost, lot_cost) :=
    if negb (d_eqb (amount lot) d_zero)
    then (d_add (cost c) taken_cost, d_sub (cost_usd lot) taken_cost)
    else (cost c, cost_usd lot) in
  let open_time := match open_time c with None => time lot | Some t => Some t end in
  let lot_amount := d_sub (amount lot) take in
  let lots :=
    if d_eqb lot_amount d_zero then rest else MkLot lot_amount lot_cost (time lot) :: rest in
  MkConsumption (d_sub (remaining c) take) cost open_time (d_add (matched_amount c) take) lots.

(** [while remaining > Decimal::ZERO]; [None] when the fuel runs out first. *)
Fixpoint consume (fuel : nat) (c : consumption) : option consumption :=
  if d_leb (remaining c) d_zero then Some c else
  match lots c with
  | [] => Some c
  | lot :: rest =>
      match fuel with
      | O => None
      | S fuel => consume fuel (consume_lot c lot rest)
      end
  end.

Definition sell_fuel (open : list OpenLot) : nat := S (length open).

Definition sell (token : string) (s : ScoredSwap) (open : list OpenLot)
    : option (list OpenLot * MatchedPosition) :=
  let sell_amount := parse_decimal (Swap.amount_in (swap s)) in
  let? c := consume (sell_fuel open) (MkConsumption sell_amount d_zero None d_zero open) in
  let matched_proceeds :=
    if negb (d_eqb sell_amount d_zero)
    then d_mul (usd_value s) (d_div (matched_amount c) sell_amount) else d_zero in
  let pnl := d_sub matched_proceeds (cost c) in
  let hold :=
    match open_time c, timestamp_secs (swap s) with
    | Some o, Some t => Some (Z.max (wrap_i64 (t - o)) 0)
    | _, _ => None
    end in
  Some (lots c, MkPosition token pnl
    (if negb (d_eqb (cost c) d_zero) then Some (d_div pnl (cost c)) else None) hold
    (remaining c)).

(** The loop over one key's swaps: the open lots and the positions so far. *)
Definition fifo_step (token : string) (st : list OpenLot * list MatchedPosition) (s : ScoredSwap)
    : option (list OpenLot * list MatchedPosition) :=
  match Swap.direction (swap s) with
  | SwapDirection.Buy =>
      Some (st.1 ++ [MkLot (parse_decimal (Swap.amount_out (swap s))) (usd_value s)
                       (timestamp_secs (swap s))], st.2)
  | SwapDirection.Sell =>
      let? (open, p) := sell token s st.1 in Some (open, st.2 ++ [p])
  end.

Fixpoint fifo_loop (token : string) (st : list OpenLot * list MatchedPosition)
    (l : list ScoredSwap) : option (list OpenLot * list MatchedPosition) :=
  match l with
  | [] => Some st
  | s :: l => let? st := fifo_step token st s in fifo_loop token st l
  end.

Definition swap_key (s : ScoredSwap) : string * string * string :=
  (Swap.chain (swap s), Swap.wallet (swap s), Swap.token (swap s)).

Definition chronological (a b : ScoredSwap) : bool :=
  (default 0%Z (timestamp_secs (swap a)) <=? default 0%Z (timestamp_secs (swap b)))%Z.

(** One entry of [by_key]: its swaps in input order, sorted by time. *)
Definition key_swaps (swaps : list ScoredSwap) (key : string * string * string)
    : list ScoredSwap :=
  stable_sort chronological (List.filter (λ s, bool_decide (swap_key s = key)) swaps).

Definition open_total (open : list OpenLot) : D * D :=
  foldl (λ '(a, c) l, (d_add a (amount l), d_add c (cost_usd l))) (d_zero, d_zero) open.

Definition match_key (swaps : list ScoredSwap) (key : string * string * string)
    : option (list MatchedPosition * (D * D)) :=
  let? (open, positions) := fifo_loop key.2 ([], []) (key_swaps swaps key) in
  Some (positions, open_total open).

(** [keys]: the keys of the swaps in the hash map's iteration order. *)
Fixpoint fifo_match (keys : list (string * string * string)) (swaps : list ScoredSwap)
    : option (list MatchedPosition * gmap (string * string * string) (D * D)) :=
  match keys with
  | [] => Some ([], ∅)
  | key :: keys =>
      let? (positions, residual) := match_key swaps key in
      let? (rest, per_token) := fifo_match keys swaps in
      Some (positions ++ rest, <[key := residual]> per_token)
  end.
End fifo.

(** ** Rounding *)
Set Default Proof Using "Type*".
Local Open Scope Q_scope.

Lemma pow10_pos k : 0 < pow10 k.
Proof. unfold pow10. change 0 with (inject_Z 0). rewrite <-Zlt_Qlt. lia. Qed.

Lemma rounds_eq q q' v : q == q' → rounds q v → rounds q' v.
Proof.
  intros E Hr k m (Hk & H1 & H2). setoid_rewrite <-E. apply Hr. split_and!; [done|by setoid_rewrite E..].
Qed.

Lemma rounds_id q v : v == q → rounds q v.
Proof. intros E k m _. by setoid_rewrite E. Qed.

(** A number that fits is not rounded. *)
Lemma rounds_exact q v k m : rounds q v → (k <= 28)%nat → (Z.abs m <= max_mantissa)%Z →
  q * pow10 k == inject_Z m → v * pow10 k == inject_Z m.
Proof.
  intros Hr Hk Hm E. destruct (Hr k m) as [H1 H2].
  { split_and!; [done|rewrite E, <-Zle_Qle; lia..]. }
  apply Qle_antisym; [apply H2|apply H1]; rewrite E; apply Qle_refl.
Qed.

(** The error of an operation. *)
Lemma rounds_near q v k : rounds q v → fits k q → - 1 <= (v - q) * pow10 k ∧ (v - q) * pow10 k <= 1.
Proof.
  intros Hr Hf. destruct (Hr k (Qfloor (q * pow10 k)) Hf) as [H1 _]. destruct (Hr k (Qceiling (q * pow10 k)) Hf) as [_ H2].
  specialize (H1 (Qfloor_le _)). specialize (H2 (Qle_ceiling _)).
  pose proof (Qlt_floor (q * pow10 k)) as F. pose proof (Qceiling_lt (q * pow10 k)) as C.
  rewrite inject_Z_plus in F. unfold Z.sub in C. rewrite inject_Z_plus, inject_Z_opp in C.
  change (inject_Z 1) with 1 in F, C. set (x := q * pow10 k) in *.
  assert ((v - q) * pow10 k == v * pow10 k - x) as -> by (unfold x; ring). split; lra.
Qed.

(** Rounding keeps the integer bounds of a result. *)
Lemma rounds_between q v a b : rounds q v → (- max_mantissa <= a)%Z → (b <= max_mantissa)%Z →
  inject_Z a <= q → q <= inject_Z b → inject_Z a <= v ∧ v <= inject_Z b.
Proof.
  intros Hr Ha Hb H1 H2. assert (pow10 0 == 1) as E by done. rewrite Zle_Qle in Ha, Hb.
  assert (fits 0 q) as Hf by (split_and!; [lia|rewrite E; lra..]).
  split; [destruct (Hr 0%nat a Hf) as [G _]|destruct (Hr 0%nat b Hf) as [_ G]]; rewrite !E, !Qmult_1_r in G; by apply G.
Qed.

(** ** Numbers of [k] decimal places *)

Section units.
Context {D : Type} `{DecimalSpec D}.

(** [a] is [n] units of 10^-k. *)
Definition units (k : nat) (n : Z) (a : D) : Prop := d_val a * pow10 k == inject_Z n.

Lemma units_zero k : units k 0 d_zero.
Proof. unfold units. by rewrite d_zero_val, Qmult_0_l. Qed.

Lemma units_leb k m n (a b : D) : units k m a → units k n b → d_leb a b = (m <=? n)%Z.
Proof.
  unfold units. intros Ha Hb. apply eq_true_iff_eq. rewrite d_leb_val, Z.leb_le, Zle_Qle, <-Ha, <-Hb.
  symmetry. apply Qmult_le_r, pow10_pos.
Qed.

Lemma units_eqb k m n (a b : D) : units k m a → units k n b → d_eqb a b = (m =? n)%Z.
Proof.
  intros Ha Hb. apply eq_true_iff_eq. rewrite d_eqb_val, Z.eqb_eq. unfold units in *. split.
  - intros E. apply inject_Z_injective. by rewrite <-Ha, <-Hb, E.
  - intros ->. apply (Qmult_inj_r _ _ (pow10 k)); [|by rewrite Ha, Hb].
    intros E. pose proof (pow10_pos k) as Hp. rewrite E in Hp. by apply Qlt_irrefl in Hp.
Qed.

Lemma units_add k m n (a b : D) : (k <= 28)%nat → (Z.abs (m + n) <= max_mantissa)%Z →
  units k m a → units k n b → units k (m + n) (d_add a b).
Proof.
  unfold units. intros Hk Hmn Ha Hb. eapply rounds_exact; [apply d_add_val|done|done|].
  by rewrite Qmult_plus_distr_l, Ha, Hb, inject_Z_plus.
Qed.

Lemma units_sub k m n (a b : D) : (k <= 28)%nat → (Z.abs (m - n) <= max_mantissa)%Z →
  units k m a → units k n b → units k (m - n) (d_sub a b).
Proof.
  unfold units. intros Hk Hmn Ha Hb. eapply rounds_exact; [apply d_sub_val|done|done|].
  unfold Z.sub. rewrite inject_Z_plus, inject_Z_opp, <-Ha, <-Hb. ring.
Qed.

Lemma d_sub_self_val (a : D) : d_val (d_sub a a) == 0.
Proof.
  rewrite <-(Qmult_1_r (d_val (d_sub a a))). apply (rounds_exact _ _ 0 0 (d_sub_val a a)); [lia|done|].
  change (pow10 0) with 1. change (inject_Z 0) with 0. ring.
Qed.

Lemma d_leb_total (a b : D) : d_leb a b = true ∨ d_leb b a = true.
Proof. rewrite !d_leb_val. destruct (Qlt_le_dec (d_val a) (d_val b)) as [?%Qlt_le_weak|?]; auto. Qed.

Lemma d_leb_refl (a : D) : d_leb a a = true.
Proof. apply d_leb_val, Qle_refl. Qed.

Lemma d_leb_false (a b : D) : d_leb a b = false ↔ d_val b < d_val a.
Proof.
  rewrite <-not_true_iff_false, d_leb_val. split; [apply Qnot_le_lt|apply Qlt_not_le].
Qed.

Lemma d_min_cases (a b : D) : (d_min a b = a ∧ d_leb a b = true) ∨ (d_min a b = b ∧ d_leb a b = false).
Proof. unfold d_min. destruct (d_leb a b); auto. Qed.
End units.

(** ** The matching returns *)

Section returns.
Local Open Scope nat_scope.
Context {D : Type} `{DecimalSpec D}.

Lemma consume_lot_progress (c : consumption) lot rest :
  d_leb (remaining (consume_lot c lot rest)) d_zero = true ∨
  lots (consume_lot c lot rest) = rest.
Proof.
  unfold consume_lot. destruct (d_min_cases (remaining c) (amount lot)) as [[-> _]|[-> _]];
    destruct (negb _); simpl.
  1-2: left; apply d_leb_val; rewrite d_sub_self_val, d_zero_val; apply Qle_refl.
  1-2: right; rewrite (proj2 (d_eqb_val _ _)); [done|]; by rewrite d_sub_self_val, d_zero_val.
Qed.

Lemma consume_total fuel (c : consumption) :
  length (lots c) < fuel → is_Some (consume fuel c).
Proof.
  revert c. induction fuel as [|fuel IH]; intros c Hl; [lia|]. cbn [consume].
  destruct (d_leb (remaining c) d_zero); [done|]. destruct (lots c) as [|lot rest] eqn:El; [done|].
  destruct (consume_lot_progress c lot rest) as [Hr|Hr].
  - destruct fuel; cbn [consume]; by rewrite Hr.
  - apply IH. rewrite Hr. simpl in Hl. lia.
Qed.

Context (parse_rfc3339 : string → option instant).

Lemma sell_total token s open : is_Some (sell parse_rfc3339 token s open).
Proof.
  unfold sell, sell_fuel.
  destruct (consume_total (S (length open)) (MkConsumption (parse_decimal (Swap.amount_in (swap s)))
    d_zero None d_zero open)) as [c ->]; [simpl; lia|]. done.
Qed.

Lemma fifo_loop_total token st l : is_Some (fifo_loop parse_rfc3339 token st l).
Proof.
  revert st. induction l as [|s l IH]; intros st; cbn [fifo_loop]; [done|].
  unfold fifo_step. destruct (Swap.direction (swap s)); [apply IH|].
  destruct (sell_total token s st.1) as [[open p] ->]. apply IH.
Qed.

Lemma match_key_total swaps key : is_Some (match_key parse_rfc3339 swaps key).
Proof.
  unfold match_key.
  destruct (fifo_loop_total key.2 ([], []) (key_swaps parse_rfc3339 swaps key)) as [[open ps] ->]. done.
Qed.

Lemma fifo_match_total keys swaps : is_Some (fifo_match parse_rfc3339 keys swaps).
Proof.
  induction keys as [|key keys [[rest m] IH]]; cbn [fifo_match]; [done|].
  destruct (match_key_total swaps key) as [[ps r] ->]. by rewrite IH.
Qed.

Lemma fifo_match_lookup keys swaps positions residual :
  NoDup keys → fifo_match parse_rfc3339 keys swaps = Some (positions, residual) →
  (∀ key, residual !! key =
     if decide (key ∈ keys) then snd <$> match_key parse_rfc3339 swaps key else None) ∧
  positions = flat_map (λ key, from_option fst [] (match_key parse_rfc3339 swaps key)) keys.
Proof.
  revert positions residual. induction keys as [|key keys IH]; intros positions residual Hnd;
    cbn [fifo_match].
  { intros [= <- <-]. split; [|done]. intros key. rewrite decide_False by apply not_elem_of_nil.
    by rewrite lookup_empty. }
  apply NoDup_cons in Hnd as [Hn Hnd].
  destruct (match_key parse_rfc3339 swaps key) as [[ps r]|] eqn:Em; [|done].
  destruct (fifo_match parse_rfc3339 keys swaps) as [[rest m]|] eqn:Ef; [|done].
  intros [= <- <-]. destruct (IH rest m Hnd eq_refl) as [Hm ->]. split.
  - intros key'. destruct (decide (key' = key)) as [->|Hne].
    + rewrite lookup_insert_eq, decide_True by left. by rewrite Em.
    + rewrite lookup_insert_ne, Hm by done. destruct (decide (key' ∈ keys)).
      * by rewrite decide_True by by right.
      * by rewrite decide_False by by intros [?|?]%elem_of_cons.
  - simpl. by rewrite Em.
Qed.

End returns.

(** ** The canonical rationals *)

(** A parser of unsigned integers. *)
Fixpoint digits (acc : Z) (s : string) : option Z :=
  match s with
  | EmptyString => Some acc
  | String c s =>
      if is_digit c then digits (acc * 10 + Z.of_N (N_of_ascii c - 48))%Z s else None
  end.

Definition qc_parse (s : string) : option Qc :=
  if decide (s = "") then None else (λ z, Q2Qc (inject_Z z)) <$> digits 0 s.

Definition qc_leb (a b : Qc) : bool := Qle_bool a b.

#[global] Instance Qc_Decimal : Decimal Qc := {|
  d_zero := 0%Qc; d_add := Qcplus; d_sub := Qcminus; d_mul := Qcmult; d_div := Qcdiv;
  d_leb := qc_leb; d_eqb := λ a b, Qc_eq_bool a b; d_parse := qc_parse;
|}.

#[global] Instance Qc_DecimalSpec : DecimalSpec Qc.
Proof.
  apply (Build_DecimalSpec Qc _ (λ a, this a)); simpl.
  - done.
  - intros a b. apply Qle_bool_iff.
  - intros a b. split; [by intros ->%Qc_eq_bool_correct|]. intros ->%Qc_is_canon. unfold Qc_eq_bool. by destruct (Qc_eq_dec b b).
  - intros a b. apply (rounds_id (a + b)%Q), Qred_correct.
  - intros a b. apply (rounds_id (a - b)%Q). unfold Qcminus, Qcplus, Qcopp. simpl. by rewrite !Qred_correct.
  - intros a b. apply (rounds_id (a * b)%Q), Qred_correct.
  - intros a b _. apply (rounds_id (a / b)%Q). unfold Qcdiv, Qcmult, Qcinv. simpl. by rewrite !Qred_correct.
Defined.
