(* ===== verification/Fifo.v ===== *)
(** * What FIFO matching computes

    The matching of CostBasis.v against an exact reference: lots of an integral
    number of units, consumed oldest first at their unit cost.  The quantities
    are exact; the dollars are those of the reference up to the rounding of
    rust_decimal, whose error is bounded by the number of swaps. *)
From S2P Require Import Prelude Text Domain CostBasis.
From Stdlib Require Import QArith.QArith QArith.Qcanon QArith.Qabs Lqa.
From stdpp Require Import options.
Local Open Scope Q_scope.

(** ** The reference *)

Record exact_lot := MkExact { left : Z; worth : Q; since : option Z }.

Definition first_some {A} (x y : option A) : option A := match x with Some _ => x | None => y end.

(** A sale of [n] units: the lots left, the cost of what it took, the age of
    the oldest dated lot it took from, and what found no lot. *)
Fixpoint exact_sell (n : Z) (lots : list exact_lot) : list exact_lot * Q * option Z * Z :=
  match lots with
  | [] => ([], 0, None, n)
  | l :: rest =>
      if (n <=? 0)%Z then (lots, 0, None, n) else
      if (left l <=? n)%Z then
        let '(rest, cost, opened, unsold) := exact_sell (n - left l) rest in
        (rest, worth l + cost, first_some (since l) opened, unsold)
      else
        let part := inject_Z n / inject_Z (left l) in
        (MkExact (left l - n) (worth l * (1 - part)) (since l) :: rest, worth l * part, since l, 0%Z)
  end.

(** A swap of one key, in units of the token and dollars. *)
Inductive leg :=
  | Bought (n : Z) (usd : Q) (t : option Z)
  | Sold (n : Z) (usd : Q) (t : option Z).

Record exact_outcome := MkOutcome { gain : Q; held : option Z; unsold : Z }.

(** The proceeds of the part that found a lot, less what that part cost. *)
Definition outcome_of (n : Z) (usd : Q) (t : option Z) (cost : Q) (opened : option Z) (rest : Z) : exact_outcome :=
  MkOutcome (usd * (inject_Z (n - rest) / inject_Z n) - cost)
    (match opened, t with Some o, Some t => Some (Z.max (wrap_i64 (t - o)) 0) | _, _ => None end) rest.

Fixpoint exact_fifo (lots : list exact_lot) (legs : list leg) : list exact_lot * list exact_outcome :=
  match legs with
  | [] => (lots, [])
  | Bought n usd t :: legs => exact_fifo (lots ++ [MkExact n usd t]) legs
  | Sold n usd t :: legs =>
      let '(lots, cost, opened, rest) := exact_sell n lots in
      let '(lots, outs) := exact_fifo lots legs in
      (lots, outcome_of n usd t cost opened rest :: outs)
  end.

(** Totals. *)
Definition total_units (lots : list exact_lot) : Z := foldr Z.add 0%Z (left <$> lots).
Definition qsum (l : list Q) : Q := foldr Qplus 0 l.
Definition total_worth (lots : list exact_lot) : Q := qsum (worth <$> lots).
Definition leg_bought (l : leg) : Z := match l with Bought n _ _ => n | Sold _ _ _ => 0%Z end.
Definition leg_sold (l : leg) : Z := match l with Bought _ _ _ => 0%Z | Sold n _ _ => n end.
Definition leg_paid (l : leg) : Q := match l with Bought _ usd _ => usd | Sold _ _ _ => 0 end.
Definition leg_received (l : leg) : Q := match l with Bought _ _ _ => 0 | Sold _ usd _ => usd end.

(** ** The reference keeps its books *)

Ltac book := first [done|lia|lra|ring|by constructor|by left|by right].

Definition lots_positive (lots : list exact_lot) : Prop := Forall (λ l, (0 < left l)%Z ∧ 0 <= worth l) lots.

Lemma part_range (n m : Z) : (0 <= n <= m)%Z → (0 < m)%Z → 0 <= inject_Z n / inject_Z m ∧ inject_Z n / inject_Z m <= 1.
Proof.
  intros Hn Hm. assert (0 < inject_Z m) as Hp by (change 0 with (inject_Z 0); rewrite <-Zlt_Qlt; lia). split.
  - apply Qle_shift_div_l; [done|]. rewrite Qmult_0_l. change 0 with (inject_Z 0). rewrite <-Zle_Qle. lia.
  - apply Qle_shift_div_r; [done|]. rewrite Qmult_1_l, <-Zle_Qle. lia.
Qed.

Lemma exact_sell_books n lots : (0 <= n)%Z → lots_positive lots →
  let '(lots', cost, _, rest) := exact_sell n lots in
  lots_positive lots' ∧ 0 <= cost ∧ total_worth lots' + cost == total_worth lots
  ∧ (total_units lots' + (n - rest) = total_units lots)%Z ∧ (0 <= rest <= n)%Z ∧ (rest = 0%Z ∨ lots' = [])
  ∧ (length lots' <= length lots)%nat.
Proof.
  intros Hn Hl. revert n Hn. induction Hl as [|l lots [Hl Hw] Hls IH]; intros n Hn; cbn [exact_sell].
  { split_and!; cbn; book. }
  destruct (Z.leb_spec n 0) as [Hz|Hz].
  { assert (n = 0%Z) as -> by lia. split_and!; book. }
  destruct (Z.leb_spec (left l) n) as [Hle|Hlt].
  - specialize (IH (n - left l)%Z ltac:(lia)). destruct (exact_sell _ lots) as [[[lots' cost] opened] rest].
    destruct IH as (Hp & Hc & Ew & Eu & Hr & Hd & Hlen). unfold total_worth, total_units, qsum in *. split_and!; cbn in *; book.
  - destruct (part_range n (left l)) as [P0 P1]; [lia|lia|]. set (part := inject_Z n / inject_Z (left l)) in *.
    assert (0 <= worth l * part) by (by apply Qmult_le_0_compat).
    assert (0 <= worth l * (1 - part)) by (apply Qmult_le_0_compat; lra).
    unfold total_worth, total_units, qsum. split_and!; cbn; first [book|constructor; [split; [cbn; lia|done]|done]].
Qed.

Definition leg_ok (l : leg) : Prop :=
  match l with Bought n usd _ => (0 < n)%Z ∧ 0 <= usd | Sold n usd _ => (0 <= n)%Z ∧ 0 <= usd end.

(** Units and dollars are conserved; what is sold beyond the lots has no cost
    and no proceeds. *)
Lemma exact_fifo_books lots legs : lots_positive lots → Forall leg_ok legs →
  let '(lots', outs) := exact_fifo lots legs in
  lots_positive lots'
  ∧ (total_units lots' + zsum (leg_sold <$> legs) = total_units lots + zsum (leg_bought <$> legs) + zsum (unsold <$> outs))%Z
  ∧ (zsum (unsold <$> outs) <= zsum (leg_sold <$> legs))%Z ∧ total_worth lots' <= total_worth lots + qsum (leg_paid <$> legs)
  ∧ (Forall (λ o, unsold o = 0%Z) outs → Forall (λ l, match l with Sold n _ _ => n ≠ 0%Z | _ => True end) legs →
     qsum (gain <$> outs) + (total_worth lots + qsum (leg_paid <$> legs)) == qsum (leg_received <$> legs) + total_worth lots').
Proof.
  unfold total_worth, total_units, zsum, qsum.
  intros Hl Hlegs. revert lots Hl. induction Hlegs as [|l legs Hleg _ IH]; intros lots Hl; cbn [exact_fifo].
  { split_and!; [done|cbn; lia|done|cbn; lra|]. intros _ _. cbn. ring. }
  destruct l as [n usd t|n usd t]; destruct Hleg as [Hn Hu].
  - specialize (IH (lots ++ [MkExact n usd t])). destruct (exact_fifo _ legs) as [lots' outs].
    destruct IH as (Hp & Eu & El & Ew & Ec); [apply Forall_app; split; [done|by repeat constructor]|].
    rewrite !fmap_app in *. cbn [fmap list_fmap left worth] in *.
    assert (∀ l, foldr Z.add 0%Z (l ++ [n]) = (foldr Z.add 0 l + n)%Z) as E1 by (clear; induction l; cbn in *; lia).
    assert (∀ l, foldr Qplus 0 (l ++ [usd]) == foldr Qplus 0 l + usd) as E2 by (clear; induction l as [|x l IH]; cbn in *; [|rewrite IH]; ring).
    rewrite E1 in Eu. rewrite E2 in Ew. split_and!; [done|cbn in *; lia|done|cbn in *; lra|]. intros Ho [_ Hs]%Forall_cons. specialize (Ec Ho Hs). rewrite E2 in Ec.
    cbn in *. lra.
  - pose proof (exact_sell_books n lots Hn Hl) as Hs. destruct (exact_sell n lots) as [[[lots1 cost] opened] rest].
    destruct Hs as (Hp1 & Hc & Ew & Eu1 & Hr & _). specialize (IH lots1 Hp1). destruct (exact_fifo lots1 legs) as [lots' outs].
    destruct IH as (Hp & Eu & El & Ew' & Ec). unfold total_worth, total_units, qsum in *.
    split_and!; [done|cbn in *; lia|cbn in *; lia|cbn in *; lra|]. intros [Ho Hos]%Forall_cons [Hnz Hs]%Forall_cons. specialize (Ec Hos Hs).
    cbn in Ho. subst rest. cbn [fmap list_fmap leg_paid leg_received foldr outcome_of gain].
    assert (inject_Z (n - 0) / inject_Z n == 1) as ->.
    { rewrite Z.sub_0_r. unfold Qdiv. apply Qmult_inv_r. intros E. apply (inject_Z_injective n 0) in E. done. }
    lra.
Qed.

(** ** Rounding errors *)

Definition near (e v q : Q) : Prop := - e <= v - q ∧ v - q <= e.

#[global] Instance near_Proper : Proper (Qeq ==> Qeq ==> Qeq ==> iff) near.
Proof. intros e e' Ee v v' Ev q q' Eq. unfold near. by rewrite Ee, Ev, Eq. Qed.

Lemma near_eq e v q q' : q == q' → near e v q → near e v q'.
Proof. unfold near. intros E. by rewrite E. Qed.

Lemma near_weaken e f v q : near e v q → e <= f → near f v q.
Proof. unfold near. lra. Qed.

(** The error of one operation on dollars, and of a ratio. *)
Definition eps : Q := 1 # 10000000000000000.
Definition tiny : Q := 1 # 10000000000000000000000000000.

(** Dollars: what no swap exceeds, and what leaves room for sums. *)
Definition usd_max : Q := 1000000000000.

Definition modest (q : Q) : Prop := - (7 * usd_max) <= q ∧ q <= 7 * usd_max.

Lemma rounds_modest q v : rounds q v → modest q → near eps v q.
Proof.
  unfold modest, usd_max, near, eps. intros Hr Hq. assert (pow10 16 == 10000000000000000) as E by reflexivity.
  destruct (rounds_near q v 16 Hr) as [H1 H2].
  { split_and!; [lia|rewrite E; change (inject_Z (- max_mantissa)) with (-79228162514264337593543950335 # 1); lra|
      rewrite E; change (inject_Z max_mantissa) with (79228162514264337593543950335 # 1); lra]. }
  rewrite E in H1, H2. lra.
Qed.

Lemma rounds_ratio q v : rounds q v → 0 <= q → q <= 1 → near tiny v q.
Proof.
  unfold near, tiny. intros Hr H0 H1. assert (pow10 28 == 10000000000000000000000000000) as E by reflexivity.
  destruct (rounds_near q v 28 Hr) as [H2 H3].
  { split_and!; [lia|rewrite E; change (inject_Z (- max_mantissa)) with (-79228162514264337593543950335 # 1); lra|
      rewrite E; change (inject_Z max_mantissa) with (79228162514264337593543950335 # 1); lra]. }
  rewrite E in H2, H3. lra.
Qed.

Lemma near_abs e v q : near e v q ↔ Qabs (v - q) <= e.
Proof. unfold near. by rewrite Qabs_Qle_condition. Qed.

Lemma near_scale e b v q x : near e v q → Qabs x <= b → near (b * e) (x * v) (x * q).
Proof.
  rewrite !near_abs. intros Hn Hx. assert (x * v - x * q == x * (v - q)) as -> by ring. rewrite Qabs_Qmult.
  pose proof (Qabs_nonneg x). pose proof (Qabs_nonneg (v - q)).
  eapply Qle_trans; [by apply Qmult_le_compat_r|]. rewrite !(Qmult_comm b). apply Qmult_le_compat_r; [done|]. lra.
Qed.

(** A share of a cost known up to [e], and what it leaves. *)
Lemma near_share e c w part r t rest : near e c w → 0 <= w → w <= usd_max → e <= 1 → 0 <= part → part <= 1 →
  rounds part r → rounds (c * r) t → rounds (c - t) rest →
  near (e * part + 3 * eps) t (w * part) ∧ near (e * (1 - part) + 4 * eps) rest (w * (1 - part)).
Proof.
  intros Hc Hw0 Hw He P0 P1 Hr Ht Hrest. assert (Qabs c <= 2 * usd_max) as Hca.
  { apply Qabs_Qle_condition. unfold near, usd_max in *. lra. }
  pose proof (near_scale _ _ _ _ _ (rounds_ratio _ _ Hr P0 P1) Hca) as H1.
  assert (near (part * e) (part * c) (part * w)) as H2 by (apply near_scale; [done|rewrite Qabs_pos by done; lra]).
  assert (near ((1 - part) * e) ((1 - part) * c) ((1 - part) * w)) as H3 by (apply near_scale; [done|rewrite Qabs_pos by lra; lra]).
  assert (0 <= w * part) as G0 by by apply Qmult_le_0_compat.
  assert (w * part <= usd_max) as G1 by (pose proof (Qmult_le_compat_r part 1 w P1 Hw0); lra).
  assert (0 <= e) as He0 by (unfold near in Hc; lra).
  assert (part * e <= 1) as Ge by (pose proof (Qmult_le_compat_r part 1 e P1 He0); lra).
  assert (modest (c * r)) as Hm by (unfold modest, near, usd_max, tiny in *; lra).
  pose proof (rounds_modest _ _ Ht Hm) as H4.
  assert (modest (c - t)) as Hm' by (unfold modest, near, eps, usd_max, tiny in *; lra).
  pose proof (rounds_modest _ _ Hrest Hm') as H5. unfold near, eps, tiny, usd_max in *. split; lra.
Qed.

Definition count (ls : list exact_lot) : Q := inject_Z (Z.of_nat (length ls)).

Lemma count_cons l ls : count (l :: ls) == count ls + 1.
Proof. unfold count. cbn [length]. by rewrite Nat2Z.inj_succ, <-Z.add_1_r, inject_Z_plus. Qed.

Lemma count_nonneg ls : 0 <= count ls.
Proof. unfold count. change 0 with (inject_Z 0). rewrite <-Zle_Qle. lia. Qed.

Section tracking.
Context {D : Type} `{DecimalSpec D} (parse_rfc3339 : string → option instant) (k : nat).
Set Default Proof Using "Type".

(** The lots of the code are those of the reference, their costs off by [E] in
    all. *)
Inductive tracks : Q → list (OpenLot (D := D)) → list exact_lot → Prop :=
  | tracks_nil E : 0 <= E → tracks E [] []
  | tracks_cons e E F lot l open ls : units k (left l) (amount lot) → time lot = since l → near e (d_val (cost_usd lot)) (worth l) →
      e + E <= F → tracks E open ls → tracks F (lot :: open) (l :: ls).

Lemma tracks_nonneg E open ls : tracks E open ls → 0 <= E.
Proof. induction 1 as [|e E F lot l open ls _ _ [? ?]]; [done|]. lra. Qed.

Lemma tracks_weaken E F open ls : tracks E open ls → E <= F → tracks F open ls.
Proof. intros Ht. revert F. induction Ht; intros F' HF; [constructor; lra|econstructor; [done|done|done| |done]; lra]. Qed.

Lemma units_ratio m n (a b : D) : (0 < n)%Z → units k m a → units k n b →
  ¬ (d_val b == 0) ∧ d_val a / d_val b == inject_Z m / inject_Z n.
Proof.
  unfold units. intros Hn Ha Hb. pose proof (pow10_pos k) as Hp.
  assert (¬ d_val b == 0) as Hnz.
  { intros E. rewrite E, Qmult_0_l in Hb. apply (inject_Z_injective 0 n) in Hb. lia. }
  split; [done|]. rewrite <-Ha, <-Hb. field. split; [intros E; lra|done].
Qed.

Lemma add_near e f a b x y (c : D) : near e (d_val a) x → near f (d_val b) y → modest (d_val a + d_val b) →
  c = d_add a b → near (e + f + eps) (d_val c) (x + y).
Proof.
  intros Ha Hb Hm ->. pose proof (rounds_modest _ _ (d_add_val a b) Hm) as Hr. unfold near in *. split; lra.
Qed.

(** One lot: what the code takes of it and what it leaves. *)
Lemma consume_lot_exact e K Ec n m (c : consumption) lot l rest : (k <= 28)%nat →
  units k (left l) (amount lot) → (0 < left l <= max_mantissa)%Z → near e (d_val (cost_usd lot)) (worth l) →
  0 <= worth l → worth l <= usd_max → e <= 1 → near Ec (d_val (cost c)) K → 0 <= K → K <= usd_max → Ec <= 1 →
  units k n (remaining c) → (0 < n <= max_mantissa)%Z → units k m (matched_amount c) → (0 <= m)%Z → (m + n <= max_mantissa)%Z →
  let c' := consume_lot c lot rest in
  let took := Z.min n (left l) in
  let part := inject_Z took / inject_Z (left l) in
  units k (n - took) (remaining c') ∧ units k (m + took) (matched_amount c')
  ∧ open_time c' = first_some (open_time c) (time lot)
  ∧ near (Ec + e * part + 4 * eps) (d_val (cost c')) (K + worth l * part)
  ∧ if (left l <=? n)%Z then lots c' = rest
    else ∃ lot', lots c' = lot' :: rest ∧ units k (left l - n) (amount lot') ∧ time lot' = time lot
      ∧ near (e * (1 - part) + 4 * eps) (d_val (cost_usd lot')) (worth l * (1 - part)).
Proof.
  intros Hk Hl Hlp He Hw0 Hw He1 Hc HK0 HK Hc1 Hn Hnp Hm Hm0 Hmn. cbv zeta. set (took := Z.min n (left l)).
  set (part := inject_Z took / inject_Z (left l)).
  assert (units k took (d_min (remaining c) (amount lot))) as Htake.
  { unfold d_min. rewrite (units_leb k n (left l)) by done. unfold took. destruct (Z.leb_spec n (left l)).
    - by rewrite Z.min_l by done.
    - by rewrite Z.min_r by lia. }
  destruct (part_range took (left l)) as [P0 P1]; [lia|lia|]. fold part in P0, P1.
  unfold consume_lot. set (take := d_min (remaining c) (amount lot)) in *.
  rewrite (units_eqb k (left l) 0 (amount lot)) by (done || apply units_zero). rewrite (proj2 (Z.eqb_neq _ _)) by lia. cbn [negb].
  destruct (units_ratio took (left l) take (amount lot)) as [Hnz Hratio]; [lia|done..|].
  pose proof (rounds_eq _ _ _ Hratio (d_div_val take (amount lot) Hnz)) as Hr. fold part in Hr.
  set (t := d_mul (cost_usd lot) (d_div take (amount lot))).
  destruct (near_share e _ (worth l) part _ (d_val t) (d_val (d_sub (cost_usd lot) t)) He Hw0 Hw He1 P0 P1 Hr (d_mul_val _ _) (d_sub_val _ _)) as [Ht Hs].
  assert (units k (left l - took) (d_sub (amount lot) take)) as Ha by (apply units_sub; [done|lia|done..]).
  rewrite (units_eqb k (left l - took) 0) by (done || apply units_zero).
  cbn [remaining cost open_time matched_amount lots]. split_and!.
  - apply units_sub; [done|lia|done..].
  - apply units_add; [done|lia|done..].
  - by destruct (open_time c).
  - assert (0 <= worth l * part) by by apply Qmult_le_0_compat.
    assert (worth l * part <= usd_max) by (pose proof (Qmult_le_compat_r part 1 (worth l) P1 Hw0); lra).
    assert (0 <= e) by (unfold near in He; lra).
    assert (part * e <= 1) by (pose proof (Qmult_le_compat_r part 1 e P1 ltac:(done)); lra).
    eapply (add_near Ec (e * part + 3 * eps)) in Ht; [|exact Hc| |reflexivity].
    + unfold near in *. split; lra.
    + unfold modest, near, usd_max, eps in *. lra.
  - unfold took in *. destruct (Z.leb_spec (left l) n).
    + rewrite Z.min_r, Z.sub_diag by lia. done.
    + rewrite Z.min_l in * by lia. rewrite (proj2 (Z.eqb_neq _ _)) by lia. eexists. split; [done|]. cbn [amount time cost_usd]. done.
Qed.

Lemma exact_sell_zero ls : exact_sell 0 ls = (ls, 0, None, 0%Z).
Proof. by destruct ls. Qed.

Lemma total_units_nonneg ls : lots_positive ls → (0 <= total_units ls)%Z.
Proof. unfold total_units. induction 1 as [|l ls [? ?] _ IH]; cbn; lia. Qed.

Lemma total_worth_nonneg ls : lots_positive ls → 0 <= total_worth ls.
Proof. unfold total_worth, qsum. induction 1 as [|l ls [? ?] _ IH]; cbn; lra. Qed.

(** The loop of a sale. *)
Lemma consume_exact fuel E K Ec n m (c c' : consumption) ls : (k <= 28)%nat →
  tracks E (lots c) ls → lots_positive ls → (total_units ls <= max_mantissa)%Z → K + total_worth ls <= usd_max →
  near Ec (d_val (cost c)) K → 0 <= K → E + Ec + 10 * eps * count ls <= 1 - 10 * eps →
  units k n (remaining c) → (0 <= n)%Z → units k m (matched_amount c) → (0 <= m)%Z → (m + n <= max_mantissa)%Z →
  consume fuel c = Some c' →
  let '(ls', cost', opened, rest) := exact_sell n ls in
  units k rest (remaining c') ∧ units k (m + (n - rest)) (matched_amount c')
  ∧ open_time c' = first_some (open_time c) opened
  ∧ ∃ E' Ec', tracks E' (lots c') ls' ∧ near Ec' (d_val (cost c')) (K + cost')
      ∧ E' + Ec' + 10 * eps * count ls' <= E + Ec + 10 * eps * (count ls + 1).
Proof.
  intros Hk. revert E K Ec n m c ls. induction fuel as [|fuel IH];
    intros E K Ec n m c ls Ht Hp Hu Hw Hc HK Hsmall Hn Hn0 Hm Hm0 Hmn; cbn [consume];
    rewrite (units_leb k n 0) by (done || apply units_zero);
    (destruct (Z.leb_spec n 0) as [Hz|Hz];
      [intros [= <-]; assert (n = 0%Z) as -> by lia; rewrite exact_sell_zero; split_and!;
        [done|by rewrite Z.add_0_r|by destruct (open_time c)|];
        exists E, Ec; split_and!; [done|eapply near_eq; [|exact Hc]; ring|unfold eps; lra]|]);
    (inversion Ht as [F HF EF El Els|e E1 F lot l open rest Ha Hti He HE Hrest EF El Els]; subst;
      [intros [= <-]; cbn [exact_sell]; split_and!; [done|by replace (m + (n - n))%Z with m by lia|by destruct (open_time c)|];
        exists E, Ec; split_and!; [rewrite <-El; by constructor|eapply near_eq; [|exact Hc]; ring|unfold eps; lra]|]); [done|].
  intros Hrun. apply Forall_cons in Hp as [[Hl Hwl] Hps].
  pose proof (total_units_nonneg _ Hps) as Hun. pose proof (total_worth_nonneg _ Hps) as Hwn. pose proof (tracks_nonneg _ _ _ Hrest) as HE1.
  rewrite count_cons in Hsmall. pose proof (count_nonneg rest) as Hcn.
  change (total_units (l :: rest)) with (left l + total_units rest)%Z in Hu.
  assert (K + worth l + total_worth rest <= usd_max) as Hw' by (unfold total_worth, qsum in *; cbn in Hw; lra).
  assert (0 <= Ec) as HEc by (unfold near in Hc; lra). assert (0 <= e) as He0 by (unfold near in He; lra).
  destruct (consume_lot_exact e K Ec n m c lot l open Hk Ha) as (Hr' & Hm' & Ho' & Hc' & Hl'); [lia|done|done|lra|unfold eps in *; lra|done|done|lra|unfold eps in *; lra|done|lia|done|lia|lia|].
  cbn [exact_sell]. rewrite (proj2 (Z.leb_gt n 0)) by lia. destruct (Z.leb_spec (left l) n) as [Hle|Hlt].
  - rewrite Z.min_r in * by lia. assert (inject_Z (left l) / inject_Z (left l) == 1) as E1'.
    { unfold Qdiv. apply Qmult_inv_r. intros E0. apply (inject_Z_injective (left l) 0) in E0. lia. }
    apply (near_eq _ _ _ (K + worth l)) in Hc'; [|rewrite E1'; ring]. apply (near_weaken _ (Ec + e + 4 * eps)) in Hc'; [|rewrite E1'; lra].
    rewrite <-Hl' in Hrest.
    eapply (IH E1) in Hrun; [| | | | |exact Hc'| | |exact Hr'| |exact Hm'| |];
      [|exact Hrest|done|lia|lra|lra|unfold eps in *; lra|lia|lia|lia].
    destruct (exact_sell (n - left l) rest) as [[[ls' cost'] opened] r]. destruct Hrun as (G1 & G2 & G3 & E' & Ec' & G4 & G5 & G6).
    split_and!; [done| | |].
    + by replace (m + (n - r))%Z with (m + left l + (n - left l - r))%Z by lia.
    + rewrite G3, Ho', Hti. by destruct (open_time c), (since l).
    + exists E', Ec'. split_and!; [done|eapply near_eq; [|exact G5]; ring|]. rewrite count_cons. unfold eps in *. lra.
  - rewrite Z.min_l in * by lia. destruct Hl' as (lot' & El' & Ha' & Ht' & Hw'').
    assert (c' = consume_lot c lot open) as ->.
    { destruct fuel; cbn [consume] in Hrun; rewrite (units_leb k (n - n) 0) in Hrun by (done || apply units_zero);
        rewrite Z.sub_diag in Hrun; by injection Hrun. }
    split_and!; [by rewrite Z.sub_diag in Hr'|by rewrite Z.sub_0_r|by rewrite Ho', Hti|].
    eexists _, _. split_and!; [rewrite El'; econstructor; [exact Ha'|by rewrite Ht'|exact Hw''|apply Qle_refl|exact Hrest]|exact Hc'|].
    rewrite !count_cons. unfold eps in *. lra.
Qed.

(** ** One key *)

(** A swap read as a leg: its amount in units of 10^-k, its dollars, its time. *)
Definition reads (s : ScoredSwap (D := D)) (g : leg) : Prop :=
  match g with
  | Bought n usd t => Swap.direction (swap s) = SwapDirection.Buy ∧ units k n (parse_decimal (Swap.amount_out (swap s)))
      ∧ d_val (usd_value s) == usd ∧ timestamp_secs parse_rfc3339 (swap s) = t
  | Sold n usd t => Swap.direction (swap s) = SwapDirection.Sell ∧ units k n (parse_decimal (Swap.amount_in (swap s)))
      ∧ d_val (usd_value s) == usd ∧ timestamp_secs parse_rfc3339 (swap s) = t
  end.

(** A leg within the type: something is bought, and no leg exceeds [usd_max]. *)
Definition leg_fits (g : leg) : Prop :=
  match g with
  | Bought n usd _ => (0 < n)%Z ∧ 0 <= usd
  | Sold n usd _ => (0 <= n <= max_mantissa)%Z ∧ 0 <= usd ∧ usd <= usd_max
  end.

Record settles (token : string) (e : Q) (p : MatchedPosition (D := D)) (o : exact_outcome) : Prop := MkSettles {
  settled_gain : near e (d_val (realized_pnl p)) (gain o);
  settled_hold : hold_seconds p = held o;
  settled_rest : units k (unsold o) (unmatched_sell_amount p);
  settled_token : pos_token p = token;
}.

(** The positions are the outcomes, their gains off by [F] in all. *)
Inductive settled (token : string) : Q → list (MatchedPosition (D := D)) → list exact_outcome → Prop :=
  | settled_nil F : 0 <= F → settled token F [] []
  | settled_cons e E F p o ps os : settles token e p o → e + E <= F → settled token E ps os → settled token F (p :: ps) (o :: os).

Lemma near_same v q : v == q → near 0 v q.
Proof. unfold near. intros ->. split; lra. Qed.

Lemma sell_exact token (s : ScoredSwap (D := D)) n usd t open open' p E ls : (k <= 28)%nat →
  reads s (Sold n usd t) → leg_fits (Sold n usd t) → tracks E open ls → lots_positive ls →
  (total_units ls <= max_mantissa)%Z → total_worth ls <= usd_max → E + 10 * eps * count ls <= 1 - 10 * eps →
  sell parse_rfc3339 token s open = Some (open', p) →
  let '(ls', cost', opened, rest) := exact_sell n ls in
  ∃ E' P, tracks E' open' ls' ∧ settles token P p (outcome_of n usd t cost' opened rest)
    ∧ E' + P + 10 * eps * count ls' <= E + 10 * eps * (count ls + 2).
Proof.
  intros Hk (Hdir & Hn & Husd & Ht) (Hn0 & Hu0 & Hu1) Htr Hp Hu Hw Hsmall. unfold sell.
  set (amt := parse_decimal (Swap.amount_in (swap s))) in *.
  destruct (consume _ _) as [c|] eqn:Ec; [|done]. intros [= <- <-].
  pose proof (exact_sell_books n ls (proj1 Hn0) Hp) as Hb.
  eapply (consume_exact _ E 0 0 n 0) in Ec; [|done|exact Htr|done|done|lra|apply near_same, d_zero_val|lra|lra|exact Hn|lia|apply units_zero|lia|lia].
  destruct (exact_sell n ls) as [[[ls' cost'] opened] rest].
  destruct Hb as (Hp' & Hcost0 & Ew & _ & Hrest & _). destruct Ec as (Hr & Hm & Ho & E' & Ec' & Htr' & Hc & HE).
  pose proof (total_worth_nonneg _ Hp') as Hw'. pose proof (count_nonneg ls') as Hcn. pose proof (count_nonneg ls) as Hcn0.
  pose proof (tracks_nonneg _ _ _ Htr') as HE'. assert (0 <= Ec') as HEc' by (unfold near in Hc; lra).
  set (proceeds := if negb (d_eqb amt d_zero) then _ else d_zero).
  assert (near (3 * eps) (d_val proceeds) (usd * (inject_Z (n - rest) / inject_Z n))) as Hpro.
  { unfold proceeds. rewrite (units_eqb k n 0) by (done || apply units_zero). destruct (Z.eqb_spec n 0) as [->|Hnz]; cbn [negb].
    - assert (rest = 0%Z) as -> by lia. change (inject_Z (0 - 0) / inject_Z 0) with 0.
      eapply (near_weaken 0); [apply near_same; rewrite d_zero_val; ring|unfold eps; lra].
    - rewrite Z.add_0_l in Hm. destruct (units_ratio (n - rest) n (matched_amount c) amt) as [Hz Hratio]; [lia|done..|].
      pose proof (rounds_eq _ _ _ Hratio (d_div_val _ _ Hz)) as Hround. destruct (part_range (n - rest) n) as [P0 P1]; [lia|lia|].
      destruct (near_share 0 (d_val (usd_value s)) usd _ _ _ (d_val (d_sub (usd_value s) (d_mul (usd_value s) (d_div (matched_amount c) amt)))) (near_same _ _ Husd)
        Hu0 Hu1 ltac:(lra) P0 P1 Hround (d_mul_val _ _) (d_sub_val _ _)) as [Hn' _].
      eapply near_weaken; [exact Hn'|]. unfold eps. lra. }
  assert (0 <= usd * (inject_Z (n - rest) / inject_Z n) ∧ usd * (inject_Z (n - rest) / inject_Z n) <= usd_max) as [G0 G1].
  { destruct (Z.eqb_spec n 0) as [->|Hnz].
    - assert (rest = 0%Z) as -> by lia. change (inject_Z (0 - 0) / inject_Z 0) with 0. unfold usd_max. lra.
    - destruct (part_range (n - rest) n) as [P0 P1]; [lia|lia|]. split; [by apply Qmult_le_0_compat|].
      pose proof (Qmult_le_compat_r _ 1 usd P1 Hu0). lra. }
  exists E', (Ec' + 4 * eps). split_and!; [done| |unfold eps in *; lra].
  assert (modest (d_val proceeds - d_val (cost c))) as Hmod.
  { unfold modest, near, usd_max, eps in *. lra. }
  pose proof (rounds_modest _ _ (d_sub_val proceeds (cost c)) Hmod) as Hpnl.
  split; cbn [realized_pnl hold_seconds unmatched_sell_amount pos_token outcome_of gain held unsold].
  - unfold near in *. lra.
  - rewrite Ho, Ht. done.
  - done.
  - done.
Qed.

Definition swaps (n : nat) : Q := inject_Z (Z.of_nat n).

Lemma swaps_S n : swaps (S n) == swaps n + 1.
Proof. unfold swaps. by rewrite Nat2Z.inj_succ, <-Z.add_1_r, inject_Z_plus. Qed.

Lemma swaps_nonneg n : 0 <= swaps n.
Proof. unfold swaps. change 0 with (inject_Z 0). rewrite <-Zle_Qle. lia. Qed.

Lemma total_units_snoc ls l : total_units (ls ++ [l]) = (total_units ls + left l)%Z.
Proof. unfold total_units. induction ls as [|x ls IH]; cbn in *; lia. Qed.

Lemma total_worth_snoc ls l : total_worth (ls ++ [l]) == total_worth ls + worth l.
Proof. unfold total_worth, qsum. induction ls as [|x ls IH]; cbn in *; [ring|]. rewrite IH. ring. Qed.

Lemma tracks_snoc E open ls lot l : tracks E open ls → units k (left l) (amount lot) → time lot = since l →
  d_val (cost_usd lot) == worth l → tracks E (open ++ [lot]) (ls ++ [l]).
Proof.
  intros Ht Ha Hti Hc. induction Ht as [F HF|e E F lot' l' open ls ? ? ? ? ? IH]; cbn [app].
  - eapply (tracks_cons 0 F); [done|done|by apply near_same|lra|by constructor].
  - econstructor; [done|done|done|done|exact IH].
Qed.

Lemma loop_exact token l legs open ps0 open' ps' E ls : (k <= 28)%nat →
  Forall2 reads l legs → Forall leg_fits legs → tracks E open ls → lots_positive ls →
  (total_units ls + zsum (leg_bought <$> legs) <= max_mantissa)%Z → total_worth ls + qsum (leg_paid <$> legs) <= usd_max →
  E + 10 * eps * count ls + 20 * eps * swaps (length legs) <= 1 - 10 * eps →
  fifo_loop parse_rfc3339 token (open, ps0) l = Some (open', ps') →
  let '(ls', outs) := exact_fifo ls legs in
  ∃ E' P ps, ps' = ps0 ++ ps ∧ tracks E' open' ls' ∧ settled token P ps outs
    ∧ E' + P + 10 * eps * count ls' <= E + 10 * eps * count ls + 20 * eps * swaps (length legs).
Proof.
  intros Hk Hl. revert open ps0 E ls. induction Hl as [|s g l legs Hs Hl IH]; intros open ps0 E ls Hf Ht Hp Hu Hw Hsmall; cbn [fifo_loop exact_fifo].
  { intros [= <- <-]. exists E, 0, []. rewrite app_nil_r. split_and!; [done|done|constructor; lra|]. cbn [length]. change (swaps 0) with 0. lra. }
  apply Forall_cons in Hf as [Hg Hf]. cbn [length] in Hsmall |- *. rewrite swaps_S in Hsmall. pose proof (swaps_nonneg (length legs)) as Hsn.
  assert (0 <= qsum (leg_paid <$> legs) ∧ (0 <= zsum (leg_bought <$> legs))%Z) as [Hq0 Hz0].
  { clear -Hf. unfold qsum, zsum. induction Hf as [|g legs Hg _ IH]; cbn; [split; [lra|lia]|]. destruct g; destruct Hg; cbn; split; [lra|lia|lra|lia]. }
  unfold fifo_step. destruct g as [n usd t|n usd t].
  - destruct Hs as (Hdir & Hn & Husd & Hti), Hg as [Hn0 Hu0]. rewrite Hdir. cbn [fst snd]. intros Hrun.
    set (x := MkExact n usd t).
    change (zsum (leg_bought <$> Bought n usd t :: legs)) with (n + zsum (leg_bought <$> legs))%Z in Hu.
    change (qsum (leg_paid <$> Bought n usd t :: legs)) with (usd + qsum (leg_paid <$> legs)) in Hw.
    assert (tracks E (open ++ [MkLot (parse_decimal (Swap.amount_out (swap s))) (usd_value s) (timestamp_secs parse_rfc3339 (swap s))]) (ls ++ [x])) as Ht'
      by (by apply tracks_snoc).
    assert (count (ls ++ [x]) == count ls + 1) as Ecount.
    { unfold count. rewrite length_app. cbn [length]. by rewrite Nat.add_1_r, Nat2Z.inj_succ, <-Z.add_1_r, inject_Z_plus. }
    apply (IH _ _ E (ls ++ [x])) in Hrun; [|done|exact Ht'|apply Forall_app_2; [done|by apply Forall_singleton]|rewrite total_units_snoc; cbn [left x]; lia
      |rewrite total_worth_snoc; cbn [worth x]; lra|rewrite Ecount; unfold eps in *; lra].
    destruct (exact_fifo _ legs) as [ls' outs]. destruct Hrun as (E' & P & ps & -> & H1 & H2 & H3).
    exists E', P, ps. split_and!; [done..|]. rewrite Ecount in H3. rewrite swaps_S. unfold eps in *. lra.
  - pose proof Hs as (Hdir & _). rewrite Hdir. destruct (sell _ _ _ _) as [[open1 p]|] eqn:Esell; [|done]. cbn [fst snd]. intros Hrun.
    pose proof (exact_sell_books n ls (proj1 (proj1 Hg)) Hp) as Hb. pose proof (count_nonneg ls) as Hcn.
    change (zsum (leg_bought <$> Sold n usd t :: legs)) with (zsum (leg_bought <$> legs)) in Hu.
    assert (total_worth ls + qsum (leg_paid <$> legs) <= usd_max) as Hw' by (unfold qsum in *; cbn in Hw; lra).
    apply (sell_exact _ _ n usd t _ _ _ E ls Hk Hs Hg) in Esell; [|done|done|lia|lra|unfold eps in *; lra].
    destruct (exact_sell n ls) as [[[ls1 cost1] opened] rest]. destruct Hb as (Hp1 & Hc0 & Ew & Eu & Hr & _).
    destruct Esell as (E1 & P1 & Ht1 & Hset & HE1). pose proof (tracks_nonneg _ _ _ Ht1) as HE0.
    assert (0 <= P1) as HP1 by (destruct Hset as [Hgain _ _ _]; unfold near in Hgain; lra).
    apply (IH _ _ E1 ls1) in Hrun; [|done|done|done|lia|lra|unfold eps in *; lra].
    destruct (exact_fifo ls1 legs) as [ls' outs]. destruct Hrun as (E' & P & ps & -> & G1 & G2 & G3).
    exists E', (P1 + P), (p :: ps). rewrite <-(assoc_L (++)). split_and!; [done|done| |rewrite swaps_S; unfold eps in *; lra].
    econstructor; [exact Hset|apply Qle_refl|exact G2].
Qed.

(** The sums over the open lots. *)
Lemma open_total_exact E open ls : (k <= 28)%nat → tracks E open ls → lots_positive ls → (total_units ls <= max_mantissa)%Z → total_worth ls <= usd_max →
  E + eps * count ls <= 1 →
  units k (total_units ls) (open_total open).1 ∧ near (E + eps * count ls) (d_val (open_total open).2) (total_worth ls).
Proof.
  intros Hk Ht Hp Hu Hw Hsmall. unfold open_total.
  assert (∀ a c n w F, units k n a → (0 <= n)%Z → near F (d_val c) w → 0 <= w → (n + total_units ls <= max_mantissa)%Z → w + total_worth ls <= usd_max →
    F + E + eps * count ls <= 1 →
    let r := foldl (λ '(a, c) l, (d_add a (amount l), d_add c (cost_usd l))) (a, c) open in
    units k (n + total_units ls) r.1 ∧ near (F + E + eps * count ls) (d_val r.2) (w + total_worth ls)) as Hg.
  { clear Hu Hw Hsmall. revert Hp. unfold total_worth, total_units, qsum.
    induction Ht as [G HG|e E G lot l open ls Ha Hti He HE Ht IH]; intros Hp a c n w F Hn Hn0 Hc Hw0 Hu Hw Hsmall; cbn [foldl fmap list_fmap foldr] in *.
    { change (count []) with 0 in *. rewrite Z.add_0_r. split; [done|]. cbn [snd]. unfold near in *. lra. }
    apply Forall_cons in Hp as [[Hl0 Hlw] Hp]. rewrite count_cons in *. pose proof (count_nonneg ls) as Hcn.
    pose proof (total_units_nonneg _ Hp) as Hun. pose proof (total_worth_nonneg _ Hp) as Hwn. unfold total_units, total_worth, qsum in Hun, Hwn.
    pose proof (tracks_nonneg _ _ _ Ht) as HE0. assert (0 <= F ∧ 0 <= e) as [HF He0] by (unfold near in *; lra).
    assert (modest (d_val c + d_val (cost_usd lot))) as Hm by (unfold modest, near, usd_max, eps in *; lra).
    pose proof (add_near F e _ _ _ _ _ Hc He Hm eq_refl) as Hc'.
    destruct (IH Hp (d_add a (amount lot)) (d_add c (cost_usd lot)) (n + left l)%Z (w + worth l) (F + e + eps)) as [H1 H2];
      [apply units_add; [done|lia|done..]|lia|exact Hc'|lra|lia|lra|unfold eps in *; lra|].
    split; [by rewrite Z.add_assoc|]. unfold near in *. split; lra. }
  destruct (Hg d_zero d_zero 0%Z 0 0) as [H1 H2]; [apply units_zero|done|apply near_same, d_zero_val|lra|lia|lra|lra|].
  split; [done|]. unfold near in *. split; lra.
Qed.
End tracking.

(** ** All keys *)

Section theorem.
Context {D : Type} `{DecimalSpec D} (parse_rfc3339 : string → option instant).
Set Default Proof Using "Type".

(** The error allowed after [n] swaps: 2 * 10^-15 dollars each. *)
Definition slack (n : nat) : Q := 20 * eps * swaps n.

Lemma settled_each k token F ps os : settled k token F ps os → 0 <= F ∧ Forall2 (settles k token F) ps os
  ∧ near F (qsum ((λ p, d_val (realized_pnl p)) <$> ps)) (qsum (gain <$> os)).
Proof.
  unfold qsum. induction 1 as [F HF|e E F p o ps os Hp HE _ (HE0 & IH & IHs)]; [split_and!; [done|constructor|unfold near; cbn; lra]|].
  destruct Hp as [Hg Hh Hr Ht]. assert (0 <= e) as He by (unfold near in Hg; lra). split_and!; [lra| |].
  - constructor; [split; [eapply near_weaken; [done|lra]|done..]|]. eapply Forall2_impl; [exact IH|].
    intros p' o' [? ? ? ?]. split; [eapply near_weaken; [done|lra]|done..].
  - cbn. unfold near in *. split; lra.
Qed.

End theorem.

(** ** An instance *)

Definition sample_swap (dir : SwapDirection) (amt : string) (usd : Z) : ScoredSwap (D := Qc) :=
  MkScored (Swap.mk "solana" "W" "T" dir amt amt "" "") (Q2Qc (inject_Z usd)).

(** Two buys and a sell that spans both lots. *)
Definition sample_swaps : list (ScoredSwap (D := Qc)) :=
  [sample_swap SwapDirection.Buy "10" 100; sample_swap SwapDirection.Buy "10" 300;
   sample_swap SwapDirection.Sell "15" 600].

Definition sample_legs : list leg := [Bought 10 100 None; Bought 10 300 None; Sold 15 600 None].

