(* ===== verification/Wallets.v ===== *)
(** * Wallet intelligence (src/src/sf/wallet_runtime.rs, wallet.rs)

    The FIFO matching of CostBasis.v aggregated per wallet: average cost,
    realised and unrealised outcome, recurrence, the cost basis of the most
    traded token.  The iteration orders of the four hash maps are arguments;
    [d_to_string] is [Decimal::to_string]. *)
From S2P Require Import Prelude Text Floats Domain CostBasis.
From stdpp Require Import gmap sets list strings.
From Stdlib Require Import QArith.QArith_base QArith.Qcanon.
From stdpp Require Import options.
Local Open Scope string_scope.
Local Open Scope Z_scope.
Local Open Scope list_scope.

Record CostBasis := MkCostBasis { cb_token : string; cb_average_cost : string; cb_realized_pnl : option string }.

Record Recurrence := MkRecurrence { rc_tokens_traded : Z; rc_distinct_clusters : Z }.

Inductive TagSourceType := TagManual | TagSystem | TagImport | TagVendor | TagInferred.
Inductive TagStatus := TagActive | TagDisputed | TagExpired | TagRevoked.

Record WalletTagAssertion := MkTag {
  namespace : string;
  name : string;
  source_type : TagSourceType;
  truth_status : TruthStatus;
  confidence : option f64;
  valid_from : string;
  valid_until : option string;
  tag_status : TagStatus;
  supersedes_id : option string;
}.

Record WalletIntelligence := MkWallet {
  wi_chain : string;
  wi_address : string;
  wi_cluster_id : option string;
  wi_cost_basis : option CostBasis;
  wi_tags : list WalletTagAssertion;
  wi_realized_outcome : option string;
  wi_unrealized_outcome : option string;
  wi_recurrence : option Recurrence;
}.

Section wallets.
Context {D : Type} `{Decimal D} (parse_rfc3339 : string → option instant) (d_to_string : D → string).

Record PricedSwap := MkPriced { ps_swap : Swap; ps_usd_value : D }.

Record SwapReconstruction := MkReconstruction {
  average_cost : gmap string D;
  rec_realized_pnl : D;
  realized_pnl_by_token : gmap string D;
  unrealized_pnl : D;
  tokens_traded : Z;
  distinct_clusters : Z;
}.

Definition to_scored (swaps : list PricedSwap) : list (ScoredSwap (D := D)) :=
  (λ p, MkScored (ps_swap p) (ps_usd_value p)) <$> swaps.

Definition swap_tokens (swaps : list PricedSwap) : gset string := list_to_set ((λ p, Swap.token (ps_swap p)) <$> swaps).

(** [*entry(token).or_insert(0) += pnl]. *)
Definition add_pnl (m : gmap string D) (p : MatchedPosition (D := D)) : gmap string D :=
  <[pos_token p := d_add (default d_zero (m !! pos_token p)) (realized_pnl p)]> m.

Definition average (r : D * D) : D := if negb (d_eqb r.1 d_zero) then d_div r.2 r.1 else d_zero.

(** The token and the residual of each key, in the order of [per_token]. *)
Definition residual_entries (order : list (string * string * string))
    (residual : gmap (string * string * string) (D * D)) : list (string * (D * D)) :=
  omap (λ k, (λ r, (k.2, r)) <$> residual !! k) order.

(** [CostBasisResidual::total_cost]. *)
Definition total_cost (order : list (string * string * string)) (residual : gmap (string * string * string) (D * D)) : D :=
  foldl d_add d_zero ((λ e : string * (D * D), e.2.2) <$> residual_entries order residual).

(** [keys] and [order]: the keys of the swaps in the orders of the two maps
    [fifo_match] iterates over and returns. *)
Definition reconstruct_swaps (keys order : list (string * string * string)) (swaps : list PricedSwap)
    (mark_usd : option (gmap string D)) : option SwapReconstruction :=
  '(positions, residual) ← fifo_match parse_rfc3339 keys (to_scored swaps);
  let entries := residual_entries order residual in
  Some (MkReconstruction
    (foldl (λ m e, <[e.1 := average e.2]> m) ∅ entries)
    (foldl d_add d_zero (realized_pnl <$> positions))
    (foldl add_pnl ∅ positions)
    (foldl (λ acc e, d_add acc (d_sub (default d_zero (mark_usd ≫= λ m, m !! e.1)) e.2.2)) d_zero entries)
    (wrap_u32 (Z.of_nat (size (swap_tokens swaps)))) 0).

Definition early_entry_timing (swaps : list PricedSwap) (token_birth_ts : option Z) : option Z :=
  match min_by Z.ltb (omap (λ p, timestamp_secs parse_rfc3339 (ps_swap p)) swaps), token_birth_ts with
  | Some w, Some t => Some (wrap_i64 (w - t))
  | _, _ => None
  end.

Definition compute_recurrence (swaps : list PricedSwap) (clusters : gmap string string) : Recurrence :=
  MkRecurrence (wrap_u32 (Z.of_nat (size (swap_tokens swaps))))
    (wrap_u32 (Z.of_nat (size (list_to_set (omap (λ p, clusters !! Swap.wallet (ps_swap p)) swaps) : gset string)))).

Definition own_swaps (chain address : string) (swaps : list PricedSwap) : list PricedSwap :=
  List.filter (λ p, bool_decide (Swap.chain (ps_swap p) = chain) && bool_decide (Swap.wallet (ps_swap p) = address)) swaps.

Definition token_count (own : list PricedSwap) (token : string) : nat :=
  length (List.filter (λ p, bool_decide (Swap.token (ps_swap p) = token)) own).

(** [Iterator::max_by]: the last of the greatest. *)
Definition max_last (count : string → nat) (l : list string) : option string :=
  foldl (λ best x, match best with
                   | Some b => if (count b <=? count x)%nat then Some x else Some b
                   | None => Some x
                   end) None l.

(** [avg_order]: the order of [average_cost]. *)
Definition build_wallet_intelligence (keys order : list (string * string * string)) (avg_order : list string)
    (chain address : string) (cluster_id : option string) (swaps : list PricedSwap)
    (mark_usd : option (gmap string D)) (clusters : gmap string string) : option WalletIntelligence :=
  let own := own_swaps chain address swaps in
  rec ← reconstruct_swaps keys order own mark_usd;
  let cost_basis :=
    token ← max_last (token_count own) avg_order;
    avg ← average_cost rec !! token;
    Some (MkCostBasis token (d_to_string avg) (d_to_string <$> realized_pnl_by_token rec !! token)) in
  Some (MkWallet chain address cluster_id cost_basis [] (Some (d_to_string (rec_realized_pnl rec)))
          (Some (d_to_string (unrealized_pnl rec))) (Some (compute_recurrence own clusters))).
End wallets.
Arguments PricedSwap : clear implicits.
Arguments SwapReconstruction : clear implicits.

(** ** The parts of a wallet *)

Set Default Proof Using "Type*".
Section parts.
Context {D : Type} `{DecimalSpec D} (parse_rfc3339 : string → option instant).
Local Abbreviation scored := (list (ScoredSwap (D := D))).

(** The positions and the residual of a key. *)
Definition positions_of (swaps : scored) (key : string * string * string) : list (MatchedPosition (D := D)) :=
  from_option fst [] (match_key parse_rfc3339 swaps key).
Definition residual_of (swaps : scored) (key : string * string * string) : D * D :=
  from_option snd (d_zero, d_zero) (match_key parse_rfc3339 swaps key).

Lemma match_key_parts swaps key : match_key parse_rfc3339 swaps key = Some (positions_of swaps key, residual_of swaps key).
Proof.
  unfold positions_of, residual_of. destruct (match_key_total parse_rfc3339 swaps key) as [[ps r] ->]. done.
Qed.

Lemma fifo_match_parts keys swaps : NoDup keys → ∃ residual,
  fifo_match parse_rfc3339 keys swaps = Some (flat_map (positions_of swaps) keys, residual)
  ∧ ∀ key, residual !! key = if decide (key ∈ keys) then Some (residual_of swaps key) else None.
Proof.
  intros Hnd. destruct (fifo_match_total parse_rfc3339 keys swaps) as [[positions residual] E]. exists residual.
  destruct (fifo_match_lookup parse_rfc3339 _ _ _ _ Hnd E) as [Hl ->]. split; [exact E|].
  intros key. rewrite Hl. case_decide; [|done]. by rewrite match_key_parts.
Qed.

Lemma residual_entries_parts keys order swaps residual : order ≡ₚ keys →
  (∀ key, residual !! key = if decide (key ∈ keys) then Some (residual_of swaps key) else None) →
  residual_entries order residual = (λ key, (key.2, residual_of swaps key)) <$> order.
Proof.
  intros Hp Hl. unfold residual_entries. assert (∀ k, k ∈ order → k ∈ keys) as Hin by (intros k; by rewrite Hp).
  clear Hp. induction order as [|k order IH]; [done|]. cbn. rewrite Hl, decide_True by (apply Hin; left). cbn.
  by rewrite IH by (intros; apply Hin; by right).
Qed.

(** ** Reconstruction *)

(** What [reconstruct_swaps] returns, over all orders at once. *)
Lemma reconstruct_parts keys order (swaps : list (PricedSwap D)) mark : NoDup keys → order ≡ₚ keys →
  reconstruct_swaps parse_rfc3339 keys order swaps mark = Some (MkReconstruction
    (foldl (λ m e, <[e.1 := average e.2]> m) ∅ ((λ key, (key.2, residual_of (to_scored swaps) key)) <$> order))
    (foldl d_add d_zero (realized_pnl <$> flat_map (positions_of (to_scored swaps)) keys))
    (foldl add_pnl ∅ (flat_map (positions_of (to_scored swaps)) keys))
    (foldl (λ acc key, d_add acc (d_sub (default d_zero (mark ≫= λ m, m !! key.2)) (residual_of (to_scored swaps) key).2)) d_zero order)
    (wrap_u32 (Z.of_nat (size (swap_tokens swaps)))) 0).
Proof.
  intros Hnd Hp. unfold reconstruct_swaps. destruct (fifo_match_parts keys (to_scored swaps) Hnd) as (residual & -> & Hl).
  cbn [mbind option_bind]. rewrite (residual_entries_parts _ _ _ _ Hp Hl). do 2 f_equal. by rewrite foldl_fmap.
Qed.

(** Every swap of a wallet is of its own keys, one per token. *)
Definition keys_of_wallet (keys : list (string * string * string)) (chain address : string) (own : list (PricedSwap D)) : Prop :=
  NoDup keys ∧ (∀ key, key ∈ keys → key.1 = (chain, address)) ∧ ∀ t, t ∈ swap_tokens own ↔ (chain, address, t) ∈ keys.

Lemma max_last_spec count l : match max_last count l with
  | Some x => x ∈ l ∧ ∀ y, y ∈ l → (count y <= count x)%nat
  | None => l = []
  end.
Proof.
  clear. unfold max_last. induction l as [|z l IH] using rev_ind; [done|]. rewrite foldl_app. cbn.
  destruct (foldl _ None l) as [b|] eqn:E; [|subst l; split; [by left|by intros y ->%list_elem_of_singleton]].
  destruct IH as [Hb Hm]. destruct (Nat.leb_spec (count b) (count z)).
  - split; [set_solver|]. intros y [Hy| ->%list_elem_of_singleton]%elem_of_app; [|done]. specialize (Hm y Hy). lia.
  - split; [set_solver|]. intros y [Hy| ->%list_elem_of_singleton]%elem_of_app; [by apply Hm|lia].
Qed.

Lemma foldl_average_lookup (l : list (string * (D * D))) (m : gmap string D) t : NoDup l.*1 →
  foldl (λ m e, <[e.1 := average e.2]> m) m l !! t
  = match find_first (λ e, bool_decide (e.1 = t)) l with Some e => Some (average e.2) | None => m !! t end.
Proof.
  revert m. induction l as [|e l IH]; intros m Hnd; [done|]. cbn [fmap list_fmap] in Hnd. apply NoDup_cons in Hnd as [He Hnd].
  cbn [foldl find_first]. rewrite (IH _ Hnd). case_bool_decide as Et.
  - subst t. assert (find_first (λ x, bool_decide (x.1 = e.1)) l = None) as ->; [|by rewrite lookup_insert_eq].
    apply find_first_None. intros x Hx. apply bool_decide_eq_false. intros E. apply He. rewrite <-E. by apply list_elem_of_fmap_2.
  - by rewrite lookup_insert_ne.
Qed.

Lemma positions_token (swaps : scored) key : Forall (λ p, pos_token p = key.2) (positions_of swaps key).
Proof.
  assert (∀ l st st', Forall (λ p, pos_token p = key.2) st.2 → fifo_loop parse_rfc3339 key.2 st l = Some st' →
    Forall (λ p, pos_token p = key.2) st'.2) as Hl.
  { induction l as [|s l IH]; intros st st' Hst; cbn [fifo_loop]; [by intros [= <-]|]. unfold fifo_step.
    destruct (Swap.direction (swap s)); [by apply IH|]. unfold sell. destruct (consume _ _); [|done].
    apply IH. cbn. apply Forall_app. split; [done|]. by repeat constructor. }
  unfold positions_of, match_key. destruct (fifo_loop _ _ _ _) as [[open ps]|] eqn:E; cbn; [|constructor].
  by eapply (Hl _ _ _ _ E).
  Unshelve. constructor.
Qed.

Lemma foldl_pnl_lookup (l : list (MatchedPosition (D := D))) (m : gmap string D) t :
  foldl add_pnl m l !! t = match List.filter (λ p, bool_decide (pos_token p = t)) l with
    | [] => m !! t
    | ps => Some (foldl d_add (default d_zero (m !! t)) (realized_pnl <$> ps))
    end.
Proof.
  revert m. induction l as [|p l IH]; intros m; [done|]. cbn [foldl List.filter]. rewrite IH. unfold add_pnl.
  case_bool_decide as Et.
  - subst t. rewrite lookup_insert_eq. by destruct (List.filter _ l).
  - by rewrite lookup_insert_ne.
Qed.

Lemma positions_filter (swaps : scored) key t :
  List.filter (λ p, bool_decide (pos_token p = t)) (positions_of swaps key) = if decide (key.2 = t) then positions_of swaps key else [].
Proof.
  pose proof (positions_token swaps key) as Hp. induction Hp as [|p ps Ep _ IH]; cbn; [by case_decide|].
  rewrite IH, Ep. case_bool_decide; by case_decide.
Qed.

Lemma positions_of_token keys (swaps : scored) chain address t : NoDup keys →
  (∀ key, key ∈ keys → key.1 = (chain, address)) → (chain, address, t) ∈ keys →
  List.filter (λ p, bool_decide (pos_token p = t)) (flat_map (positions_of swaps) keys) = positions_of swaps (chain, address, t).
Proof.
  intros Hnd. induction Hnd as [|key keys Hk Hnd IH]; intros Hw Hin; [by apply not_elem_of_nil in Hin|].
  cbn [flat_map]. rewrite List.filter_app, positions_filter. apply elem_of_cons in Hin as [<-|Hin].
  - rewrite decide_True by done. cbn [snd] in *.
    assert (∀ ks, (∀ k, k ∈ ks → k.2 ≠ t) → List.filter (λ p, bool_decide (pos_token p = t)) (flat_map (positions_of swaps) ks) = []) as ->.
    { induction ks as [|k ks IHk]; intros Hks; [done|]. cbn [flat_map]. rewrite List.filter_app, positions_filter, IHk by set_solver.
      by rewrite decide_False by (apply Hks; left). }
    { by rewrite app_nil_r. }
    intros k Hin E. apply Hk. pose proof (Hw k ltac:(by right)) as E1. destruct k as [ca t']; cbn in *; subst. done.
  - rewrite decide_False, IH; [done|intros k ?; apply Hw; by right|done|].
    intros E. apply Hk. pose proof (Hw key ltac:(left)) as E1. destruct key as [ca t']; cbn in *; by subst.
Qed.

End parts.


(** A swap of another wallet or chain, wherever it stands, changes nothing. *)
Theorem wallet_isolated {D} `{Decimal D} parse_rfc3339 d_to_string keys order avg_order chain address cluster
    (before after : list (PricedSwap D)) stray mark clusters
    (Hstray : Swap.chain (ps_swap stray) ≠ chain ∨ Swap.wallet (ps_swap stray) ≠ address) :
  build_wallet_intelligence parse_rfc3339 d_to_string keys order avg_order chain address cluster
    (before ++ stray :: after) mark clusters
  = build_wallet_intelligence parse_rfc3339 d_to_string keys order avg_order chain address cluster
      (before ++ after) mark clusters.
Proof.
  assert (own_swaps chain address (before ++ stray :: after) = own_swaps chain address (before ++ after)) as E.
  { unfold own_swaps. rewrite !List.filter_app. f_equal. cbn.
    destruct Hstray; [rewrite bool_decide_eq_false_2 by done; done|]. by rewrite (bool_decide_eq_false_2 (_ = address)), andb_false_r. }
  unfold build_wallet_intelligence. by rewrite E.
Qed.

(** ** A wallet with two tokens *)

Definition priced (chain wallet token : string) (dir : SwapDirection) (amount : string) (usd : Z) : PricedSwap Qc :=
  MkPriced (Swap.mk chain wallet token dir amount amount "" "") (Q2Qc (inject_Z usd)).

Definition two_tokens : list (PricedSwap Qc) :=
  [priced "solana" "A" "T" SwapDirection.Buy "10" 100; priced "solana" "B" "T" SwapDirection.Buy "50" 500;
   priced "solana" "A" "U" SwapDirection.Buy "2" 30; priced "solana" "A" "T" SwapDirection.Sell "4" 60].

Definition keys_A : list (string * string * string) := [("solana", "A", "T"); ("solana", "A", "U")].

Definition show_qc (q : Qc) : string := pretty (Qnum q) +:+ "/" +:+ pretty (Zpos (Qden q)).

Definition intelligence_A (avg_order : list string) :=
  build_wallet_intelligence (λ _, None) show_qc keys_A keys_A avg_order "solana" "A" None two_tokens None ∅.

Example intelligence_of_A :
  intelligence_A ["T"; "U"] = Some (MkWallet "solana" "A" None (Some (MkCostBasis "T" "10/1" (Some "20/1"))) [] (Some "20/1")
    (Some "-90/1") (Some (MkRecurrence 2 0))).
Proof. vm_compute. reflexivity. Qed.

(** Two tokens traded equally often: the order of a hash map decides which one is reported. *)
Example equal_tokens_undecided :
  let swaps := [priced "solana" "A" "T" SwapDirection.Buy "10" 100; priced "solana" "A" "U" SwapDirection.Buy "2" 30] in
  let basis avg_order := cb_token <$> (build_wallet_intelligence (λ _, None) show_qc keys_A keys_A avg_order "solana" "A" None
                                         swaps None ∅ ≫= wi_cost_basis) in
  basis ["T"; "U"] = Some "U" ∧ basis ["U"; "T"] = Some "T".
Proof. vm_compute. done. Qed.

Lemma keys_of_A : keys_of_wallet keys_A "solana" "A" (own_swaps "solana" "A" two_tokens).
Proof.
  split_and!.
  - apply (bool_decide_unpack _). vm_compute. reflexivity.
  - intros key Hk. repeat (apply elem_of_cons in Hk as [->|Hk]; [done|]). by apply not_elem_of_nil in Hk.
  - intros t. assert (swap_tokens (own_swaps "solana" "A" two_tokens) = {[ "T"; "U" ]}) as -> by (apply (bool_decide_unpack _); vm_compute; reflexivity).
    unfold keys_A. set_solver.
Qed.


Lemma wallet_isolated_witness :
  intelligence_A ["T"; "U"]
  = build_wallet_intelligence (λ _, None) show_qc keys_A keys_A ["T"; "U"] "solana" "A" None
      [priced "solana" "A" "T" SwapDirection.Buy "10" 100; priced "solana" "A" "U" SwapDirection.Buy "2" 30;
       priced "solana" "A" "T" SwapDirection.Sell "4" 60] None ∅.
Proof.
  apply (wallet_isolated (λ _, None) show_qc keys_A keys_A ["T"; "U"] "solana" "A" None
    [priced "solana" "A" "T" SwapDirection.Buy "10" 100]). right. discriminate.
Defined.
