(* ===== verification/Decimals.v ===== *)
(** * Decimal numerals

    What scoring and the chain adapters use of rust_decimal beyond the field
    operations of CostBasis.v: conversions from and to integers, literals,
    the checked product, [min] and [clamp].  [DecimalNumSpec] is what
    rust_decimal documents of the conversions: an integer of 96 bits and a
    literal of at most 28 places have their value, and [to_u32] truncates; the
    canonical rationals are an instance. *)
From S2P Require Import Prelude Text Floats CostBasis.
From Stdlib Require Import QArith.QArith QArith.Qreduction QArith.Qround QArith.Qcanon Lqa.
From stdpp Require Import options.
Local Open Scope Z_scope.

Class DecimalNum (D : Type) `{Decimal D} := {
  (** [Decimal::from] of an integer *)
  d_of_Z : Z → D;
  (** [Decimal::new(n, k)], the value of a literal: n / 10^k *)
  d_new : Z → nat → D;
  (** [Decimal::from_str_exact(s).ok()] *)
  d_exact : string → option D;
  (** [*] of rust_decimal: [None] is its overflow panic *)
  d_mul_checked : D → D → option D;
  (** [ToPrimitive::to_u32]: truncation *)
  d_to_u32 : D → option Z;
}.

Section operations.
Context {D : Type} `{DecimalNum D}.

Definition d_one : D := d_of_Z 1.
Definition d_ltb (a b : D) : bool := negb (d_leb b a).
Definition d_min (a b : D) : D := if d_leb a b then a else b.
(** [Ord::clamp]. *)
Definition d_clamp (a lo hi : D) : D := if d_ltb a lo then lo else if d_ltb hi a then hi else a.
Definition d_abs (a : D) : D := if d_leb d_zero a then a else d_sub d_zero a.
Definition d_sum (l : list D) : D := fold_left d_add l d_zero.
End operations.

Class DecimalNumSpec (D : Type) `{DecimalNum D} := {
  d_num_spec :: DecimalSpec D;
  d_of_Z_val z : Z.abs z <= max_mantissa → (d_val (d_of_Z z) == inject_Z z)%Q;
  d_new_val n k : (k <= 28)%nat → Z.abs n <= max_mantissa → units k n (d_new n k);
  d_to_u32_val (a : D) : (0 <= d_val a)%Q → (d_val a < inject_Z (2 ^ 32))%Q →
    ∃ n, d_to_u32 a = Some n ∧ (inject_Z n <= d_val a)%Q ∧ (d_val a < inject_Z (n + 1))%Q;
}.

Section spec.
Set Default Proof Using "Type*".
Context {D : Type} `{DecimalNumSpec D}.
Local Open Scope Q_scope.

(** The value lies between two integers. *)
Definition within (lo hi : Z) (a : D) : Prop := inject_Z lo <= d_val a ∧ d_val a <= inject_Z hi.

Definition small (z : Z) : Prop := (Z.abs z <= max_mantissa)%Z.

Lemma within_of_Z z : small z → within z z (d_of_Z z).
Proof. intros Hz. unfold within. rewrite d_of_Z_val by done. split; apply Qle_refl. Qed.

Lemma within_zero : within 0 0 d_zero.
Proof. unfold within. rewrite d_zero_val. split; apply Qle_refl. Qed.

Lemma within_weaken lo hi lo' hi' (a : D) : within lo hi a → (lo' <= lo)%Z → (hi <= hi')%Z → within lo' hi' a.
Proof. unfold within. rewrite !Zle_Qle. intros [] ??. split; lra. Qed.

Lemma within_add a1 a2 b1 b2 (a b : D) : within a1 a2 a → within b1 b2 b → small (a1 + b1) → small (a2 + b2) →
  within (a1 + b1) (a2 + b2) (d_add a b).
Proof.
  unfold within, small. intros [] [] ??. eapply rounds_between; [apply d_add_val|lia|lia|..]; rewrite inject_Z_plus; lra.
Qed.

Lemma within_sub a1 a2 b1 b2 (a b : D) : within a1 a2 a → within b1 b2 b → small (a1 - b2) → small (a2 - b1) →
  within (a1 - b2) (a2 - b1) (d_sub a b).
Proof.
  unfold within, small. intros [] [] ??. eapply rounds_between; [apply d_sub_val|lia|lia|..]; unfold Z.sub;
    rewrite inject_Z_plus, inject_Z_opp; lra.
Qed.

(** A product with a weight, and a quotient. *)
Lemma within_weight lo hi w (a : D) : within lo hi a → (0 <= w)%Z → small w → small (lo * w) → small (hi * w) →
  within (lo * w) (hi * w) (d_mul a (d_of_Z w)).
Proof.
  unfold within, small. intros [Ha1 Ha2] Hw Hsw ??. assert (0 <= inject_Z w) as Hq by (change 0 with (inject_Z 0); by rewrite <-Zle_Qle).
  eapply rounds_between; [apply d_mul_val|lia|lia|..]; rewrite inject_Z_mult, d_of_Z_val by done; by apply Qmult_le_compat_r.
Qed.

Lemma within_div lo hi n (a : D) : within (lo * n) (hi * n) a → (0 < n)%Z → small n → small lo → small hi →
  within lo hi (d_div a (d_of_Z n)).
Proof.
  unfold within, small. intros [Ha1 Ha2] Hn Hsn ??. assert (0 < inject_Z n) as Hq by (change 0 with (inject_Z 0); by rewrite <-Zlt_Qlt).
  rewrite inject_Z_mult in Ha1, Ha2. eapply rounds_between; [apply d_div_val|lia|lia|..]; rewrite d_of_Z_val by done.
  - intros E. rewrite E in Hq. by apply Qlt_irrefl in Hq.
  - by apply Qle_shift_div_l.
  - by apply Qle_shift_div_r.
Qed.

Lemma d_clamp_id (a lo hi : D) : d_val lo <= d_val a → d_val a <= d_val hi → d_clamp a lo hi = a.
Proof. intros Hl%d_leb_val Hh%d_leb_val. unfold d_clamp, d_ltb. by rewrite Hl, Hh. Qed.

Lemma within_clamp lo hi (a : D) (b c : D) : within lo lo b → within hi hi c → (lo <= hi)%Z → within lo hi (d_clamp a b c).
Proof.
  rewrite Zle_Qle. unfold within. intros [Hb1 Hb2] [Hc1 Hc2] Hlh. unfold d_clamp, d_ltb.
  destruct (d_leb b a) eqn:E1; cbn [negb]; [|lra]. apply d_leb_val in E1.
  destruct (d_leb a c) eqn:E2; cbn [negb]; [|lra]. apply d_leb_val in E2. lra.
Qed.

(** [to_u32] of a number between two integers. *)
Lemma to_u32_within lo hi (a : D) : within lo hi a → (0 <= lo)%Z → (hi < 2 ^ 32)%Z →
  ∃ n, d_to_u32 a = Some n ∧ (lo <= n <= hi)%Z ∧ inject_Z n <= d_val a ∧ d_val a < inject_Z (n + 1).
Proof.
  unfold within. intros [Ha1 Ha2] Hlo Hhi. destruct (d_to_u32_val a) as (n & E & F1 & F2).
  { eapply Qle_trans; [|exact Ha1]. change 0 with (inject_Z 0). by rewrite <-Zle_Qle. }
  { eapply Qle_lt_trans; [exact Ha2|]. by rewrite <-Zlt_Qlt. }
  exists n. split_and!; [done| | |done..].
  - enough (lo < n + 1)%Z by lia. rewrite Zlt_Qlt. by eapply Qle_lt_trans.
  - rewrite Zle_Qle. by eapply Qle_trans.
Qed.
End spec.

(** ** The canonical rationals *)

Definition qc_new (n : Z) (k : nat) : Qc := Q2Qc (n # Z.to_pos (10 ^ Z.of_nat k)).

Definition qc_to_u32 (a : Qc) : option Z :=
  let z := Qfloor a in if (0 <=? z) && (z <? 2 ^ 32) then Some z else None.

Definition qc_mul_checked (a b : Qc) : option Qc :=
  let p := (a * b)%Qc in if qc_leb p (qc_new (2 ^ 96 - 1) 0) then Some p else None.

(** [-]digits[.digits]. *)
Definition qc_exact (s : string) : option Qc :=
  let '(sign, body) := match strip_prefix "-" s with Some b => (-1, b) | None => (1, s) end in
  match split_on "."%char body with
  | [i] => if decide (i = "") then None else (λ n, qc_new (sign * n) 0) <$> digits 0 i
  | [i; f] =>
      if decide (i = "" ∨ f = "") then None
      else (λ n, qc_new (sign * n) (String.length f)) <$> digits 0 (i +:+ f)
  | _ => None
  end.

#[global] Instance Qc_DecimalNum : DecimalNum Qc := {|
  d_of_Z := λ z, qc_new z 0; d_new := qc_new; d_exact := qc_exact;
  d_mul_checked := qc_mul_checked; d_to_u32 := qc_to_u32;
|}.

Lemma qc_leb_iff (a b : Qc) : qc_leb a b = true ↔ (a <= b)%Qc.
Proof. apply Qle_bool_iff. Qed.

Lemma qc_new_Q n k : (this (qc_new n k) == n # Z.to_pos (10 ^ Z.of_nat k))%Q.
Proof. apply Qred_correct. Qed.

Lemma pow10_of_pos k : Z.pos (Z.to_pos (10 ^ Z.of_nat k)) = 10 ^ Z.of_nat k.
Proof. apply Z2Pos.id. lia. Qed.

Lemma qc_mul_Q (a b : Qc) : (this (a * b)%Qc == a * b)%Q.
Proof. apply Qred_correct. Qed.

Lemma qc_div_Q (a b : Qc) : (this (a / b)%Qc == a / b)%Q.
Proof. unfold Qcdiv. rewrite qc_mul_Q. unfold Qcinv, Qdiv. simpl. by rewrite Qred_correct. Qed.

#[global] Instance Qc_DecimalNumSpec : DecimalNumSpec Qc.
Proof.
  apply (Build_DecimalNumSpec Qc _ _ Qc_DecimalSpec).
  - intros z _. change (this (qc_new z 0) == inject_Z z)%Q. by rewrite qc_new_Q.
  - intros n k _ _. change (this (qc_new n k) * pow10 k == inject_Z n)%Q. rewrite qc_new_Q. unfold pow10, Qeq, Qmult, inject_Z. cbn [Qnum Qden]. rewrite Pos.mul_1_r, pow10_of_pos. ring.
  - intros a Ha Hb. simpl in *. exists (Qfloor a). pose proof (Qfloor_le a) as F1. pose proof (Qlt_floor a) as F2.
    assert (0 <= Qfloor a) as G1 by exact (Qfloor_resp_le 0 a Ha).
    assert (Qfloor a < 2 ^ 32) as G2 by (rewrite Zlt_Qlt; eapply Qle_lt_trans; [exact F1|]; exact Hb).
    unfold qc_to_u32. rewrite (proj2 (Z.leb_le _ _) G1), (proj2 (Z.ltb_lt _ _) G2). done.
Defined.

Example qc_exact_neg : qc_exact "-0.5" = Some (qc_new (-5) 1). Proof. reflexivity. Qed.
