(* ===== verification/Queues.v ===== *)
(** * Queue backpressure (src/src/queues.rs, WorkerContext of src/src/workers.rs)

    The pause switches of the queues: the in-memory state with its bottom-up
    pausing, and the check of a worker, which also asks the durable table and
    takes an unreadable table for a pause. *)
From S2P Require Import Prelude Text.
From stdpp Require Import options.
Local Open Scope string_scope.
Local Open Scope Z_scope.
Local Open Scope list_scope.

Definition QUEUE_LIVE_WATCH : string := "live_watch".
Definition QUEUE_FUNDING_RADAR : string := "funding_radar".
Definition QUEUE_TELEGRAM_INGEST : string := "telegram_ingest".
Definition QUEUE_SEED_SYNC : string := "seed_sync".
Definition QUEUE_HISTORICAL_BACKFILL : string := "historical_backfill".
Definition QUEUE_SIGNAL_EVAL : string := "signal_eval".

(** In precedence order, the highest first. *)
Definition ALL_QUEUES : list string :=
  [QUEUE_LIVE_WATCH; QUEUE_FUNDING_RADAR; QUEUE_TELEGRAM_INGEST; QUEUE_SEED_SYNC;
   QUEUE_HISTORICAL_BACKFILL; QUEUE_SIGNAL_EVAL].

Module QueueState.
Record QueueState := mk {
  paused : gmap string bool;
  lag_seconds : gmap string Z;
}.

Definition new : QueueState := mk ∅ ∅.

Definition is_paused (s : QueueState) (queue : string) : bool := default false (paused s !! queue).

Definition set_paused (s : QueueState) (queue : string) (p : bool) : QueueState :=
  mk (<[queue := p]> (paused s)) (lag_seconds s).

Definition set_lag (s : QueueState) (queue : string) (seconds : Z) : QueueState :=
  mk (paused s) (<[queue := seconds]> (lag_seconds s)).

(** The queues paused by either switch. *)
Definition paused_count (s : QueueState) : nat := size (filter (λ e, e.2 = true) (paused s)).

(** The loop over the queues, the lowest first. *)
Fixpoint pause_from (queues : list string) (target count : nat) (s : QueueState) : QueueState :=
  match queues with
  | [] => s
  | queue :: queues =>
      if (target <=? count)%nat then s else
      if bool_decide (queue = QUEUE_LIVE_WATCH) then pause_from queues target count s else
      if is_paused s queue then pause_from queues target count s
      else pause_from queues target (S count) (set_paused s queue true)
  end.

Definition pause_bottom_up (s : QueueState) (target_paused : nat) : QueueState :=
  pause_from (rev ALL_QUEUES) target_paused (paused_count s) s.

Definition resume_all (s : QueueState) : QueueState :=
  fold_left (λ s queue, set_paused s queue false) ALL_QUEUES s.

Definition backfill_allowed (s : QueueState) (pause_lag_seconds : Z) : bool :=
  let lag := default 0 (lag_seconds s !! QUEUE_HISTORICAL_BACKFILL) in
  negb (is_paused s QUEUE_HISTORICAL_BACKFILL) && (lag <? pause_lag_seconds).
End QueueState.
Abbreviation QueueState := QueueState.QueueState.

(** The durable table; an error is an unreadable one. *)
Definition queue_allowed_checked (s : QueueState) (durable : result (gmap string bool)) (queue : string)
    : result bool :=
  if QueueState.is_paused s queue then ROk false else
  let! table := durable in ROk (negb (default false (table !! queue))).

Definition queue_allowed (s : QueueState) (durable : result (gmap string bool)) (queue : string) : bool :=
  match queue_allowed_checked s durable queue with ROk allowed => allowed | RErr _ => false end.

(** ** Bottom-up pausing *)

Import QueueState.

Lemma is_paused_set s q p q' : is_paused (set_paused s q p) q' = if decide (q = q') then p else is_paused s q'.
Proof.
  unfold is_paused, set_paused. cbn [paused]. case_decide as E; [by rewrite E, lookup_insert_eq|].
  by rewrite lookup_insert_ne.
Qed.

(** The pausable queues the state leaves running, the lowest first. *)
Definition running (queues : list string) (s : QueueState) : list string :=
  List.filter (λ q, negb (bool_decide (q = QUEUE_LIVE_WATCH)) && negb (is_paused s q)) queues.

Lemma running_set queues s q (Hq : q ∉ queues) : running queues (set_paused s q true) = running queues s.
Proof.
  unfold running. induction queues as [|x queues IH]; [done|]. cbn [List.filter].
  apply not_elem_of_cons in Hq as [Hx Hq]. rewrite is_paused_set, decide_False by done. by rewrite IH.
Qed.

Lemma pause_from_spec queues target count s (Hnd : NoDup queues) :
  ∀ q, is_paused (pause_from queues target count s) q
    = is_paused s q || bool_decide (q ∈ take (target - count) (running queues s)).
Proof.
  revert count s. induction queues as [|x queues IH]; intros count s q; cbn [pause_from].
  { change (running [] s) with (@nil string). by rewrite take_nil, bool_decide_eq_false_2, orb_false_r by by apply not_elem_of_nil. }
  apply NoDup_cons in Hnd as [Hx Hnd]. destruct (Nat.leb_spec target count) as [Hl|Hl].
  { replace (target - count)%nat with 0%nat by lia. rewrite bool_decide_eq_false_2, orb_false_r; [done|].
    rewrite firstn_O. apply not_elem_of_nil. }
  unfold running. cbn [List.filter]. case_bool_decide as Ex; cbn [negb andb]; [by apply IH|].
  destruct (is_paused s x) eqn:Ep; cbn [negb]; [by apply IH|].
  rewrite IH by done. rewrite running_set by done. change (List.filter _ queues) with (running queues s).
  replace (target - count)%nat with (S (target - S count)) by lia. rewrite firstn_cons, is_paused_set.
  case_decide as E; [subst q; rewrite Ep; symmetry; apply bool_decide_eq_true_2; left|].
  f_equal. apply bool_decide_ext. rewrite elem_of_cons. naive_solver.
Qed.

(** Pressure pauses from the bottom.  A pause request stops exactly the
    lowest running queues still missing to the target, never [live_watch], and
    restarts nothing. *)
Theorem pause_bottom_up_spec s target q :
  is_paused (pause_bottom_up s target) q
  = is_paused s q || bool_decide (q ∈ take (target - paused_count s) (running (rev ALL_QUEUES) s)).
Proof. apply pause_from_spec. apply (bool_decide_unpack _). by vm_compute. Qed.

(** A pause in either place stops a worker, an unreadable table too. *)
Theorem queue_allowed_fails_closed s durable q :
  queue_allowed s durable q = true ↔
  is_paused s q = false ∧ ∃ table, durable = ROk table ∧ default false (table !! q) = false.
Proof.
  unfold queue_allowed, queue_allowed_checked. destruct (is_paused s q); [naive_solver|].
  destruct durable as [table|e]; [|naive_solver]. rewrite negb_true_iff. split; [by eauto|]. by intros (_ & t & [= <-] & ?).
Qed.
