(* ===== verification/Json.v ===== *)
(** * JSON values

    What the adapters and the ingestion use of serde_json: the constructors of
    [json!] and the accessors of [Value].  The library is the interface
    [JsonValue]; [json] is an instance on which the witnesses run. *)
From S2P Require Import Prelude Text Floats.
From stdpp Require Import options.
Local Open Scope Z_scope.
Local Open Scope list_scope.

Class JsonValue (J : Type) := {
  j_null : J;
  j_bool : bool → J;
  j_str : string → J;
  j_array : list J → J;
  j_object : list (string * J) → J;
  (** [Value::get] of a key, [None] on another kind of value *)
  j_get : J → string → option J;
  as_str : J → option string;
  as_bool : J → option bool;
  as_u64 : J → option Z;
  as_i64 : J → option Z;
  as_f64 : J → option f64;
  as_array : J → option (list J);
  is_object : J → bool;
}.

(** The text of a field. *)
Definition str_field {J} `{JsonValue J} (j : J) (key : string) : option string := j_get j key ≫= as_str.

(** ** An instance *)

Inductive json :=
  | JNull
  | JBool (b : bool)
  | JInt (z : Z)
  | JFloat (f : f64)
  | JStr (s : string)
  | JArray (l : list json)
  | JObject (fields : list (string * json)).

#[global] Instance json_JsonValue : JsonValue json := {|
  j_null := JNull; j_bool := JBool; j_str := JStr; j_array := JArray; j_object := JObject;
  j_get j key := match j with
                 | JObject fields => snd <$> find_first (λ f, bool_decide (f.1 = key)) fields
                 | _ => None end;
  as_str j := match j with JStr s => Some s | _ => None end;
  as_bool j := match j with JBool b => Some b | _ => None end;
  as_u64 j := match j with JInt z => if (0 <=? z) && (z <=? u64_max) then Some z else None | _ => None end;
  as_i64 j := match j with JInt z => if (i64_min <=? z) && (z <=? i64_max) then Some z else None | _ => None end;
  as_f64 j := match j with JInt z => Some (f64_of_Z z) | JFloat f => Some f | _ => None end;
  as_array j := match j with JArray l => Some l | _ => None end;
  is_object j := match j with JObject _ => true | _ => false end;
|}.
