(* ===== verification/Helius.v ===== *)
(** * The Helius provider pool (src/src/helius.rs)

    Token buckets per key and API class, cooldowns and the circuit breaker, the
    fair choice of a key, the request loop with its retries, and the usage
    accounting.

    Instants and durations are nanoseconds.  A function that reads the clock
    takes the instant it reads; the readings within one visit of a key are one
    instant.  What happens around one attempt of a request is a [turn]: the
    instants of the choice, the wall clock, the instant of the answer.  The
    HTTP client is the parameter [http]: the answer to the [n]-th request. *)
From S2P Require Import Prelude Text Floats Json.
From Stdlib Require Import Floats.SpecFloat.
From stdpp Require Import options.
Local Open Scope string_scope.
Local Open Scope Z_scope.
Local Open Scope list_scope.

Module HeliusConfig.
Record HeliusConfig := mk {
  base_url : string;
  rpc_rate_per_second : Z;
  enhanced_rate_per_second : Z;
  wallet_rate_per_second : Z;
  max_retries : Z;
  timeout_seconds : Z;
}.

Definition default : HeliusConfig := mk "https://mainnet.helius-rpc.com" 10 2 2 3 30.

Fixpoint drop_slashes (s : string) : string :=
  match s with String "/"%char s => drop_slashes s | _ => s end.

(** [trim().trim_end_matches('/')]. *)
Definition normalized_base (c : HeliusConfig) : string := str_rev (drop_slashes (str_rev (trim (base_url c)))).

Definition http_url (c : HeliusConfig) (key : string) : string :=
  normalized_base c +:+ "/?api-key=" +:+ key.

Definition evm_http_url (c : HeliusConfig) (chain key : string) : string :=
  normalized_base c +:+ "/v1/" +:+ chain +:+ "/?api-key=" +:+ key.
End HeliusConfig.
Abbreviation HeliusConfig := HeliusConfig.HeliusConfig.

Inductive ApiClass := Rpc | Enhanced | WalletApi.
#[global] Instance ApiClass_eq_dec : EqDecision ApiClass.
Proof. solve_decision. Defined.

Definition api_class_str (c : ApiClass) : string :=
  match c with Rpc => "rpc" | Enhanced => "enhanced" | WalletApi => "wallet" end.

(** ** Durations *)

Definition MILLIS : Z := 10 ^ 6.
Definition SECONDS : Z := 10 ^ 9.

(** [Duration::as_secs_f64]. *)
Definition as_secs_f64 (d : Z) : f64 :=
  f64_add (f64_of_Z (d / SECONDS)) (f64_div (f64_of_Z (d mod SECONDS)) (f64_of_Z SECONDS)).

(** [n / d] to the nearest integer, ties to even. *)
Definition div_half_even (n d : Z) : Z :=
  let q := n / d in
  match Z.compare (2 * (n mod d)) d with
  | Lt => q
  | Gt => q + 1
  | Eq => if Z.even q then q else q + 1
  end.

(** [Duration::from_secs_f64] of a finite non-negative number. *)
Definition from_secs_f64 (a : f64) : Z :=
  match a with
  | S754_finite false m e =>
      if 0 <=? e then Z.pos m * 2 ^ e * SECONDS else div_half_even (Z.pos m * SECONDS) (2 ^ (- e))
  | _ => 0
  end.

(** ** Token buckets *)

Module TokenBucket.
Record TokenBucket := mk {
  capacity : f64;
  tokens : f64;
  last_refill : Z;
}.

Definition new (rate_per_second now : Z) : TokenBucket :=
  let capacity := f64_of_Z rate_per_second in mk capacity capacity now.

Definition refill (b : TokenBucket) (now : Z) : TokenBucket :=
  let elapsed := as_secs_f64 (Z.max 0 (now - last_refill b)) in
  if f64_ltb (f64_of_Z 0) elapsed
  then mk (capacity b) (f64_min (f64_add (tokens b) (f64_mul elapsed (capacity b))) (capacity b)) now
  else b.

(** [None]: a token was taken; otherwise how long to wait. *)
Definition try_acquire (b : TokenBucket) (now : Z) : TokenBucket * option Z :=
  let b := refill b now in
  if f64_leb (f64_of_Z 1) (tokens b)
  then (mk (capacity b) (f64_sub (tokens b) (f64_of_Z 1)) (last_refill b), None)
  else (b, Some (from_secs_f64 (f64_div (f64_sub (f64_of_Z 1) (tokens b))
                                  (f64_max (capacity b) (f64_lit 1 1000))))).
End TokenBucket.
Abbreviation TokenBucket := TokenBucket.TokenBucket.

(** ** Keys *)

Module ProviderKey.
Record ProviderKey := mk {
  id : string;
  key : string;
  buckets : ApiClass → TokenBucket;
  cooldown_until : option Z;
  consecutive_failures : Z;
  open_until : option Z;
}.

Definition new (id key : string) (rpc_rate enhanced_rate wallet_rate now : Z) : ProviderKey :=
  mk id key
    (λ c, TokenBucket.new (match c with Rpc => rpc_rate | Enhanced => enhanced_rate
                                   | WalletApi => wallet_rate end) now) None 0 None.

Definition blocked (until : option Z) (now : Z) : option Z :=
  let? until := until in if now <? until then Some (until - now) else None.

Definition set_bucket (p : ProviderKey) (class : ApiClass) (b : TokenBucket) : ProviderKey :=
  mk (id p) (key p) (λ c, if decide (c = class) then b else buckets p c)
    (cooldown_until p) (consecutive_failures p) (open_until p).

Definition try_acquire (p : ProviderKey) (class : ApiClass) (now : Z) : ProviderKey * option Z :=
  match blocked (cooldown_until p) now with
  | Some wait => (p, Some wait)
  | None =>
      match blocked (open_until p) now with
      | Some wait => (p, Some wait)
      | None =>
          let '(b, wait) := TokenBucket.try_acquire (buckets p class) now in
          (set_bucket p class b, wait)
      end
  end.

Definition record_success (p : ProviderKey) : ProviderKey :=
  mk (id p) (key p) (buckets p) (cooldown_until p) 0 None.

Definition record_failure (p : ProviderKey) (breaker_threshold now : Z) : ProviderKey :=
  let failures := consecutive_failures p + 1 in
  if breaker_threshold <=? failures
  then mk (id p) (key p) (buckets p) (cooldown_until p) 0 (Some (now + 60 * SECONDS))
  else mk (id p) (key p) (buckets p) (cooldown_until p) failures (open_until p).

Definition apply_cooldown (p : ProviderKey) (duration now : Z) : ProviderKey :=
  mk (id p) (key p) (buckets p) (Some (now + duration)) (consecutive_failures p) (open_until p).

Definition is_available (p : ProviderKey) (now : Z) : bool :=
  bool_decide (blocked (cooldown_until p) now = None) && bool_decide (blocked (open_until p) now = None).
End ProviderKey.
Abbreviation ProviderKey := ProviderKey.ProviderKey.

(** ** Answers *)

Inductive HttpOutcome :=
  | Success
  | RateLimited (retry_after : option Z)
  | AuthError
  | ValidationError
  | ServerError
  | NetworkError.

Definition retryable (o : HttpOutcome) : bool :=
  match o with RateLimited _ | ServerError | NetworkError => true | _ => false end.

(** The status, and the text of the retry-after header. *)
Definition from_status (status : Z) (retry_after : option string) : HttpOutcome :=
  if (200 <=? status) && (status <=? 299) then Success else
  if status =? 429 then
    RateLimited ((λ secs, secs * SECONDS) <$> (retry_after ≫= λ v, from_str_radix 10 u64_max (trim v))) else
  if (status =? 401) || (status =? 403) then AuthError else
  if (400 <=? status) && (status <=? 499) then ValidationError else ServerError.

(** ** The pool *)

Record UsageRecord := MkUsage {
  provider_id : string;
  api_class : ApiClass;
  window_start : Z;
  request_count : Z;
}.

Record HeliusPool := MkPool {
  providers : list ProviderKey;
  next : Z;
  config : HeliusConfig;
  usage : list UsageRecord;
}.

Definition pool_new (keys : list string) (config : HeliusConfig) (now : Z) : HeliusPool :=
  MkPool (imap (λ index key, ProviderKey.new ("helius_" +:+ pretty (index + 1)%nat) key
                  (HeliusConfig.rpc_rate_per_second config) (HeliusConfig.enhanced_rate_per_second config)
                  (HeliusConfig.wallet_rate_per_second config) now) keys) 0 config [].

Definition with_providers (pool : HeliusPool) (ps : list ProviderKey) : HeliusPool :=
  MkPool ps (next pool) (config pool) (usage pool).

Definition update_provider (pool : HeliusPool) (i : nat) (f : ProviderKey → ProviderKey) : HeliusPool :=
  with_providers pool (alter f i (providers pool)).

(** The keys in the order of the round, each with its visit's instant; the one
    that granted a token, or the least wait. *)
Fixpoint pick_round (class : ApiClass) (clock : nat → Z) (order : list nat) (n : nat)
    (ps : list ProviderKey) (best : option (nat * Z)) : list ProviderKey * (option nat * option (nat * Z)) :=
  match order with
  | [] => (ps, (None, best))
  | i :: order =>
      match ps !! i with
      | None => pick_round class clock order (S n) ps best
      | Some p =>
          if negb (ProviderKey.is_available p (clock n)) then pick_round class clock order (S n) ps best else
          match ProviderKey.try_acquire p class (clock n) with
          | (p, None) => (<[i := p]> ps, (Some i, best))
          | (p, Some wait) =>
              let better := match best with Some (_, w) => wait <? w | None => true end in
              pick_round class clock order (S n) (<[i := p]> ps) (if better then Some (i, wait) else best)
          end
      end
  end.

Definition round_order (start : Z) (count : nat) : list nat :=
  (λ offset, Z.to_nat ((start + Z.of_nat offset) mod 2 ^ 64 mod Z.of_nat count)) <$> seq 0 count.

(** The keys asked again when none was available. *)
Fixpoint ask_all (class : ApiClass) (clock : nat → Z) (n : nat) (ps : list ProviderKey) : list ProviderKey :=
  match ps with
  | [] => []
  | p :: ps => (ProviderKey.try_acquire p class (clock n)).1 :: ask_all class clock (S n) ps
  end.

(** The chosen key and the wait before the request, if no token was taken. *)
Definition pick_provider (pool : HeliusPool) (class : ApiClass) (clock : nat → Z)
    : HeliusPool * result (nat * option Z) :=
  let count := length (providers pool) in
  if bool_decide (providers pool = []) then (pool, RErr "no helius providers configured") else
  let order := round_order (next pool) count in
  let pool := MkPool (providers pool) ((next pool + 1) mod 2 ^ 64) (config pool) (usage pool) in
  match pick_round class clock order 0 (providers pool) None with
  | (ps, (Some i, _)) => (with_providers pool ps, ROk (i, None))
  | (ps, (None, Some (i, wait))) => (with_providers pool ps, ROk (i, Some wait))
  | (ps, (None, None)) =>
      (with_providers pool (ask_all class clock count ps), RErr "all helius providers unavailable")
  end.

(** [drain(0..5_000)] above ten thousand rows. *)
Definition bounded_usage (rows : list UsageRecord) : list UsageRecord :=
  if (10000 <? Z.of_nat (length rows)) then drop 5000 rows else rows.

Definition usage_window (wall : Z) : Z :=
  let secs := wall / SECONDS in (secs - Z.rem secs 60) * SECONDS.

Definition same_window (id : string) (class : ApiClass) (w : Z) (r : UsageRecord) : bool :=
  bool_decide (provider_id r = id) && bool_decide (api_class r = class) && (window_start r =? w).

Fixpoint bump (p : UsageRecord → bool) (rows : list UsageRecord) : option (list UsageRecord) :=
  match rows with
  | [] => None
  | r :: rows =>
      if p r then Some (MkUsage (provider_id r) (api_class r) (window_start r) (request_count r + 1) :: rows)
      else let? rows := bump p rows in Some (r :: rows)
  end.

Definition record_usage (pool : HeliusPool) (id : string) (class : ApiClass) (wall : Z) : HeliusPool :=
  let w := usage_window wall in
  let rows :=
    match bump (same_window id class w) (usage pool) with
    | Some rows => rows
    | None => bounded_usage (usage pool ++ [MkUsage id class w 1])
    end in
  MkPool (providers pool) (next pool) (config pool) rows.

(** ** Requests *)

Inductive reply (J : Type) :=
  | Answered (status : Z) (retry_after : option string) (payload : result J)
  | NotSent (err : string).
Arguments Answered {_}. Arguments NotSent {_}.

Record turn := MkTurn {
  pick_clock : nat → Z;
  wall_clock : Z;
  answer_clock : Z;
}.

(** One request that went out: the key, and the wait that preceded it. *)
Record sent := MkSent { sent_by : nat; waited : option Z }.

Section requests.
Context {J : Type} `{JsonValue J}.

(** What an answer does to its key, and whether the request ends with it. *)
Definition settle (max_retries : Z) (p : ProviderKey) (now : Z) (r : reply J)
    : ProviderKey * option (result J) :=
  match r with
  | NotSent err => (ProviderKey.record_failure p max_retries now, None)
  | Answered status retry_after payload =>
      match from_status status retry_after with
      | Success =>
          let p := ProviderKey.record_success p in
          match payload with
          | RErr e => (p, Some (RErr "helius decode error"))
          | ROk value =>
              match j_get value "error" with
              | Some _ => (ProviderKey.record_failure p max_retries now, Some (RErr "helius rpc error"))
              | None => (p, Some (ROk (default j_null (j_get value "result"))))
              end
          end
      | RateLimited retry_after =>
          (ProviderKey.apply_cooldown p (Z.min (default SECONDS retry_after) (60 * SECONDS)) now, None)
      | AuthError => (ProviderKey.record_failure p 3 now, Some (RErr "helius auth error"))
      | ValidationError => (ProviderKey.record_failure p 3 now, Some (RErr "helius validation error (4xx)"))
      | ServerError | NetworkError => (ProviderKey.record_failure p max_retries now, None)
      end
  end.

Context (http : nat → string → string → J → reply J).

(** The loop: [n] counts the requests of the pool, [attempt] the failed ones of
    this call.  [None] is an exhausted fuel. *)
Fixpoint request_loop (fuel : nat) (turns : nat → turn) (class : ApiClass) (method : string) (params : J)
    (pool : HeliusPool) (n : nat) (attempt : Z) (log : list sent)
    : option (HeliusPool * list sent * result J) :=
  match fuel with
  | O => None
  | S fuel =>
      let t := turns n in
      match pick_provider pool class (pick_clock t) with
      | (pool, RErr e) => Some (pool, log, RErr e)
      | (pool, ROk (i, wait)) =>
          match providers pool !! i with
          | None => Some (pool, log, RErr "unreachable: picked key out of range")
          | Some p =>
              let pool := record_usage pool (ProviderKey.id p) class (wall_clock t) in
              let log := log ++ [MkSent i ((λ w, Z.min w (2 * SECONDS)) <$> wait)] in
              let url := HeliusConfig.http_url (config pool) (ProviderKey.key p) in
              let max := HeliusConfig.max_retries (config pool) in
              let '(p, ended) := settle max p (answer_clock t) (http n url method params) in
              let pool := update_provider pool i (λ _, p) in
              match ended with
              | Some r => Some (pool, log, r)
              | None =>
                  let attempt := attempt + 1 in
                  if max <? attempt then Some (pool, log, RErr "helius request failed")
                  else request_loop fuel turns class method params pool (S n) attempt log
              end
          end
      end
  end.

Definition request_fuel (pool : HeliusPool) : nat := S (Z.to_nat (HeliusConfig.max_retries (config pool))).

Definition request_json (turns : nat → turn) (class : ApiClass) (method : string) (params : J)
    (pool : HeliusPool) (n : nat) : option (HeliusPool * list sent * result J) :=
  request_loop (request_fuel pool) turns class method params pool n 0 [].

Definition rpc_request := request_json.

(** [params[0]["before"] = ..] on the text [params[0]] panics. *)
Definition get_transactions_for_address (turns : nat → turn) (pool : HeliusPool) (n : nat)
    (address : string) (before : option string) : option (HeliusPool * list sent * outcome J) :=
  match before with
  | Some _ => Some (pool, [], Panicked)
  | None =>
      let? r := rpc_request turns Enhanced "getTransactionsForAddress" (j_array [j_str address]) pool n in
      Some (r.1, of_result r.2)
  end.

Definition get_transfers_for_address (turns : nat → turn) (pool : HeliusPool) (n : nat)
    (address : string) : option (HeliusPool * list sent * result J) :=
  rpc_request turns Enhanced "getTransfersByAddress" (j_array [j_str address]) pool n.
End requests.

(** ** The choice of a key *)

(** The visit of a key at the [k]-th place of a round. *)
Definition available_at (ps : list ProviderKey) (clock : nat → Z) (i k : nat) : Prop :=
  ∃ p, ps !! i = Some p ∧ ProviderKey.is_available p (clock k) = true.

Definition acquire_at (ps : list ProviderKey) (class : ApiClass) (clock : nat → Z) (i k : nat) : option (option Z) :=
  (λ p, (ProviderKey.try_acquire p class (clock k)).2) <$> ps !! i.

(** A key that cannot be used at its visit, or only after a wait. *)
Definition passed_over (ps : list ProviderKey) (class : ApiClass) (clock : nat → Z) (i k : nat) : Prop :=
  available_at ps clock i k → ∃ w, acquire_at ps class clock i k = Some (Some w).

(** [best] is the least wait of the visits before [n]. *)
Definition best_of (ps : list ProviderKey) (class : ApiClass) (clock : nat → Z) (visited : list nat)
    (best : option (nat * Z)) : Prop :=
  match best with
  | None => ∀ k i, visited !! k = Some i → ¬ available_at ps clock i k
  | Some (i, w) =>
      (∃ k, visited !! k = Some i ∧ available_at ps clock i k ∧ acquire_at ps class clock i k = Some (Some w))
      ∧ ∀ k j, visited !! k = Some j → available_at ps clock j k →
          ∃ w', acquire_at ps class clock j k = Some (Some w') ∧ w <= w'
  end.

Lemma lookup_snoc_cases {A} (l : list A) x k y :
  (l ++ [x]) !! k = Some y → l !! k = Some y ∨ (k = length l ∧ y = x).
Proof.
  intros [?|[Hk E]]%lookup_app_Some; [by left|]. right.
  apply list_lookup_singleton_Some in E as [E ->]. split; [lia|done].
Qed.

Lemma best_of_unavailable ps class clock visited best i :
  best_of ps class clock visited best → ¬ available_at ps clock i (length visited) →
  best_of ps class clock (visited ++ [i]) best.
Proof.
  intros Hb Hn. unfold best_of in *. destruct best as [[j w]|].
  - destruct Hb as [(k & Hk & Ha) Hall]. split.
    + exists k. split; [by apply lookup_app_l_Some|done].
    + intros k' j' [Hk'|[-> ->]]%lookup_snoc_cases; [by apply Hall|done].
  - intros k' j' [Hk'|[-> ->]]%lookup_snoc_cases; [by apply Hb|done].
Qed.

Lemma best_of_wait ps class clock visited best i w :
  best_of ps class clock visited best → available_at ps clock i (length visited) →
  acquire_at ps class clock i (length visited) = Some (Some w) →
  best_of ps class clock (visited ++ [i])
    (if match best with Some (_, b) => w <? b | None => true end then Some (i, w) else best).
Proof.
  intros Hb Ha Hw.
  assert (∀ b, w <= b → (∀ k j, visited !! k = Some j → available_at ps clock j k →
      ∃ w', acquire_at ps class clock j k = Some (Some w') ∧ b <= w') →
    best_of ps class clock (visited ++ [i]) (Some (i, w))) as Hnew.
  { intros b Hle Hall. split.
    - exists (length visited). split; [by apply list_lookup_middle|done].
    - intros k j [Hk|[-> ->]]%lookup_snoc_cases Hj; [|exists w; split; [done|lia]].
      destruct (Hall k j Hk Hj) as (w' & ? & ?). exists w'. split; [done|lia]. }
  destruct best as [[j b]|]; unfold best_of in Hb.
  - destruct Hb as [(k & Hk & Hb) Hall]. destruct (Z.ltb_spec w b); [apply (Hnew b); [lia|done]|].
    split; [exists k; split; [by apply lookup_app_l_Some|done]|].
    intros k' j' [Hk'|[-> ->]]%lookup_snoc_cases Hj; [by apply Hall|]. exists w. split; [done|lia].
  - apply (Hnew w); [lia|]. intros k j Hk Hj. by apply Hb in Hk.
Qed.

(** What a round of visits yields, in terms of the keys before it. *)
Definition picked (ps : list ProviderKey) (class : ApiClass) (clock : nat → Z) (order : list nat)
    (r : option nat * option (nat * Z)) : Prop :=
  match r with
  | (Some i, _) => ∃ k, order !! k = Some i ∧ available_at ps clock i k
      ∧ acquire_at ps class clock i k = Some None
      ∧ ∀ k' j, (k' < k)%nat → order !! k' = Some j → passed_over ps class clock j k'
  | (None, best) => best_of ps class clock order best
  end.

Lemma pick_round_spec class clock ps0 order visited ps best r ps' :
  NoDup (visited ++ order) → Forall (λ i, is_Some (ps0 !! i)) order →
  (∀ i, i ∈ order → ps !! i = ps0 !! i) → length ps = length ps0 →
  best_of ps0 class clock visited best →
  (∀ k j, visited !! k = Some j → passed_over ps0 class clock j k) →
  pick_round class clock order (length visited) ps best = (ps', r) →
  picked ps0 class clock (visited ++ order) r ∧ length ps' = length ps0.
Proof.
  revert visited ps best. induction order as [|i order IH]; intros visited ps best Hnd Hin Hps Hlen Hb Hpass;
    cbn [pick_round].
  { intros [= <- <-]. rewrite app_nil_r. done. }
  apply Forall_cons in Hin as [[p Hp] Hin].
  rewrite (Hps i) by left. rewrite Hp.
  assert (ps !! i = Some p) as Hpi by by rewrite Hps by left.
  assert (∀ ps1 best1, (∀ j, j ∈ order → ps1 !! j = ps0 !! j) → length ps1 = length ps0 →
    best_of ps0 class clock (visited ++ [i]) best1 → passed_over ps0 class clock i (length visited) →
    pick_round class clock order (S (length visited)) ps1 best1 = (ps', r) →
    picked ps0 class clock (visited ++ i :: order) r ∧ length ps' = length ps0) as Hnext.
  { intros ps1 best1 H1 H2 H3 H4 E. rewrite cons_middle, (assoc_L (++)).
    eapply (IH (visited ++ [i]) ps1 best1); [by rewrite <-(assoc_L (++))|done..| |].
    - intros k j [Hk|[-> ->]]%lookup_snoc_cases; [by apply Hpass|done].
    - by rewrite length_app, Nat.add_1_r. }
  assert (∀ j, j ∈ order → ps !! j = ps0 !! j) as Hrest by (intros j Hj; apply Hps; by right).
  destruct (ProviderKey.is_available p (clock (length visited))) eqn:Ea; cbn [negb].
  2: { apply Hnext; [done..| |].
       - apply best_of_unavailable; [done|]. intros (p' & Hp' & Ha). congruence.
       - intros (p' & Hp' & Ha). congruence. }
  assert (available_at ps0 clock i (length visited)) as Hav by by exists p.
  assert (i ∉ order) as Hni.
  { apply NoDup_app in Hnd as (_ & _ & [? _]%NoDup_cons). done. }
  destruct (ProviderKey.try_acquire p class (clock (length visited))) as [p1 [w|]] eqn:Et.
  - assert (acquire_at ps0 class clock i (length visited) = Some (Some w)) as Hw.
    { unfold acquire_at. rewrite Hp. cbn. by rewrite Et. }
    apply Hnext; [|by rewrite length_insert|by apply best_of_wait|by exists w].
    intros j Hj. rewrite list_lookup_insert_ne by (intros ->; done). by apply Hrest.
  - intros [= <- <-]. split; [|by rewrite length_insert].
    exists (length visited). split_and!; [by apply list_lookup_middle|done| |].
    + unfold acquire_at. rewrite Hp. cbn. by rewrite Et.
    + intros k j Hk. rewrite lookup_app_l by done. by apply Hpass.
Qed.

Lemma round_order_nodup start count : 0 <= start → start + Z.of_nat count <= 2 ^ 64 →
  NoDup (round_order start count) ∧ Forall (λ i, (i < count)%nat) (round_order start count)
  ∧ length (round_order start count) = count.
Proof.
  intros Hs Hc. unfold round_order. split_and!; [| |by rewrite length_fmap, length_seq].
  - apply NoDup_fmap_2_strong; [|apply NoDup_seq]. intros x y Hx%elem_of_seq Hy%elem_of_seq.
    rewrite !(Z.mod_small (start + _) (2 ^ 64)) by lia. intros E.
    apply Z2Nat.inj in E; [|apply Z.mod_pos_bound; lia..].
    pose proof (Z.div_mod (start + Z.of_nat x) (Z.of_nat count)).
    pose proof (Z.div_mod (start + Z.of_nat y) (Z.of_nat count)).
    set (q1 := (start + Z.of_nat x) / _) in *. set (q2 := (start + Z.of_nat y) / _) in *.
    assert (q1 = q2); [|nia]. destruct (Z.lt_trichotomy q1 q2) as [?|[?|?]]; [nia|done|nia].
  - apply Forall_forall. intros i (x & -> & Hx%elem_of_seq)%list_elem_of_fmap.
    pose proof (Z.mod_pos_bound ((start + Z.of_nat x) mod 2 ^ 64) (Z.of_nat count)). lia.
Qed.

Lemma length_ask_all class clock n ps : length (ask_all class clock n ps) = length ps.
Proof. revert n. induction ps as [|p ps IH]; intros n; simpl; [done|]. by rewrite IH. Qed.

(** The key chosen is the first one, in rotation from the cursor, that is
    neither cooling down nor behind an open breaker and still has a token; with
    none of those, the available key with the least wait; an error exactly when
    no key is available. *)
Theorem pick_provider_fair pool class clock
    (Hnext : 0 <= next pool /\ next pool + Z.of_nat (length (providers pool)) <= 2 ^ 64) :
  let order := round_order (next pool) (length (providers pool)) in
  let p := pick_provider pool class clock in
  length (providers p.1) = length (providers pool)
  ∧ match p.2 with
    | ROk (i, None) => picked (providers pool) class clock order (Some i, None)
    | ROk (i, Some w) => best_of (providers pool) class clock order (Some (i, w))
    | RErr _ => ∀ k i, order !! k = Some i → ¬ available_at (providers pool) clock i k
    end.
Proof.
  cbv zeta. unfold pick_provider. case_bool_decide as He.
  { split; [done|]. rewrite He. intros k i Hk. by destruct k. }
  cbv zeta. destruct (round_order_nodup (next pool) (length (providers pool))) as (Hnd & Hin & _); [lia..|].
  cbn [providers]. set (order := round_order _ _) in *.
  destruct (pick_round class clock order 0 (providers pool) None) as [ps r] eqn:E.
  apply (pick_round_spec class clock (providers pool) order [] (providers pool) None) in E as [Hp Hl];
    [|done| |done|done|by intros k j Hk|by intros k j Hk].
  - cbn [app] in Hp. destruct r as [[i|] [[j w]|]]; cbn [providers with_providers fst snd];
      (split; [by rewrite ?length_ask_all|exact Hp]).
  - eapply Forall_impl; [exact Hin|]. intros j Hj. by apply lookup_lt_is_Some.
Qed.

(** ** The request loop *)

Section loop.
Set Default Proof Using "Type".
Context {J : Type} `{JsonValue J} (http : nat → string → string → J → reply J).

(** An answer after which the request is tried again. *)
Definition retry_answer (r : reply J) : bool :=
  match r with NotSent _ => true | Answered status header _ => retryable (from_status status header) end.

(** The result in an answer. *)
Definition answer_value (r : reply J) : option J :=
  match r with
  | Answered status header (ROk value) =>
      match from_status status header, j_get value "error" with
      | Success, None => Some (default j_null (j_get value "result"))
      | _, _ => None
      end
  | _ => None
  end.

Lemma settle_ends max p now (r : reply J) :
  match (settle max p now r).2 with
  | None => retry_answer r = true
  | Some (ROk v) => answer_value r = Some v
  | Some (RErr _) => retry_answer r = false ∧ answer_value r = None
  end
  ∧ ProviderKey.id (settle max p now r).1 = ProviderKey.id p
  ∧ ProviderKey.key (settle max p now r).1 = ProviderKey.key p.
Proof.
  destruct r as [status header payload|err]; cbn [settle retry_answer answer_value].
  2: { split; [done|]. unfold ProviderKey.record_failure. cbn [fst]. by destruct (_ <=? _). }
  destruct (from_status status header); cbn [retryable fst snd];
    try (split; [done|unfold ProviderKey.record_failure; by destruct (_ <=? _)]).
  - destruct payload as [value|e]; [|done]. destruct (j_get value "error"); [|done].
    cbn [fst snd]. split; [done|]. unfold ProviderKey.record_failure. by destruct (_ <=? _).
  - destruct payload; by split_and!.
  - destruct payload; (split; [done|unfold ProviderKey.record_failure; by destruct (_ <=? _)]).
  - destruct payload; (split; [done|unfold ProviderKey.record_failure; by destruct (_ <=? _)]).
Qed.

(** The names of the keys, which no operation changes. *)
Definition names (pool : HeliusPool) : list (string * string) :=
  (λ p, (ProviderKey.id p, ProviderKey.key p)) <$> providers pool.

Lemma try_acquire_names p class now :
  ProviderKey.id (ProviderKey.try_acquire p class now).1 = ProviderKey.id p
  ∧ ProviderKey.key (ProviderKey.try_acquire p class now).1 = ProviderKey.key p.
Proof.
  unfold ProviderKey.try_acquire. destruct (ProviderKey.blocked _ _); [done|].
  destruct (ProviderKey.blocked _ _); [done|]. by destruct (TokenBucket.try_acquire _ _).
Qed.

Lemma names_insert {B} (f : ProviderKey → B) (ps : list ProviderKey) i p p' :
  ps !! i = Some p → f p' = f p → f <$> <[i := p']> ps = f <$> ps.
Proof. intros Hp Hf. rewrite list_fmap_insert, Hf. apply list_insert_id. by rewrite list_lookup_fmap, Hp. Qed.

Lemma pick_round_names class clock order n ps best :
  (λ p, (ProviderKey.id p, ProviderKey.key p)) <$> (pick_round class clock order n ps best).1
  = (λ p, (ProviderKey.id p, ProviderKey.key p)) <$> ps.
Proof.
  revert n ps best. induction order as [|i order IH]; intros n ps best; cbn [pick_round]; [done|].
  destruct (ps !! i) as [p|] eqn:Hp; [|apply IH]. destruct (negb _); [apply IH|].
  pose proof (try_acquire_names p class (clock n)) as [H1 H2].
  destruct (ProviderKey.try_acquire p class (clock n)) as [p' [w|]]; cbn [fst] in *; [rewrite IH|];
    (apply (names_insert _ _ _ p); [done|by rewrite H1, H2]).
Qed.

Lemma ask_all_names class clock n ps :
  (λ p, (ProviderKey.id p, ProviderKey.key p)) <$> ask_all class clock n ps
  = (λ p, (ProviderKey.id p, ProviderKey.key p)) <$> ps.
Proof.
  revert n. induction ps as [|p ps IH]; intros n; cbn [ask_all fmap list_fmap]; [done|].
  pose proof (try_acquire_names p class (clock n)) as [-> ->]. f_equal. apply IH.
Qed.

Lemma pick_names pool class clock :
  names (pick_provider pool class clock).1 = names pool
  ∧ config (pick_provider pool class clock).1 = config pool.
Proof.
  unfold pick_provider, names. case_bool_decide; [done|]. cbv zeta. cbn [providers].
  match goal with |- context [pick_round ?a ?b ?c ?d ?e ?f] =>
    pose proof (pick_round_names a b c d e f) as Hn; destruct (pick_round a b c d e f) as [ps [[i|] [[j w]|]]] end;
    cbn [providers config with_providers fst] in *; by rewrite ?ask_all_names.
Qed.

(** A chosen key exists. *)
Definition in_range (n : nat) (r : option nat * option (nat * Z)) : Prop :=
  match r with
  | (Some i, _) => (i < n)%nat
  | (None, Some (i, _)) => (i < n)%nat
  | (None, None) => True
  end.

Lemma pick_round_range class clock order n ps best : in_range (length ps) (None, best) →
  length (pick_round class clock order n ps best).1 = length ps
  ∧ in_range (length ps) (pick_round class clock order n ps best).2.
Proof.
  revert n ps best. induction order as [|i order IH]; intros n ps best Hb; cbn [pick_round]; [done|].
  destruct (ps !! i) as [p|] eqn:Hp; [|by apply IH]. destruct (negb _); [by apply IH|].
  pose proof (lookup_lt_Some _ _ _ Hp) as Hi.
  destruct (ProviderKey.try_acquire p class (clock n)) as [p' [w|]]; [|cbn [fst snd in_range]; by rewrite length_insert].
  rewrite <-(length_insert ps i p'). apply IH. rewrite length_insert.
  destruct best as [[j b]|]; [|done]. by destruct (w <? b).
Qed.

Definition no_key (e : string) : Prop :=
  e = "no helius providers configured" ∨ e = "all helius providers unavailable".

Lemma pick_in_range pool class clock :
  match (pick_provider pool class clock).2 with
  | ROk (i, _) => is_Some (providers (pick_provider pool class clock).1 !! i)
  | RErr e => no_key e
  end.
Proof.
  unfold pick_provider. case_bool_decide; [by left|]. cbv zeta. cbn [providers].
  match goal with |- context [pick_round ?a ?b ?c ?d ?e ?f] =>
    destruct (pick_round_range a b c d e f I) as [Hl Hr]; destruct (pick_round a b c d e f) as [ps [[i|] [[j w]|]]] end;
    cbn [fst snd providers with_providers in_range] in *; try (by right); apply lookup_lt_is_Some; lia.
Qed.

(** The answer to a request of the log. *)
Definition answer_to (pool : HeliusPool) (method : string) (params : J) (n : nat) (s : sent) : reply J :=
  http n (HeliusConfig.http_url (config pool) (default "" (snd <$> names pool !! sent_by s))) method params.

(** The requests [new] of a call from the [n]-th on, and how it ended. *)
Definition answered (pool : HeliusPool) (method : string) (params : J) (n : nat) (new : list sent)
    (r : result J) : Prop :=
  (∀ j s, new !! j = Some s → (S j < length new)%nat →
     retry_answer (answer_to pool method params (n + j) s) = true)
  ∧ match r with
    | ROk v => ∃ j s, new !! j = Some s ∧ S j = length new
        ∧ answer_value (answer_to pool method params (n + j) s) = Some v
    | RErr _ => ∀ j s, new !! j = Some s → answer_value (answer_to pool method params (n + j) s) = None
    end.

(** Why a call failed: no key to ask with, [max] retries used up after
    [attempt] earlier attempts, or an answer that forbids a retry. *)
Definition gave_up (pool : HeliusPool) (method : string) (params : J) (n : nat) (attempt : Z) (new : list sent)
    (r : result J) : Prop :=
  match r with
  | ROk _ => True
  | RErr e => no_key e ∨ HeliusConfig.max_retries (config pool) < attempt + Z.of_nat (length new)
      ∨ ∃ j s, new !! j = Some s ∧ S j = length new ∧ retry_answer (answer_to pool method params (n + j) s) = false
  end.

Lemma gave_up_cons pool method params n attempt s new r :
  gave_up pool method params (S n) (attempt + 1) new r → gave_up pool method params n attempt (s :: new) r.
Proof.
  destruct r as [v|e]; [done|]. intros [?|[Hm|(j & s' & Hj & Hl & Hr)]]; [by left|right; left; simpl; lia|].
  right; right. exists (S j), s'. rewrite <-Nat.add_succ_comm. simpl. split_and!; [done|lia|done].
Qed.

Lemma answered_cons pool method params n s new r :
  retry_answer (answer_to pool method params n s) = true →
  answered pool method params (S n) new r → answered pool method params n (s :: new) r.
Proof.
  intros Hs [Hret Hend].
  assert (answer_value (answer_to pool method params n s) = None) as Hnone.
  { revert Hs. unfold retry_answer, answer_value. destruct (answer_to pool method params n s) as [st h [v|e]|e]; [|done..].
    by destruct (from_status st h). }
  split.
  - intros [|j] s' Hj Hl; [injection Hj as <-; by rewrite Nat.add_0_r|].
    rewrite <-Nat.add_succ_comm. apply Hret; [done|simpl in Hl; lia].
  - destruct r as [v|e].
    + destruct Hend as (j & s' & Hj & Hl & Hv). exists (S j), s'. rewrite <-Nat.add_succ_comm. simpl.
      split_and!; [done|lia|done].
    + intros [|j] s' Hj; [injection Hj as <-; by rewrite Nat.add_0_r|].
      rewrite <-Nat.add_succ_comm. by apply Hend.
Qed.

Lemma request_loop_spec fuel turns class method params pool n attempt log :
  (0 < fuel)%nat → HeliusConfig.max_retries (config pool) + 1 <= attempt + Z.of_nat fuel →
  ∃ pool' new r, request_loop http fuel turns class method params pool n attempt log = Some (pool', log ++ new, r)
    ∧ (length new <= fuel)%nat ∧ names pool' = names pool ∧ config pool' = config pool
    ∧ answered pool method params n new r ∧ gave_up pool method params n attempt new r.
Proof.
  revert pool n attempt log. induction fuel as [|fuel IH]; intros pool n attempt log Hpos Hfuel; [lia|].
  cbn [request_loop]. destruct (pick_names pool class (pick_clock (turns n))) as [Hn Hc].
  pose proof (pick_in_range pool class (pick_clock (turns n))) as Hrange.
  destruct (pick_provider pool class (pick_clock (turns n))) as [pool1 [[i wait]|e]]; cbn [fst snd] in Hn, Hc, Hrange.
  2: { exists pool1, [], (RErr e). rewrite app_nil_r. split_and!; [done|simpl; lia|done|done| |by left].
       split; [by intros j s|by intros j s]. }
  destruct Hrange as [p Hp]. rewrite Hp.
  set (s := MkSent i _). set (pool2 := record_usage pool1 _ _ _).
  assert (HeliusConfig.http_url (config pool2) (ProviderKey.key p)
    = HeliusConfig.http_url (config pool) (default "" (snd <$> names pool !! i))) as ->.
  { rewrite <-Hn, <-Hc. unfold names. rewrite list_lookup_fmap, Hp. done. }
  assert (HeliusConfig.max_retries (config pool2) = HeliusConfig.max_retries (config pool)) as -> by by rewrite <-Hc.
  set (r := http n _ method params). assert (r = answer_to pool method params n s) as Hr by done.
  destruct (settle_ends (HeliusConfig.max_retries (config pool)) p (answer_clock (turns n)) r) as (Hend & Hid & Hkey).
  destruct (settle _ p _ r) as [p' ended]. cbn [fst snd] in *.
  assert (names (update_provider pool2 i (λ _, p')) = names pool) as Hnames.
  { rewrite <-Hn. unfold names, update_provider, with_providers, pool2, record_usage. cbn [providers].
    apply list_eq. intros k. rewrite !list_lookup_fmap. destruct (decide (k = i)) as [->|Hk].
    - rewrite list_lookup_alter_eq, Hp. cbn. by rewrite Hid, Hkey.
    - by rewrite list_lookup_alter_ne. }
  assert (config (update_provider pool2 i (λ _, p')) = config pool) as Hconf by by rewrite <-Hc.
  destruct ended as [res|].
  - eexists _, [s], res. split; [reflexivity|]. split_and!; [simpl; lia|done|done| |].
    2: { destruct res as [v|e]; [done|]. right; right. exists 0%nat, s. rewrite Nat.add_0_r, <-Hr.
         split_and!; [done..|]. apply Hend. }
    split.
    + intros j s' Hj Hl. simpl in Hl. lia.
    + destruct res as [v|e]; [|destruct Hend as [_ Hend]; intros [|j] s' Hj; [|done];
        injection Hj as <-; rewrite Nat.add_0_r; by rewrite <-Hr].
      exists 0%nat, s. rewrite Nat.add_0_r, <-Hr. done.
  - destruct (Z.ltb_spec (HeliusConfig.max_retries (config pool)) (attempt + 1)).
    + eexists _, [s], _. split; [reflexivity|]. split_and!; [simpl; lia|done|done| |by right; left].
      split; [intros j s' Hj Hl; simpl in Hl; lia|].
      intros [|j] s' Hj; [|done]. injection Hj as <-. rewrite Nat.add_0_r, <-Hr.
      revert Hend. unfold retry_answer, answer_value. destruct r as [st h [v|e]|e]; [|done..].
      by destruct (from_status st h).
    + edestruct IH as (pool' & new & res & -> & Hl & Hn' & Hc' & Ha & Hg).
      3: { exists pool', (s :: new), res. rewrite <-(assoc_L (++)). split_and!; [done|simpl; lia| | | |].
           - by rewrite Hn'.
           - by rewrite Hc'.
           - apply answered_cons; [by rewrite <-Hr|].
             unfold answered, answer_to in Ha |- *. by rewrite Hnames, Hconf in Ha.
           - apply gave_up_cons. unfold gave_up, answer_to in Hg |- *. by rewrite Hnames, Hconf in Hg. }
      * lia.
      * rewrite Hconf. lia.
Qed.
End loop.

Lemma request_json_total {J} `{JsonValue J} (http : nat → string → string → J → reply J)
    turns class method params pool n :
  ∃ pool' log r, request_json http turns class method params pool n = Some (pool', log, r).
Proof.
  destruct (request_loop_spec http (request_fuel pool) turns class method params pool n 0 [])
    as (pool' & new & r & E & _); unfold request_fuel in *; [lia..|]. by exists pool', new, r.
Qed.


(** ** Waiting *)

Section dry.
Context (class : ApiClass) (t : Z).

(** An available key whose bucket has just been refilled and holds no token. *)
Definition dry (p : ProviderKey) : Prop :=
  ProviderKey.is_available p t = true
  ∧ TokenBucket.last_refill (ProviderKey.buckets p class) = t
  ∧ f64_leb (f64_of_Z 1) (TokenBucket.tokens (ProviderKey.buckets p class)) = false.

Lemma dry_acquire p : dry p →
  ∃ w, (ProviderKey.try_acquire p class t).2 = Some w ∧ dry (ProviderKey.try_acquire p class t).1.
Proof.
  intros (Ha & Hr & Ht). pose proof Ha as Hb. unfold ProviderKey.is_available in Hb.
  apply andb_prop in Hb as [Hc%bool_decide_eq_true Ho%bool_decide_eq_true].
  unfold ProviderKey.try_acquire. rewrite Hc, Ho.
  assert (TokenBucket.refill (ProviderKey.buckets p class) t = ProviderKey.buckets p class) as Hrefill.
  { unfold TokenBucket.refill. rewrite Hr, Z.sub_diag. by vm_compute (f64_ltb _ _). }
  unfold TokenBucket.try_acquire. rewrite Hrefill, Ht. eexists. split; [reflexivity|].
  split_and!; [exact Ha|..]; cbn [fst ProviderKey.set_bucket ProviderKey.buckets]; by rewrite decide_True.
Qed.

Lemma pick_round_dry order n ps best : Forall dry ps → Forall (λ i, (i < length ps)%nat) order →
  (order ≠ [] ∨ is_Some best) →
  ∃ i w, (pick_round class (λ _, t) order n ps best).2 = (None, Some (i, w))
    ∧ Forall dry (pick_round class (λ _, t) order n ps best).1
    ∧ length (pick_round class (λ _, t) order n ps best).1 = length ps.
Proof.
  revert n ps best. induction order as [|i order IH]; intros n ps best Hd Hin Hb; cbn [pick_round].
  { destruct Hb as [?|[[i w] ->]]; [done|]. by exists i, w. }
  apply Forall_cons in Hin as [Hi Hin]. apply lookup_lt_is_Some in Hi as [p Hp]. rewrite Hp.
  pose proof (Forall_lookup_1 _ _ _ _ Hd Hp) as Hdp.
  destruct (dry_acquire p Hdp) as (w & Hw & Hd'). destruct Hdp as [-> _]. cbn [negb].
  destruct (ProviderKey.try_acquire p class t) as [p' o]. cbn [fst snd] in Hw, Hd'. subst o.
  rewrite <-(length_insert ps i p'). apply IH.
  - by apply Forall_insert.
  - eapply Forall_impl; [exact Hin|]. intros j. by rewrite length_insert.
  - right. destruct best as [[j b]|]; [destruct (w <? b)|]; by eexists.
Qed.

(** [k] requests that choose their keys at one instant. *)
Fixpoint picks (k : nat) (pool : HeliusPool) : HeliusPool * list (result (nat * option Z)) :=
  match k with
  | O => (pool, [])
  | S k => let (pool, r) := pick_provider pool class (λ _, t) in
           let (pool, rs) := picks k pool in (pool, r :: rs)
  end.

(** Waiting is not metered.  When every bucket is empty, any number of
    requests of one instant all get a key and a wait after which they are sent,
    and none of them takes a token: the buckets are as empty as before. *)
Theorem waiting_unmetered k pool
    (Hne : providers pool ≠ []) (Hdry : Forall dry (providers pool)) :
  Forall dry (providers (picks k pool).1) ∧ length (picks k pool).2 = k
  ∧ Forall (λ r, ∃ i w, r = ROk (i, Some w)) (picks k pool).2.
Proof.
  revert pool Hne Hdry. induction k as [|k IH]; intros pool Hne Hdry; cbn [picks]; [done|].
  unfold pick_provider. rewrite bool_decide_eq_false_2 by done. cbv zeta. cbn [providers].
  set (order := round_order _ _).
  assert (Forall (λ i, (i < length (providers pool))%nat) order ∧ order ≠ []) as [Hin Hno].
  { destruct (providers pool) as [|p ps] eqn:E; [done|]. split; [|done].
    apply Forall_forall. intros i (x & -> & Hx%elem_of_seq)%list_elem_of_fmap.
    pose proof (Z.mod_pos_bound ((next pool + Z.of_nat x) mod 2 ^ 64) (Z.of_nat (length (p :: ps)))). lia. }
  destruct (pick_round_dry order 0 (providers pool) None Hdry Hin (or_introl Hno)) as (i & w & E & Hd & Hl).
  destruct (pick_round class (λ _, t) order 0 (providers pool) None) as [ps r]. cbn [fst snd] in *. subst r.
  assert (ps ≠ []) as Hps.
  { intros ->. destruct (providers pool); [done|]. simpl in Hl. lia. }
  set (pool1 := with_providers _ ps). specialize (IH pool1 Hps Hd).
  destruct (picks k pool1) as [pool2 rs]. cbn [fst snd] in IH |- *. destruct IH as (Hd2 & Hl2 & Hr2).
  split_and!; [done|simpl; lia|]. constructor; [by exists i, w|done].
Qed.
End dry.

(** ** The circuit breaker *)

Definition failures (threshold : Z) (ts : list Z) (p : ProviderKey) : ProviderKey :=
  fold_left (λ p t, ProviderKey.record_failure p threshold t) ts p.

Lemma failures_below threshold ts p :
  ProviderKey.consecutive_failures p + Z.of_nat (length ts) < threshold →
  failures threshold ts p = ProviderKey.mk (ProviderKey.id p) (ProviderKey.key p) (ProviderKey.buckets p)
    (ProviderKey.cooldown_until p) (ProviderKey.consecutive_failures p + Z.of_nat (length ts))
    (ProviderKey.open_until p).
Proof.
  revert p. induction ts as [|t ts IH]; intros p Hl.
  { cbn [length Z.of_nat]. rewrite Z.add_0_r. by destruct p. }
  cbn [length] in Hl |- *.
  change (failures threshold (t :: ts) p) with (failures threshold ts (ProviderKey.record_failure p threshold t)).
  assert (ProviderKey.record_failure p threshold t = ProviderKey.mk (ProviderKey.id p) (ProviderKey.key p)
    (ProviderKey.buckets p) (ProviderKey.cooldown_until p) (ProviderKey.consecutive_failures p + 1)
    (ProviderKey.open_until p)) as ->.
  { unfold ProviderKey.record_failure. destruct (Z.leb_spec threshold (ProviderKey.consecutive_failures p + 1)); [lia|done]. }
  rewrite IH by (simpl; lia). cbn [ProviderKey.id ProviderKey.key ProviderKey.buckets
    ProviderKey.cooldown_until ProviderKey.consecutive_failures ProviderKey.open_until]. f_equal. lia.
Qed.

(** The breaker opens exactly at the threshold: fewer failures in a row
    leave the key as available as it was, the threshold-th makes it unavailable for
    sixty seconds, and a success ends that unless the key is cooling down. *)
Theorem breaker_opens_at_threshold p threshold ts t now
    (Hfresh : ProviderKey.consecutive_failures p = 0) (Hlen : Z.of_nat (length ts) + 1 = threshold) :
  ProviderKey.is_available (failures threshold ts p) now = ProviderKey.is_available p now
  ∧ (t <= now < t + 60 * 10 ^ 9 → ProviderKey.is_available (failures threshold (ts ++ [t]) p) now = false)
  ∧ (∀ q, ProviderKey.is_available (ProviderKey.record_success q) now
          = bool_decide (ProviderKey.blocked (ProviderKey.cooldown_until q) now = None)).
Proof.
  assert (failures threshold (ts ++ [t]) p
    = ProviderKey.record_failure (failures threshold ts p) threshold t) as ->
    by by unfold failures; rewrite fold_left_app.
  rewrite failures_below by lia. split_and!; [done| |].
  - intros Hnow. unfold ProviderKey.record_failure. cbn [ProviderKey.consecutive_failures].
    destruct (Z.leb_spec threshold (ProviderKey.consecutive_failures p + Z.of_nat (length ts) + 1)); [|lia].
    assert (ProviderKey.blocked (Some (t + 60 * SECONDS)) now = Some (t + 60 * SECONDS - now)) as Hb.
    { unfold ProviderKey.blocked. destruct (Z.ltb_spec now (t + 60 * SECONDS)); [done|unfold SECONDS in *; lia]. }
    unfold ProviderKey.is_available. cbn [ProviderKey.open_until ProviderKey.cooldown_until]. rewrite Hb.
    apply andb_false_iff. right. by apply bool_decide_eq_false_2.
  - intros q. unfold ProviderKey.is_available. cbn. by rewrite andb_true_r.
Qed.

(** ** Instances *)

Definition two_keys : HeliusPool := pool_new ["ka"; "kb"] HeliusConfig.default 0.
Definition one_key : HeliusPool := pool_new ["ka"] HeliusConfig.default 0.

Definition at_instant (t : Z) : nat → turn := λ _, MkTurn (λ _, t) t t.
Definition ok_reply (v : Z) : reply json := Answered 200 None (ROk (JObject [("result", JInt v)])).

Definition fetch (http : nat → string → string → json → reply json) (pool : HeliusPool) (n : nat)
    : option (HeliusPool * list sent * result json) :=
  request_json http (at_instant 0) Enhanced "m" JNull pool n.

(** The waits of [k] requests issued in one instant. *)
Fixpoint burst (k n : nat) (pool : HeliusPool) : list (option Z) :=
  match k with
  | O => []
  | S k => match fetch (λ _ _ _ _, ok_reply 1) pool n with
           | Some (pool, log, _) => (waited <$> log) ++ burst k (S n) pool
           | None => []
           end
  end.

(** Twelve requests issued in one instant on one key of two per second
    all go out within half a second: ten of them wait 500 ms and take no token. *)
Theorem burst_exceeds_rate :
  burst 12 0 one_key = [None; None] ++ repeat (Some (500 * MILLIS)) 10
  ∧ MILLIS = 1000000.
Proof. vm_compute. done. Qed.

Definition log_of (o : option (HeliusPool * list sent * result json)) : list nat :=
  match o with Some (_, log, _) => sent_by <$> log | None => [] end.

(** Rotation; and four server errors that end a request with the default three
    retries. *)
Example rotation :
  log_of (fetch (λ _ _ _ _, ok_reply 1) two_keys 0) = [0%nat]
  ∧ log_of (fetch (λ _ _ _ _, Answered 500 None (ROk JNull)) two_keys 0) = [0; 1; 0; 1]%nat.
Proof. vm_compute. done. Qed.

Example retry_after_header : from_status 429 (Some " 5 ") = RateLimited (Some (5 * SECONDS)).
Proof. reflexivity. Qed.

Lemma pick_provider_fair_witness :
  0 <= next two_keys ∧ (pick_provider two_keys Rpc (λ _, 5)).2 = ROk (0%nat, None)
  ∧ available_at (providers two_keys) (λ _, 5) 0 0.
Proof.
  split; [done|].
  assert ((pick_provider two_keys Rpc (λ _, 5)).2 = ROk (0%nat, None)) as E by (vm_compute; reflexivity).
  split; [exact E|].
  destruct (pick_provider_fair two_keys Rpc (λ _, 5)) as [_ Hp]; [vm_compute; split; discriminate|].
  cbv beta zeta in Hp. rewrite E in Hp. destruct Hp as (k & Hk & Ha & _).
  destruct k as [|[|k]]; [exact Ha|vm_compute in Hk; discriminate Hk..].
Defined.

Definition empty_bucket : TokenBucket := TokenBucket.mk (f64_of_Z 2) (f64_of_Z 0) 0.
Definition dry_pool : HeliusPool :=
  MkPool [ProviderKey.mk "a" "ka" (λ _, empty_bucket) None 0 None] 0 HeliusConfig.default [].

Lemma waiting_unmetered_witness :
  Forall (dry Enhanced 0) (providers dry_pool)
  ∧ length (picks Enhanced 0 100 dry_pool).2 = 100%nat
  ∧ Forall (λ r, ∃ i w, r = ROk (i, Some w)) (picks Enhanced 0 100 dry_pool).2.
Proof.
  assert (Forall (dry Enhanced 0) (providers dry_pool)) as Hd by (by repeat constructor).
  split; [exact Hd|]. by apply waiting_unmetered.
Defined.

Lemma breaker_opens_at_threshold_witness :
  let p := ProviderKey.new "a" "ka" 10 2 2 0 in
  ProviderKey.is_available p 100 = true ∧ ProviderKey.is_available (failures 3 [1; 2] p) 100 = true
  ∧ ProviderKey.is_available (failures 3 [1; 2; 3] p) 100 = false.
Proof.
  cbv zeta. destruct (breaker_opens_at_threshold (ProviderKey.new "a" "ka" 10 2 2 0) 3 [1; 2] 3 100) as (H1 & H2 & _);
    [reflexivity|reflexivity|]. split_and!; [reflexivity|by rewrite H1|apply H2; lia].
Defined.
