(* ===== verification/Portfolio.v ===== *)
(** * Portfolio exposure (src/src/sf/portfolio_runtime.rs, portfolio.rs)

    [project] aggregates exposure lines: the total, the subtotal of every
    kind, and the exposure of the correlated lines, grouped by a union-find
    with path compression over the lines' indices.  Vector indexing out of
    range (a panic) and a [while] that runs out of fuel are both [None]; the
    theorem shows neither happens.  [n] steps are enough fuel because every
    parent pointer goes to a later line.  The iteration order of the group
    map is an argument. *)
From S2P Require Import Prelude Text Domain CostBasis.
From Stdlib Require Import QArith.QArith QArith.Qround QArith.Qcanon.
From stdpp Require Import options.
Local Open Scope string_scope.
Local Open Scope nat_scope.
Local Open Scope list_scope.
Set Default Proof Using "Type*".

Module Exposure.
Record Exposure := mk {
  kind : string;
  key : string;
  notional : string;
  correlated : option (list string);
}.
End Exposure.
Abbreviation Exposure := Exposure.Exposure.

(** ** The union-find of [project] *)

(** [while parent[r] != r { r = parent[r]; }] *)
Fixpoint find_top (fuel : nat) (parent : list nat) (r : nat) : option nat :=
  let? p := parent !! r in
  if decide (p = r) then Some r else
  match fuel with
  | O => None
  | S fuel => find_top fuel parent p
  end.

(** [while parent[c] != c { .. }]: the path compression. *)
Fixpoint compress (fuel : nat) (parent : list nat) (c r : nat) : option (list nat) :=
  let? next := parent !! c in
  if decide (next = c) then Some parent else
  match fuel with
  | O => None
  | S fuel => compress fuel (<[c := r]> parent) next r
  end.

Definition uf_find (parent : list nat) (x : nat) : option (nat * list nat) :=
  let? r := find_top (length parent) parent x in
  let? parent := compress (length parent) parent x r in
  Some (r, parent).

Definition uf_union (parent : list nat) (a b : nat) : option (list nat) :=
  let? (ra, parent) := uf_find parent a in
  let? (rb, parent) := uf_find parent b in
  Some (if decide (ra = rb) then parent else <[rb := ra]> parent).

(** ** [project] *)

(** The loop state: the parents and the first line of each key. *)
Abbreviation grouping := (list nat * gmap string nat)%type.

(** One key of line [i]. *)
Definition group_key (i : nat) (st : option grouping) (k : string) : option grouping :=
  let? (parent, key_owner) := st in
  match key_owner !! k with
  | Some owner =>
      let? parent := uf_union parent i owner in
      Some (parent, key_owner)
  | None => Some (parent, <[k := i]> key_owner)
  end.

Definition group_line (st : option grouping) (line : nat * Exposure) : option grouping :=
  match Exposure.correlated line.2 with
  | Some keys => foldl (group_key line.1) st keys
  | None => st
  end.

(** [exposures.iter().enumerate()] *)
Definition enumerate (exposures : list Exposure) : list (nat * Exposure) :=
  imap (λ i e, (i, e)) exposures.

Definition group_lines (exposures : list Exposure) : option grouping :=
  foldl group_line (Some (seq 0 (length exposures), ∅)) (enumerate exposures).

Section project.
Context {D : Type} `{Decimal D} (iter : gmap nat D → list (nat * D)).

Record PortfolioProjection := MkProjection {
  total_notional : D;
  by_kind : gmap string D;
  correlated_notional : D;
  correlation_groups : Z;
}.

(** [*map.entry(k).or_insert(Decimal::ZERO) += n] *)
Definition add_entry {K} `{Countable K} (m : gmap K D) (k : K) (n : D) : gmap K D :=
  <[k := d_add (default d_zero (m !! k)) n]> m.

Definition total_step (st : D * gmap string D) (e : Exposure) : D * gmap string D :=
  let n := parse_decimal (Exposure.notional e) in
  (d_add st.1 n, add_entry st.2 (Exposure.kind e) n).

(** A correlated line adds its notional to its root's group. *)
Definition sum_line (st : option (list nat * gmap nat D)) (line : nat * Exposure)
    : option (list nat * gmap nat D) :=
  let? (parent, group_notional) := st in
  match Exposure.correlated line.2 with
  | Some _ =>
      let? (root, parent) := uf_find parent line.1 in
      Some (parent, add_entry group_notional root (parse_decimal (Exposure.notional line.2)))
  | None => Some (parent, group_notional)
  end.

Definition project (exposures : list Exposure) : option PortfolioProjection :=
  let '(total, by_kind) := foldl total_step (d_zero, ∅) exposures in
  let? (parent, _) := group_lines exposures in
  let? (_, group_notional) := foldl sum_line (Some (parent, ∅)) (enumerate exposures) in
  let correlated_notional :=
    foldl (λ acc entry, d_add acc entry.2) d_zero (iter group_notional) in
  Some (MkProjection total by_kind correlated_notional
          (wrap_u32 (Z.of_nat (size group_notional)))).
End project.

(** [Err] is the message. *)
Definition check_treasury_separation (treasury_separated : bool) : () + string :=
  if treasury_separated then inl ()
  else inr "treasury and execution hot-wallet are not separated".

(** ** The union-find is correct *)

(** The root a line's parent pointers lead to. *)
Inductive root (parent : list nat) : nat → nat → Prop :=
  | root_here x : parent !! x = Some x → root parent x x
  | root_up x p r : parent !! x = Some p → p ≠ x → root parent p r → root parent x r.

(** While line [i] is processed, every pointer goes up, at most to [i]. *)
Definition upward (i : nat) (parent : list nat) : Prop :=
  i < length parent ∧
  ∀ x p, parent !! x = Some p → x <= p ∧ (p = x ∨ p <= i).

Definition same_root (parent : list nat) (x y : nat) : Prop :=
  ∃ r, root parent x r ∧ root parent y r.

Lemma root_functional parent x r r' : root parent x r → root parent x r' → r = r'.
Proof.
  intros Hr. revert r'. induction Hr as [x Hx|x p r Hx Hne Hr IH]; intros r' H'.
  - inversion H'; simplify_eq; done.
  - inversion H'; simplify_eq. by apply IH.
Qed.

Lemma root_fixed parent x r : root parent x r → parent !! r = Some r.
Proof. by induction 1. Qed.

Lemma root_of_root parent x r : root parent x r → root parent r r.
Proof. intros Hr%root_fixed. by constructor. Qed.

Lemma root_upward i parent x r :
  upward i parent → root parent x r → x <= r ∧ (r = x ∨ r <= i) ∧ r < length parent.
Proof.
  intros [Hi Hup]. induction 1 as [x Hx|x p r Hx Hne Hr IH].
  - apply lookup_lt_Some in Hx. lia.
  - apply Hup in Hx. lia.
Qed.

Lemma upward_self i parent : upward i parent → parent !! i = Some i.
Proof.
  intros [Hi Hup]. destruct (lookup_lt_is_Some_2 parent i Hi) as [p Hp].
  rewrite Hp. f_equal. apply Hup in Hp. lia.
Qed.

Lemma upward_next i parent : upward i parent → S i < length parent → upward (S i) parent.
Proof. intros [Hi Hup] HS. split; [done|]. intros x p Hx. apply Hup in Hx. lia. Qed.

Lemma root_exists i parent x : upward i parent → x < length parent → ∃ r, root parent x r.
Proof.
  intros [Hi Hup]. remember (length parent - x) as k eqn:Ek. revert x Ek.
  induction k as [k IH] using lt_wf_ind. intros x -> Hx.
  destruct (lookup_lt_is_Some_2 parent x Hx) as [p Hp].
  destruct (decide (p = x)) as [->|Hne]; [exists x; by constructor|].
  pose proof (Hup _ _ Hp). destruct (IH (length parent - p) ltac:(lia) p eq_refl) as [r Hr]; [lia|].
  exists r. by apply root_up with p.
Qed.

Lemma find_top_root i parent x r fuel :
  upward i parent → root parent x r → length parent - x <= fuel →
  find_top fuel parent x = Some r.
Proof.
  intros [Hi Hup] Hr. revert fuel. induction Hr as [x Hx|x p r Hx Hne Hr IH]; intros fuel Hf.
  - destruct fuel; simpl; by rewrite Hx, decide_True.
  - pose proof (Hup _ _ Hx). assert (x < length parent) by by eapply lookup_lt_Some.
    destruct fuel as [|fuel]; [lia|]. simpl. rewrite Hx, decide_False by done. apply IH. lia.
Qed.

(** Pointing a line at its own root changes no root. *)
Lemma root_insert parent c r x y :
  root parent c r → root parent x y → root (<[c := r]> parent) x y.
Proof.
  intros Hc. assert (c < length parent) as Hlt
    by (destruct Hc; by eapply lookup_lt_Some).
  induction 1 as [x Hx|x p y Hx Hne Hy IH]; destruct (decide (x = c)) as [->|Hxc].
  - assert (r = c) as -> by (eapply root_functional; [done|by constructor]).
    constructor. by rewrite list_lookup_insert_eq.
  - constructor. by rewrite list_lookup_insert_ne.
  - assert (r = y) as -> by (eapply root_functional; [done|by eapply root_up]).
    pose proof (root_fixed _ _ _ Hc) as Hy'.
    destruct (decide (y = c)) as [->|Hyc].
    + constructor. by rewrite list_lookup_insert_eq.
    + apply root_up with y; [by rewrite list_lookup_insert_eq|done|].
      constructor. by rewrite list_lookup_insert_ne.
  - apply root_up with p; [by rewrite list_lookup_insert_ne|done|done].
Qed.

(** Same roots, line by line. *)
Definition same_roots (parent parent' : list nat) : Prop :=
  length parent' = length parent ∧ ∀ x y, root parent x y → root parent' x y.

Lemma compress_ok i parent c r fuel :
  upward i parent → root parent c r → length parent - c <= fuel →
  ∃ parent', compress fuel parent c r = Some parent' ∧ upward i parent' ∧
    same_roots parent parent'.
Proof.
  revert parent c. induction fuel as [|fuel IH]; intros parent c Hup Hr Hf;
    (assert (c < length parent) as Hc by (destruct Hr; by eapply lookup_lt_Some)); [lia|].
  cbn [compress]. inversion Hr as [? Hx|? p ? Hx Hne Hp]; subst; rewrite Hx.
  { rewrite decide_True by done. by exists parent. }
  rewrite decide_False by done.
  destruct (IH (<[c := r]> parent) p) as (parent' & E & Hup' & Hl & Hroots).
  - destruct (root_upward _ _ _ _ Hup Hr) as (? & ? & ?). destruct Hup as [Hi Hup].
    split; [by rewrite length_insert|]. intros x q.
    destruct (decide (x = c)) as [->|Hxc].
    + rewrite list_lookup_insert_eq by done. intros [= <-]. lia.
    + rewrite list_lookup_insert_ne by done. apply Hup.
  - by apply root_insert.
  - rewrite length_insert. pose proof (proj2 Hup _ _ Hx). lia.
  - exists parent'. split; [done|]. split; [done|]. split.
    + by rewrite Hl, length_insert.
    + intros x y Hxy. apply Hroots. by apply root_insert.
Qed.

Lemma uf_find_ok i parent x :
  upward i parent → x < length parent →
  ∃ r parent', uf_find parent x = Some (r, parent') ∧ root parent x r ∧
    upward i parent' ∧ same_roots parent parent'.
Proof.
  intros Hup Hx. destruct (root_exists i parent x) as [r Hr]; [done..|].
  unfold uf_find. rewrite (find_top_root i parent x r) by (done || lia).
  destruct (compress_ok i parent x r (length parent)) as (parent' & -> & ? & ?); [done..|lia|].
  by exists r, parent'.
Qed.

Lemma root_hanged parent ra rb x y :
  parent !! ra = Some ra → parent !! rb = Some rb → ra ≠ rb →
  root parent x y → root (<[rb := ra]> parent) x (if decide (y = rb) then ra else y).
Proof.
  intros Ha Hb Hne. assert (rb < length parent) as Hlt by by eapply lookup_lt_Some.
  assert (root (<[rb := ra]> parent) ra ra) as Hra
    by (constructor; by rewrite list_lookup_insert_ne).
  induction 1 as [x Hx|x p y Hx Hnx Hy IH].
  - case_decide as E; [subst x|].
    + apply root_up with ra; [by rewrite list_lookup_insert_eq|done|done].
    + constructor. by rewrite list_lookup_insert_ne.
  - assert (x ≠ rb) by congruence.
    apply root_up with p; [by rewrite list_lookup_insert_ne|done|done].
Qed.

(** [union] of the current line and an earlier one merges their classes and no
    others. *)
Lemma uf_union_ok i parent b :
  upward i parent → b <= i →
  ∃ parent', uf_union parent i b = Some parent' ∧ upward i parent' ∧
    length parent' = length parent ∧
    ∀ x, x < length parent → ∃ r r' rb,
      root parent x r ∧ root parent' x r' ∧ root parent b rb ∧
      r' = if decide (r = rb) then i else r.
Proof.
  intros Hup Hb. pose proof (proj1 Hup) as Hi. unfold uf_union.
  destruct (uf_find_ok i parent i Hup Hi) as (ra & p1 & -> & Hra & Hup1 & Hl1 & Hr1).
  destruct (uf_find_ok i p1 b Hup1) as (rb & p2 & -> & Hrb & Hup2 & Hl2 & Hr2); [lia|].
  assert (ra = i) as ->.
  { eapply root_functional; [done|]. constructor. by apply upward_self. }
  destruct (root_exists i parent b Hup) as [rb' Hrb']; [lia|].
  assert (rb' = rb) as -> by (eapply root_functional; [by apply Hr1|done]).
  assert (∀ x y, root parent x y → root p2 x y) as Hr12 by auto.
  assert (∀ x, x < length parent → ∃ r, root parent x r) as Hex by (intros x Hx; by apply (root_exists i)).
  destruct (decide (i = rb)) as [<-|Hne].
  - exists p2. split; [done|]. split; [done|]. split; [congruence|].
    intros x Hx. destruct (Hex x Hx) as [r Hr]. exists r, r, i.
    split_and!; [done|by apply Hr12|done|by case_decide].
  - exists (<[rb := i]> p2). split; [done|]. split; [|split; [rewrite length_insert; congruence|]].
    + destruct (root_upward i p1 b rb Hup1 Hrb) as (Hle & Hor & Hlt).
      destruct Hup2 as [Hi2 Hup2]. split; [by rewrite length_insert|]. intros x q.
      destruct (decide (x = rb)) as [->|Hxb].
      * rewrite list_lookup_insert_eq by lia. intros [= <-]. lia.
      * rewrite list_lookup_insert_ne by done. apply Hup2.
    + intros x Hx. destruct (Hex x Hx) as [r Hr]. exists r, (if decide (r = rb) then i else r), rb.
      split_and!; [done| |done|done]. apply root_hanged; [| |done|by apply Hr12].
      * by apply root_fixed with i, Hr12.
      * by apply root_fixed with b, Hr12.
Qed.

(** ** Grouping by shared keys *)

(** Two lines share a key among the entries (line, key). *)
Definition shares (P : list (nat * string)) (x y : nat) : Prop :=
  ∃ k, (x, k) ∈ P ∧ (y, k) ∈ P.

(** The loop invariant after the entries [P], in line [i] of [n]. *)
Record grouped (n i : nat) (P : list (nat * string)) (st : grouping) : Prop := MkGrouped {
  grouped_upward : upward i st.1;
  grouped_length : length st.1 = n;
  grouped_owner k o : st.2 !! k = Some o → (o, k) ∈ P;
  grouped_owned x k : (x, k) ∈ P → is_Some (st.2 !! k);
  grouped_line x k : (x, k) ∈ P → x <= i;
  grouped_classes x y : x < n → y < n → same_root st.1 x y ↔ rtc (shares P) x y;
}.

Lemma rtc_bind {A} (R S : relation A) x y :
  (∀ x y, R x y → rtc S x y) → rtc R x y → rtc S x y.
Proof. intros HRS. induction 1; [done|]. etrans; eauto. Qed.

Lemma shares_sym P x y : shares P x y → shares P y x.
Proof. intros (k & ? & ?). by exists k. Qed.

Lemma rtc_shares_sym P x y : rtc (shares P) x y → rtc (shares P) y x.
Proof.
  induction 1 as [|x z y Hxz _ IH]; [done|]. etrans; [done|]. by apply rtc_once, shares_sym.
Qed.

Lemma shares_mono P Q x y : P ⊆ Q → rtc (shares P) x y → rtc (shares Q) x y.
Proof. intros HPQ. apply rtc_subrel. intros a b (k & ? & ?). exists k. auto. Qed.

Lemma same_root_iff parent x y r r' :
  root parent x r → root parent y r' → same_root parent x y ↔ r = r'.
Proof.
  intros Hx Hy. split; [|intros ->; by exists r'].
  intros (q & Hxq & Hyq). transitivity q; [|symmetry]; by eapply root_functional.
Qed.

Lemma grouped_new n i P parent owners k :
  grouped n i P (parent, owners) → owners !! k = None →
  grouped n i (P ++ [(i, k)]) (parent, <[k := i]> owners).
Proof.
  intros [Hup Hl Hown Hown' Hline Hcl] Hk. simpl in *. split; simpl; [done|done| | | |].
  - intros k' o. rewrite lookup_insert_Some, elem_of_app. intros [[-> ->]|[_ ?]]; [right; left|left]; auto.
  - intros x k' [Hin|Hin%list_elem_of_singleton]%elem_of_app.
    + apply Hown' in Hin. rewrite lookup_insert_is_Some'. by right.
    + simplify_eq. by rewrite lookup_insert_eq.
  - intros x k' [Hin|Hin%list_elem_of_singleton]%elem_of_app; [by eapply Hline|]. by simplify_eq.
  - intros x y Hx Hy. rewrite Hcl by done. split; [apply shares_mono; set_solver|].
    apply rtc_bind. intros a b (k' & Ha & Hb).
    assert (∀ z, (z, k) ∈ P → False) as Hno.
    { intros z Hz. apply Hown' in Hz as [? ?]. congruence. }
    apply elem_of_app in Ha as [Ha|Ha%list_elem_of_singleton],
      Hb as [Hb|Hb%list_elem_of_singleton]; simplify_eq; [|by destruct (Hno _ Ha)|by destruct (Hno _ Hb)|done].
    apply rtc_once. by exists k'.
Qed.

Lemma grouped_union n i P parent owners k o :
  grouped n i P (parent, owners) → owners !! k = Some o →
  ∃ parent', uf_union parent i o = Some parent' ∧
    grouped n i (P ++ [(i, k)]) (parent', owners).
Proof.
  intros [Hup Hl Hown Hown' Hline Hcl] Hk. simpl in *.
  pose proof (Hown _ _ Hk) as Hok. pose proof (Hline _ _ Hok) as Hoi.
  pose proof (proj1 Hup) as Hin.
  destruct (uf_union_ok i parent o Hup Hoi) as (parent' & E & Hup' & Hl' & Hroot).
  exists parent'. split; [done|]. rewrite Hl in *.
  destruct (root_exists i parent o Hup) as [rb Hrb]; [lia|].
  assert (∀ x, x < n → ∃ r, root parent x r ∧ root parent' x (if decide (r = rb) then i else r)) as Hr.
  { intros x Hx. destruct (Hroot x Hx) as (r & r' & rb' & Hxr & Hxr' & Hrb' & ->).
    assert (rb' = rb) as -> by by eapply root_functional. by exists r. }
  clear Hroot. assert (root parent i i) as Hii by (constructor; by apply upward_self).
  assert (shares (P ++ [(i, k)]) i o) as Hio.
  { exists k. rewrite !elem_of_app, list_elem_of_singleton. auto. }
  assert (P ⊆ P ++ [(i, k)]) as Hsub by set_solver.
  split; simpl; [done|congruence| | | |].
  - intros k' o' H%Hown. by apply Hsub.
  - intros x k' [Hx|Hx%list_elem_of_singleton]%elem_of_app; [by eapply Hown'|]. by simplify_eq.
  - intros x k' [Hx|Hx%list_elem_of_singleton]%elem_of_app; [by eapply Hline|]. by simplify_eq.
  - intros x y Hx Hy. split.
    + assert (∀ z r, z < n → root parent z r → r = i ∨ r = rb → rtc (shares (P ++ [(i, k)])) z i) as Hz.
      { intros z r Hzn Hzr [->| ->].
        - apply (shares_mono P), Hcl; [done|done|lia|]. by exists i.
        - transitivity o; [apply (shares_mono P), Hcl; [done|done|lia|]; by exists rb|].
          by apply rtc_once, shares_sym. }
      destruct (Hr x Hx) as (rx & Hrx & Hrx'), (Hr y Hy) as (ry & Hry & Hry').
      rewrite (same_root_iff parent' x y) by done. intros Heq.
      destruct (decide (rx = ry)) as [->|Hne].
      { apply (shares_mono P), Hcl; [done..|]. by exists ry. }
      transitivity i; [apply (Hz x rx)|apply rtc_shares_sym, (Hz y ry)]; try done;
        repeat case_decide; naive_solver.
    + intros Hc. revert Hx. induction Hc as [x|x z y Hxz _ IH]; intros Hx.
      { destruct (Hr x Hx) as (r & _ & ?). by eexists. }
      assert (z < n) as Hz.
      { destruct Hxz as (k' & _ & [H%Hline|H%list_elem_of_singleton]%elem_of_app); [lia|]. by simplify_eq. }
      specialize (IH Hy Hz).
      destruct (Hr x Hx) as (rx & Hrx & Hrx'), (Hr y Hy) as (ry & Hry & Hry'), (Hr z Hz) as (rz & Hrz & Hrz').
      rewrite (same_root_iff parent' z y) in IH by done.
      rewrite (same_root_iff parent' x y) by done. rewrite <-IH. clear IH Hrx' Hry' Hrz'.
      assert (∀ a r, a < n → root parent a r → (a, k) ∈ P → r = rb) as Ha.
      { intros a r Ha Har HaP. apply (same_root_iff parent a o r rb); [done..|].
        apply Hcl; [done|lia|]. apply rtc_once. by exists k. }
      destruct Hxz as (k' & Hxk & Hzk).
      apply elem_of_app in Hxk as [Hxk|Hxk%list_elem_of_singleton],
        Hzk as [Hzk|Hzk%list_elem_of_singleton]; simplify_eq.
      * assert (rx = rz) as ->; [|done]. apply (same_root_iff parent x z); [done..|].
        apply Hcl; [done..|]. apply rtc_once. by exists k'.
      * rewrite (Ha x rx) by done. assert (rz = i) as -> by by eapply root_functional.
        rewrite decide_True by done. by case_decide.
      * rewrite (Ha z rz) by done. assert (rx = i) as -> by by eapply root_functional.
        rewrite (decide_True (P := rb = rb)) by done. by case_decide.
      * assert (rx = rz) as -> by by eapply root_functional. done.
Qed.

Lemma grouped_next n i P st : grouped n i P st → S i < n → grouped n (S i) P st.
Proof.
  intros [Hup Hl Hown Hown' Hline Hcl] HS. split; [|done..| |done].
  - apply upward_next; [done|lia].
  - intros x k Hx%Hline. lia.
Qed.

Lemma grouped_start n : 0 < n → grouped n 0 [] (seq 0 n, ∅).
Proof.
  intros Hn. assert (∀ x p, seq 0 n !! x = Some p → p = x ∧ x < n) as Hseq
    by (intros x p Hx%lookup_seq; lia).
  assert (∀ x r, root (seq 0 n) x r → r = x) as Hr.
  { intros x r. induction 1 as [|x p r Hx]; [done|]. apply Hseq in Hx as [-> _]. done. }
  split; simpl; [|by rewrite length_seq|by intros k o; rewrite lookup_empty|set_solver|set_solver|].
  - split; [by rewrite length_seq|]. intros x p Hx%Hseq. lia.
  - intros x y Hx Hy. split.
    + by intros (r & ->%Hr & <-%Hr).
    + intros Hc. assert (x = y) as <-.
      { induction Hc as [|? ? ? (? & ? & _)]; [done|]. set_solver. }
      exists x. assert (root (seq 0 n) x x); [|done]. constructor. by apply lookup_seq.
Qed.

Lemma group_key_grouped n i P st k :
  grouped n i P st → ∃ st', group_key i (Some st) k = Some st' ∧ grouped n i (P ++ [(i, k)]) st'.
Proof.
  destruct st as [parent owners]. intros Hg. simpl. destruct (owners !! k) as [o|] eqn:E.
  - destruct (grouped_union _ _ _ _ _ _ _ Hg E) as (parent' & -> & ?). by eexists.
  - eexists. split; [done|]. by apply grouped_new.
Qed.

Lemma group_keys_grouped n i keys P st :
  grouped n i P st →
  ∃ st', foldl (group_key i) (Some st) keys = Some st' ∧ grouped n i (P ++ (pair i <$> keys)) st'.
Proof.
  revert P st. induction keys as [|k keys IH]; intros P st Hg; cbn [foldl].
  { exists st. by rewrite app_nil_r. }
  destruct (group_key_grouped _ _ _ _ k Hg) as (st' & -> & Hg').
  destruct (IH _ _ Hg') as (st'' & ? & ?). exists st''. split; [done|].
  by rewrite <-app_assoc in *.
Qed.

(** The keys a line declares. *)
Definition line_entries (line : nat * Exposure) : list (nat * string) :=
  pair line.1 <$> default [] (Exposure.correlated line.2).

Definition entries (exposures : list Exposure) : list (nat * string) :=
  enumerate exposures ≫= line_entries.

Lemma enumerate_snoc l e : enumerate (l ++ [e]) = enumerate l ++ [(length l, e)].
Proof. unfold enumerate. rewrite imap_app. simpl. by rewrite Nat.add_0_r. Qed.

Lemma entries_snoc l e : entries (l ++ [e]) = entries l ++ line_entries (length l, e).
Proof. unfold entries. by rewrite enumerate_snoc, bind_app, bind_singleton. Qed.

Lemma elem_of_enumerate l x e : (x, e) ∈ enumerate l ↔ l !! x = Some e.
Proof. unfold enumerate. rewrite elem_of_lookup_imap. naive_solver. Qed.

Lemma group_lines_grouped n l :
  0 < n → length l <= n →
  ∃ st, foldl group_line (Some (seq 0 n, ∅)) (enumerate l) = Some st ∧
    grouped n (pred (length l)) (entries l) st.
Proof.
  intros Hn. induction l as [|e l IH] using rev_ind; intros Hl.
  { eexists. split; [done|]. by apply grouped_start. }
  rewrite length_app in *. simpl in *. destruct IH as (st & E & Hg); [lia|].
  rewrite enumerate_snoc, foldl_app, E, entries_snoc, Nat.add_1_r. cbn [pred foldl].
  assert (grouped n (length l) (entries l) st) as Hg'.
  { destruct l as [|e0 l]; [done|]. change (length (e0 :: l)) with (S (length l)) in *.
    apply grouped_next; [done|]. lia. }
  unfold group_line, line_entries. simpl. destruct (Exposure.correlated e) as [keys|]; simpl.
  - by apply group_keys_grouped.
  - exists st. by rewrite app_nil_r.
Qed.

(** ** The aggregation *)

Definition is_correlated (e : Exposure) : bool :=
  match Exposure.correlated e with Some _ => true | None => false end.

(** Lines [x] and [y] declare a common correlation key. *)
Definition share_key (exposures : list Exposure) (x y : nat) : Prop :=
  ∃ ex ey kx ky k, exposures !! x = Some ex ∧ exposures !! y = Some ey ∧
    Exposure.correlated ex = Some kx ∧ Exposure.correlated ey = Some ky ∧ k ∈ kx ∧ k ∈ ky.

Definition correlated_line (exposures : list Exposure) (x : nat) : Prop :=
  ∃ e, exposures !! x = Some e ∧ is_correlated e = true.

Lemma elem_of_entries l x k :
  (x, k) ∈ entries l ↔ ∃ e keys, l !! x = Some e ∧ Exposure.correlated e = Some keys ∧ k ∈ keys.
Proof.
  unfold entries. rewrite list_elem_of_bind. unfold line_entries. split.
  - intros ([y e] & (k' & [= -> ->] & Hk)%list_elem_of_fmap & He%elem_of_enumerate). simpl in *.
    destruct (Exposure.correlated e) as [keys|] eqn:E; [|set_solver]. by exists e, keys.
  - intros (e & keys & He & E & Hk). exists (x, e). rewrite elem_of_enumerate. split; [|done].
    simpl. rewrite E. by apply list_elem_of_fmap_2.
Qed.

Lemma shares_entries l x y : shares (entries l) x y ↔ share_key l x y.
Proof.
  unfold shares, share_key. setoid_rewrite elem_of_entries. naive_solver.
Qed.

Section totals.
Context {D : Type} `{DecimalSpec D}.
Context (iter : gmap nat D → list (nat * D)).
Context (iter_perm : ∀ m, iter m ≡ₚ map_to_list m).
(** The notionals are numbers of [s] places: that of line [e] is [n e] units. *)
Context (s : nat) (n : Exposure → Z).
Local Open Scope Z_scope.

Definition notional_of (e : Exposure) : D := parse_decimal (Exposure.notional e).

(** The specification: the sum of the lines a predicate selects, in units. *)
Definition sum_of (p : Exposure → bool) (l : list Exposure) : Z := zsum (n <$> List.filter p l).

(** The sizes of the lines' notionals, together. *)
Definition gross (l : list Exposure) : Z := zsum (Z.abs ∘ n <$> l).

(** The notionals have [s] places and together fit the type. *)
Definition lines_fit (l : list Exposure) : Prop :=
  (s <= 28)%nat ∧ (∀ e, e ∈ l → units s (n e) (notional_of e)) ∧ gross l <= max_mantissa.

Lemma gross_snoc l e : gross (l ++ [e]) = gross l + Z.abs (n e).
Proof. unfold gross. rewrite fmap_app, zsum_app. unfold zsum, compose. simpl. lia. Qed.

Lemma lines_fit_snoc l e : lines_fit (l ++ [e]) → lines_fit l ∧ units s (n e) (notional_of e) ∧ gross l + Z.abs (n e) <= max_mantissa.
Proof.
  unfold lines_fit. rewrite gross_snoc. intros (Hs & Hu & Hg). split_and!; [done| |lia| |done].
  - intros e' ?. apply Hu, elem_of_app. by left.
  - apply Hu, elem_of_app. right. by apply list_elem_of_singleton.
Qed.

Lemma sum_of_snoc p l e : sum_of p (l ++ [e]) = sum_of p l + if p e then n e else 0.
Proof.
  unfold sum_of. rewrite List.filter_app, fmap_app, zsum_app. unfold zsum. simpl. destruct (p e); simpl; lia.
Qed.

Lemma sum_of_gross p l : Z.abs (sum_of p l) <= gross l.
Proof.
  unfold sum_of, gross, zsum, compose. induction l as [|e l IH]; [done|]. rewrite fmap_cons.
  cbn [List.filter foldr]. destruct (p e); rewrite ?fmap_cons; cbn [foldr]; lia.
Qed.

Lemma sum_of_all l : sum_of (λ _, true) l = zsum (n <$> l).
Proof. unfold sum_of. f_equal. f_equal. induction l; simpl; by f_equal. Qed.

(** The first loop. *)
Lemma total_steps l : lines_fit l →
  let st := foldl total_step (d_zero, ∅) l in
  units s (sum_of (λ _, true) l) st.1 ∧
  ∀ k, match st.2 !! k with
       | Some v => existsb (λ e, bool_decide (Exposure.kind e = k)) l = true
                   ∧ units s (sum_of (λ e, bool_decide (Exposure.kind e = k)) l) v
       | None => existsb (λ e, bool_decide (Exposure.kind e = k)) l = false
       end.
Proof.
  induction l as [|e l IH] using rev_ind; intros Hl; simpl; [split; [apply units_zero|]; intros; by rewrite lookup_empty|].
  pose proof (proj1 Hl) as Hplaces. apply lines_fit_snoc in Hl as (Hl & He & Hg). destruct (IH Hl) as [IH1 IH2]. clear IH.
  rewrite foldl_app. cbn [foldl]. destruct (foldl total_step _ l) as [total kinds]. simpl in *.
  assert (∀ p a, units s (sum_of p l) a → units s (sum_of p l + n e) (d_add a (notional_of e))) as Hadd.
  { intros p a Ha. apply units_add; [done|pose proof (sum_of_gross p l); lia|done..]. }
  split.
  - rewrite sum_of_snoc. by apply Hadd.
  - intros k. rewrite existsb_app, sum_of_snoc. simpl. rewrite orb_false_r. unfold add_entry.
    specialize (IH2 k). case_bool_decide as Ek; [subst k|].
    + rewrite lookup_insert_eq, orb_true_r. split; [done|]. apply Hadd.
      destruct (kinds !! Exposure.kind e) as [v|]; [apply IH2|]. unfold sum_of. simpl.
      rewrite (filter_none _ l); [apply units_zero|]. by apply existsb_false_elem.
    + by rewrite lookup_insert_ne, orb_false_r, Z.add_0_r by done.
Qed.

(** The units of a number of [s] places. *)
Definition units_of (a : D) : Z := Qfloor (d_val a * pow10 s).
Definition whole (a : D) : Prop := units s (units_of a) a.

Lemma units_of_eq z a : units s z a → units_of a = z.
Proof. unfold units, units_of. intros ->. apply Qfloor_Z. Qed.

Lemma units_whole z a : units s z a → whole a.
Proof. intros Ha. unfold whole. by rewrite (units_of_eq z). Qed.

Lemma foldl_units (l : list (nat * D)) (z : Z) (acc : D) : (s <= 28)%nat →
  units s z acc → Forall (λ e, whole e.2) l → Z.abs z + zsum (Z.abs ∘ units_of ∘ snd <$> l) <= max_mantissa →
  units s (z + zsum (units_of ∘ snd <$> l)) (foldl (λ acc entry, d_add acc entry.2) acc l).
Proof.
  intros Hplaces Ha Hl. revert z acc Ha. unfold zsum, compose.
  assert (∀ l, 0 <= foldr Z.add 0 ((λ x : nat * D, Z.abs (units_of x.2)) <$> l)) as Hpos
    by (clear; intros l; induction l; [done|]; rewrite fmap_cons; cbn [foldr]; lia).
  induction Hl as [|e l He _ IH]; intros z acc Ha Hb; [by rewrite Z.add_0_r|].
  rewrite !fmap_cons in *. cbn [foldr foldl] in *. specialize (Hpos l). rewrite Z.add_assoc. apply IH; [|lia]. apply units_add; [done|lia|done..].
Qed.

Definition map_sum (m : gmap nat D) : Z := zsum (units_of ∘ snd <$> map_to_list m).
Definition map_gross (m : gmap nat D) : Z := zsum (Z.abs ∘ units_of ∘ snd <$> map_to_list m).
Definition map_whole (m : gmap nat D) : Prop := ∀ r v, m !! r = Some v → whole v.

(** Splitting off the entry of a group, absent ones counting as zero. *)
Lemma zsum_split (f : D → Z) (m : gmap nat D) r : f d_zero = 0 →
  zsum (f ∘ snd <$> map_to_list m) = f (default d_zero (m !! r)) + zsum (f ∘ snd <$> map_to_list (delete r m)).
Proof.
  intros Hf. destruct (m !! r) as [v|] eqn:E; simpl.
  - by rewrite <-(map_to_list_delete m r v) by done.
  - by rewrite delete_id, Hf by done.
Qed.

Lemma zsum_insert (f : D → Z) (m : gmap nat D) r v : f d_zero = 0 →
  zsum (f ∘ snd <$> map_to_list (<[r := v]> m)) = f v + zsum (f ∘ snd <$> map_to_list (delete r m)).
Proof. intros Hf. rewrite (zsum_split f _ r Hf), lookup_insert_eq. simpl. by rewrite delete_insert_eq. Qed.

Lemma map_sum_add m r z a : (s <= 28)%nat → map_whole m → units s z a → map_gross m + Z.abs z <= max_mantissa →
  map_whole (add_entry m r a) ∧ map_sum (add_entry m r a) = map_sum m + z
  ∧ map_gross (add_entry m r a) <= map_gross m + Z.abs z.
Proof.
  intros Hplaces Hm Ha Hb. unfold map_sum, map_gross, add_entry in *.
  assert (units_of d_zero = 0) as E0 by apply units_of_eq, units_zero.
  assert ((Z.abs ∘ units_of) d_zero = 0) as E0' by (unfold compose; by rewrite E0).
  set (w := default d_zero (m !! r)). assert (whole w) as Hw.
  { unfold w. destruct (m !! r) as [v|] eqn:E; [by eapply Hm|]. by eapply units_whole, units_zero. }
  rewrite (zsum_split (Z.abs ∘ units_of) m r E0') in Hb |- *. rewrite (zsum_split units_of m r E0), !zsum_insert by done.
  fold w in Hb |- *. set (rest := map_to_list (delete r m)) in *.
  assert (0 <= zsum (Z.abs ∘ units_of ∘ snd <$> rest)) as Hpos.
  { unfold zsum, compose. clearbody rest. clear. induction rest; [done|]. rewrite fmap_cons. cbn [foldr]. lia. }
  change ((Z.abs ∘ units_of) w) with (Z.abs (units_of w)) in Hb |- *.
  change ((Z.abs ∘ units_of) (d_add w a)) with (Z.abs (units_of (d_add w a))).
  assert (units s (units_of w + z) (d_add w a)) as Hs by (apply units_add; [done|lia|done..]).
  rewrite (units_of_eq _ _ Hs). split_and!; [|lia|lia].
  intros r' v'. destruct (decide (r' = r)) as [->|Hne]; [|rewrite lookup_insert_ne by done; apply Hm].
  rewrite lookup_insert_eq. intros [= <-]. by eapply units_whole.
Qed.

(** The loop that sums each group, over the first lines [l]. *)
Record summed (i : nat) (parent0 : list nat) (l : list Exposure) (st : list nat * gmap nat D) : Prop :=
  MkSummed {
    summed_upward : upward i st.1;
    summed_roots : same_roots parent0 st.1;
    summed_whole : map_whole st.2;
    summed_total : map_sum st.2 = sum_of is_correlated l;
    summed_gross : map_gross st.2 <= gross l;
    summed_groups r : is_Some (st.2 !! r) ↔ ∃ x, correlated_line l x ∧ root parent0 x r;
  }.

Lemma correlated_line_snoc l e x :
  correlated_line (l ++ [e]) x ↔ correlated_line l x ∨ (x = length l ∧ is_correlated e = true).
Proof.
  unfold correlated_line. setoid_rewrite lookup_app_Some. setoid_rewrite list_lookup_singleton_Some.
  split.
  - intros (e' & [?|(? & ? & ->)] & ?); [left; eauto|right; split; [lia|done]].
  - intros [(e' & ? & ?)|[-> ?]]; [eauto|]. exists e. split; [right; split_and!; [done|lia|done]|done].
Qed.

Lemma sum_lines_summed i parent l : lines_fit l →
  upward i parent → (length l <= length parent)%nat →
  ∃ st, foldl sum_line (Some (parent, ∅)) (enumerate l) = Some st ∧ summed i parent l st.
Proof.
  intros Hfit Hup. induction l as [|e l IH] using rev_ind; intros Hl.
  { eexists. split; [done|]. split; cbn [fst snd]; [done|done|intros r v; by rewrite lookup_empty|unfold map_sum; by rewrite map_to_list_empty
      |unfold map_gross; by rewrite map_to_list_empty|].
    intros r. simpl. rewrite lookup_empty. split; [by intros []|]. by intros (x & (e & ? & _) & _). }
  pose proof (proj1 Hfit) as Hplaces. apply lines_fit_snoc in Hfit as (Hfit & He & Hge).
  rewrite length_app in Hl. simpl in Hl. destruct (IH Hfit) as ([p gn] & E & [Hu Hr Hw Ht Hb Hg]); [lia|]. simpl in *.
  rewrite enumerate_snoc, foldl_app, E. simpl.
  assert (is_correlated e = match Exposure.correlated e with Some _ => true | None => false end) as Ee by done.
  destruct (Exposure.correlated e) as [keys|].
  - destruct (uf_find_ok i p (length l) Hu) as (r & p' & -> & Hpr & Hu' & Hr'); [rewrite (proj1 Hr); lia|].
    destruct (map_sum_add gn r (n e) (notional_of e) Hplaces Hw He) as (Hw' & Ht' & Hb'); [lia|].
    eexists. split; [done|]. destruct Hr as [Hlen Hr], Hr' as [Hlen' Hr']. split; simpl; [done|..].
    + split; [congruence|]. auto.
    + done.
    + rewrite sum_of_snoc, Ee, <-Ht. done.
    + rewrite gross_snoc. unfold notional_of in Hb'. lia.
    + intros r0. unfold add_entry. rewrite lookup_insert_is_Some', Hg. setoid_rewrite correlated_line_snoc.
      destruct (root_exists i parent (length l) Hup) as [r' Hpr']; [lia|].
      assert (r' = r) as -> by (eapply root_functional; [by apply Hr|done]).
      split.
      * intros [<-|(x & ? & ?)]; eauto.
      * intros (x & [?|[-> _]] & Hx); [right; eauto|]. left. by eapply root_functional.
  - eexists. split; [done|]. split; simpl; [done|done|done|rewrite sum_of_snoc, Ee; lia|rewrite gross_snoc; lia|].
    intros r. rewrite Hg. setoid_rewrite correlated_line_snoc. rewrite Ee. naive_solver.
Qed.

(** The representatives: one line per group. *)
Lemma groups_represent i exposures parent owners (st : list nat * gmap nat D) :
  grouped (length exposures) i (entries exposures) (parent, owners) →
  summed i parent exposures st →
  let reps := (map_to_list st.2).*1 in
  (∀ r, r ∈ reps → correlated_line exposures r) ∧
  ∀ x, correlated_line exposures x →
    exists! r, r ∈ reps ∧ rtc (share_key exposures) x r.
Proof.
  clear iter iter_perm. intros [Hup Hlen _ _ _ Hcl] [_ _ _ _ _ Hg]. simpl in *.
  assert (∀ r, r ∈ (map_to_list st.2).*1 ↔ ∃ x, correlated_line exposures x ∧ root parent x r) as Hreps.
  { intros r. rewrite <-Hg, list_elem_of_fmap. split.
    - intros ([? v] & -> & Hv%elem_of_map_to_list). by eexists.
    - intros [v Hv%elem_of_map_to_list]. by exists (r, v). }
  assert (∀ x, correlated_line exposures x → (x < length exposures)%nat) as Hlt.
  { intros x (e & ?%lookup_lt_Some & _). done. }
  assert (∀ x y, (x < length exposures)%nat → (y < length exposures)%nat →
    same_root parent x y ↔ rtc (share_key exposures) x y) as Hconn.
  { intros x y Hx Hy. rewrite Hcl by done. split; apply rtc_subrel; intros a b; apply shares_entries. }
  assert (∀ x r, (x < length exposures)%nat → root parent x r → (r < length exposures)%nat) as Hrlt.
  { intros x r Hx (_ & _ & ?)%(root_upward i); [by rewrite <-Hlen|done]. }
  split.
  - intros r (x & Hx & Hr)%Hreps. pose proof (Hlt _ Hx) as Hxl. pose proof (Hrlt _ _ Hxl Hr) as Hrl.
    assert (rtc (share_key exposures) r x) as Hc.
    { apply Hconn; [done..|]. exists r. split; [by eapply root_of_root|done]. }
    destruct Hc as [|y z x (ex & ey & kx & ky & k & ? & _ & E & _) _]; [done|].
    exists ex. split; [done|]. unfold is_correlated. by rewrite E.
  - intros x Hx. pose proof (Hlt _ Hx) as Hxl.
    destruct (root_exists i parent x Hup) as [r Hr]; [by rewrite Hlen|].
    exists r. split.
    + split; [apply Hreps; eauto|]. apply Hconn; [done|by eapply Hrlt|].
      exists r. split; [done|by eapply root_of_root].
    + intros r' [(y & Hy & Hr')%Hreps Hc]. pose proof (Hlt _ Hy) as Hyl.
      apply Hconn in Hc as (q & Hxq & Hrq); [|done|by eapply Hrlt].
      transitivity q; [by eapply root_functional|]. symmetry.
      eapply root_functional; [by eapply root_of_root|done].
Qed.

(** Claim C14: Exposure is aggregated as the code sums it.  Let every line's
    notional be a number of [s] <= 28 decimal places, the sizes of all of them
    together within the 96 bits of a Decimal, so that no sum rounds or
    overflows.  Then [project] returns: the union-find never runs away nor
    indexes out of range.  The total and every kind's subtotal are the exact
    sums of the lines' notionals, and a kind without lines has none; the
    correlation groups are counted by the classes of the lines related by
    chains of shared keys, one representative per class; and the correlated
    notional is the exact sum of all the correlated lines, not of one per
    group, whatever the iteration order of the group map. *)
Theorem project_groups_exposure exposures (Hfit : lines_fit exposures) :
  ∃ P reps, project iter exposures = Some P ∧
    units s (zsum (n <$> exposures)) (total_notional P) ∧
    (∀ k, match by_kind P !! k with
          | Some v => existsb (λ e, bool_decide (Exposure.kind e = k)) exposures = true
                      ∧ units s (sum_of (λ e, bool_decide (Exposure.kind e = k)) exposures) v
          | None => existsb (λ e, bool_decide (Exposure.kind e = k)) exposures = false
          end) ∧
    units s (sum_of is_correlated exposures) (correlated_notional P) ∧
    correlation_groups P = wrap_u32 (Z.of_nat (length reps)) ∧ NoDup reps ∧
    (∀ r, r ∈ reps → correlated_line exposures r) ∧
    (∀ x, correlated_line exposures x →
       exists! r, r ∈ reps ∧ rtc (share_key exposures) x r).
Proof.
  destruct (total_steps exposures Hfit) as [Ht Hk]. rewrite sum_of_all in Ht. unfold project.
  destruct (foldl total_step _ exposures) as [total kinds]. simpl in Ht, Hk.
  assert (∀ gn, map_whole gn → map_gross gn <= gross exposures →
    units s (map_sum gn) (foldl (λ acc entry, d_add acc entry.2) d_zero (iter gn))) as Hsum.
  { intros gn Hw Hb. replace (map_sum gn) with (0 + zsum (units_of ∘ snd <$> iter gn))
      by (unfold map_sum; by rewrite iter_perm).
    apply foldl_units; [apply Hfit|apply units_zero| |].
    - apply Forall_forall. intros [r v]. rewrite iter_perm. intros Hv%elem_of_map_to_list. by eapply Hw.
    - rewrite iter_perm. destruct Hfit as (_ & _ & Hg). unfold map_gross in Hb. lia. }
  destruct exposures as [|e0 l] eqn:El; [|rewrite <-El in *].
  { eexists _, []. split; [done|]. simpl. split_and!; [done|done| |done|constructor|set_solver|].
    - replace (sum_of is_correlated []) with (map_sum ∅) by (unfold map_sum; by rewrite map_to_list_empty).
      apply Hsum; [intros r v; by rewrite lookup_empty|]. unfold map_gross. by rewrite map_to_list_empty.
    - by intros x (e & ? & _). }
  destruct (group_lines_grouped (length exposures) exposures) as ([parent owners] & E & Hg);
    [by subst; apply Nat.lt_0_succ|done|].
  unfold group_lines. rewrite E.
  destruct (sum_lines_summed (pred (length exposures)) parent exposures) as ([p gn] & E' & Hs);
    [done|apply Hg|pose proof (grouped_length _ _ _ _ Hg); simpl in *; lia|].
  rewrite E'. destruct (groups_represent _ _ _ _ _ Hg Hs) as [Hreps Hrep]. destruct Hs as [_ _ Hw Hc Hb _].
  eexists _, (map_to_list gn).*1. split; [done|]. simpl in *. split_and!; try done.
  - rewrite <-Hc. by apply Hsum.
  - by rewrite length_fmap, length_map_to_list.
  - apply NoDup_fst_map_to_list.
Qed.
End totals.

Definition sample_exposures : list Exposure :=
  [Exposure.mk "token" "T1" "100" (Some ["g1"; "g2"]);
   Exposure.mk "token" "T2" "50" (Some ["g2"]);
   Exposure.mk "token" "T3" "30" (Some ["g3"]);
   Exposure.mk "pool" "P1" "7" None].

Definition sample_notional (e : Exposure) : Z :=
  match digits 0 (Exposure.notional e) with Some z => z | None => 0%Z end.

(** The group of T1 and T2 contributes both its lines, not the first alone. *)
Lemma project_groups_exposure_witness :
  ∃ P : PortfolioProjection (D := Qc), project map_to_list sample_exposures = Some P ∧
    units 0 180 (correlated_notional P) ∧ correlation_groups P = 2%Z.
Proof.
  destruct (project_groups_exposure (D := Qc) map_to_list (λ m, reflexivity _) 0 sample_notional sample_exposures)
    as (P & reps & E & _ & _ & Hc & _).
  { split_and!; [lia| |by vm_compute]. intros e He.
    repeat (apply elem_of_cons in He as [->|He]; [by vm_compute|]). by apply not_elem_of_nil in He. }
  exists P. split; [exact E|]. split; [exact Hc|].
  assert (correlation_groups <$> project (D := Qc) map_to_list sample_exposures = Some 2%Z) as E2
    by by vm_compute.
  rewrite E in E2. by injection E2.
Defined.
