(* ===== verification/Lifecycle.v ===== *)
(** * Lifecycles (src/src/sf/strategy_runtime.rs, token_runtime.rs,
      revival_runtime.rs, narrative_runtime.rs, narrative.rs, revival.rs)

    Four staged processes, one [Module] each: the strategy lifecycle with its
    shadow and paper gates, the token birth lifecycle, the revival flow of a
    dormant token, and the provenance stages of a narrative with the proofs
    that certify them.  A [serde_json::Value] is a parameter. *)
From S2P Require Import Prelude Text Domain Floats.
From stdpp Require Import options.
Local Open Scope string_scope.
Local Open Scope Z_scope.
Local Open Scope list_scope.

(** ** strategy.rs, strategy_runtime.rs *)

Module Strategy.
Inductive StrategyLifecycle :=
  | Draft | Shadow | Paper | Validated | Approved | Canary | Active | Paused | Retired.
#[global] Instance StrategyLifecycle_eq_dec : EqDecision StrategyLifecycle.
Proof. solve_decision. Defined.

Definition stage_index (s : StrategyLifecycle) : Z :=
  match s with
  | Draft => 0 | Shadow => 1 | Paper => 2 | Validated => 3 | Approved => 4
  | Canary => 5 | Active => 6 | Paused => 7 | Retired => 8
  end.

Definition can_transition (current next : StrategyLifecycle) : bool :=
  if bool_decide (current = Retired) then false else
  if (bool_decide (current = Active) && bool_decide (next = Paused))
     || (bool_decide (current = Paused) && bool_decide (next = Active)) then true else
  bool_decide (stage_index next = stage_index current + 1).

Definition is_live_ready (lifecycle : StrategyLifecycle) : bool :=
  match lifecycle with Approved | Canary | Active => true | _ => false end.

Section outcomes.
(** [as_object v] is the number of entries of an object. *)
Context {Value : Type} (as_object : Value → option nat).

Record ShadowOutcome := MkShadowOutcome {
  strategy_version_id : string;
  window_start : string;
  window_end : string;
  metrics : Value;
  rejected_candidates : list string;
}.

Definition negative_findings (outcomes : list ShadowOutcome) : nat :=
  foldr Nat.add O ((λ o, length (rejected_candidates o)) <$> outcomes).

Definition shadow_passed (outcome : ShadowOutcome) : bool :=
  let has_metrics := match as_object (metrics outcome) with
                     | Some n => negb (bool_decide (n = O))
                     | None => false
                     end in
  bool_decide (rejected_candidates outcome = []) && has_metrics.

Record PaperFriction := MkPaperFriction {
  fees : option string;
  gas : option string;
  tip : option string;
  rent : option string;
  slippage : option string;
  latency : option string;
}.

Record PaperExecution := MkPaperExecution {
  paper_version_id : string;
  quote : string;
  friction : PaperFriction;
  paper_pnl : option string;
}.

(** [parse_f64] is [str::parse::<f64>]. *)
Definition paper_positive (parse_f64 : string → option f64) (exec : PaperExecution) : bool :=
  match paper_pnl exec ≫= parse_f64 with Some p => f64_ltb (f64_of_Z 0) p | None => false end.
End outcomes.
End Strategy.

(** ** token_runtime.rs *)

Module TokenStage.
Import TokenLifecycle.

Definition stage_index (s : TokenLifecycle) : Z :=
  match s with
  | Created => 0 | PreGraduation => 1 | Migrated => 2 | FirstLiquidity => 3
  | Active => 4 | Cooling => 5 | Dormant => 6 | Archived => 7 | Tombstoned => 8
  end.

Definition can_advance (current next : TokenLifecycle) : bool :=
  if bool_decide (current = Archived) || bool_decide (current = Tombstoned) then false
  else bool_decide (stage_index current <= stage_index next).

Definition wake_gate (baseline_value signal_value : option f64) : bool :=
  match baseline_value, signal_value with
  | Some base, Some sig => f64_ltb base sig
  | _, _ => false
  end.

Definition advance (current next : TokenLifecycle) : TokenLifecycle :=
  if can_advance current next then next else current.
End TokenStage.

(** ** revival.rs, revival_runtime.rs *)

Module Revival.
Inductive RevivalStage :=
  | Wake | DormantBaselineComparison | ActivationGate | Refresh | RevivalQuality
  | OpportunityEvaluation.
#[global] Instance RevivalStage_eq_dec : EqDecision RevivalStage.
Proof. solve_decision. Defined.

Record DormantBaseline {Value : Type} := MkBaseline {
  baseline_token : string;
  dormant_at : string;
  baseline : Value;
  failure_memory : list string;
}.
#[global] Arguments DormantBaseline : clear implicits.

Record RevivalResult := MkResult {
  token : string;
  reached_stage : RevivalStage;
  revival_quality : option f64;
  passed_activation_gate : bool;
  evidence_refs : list string;
}.

Definition stage_index (s : RevivalStage) : Z :=
  match s with
  | Wake => 0 | DormantBaselineComparison => 1 | ActivationGate => 2 | Refresh => 3
  | RevivalQuality => 4 | OpportunityEvaluation => 5
  end.

Definition run_revival {Value} (token : string) (baseline : DormantBaseline Value)
    (wake passed_gate : bool) (revival_quality : option f64) (evidence_refs : list string)
    : RevivalResult :=
  let all_evidence := failure_memory baseline ++ evidence_refs in
  if negb (bool_decide (token = baseline_token baseline)) then
    MkResult token Wake None false all_evidence
  else if negb wake then MkResult token Wake None false all_evidence
  else if negb passed_gate then MkResult token ActivationGate None false all_evidence
  else
    let has_quality := match revival_quality with Some _ => true | None => false end in
    let has_caller_evidence := negb (bool_decide (evidence_refs = [])) in
    let reached :=
      if has_quality && has_caller_evidence then OpportunityEvaluation else RevivalQuality in
    MkResult token reached revival_quality true all_evidence.

Definition can_progress (current next : RevivalStage) : bool :=
  bool_decide (stage_index next = stage_index current + 1).
End Revival.

(** ** narrative.rs, narrative_runtime.rs *)

Module Narrative.
Inductive ProvenanceRole :=
  | Originator | IndependentSpread | OfficialAdopter | Deployer | CallerAmplifier
  | MarketLeadingContract.

Inductive ProvenanceTruthStatus := Exact | Reconstructed | Estimated | Insufficient.

Record NarrativeEdge := MkEdge {
  from_key : string;
  to_key : string;
  role : ProvenanceRole;
  truth_status : ProvenanceTruthStatus;
  evidence_ref : option string;
  confidence : option f64;
}.

Inductive ProvenanceStage :=
  | DeployFirstLiquidity | MetadataFingerprint | LocalArchiveSearch
  | ExactAliasWebXTiktokSearch | OcrAsrImagePhoneticExpansion | EarliestEvidence
  | OriginAdoptionPropagationGraph.
#[global] Instance ProvenanceStage_eq_dec : EqDecision ProvenanceStage.
Proof. solve_decision. Defined.

Record NarrativeResolution := MkResolution {
  resolution_key : string;
  resolved_stage : ProvenanceStage;
  originator : option string;
  independent_spread : list string;
  official_adopter : option string;
  market_leading_contract : option string;
}.

Inductive StageArtifactKind := EvidenceRef | GraphAssemblyRecord.
#[global] Instance StageArtifactKind_eq_dec : EqDecision StageArtifactKind.
Proof. solve_decision. Defined.

Record VerifiedStageProof := MkProof {
  narrative_key : string;
  run_id : string;
  stage : ProvenanceStage;
  artifact_id : string;
  artifact_kind : StageArtifactKind;
}.

(** [VerifiedStageProof::verify], the only production constructor. *)
Definition verify (narrative_key run_id : string) (stage : ProvenanceStage)
    (artifact_id : string) (artifact_kind : StageArtifactKind)
    (evidence_refs graph_records : list string) : option VerifiedStageProof :=
  if blank narrative_key || blank run_id || blank artifact_id then None else
  let exists_ :=
    match stage with
    | EarliestEvidence =>
        bool_decide (artifact_kind = EvidenceRef) && contains artifact_id evidence_refs
    | OriginAdoptionPropagationGraph =>
        bool_decide (artifact_kind = GraphAssemblyRecord) && contains artifact_id graph_records
    | _ => true
    end in
  if negb exists_ then None else
  Some (MkProof narrative_key run_id stage artifact_id artifact_kind).

Definition has_artifact (p : VerifiedStageProof) : bool := negb (blank (artifact_id p)).

Definition stage_index (s : ProvenanceStage) : Z :=
  match s with
  | DeployFirstLiquidity => 0 | MetadataFingerprint => 1 | LocalArchiveSearch => 2
  | ExactAliasWebXTiktokSearch => 3 | OcrAsrImagePhoneticExpansion => 4
  | EarliestEvidence => 5 | OriginAdoptionPropagationGraph => 6
  end.

Definition can_advance (current next : ProvenanceStage) : bool :=
  bool_decide (stage_index current < stage_index next).

Definition kind_ok (p : VerifiedStageProof) : bool :=
  match stage p with
  | EarliestEvidence => bool_decide (artifact_kind p = EvidenceRef)
  | OriginAdoptionPropagationGraph => bool_decide (artifact_kind p = GraphAssemblyRecord)
  | _ => true
  end.

(** The loop of [contiguous_stage]; [expected += 1] on a [u8]. *)
Fixpoint contiguous_from (key : string) (expected : Z) (last : ProvenanceStage)
    (completed : list VerifiedStageProof) : ProvenanceStage :=
  match completed with
  | [] => last
  | proof :: completed =>
      if negb (bool_decide (narrative_key proof = key)) then last else
      if negb (bool_decide (stage_index (stage proof) = expected)) then last else
      if negb (has_artifact proof) then last else
      if negb (kind_ok proof) then last else
      contiguous_from key ((expected + 1) mod 2 ^ 8) (stage proof) completed
  end.

Definition contiguous_stage (key : string) (completed : list VerifiedStageProof)
    : ProvenanceStage :=
  contiguous_from key 0 DeployFirstLiquidity completed.

(** [if slot.is_none() { slot = Some(key) }] *)
Definition or_set (slot : option string) (key : string) : option string :=
  match slot with None => Some key | Some k => Some k end.

(** The mutable variables of [resolve]: originator, official adopter, market
    leader, spread. *)
Record roles := MkRoles {
  r_originator : option string;
  r_adopter : option string;
  r_leader : option string;
  r_spread : list string;
}.

Definition resolve_step (r : roles) (e : NarrativeEdge) : roles :=
  let '(MkRoles o a l s) := r in
  match role e with
  | Originator => MkRoles (or_set o (from_key e)) a l s
  | OfficialAdopter => MkRoles o (or_set a (from_key e)) l s
  | MarketLeadingContract => MkRoles o a (or_set l (from_key e)) s
  | IndependentSpread => MkRoles o a l (s ++ [from_key e])
  | _ => r
  end.

Definition resolve (key : string) (edges : list NarrativeEdge)
    (completed_stages : list VerifiedStageProof) : NarrativeResolution :=
  let r := foldl resolve_step (MkRoles None None None []) edges in
  MkResolution key (contiguous_stage key completed_stages)
    (r_originator r) (r_spread r) (r_adopter r) (r_leader r).
End Narrative.

(** ** Theorems *)

Section strategy.
Import Strategy.

(** The stages a strategy went through, latest first. *)
Inductive history : list StrategyLifecycle → StrategyLifecycle → Prop :=
  | history_draft : history [Draft] Draft
  | history_step l s t : history l s → can_transition s t = true → history (t :: l) t.

Lemma can_transition_index s t :
  can_transition s t = true →
  s ≠ Retired ∧ (stage_index t = stage_index s + 1 ∨ (s = Paused ∧ t = Active)).
Proof. destruct s, t; vm_compute; naive_solver. Qed.

Lemma stage_index_inj s t : stage_index s = stage_index t → s = t.
Proof. by destruct s, t. Qed.

Lemma history_complete l s t : history l s → stage_index t <= stage_index s → t ∈ l.
Proof.
  intros Hl. revert t. induction Hl as [|l s s' Hl IH Ht]; intros t Hle.
  - destruct t; simpl in Hle; try lia. left.
  - apply can_transition_index in Ht as [_ [Hi|[-> ->]]].
    + destruct (decide (stage_index t = stage_index s')) as [->%stage_index_inj|Hne]; [left|].
      right. apply IH. lia.
    + right. apply IH. simpl in *. lia.
Qed.

Lemma history_retired l s : history l s → s ≠ Retired → Retired ∉ l.
Proof.
  induction 1 as [|l s t Hl IH Ht]; intros Hs; [set_solver|].
  apply can_transition_index in Ht as [Hr _]. specialize (IH Hr). set_solver.
Qed.
End strategy.

(** The gates of the strategy lifecycle.  However a strategy moved, it went
    through every stage before the one it is in; so one that may go live has
    been in shadow, on paper, validated and approved, and was never retired;
    and nothing leaves the retired stage. *)
Theorem strategy_gates_enforced l s :
  history l s →
  (∀ t, Strategy.stage_index t <= Strategy.stage_index s → t ∈ l) ∧
  (Strategy.is_live_ready s = true →
     [Strategy.Shadow; Strategy.Paper; Strategy.Validated; Strategy.Approved] ⊆ l ∧
     Strategy.Retired ∉ l) ∧
  ∀ t, Strategy.can_transition Strategy.Retired t = false.
Proof.
  intros Hl. split; [intros t; by apply history_complete|]. split; [|done].
  intros Hs. split; [|apply (history_retired _ _ Hl); by intros ->].
  intros t Ht. apply (history_complete _ _ _ Hl).
  repeat (apply elem_of_cons in Ht as [->|Ht]; [by destruct s|]). by apply not_elem_of_nil in Ht.
Qed.

Lemma strategy_gates_enforced_witness : ∃ l,
  history l Strategy.Canary ∧ [Strategy.Shadow; Strategy.Paper; Strategy.Validated; Strategy.Approved] ⊆ l.
Proof.
  assert (history [Strategy.Canary; Strategy.Approved; Strategy.Validated; Strategy.Paper;
    Strategy.Shadow; Strategy.Draft] Strategy.Canary) as H
    by (apply history_step with Strategy.Approved; [|done];
        apply history_step with Strategy.Validated; [|done];
        apply history_step with Strategy.Paper; [|done];
        apply history_step with Strategy.Shadow; [|done];
        apply history_step with Strategy.Draft; [|done]; constructor).
  eexists. split; [exact H|].
  exact (proj1 (proj1 (proj2 (strategy_gates_enforced _ _ H)) eq_refl)).
Defined.

Section token.
Import TokenStage.

Lemma advance_index c n :
  stage_index c <= stage_index (advance c n).
Proof. unfold advance. destruct (can_advance c n) eqn:E; [|lia]. by destruct c, n. Qed.

Definition terminal (c : TokenLifecycle) : bool :=
  bool_decide (c = TokenLifecycle.Archived ∨ c = TokenLifecycle.Tombstoned).
End token.

(** A token's lifecycle never goes back: whatever stages are requested, in
    whatever order, the stage never falls below an earlier one; and an archived
    or tombstoned token stays so. *)
Theorem token_lifecycle_monotone c requests :
  TokenStage.stage_index c <= TokenStage.stage_index (foldl TokenStage.advance c requests) ∧
  (terminal c = true → foldl TokenStage.advance c requests = c) ∧
  ∀ n, TokenStage.advance c n = n ∨ TokenStage.advance c n = c.
Proof.
  split_and!.
  - revert c. induction requests as [|n l IH]; intros c; simpl; [lia|].
    etrans; [apply (advance_index c n)|apply IH].
  - intros Hc%bool_decide_eq_true. induction requests as [|n l IH]; simpl; [done|].
    by destruct Hc as [->| ->].
  - intros n. unfold TokenStage.advance. case_match; auto.
Qed.

Lemma token_lifecycle_monotone_witness :
  foldl TokenStage.advance TokenLifecycle.Archived [TokenLifecycle.Active; TokenLifecycle.Tombstoned]
  = TokenLifecycle.Archived.
Proof. exact (proj1 (proj2 (token_lifecycle_monotone TokenLifecycle.Archived
  [TokenLifecycle.Active; TokenLifecycle.Tombstoned])) eq_refl). Defined.

(** The revival flow fails closed.  The opportunity is evaluated exactly when
    the baseline is the token's own, the wake signal fired, the activation gate
    passed, a quality was computed and the caller gave evidence; nothing past
    the activation gate is reached without both signals; and the failure memory
    comes first in the evidence on every path. *)
Theorem revival_fails_closed {Value} token (baseline : Revival.DormantBaseline Value)
    wake gate quality evidence :
  let r := Revival.run_revival token baseline wake gate quality evidence in
  let open := token = Revival.baseline_token baseline ∧ wake = true ∧ gate = true in
  (Revival.reached_stage r = Revival.OpportunityEvaluation ↔
     open ∧ is_Some quality ∧ evidence ≠ []) ∧
  (Revival.passed_activation_gate r = true ↔ open) ∧
  (Revival.stage_index Revival.ActivationGate < Revival.stage_index (Revival.reached_stage r) ↔ open) ∧
  (is_Some (Revival.revival_quality r) ↔ open ∧ is_Some quality) ∧
  Revival.evidence_refs r = Revival.failure_memory baseline ++ evidence.
Proof.
  unfold Revival.run_revival. case_bool_decide as Ht; simpl; [|by split_and!; naive_solver].
  destruct wake, gate; simpl; try by split_and!; try naive_solver; split; [|naive_solver]; intros ?; lia.
  case_bool_decide as He; (destruct quality as [q|]; simpl);
    split_and!; try naive_solver; split; try naive_solver; try lia; by intros (_ & [] & _).
Qed.

Section narrative.
Import Narrative.

(** A proof certifies stage number [i] of narrative [key]. *)
Definition certifies (key : string) (i : Z) (p : VerifiedStageProof) : Prop :=
  narrative_key p = key ∧ stage_index (stage p) = i ∧ trim (artifact_id p) ≠ "" ∧
  (stage p = EarliestEvidence → artifact_kind p = EvidenceRef) ∧
  (stage p = OriginAdoptionPropagationGraph → artifact_kind p = GraphAssemblyRecord).

Lemma kind_ok_spec p :
  kind_ok p = true ↔
  (stage p = EarliestEvidence → artifact_kind p = EvidenceRef) ∧
  (stage p = OriginAdoptionPropagationGraph → artifact_kind p = GraphAssemblyRecord).
Proof.
  unfold kind_ok. destruct (stage p); rewrite ?bool_decide_eq_true; naive_solver.
Qed.

Lemma stage_index_range s : 0 <= stage_index s <= 6.
Proof. destruct s; simpl; lia. Qed.

Lemma contiguous_from_step key i last p ps :
  0 <= i <= 7 →
  (certifies key i p ∧ contiguous_from key i last (p :: ps) = contiguous_from key (i + 1) (stage p) ps)
  ∨ (¬ certifies key i p ∧ contiguous_from key i last (p :: ps) = last).
Proof.
  intros Hi. cbn [contiguous_from]. unfold certifies. rewrite <-kind_ok_spec.
  case_bool_decide as Hk; simpl; [|right; naive_solver].
  case_bool_decide as Hs; simpl; [|right; naive_solver].
  unfold has_artifact, blank. case_bool_decide as Ha; simpl; [right; naive_solver|].
  destruct (kind_ok p); simpl; [|right; naive_solver].
  left. rewrite Z.mod_small by lia. done.
Qed.

(** The result is the last stage of the longest certified prefix. *)
Lemma contiguous_from_spec key ps : ∀ i last,
  0 <= i <= 7 → ∃ n : nat, (n <= length ps)%nat ∧
    (∀ j p, (j < n)%nat → ps !! j = Some p → certifies key (i + Z.of_nat j) p) ∧
    (∀ p, ps !! n = Some p → ¬ certifies key (i + Z.of_nat n) p) ∧
    (n = O → contiguous_from key i last ps = last) ∧
    ((0 < n)%nat → stage_index (contiguous_from key i last ps) = i + Z.of_nat n - 1).
Proof.
  induction ps as [|p ps IH]; intros i last Hi.
  { exists O. split_and!; [done|lia| |done|lia]. by intros. }
  destruct (contiguous_from_step key i last p ps Hi) as [[Hc ->]|[Hc ->]].
  - assert (i <= 6) as Hi6 by (pose proof (stage_index_range (stage p)); destruct Hc as (_ & ? & _); lia).
    destruct (IH (i + 1) (stage p)) as (n & Hn & Hp & Hx & H0 & H1); [lia|].
    exists (S n). split_and!; [simpl; lia| | |done|].
    + intros [|j] q Hj Hq; simpl in Hq; simplify_eq; [by rewrite Z.add_0_r|].
      replace (i + Z.of_nat (S j)) with (i + 1 + Z.of_nat j) by lia. apply Hp; [lia|done].
    + intros q Hq. replace (i + Z.of_nat (S n)) with (i + 1 + Z.of_nat n) by lia. by apply Hx.
    + intros _. destruct n as [|n]; [rewrite H0 by done; rewrite (proj1 (proj2 Hc)); lia|].
      rewrite H1 by lia. lia.
  - exists O. split_and!; [simpl; lia|lia| |done|lia]. simpl. intros q [= <-].
    by rewrite Z.add_0_r.
Qed.

(** What the production constructor vouches for. *)
Definition minted (evidence_refs graph_records : list string) (p : VerifiedStageProof) : Prop :=
  verify (narrative_key p) (run_id p) (stage p) (artifact_id p) (artifact_kind p)
    evidence_refs graph_records = Some p.

Lemma minted_stored ev gr p :
  minted ev gr p →
  (stage p = EarliestEvidence → artifact_id p ∈ ev) ∧
  (stage p = OriginAdoptionPropagationGraph → artifact_id p ∈ gr).
Proof.
  unfold minted, verify, contains. destruct (_ || _); [done|].
  destruct (stage p); simpl; intros Hm; split; try done; intros _;
    destruct (bool_decide (artifact_kind p = _)); try done; simpl in Hm;
    by case_bool_decide.
Qed.
End narrative.

(** A provenance stage is earned.  The resolved stage is that of the longest
    prefix of the proofs in which the proof number i certifies stage number i of
    this narrative with a non-blank artifact of the right kind, and no proof
    after the first gap counts.  So when every proof was minted by the verifying
    constructor, a narrative that reaches the final graph has all seven proofs,
    an earliest evidence that the evidence store holds and an assembly record
    that the graph store holds. *)
Theorem provenance_stage_earned key edges proofs ev gr :
  (∀ p, p ∈ proofs → minted ev gr p) →
  let s := Narrative.resolved_stage (Narrative.resolve key edges proofs) in
  (∃ n : nat, (n <= length proofs)%nat ∧
     (∀ j p, (j < n)%nat → proofs !! j = Some p → certifies key (Z.of_nat j) p) ∧
     (∀ p, proofs !! n = Some p → ¬ certifies key (Z.of_nat n) p) ∧
     Narrative.stage_index s = Z.max 0 (Z.of_nat n - 1)) ∧
  (s = Narrative.OriginAdoptionPropagationGraph →
   (7 <= length proofs)%nat ∧
   ∃ e g, proofs !! 5%nat = Some e ∧ proofs !! 6%nat = Some g ∧
     Narrative.artifact_id e ∈ ev ∧ Narrative.artifact_id g ∈ gr).
Proof.
  intros Hm s. unfold s. simpl. unfold Narrative.contiguous_stage.
  destruct (contiguous_from_spec key proofs 0 Narrative.DeployFirstLiquidity) as (n & Hn & Hp & Hx & H0 & H1);
    [lia|]. simpl in *.
  assert (Narrative.stage_index (Narrative.contiguous_from key 0 Narrative.DeployFirstLiquidity proofs)
    = Z.max 0 (Z.of_nat n - 1)) as Hs.
  { destruct n as [|n]; [rewrite H0 by done; done|]. rewrite H1 by lia. lia. }
  split; [by exists n|]. intros E. rewrite E in Hs. simpl in Hs.
  destruct (lookup_lt_is_Some_2 proofs 5%nat) as [e He]; [lia|].
  destruct (lookup_lt_is_Some_2 proofs 6%nat) as [g Hg]; [lia|].
  split; [lia|]. exists e, g. split; [done|]. split; [done|].
  destruct (Hp 5%nat e ltac:(lia) He) as (_ & Hse & _), (Hp 6%nat g ltac:(lia) Hg) as (_ & Hsg & _).
  apply list_elem_of_lookup_2, Hm, minted_stored in He as [He _].
  apply list_elem_of_lookup_2, Hm, minted_stored in Hg as [_ Hg].
  split; [apply He; by destruct (Narrative.stage e)|apply Hg; by destruct (Narrative.stage g)].
Qed.

Definition sample_proof (stage : Narrative.ProvenanceStage) (artifact : string)
    (kind : Narrative.StageArtifactKind) : Narrative.VerifiedStageProof :=
  Narrative.MkProof "narr1" "run1" stage artifact kind.

Definition sample_proofs : list Narrative.VerifiedStageProof :=
  [sample_proof Narrative.DeployFirstLiquidity "p0" Narrative.EvidenceRef;
   sample_proof Narrative.MetadataFingerprint "p1" Narrative.EvidenceRef;
   sample_proof Narrative.LocalArchiveSearch "p2" Narrative.EvidenceRef;
   sample_proof Narrative.ExactAliasWebXTiktokSearch "p3" Narrative.EvidenceRef;
   sample_proof Narrative.OcrAsrImagePhoneticExpansion "p4" Narrative.EvidenceRef;
   sample_proof Narrative.EarliestEvidence "ev1" Narrative.EvidenceRef;
   sample_proof Narrative.OriginAdoptionPropagationGraph "g1" Narrative.GraphAssemblyRecord].

Lemma provenance_stage_earned_witness :
  Narrative.resolved_stage (Narrative.resolve "narr1" [] sample_proofs)
    = Narrative.OriginAdoptionPropagationGraph ∧
  ∃ e g, sample_proofs !! 5%nat = Some e ∧ sample_proofs !! 6%nat = Some g ∧
    Narrative.artifact_id e ∈ ["ev1"] ∧ Narrative.artifact_id g ∈ ["g1"].
Proof.
  destruct (provenance_stage_earned "narr1" [] sample_proofs ["ev1"] ["g1"]) as [_ H].
  { intros p Hp.
    repeat (apply elem_of_cons in Hp as [->|Hp]; [by vm_compute|]). by apply not_elem_of_nil in Hp. }
  split; [by vm_compute|]. apply H. by vm_compute.
Defined.

(** The run a proof belongs to is never compared: proofs of any mixture of
    runs certify a narrative's stages exactly as proofs of one run would. *)
Theorem provenance_ignores_run key edges proofs (runs : Narrative.VerifiedStageProof → string) :
  Narrative.resolve key edges
    ((λ p, Narrative.MkProof (Narrative.narrative_key p) (runs p) (Narrative.stage p)
             (Narrative.artifact_id p) (Narrative.artifact_kind p)) <$> proofs)
  = Narrative.resolve key edges proofs.
Proof.
  unfold Narrative.resolve. f_equal. unfold Narrative.contiguous_stage.
  generalize 0, Narrative.DeployFirstLiquidity.
  induction proofs as [|p ps IH]; intros i last; [done|]. cbn [fmap list_fmap Narrative.contiguous_from].
  simpl. rewrite IH. done.
Qed.
