(* ===== verification/Models.v ===== *)
(** * Domain vocabularies (src/src/models.rs)

    The enums the legacy runtime persists as text, with their [as_str] and
    [parse]; the normalised transfer, trade and funding event.  Amounts are in
    a decimal type [D]. *)
From S2P Require Import Prelude Text Domain.
From stdpp Require Import options.
Local Open Scope string_scope.
Local Open Scope Z_scope.
Local Open Scope list_scope.

Module ChainKind.
Inductive ChainKind := Solana | Robinhood.
#[global] Instance ChainKind_eq_dec : EqDecision ChainKind.
Proof. solve_decision. Defined.

Definition as_str (c : ChainKind) : string :=
  match c with Solana => "solana" | Robinhood => "robinhood" end.

Definition parse (value : string) : option ChainKind :=
  let v := to_ascii_lowercase (trim value) in
  if contains v ["solana"; "sol"] then Some Solana else
  if contains v ["robinhood"; "rh"] then Some Robinhood else None.
End ChainKind.
Abbreviation ChainKind := ChainKind.ChainKind.

Module AssetKind.
Inductive AssetKind := Native | SplToken | Erc20.
#[global] Instance AssetKind_eq_dec : EqDecision AssetKind.
Proof. solve_decision. Defined.

Definition as_str (k : AssetKind) : string :=
  match k with Native => "native" | SplToken => "spl_token" | Erc20 => "erc20" end.
End AssetKind.
Abbreviation AssetKind := AssetKind.AssetKind.

Module Commitment.
Inductive Commitment := Processed | Confirmed | Finalized.
#[global] Instance Commitment_eq_dec : EqDecision Commitment.
Proof. solve_decision. Defined.

Definition as_str (c : Commitment) : string :=
  match c with Processed => "processed" | Confirmed => "confirmed" | Finalized => "finalized" end.

Definition parse (value : string) : option Commitment :=
  pick [(["processed"], Processed); (["confirmed"], Confirmed); (["finalized"], Finalized)]
    (to_ascii_lowercase (trim value)).

(** The derived order: declaration order. *)
Definition index (c : Commitment) : nat :=
  match c with Processed => 0 | Confirmed => 1 | Finalized => 2 end.
Definition ltb (a b : Commitment) : bool := (index a <? index b)%nat.
End Commitment.
Abbreviation Commitment := Commitment.Commitment.

Module WalletLabelKind.
Inductive WalletLabelKind :=
  | SmartDegen | Sniper | Bundler | RatTrader | DexBot | MevBot | FreshWallet | Dev | Insider
  | Arbitrage | CopyTrader | MarketMaker | Exchange | Bridge | KuiperExchange | Project.
#[global] Instance WalletLabelKind_eq_dec : EqDecision WalletLabelKind.
Proof. solve_decision. Defined.

Definition as_str (k : WalletLabelKind) : string :=
  match k with
  | SmartDegen => "smart_degen" | Sniper => "sniper" | Bundler => "bundler"
  | RatTrader => "rat_trader" | DexBot => "dex_bot" | MevBot => "mev_bot"
  | FreshWallet => "fresh_wallet" | Dev => "dev" | Insider => "insider"
  | Arbitrage => "arbitrage" | CopyTrader => "copy_trader" | MarketMaker => "market_maker"
  | Exchange => "exchange" | Bridge => "bridge" | KuiperExchange => "kuiper_exchange"
  | Project => "project"
  end.

Definition parse (value : string) : option WalletLabelKind :=
  pick
    [(["smart_degen"; "smartdegen"], SmartDegen); (["sniper"], Sniper); (["bundler"], Bundler);
     (["rat_trader"; "rattrader"], RatTrader); (["dex_bot"; "dexbot"], DexBot);
     (["mev_bot"; "mevbot"; "mev"], MevBot); (["fresh_wallet"; "freshwallet"], FreshWallet);
     (["dev"; "developer"; "creator"], Dev); (["insider"], Insider);
     (["arbitrage"], Arbitrage); (["copy_trader"; "copytrader"], CopyTrader);
     (["market_maker"; "marketmaker"], MarketMaker); (["exchange"; "cex"], Exchange);
     (["bridge"], Bridge); (["kuiper_exchange"; "kuiper"], KuiperExchange);
     (["project"], Project)]
    (to_ascii_lowercase (trim value)).
End WalletLabelKind.
Abbreviation WalletLabelKind := WalletLabelKind.WalletLabelKind.

Module Disposition.
Inductive Disposition := Score | Watch | FlowOnly | Skip.
#[global] Instance Disposition_eq_dec : EqDecision Disposition.
Proof. solve_decision. Defined.

Definition as_str (d : Disposition) : string :=
  match d with
  | Score => "score" | Watch => "watch" | FlowOnly => "flow_only" | Skip => "skip"
  end.

Definition parse (value : string) : option Disposition :=
  pick
    [(["score"], Score); (["watch"], Watch); (["flow_only"; "flow-only"], FlowOnly);
     (["skip"; "block"], Skip)]
    (to_ascii_lowercase (trim value)).
End Disposition.
Abbreviation Disposition := Disposition.Disposition.

Module LifecycleState.
Inductive LifecycleState :=
  | NewCreation | BondingCurve | NearGraduation | Graduated | PostMigration | Unsupported.
#[global] Instance LifecycleState_eq_dec : EqDecision LifecycleState.
Proof. solve_decision. Defined.

Definition as_str (s : LifecycleState) : string :=
  match s with
  | NewCreation => "new_creation" | BondingCurve => "bonding_curve"
  | NearGraduation => "near_graduation" | Graduated => "graduated"
  | PostMigration => "post_migration" | Unsupported => "unsupported"
  end.

Definition parse (value : string) : option LifecycleState :=
  let v := to_ascii_lowercase (trim value) in
  if bool_decide (v = "new_creation") then Some NewCreation else
  if bool_decide (v = "bonding_curve") then Some BondingCurve else
  if bool_decide (v = "near_graduation") then Some NearGraduation else
  if bool_decide (v = "graduated") then Some Graduated else
  if bool_decide (v = "post_migration") then Some PostMigration else None.

Definition entry_supported (s : LifecycleState) : bool :=
  match s with
  | NewCreation | BondingCurve | NearGraduation | Graduated | PostMigration => true
  | Unsupported => false
  end.
End LifecycleState.
Abbreviation LifecycleState := LifecycleState.LifecycleState.

Module NarrativeCategory.
Inductive NarrativeCategory :=
  | Ai | Defi | DepIn | Meme | Celebrity | Political | Gaming | Rwa | SolanaEcosystem
  | Launchpad | CommunityTakeover | Unknown.
#[global] Instance NarrativeCategory_eq_dec : EqDecision NarrativeCategory.
Proof. solve_decision. Defined.

Definition slug (c : NarrativeCategory) : string :=
  match c with
  | Ai => "ai" | Defi => "defi" | DepIn => "dep_in" | Meme => "meme"
  | Celebrity => "celebrity" | Political => "political" | Gaming => "gaming" | Rwa => "rwa"
  | SolanaEcosystem => "solana_ecosystem" | Launchpad => "launchpad"
  | CommunityTakeover => "community_takeover" | Unknown => "unknown"
  end.

Definition parse_slug (value : string) : option NarrativeCategory :=
  pick
    [(["ai"], Ai); (["defi"], Defi); (["dep_in"; "depin"], DepIn); (["meme"], Meme);
     (["celebrity"], Celebrity); (["political"], Political); (["gaming"], Gaming);
     (["rwa"], Rwa); (["solana_ecosystem"], SolanaEcosystem); (["launchpad"], Launchpad);
     (["community_takeover"], CommunityTakeover); (["unknown"], Unknown)]
    (to_ascii_lowercase (trim value)).
End NarrativeCategory.
Abbreviation NarrativeCategory := NarrativeCategory.NarrativeCategory.

Module RadarStage.
Inductive RadarStage := Funded | Preparation | Deployed | Dismissed.
#[global] Instance RadarStage_eq_dec : EqDecision RadarStage.
Proof. solve_decision. Defined.

Definition as_str (s : RadarStage) : string :=
  match s with
  | Funded => "funded" | Preparation => "preparation" | Deployed => "deployed"
  | Dismissed => "dismissed"
  end.

Definition parse (value : string) : option RadarStage :=
  pick
    [(["funded"], Funded); (["preparation"], Preparation); (["deployed"], Deployed);
     (["dismissed"], Dismissed)]
    (to_ascii_lowercase (trim value)).
End RadarStage.
Abbreviation RadarStage := RadarStage.RadarStage.

Module TradeSide.
Inductive TradeSide := Buy | Sell.
#[global] Instance TradeSide_eq_dec : EqDecision TradeSide.
Proof. solve_decision. Defined.

Definition as_str (s : TradeSide) : string :=
  match s with Buy => "buy" | Sell => "sell" end.
End TradeSide.
Abbreviation TradeSide := TradeSide.TradeSide.

Module NormalizedTransfer.
Record NormalizedTransfer (D : Type) := mk {
  chain : ChainKind;
  signature : string;
  event_index : Z;
  from_address : string;
  to_address : string;
  asset_kind : AssetKind;
  mint : string;
  raw_amount : string;
  amount : D;
  slot : option Z;
  block_time : option Z;
  observed_at : Z;
  source : string;
  commitment : Commitment;
}.
Arguments mk {_}.
Arguments chain {_}. Arguments signature {_}. Arguments event_index {_}.
Arguments from_address {_}. Arguments to_address {_}. Arguments asset_kind {_}.
Arguments mint {_}. Arguments raw_amount {_}. Arguments amount {_}. Arguments slot {_}.
Arguments block_time {_}. Arguments observed_at {_}. Arguments source {_}.
Arguments commitment {_}.
End NormalizedTransfer.
Abbreviation NormalizedTransfer := NormalizedTransfer.NormalizedTransfer.

Module NormalizedTrade.
Record NormalizedTrade (D : Type) := mk {
  chain : ChainKind;
  signature : string;
  event_index : Z;
  wallet : string;
  mint : string;
  side : TradeSide;
  raw_native_amount : string;
  raw_token_amount : string;
  native_amount : D;
  token_amount : D;
  usd_value : option D;
  slot : option Z;
  block_time : option Z;
  observed_at : Z;
  dex_id : option string;
  source : string;
}.
Arguments mk {_}.
Arguments chain {_}. Arguments signature {_}. Arguments event_index {_}. Arguments wallet {_}.
Arguments mint {_}. Arguments side {_}. Arguments raw_native_amount {_}.
Arguments raw_token_amount {_}. Arguments native_amount {_}. Arguments token_amount {_}.
Arguments usd_value {_}. Arguments slot {_}. Arguments block_time {_}. Arguments observed_at {_}.
Arguments dex_id {_}. Arguments source {_}.
End NormalizedTrade.
Abbreviation NormalizedTrade := NormalizedTrade.NormalizedTrade.

(** [short_addr]: five characters, an ellipsis, four characters. *)
Definition short_addr (address : string) : string :=
  let cs := chars address in
  if (length cs <=? 10)%nat then address
  else String.concat "" (take 5 cs) +:+ "…" +:+ String.concat "" (drop (length cs - 4) cs).

(** ** Round trips *)

Ltac by_cases x := destruct x; reflexivity.

Lemma wallet_label_kind_round_trip k : WalletLabelKind.parse (WalletLabelKind.as_str k) = Some k.
Proof. by_cases k. Qed.

Lemma disposition_round_trip d : Disposition.parse (Disposition.as_str d) = Some d.
Proof. by_cases d. Qed.

Lemma radar_stage_round_trip s : RadarStage.parse (RadarStage.as_str s) = Some s.
Proof. by_cases s. Qed.

Lemma commitment_round_trip c : Commitment.parse (Commitment.as_str c) = Some c.
Proof. by_cases c. Qed.

Lemma chain_kind_round_trip c : ChainKind.parse (ChainKind.as_str c) = Some c.
Proof. by_cases c. Qed.

Lemma narrative_round_trip c : NarrativeCategory.parse_slug (NarrativeCategory.slug c) = Some c.
Proof. by_cases c. Qed.

#[export] Hint Rewrite wallet_label_kind_round_trip disposition_round_trip radar_stage_round_trip
  commitment_round_trip chain_kind_round_trip narrative_round_trip : forge_text.
