(* ===== verification/Labels.v ===== *)
(** * Wallet labels and dispositions (src/src/db.rs, filter.rs, workers.rs)

    The workspace-owned label history of [wallet_labels] (rows are appended
    and revoked, never deleted), the authoritative disposition read from it,
    the automatic classifier that may append to it, and the transactional
    block-list import.  [now] is the database clock.  The foreign key of a
    label on its wallet is modelled; whatever else makes an INSERT fail (an
    unknown workspace, the connection) is the parameter [accepts]. *)
From S2P Require Import Prelude Text Domain Floats Models.
From stdpp Require Import options.
Local Open Scope string_scope.
Local Open Scope Z_scope.
Local Open Scope list_scope.

(** ** The tables *)

Module WalletLabel.
Record WalletLabel := mk {
  workspace_id : Z;
  chain : string;
  address : string;
  kind : string;
  disposition : string;
  reason : string;
  source : string;
  confidence : Z;
  manual : bool;
  expires_at : option Z;
  revoked_at : option Z;
}.
End WalletLabel.
Abbreviation WalletLabel := WalletLabel.WalletLabel.

Module Wallet.
Record Wallet := mk { first_seen : Z; last_seen : Z; source : string }.
End Wallet.
Abbreviation Wallet := Wallet.Wallet.

Record label_db := MkLabels {
  wallets : gmap (string * string) Wallet;
  labels : list WalletLabel;
}.

Definition wallet_labels_unknown : string := "unknown wallet disposition '".

(** ** db.rs: reads *)

Definition restrictiveness_rank (disposition : string) : result Z :=
  match pick [(["skip"], 0); (["flow_only"], 1); (["watch"], 2); (["score"], 3)] disposition with
  | Some r => ROk r
  | None =>
      RErr (wallet_labels_unknown +:+ disposition +:+
            "'; the label vocabulary is [skip, flow_only, watch, score]")
  end.

Definition disposition_stops_traversal (disposition : string) : result bool :=
  let! r := restrictiveness_rank disposition in
  let! f := restrictiveness_rank "flow_only" in
  ROk (r <=? f).

(** The [WHERE] clause of the policy reads. *)
Definition label_active (now workspace_id : Z) (chain address : string) (l : WalletLabel) : bool :=
  (WalletLabel.workspace_id l =? workspace_id)
  && bool_decide (WalletLabel.chain l = chain)
  && bool_decide (WalletLabel.address l = address)
  && bool_decide (WalletLabel.revoked_at l = None)
  && match WalletLabel.expires_at l with None => true | Some t => now <? t end.

Abbreviation ranked := (bool * Z * string)%type.

(** One iteration of the selection loop. *)
Definition prefer (best : option ranked) (row : string * bool) : result (option ranked) :=
  let '(disposition, manual) := row in
  let! restrictiveness := restrictiveness_rank disposition in
  let candidate : ranked := (manual, restrictiveness, disposition) in
  ROk (Some
    match best with
    | None => candidate
    | Some ((m, r, _) as current) =>
        if manual && negb m then candidate else
        if Bool.eqb manual m && (restrictiveness <? r) then candidate else current
    end).

Definition strongest (rows : list (string * bool)) : result (option string) :=
  let! best := fold_result prefer None rows in
  ROk (snd <$> best).

Definition label_row (l : WalletLabel) : string * bool :=
  (WalletLabel.disposition l, WalletLabel.manual l).

Definition active_disposition (db : label_db) (now workspace_id : Z) (chain address : string)
    : result (option string) :=
  strongest (label_row <$> List.filter (label_active now workspace_id chain address) (labels db)).

Definition manual_disposition (db : label_db) (now workspace_id : Z) (chain address : string)
    : result (option string) :=
  strongest (label_row <$>
    List.filter (λ l, label_active now workspace_id chain address l && WalletLabel.manual l)
      (labels db)).

Definition effective_disposition (db : label_db) (now workspace_id : Z) (chain : ChainKind)
    (address : string) : result Disposition :=
  let! d := active_disposition db now workspace_id (ChainKind.as_str chain) address in
  match d with
  | Some value =>
      match Disposition.parse value with
      | Some d => ROk d
      | None =>
          RErr (wallet_labels_unknown +:+ value +:+
                "'; the label vocabulary is [skip, flow_only, watch, score]")
      end
  | None => ROk Disposition.Watch
  end.

Definition allows_deep_sync (d : Disposition) : bool :=
  match d with Disposition.Skip => false | _ => true end.

Definition allows_scoring (d : Disposition) : bool :=
  match d with Disposition.Score => true | _ => false end.

(** [num_seconds] truncates toward zero. *)
Definition wallet_age_seconds (db : label_db) (chain address : string) (now : Z) : option Z :=
  (λ w, Z.max 0 (Z.quot (now - Wallet.first_seen w) 1000000000)) <$> wallets db !! (chain, address).

(** ** db.rs: writes *)

Definition upsert_wallet (db : label_db) (chain address : string) (seen_at : Z) (source : string)
    : label_db :=
  let row :=
    match wallets db !! (chain, address) with
    | None => Wallet.mk seen_at seen_at source
    | Some w => Wallet.mk (Wallet.first_seen w) (Z.max (Wallet.last_seen w) seen_at) source
    end in
  MkLabels (<[(chain, address) := row]> (wallets db)) (labels db).

Section writes.
Context (accepts : WalletLabel → bool).

(** INSERT INTO wallet_labels. *)
Definition insert_label (db : label_db) (l : WalletLabel) : result label_db :=
  if bool_decide (is_Some (wallets db !! (WalletLabel.chain l, WalletLabel.address l)))
     && accepts l
  then ROk (MkLabels (wallets db) (labels db ++ [l]))
  else RErr "insert into wallet_labels".

Definition add_wallet_label (db : label_db) (workspace_id : Z)
    (chain address kind disposition reason source : string) (confidence : Z) (manual : bool)
    (expires_at : option Z) : result label_db :=
  insert_label db
    (WalletLabel.mk workspace_id chain address kind disposition reason source confidence manual
       expires_at None).

(** The two writes of one line of a block list, reached at [clock]. *)
Definition import_address (workspace_id : Z) (chain reason : string)
    (st : label_db * Z) (item : Z * string) : result (label_db * Z) :=
  let '(db, imported) := st in
  let '(clock, line) := item in
  let address := trim line in
  if bool_decide (address = "") || starts_with "#" address then ROk (db, imported) else
  let row :=
    match wallets db !! (chain, address) with
    | None => Wallet.mk clock clock "blocklist"
    | Some w => Wallet.mk (Wallet.first_seen w) clock (Wallet.source w)
    end in
  let db := MkLabels (<[(chain, address) := row]> (wallets db)) (labels db) in
  let! db :=
    insert_label db
      (WalletLabel.mk workspace_id chain address "manual_block" "skip" reason "manual" 100 true
         None None) in
  ROk (db, imported + 1).

(** One transaction: a failure leaves the tables as they were. *)
Definition import_blocklist_tx (db : label_db) (workspace_id : Z) (chain : string)
    (addresses : list (Z * string)) (reason : string) : label_db * result Z :=
  match fold_result (import_address workspace_id chain reason) (db, 0) addresses with
  | ROk (db', imported) => (db', ROk imported)
  | RErr e => (db, RErr e)
  end.

Definition revocable (workspace_id : Z) (chain address : string) (kind : option string)
    (l : WalletLabel) : bool :=
  (WalletLabel.workspace_id l =? workspace_id)
  && bool_decide (WalletLabel.chain l = chain)
  && bool_decide (WalletLabel.address l = address)
  && match kind with None => true | Some k => bool_decide (WalletLabel.kind l = k) end
  && bool_decide (WalletLabel.revoked_at l = None).

Definition revoke_row (now : Z) (l : WalletLabel) : WalletLabel :=
  WalletLabel.mk (WalletLabel.workspace_id l) (WalletLabel.chain l) (WalletLabel.address l)
    (WalletLabel.kind l) (WalletLabel.disposition l) (WalletLabel.reason l)
    (WalletLabel.source l) (WalletLabel.confidence l) (WalletLabel.manual l)
    (WalletLabel.expires_at l) (Some now).

Definition revoke_wallet_label (db : label_db) (workspace_id : Z) (chain address : string)
    (kind : option string) (now : Z) : label_db * nat :=
  let hit := revocable workspace_id chain address kind in
  (MkLabels (wallets db) ((λ l, if hit l then revoke_row now l else l) <$> labels db),
   length (List.filter hit (labels db))).

(** ** filter.rs *)

Definition AUTO_LABEL_MIN_SWAPS : Z := 100.
Definition AUTO_SKIP_LIKELIHOOD : f64 := f64_lit 90 100.

Record BotClassification := MkBot {
  kind : option WalletLabelKind;
  likelihood : f64;
  swap_count : Z;
  auto_skip : bool;
  annotations : list WalletLabelKind;
}.

Definition is_annotation (l : WalletLabelKind) : bool :=
  match l with
  | WalletLabelKind.Sniper | WalletLabelKind.Bundler | WalletLabelKind.RatTrader
  | WalletLabelKind.Arbitrage | WalletLabelKind.CopyTrader | WalletLabelKind.MarketMaker => true
  | _ => false
  end.

Definition classify_bot (labels : list WalletLabelKind) (likelihood : f64) (swap_count : Z)
    : BotClassification :=
  let has_mev := contains WalletLabelKind.MevBot labels in
  let has_dex := contains WalletLabelKind.DexBot labels in
  let kind :=
    if has_mev then Some WalletLabelKind.MevBot else
    if has_dex then Some WalletLabelKind.DexBot else None in
  let auto_skip :=
    bool_decide (is_Some kind) && f64_leb AUTO_SKIP_LIKELIHOOD likelihood
    && (AUTO_LABEL_MIN_SWAPS <=? swap_count) in
  MkBot kind likelihood swap_count auto_skip (List.filter is_annotation labels).

(** [expect] on a classification without a kind is a panic, an error here. *)
Definition apply_automatic_disposition (db : label_db) (now workspace_id : Z) (chain : ChainKind)
    (address : string) (c : BotClassification) : label_db * result Disposition :=
  let write :=
    if negb (auto_skip c) then (db, ROk Disposition.Score) else
    match kind c with
    | None => (db, RErr "auto_skip implies kind")
    | Some k =>
        match
          add_wallet_label db workspace_id (ChainKind.as_str chain) address
            (WalletLabelKind.as_str k) "skip"
            ("automatic " +:+ WalletLabelKind.as_str k +:+ " classification likelihood " +:+
             f64_fixed2 (likelihood c) +:+ " after " +:+ pretty (swap_count c) +:+ " swaps")
            "auto" (f64_as_i32 (f64_mul (likelihood c) (f64_of_Z 100))) false None
        with
        | ROk db => (db, ROk Disposition.Skip)
        | RErr e => (db, RErr e)
        end
    end in
  match manual_disposition db now workspace_id (ChainKind.as_str chain) address with
  | RErr e => (db, RErr e)
  | ROk (Some value) =>
      match Disposition.parse value with Some d => (db, ROk d) | None => write end
  | ROk None => write
  end.
End writes.

(** ** The ranking *)

Definition rank (d : Disposition) : Z :=
  match d with
  | Disposition.Skip => 0 | Disposition.FlowOnly => 1 | Disposition.Watch => 2
  | Disposition.Score => 3
  end.

Lemma rank_inj d1 d2 : rank d1 = rank d2 → d1 = d2.
Proof. by destruct d1, d2. Qed.

Lemma restrictiveness_rank_as_str d : restrictiveness_rank (Disposition.as_str d) = ROk (rank d).
Proof. by destruct d. Qed.

Lemma restrictiveness_rank_ok s r :
  restrictiveness_rank s = ROk r → ∃ d, s = Disposition.as_str d ∧ r = rank d.
Proof.
  unfold restrictiveness_rank. cbn [pick]. unfold contains.
  repeat (case_bool_decide as E; [apply list_elem_of_singleton in E as ->; intros [= <-]; clear|clear E]);
    [..|done].
  - by exists Disposition.Skip.
  - by exists Disposition.FlowOnly.
  - by exists Disposition.Watch.
  - by exists Disposition.Score.
Qed.

Definition known (s : string) : Prop := ∃ d, s = Disposition.as_str d.

Lemma restrictiveness_rank_err s e : restrictiveness_rank s = RErr e → ¬ known s.
Proof. intros H [d ->]. by rewrite restrictiveness_rank_as_str in H. Qed.

#[export] Hint Rewrite restrictiveness_rank_as_str : forge_text.

(** [x] is at least as authoritative as [y]: manual first, then the more
    restrictive. *)
Definition dominates (x y : bool * Disposition) : Prop :=
  (y.1 = true → x.1 = true) ∧ (y.1 = x.1 → rank x.2 <= rank y.2).

#[local] Ltac spec_refl :=
  match goal with H : ?x = ?x → _ |- _ => specialize (H eq_refl) end.

Lemma dominates_refl x : dominates x x.
Proof. split; [done|lia]. Qed.

Lemma dominates_trans x y z : dominates x y → dominates y z → dominates x z.
Proof.
  destruct x as [[] ?], y as [[] ?], z as [[] ?]; unfold dominates; simpl; intros [H1 H2] [H3 H4];
    split; intros; try done; repeat spec_refl; try done; lia.
Qed.

Lemma dominates_antisym x y : dominates x y → dominates y x → x = y.
Proof.
  destruct x as [m d], y as [m' d']; unfold dominates; simpl. intros [H1 H2] [H3 H4].
  assert (m = m') as <- by (destruct m, m'; naive_solver).
  by rewrite (rank_inj d d') by (specialize (H2 eq_refl); specialize (H4 eq_refl); lia).
Qed.

Definition ranked_of (x : bool * Disposition) : ranked := (x.1, rank x.2, Disposition.as_str x.2).
Definition row_of (x : bool * Disposition) : string * bool := (Disposition.as_str x.2, x.1).

Lemma prefer_ok best x :
  ∃ y, prefer (ranked_of <$> best) (row_of x) = ROk (Some (ranked_of y))
    ∧ (y = x ∨ best = Some y) ∧ dominates y x ∧ (∀ b, best = Some b → dominates y b).
Proof.
  destruct x as [m d]. unfold prefer, row_of. simpl. rewrite restrictiveness_rank_as_str.
  destruct best as [[m' d']|]; simpl.
  - destruct (m && negb m') eqn:E1; [|destruct (Bool.eqb m m' && (rank d <? rank d')) eqn:E2].
    + exists (m, d). split_and!; [done|by left|apply dominates_refl|].
      intros b [= <-]. by destruct m, m'.
    + exists (m, d). split_and!; [done|by left|apply dominates_refl|].
      intros b [= <-]. apply andb_prop in E2 as [->%eqb_prop ?]. split; simpl; [done|lia].
    + exists (m', d'). split_and!; [done|by right| |].
      * destruct m, m'; try done; split; simpl in *; try done; lia.
      * intros b [= <-]. apply dominates_refl.
  - exists (m, d). split_and!; [done|by left|apply dominates_refl|done].
Qed.

Lemma prefer_all best l :
  ∃ b, fold_result prefer (ranked_of <$> best) (row_of <$> l) = ROk (ranked_of <$> b)
    ∧ (b = None ↔ best = None ∧ l = [])
    ∧ (∀ y, b = Some y → (best = Some y ∨ y ∈ l)
        ∧ (∀ z, best = Some z ∨ z ∈ l → dominates y z)).
Proof.
  revert best. induction l as [|x l IH]; intros best; [|rewrite fmap_cons; cbn [fold_result]].
  { exists best. split_and!; [done|naive_solver|]. intros y ->. split; [by left|].
    intros z [[= <-]|Hz%elem_of_nil]; [apply dominates_refl|done]. }
  destruct (prefer_ok best x) as (y & -> & Hy & Hx & Hb).
  destruct (IH (Some y)) as (b & Hf & Hn & Hs). exists b. split_and!; [done|naive_solver|].
  intros z Hz. destruct (Hs z Hz) as [Hin Hdom]. split.
  - destruct Hin as [[= ->]|Hin]; [|right; by right].
    destruct Hy as [->|?]; [right; by left|by left].
  - assert (dominates z y) as Hzy by (apply Hdom; by left).
    intros w [Hw|[->|Hw]%elem_of_cons].
    + eapply dominates_trans; [done|by apply Hb].
    + by eapply dominates_trans.
    + apply Hdom. by right.
Qed.

(** The rows of a table whose dispositions are all in the vocabulary. *)
Lemma known_rows (rows : list (string * bool)) :
  (∃ l, rows = row_of <$> l) ∨ ∃ row, row ∈ rows ∧ ¬ known row.1.
Proof.
  induction rows as [|[s m] rows [[l ->]|(row & Hin & Hrow)]]; [by left; exists []| |].
  - destruct (restrictiveness_rank s) as [r|e] eqn:E.
    + apply restrictiveness_rank_ok in E as (d & -> & _). left. by exists ((m, d) :: l).
    + right. exists (s, m). split; [by left|]. by eapply restrictiveness_rank_err.
  - right. exists row. split; [by right|done].
Qed.

Lemma prefer_err best rows row :
  row ∈ rows → ¬ known row.1 → ∃ e, fold_result prefer best rows = RErr e.
Proof.
  intros Hin Hk. revert best. induction rows as [|x rows IH]; intros best; [by apply not_elem_of_nil in Hin|].
  simpl. destruct (prefer best x) as [b|e] eqn:E; [|by eexists].
  apply elem_of_cons in Hin as [->|Hin]; [|by apply IH].
  exfalso. apply Hk. unfold prefer in E. destruct x as [s m]. simpl.
  destruct (restrictiveness_rank s) as [r|] eqn:Er; [|done].
  apply restrictiveness_rank_ok in Er as (d & -> & _). by exists d.
Qed.

Lemma strongest_known l :
  ∃ b, strongest (row_of <$> l) = ROk ((λ x, Disposition.as_str x.2) <$> b)
    ∧ (b = None ↔ l = [])
    ∧ (∀ y, b = Some y → y ∈ l ∧ ∀ z, z ∈ l → dominates y z).
Proof.
  destruct (prefer_all None l) as (b & Hf & Hn & Hs). exists b. unfold strongest.
  simpl in Hf. rewrite Hf. split_and!; [by destruct b|naive_solver|].
  intros y Hy. destruct (Hs y Hy) as [[?|?] Hd]; [done|]. split; [done|]. intros z Hz.
  apply Hd. by right.
Qed.

Lemma strongest_err rows row : row ∈ rows → ¬ known row.1 → ∃ e, strongest rows = RErr e.
Proof.
  intros Hin Hk. unfold strongest. destruct (prefer_err None rows row Hin Hk) as [e ->].
  by exists e.
Qed.

(** The result of a read is determined by the set of rows, not their order. *)
Lemma strongest_dominant l y :
  y ∈ l → (∀ z, z ∈ l → dominates y z) →
  strongest (row_of <$> l) = ROk (Some (Disposition.as_str y.2)).
Proof.
  intros Hy Hd. destruct (strongest_known l) as (b & -> & Hn & Hs).
  destruct b as [x|]; simpl; [|rewrite (proj1 Hn eq_refl) in Hy; by apply not_elem_of_nil in Hy].
  destruct (Hs x eq_refl) as [Hx Hx']. by rewrite (dominates_antisym x y) by auto.
Qed.

(** ** Which disposition is authoritative *)

Section authority.
Context (P : WalletLabel → bool).

Definition selected (db : label_db) : list WalletLabel :=
  List.filter (P) (labels db).

(** The read of the rows that satisfy [P]. *)
Definition read (db : label_db) : result (option string) := strongest (label_row <$> selected db).

Lemma elem_of_selected db l :
  l ∈ selected db ↔ l ∈ labels db ∧ P l = true.
Proof. unfold selected. by rewrite !list_elem_of_In, filter_In. Qed.

Definition label_of (l : WalletLabel) (x : bool * Disposition) : Prop :=
  WalletLabel.manual l = x.1 ∧ WalletLabel.disposition l = Disposition.as_str x.2.

Lemma label_row_of l x : label_row l = row_of x ↔ label_of l x.
Proof. destruct x. unfold label_row, row_of, label_of. simpl. split; [by intros [= -> ->]|by intros [-> ->]]. Qed.

(** The most authoritative row decides. *)
Lemma read_dominant db l x :
  l ∈ selected db → label_of l x →
  (∀ l', l' ∈ selected db → ∃ x', label_of l' x' ∧ dominates x x') →
  read db = ROk (Some (Disposition.as_str x.2)).
Proof.
  intros Hl Hx Hd. unfold read.
  destruct (known_rows (label_row <$> selected db)) as [[xs Hxs]|(row & Hin & Hk)].
  - rewrite Hxs. apply strongest_dominant.
    + apply (list_elem_of_fmap_2 label_row) in Hl. rewrite Hxs in Hl.
      apply list_elem_of_fmap in Hl as (y & Hy & Hin).
      destruct Hx as [H1 H2]. destruct x as [m d], y as [m' d'].
      unfold label_row, row_of in Hy. simpl in *. rewrite H1, H2 in Hy. injection Hy as E ->.
      assert (d = d') as ->; [|done]. apply rank_inj.
      apply (f_equal restrictiveness_rank) in E. rewrite !restrictiveness_rank_as_str in E.
      by injection E.
    + intros z Hz. apply (list_elem_of_fmap_2 row_of) in Hz. rewrite <-Hxs in Hz.
      apply list_elem_of_fmap in Hz as (l' & Hy & Hin). symmetry in Hy. apply label_row_of in Hy.
      destruct (Hd l' Hin) as (x' & Hx' & Hdom).
      destruct Hy as [A1 A2], Hx' as [B1 B2], z as [m d], x' as [m' d']. simpl in *.
      rewrite A1 in B1. rewrite A2 in B2. subst.
      apply (f_equal restrictiveness_rank) in B2. rewrite !restrictiveness_rank_as_str in B2.
      injection B2 as E%rank_inj. by subst.
  - exfalso. apply list_elem_of_fmap in Hin as (l' & -> & Hin).
    destruct (Hd l' Hin) as (x' & [_ H] & _). apply Hk. by exists x'.2.
Qed.

(** What a read returns. *)
Lemma read_spec db :
  match read db with
  | RErr _ => ∃ l, l ∈ selected db ∧ ¬ known (WalletLabel.disposition l)
  | ROk None => selected db = []
  | ROk (Some value) =>
      ∃ l x, l ∈ selected db ∧ label_of l x ∧ value = Disposition.as_str x.2
        ∧ ∀ l', l' ∈ selected db → ∃ x', label_of l' x' ∧ dominates x x'
  end.
Proof.
  unfold read. destruct (known_rows (label_row <$> selected db)) as [[xs Hxs]|(row & Hin & Hk)].
  - rewrite Hxs. destruct (strongest_known xs) as (b & -> & Hn & Hs). destruct b as [y|]; simpl.
    + destruct (Hs y eq_refl) as [Hy Hd].
      apply (list_elem_of_fmap_2 row_of) in Hy. rewrite <-Hxs in Hy.
      apply list_elem_of_fmap in Hy as (l & E & Hl). symmetry in E. apply label_row_of in E.
      exists l, y. split_and!; [done..|]. intros l' Hl'.
      assert (label_row l' ∈ row_of <$> xs) as Hin.
      { rewrite <-Hxs. by apply list_elem_of_fmap_2. }
      apply list_elem_of_fmap in Hin as (z & E' & Hz). apply label_row_of in E'.
      exists z. split; [done|by apply Hd].
    + rewrite (proj1 Hn eq_refl) in Hxs. by apply fmap_nil_inv in Hxs.
  - destruct (strongest_err _ _ Hin Hk) as [e ->].
    apply list_elem_of_fmap in Hin as (l & -> & Hl). by exists l.
Qed.
End authority.

Lemma active_read db now ws chain address :
  active_disposition db now ws chain address = read (label_active now ws chain address) db.
Proof. done. Qed.

Lemma manual_read db now ws chain address :
  manual_disposition db now ws chain address
  = read (λ l, label_active now ws chain address l && WalletLabel.manual l) db.
Proof. done. Qed.

(** A disposition that is read is a known one. *)
Lemma active_disposition_known db now ws chain address value :
  active_disposition db now ws chain address = ROk (Some value) → ∃ d, value = Disposition.as_str d.
Proof.
  rewrite active_read. pose proof (read_spec (label_active now ws chain address) db) as H.
  intros E. rewrite E in H. destruct H as (l & [m d] & _ & _ & -> & _). by exists d.
Qed.

(** Claim C25: The authoritative disposition. *)
Theorem disposition_authority db now ws chain address :
  match active_disposition db now ws chain address with
  | RErr _ =>
      ∃ l, l ∈ labels db ∧ label_active now ws chain address l = true
        ∧ ∀ d, WalletLabel.disposition l ≠ Disposition.as_str d
  | ROk None => ∀ l, l ∈ labels db → label_active now ws chain address l = false
  | ROk (Some value) =>
      ∃ l d, l ∈ labels db ∧ label_active now ws chain address l = true
        ∧ WalletLabel.disposition l = value ∧ value = Disposition.as_str d
        ∧ ∀ l', l' ∈ labels db → label_active now ws chain address l' = true →
            ∃ d', WalletLabel.disposition l' = Disposition.as_str d'
              ∧ (WalletLabel.manual l' = true → WalletLabel.manual l = true)
              ∧ (WalletLabel.manual l' = WalletLabel.manual l → rank d <= rank d')
  end.
Proof.
  rewrite active_read. pose proof (read_spec (label_active now ws chain address) db) as H.
  destruct (read _ db) as [[value|]|e].
  - destruct H as (l & [m d] & [Hl Ha]%elem_of_selected & [E1 E2] & -> & Hd).
    exists l, d. split_and!; [done..|]. intros l' Hl' Ha'.
    destruct (Hd l') as ([m' d'] & [F1 F2] & G1 & G2); [by apply elem_of_selected|].
    exists d'. by rewrite E1, F1.
  - intros l Hl. destruct (label_active now ws chain address l) eqn:E; [|done].
    assert (l ∈ selected (label_active now ws chain address) db) as Hin by by apply elem_of_selected.
    rewrite H in Hin. by apply not_elem_of_nil in Hin.
  - destruct H as (l & [Hl Ha]%elem_of_selected & Hk). exists l. split_and!; [done..|].
    intros d E. apply Hk. by exists d.
Qed.

(** ** Operations on the label history *)

Inductive label_op :=
  | OpSeen (chain address : string) (seen_at : Z) (source : string)
  | OpAdd (ws : Z) (chain address kind disposition reason source : string) (confidence : Z)
      (manual : bool) (expires_at : option Z)
  | OpImport (ws : Z) (chain : string) (addresses : list (Z * string)) (reason : string)
  | OpRevoke (ws : Z) (chain address : string) (kind : option string) (at_ : Z)
  | OpAutomatic (at_ ws : Z) (chain : ChainKind) (address : string) (c : BotClassification).

Section operations.
Context (accepts : WalletLabel → bool).

Definition run_label_op (db : label_db) (o : label_op) : label_db :=
  match o with
  | OpSeen chain address seen_at source => upsert_wallet db chain address seen_at source
  | OpAdd ws chain address kind disposition reason source confidence manual expires_at =>
      match add_wallet_label accepts db ws chain address kind disposition reason source confidence
              manual expires_at with
      | ROk db' => db'
      | RErr _ => db
      end
  | OpImport ws chain addresses reason => (import_blocklist_tx accepts db ws chain addresses reason).1
  | OpRevoke ws chain address kind at_ => (revoke_wallet_label db ws chain address kind at_).1
  | OpAutomatic at_ ws chain address c => (apply_automatic_disposition accepts db at_ ws chain address c).1
  end.

Definition op_workspace (o : label_op) : option Z :=
  match o with
  | OpSeen _ _ _ _ => None
  | OpAdd ws _ _ _ _ _ _ _ _ _ | OpImport ws _ _ _ | OpRevoke ws _ _ _ _
  | OpAutomatic _ ws _ _ _ => Some ws
  end.

(** *** What each write does to the rows *)

Lemma insert_label_ok db l db' :
  insert_label accepts db l = ROk db' → wallets db' = wallets db ∧ labels db' = labels db ++ [l].
Proof. unfold insert_label. case_match; [|done]. by intros [= <-]. Qed.

(** The rows an import appends. *)
Definition block_row (ws : Z) (chain reason address : string) : WalletLabel :=
  WalletLabel.mk ws chain address "manual_block" "skip" reason "manual" 100 true None None.

Definition blocked_address (item : Z * string) : option string :=
  let address := trim item.2 in
  if bool_decide (address = "") || starts_with "#" address then None else Some address.

Lemma import_address_ok ws chain reason db n item db' n' :
  import_address accepts ws chain reason (db, n) item = ROk (db', n') →
  let new := omap blocked_address [item] in
  labels db' = labels db ++ (block_row ws chain reason <$> new) ∧ n' = n + Z.of_nat (length new).
Proof.
  destruct item as [clock line]. unfold import_address. simpl. unfold blocked_address. simpl.
  destruct (bool_decide (trim line = "") || starts_with "#" (trim line)); simpl.
  { intros [= <- <-]. by rewrite app_nil_r, Z.add_0_r. }
  match goal with |- context [insert_label _ ?d ?r] => destruct (insert_label accepts d r) as [db1|] eqn:E end;
    [|done].
  intros [= <- <-]. by apply insert_label_ok in E as [_ ->].
Qed.

Lemma import_ok ws chain reason items db n db' n' :
  fold_result (import_address accepts ws chain reason) (db, n) items = ROk (db', n') →
  let new := omap blocked_address items in
  labels db' = labels db ++ (block_row ws chain reason <$> new) ∧ n' = n + Z.of_nat (length new).
Proof.
  revert db n. induction items as [|item items IH]; intros db n.
  { simpl. intros [= <- <-]. by rewrite app_nil_r, Z.add_0_r. }
  cbn [fold_result].
  destruct (import_address accepts ws chain reason (db, n) item) as [[db1 n1]|] eqn:E; [|done].
  intros Hf. apply import_address_ok in E as [E1 E2]. apply IH in Hf as [F1 F2].
  change (item :: items) with ([item] ++ items). cbv zeta in *.
  rewrite omap_app, fmap_app, length_app, F1, F2, E1, E2, app_assoc. split; [done|lia].
Qed.

Lemma automatic_appends db at_ ws chain address c :
  ∃ new, labels (apply_automatic_disposition accepts db at_ ws chain address c).1 = labels db ++ new
    ∧ Forall (λ l, WalletLabel.workspace_id l = ws ∧ WalletLabel.chain l = ChainKind.as_str chain
        ∧ WalletLabel.address l = address ∧ WalletLabel.manual l = false
        ∧ WalletLabel.disposition l = "skip") new.
Proof.
  assert (∃ new : list WalletLabel, labels db = labels db ++ new ∧
    Forall (λ l, WalletLabel.workspace_id l = ws ∧ WalletLabel.chain l = ChainKind.as_str chain
        ∧ WalletLabel.address l = address ∧ WalletLabel.manual l = false
        ∧ WalletLabel.disposition l = "skip") new) as Hnone.
  { exists []. split; [by rewrite app_nil_r|constructor]. }
  unfold apply_automatic_disposition, add_wallet_label.
  destruct (manual_disposition _ _ _ _ _) as [[v|]|e]; [destruct (Disposition.parse v); [done|]| |done];
    (destruct (auto_skip c); [cbn [negb]|done]; destruct (kind c); [|done]);
    (match goal with |- context [insert_label _ ?d ?r] => destruct (insert_label accepts d r) as [db1|] eqn:E end;
     [|done]); apply insert_label_ok in E as [_ E]; simpl; rewrite E; eexists; (split; [done|]);
    by repeat constructor.
Qed.

(** The rows of one workspace. *)
Definition rows_of (ws : Z) (db : label_db) : list WalletLabel :=
  List.filter (λ l, WalletLabel.workspace_id l =? ws) (labels db).

Lemma filter_fmap_same {A} (P : A → bool) (f : A → A) (l : list A) :
  (∀ x, x ∈ l → P x = true → f x = x) → (∀ x, P (f x) = P x) →
  List.filter P (f <$> l) = List.filter P l.
Proof.
  intros H1 H2. induction l as [|x l IH]; [done|].
  rewrite fmap_cons. cbn [List.filter]. rewrite H2.
  rewrite IH by (intros; apply H1; [by right|done]). destruct (P x) eqn:E; [|done].
  by rewrite (H1 x) by (by left || done).
Qed.

Lemma rows_of_app ws db new wl :
  (∀ l, l ∈ new → WalletLabel.workspace_id l ≠ ws) →
  rows_of ws (MkLabels wl (labels db ++ new)) = rows_of ws db.
Proof.
  intros H. unfold rows_of. simpl. rewrite List.filter_app.
  rewrite (filter_none _ new), app_nil_r; [done|].
  intros l Hl. apply Z.eqb_neq. by apply H.
Qed.

Lemma rows_of_labels ws db db' : labels db = labels db' → rows_of ws db = rows_of ws db'.
Proof. unfold rows_of. by intros ->. Qed.

Lemma foreign_op_rows ws db o :
  op_workspace o ≠ Some ws → rows_of ws (run_label_op db o) = rows_of ws db.
Proof.
  intros Hne.
  assert (∀ new db', labels db' = labels db ++ new →
    (∀ l, l ∈ new → WalletLabel.workspace_id l ≠ ws) → rows_of ws db' = rows_of ws db) as Happ.
  { intros new db' E Hn. rewrite <-(rows_of_app ws db new (wallets db) Hn).
    by apply rows_of_labels. }
  destruct o as [| | |w c a k at_|at_ w c a cl]; simpl in *.
  - done.
  - unfold add_wallet_label. destruct (insert_label _ _ _) eqn:E; [|done].
    apply insert_label_ok in E as [_ E]. eapply Happ; [done|].
    intros l ->%list_elem_of_singleton. simpl. congruence.
  - unfold import_blocklist_tx.
    destruct (fold_result _ _ _) as [[db' n]|] eqn:E; [|done]. apply import_ok in E as [E _].
    eapply Happ; [done|]. intros l (a & -> & _)%list_elem_of_fmap. simpl. congruence.
  - unfold rows_of. simpl. apply filter_fmap_same.
    + intros x _ Hx%Z.eqb_eq. unfold revocable. case_match eqn:E; [|done].
      bool_prop. apply Z.eqb_eq in H. congruence.
    + intros x. by case_match.
  - destruct (automatic_appends db at_ w c a cl) as (new & E & Hnew). eapply Happ; [done|].
    intros l Hl. rewrite Forall_forall in Hnew. destruct (Hnew l Hl) as [-> _]. congruence.
Qed.

Lemma selected_rows_of P ws db db' :
  (∀ l, P l = true → WalletLabel.workspace_id l = ws) → rows_of ws db = rows_of ws db' →
  selected P db = selected P db'.
Proof.
  intros HP E.
  assert (∀ d, selected P d = List.filter P (rows_of ws d)) as H; [|by rewrite !H, E].
  intros d. unfold selected, rows_of. induction (labels d) as [|l ls IH]; simpl; [done|].
  destruct (P l) eqn:El; destruct (Z.eqb_spec (WalletLabel.workspace_id l) ws); simpl;
    rewrite ?El, IH; try done. exfalso. auto.
Qed.

Lemma label_active_ws now ws chain address l :
  label_active now ws chain address l = true → WalletLabel.workspace_id l = ws.
Proof. unfold label_active. intros H. bool_prop. lia. Qed.

(** What other workspaces do is invisible. *)
Theorem label_tenant_isolation ws db ops (Hops : Forall (λ o, op_workspace o ≠ Some ws) ops) :
  let db' := fold_left run_label_op ops db in
  ∀ now chain address,
    active_disposition db' now ws chain address = active_disposition db now ws chain address
    ∧ manual_disposition db' now ws chain address = manual_disposition db now ws chain address.
Proof.
  cbv zeta. intros now chain address.
  assert (rows_of ws (fold_left run_label_op ops db) = rows_of ws db) as E.
  { revert db. induction Hops as [|o ops Ho Hops IH]; intros db; simpl; [done|].
    by rewrite IH, foreign_op_rows. }
  rewrite !active_read, !manual_read. unfold read.
  split; (erewrite selected_rows_of; [done| |exact E]); intros l H; bool_prop;
    by eapply label_active_ws.
Qed.

(** *** Manual labels against the classifier *)

Definition automatic (o : label_op) : Prop :=
  match o with OpAutomatic _ _ _ _ _ => True | _ => False end.

Lemma automatic_ops_append db ops :
  Forall automatic ops →
  ∃ new, labels (fold_left run_label_op ops db) = labels db ++ new
    ∧ Forall (λ l, WalletLabel.manual l = false ∧ WalletLabel.disposition l = "skip") new.
Proof.
  intros H. revert db. induction H as [|o ops Ho Hops IH]; intros db; simpl.
  { exists []. by rewrite app_nil_r. }
  destruct o as [| | | |at_ w c a cl]; try done. simpl.
  destruct (automatic_appends db at_ w c a cl) as (n1 & E1 & F1).
  destruct (IH (apply_automatic_disposition accepts db at_ w c a cl).1) as (n2 & E2 & F2).
  exists (n1 ++ n2). rewrite E2, E1, app_assoc. split; [done|]. apply Forall_app. split; [|done].
  eapply Forall_impl; [exact F1|]. naive_solver.
Qed.

Lemma selected_app P db db' new :
  labels db' = labels db ++ new → selected P db' = selected P db ++ List.filter P new.
Proof. intros E. unfold selected. by rewrite E, List.filter_app. Qed.

(** A manual label decides, whatever the classifier does. *)
Theorem manual_label_prevails db now ws chain address value ops
    (Hmanual : manual_disposition db now ws (ChainKind.as_str chain) address = ROk (Some value))
    (Hknown : ∃ v, active_disposition db now ws (ChainKind.as_str chain) address = ROk v)
    (Hops : Forall automatic ops) :
  let db' := fold_left run_label_op ops db in
  active_disposition db' now ws (ChainKind.as_str chain) address = ROk (Some value)
  ∧ ∀ c, ∃ d, value = Disposition.as_str d
      ∧ apply_automatic_disposition accepts db' now ws chain address c = (db', ROk d).
Proof.
  cbv zeta. set (ch := ChainKind.as_str chain) in *.
  destruct (automatic_ops_append db ops Hops) as (new & Enew & Fnew).
  set (db' := fold_left run_label_op ops db) in *.
  assert (manual_disposition db' now ws ch address = ROk (Some value)) as Hm'.
  { rewrite <-Hmanual, !manual_read. unfold read. rewrite (selected_app _ _ _ _ Enew).
    rewrite (filter_none _ new), app_nil_r; [done|]. intros l Hl. rewrite Forall_forall in Fnew.
    destruct (Fnew l Hl) as [-> _]. apply andb_false_r. }
  pose proof (read_spec (λ l, label_active now ws ch address l && WalletLabel.manual l) db) as Hsp.
  rewrite <-manual_read, Hmanual in Hsp.
  destruct Hsp as (l & x & [Hl [Ha Hlm]%andb_prop]%elem_of_selected & Hx & -> & Hd).
  split.
  - rewrite active_read. apply (read_dominant _ _ l); [|done|].
    { apply elem_of_selected. split; [|done]. rewrite Enew. apply elem_of_app. by left. }
    intros l' [Hl' Ha']%elem_of_selected. rewrite Enew in Hl'.
    assert (known (WalletLabel.disposition l')) as [d' Hd'].
    { apply elem_of_app in Hl' as [Hl'|Hl'].
      - destruct Hknown as [v Hv]. rewrite active_read in Hv.
        pose proof (read_spec (label_active now ws ch address) db) as H. rewrite Hv in H.
        assert (l' ∈ selected (label_active now ws ch address) db) as Hin by by apply elem_of_selected.
        destruct v as [v|]; [|rewrite H in Hin; by apply not_elem_of_nil in Hin].
        destruct H as (? & ? & _ & _ & _ & H). destruct (H l' Hin) as (x' & [_ ?] & _).
        by exists x'.2.
      - rewrite Forall_forall in Fnew. destruct (Fnew l' Hl') as [_ ->]. by exists Disposition.Skip. }
    exists (WalletLabel.manual l', d'). split; [done|]. destruct Hx as [Hx1 Hx2].
    destruct (WalletLabel.manual l') eqn:Em; [|split; simpl; [done|congruence]].
    apply elem_of_app in Hl' as [Hl'|Hl'].
    + destruct (Hd l') as (x' & [F1 F2] & Hdom).
      { apply elem_of_selected. by rewrite Ha', Em. }
      assert (x' = (true, d')) as ->; [|done]. destruct x' as [m'' d'']; simpl in *.
      rewrite Em in F1. rewrite Hd' in F2. subst. f_equal. apply rank_inj.
      apply (f_equal restrictiveness_rank) in F2. rewrite !restrictiveness_rank_as_str in F2.
      by injection F2.
    + rewrite Forall_forall in Fnew. destruct (Fnew l' Hl') as [? _]. congruence.
  - intros c. exists x.2. split; [done|]. unfold apply_automatic_disposition. fold ch. rewrite Hm'.
    by rewrite disposition_round_trip.
Qed.

(** *** The block list *)

Lemma manual_skip_decides P db l :
  l ∈ selected P db → WalletLabel.manual l = true → WalletLabel.disposition l = "skip" →
  (∀ l', l' ∈ selected P db → known (WalletLabel.disposition l')) →
  read P db = ROk (Some "skip").
Proof.
  intros Hl Hm Hd Hk. apply (read_dominant P db l (true, Disposition.Skip)); [done|done|].
  intros l' Hl'. destruct (Hk l' Hl') as [d' Hd']. exists (WalletLabel.manual l', d').
  split; [done|]. split; simpl; [done|]. intros _. by destruct d'.
Qed.

(** The import is all or nothing, and what it lands blocks. *)
Theorem blocklist_import_blocks db ws chain items reason :
  let ch := ChainKind.as_str chain in
  match import_blocklist_tx accepts db ws ch items reason with
  | (db', RErr _) => db' = db
  | (db', ROk n) =>
      let addresses := omap blocked_address items in
      n = Z.of_nat (length addresses)
      ∧ labels db' = labels db ++ (block_row ws ch reason <$> addresses)
      ∧ ∀ address now, address ∈ addresses →
          (∀ l, l ∈ labels db → label_active now ws ch address l = true →
             known (WalletLabel.disposition l)) →
          effective_disposition db' now ws chain address = ROk Disposition.Skip
  end.
Proof.
  cbv zeta. set (ch := ChainKind.as_str chain). unfold import_blocklist_tx.
  destruct (fold_result _ _ _) as [[db' n]|e] eqn:E; [|done].
  apply import_ok in E as [E ->]. cbv zeta in E. split_and!; [done|done|].
  intros address now Hin Hk. unfold effective_disposition. fold ch. rewrite active_read.
  rewrite (manual_skip_decides _ db' (block_row ws ch reason address)); [done| |done|done|].
  - apply elem_of_selected. rewrite E. split.
    + apply elem_of_app. right. by apply list_elem_of_fmap_2.
    + unfold label_active. simpl. rewrite Z.eqb_refl. by rewrite !bool_decide_eq_true_2 by done.
  - intros l [Hl Ha]%elem_of_selected. rewrite E in Hl.
    apply elem_of_app in Hl as [Hl|(a & -> & _)%list_elem_of_fmap]; [by apply Hk|].
    by exists Disposition.Skip.
Qed.

(** *** Revocation and history *)

(** A row is kept as it is or revoked once. *)
Definition kept (old new : WalletLabel) : Prop :=
  new = old ∨ ∃ t, WalletLabel.revoked_at old = None ∧ new = revoke_row t old.

Lemma Forall2_kept_refl ls : Forall2 kept ls ls.
Proof. induction ls; constructor; [by left|done]. Qed.

(** The label table is an append-only history. *)
Theorem label_history_append_only db o :
  ∃ kept_rows new, labels (run_label_op db o) = kept_rows ++ new
    ∧ Forall2 kept (labels db) kept_rows
    ∧ Forall (λ l, WalletLabel.revoked_at l = None) new.
Proof.
  assert (∀ new, Forall (λ l, WalletLabel.revoked_at l = None) new →
    ∃ k n, labels db ++ new = k ++ n ∧ Forall2 kept (labels db) k
      ∧ Forall (λ l, WalletLabel.revoked_at l = None) n) as Happ.
  { intros new Hn. exists (labels db), new. split_and!; [done|apply Forall2_kept_refl|done]. }
  pose proof (Happ [] (Forall_nil_2 _)) as Hid. rewrite app_nil_r in Hid.
  destruct o as [| |w c items why|w c a k t|at_ w c a cl]; simpl; [done|..].
  - unfold add_wallet_label. destruct (insert_label _ _ _) eqn:E; [|done].
    apply insert_label_ok in E as [_ ->]. apply Happ. by repeat constructor.
  - unfold import_blocklist_tx. destruct (fold_result _ _ _) as [[db' n]|] eqn:E; [|done].
    apply import_ok in E as [E _]. cbv zeta in E. simpl. rewrite E. apply Happ.
    apply Forall_fmap, Forall_true. done.
  - exists ((λ l, if revocable w c a k l then revoke_row t l else l) <$> labels db), [].
    rewrite app_nil_r. split_and!; [done| |constructor].
    clear Happ Hid. induction (labels db) as [|l ls IH]; rewrite ?fmap_cons; constructor; [|done].
    destruct (revocable w c a k l) eqn:E; [|by left]. right. exists t.
    unfold revocable in E. by bool_prop.
  - assert (∀ k why, Forall (λ l, WalletLabel.revoked_at l = None)
      [WalletLabel.mk w (ChainKind.as_str c) a k "skip" why "auto"
         (f64_as_i32 (f64_mul (likelihood cl) (f64_of_Z 100))) false None None]) as Hrow
      by by repeat constructor.
    unfold apply_automatic_disposition, add_wallet_label.
    destruct (manual_disposition _ _ _ _ _) as [[v|]|e];
      [destruct (Disposition.parse v); [done|]| |done];
      (destruct (auto_skip cl); [cbn [negb]|done]; destruct (kind cl); [|done]);
      (match goal with |- context [insert_label _ ?d ?r] => destruct (insert_label accepts d r) as [db1|] eqn:E end;
       [|done]); apply insert_label_ok in E as [_ E]; simpl; rewrite E; by apply Happ.
Qed.

(** Revoking everything clears the policy, once. *)
Theorem revoke_clears_policy db ws chain address at_ :
  let '(db', n) := revoke_wallet_label db ws chain address None at_ in
  (∀ now, active_disposition db' now ws chain address = ROk None)
  ∧ (n = 0%nat → db' = db)
  ∧ (revoke_wallet_label db' ws chain address None at_).2 = 0%nat.
Proof.
  unfold revoke_wallet_label. set (hit := revocable ws chain address None).
  assert (∀ l, hit (if hit l then revoke_row at_ l else l) = false) as Hhit.
  { intros l. destruct (hit l) eqn:E; [|done]. unfold hit, revocable. simpl. by rewrite !andb_false_r. }
  assert (∀ l now, label_active now ws chain address l = true → hit l = true) as Hact.
  { intros l now Ha. unfold label_active in Ha. unfold hit, revocable. bool_prop.
    rewrite H. rewrite !bool_decide_eq_true_2 by done. done. }
  split_and!.
  - intros now. rewrite active_read. unfold read, selected. simpl.
    rewrite filter_none; [done|]. intros l (l0 & -> & _)%list_elem_of_fmap.
    destruct (label_active _ _ _ _ _) eqn:E; [|done]. apply Hact in E. by rewrite Hhit in E.
  - intros Hn. destruct db as [wl ls]. simpl in *. f_equal.
    assert (∀ l, l ∈ ls → hit l = false) as Hnone.
    { intros l Hl. destruct (hit l) eqn:E; [|done]. exfalso.
      assert (l ∈ List.filter hit ls) as Hin by by rewrite list_elem_of_In, filter_In, <-list_elem_of_In.
      apply length_zero_iff_nil in Hn. rewrite Hn in Hin. by apply not_elem_of_nil in Hin. }
    clear Hn. induction ls as [|l ls IH]; [done|]. rewrite fmap_cons, Hnone by left.
    f_equal. apply IH. intros; apply Hnone; by right.
  - simpl. rewrite filter_none; [done|]. intros l (l0 & -> & _)%list_elem_of_fmap. apply Hhit.
Qed.
End operations.

(** ** Instances *)

Definition any_label (_ : WalletLabel) : bool := true.

(** A wallet with a manual [watch] and an automatic [flow_only] label. *)
Definition sample_labels : label_db :=
  MkLabels {[("solana", "A") := Wallet.mk 0 0 "t"]}
    [WalletLabel.mk 7 "solana" "A" "manual_policy" "watch" "" "manual" 100 true None None;
     WalletLabel.mk 7 "solana" "A" "exchange" "flow_only" "" "auto" 80 false None None].

Definition sample_bot : BotClassification := classify_bot [WalletLabelKind.MevBot] (f64_lit 95 100) 150.

Example sample_effective :
  effective_disposition sample_labels 5 7 ChainKind.Solana "A" = ROk Disposition.Watch.
Proof. reflexivity. Qed.

Example sample_auto_skip : auto_skip sample_bot = true. Proof. vm_compute. reflexivity. Qed.

Lemma label_tenant_isolation_witness :
  active_disposition
    (fold_left (run_label_op any_label)
       [OpImport 8 "solana" [(5, "A"); (5, " # note")] "spam"; OpAutomatic 5 8 ChainKind.Solana "A" sample_bot]
       sample_labels) 5 7 "solana" "A" = ROk (Some "watch").
Proof.
  eapply eq_trans.
  - apply (label_tenant_isolation any_label 7). repeat constructor; discriminate.
  - reflexivity.
Defined.

Lemma manual_label_prevails_witness :
  active_disposition
    (fold_left (run_label_op any_label) [OpAutomatic 5 7 ChainKind.Solana "A" sample_bot] sample_labels)
    5 7 "solana" "A" = ROk (Some "watch").
Proof.
  apply (manual_label_prevails any_label sample_labels 5 7 ChainKind.Solana "A" "watch").
  - reflexivity.
  - by exists (Some "watch").
  - by repeat constructor.
Defined.

Example import_blocks :
  match import_blocklist_tx any_label sample_labels 7 "solana" [(5, "A"); (5, ""); (6, "B")] "spam" with
  | (db, r) => r = ROk 2
      ∧ effective_disposition db 9 7 ChainKind.Solana "A" = ROk Disposition.Skip
      ∧ effective_disposition db 9 8 ChainKind.Solana "A" = ROk Disposition.Watch
  end.
Proof. vm_compute. done. Qed.
