(* ===== verification/Clusters.v ===== *)
(** * Soft wallet clusters (src/src/graph.rs, models.rs)

    The confidence of an edge between two wallets, the append-only edge
    table, the rebuild of a wallet's cluster in one transaction, and the
    lineage trace.  [dec] is [decimal_from_f64] followed by the column it is
    stored in: rust_decimal's parsing of the printed value.  Rows with one
    block time come in table order. *)
From S2P Require Import Prelude Text Domain Floats CostBasis Models Labels.
From Stdlib Require Import QArith.QArith_base QArith.Qreduction QArith.Qcanon.
From stdpp Require Import options.
Local Open Scope string_scope.
Local Open Scope Z_scope.
Local Open Scope list_scope.

(** ** Edge confidence *)

Definition WEIGHT_FUNDING : f64 := f64_lit 35 100.
Definition WEIGHT_TOKEN_ACCOUNT : f64 := f64_lit 25 100.
Definition WEIGHT_REPEATED_FUNDING : f64 := f64_lit 15 100.
Definition WEIGHT_CLOSE_TIME_ACTIVITY : f64 := f64_lit 15 100.
Definition WEIGHT_TRADE_STYLE : f64 := f64_lit 10 100.
Definition MEMBERSHIP_THRESHOLD : f64 := f64_lit 70 100.

Module EdgeComponents.
Record EdgeComponents := mk {
  funding : bool;
  token_account_creation : bool;
  repeated_funding : bool;
  close_time_same_token : bool;
  trade_style_match : bool;
}.

Definition confidence (c : EdgeComponents) : f64 :=
  let score := f64_of_Z 0 in
  let score := if funding c then f64_add score WEIGHT_FUNDING else score in
  let score := if token_account_creation c then f64_add score WEIGHT_TOKEN_ACCOUNT else score in
  let score := if repeated_funding c then f64_add score WEIGHT_REPEATED_FUNDING else score in
  let score := if close_time_same_token c then f64_add score WEIGHT_CLOSE_TIME_ACTIVITY else score in
  let score := if trade_style_match c then f64_add score WEIGHT_TRADE_STYLE else score in
  f64_min score (f64_of_Z 1).
End EdgeComponents.
Abbreviation EdgeComponents := EdgeComponents.EdgeComponents.

Definition score_edge_confidence (c : EdgeComponents) : f64 := EdgeComponents.confidence c.

(** ** The tables *)

Inductive edge_evidence :=
  | EvTransfer (components : EdgeComponents) (asset_kind mint : string)
  | EvJson (text : string).

Record FundingEdge (D : Type) := MkEdge {
  e_chain : string;
  from_address : string;
  to_address : string;
  e_signature : string;
  edge_kind : string;
  raw_amount : string;
  block_time : option Z;
  e_confidence : D;
  e_evidence : edge_evidence;
  promoted : bool;
}.
Arguments MkEdge {_}. Arguments e_chain {_}. Arguments from_address {_}. Arguments to_address {_}.
Arguments e_signature {_}. Arguments edge_kind {_}. Arguments raw_amount {_}.
Arguments block_time {_}. Arguments e_confidence {_}. Arguments e_evidence {_}.
Arguments promoted {_}.

Record Member (D : Type) := MkMember { m_confidence : D; revoked_at : option Z }.
Arguments MkMember {_}. Arguments m_confidence {_}. Arguments revoked_at {_}.

(** [wallet_cluster_members] by its unique (cluster, chain, address);
    [next_cluster] is the sequence of [wallet_clusters]. *)
Record cluster_db (D : Type) := MkClusters {
  edges : list (FundingEdge D);
  members : gmap (Z * string * string) (Member D);
  next_cluster : Z;
}.
Arguments MkClusters {_}. Arguments edges {_}. Arguments members {_}. Arguments next_cluster {_}.

Section clusters.
Context {D : Type} `{Decimal D} (dec : f64 → D).

(** ** Edges *)

Definition same_edge_key (a b : FundingEdge D) : bool :=
  bool_decide (e_chain a = e_chain b) && bool_decide (from_address a = from_address b)
  && bool_decide (to_address a = to_address b) && bool_decide (e_signature a = e_signature b)
  && bool_decide (edge_kind a = edge_kind b).

(** INSERT .. ON CONFLICT DO NOTHING. *)
Definition insert_edge (db : cluster_db D) (e : FundingEdge D) : cluster_db D :=
  if existsb (same_edge_key e) (edges db) then db
  else MkClusters (edges db ++ [e]) (members db) (next_cluster db).

Definition transfer_components : EdgeComponents := EdgeComponents.mk true false false false false.

Definition update_funding_edges (db : cluster_db D) (t : NormalizedTransfer D) : cluster_db D :=
  let confidence := score_edge_confidence transfer_components in
  let asset_kind := AssetKind.as_str (NormalizedTransfer.asset_kind t) in
  insert_edge db
    (MkEdge (ChainKind.as_str (NormalizedTransfer.chain t)) (NormalizedTransfer.from_address t)
       (NormalizedTransfer.to_address t) (NormalizedTransfer.signature t)
       (if decide (asset_kind = "native") then "funding" else "token_funding")
       (NormalizedTransfer.raw_amount t) (NormalizedTransfer.block_time t) (dec confidence)
       (EvTransfer transfer_components asset_kind (NormalizedTransfer.mint t))
       (f64_leb MEMBERSHIP_THRESHOLD confidence)).

(** [timestamp_nanos_opt] is [None] outside an [i64]. *)
Definition timestamp_nanos (clock : Z) : Z :=
  if (i64_min <=? clock) && (clock <=? i64_max) then clock else 0.

Definition record_edge_evidence (db : cluster_db D) (clock : Z) (chain : ChainKind)
    (from to : string) (components : EdgeComponents) (evidence : string) : cluster_db D :=
  let confidence := score_edge_confidence components in
  insert_edge db
    (MkEdge (ChainKind.as_str chain) from to ("evidence-" +:+ pretty (timestamp_nanos clock))
       "evidence" "0" None (dec confidence) (EvJson evidence)
       (f64_leb MEMBERSHIP_THRESHOLD confidence)).

(** ** Membership *)

Definition is_active (m : Member D) : bool := bool_decide (revoked_at m = None).

(** The active memberships of [chain] that satisfy [p], as (cluster, address). *)
Definition active_where (db : cluster_db D) (chain : string) (p : Z → string → bool)
    : list (Z * string) :=
  omap (λ '(((cluster, c, a), m) : Z * string * string * Member D),
          if bool_decide (c = chain) && is_active m && p cluster a then Some (cluster, a) else None)
    (map_to_list (members db)).

(** The partial unique index: one active membership per (chain, address). *)
Definition active_elsewhere (db : cluster_db D) (cluster : Z) (chain address : string) : bool :=
  negb (bool_decide
    (active_where db chain (λ c a, negb (c =? cluster) && bool_decide (a = address)) = [])).

Definition upsert_membership (db : cluster_db D) (cluster : Z) (chain address : string)
    : result (cluster_db D) :=
  if active_elsewhere db cluster chain address
  then RErr "wallet_cluster_members_one_active_idx"
  else
    ROk (MkClusters (edges db)
           (<[(cluster, chain, address) := MkMember (dec MEMBERSHIP_THRESHOLD) None]> (members db))
           (next_cluster db)).

Definition revoke_members (db : cluster_db D) (cluster : Z) (chain : string) (clock : Z)
    : cluster_db D :=
  MkClusters (edges db)
    (map_imap (λ '((k, c), _) m,
        Some (if (k =? cluster) && bool_decide (c = chain) && is_active m
              then MkMember (m_confidence m) (Some clock) else m)) (members db))
    (next_cluster db).

Definition upsert_all (cluster : Z) (chain : string) (db : cluster_db D) (addresses : list string)
    : result (cluster_db D) :=
  fold_result (λ db a, upsert_membership db cluster chain a) db addresses.

(** One superseded cluster: read, revoke, move. *)
Definition fold_superseded (cluster : Z) (chain : string) (clock : Z) (db : cluster_db D)
    (superseded : Z) : result (cluster_db D) :=
  let moved := snd <$> active_where db chain (λ c _, c =? superseded) in
  upsert_all cluster chain (revoke_members db superseded chain clock) moved.

Definition qualifying (db : cluster_db D) (chain address : string) : list (FundingEdge D) :=
  List.filter (λ e, bool_decide (e_chain e = chain)
      && (bool_decide (from_address e = address) || bool_decide (to_address e = address))
      && d_leb (dec MEMBERSHIP_THRESHOLD) (e_confidence e)) (edges db).

(** The [BTreeSet] of the wallet and the ends of its edges. *)
Definition component (address : string) (rows : list (FundingEdge D)) : list string :=
  canonical_set (address :: rows ≫= λ e, [from_address e; to_address e]).

(** SELECT DISTINCT cluster_id .. ORDER BY cluster_id. *)
Definition existing_clusters (db : cluster_db D) (chain : string) (component : list string)
    : list Z :=
  dedup (stable_sort Z.leb
    (fst <$> active_where db chain (λ _ a, contains a component))).

(** A failing statement rolls the transaction back, the sequence excepted. *)
Definition rebuild_cluster_for (db : cluster_db D) (clock : Z) (chain : ChainKind)
    (address : string) : cluster_db D * result (option Z) :=
  let chain := ChainKind.as_str chain in
  match qualifying db chain address with
  | [] => (db, ROk None)
  | rows =>
      let component := component address rows in
      let existing := existing_clusters db chain component in
      let '(db1, cluster) :=
        match existing with
        | id :: _ => (db, id)
        | [] => (MkClusters (edges db) (members db) (next_cluster db + 1), next_cluster db)
        end in
      match
        (let! db2 := fold_result (fold_superseded cluster chain clock) db1
                       (List.filter (λ id, negb (id =? cluster)) existing) in
         upsert_all cluster chain db2 component)
      with
      | ROk db3 => (db3, ROk (Some cluster))
      | RErr e => (MkClusters (edges db) (members db) (next_cluster db1), RErr e)
      end
  end.

(** ** Lineage *)

Record TraceStep := MkStep {
  step_address : string;
  direction : string;
  via_signature : string;
  step_time : option Z;
  endpoint : bool;
}.

(** ORDER BY block_time NULLS LAST. *)
Definition time_leb (a b : FundingEdge D) : bool :=
  match block_time a, block_time b with
  | _, None => true
  | None, Some _ => false
  | Some x, Some y => x <=? y
  end.

Definition edges_of (db : cluster_db D) (chain address : string) (limit : Z)
    : list (FundingEdge D) :=
  take (Z.to_nat limit) (stable_sort time_leb
    (List.filter (λ e, bool_decide (e_chain e = chain)
       && (bool_decide (from_address e = address) || bool_decide (to_address e = address)))
       (edges db))).

Definition trace_step (address : string) (endpoint : bool) (e : FundingEdge D) : TraceStep :=
  let out := bool_decide (from_address e = address) in
  MkStep (if out then to_address e else from_address e) (if out then "outgoing" else "incoming")
    (e_signature e) (block_time e) endpoint.

Definition trace_wallet (db : cluster_db D) (policy : label_db) (now ws : Z) (chain : ChainKind)
    (address : string) (max_depth : Z) : result (list TraceStep) :=
  let chain := ChainKind.as_str chain in
  let! d := active_disposition policy now ws chain address in
  let! is_flow_endpoint :=
    match d with Some d => disposition_stops_traversal d | None => ROk false end in
  if (is_flow_endpoint : bool)
  then ROk (trace_step address true <$> edges_of db chain address 50)
  else ROk (trace_step address false <$> edges_of db chain address (max_depth * 10)).

(** ** Wash candidates *)

(** A join over the transfers; the order of the rows, of which the first
    hundred are kept, is the tables'. *)
Definition day : Z := 86400 * 10 ^ 9.

Definition reversed_pair (chain : string) (now : Z) (a b : NormalizedTransfer D) : bool :=
  let ch t := ChainKind.as_str (NormalizedTransfer.chain t) in
  bool_decide (ch b = ch a)
  && bool_decide (NormalizedTransfer.from_address b = NormalizedTransfer.to_address a)
  && bool_decide (NormalizedTransfer.to_address b = NormalizedTransfer.from_address a)
  && bool_decide (NormalizedTransfer.asset_kind b = NormalizedTransfer.asset_kind a)
  && bool_decide (NormalizedTransfer.raw_amount b = NormalizedTransfer.raw_amount a)
  && match NormalizedTransfer.block_time a, NormalizedTransfer.block_time b with
     | Some ta, Some tb =>
         (ta <=? tb) && (tb <=? ta + day) && (now - day <=? ta) && (ta <=? now)
     | _, _ => false
     end
  && bool_decide (ch a = chain)
  && negb (bool_decide (NormalizedTransfer.signature a = NormalizedTransfer.signature b)).

Definition detect_wash_candidates (transfers : list (NormalizedTransfer D)) (chain : ChainKind)
    (now : Z) : list (string * string * string) :=
  take 100 (transfers ≫= λ a,
    omap (λ b, if reversed_pair (ChainKind.as_str chain) now a b
               then Some (NormalizedTransfer.from_address a, NormalizedTransfer.to_address a,
                          NormalizedTransfer.signature a +:+ "+" +:+ NormalizedTransfer.signature b)
               else None) transfers).
End clusters.

(** ** Promotion *)

(** The weights in hundredths. *)
Definition weight (c : EdgeComponents) : Z :=
  (if EdgeComponents.funding c then 35 else 0)
  + (if EdgeComponents.token_account_creation c then 25 else 0)
  + (if EdgeComponents.repeated_funding c then 15 else 0)
  + (if EdgeComponents.close_time_same_token c then 15 else 0)
  + (if EdgeComponents.trade_style_match c then 10 else 0).

(** The evidence that reaches the threshold. *)
Definition membership_grade (c : EdgeComponents) : bool :=
  let t := EdgeComponents.token_account_creation c in
  let r := EdgeComponents.repeated_funding c in
  let a := EdgeComponents.close_time_same_token c in
  let s := EdgeComponents.trade_style_match c in
  EdgeComponents.funding c && ((t && (r || a || s)) || (r && a && s)).

(** Floating-point rounding does not move the threshold. *)
Theorem edge_promotion_exact c :
  f64_leb MEMBERSHIP_THRESHOLD (EdgeComponents.confidence c) = (70 <=? weight c)
  ∧ (70 <=? weight c) = membership_grade c
  ∧ f64_leb (f64_of_Z 0) (EdgeComponents.confidence c) = true
  ∧ f64_leb (EdgeComponents.confidence c) (f64_of_Z 1) = true
  ∧ (f64_leb (f64_of_Z 1) (EdgeComponents.confidence c) = true ↔ weight c = 100).
Proof. destruct c as [[] [] [] [] []]; vm_compute; split_and!; done. Qed.

(** ** Membership *)

Section membership.
Context {D : Type} `{Decimal D} (dec : f64 → D).

Definition active (db : cluster_db D) (k : Z) (chain address : string) : Prop :=
  ∃ m, members db !! (k, chain, address) = Some m ∧ is_active m = true.

Lemma elem_of_active_where (db : cluster_db D) chain p k a :
  (k, a) ∈ active_where db chain p ↔ active db k chain a ∧ p k a = true.
Proof.
  unfold active_where, active. rewrite list_elem_of_omap. split.
  - intros ([[[k' c'] a'] m] & Hin & E). apply elem_of_map_to_list in Hin.
    case_match eqn:Ei; [|done]. injection E as -> ->. bool_prop. subst. split; [|done].
    by exists m.
  - intros [(m & Hm & Ha) Hp]. exists ((k, chain, a), m). split; [by apply elem_of_map_to_list|].
    by rewrite bool_decide_eq_true_2, Ha, Hp by done.
Qed.

Lemma active_elsewhere_false (db : cluster_db D) k chain a :
  active_elsewhere db k chain a = false ↔ ∀ k', active db k' chain a → k' = k.
Proof.
  unfold active_elsewhere. rewrite negb_false_iff, bool_decide_eq_true. split.
  - intros E k' Ha. destruct (decide (k' = k)) as [|Hne]; [done|]. exfalso.
    assert ((k', a) ∈ active_where db chain (λ c x, negb (c =? k) && bool_decide (x = a))) as Hin.
    { apply elem_of_active_where. split; [done|]. apply andb_true_intro. split.
      - apply negb_true_iff. by apply Z.eqb_neq.
      - by apply bool_decide_eq_true_2. }
    rewrite E in Hin. by apply not_elem_of_nil in Hin.
  - intros Hall. apply elem_of_nil_inv. intros [k' a'] [Ha Hp]%elem_of_active_where.
    bool_prop. subst. apply Hall in Ha as ->. by rewrite Z.eqb_refl in H0.
Qed.

(** One active membership per wallet; cluster ids come from the sequence. *)
Record clusters_wf (db : cluster_db D) : Prop := {
  one_active k1 k2 chain a : active db k1 chain a → active db k2 chain a → k1 = k2;
  ids_used k chain a m : members db !! (k, chain, a) = Some m → k < next_cluster db;
}.

(** What an operation leaves of the rest of the state. *)
Definition frame_ok (k : Z) (db db' : cluster_db D) : Prop :=
  edges db' = edges db ∧ next_cluster db' = next_cluster db
  ∧ (∀ key, is_Some (members db !! key) → is_Some (members db' !! key))
  ∧ ∀ key, is_Some (members db' !! key) → is_Some (members db !! key) ∨ key.1.1 = k.

Lemma frame_refl k db : frame_ok k db db.
Proof. unfold frame_ok. split_and!; auto. Qed.

Lemma frame_trans k db1 db2 db3 : frame_ok k db1 db2 → frame_ok k db2 db3 → frame_ok k db1 db3.
Proof.
  intros (A1 & A2 & A3 & A4) (B1 & B2 & B3 & B4). unfold frame_ok.
  split_and!; [congruence..|auto|]. intros key [?|?]%B4; [by apply A4|by right].
Qed.

Lemma upsert_membership_ok db k chain a :
  (∀ k', active db k' chain a → k' = k) →
  ∃ db', upsert_membership dec db k chain a = ROk db' ∧ frame_ok k db db'
    ∧ members db' = <[(k, chain, a) := MkMember (dec MEMBERSHIP_THRESHOLD) None]> (members db)
    ∧ ∀ k' c' a', active db' k' c' a' ↔ active db k' c' a' ∨ (k' = k ∧ c' = chain ∧ a' = a).
Proof.
  intros E%active_elsewhere_false. unfold upsert_membership. rewrite E. eexists. split; [done|].
  unfold frame_ok. split_and!; simpl; [done|done| | |done|].
  - intros key Hs. simpl. destruct (decide (key = (k, chain, a))) as [->|];
      [by rewrite lookup_insert_eq|by rewrite lookup_insert_ne].
  - intros key. simpl. destruct (decide (key = (k, chain, a))) as [->|]; [by right|].
    rewrite lookup_insert_ne by done. by left.
  - intros k' c' a'. unfold active. simpl.
    destruct (decide ((k', c', a') = (k, chain, a))) as [E'|Hne].
    + injection E' as -> -> ->. rewrite lookup_insert_eq. split; [by right|].
      intros _. by eexists.
    + rewrite lookup_insert_ne by done. split; [by left|].
      intros [?|(-> & -> & ->)]; [done|done].
Qed.

Lemma upsert_all_ok k chain l db :
  (∀ a k', a ∈ l → active db k' chain a → k' = k) →
  ∃ db', upsert_all dec k chain db l = ROk db' ∧ frame_ok k db db'
    ∧ (∀ a, a ∈ l → members db' !! (k, chain, a) = Some (MkMember (dec MEMBERSHIP_THRESHOLD) None))
    ∧ (∀ key, (∀ a, a ∈ l → key ≠ (k, chain, a)) → members db' !! key = members db !! key)
    ∧ ∀ k' c' a', active db' k' c' a' ↔ active db k' c' a' ∨ (k' = k ∧ c' = chain ∧ a' ∈ l).
Proof.
  revert db. induction l as [|a l IH]; intros db Hl; unfold upsert_all; cbn [fold_result].
  { exists db. split; [done|]. split; [apply frame_refl|].
    split_and!; [by intros ? ?%not_elem_of_nil|done|set_solver]. }
  destruct (upsert_membership_ok db k chain a) as (db1 & -> & F1 & E1 & A1).
  { intros; eapply Hl; [by left|done]. }
  destruct (IH db1) as (db' & E & F2 & M2 & N2 & A2).
  { intros a' k' Ha' [Hact|(-> & _ & _)]%A1; [|done]. eapply Hl; [by right|done]. }
  unfold upsert_all in E. rewrite E. exists db'. split; [done|]. split; [by eapply frame_trans|].
  split_and!.
  - intros a' [->|Ha']%elem_of_cons; [|by apply M2].
    destruct (decide (a ∈ l)) as [Ha|Ha]; [by apply M2|].
    rewrite N2 by (intros a' Ha' [= ->]; done). rewrite E1. apply lookup_insert_eq.
  - intros key Hkey. rewrite N2 by (intros; apply Hkey; by right).
    rewrite E1. apply lookup_insert_ne. symmetry. apply Hkey. by left.
  - intros k' c' a'. rewrite A2, A1. set_solver.
Qed.

Lemma revoke_members_spec k0 db s chain clock :
  frame_ok k0 db (revoke_members db s chain clock)
  ∧ ∀ k c a, active (revoke_members db s chain clock) k c a
      ↔ active db k c a ∧ ¬ (k = s ∧ c = chain).
Proof.
  unfold revoke_members, active, frame_ok. split; [split_and!; simpl; [done|done| |]|].
  - intros [[k c] a] [m Hm]. rewrite map_lookup_imap, Hm. by eexists.
  - intros [[k c] a]. rewrite map_lookup_imap. destruct (members db !! (k, c, a)); [by left; eexists|].
    by intros [? ?].
  - intros k c a. simpl. rewrite map_lookup_imap. destruct (members db !! (k, c, a)) as [m|]; simpl.
    + split.
      * intros (m' & [= <-] & Ha).
        destruct (Z.eqb_spec k s) as [->|]; simpl in *; [|split; [by exists m|naive_solver]].
        destruct (decide (c = chain)) as [->|].
        -- rewrite bool_decide_eq_true_2 in Ha by done. simpl in Ha.
           destruct (is_active m) eqn:Em; [by vm_compute in Ha|]. congruence.
        -- rewrite bool_decide_eq_false_2 in Ha by done. simpl in Ha.
           split; [by exists m|naive_solver].
      * intros [(m' & [= <-] & Ha) Hne]. eexists. split; [done|].
        destruct (Z.eqb_spec k s) as [->|]; simpl; [|done].
        rewrite bool_decide_eq_false_2; [done|naive_solver].
    + split; [by intros (? & ? & _)|by intros [(? & ? & _) _]].
Qed.

(** The memberships after the clusters [S] were folded into [k]. *)
Definition folded (db : cluster_db D) (k : Z) (chain : string) (S : list Z) (db' : cluster_db D)
    : Prop :=
  ∀ k' c a, active db' k' c a ↔
    (active db k' c a ∧ ¬ (k' ∈ S ∧ c = chain))
    ∨ (k' = k ∧ c = chain ∧ ∃ s, s ∈ S ∧ active db s chain a).

Definition unique_active (db : cluster_db D) : Prop :=
  ∀ k1 k2 chain a, active db k1 chain a → active db k2 chain a → k1 = k2.

Lemma folded_unique db k chain S db' :
  unique_active db → k ∉ S → folded db k chain S db' → unique_active db'.
Proof.
  intros Hu Hk Hf k1 k2 c a H1 H2. apply Hf in H1. apply Hf in H2.
  destruct H1 as [[H1 N1]|(E1 & E1' & s1 & S1 & H1)], H2 as [[H2 N2]|(E2 & E2' & s2 & S2 & H2)];
    subst; [by eapply Hu| | |done].
  - rewrite (Hu _ _ _ _ H1 H2) in N1. naive_solver.
  - rewrite (Hu _ _ _ _ H2 H1) in N2. naive_solver.
Qed.

Lemma fold_superseded_ok db k chain clock s :
  unique_active db → s ≠ k →
  ∃ db', fold_superseded dec k chain clock db s = ROk db' ∧ frame_ok k db db'
    ∧ folded db k chain [s] db'.
Proof.
  intros Hu Hne. unfold fold_superseded.
  set (moved := snd <$> active_where db chain (λ c _, c =? s)).
  assert (∀ a, a ∈ moved ↔ active db s chain a) as Hmoved.
  { intros a. unfold moved. rewrite list_elem_of_fmap. split.
    - intros ([k' a'] & -> & [Ha ->%Z.eqb_eq]%elem_of_active_where). done.
    - intros Ha. exists (s, a). split; [done|]. apply elem_of_active_where.
      by rewrite Z.eqb_refl. }
  destruct (revoke_members_spec k db s chain clock) as [F1 A1].
  destruct (upsert_all_ok k chain moved (revoke_members db s chain clock)) as (db' & E & F2 & _ & _ & A2).
  { intros a k' Ha%Hmoved [Hk' Hn]%A1. rewrite (Hu _ _ _ _ Hk' Ha) in Hn. naive_solver. }
  exists db'. split; [done|]. split; [by eapply frame_trans|].
  intros k' c a. rewrite A2, A1, Hmoved, list_elem_of_singleton. set_solver.
Qed.

Lemma fold_all_ok k chain clock S db :
  unique_active db → k ∉ S →
  ∃ db', fold_result (fold_superseded dec k chain clock) db S = ROk db' ∧ frame_ok k db db'
    ∧ folded db k chain S db'.
Proof.
  revert db. induction S as [|s S IH]; intros db Hu Hk; cbn [fold_result].
  { exists db. split; [done|]. split; [apply frame_refl|]. intros k' c a. set_solver. }
  apply not_elem_of_cons in Hk as [Hks HkS].
  destruct (fold_superseded_ok db k chain clock s) as (db1 & -> & F1 & A1); [done|done|].
  destruct (IH db1) as (db' & E & F2 & A2).
  { eapply folded_unique; [done| |done]. by apply not_elem_of_cons; split; [|apply not_elem_of_nil]. }
  { done. }
  exists db'. split; [done|]. split; [by eapply frame_trans|].
  assert (∀ k' c a, active db1 k' c a ↔
    (active db k' c a ∧ ¬ (k' = s ∧ c = chain)) ∨ (k' = k ∧ c = chain ∧ active db s chain a)) as A1'.
  { intros. rewrite (A1 k' c a). setoid_rewrite list_elem_of_singleton. naive_solver. }
  intros k' c a. rewrite (A2 k' c a). setoid_rewrite A1'. setoid_rewrite elem_of_cons.
  split.
  - intros [[[[H1 N1]|(-> & -> & H1)] N2]|(-> & -> & s' & Hs' & [[H1 N1]|(-> & _ & H1)])].
    + left. naive_solver.
    + right. eauto 6.
    + right. eauto 6.
    + done.
  - intros [[H1 N1]|(-> & -> & s' & [->|Hs'] & H1)].
    + left. naive_solver.
    + left. split; [by right|naive_solver].
    + destruct (decide (s' = s)) as [->|]; [left; split; [by right|naive_solver]|].
      right. split_and!; [done|done|]. exists s'. split; [done|]. left. naive_solver.
Qed.

(** The clusters a component touches. *)
Lemma elem_of_dedup_sorted (l : list Z) x :
  x ∈ dedup (stable_sort Z.leb l) ↔ x ∈ l.
Proof.
  rewrite <-(elem_of_stable_sort Z.leb x l). generalize (stable_sort Z.leb l). clear l. intros l.
  destruct l as [|y l]; simpl; [done|].
  assert (∀ z, x ∈ z :: dedup_from z l ↔ x ∈ z :: l) as Hd; [|by rewrite Hd].
  induction l as [|w l IH]; intros z; simpl; [done|]. destruct (decide (z = w)) as [<-|].
  - rewrite IH. set_solver.
  - rewrite !(elem_of_cons _ x z), IH. set_solver.
Qed.

Lemma elem_of_existing db chain comp k :
  k ∈ existing_clusters db chain comp ↔ ∃ a, a ∈ comp ∧ active db k chain a.
Proof.
  unfold existing_clusters. rewrite elem_of_dedup_sorted, list_elem_of_fmap. split.
  - intros ([k' a] & -> & [Ha Hc]%elem_of_active_where). exists a. split; [|done].
    unfold contains in Hc. by bool_prop.
  - intros (a & Hin & Ha). exists (k, a). split; [done|]. apply elem_of_active_where.
    split; [done|]. by apply bool_decide_eq_true_2.
Qed.

Lemma dedup_sorted_head (l : list Z) k rest :
  dedup (stable_sort Z.leb l) = k :: rest → ∀ x, x ∈ l → k <= x.
Proof.
  intros E x Hx. apply (elem_of_stable_sort Z.leb) in Hx.
  pose proof (stable_sort_sorted Z.leb ltac:(intros; rewrite !Z.leb_le; lia)
    ltac:(intros ???; rewrite !Z.leb_le; lia) l) as Hs.
  destruct (stable_sort Z.leb l) as [|y ys]; [done|]. simpl in E. injection E as -> _.
  apply elem_of_cons in Hx as [->|Hx]; [lia|]. apply StronglySorted_inv in Hs as [_ Hs].
  rewrite Forall_forall in Hs. by apply Z.leb_le, Hs.
Qed.

(** The cluster a component is folded into, and the ones it supersedes. *)
Definition canonical_cluster (db : cluster_db D) (existing : list Z) : Z :=
  match existing with id :: _ => id | [] => next_cluster db end.

Lemma canonical_least db chain comp a k :
  a ∈ comp → active db k chain a →
  canonical_cluster db (existing_clusters db chain comp) <= k.
Proof.
  intros Ha Hact.
  assert (k ∈ fst <$> active_where db chain (λ _ a, contains a comp)) as Hin.
  { apply list_elem_of_fmap. exists (k, a). split; [done|]. apply elem_of_active_where.
    split; [done|]. by apply bool_decide_eq_true_2. }
  unfold canonical_cluster, existing_clusters.
  destruct (dedup _) as [|id ids] eqn:E; [|exact (dedup_sorted_head _ _ _ E k Hin)].
  apply (elem_of_dedup_sorted _ k) in Hin. rewrite E in Hin. by apply not_elem_of_nil in Hin.
Qed.

Lemma rebuild_unfold db clock chain address :
  qualifying dec db (ChainKind.as_str chain) address ≠ [] →
  clusters_wf db →
  let ch := ChainKind.as_str chain in
  let comp := component address (qualifying dec db ch address) in
  let existing := existing_clusters db ch comp in
  let k := canonical_cluster db existing in
  ∃ db', rebuild_cluster_for dec db clock chain address = (db', ROk (Some k))
    ∧ edges db' = edges db
    ∧ next_cluster db' = (if decide (existing = []) then next_cluster db + 1 else next_cluster db)
    ∧ (∀ key, is_Some (members db !! key) → is_Some (members db' !! key))
    ∧ (∀ key, is_Some (members db' !! key) → is_Some (members db !! key) ∨ key.1.1 = k)
    ∧ (∀ a, a ∈ comp → members db' !! (k, ch, a) = Some (MkMember (dec MEMBERSHIP_THRESHOLD) None))
    ∧ (∀ k' c a, active db' k' c a ↔
         (active db k' c a ∧ ¬ (k' ∈ existing ∧ c = ch))
         ∨ (k' = k ∧ c = ch ∧ (a ∈ comp ∨ ∃ s, s ∈ existing ∧ active db s ch a))).
Proof.
  intros Hq Hwf. cbv zeta. unfold rebuild_cluster_for. set (ch := ChainKind.as_str chain) in *.
  destruct (qualifying dec db ch address) as [|row rows] eqn:Eq; [done|]. clear Hq.
  set (comp := component address (row :: rows)).
  set (existing := existing_clusters db ch comp).
  set (db1 := if decide (existing = [])
              then MkClusters (edges db) (members db) (next_cluster db + 1) else db).
  assert ((match existing with
           | id :: _ => (db, id)
           | [] => (MkClusters (edges db) (members db) (next_cluster db + 1), next_cluster db)
           end) = (db1, canonical_cluster db existing)) as ->.
  { unfold db1, canonical_cluster. by destruct existing. }
  set (k := canonical_cluster db existing).
  assert (∀ k' c a, active db1 k' c a ↔ active db k' c a) as A1.
  { intros. unfold db1. by destruct (decide (existing = [])). }
  assert (unique_active db1) as Hu.
  { intros k1 k2 c a H1 H2. rewrite A1 in H1, H2. by eapply (one_active _ Hwf). }
  destruct (fold_all_ok k ch clock (List.filter (λ id, negb (id =? k)) existing) db1) as (db2 & -> & F2 & A2).
  { done. }
  { rewrite list_elem_of_In, filter_In. intros [_ E]. by rewrite Z.eqb_refl in E. }
  assert (∀ s, s ∈ List.filter (λ id, negb (id =? k)) existing ↔ s ∈ existing ∧ s ≠ k) as Hsup.
  { intros s. by rewrite list_elem_of_In, filter_In, negb_true_iff, Z.eqb_neq, <-list_elem_of_In. }
  assert (k ∈ existing ∨ (existing = [] ∧ ∀ a, ¬ active db k ch a)) as Hk.
  { unfold k, canonical_cluster. destruct existing as [|id ids]; [right|left; by left].
    split; [done|]. intros a (m & Hm & _). apply (ids_used _ Hwf) in Hm. lia. }
  destruct (upsert_all_ok k ch comp db2) as (db3 & -> & F3 & M3 & _ & A3).
  { intros a k' Ha Hact. apply A2 in Hact as [[H1 N1]|(-> & _)]; [|done].
    rewrite A1 in H1. destruct (decide (k' = k)) as [|Hne]; [done|]. exfalso. apply N1.
    split; [|done]. apply Hsup. split; [|done]. apply elem_of_existing. by exists a. }
  exists db3. split; [done|]. destruct (frame_trans _ _ _ _ F2 F3) as (E1 & E2 & E3 & E4).
  assert (members db1 = members db) as Emem by (unfold db1; by case_decide).
  split_and!; [|..|done|].
  - rewrite E1. unfold db1. by case_decide.
  - rewrite E2. unfold db1. by case_decide.
  - intros key Hs. apply E3. by rewrite Emem.
  - intros key [?|?]%E4; [left; by rewrite <-Emem|by right].
  - intros k' c a. rewrite A3, (A2 k' c a). setoid_rewrite A1. setoid_rewrite Hsup. split.
    + intros [[[H1 N1]|(-> & -> & s & [Hs _] & H1)]|(-> & -> & Ha)].
      * destruct (decide (k' = k ∧ c = ch)) as [[-> ->]|Hne].
        -- right. split_and!; [done..|]. destruct Hk as [Hk|[_ Hn]]; [|by apply Hn in H1].
           right. by exists k.
        -- left. split; [done|]. intros [Hin ->]. apply N1. split; [|done]. split; [done|].
           intros ->. by apply Hne.
      * right. split_and!; [done..|]. right. by exists s.
      * right. split_and!; [done..|]. by left.
    + intros [[H1 N1]|(-> & -> & [Ha|(s & Hs & H1)])].
      * left. left. split; [done|]. naive_solver.
      * by right.
      * left. destruct (decide (s = k)) as [->|]; [left; split; [done|naive_solver]|].
        right. split_and!; [done..|]. exists s. done.
Qed.

Lemma address_in_component a (rows : list (FundingEdge D)) : a ∈ component a rows.
Proof. unfold component. apply canonical_set_spec. by left. Qed.

(** What a rebuild leaves: a well-formed table, and its component active in
    the returned cluster alone. *)
Lemma rebuild_facts db clock chain address (Hwf : clusters_wf db) :
  let ch := ChainKind.as_str chain in
  let rows := qualifying dec db ch address in
  let '(db', r) := rebuild_cluster_for dec db clock chain address in
  clusters_wf db'
  ∧ match r with
    | RErr _ => False
    | ROk None => rows = [] ∧ db' = db
    | ROk (Some k) =>
        address ∈ component address rows
        ∧ ∀ a, a ∈ component address rows → ∀ k', active db' k' ch a ↔ k' = k
    end.
Proof.
  cbv zeta. set (ch := ChainKind.as_str chain).
  destruct (decide (qualifying dec db ch address = [])) as [Eq|Hq].
  { unfold rebuild_cluster_for. fold ch. by rewrite Eq. }
  destruct (rebuild_unfold db clock chain address Hq Hwf) as (db' & -> & E1 & E2 & _ & K & M & A).
  fold ch in E1, E2, K, M, A. cbv zeta in *. revert E2 K M A.
  set (comp := component address (qualifying dec db ch address)).
  set (existing := existing_clusters db ch comp).
  set (k := canonical_cluster db existing). intros E2 K M A.
  assert (∀ a k', a ∈ comp → active db' k' ch a → k' = k) as Hcomp.
  { intros a k' Ha [[H1 N1]|(-> & _)]%A; [|done]. exfalso. apply N1. split; [|done].
    apply elem_of_existing. by exists a. }
  split; [split|split_and!].
  - intros k1 k2 c a H1 H2. apply A in H1 as H1'. apply A in H2 as H2'.
    destruct H1' as [[G1 N1]|(F1 & F1' & D1)], H2' as [[G2 N2]|(F2 & F2' & D2)]; subst;
      [by eapply (one_active _ Hwf)| | |done].
    + destruct D2 as [Ha|(s & Hs & Hact)]; [by apply (Hcomp a)|].
      rewrite (one_active _ Hwf _ _ _ _ G1 Hact) in N1. exfalso. by apply N1.
    + destruct D1 as [Ha|(s & Hs & Hact)]; [symmetry; by apply (Hcomp a)|].
      rewrite (one_active _ Hwf _ _ _ _ G2 Hact) in N2. exfalso. by apply N2.
  - intros k' c a m Hm. rewrite E2.
    destruct (K (k', c, a)) as [[m' Hm']|E]; [by eexists| |].
    + apply (ids_used _ Hwf) in Hm'. case_decide; lia.
    + simpl in E. subst k'. unfold k, canonical_cluster. clearbody comp.
      destruct existing as [|id ids] eqn:Ee; [rewrite decide_True by done; lia|].
      rewrite decide_False by done.
      assert (id ∈ existing) as Hin by (rewrite Ee; by left).
      apply elem_of_existing in Hin as (x & _ & (m' & Hm' & _)).
      by apply (ids_used _ Hwf) in Hm'.
  - apply address_in_component.
  - intros a Ha k'. split; [by apply Hcomp|]. intros ->.
    apply A. right. split_and!; [done|done|by left].
Qed.

(** A wallet and the ends of its edges at the membership threshold. *)
Definition linked (db : cluster_db D) (chain address a : string) : Prop :=
  a = address ∨ ∃ e, e ∈ edges db ∧ e_chain e = chain ∧ (from_address e = address ∨ to_address e = address)
    ∧ d_leb (dec MEMBERSHIP_THRESHOLD) (e_confidence e) = true ∧ (a = from_address e ∨ a = to_address e).

Lemma elem_of_qualifying db chain address e :
  e ∈ qualifying dec db chain address ↔ e ∈ edges db ∧ e_chain e = chain
    ∧ (from_address e = address ∨ to_address e = address) ∧ d_leb (dec MEMBERSHIP_THRESHOLD) (e_confidence e) = true.
Proof.
  unfold qualifying. rewrite elem_of_lfilter, !andb_true_iff, orb_true_iff, !bool_decide_eq_true. naive_solver.
Qed.

Lemma elem_of_component db chain address a :
  a ∈ component address (qualifying dec db chain address) ↔ linked db chain address a.
Proof.
  unfold component, linked. rewrite (proj2 (canonical_set_spec _)), elem_of_cons, list_elem_of_bind.
  setoid_rewrite elem_of_qualifying. setoid_rewrite elem_of_cons. setoid_rewrite list_elem_of_singleton. naive_solver.
Qed.

(** Claim C24: A rebuild merges exactly what the wallet's qualifying edges link.
    It never fails on a table with one active membership per wallet, and keeps
    that; without an edge at the threshold it changes nothing (no membership is
    revoked for missing evidence, contrary to its comment).  Otherwise the
    returned cluster is the least of those in which a linked wallet is active,
    or a number no membership ever had; the clusters in which one is active lose
    every member to it, the linked wallets join it, and every other membership,
    of an unrelated cluster or another chain, stays as it is. *)
Theorem rebuild_merges db clock chain address (Hwf : clusters_wf db) :
  let ch := ChainKind.as_str chain in
  let joined := linked db ch address in
  let touched k0 := ∃ x, joined x ∧ active db k0 ch x in
  let '(db', r) := rebuild_cluster_for dec db clock chain address in
  clusters_wf db' ∧ edges db' = edges db
  ∧ match r with
    | RErr _ => False
    | ROk None => qualifying dec db ch address = [] ∧ db' = db
    | ROk (Some k) =>
        qualifying dec db ch address ≠ []
        ∧ (touched k ∧ (∀ k0, touched k0 → k <= k0)
           ∨ (∀ k0, ¬ touched k0) ∧ ∀ c a, members db !! (k, c, a) = None)
        ∧ ∀ k' c a, active db' k' c a ↔
            (active db k' c a ∧ ¬ (c = ch ∧ touched k'))
            ∨ (k' = k ∧ c = ch ∧ (joined a ∨ ∃ k0, touched k0 ∧ active db k0 ch a))
    end.
Proof.
  cbv zeta. pose proof (rebuild_facts db clock chain address Hwf) as Hf. cbv zeta in Hf.
  set (ch := ChainKind.as_str chain) in *.
  destruct (decide (qualifying dec db ch address = [])) as [Eq|Hq].
  { revert Hf. unfold rebuild_cluster_for. fold ch. rewrite Eq. by intros (? & ? & ?). }
  destruct (rebuild_unfold db clock chain address Hq Hwf) as (db' & E & Ee & _ & _ & _ & _ & A).
  fold ch in A, E. cbv zeta in *. rewrite E in Hf |- *. destruct Hf as (Hwf' & _).
  assert (∀ k0, k0 ∈ existing_clusters db ch (component address (qualifying dec db ch address))
    ↔ ∃ x, linked db ch address x ∧ active db k0 ch x) as Hex.
  { intros k0. rewrite elem_of_existing. by setoid_rewrite elem_of_component. }
  split_and!; [done..| |].
  - unfold canonical_cluster. destruct (existing_clusters _ _ _) as [|id ids] eqn:El.
    + right. split; [intros k0 Hk; apply Hex in Hk; by apply not_elem_of_nil in Hk|]. intros c a.
      apply eq_None_not_Some. intros [m Hm]. apply (ids_used _ Hwf) in Hm. lia.
    + left. split; [apply Hex; by left|]. intros k0 (x & Hx & Ha).
      rewrite <-elem_of_component in Hx. pose proof (canonical_least db ch _ x k0 Hx Ha) as Hle. unfold canonical_cluster in Hle.
      by rewrite El in Hle.
  - intros k' c a. rewrite A, Hex, elem_of_component. setoid_rewrite Hex. naive_solver.
Qed.

Lemma dedup_constant (l : list Z) k : (∀ x, x ∈ l → x = k) → l ≠ [] → dedup l = [k].
Proof.
  destruct l as [|y l]; [done|]. intros Hall _. simpl. rewrite (Hall y) by left. f_equal.
  assert (∀ x, x ∈ l → x = k) as Hl by (intros; apply Hall; by right). clear Hall.
  induction l as [|z l IH]; simpl; [done|]. rewrite (Hl z) by left. rewrite decide_True by done.
  apply IH. intros. apply Hl. by right.
Qed.

Lemma upsert_all_same k chain l db :
  unique_active db →
  (∀ a, a ∈ l → members db !! (k, chain, a) = Some (MkMember (dec MEMBERSHIP_THRESHOLD) None)) →
  upsert_all dec k chain db l = ROk db.
Proof.
  intros Hu. induction l as [|a l IH]; intros Hl; [done|]. unfold upsert_all. cbn [fold_result].
  assert (upsert_membership dec db k chain a = ROk db) as ->.
  { unfold upsert_membership. rewrite (proj2 (active_elsewhere_false db k chain a)).
    - rewrite insert_id by (apply Hl; by left). by destruct db.
    - intros k' Ha. eapply Hu; [exact Ha|]. eexists. split; [apply Hl; by left|done]. }
  apply IH. intros. apply Hl. by right.
Qed.

(** Rebuilding again changes nothing. *)
Theorem rebuild_idempotent db clock clock' chain address (Hwf : clusters_wf db) :
  let '(db', r) := rebuild_cluster_for dec db clock chain address in
  rebuild_cluster_for dec db' clock' chain address = (db', r).
Proof.
  pose proof (rebuild_facts db clock chain address Hwf) as Hm. cbv zeta in Hm.
  set (ch := ChainKind.as_str chain) in *.
  destruct (decide (qualifying dec db ch address = [])) as [Eq|Hq].
  { unfold rebuild_cluster_for. fold ch. rewrite Eq. by rewrite Eq. }
  destruct (rebuild_unfold db clock chain address Hq Hwf) as (db' & E & E1 & E2 & _ & _ & M & A).
  rewrite E in *. fold ch in E1, M, A. cbv zeta in *. revert M Hm.
  set (comp := component address (qualifying dec db ch address)).
  set (k := canonical_cluster db (existing_clusters db ch comp)). clear A E E2.
  intros M (Hwf' & Hin & Hact).
  assert (qualifying dec db' ch address = qualifying dec db ch address) as Eq
    by (unfold qualifying; by rewrite E1).
  assert (existing_clusters db' ch comp = [k]) as Eex.
  { apply dedup_constant.
    - intros x Hx%elem_of_stable_sort.
      apply list_elem_of_fmap in Hx as ([k' a] & -> & [Ha Hc]%elem_of_active_where).
      unfold contains in Hc. bool_prop. by apply (Hact a).
    - intros Enil.
      assert (k ∈ stable_sort Z.leb (fst <$> active_where db' ch (λ _ a, contains a comp))) as Hk.
      { apply elem_of_stable_sort, list_elem_of_fmap. exists (k, address). split; [done|].
        apply elem_of_active_where. split; [by apply Hact|]. by apply bool_decide_eq_true_2. }
      rewrite Enil in Hk. by apply not_elem_of_nil in Hk. }
  unfold rebuild_cluster_for. fold ch. rewrite Eq.
  destruct (qualifying dec db ch address) as [|row rows] eqn:Er; [done|]. fold comp.
  rewrite Eex. cbn [List.filter]. rewrite Z.eqb_refl. cbn [negb fold_result].
  by rewrite upsert_all_same by (exact M || exact (one_active _ Hwf')).
Qed.
End membership.

(** ** Where clusters come from *)

Inductive cluster_op (D : Type) :=
  | OpTransfer (t : NormalizedTransfer D)
  | OpEvidence (clock : Z) (chain : ChainKind) (from to : string) (components : EdgeComponents)
      (evidence : string)
  | OpRebuild (clock : Z) (chain : ChainKind) (address : string).
Arguments OpTransfer {_}. Arguments OpEvidence {_}. Arguments OpRebuild {_}.

Section origin.
Context {D : Type} `{Decimal D} (dec : f64 → D).

Definition run_cluster_op (db : cluster_db D) (o : cluster_op D) : cluster_db D :=
  match o with
  | OpTransfer t => update_funding_edges dec db t
  | OpEvidence clock chain from to components evidence =>
      record_edge_evidence dec db clock chain from to components evidence
  | OpRebuild clock chain address => (rebuild_cluster_for dec db clock chain address).1
  end.

Definition empty_clusters : cluster_db D := MkClusters [] ∅ 1.

(** What rust_decimal and the column preserve of the confidences. *)
Definition dec_order : Prop :=
  ∀ c, d_leb (dec MEMBERSHIP_THRESHOLD) (dec (EdgeComponents.confidence c))
       = f64_leb MEMBERSHIP_THRESHOLD (EdgeComponents.confidence c).

Lemma insert_edge_spec (db : cluster_db D) e :
  members (insert_edge db e) = members db ∧ next_cluster (insert_edge db e) = next_cluster db
  ∧ ∀ x, x ∈ edges (insert_edge db e) → x ∈ edges db ∨ x = e.
Proof.
  unfold insert_edge. case_match; simpl; [naive_solver|]. split_and!; [done|done|].
  intros x. rewrite elem_of_app, list_elem_of_singleton. done.
Qed.

Lemma wf_frame (db db' : cluster_db D) :
  members db' = members db → next_cluster db' = next_cluster db → clusters_wf db → clusters_wf db'.
Proof.
  intros E1 E2 [H1 H2]. split; unfold active in *; rewrite ?E1, ?E2; [exact H1|exact H2].
Qed.

Lemma run_cluster_op_wf db o : clusters_wf db → clusters_wf (run_cluster_op db o).
Proof.
  intros Hwf. destruct o as [t|clock chain from to c ev|clock chain a]; simpl.
  - unfold update_funding_edges. cbv zeta.
    match goal with |- clusters_wf (insert_edge _ ?e) => destruct (insert_edge_spec db e) as (? & ? & _) end.
    by eapply wf_frame.
  - unfold record_edge_evidence. cbv zeta.
    match goal with |- clusters_wf (insert_edge _ ?e) => destruct (insert_edge_spec db e) as (? & ? & _) end.
    by eapply wf_frame.
  - pose proof (rebuild_facts dec db clock chain a Hwf) as Hm. cbv zeta in Hm.
    by destruct (rebuild_cluster_for dec db clock chain a) as [db' r]; destruct Hm.
Qed.

Lemma empty_clusters_wf : clusters_wf empty_clusters.
Proof. split; [by intros k1 k2 c a (m & Hm & _)|by intros k c a m Hm]. Qed.

Lemma run_cluster_ops_wf ops : clusters_wf (fold_left run_cluster_op ops empty_clusters).
Proof.
  generalize empty_clusters_wf. generalize empty_clusters.
  induction ops as [|o ops IH]; intros db Hdb; simpl; [done|]. by apply IH, run_cluster_op_wf.
Qed.

(** An operation that could not make an edge cluster-grade. *)
Definition below_grade (o : cluster_op D) : Prop :=
  match o with OpEvidence _ _ _ _ c _ => membership_grade c = false | _ => True end.

(** Transfers alone never cluster two wallets. *)
Theorem clusters_need_evidence (Hdec : dec_order) ops :
  let db := fold_left run_cluster_op ops empty_clusters in
  clusters_wf db ∧ (Forall below_grade ops → members db = ∅
    ∧ ∀ clock chain address, rebuild_cluster_for dec db clock chain address = (db, ROk None)).
Proof.
  cbv zeta. set (low (db : cluster_db D) := members db = ∅
    ∧ ∀ e, e ∈ edges db → d_leb (dec MEMBERSHIP_THRESHOLD) (e_confidence e) = false).
  assert (∀ db clock chain address, low db →
    rebuild_cluster_for dec db clock chain address = (db, ROk None)) as Hreb.
  { intros db clock chain address [_ He]. unfold rebuild_cluster_for, qualifying.
    rewrite filter_none; [done|]. intros e Hin. rewrite (He e Hin). apply andb_false_r. }
  assert (∀ db e, low db → d_leb (dec MEMBERSHIP_THRESHOLD) (e_confidence e) = false →
    low (insert_edge db e)) as Hins.
  { intros db e [Hm He] Hl. destruct (insert_edge_spec db e) as (E1 & _ & E3).
    split; [by rewrite E1|]. by intros x [?| ->]%E3; [apply He|]. }
  assert (∀ db o, low db → below_grade o → low (run_cluster_op db o)) as Hstep.
  { intros db [t|clock chain from to c ev|clock chain a] Hlow Hg; simpl.
    - apply Hins; [done|]. etransitivity; [exact (Hdec transfer_components)|by vm_compute].
    - apply Hins; [done|]. etransitivity; [exact (Hdec c)|].
      destruct (edge_promotion_exact c) as (-> & -> & _). exact Hg.
    - by rewrite Hreb. }
  split.
  - apply run_cluster_ops_wf.
  - intros Hg. assert (∀ db, low db → low (fold_left run_cluster_op ops db)) as Hl.
    { induction Hg as [|o ops Ho Hops IH]; intros db Hdb; simpl; [done|]. apply IH. by apply Hstep. }
    assert (low (fold_left run_cluster_op ops empty_clusters)) as Hlow.
    { apply Hl. split; [done|]. by intros e ?%not_elem_of_nil. }
    split; [apply Hlow|]. intros. by apply Hreb.
Qed.

(** ** The trace obeys the policy *)

Lemma time_leb_total (a b : FundingEdge D) : time_leb a b = true ∨ time_leb b a = true.
Proof. unfold time_leb. destruct (block_time a), (block_time b); rewrite ?Z.leb_le; auto; lia. Qed.

Lemma time_leb_trans (a b c : FundingEdge D) :
  time_leb a b = true → time_leb b c = true → time_leb a c = true.
Proof. unfold time_leb. destruct (block_time a), (block_time b), (block_time c); rewrite ?Z.leb_le; auto; try done; lia. Qed.

Lemma elem_of_edges_of (db : cluster_db D) chain address limit e :
  e ∈ edges_of db chain address limit →
  e ∈ edges db ∧ e_chain e = chain ∧ (from_address e = address ∨ to_address e = address).
Proof.
  unfold edges_of. intros Hin%elem_of_take_l%elem_of_stable_sort%elem_of_lfilter.
  destruct Hin as [Hin E].
  apply andb_prop in E as [E1%bool_decide_eq_true E2%orb_true_iff]. split_and!; [done|done|].
  by destruct E2 as [?%bool_decide_eq_true|?%bool_decide_eq_true]; [left|right].
Qed.

(** Lineage stops exactly where the policy says. *)
Theorem trace_obeys_policy (db : cluster_db D) policy now ws chain address max_depth steps
    (Htrace : trace_wallet db policy now ws chain address max_depth = ROk steps) :
  ∃ stops, (stops = true ↔ ∃ d, active_disposition policy now ws (ChainKind.as_str chain) address
                                = ROk (Some (Disposition.as_str d))
                              ∧ (d = Disposition.Skip ∨ d = Disposition.FlowOnly))
  ∧ Z.of_nat (length steps) <= (if stops then 50 else Z.max 0 (max_depth * 10))
  ∧ ∀ s, s ∈ steps → endpoint s = stops ∧
      ∃ e, e ∈ edges db ∧ e_chain e = ChainKind.as_str chain ∧ e_signature e = via_signature s
        ∧ ((from_address e = address ∧ step_address s = to_address e ∧ direction s = "outgoing")
           ∨ (to_address e = address ∧ step_address s = from_address e ∧ direction s = "incoming")).
Proof.
  unfold trace_wallet in Htrace. set (ch := ChainKind.as_str chain) in *.
  destruct (active_disposition policy now ws ch address) as [d|] eqn:Ed; [|done].
  set (stops := match d with Some v => match disposition_stops_traversal v with ROk b => b | RErr _ => false end
                | None => false end).
  assert (steps = trace_step address stops <$> edges_of db ch address (if stops then 50 else max_depth * 10)
    ∧ (stops = true ↔ ∃ d', d = Some (Disposition.as_str d') ∧ (d' = Disposition.Skip ∨ d' = Disposition.FlowOnly)))
    as [-> Hstops].
  { unfold stops. destruct d as [v|].
    - destruct (active_disposition_known _ _ _ _ _ _ Ed) as [d' ->]. unfold disposition_stops_traversal in *.
      rewrite restrictiveness_rank_as_str in *.
      change (restrictiveness_rank "flow_only") with (ROk 1) in *. cbv beta iota in *.
      split.
      + destruct (rank d' <=? 1); by injection Htrace as <-.
      + split.
        * intros Hr. exists d'. split; [done|]. destruct d'; [done|done|by right|by left].
        * intros (d2 & [= E] & Hd2). assert (d' = d2) as ->.
          { apply (f_equal restrictiveness_rank) in E. rewrite !restrictiveness_rank_as_str in E.
            injection E. apply rank_inj. }
          by destruct Hd2 as [->| ->].
    - injection Htrace as <-. split; [done|]. split; [done|by intros (? & ? & _)]. }
  exists stops. split_and!.
  - rewrite Hstops. split; intros (d' & E & Hd'); exists d'; (split; [congruence|done]).
  - rewrite length_fmap. unfold edges_of. rewrite length_take. destruct stops; lia.
  - intros s (e & -> & Hin)%list_elem_of_fmap. split; [done|].
    apply elem_of_edges_of in Hin as (Hin & Hc & Hends). exists e. split_and!; [done..|].
    unfold trace_step. simpl. case_bool_decide as E; [left; by split_and!|].
    right. by destruct Hends.
Qed.
End origin.

(** ** Instances *)

(** The two-decimal value a confidence prints as. *)
Definition qc_confidence (a : f64) : Qc :=
  match a with
  | S754_finite false m e => Q2Qc (Qmake (f64_hundredths m e) 100)
  | _ => Q2Qc 0
  end.

Lemma qc_dec_order : dec_order qc_confidence.
Proof. intros [[] [] [] [] []]; vm_compute; reflexivity. Qed.

Definition sample_transfer : NormalizedTransfer Qc :=
  NormalizedTransfer.mk ChainKind.Solana "s1" 0 "A" "B" AssetKind.Native "" "1" (Q2Qc 0) None
    (Some 5) 5 "rpc" Commitment.Confirmed.

Definition strong : EdgeComponents := EdgeComponents.mk true true true false false.

(** A and B clustered, C and D clustered, then B and C linked. *)
Definition sample_ops : list (cluster_op Qc) :=
  [OpTransfer sample_transfer; OpEvidence 1 ChainKind.Solana "A" "B" strong "";
   OpRebuild 2 ChainKind.Solana "A"; OpEvidence 3 ChainKind.Solana "C" "D" strong "";
   OpRebuild 4 ChainKind.Solana "D"; OpEvidence 5 ChainKind.Solana "B" "C" strong ""].

Definition sample_clusters : cluster_db Qc :=
  fold_left (run_cluster_op qc_confidence) sample_ops empty_clusters.

Lemma sample_clusters_wf : clusters_wf sample_clusters.
Proof. apply run_cluster_ops_wf. Qed.

Definition merged_clusters : cluster_db Qc * result (option Z) :=
  rebuild_cluster_for qc_confidence sample_clusters 6 ChainKind.Solana "B".

Example sample_merge :
  (merged_clusters.2, stable_sort (λ a b, String.leb a.2 b.2)
                        (active_where merged_clusters.1 "solana" (λ _ _, true)))
  = (ROk (Some 1), [(1, "A"); (1, "B"); (1, "C"); (1, "D")]).
Proof. vm_compute. reflexivity. Qed.

Lemma rebuild_merges_witness :
  clusters_wf (rebuild_cluster_for qc_confidence sample_clusters 6 ChainKind.Solana "B").1.
Proof.
  pose proof (rebuild_merges qc_confidence sample_clusters 6 ChainKind.Solana "B" sample_clusters_wf) as H.
  cbv zeta in H. revert H.
  destruct (rebuild_cluster_for qc_confidence sample_clusters 6 ChainKind.Solana "B") as [db' r].
  by intros [Hwf _].
Defined.

Lemma rebuild_idempotent_witness :
  let '(db', r) := rebuild_cluster_for qc_confidence sample_clusters 6 ChainKind.Solana "B" in
  rebuild_cluster_for qc_confidence db' 9 ChainKind.Solana "B" = (db', r).
Proof. apply (rebuild_idempotent qc_confidence sample_clusters 6 9), sample_clusters_wf. Defined.

Lemma clusters_need_evidence_witness :
  members (fold_left (run_cluster_op qc_confidence)
    [OpTransfer sample_transfer; OpTransfer sample_transfer; OpRebuild 3 ChainKind.Solana "A"]
    empty_clusters) = ∅.
Proof.
  apply (clusters_need_evidence qc_confidence qc_dec_order). by repeat constructor.
Defined.

(** The wallet A of [sample_labels] is watched: its automatic flow label does
    not stop the walk. *)
Lemma trace_obeys_policy_witness :
  ∃ stops,
    (stops = true ↔ ∃ d, active_disposition sample_labels 9 7 "solana" "A" = ROk (Some (Disposition.as_str d))
                       ∧ (d = Disposition.Skip ∨ d = Disposition.FlowOnly))
    ∧ Z.of_nat 2 <= (if stops then 50 else Z.max 0 (3 * 10)).
Proof.
  destruct (trace_obeys_policy sample_clusters sample_labels 9 7 ChainKind.Solana "A" 3
    [MkStep "B" "outgoing" "s1" (Some 5) false; MkStep "B" "outgoing" "evidence-1" None false])
    as (stops & H1 & H2 & _).
  - vm_compute. reflexivity.
  - exists stops. by split.
Defined.

Example sample_trace :
  trace_wallet sample_clusters sample_labels 9 7 ChainKind.Solana "A" 3
  = ROk [MkStep "B" "outgoing" "s1" (Some 5) false; MkStep "B" "outgoing" "evidence-1" None false].
Proof. vm_compute. reflexivity. Qed.
