(* ===== verification/FundingRadar.v ===== *)
(** * The funding radar (src/src/funding_radar.rs, models.rs, config.rs)

    Funding observations, the case a large funding of a fresh wallet opens,
    the evidence recorded on it and the evaluation that moves it along
    funded, preparation, deployed or dismissed.

    One statement is one step; serial ids start at 1.  Of a JSON evidence
    value only the boolean member [infrastructure] is read: [ev_infrastructure].
    Parameters: [from_u64] ([Decimal::from]).  Column scales are not modelled:
    a stored amount is the amount bound. *)
From S2P Require Import Prelude Text Domain Floats CostBasis Models Labels.
From Stdlib Require Import QArith.QArith_base QArith.Qreduction QArith.Qcanon.
From stdpp Require Import options.
Local Open Scope string_scope.
Local Open Scope Z_scope.
Local Open Scope list_scope.

(** ** Data *)

Module FundingRadarConfig.
Record FundingRadarConfig := mk {
  large_funding_min_sol : Z;
  large_funding_min_usd : Z;
  percentile_floor_sol : Z;
  percentile : f64;
  recipient_max_age_days : Z;
  preparation_window_days : Z;
  fanout_threshold : Z;
  preparation_evidence_required : Z;
  preparation_alert_confidence : Z;
}.
Definition default : FundingRadarConfig := mk 100 10000 10 (f64_lit 99 100) 7 7 3 2 70.
End FundingRadarConfig.
Abbreviation FundingRadarConfig := FundingRadarConfig.FundingRadarConfig.

Module FundingEvent.
Record FundingEvent (D : Type) := mk {
  chain : ChainKind;
  signature : string;
  slot : option Z;
  observed_at : Z;
  commitment : Commitment;
  from_address : string;
  to_address : string;
  asset_kind : AssetKind;
  mint : string;
  raw_amount : string;
  native_amount : D;
  amount_usd : option D;
  native_usd_price : option D;
  recipient_age_seconds : option Z;
  source_kind : option WalletLabelKind;
}.
Arguments mk {_}. Arguments chain {_}. Arguments signature {_}. Arguments slot {_}.
Arguments observed_at {_}. Arguments commitment {_}. Arguments from_address {_}.
Arguments to_address {_}. Arguments asset_kind {_}. Arguments mint {_}. Arguments raw_amount {_}.
Arguments native_amount {_}. Arguments amount_usd {_}. Arguments native_usd_price {_}.
Arguments recipient_age_seconds {_}. Arguments source_kind {_}.

Definition source_is_infrastructure {D} (e : FundingEvent D) : bool :=
  match source_kind e with
  | Some (WalletLabelKind.Exchange | WalletLabelKind.Bridge | WalletLabelKind.KuiperExchange
          | WalletLabelKind.MevBot | WalletLabelKind.DexBot) => true
  | _ => false
  end.
End FundingEvent.
Abbreviation FundingEvent := FundingEvent.FundingEvent.

(** A row of [funding_radar_cases]. *)
Module CaseRow.
Record CaseRow (D : Type) := mk {
  id : Z;
  workspace_id : Z;
  chain : string;
  recipient : string;
  first_funded_at : Z;
  first_funding_usd : option D;
  first_funding_native : D;
  source_address : string;
  source_kind : option string;
  fanout_count : Z;
  deploy_window_ends_at : Z;
  stage : string;
  confidence : Z;
  updated_at : Z;
  dismissed_reason : option string;
}.
Arguments mk {_}. Arguments id {_}. Arguments workspace_id {_}. Arguments chain {_}.
Arguments recipient {_}. Arguments first_funded_at {_}. Arguments first_funding_usd {_}.
Arguments first_funding_native {_}. Arguments source_address {_}. Arguments source_kind {_}.
Arguments fanout_count {_}. Arguments deploy_window_ends_at {_}. Arguments stage {_}.
Arguments confidence {_}. Arguments updated_at {_}. Arguments dismissed_reason {_}.
End CaseRow.
Abbreviation CaseRow := CaseRow.CaseRow.

Module FundingRadarCase.
Record FundingRadarCase (D : Type) := mk {
  id : Z;
  chain : ChainKind;
  recipient : string;
  first_funded_at : Z;
  first_funding_usd : option D;
  first_funding_native : D;
  source_address : string;
  source_kind : option WalletLabelKind;
  fanout_count : Z;
  deploy_window_ends_at : Z;
  stage : RadarStage;
  confidence : Z;
  updated_at : Z;
}.
Arguments mk {_}. Arguments id {_}. Arguments chain {_}. Arguments recipient {_}.
Arguments first_funded_at {_}. Arguments first_funding_usd {_}. Arguments first_funding_native {_}.
Arguments source_address {_}. Arguments source_kind {_}. Arguments fanout_count {_}.
Arguments deploy_window_ends_at {_}. Arguments stage {_}. Arguments confidence {_}.
Arguments updated_at {_}.
End FundingRadarCase.
Abbreviation FundingRadarCase := FundingRadarCase.FundingRadarCase.

Record CaseEvent := MkEvent {
  case_id : Z;
  event_kind : string;
  event_at : Z;
  ev_infrastructure : option bool;
}.

Record RadarAlert := MkAlert {
  alert_case : Z;
  alert_confidence : Z;
  alert_message : string;
  alert_kinds : gset string;
}.

Record FundingRadarDecision := MkDecision {
  d_case_id : Z;
  d_stage : RadarStage;
  previous_stage : option RadarStage;
  d_confidence : Z;
  d_alert : option RadarAlert;
  d_reason : string;
  evidence_count : Z;
}.

Record radar_db (D : Type) := MkRadar {
  observations : list (FundingEvent D);
  policy : label_db;
  cases : list (CaseRow D);
  events : list CaseEvent;
  next_case : Z;
}.
Arguments MkRadar {_}. Arguments observations {_}. Arguments policy {_}. Arguments cases {_}.
Arguments events {_}. Arguments next_case {_}.

Section radar.
Context {D : Type} `{Decimal D} (from_u64 : Z → D).
Implicit Types (db : radar_db D) (event : FundingEvent D).

(** ** Observations and thresholds *)

Definition same_observation (a b : FundingEvent D) : bool :=
  bool_decide (FundingEvent.chain a = FundingEvent.chain b)
  && bool_decide (FundingEvent.signature a = FundingEvent.signature b)
  && bool_decide (FundingEvent.from_address a = FundingEvent.from_address b)
  && bool_decide (FundingEvent.to_address a = FundingEvent.to_address b)
  && bool_decide (FundingEvent.asset_kind a = FundingEvent.asset_kind b)
  && bool_decide (FundingEvent.mint a = FundingEvent.mint b).

Definition store_funding_observation db event : radar_db D * bool :=
  if existsb (same_observation event) (observations db) then (db, false)
  else (MkRadar (observations db ++ [event]) (policy db) (cases db) (events db) (next_case db), true).

Definition usd_ok event (config : FundingRadarConfig) : bool :=
  match FundingEvent.amount_usd event with
  | Some usd => d_leb (from_u64 (FundingRadarConfig.large_funding_min_usd config)) usd
  | None => false
  end.

Definition qualifies_as_large_funding event (config : FundingRadarConfig)
    (percentile_threshold_sol : option D) : bool :=
  match FundingEvent.asset_kind event with
  | AssetKind.Native =>
      let sol_amount := FundingEvent.native_amount event in
      let absolute_ok :=
        d_leb (from_u64 (FundingRadarConfig.large_funding_min_sol config)) sol_amount
        && usd_ok event config in
      let percentile_ok :=
        match percentile_threshold_sol with
        | Some threshold =>
            d_leb threshold sol_amount
            && d_leb (from_u64 (FundingRadarConfig.percentile_floor_sol config)) sol_amount
        | None => false
        end in
      absolute_ok || percentile_ok
  | AssetKind.SplToken | AssetKind.Erc20 => usd_ok event config
  end.

Definition recipient_is_fresh event (config : FundingRadarConfig) : bool :=
  match FundingEvent.recipient_age_seconds event with
  | Some age => (0 <=? age) && (age <=? FundingRadarConfig.recipient_max_age_days config * 86400)
  | None => false
  end.

(** ** Cases *)

Definition case_key (workspace_id : Z) (chain recipient : string) (r : CaseRow D) : bool :=
  (CaseRow.workspace_id r =? workspace_id)
  && bool_decide (CaseRow.chain r = chain) && bool_decide (CaseRow.recipient r = recipient).

Definition case_of (chain : ChainKind) (r : CaseRow D) : FundingRadarCase D :=
  FundingRadarCase.mk (CaseRow.id r) (default chain (ChainKind.parse (CaseRow.chain r)))
    (CaseRow.recipient r) (CaseRow.first_funded_at r) (CaseRow.first_funding_usd r)
    (CaseRow.first_funding_native r) (CaseRow.source_address r)
    (CaseRow.source_kind r ≫= WalletLabelKind.parse) (wrap_u32 (Z.max 0 (CaseRow.fanout_count r)))
    (CaseRow.deploy_window_ends_at r) (default RadarStage.Funded (RadarStage.parse (CaseRow.stage r)))
    (wrap_u32 (Z.max 0 (CaseRow.confidence r))) (CaseRow.updated_at r).

Definition fetch_case db (workspace_id : Z) (chain : ChainKind) (recipient : string)
    : option (FundingRadarCase D) :=
  case_of chain <$> find_first (case_key workspace_id (ChainKind.as_str chain) recipient) (cases db).

(** The foreign key: the case exists. *)
Definition record_case_event db (case : Z) (kind : string) (at_ : Z) (infrastructure : option bool)
    : radar_db D * result () :=
  if existsb (λ r, CaseRow.id r =? case) (cases db)
  then (MkRadar (observations db) (policy db) (cases db)
          (events db ++ [MkEvent case kind at_ infrastructure]) (next_case db), ROk ())
  else (db, RErr "funding_radar_events_case_id_fkey").

(** UPDATE funding_radar_cases .. WHERE id = .. *)
Definition update_case db (case : Z) (f : CaseRow D → CaseRow D) : radar_db D :=
  MkRadar (observations db) (policy db)
    ((λ r, if CaseRow.id r =? case then f r else r) <$> cases db) (events db) (next_case db).

Definition set_fanout (clock fanout : Z) (r : CaseRow D) : CaseRow D :=
  CaseRow.mk (CaseRow.id r) (CaseRow.workspace_id r) (CaseRow.chain r) (CaseRow.recipient r)
    (CaseRow.first_funded_at r) (CaseRow.first_funding_usd r) (CaseRow.first_funding_native r)
    (CaseRow.source_address r) (CaseRow.source_kind r) (wrap_i32 fanout)
    (CaseRow.deploy_window_ends_at r) (CaseRow.stage r) (CaseRow.confidence r) clock
    (CaseRow.dismissed_reason r).

Definition set_stage (clock : Z) (stage : RadarStage) (confidence : Z) (reason : option string)
    (r : CaseRow D) : CaseRow D :=
  CaseRow.mk (CaseRow.id r) (CaseRow.workspace_id r) (CaseRow.chain r) (CaseRow.recipient r)
    (CaseRow.first_funded_at r) (CaseRow.first_funding_usd r) (CaseRow.first_funding_native r)
    (CaseRow.source_address r) (CaseRow.source_kind r) (CaseRow.fanout_count r)
    (CaseRow.deploy_window_ends_at r) (RadarStage.as_str stage) confidence clock
    (match reason with Some x => Some x | None => CaseRow.dismissed_reason r end).

Definition update_case_fanout db (clock case fanout : Z) : radar_db D :=
  update_case db case (set_fanout clock fanout).

Definition update_stage db (clock case : Z) (stage : RadarStage) (confidence : Z)
    (reason : option string) : radar_db D :=
  update_case db case (set_stage clock stage (wrap_i32 confidence) reason).

Definition dismiss_case db (clock case : Z) (reason : string) : radar_db D :=
  update_case db case
    (λ r, set_stage clock RadarStage.Dismissed (CaseRow.confidence r) (Some reason) r).

Definition count_fresh_children db (chain : ChainKind) (recipient : string)
    (config : FundingRadarConfig) : Z :=
  let limit := FundingRadarConfig.recipient_max_age_days config * 86400 * 10 ^ 9 in
  let fresh e :=
    bool_decide (FundingEvent.chain e = chain)
    && bool_decide (FundingEvent.from_address e = recipient)
    && match wallets (policy db) !! (ChainKind.as_str chain, FundingEvent.to_address e) with
       | Some w => FundingEvent.observed_at e - Wallet.first_seen w <=? limit
       | None => false
       end in
  wrap_u32 (Z.of_nat (size (list_to_set (FundingEvent.to_address <$>
    List.filter fresh (observations db)) : gset string))).

(** INSERT INTO funding_radar_cases: the unique (workspace_id, chain, recipient). *)
Definition insert_case db (r : Z → CaseRow D) : radar_db D * result Z :=
  let row := r (next_case db) in
  if existsb (case_key (CaseRow.workspace_id row) (CaseRow.chain row) (CaseRow.recipient row)) (cases db)
  then (MkRadar (observations db) (policy db) (cases db) (events db) (next_case db + 1),
        RErr "funding_radar_cases_tenant_uidx")
  else (MkRadar (observations db) (policy db) (cases db ++ [row]) (events db) (next_case db + 1),
        ROk (next_case db)).

Definition with_policy db (p : label_db) : radar_db D :=
  MkRadar (observations db) p (cases db) (events db) (next_case db).

Definition new_case (clock workspace_id : Z) event (window_ends : Z) (id : Z) : CaseRow D :=
  CaseRow.mk id workspace_id (ChainKind.as_str (FundingEvent.chain event))
    (FundingEvent.to_address event) (FundingEvent.observed_at event) (FundingEvent.amount_usd event)
    (FundingEvent.native_amount event) (FundingEvent.from_address event)
    (WalletLabelKind.as_str <$> FundingEvent.source_kind event) 0 window_ends
    (RadarStage.as_str RadarStage.Funded)
    (if FundingEvent.source_is_infrastructure event then 40 else 55) clock None.

Definition ingest_funding_event db (clock workspace_id : Z) event (config : FundingRadarConfig)
    (percentile_threshold_sol : option D) : radar_db D * result (option (FundingRadarCase D)) :=
  let db := (store_funding_observation db event).1 in
  let chain := FundingEvent.chain event in
  let fetch db := ROk (fetch_case db workspace_id chain (FundingEvent.to_address event)) in
  if Commitment.ltb (FundingEvent.commitment event) Commitment.Confirmed then (db, fetch db) else
  if negb (recipient_is_fresh event config) then (db, fetch db) else
  if negb (qualifies_as_large_funding event config percentile_threshold_sol) then (db, fetch db) else
  let ch := ChainKind.as_str chain in
  let at_ := FundingEvent.observed_at event in
  let p := upsert_wallet (policy db) ch (FundingEvent.to_address event) at_ "funding_radar" in
  let p := upsert_wallet p ch (FundingEvent.from_address event) at_ "funding_radar" in
  let db := with_policy db p in
  let infra := Some (FundingEvent.source_is_infrastructure event) in
  let window_ends := at_ + FundingRadarConfig.preparation_window_days config * 86400 * 10 ^ 9 in
  let create :=
    match insert_case db (new_case clock workspace_id event window_ends) with
    | (db, RErr e) => (db, RErr e)
    | (db, ROk id) =>
        match record_case_event db id "first_funding" at_ infra with
        | (db, RErr e) => (db, RErr e)
        | (db, ROk _) => (db, fetch db)
        end
    end in
  match fetch_case db workspace_id chain (FundingEvent.to_address event) with
  | Some case =>
      if decide (FundingRadarCase.stage case = RadarStage.Dismissed) then create else
      let id := FundingRadarCase.id case in
      match record_case_event db id "additional_funding" at_ infra with
      | (db, RErr e) => (db, RErr e)
      | (db, ROk _) =>
          let fanout := count_fresh_children db chain (FundingEvent.to_address event) config in
          let db := update_case_fanout db clock id fanout in
          (db, fetch db)
      end
  | None => create
  end.

(** ** Evaluation *)

Definition evidence_rows db (case now : Z) : list CaseEvent :=
  List.filter (λ e, (case_id e =? case) && (event_at e <=? now)) (events db).

Definition count_case_events db (case : Z) : Z :=
  wrap_u32 (Z.of_nat (length (List.filter (λ e, case_id e =? case) (events db)))).

Definition kinds_of (rows : list CaseEvent) : gset string := list_to_set (event_kind <$> rows).

Definition non_infrastructure (rows : list CaseEvent) : bool :=
  existsb (λ e, negb (default false (ev_infrastructure e))) rows.

Definition preparation_confidence (case : FundingRadarCase D) (config : FundingRadarConfig)
    (kinds : gset string) : Z :=
  let has k := bool_decide (k ∈ kinds) in
  let confidence := 55 in
  let confidence := if has "fanout" then confidence + 15 else confidence in
  let confidence :=
    if has "token_creation" || has "account_creation" then confidence + 10 else confidence in
  let confidence :=
    if has "launchpad_interaction" || has "dex_interaction" then confidence + 10 else confidence in
  let confidence :=
    if has "telegram_mention" || has "gmgn_mention" then confidence + 5 else confidence in
  let confidence :=
    if FundingRadarConfig.fanout_threshold config <=? FundingRadarCase.fanout_count case
    then confidence + 5 else confidence in
  Z.min confidence 95.

Definition preparation_alert (case : FundingRadarCase D) (kinds : gset string) : RadarAlert :=
  MkAlert (FundingRadarCase.id case) (FundingRadarCase.confidence case)
    ("preparation_alert: " +:+ short_addr (FundingRadarCase.recipient case) +:+
     " shows possible project preparation (confidence " +:+ pretty (FundingRadarCase.confidence case)
     +:+ ")") kinds.

(** [clock] is the database's now(), [now] the evaluation's argument. *)
Definition evaluate_radar_case db (clock workspace_id : Z) (chain : ChainKind) (recipient : string)
    (now : Z) (config : FundingRadarConfig) : radar_db D * FundingRadarDecision :=
  match fetch_case db workspace_id chain recipient with
  | None => (db, MkDecision 0 RadarStage.Funded None 0 None "no case" 0)
  | Some case =>
      let id := FundingRadarCase.id case in
      let stage := FundingRadarCase.stage case in
      let confidence := FundingRadarCase.confidence case in
      if decide (stage = RadarStage.Dismissed ∨ stage = RadarStage.Deployed)
      then (db, MkDecision id stage (Some stage) confidence None
                  ("case already " +:+ RadarStage.as_str stage) (count_case_events db id))
      else if (FundingRadarCase.deploy_window_ends_at case <? now)
              && bool_decide (stage = RadarStage.Funded)
      then
        let reason := "expired window without preparation evidence" in
        let db := dismiss_case db clock id reason in
        (db, MkDecision id RadarStage.Dismissed (Some stage) confidence None reason
               (count_case_events db id))
      else
      let rows := evidence_rows db id now in
      let kinds := kinds_of rows in
      let count := wrap_u32 (Z.of_nat (size kinds)) in
      if bool_decide ("deployment" ∈ kinds)
      then (update_stage db clock id RadarStage.Deployed 85 None,
            MkDecision id RadarStage.Deployed (Some stage) 85 None "confirmed deployment linked" count)
      else
      let required := FundingRadarConfig.preparation_evidence_required config in
      if (required <=? Z.of_nat (size kinds)) && non_infrastructure rows
         && bool_decide (stage = RadarStage.Funded)
      then
        let confidence := preparation_confidence case config kinds in
        let db := update_stage db clock id RadarStage.Preparation confidence None in
        let updated := default case (fetch_case db workspace_id chain recipient) in
        let alert :=
          if FundingRadarConfig.preparation_alert_confidence config <=? confidence
          then Some (preparation_alert updated kinds) else None in
        (db, MkDecision (FundingRadarCase.id updated) RadarStage.Preparation (Some stage) confidence
               alert "possible project preparation" count)
      else
        (db, MkDecision id stage (Some stage) confidence None
               ("awaiting more evidence (" +:+ pretty (Z.of_nat (size kinds)) +:+ "/" +:+
                pretty required +:+ " kinds, fanout " +:+ pretty (FundingRadarCase.fanout_count case)
                +:+ "/" +:+ pretty (FundingRadarConfig.fanout_threshold config) +:+ ")") count)
  end.

Definition record_case_evidence db (case : Z) (kind : string) (at_ : Z) (infrastructure : option bool)
    : radar_db D * result () := record_case_event db case kind at_ infrastructure.

Definition link_deployment db (case : Z) (at_ : Z) : radar_db D * result () :=
  record_case_event db case "deployment" at_ None.
End radar.

Lemma fmap_key_same {A B} (k : A → B) (g : A → A) (l : list A) :
  (∀ x, x ∈ l → k (g x) = k x) → k <$> (g <$> l) = k <$> l.
Proof.
  induction l as [|x l IH]; intros Hl; [done|]. rewrite !fmap_cons, Hl by left. f_equal.
  apply IH. intros. apply Hl. by right.
Qed.

(** ** The life of a case *)

(** funded, then preparation, then deployed; or dismissed from funded. *)
Definition forward (s s' : RadarStage) : Prop :=
  s' = s ∨ s = RadarStage.Funded ∨ (s = RadarStage.Preparation ∧ s' = RadarStage.Deployed).

Lemma forward_trans s1 s2 s3 : forward s1 s2 → forward s2 s3 → forward s1 s3.
Proof. unfold forward. destruct s1, s2, s3; naive_solver. Qed.

Section life.
Context {D : Type} `{Decimal D} (from_u64 : Z → D).
Implicit Types (db : radar_db D) (r : CaseRow D).

Definition row_key r : Z * string * string := (CaseRow.workspace_id r, CaseRow.chain r, CaseRow.recipient r).

Record radar_wf db : Prop := {
  keys_unique : NoDup (row_key <$> cases db);
  ids_unique : NoDup (CaseRow.id <$> cases db);
  ids_below : ∀ r, r ∈ cases db → CaseRow.id r < next_case db;
  stages_known : ∀ r, r ∈ cases db → ∃ s, CaseRow.stage r = RadarStage.as_str s;
}.

(** The facts of the first funding never change, and the stage only advances. *)
Definition progressed r r' : Prop :=
  CaseRow.id r' = CaseRow.id r ∧ row_key r' = row_key r
  ∧ CaseRow.first_funded_at r' = CaseRow.first_funded_at r
  ∧ CaseRow.first_funding_usd r' = CaseRow.first_funding_usd r
  ∧ CaseRow.first_funding_native r' = CaseRow.first_funding_native r
  ∧ CaseRow.source_address r' = CaseRow.source_address r
  ∧ CaseRow.source_kind r' = CaseRow.source_kind r
  ∧ CaseRow.deploy_window_ends_at r' = CaseRow.deploy_window_ends_at r
  ∧ ∃ s s', CaseRow.stage r = RadarStage.as_str s ∧ CaseRow.stage r' = RadarStage.as_str s'
      ∧ forward s s'.

Lemma progressed_refl r s : CaseRow.stage r = RadarStage.as_str s → progressed r r.
Proof. intros E. unfold progressed. split_and!; try done. exists s, s. split_and!; [done..|by left]. Qed.

Lemma as_str_inj s s' : RadarStage.as_str s = RadarStage.as_str s' → s = s'.
Proof. by destruct s, s'. Qed.

Lemma progressed_trans r1 r2 r3 : progressed r1 r2 → progressed r2 r3 → progressed r1 r3.
Proof.
  intros (A1&A2&A3&A4&A5&A6&A7&A8&s1&s2&A9&A10&A11) (B1&B2&B3&B4&B5&B6&B7&B8&s3&s4&B9&B10&B11).
  unfold progressed. split_and!; [congruence..|]. exists s1, s4. split_and!; [done|done|].
  assert (s2 = s3) as -> by (apply as_str_inj; congruence). by eapply forward_trans.
Qed.

(** Every case of [db] is found in [db'], further on. *)
Definition advances db db' : Prop :=
  radar_wf db' ∧ ∀ r, r ∈ cases db → ∃ r', r' ∈ cases db' ∧ progressed r r'.

Lemma advances_refl db : radar_wf db → advances db db.
Proof.
  intros Hwf. split; [done|]. intros r Hr. exists r. split; [done|].
  destruct (stages_known _ Hwf r Hr) as [s Hs]. by eapply progressed_refl.
Qed.

Lemma advances_trans db1 db2 db3 : advances db1 db2 → advances db2 db3 → advances db1 db3.
Proof.
  intros [_ A] [Hwf B]. split; [done|]. intros r Hr. destruct (A r Hr) as (r2 & H2 & P2).
  destruct (B r2 H2) as (r3 & H3 & P3). exists r3. split; [done|]. by eapply progressed_trans.
Qed.

Lemma advances_cases db db' :
  radar_wf db → cases db' = cases db → next_case db' = next_case db → advances db db'.
Proof.
  intros Hwf E1 E2. destruct (advances_refl db Hwf) as [_ Ha]. split.
  - destruct Hwf as [W1 W2 W3 W4]. split; rewrite ?E1, ?E2; done.
  - intros r Hr. rewrite E1. by apply Ha.
Qed.

(** An update of one case that keeps its key and advances its stage. *)
Lemma advances_update db id f :
  radar_wf db →
  (∀ r s, r ∈ cases db → CaseRow.id r = id → CaseRow.stage r = RadarStage.as_str s → progressed r (f r)) →
  advances db (update_case db id f).
Proof.
  intros [W1 W2 W3 W4] Hf. set (g := λ r, if CaseRow.id r =? id then f r else r).
  assert (∀ r, r ∈ cases db → progressed r (g r)) as Hg.
  { intros r Hr. destruct (W4 r Hr) as [s Hs]. unfold g.
    destruct (Z.eqb_spec (CaseRow.id r) id); [by eapply Hf|by eapply progressed_refl]. }
  split; [split|]; simpl; fold g.
  - rewrite fmap_key_same; [done|]. intros r Hr. apply (Hg r Hr).
  - rewrite fmap_key_same; [done|]. intros r Hr. apply (Hg r Hr).
  - intros r' (r & -> & Hr)%list_elem_of_fmap. destruct (Hg r Hr) as [-> _]. by apply W3.
  - intros r' (r & -> & Hr)%list_elem_of_fmap.
    destruct (Hg r Hr) as (_&_&_&_&_&_&_&_&s&s'&_&?&_). by exists s'.
  - intros r Hr. exists (g r). split; [by apply list_elem_of_fmap_2|by apply Hg].
Qed.

(** A fetched case is a stored row. *)
Lemma fetch_case_row db ws chain recipient case :
  fetch_case db ws chain recipient = Some case →
  ∃ r, r ∈ cases db ∧ case = case_of chain r
    ∧ row_key r = (ws, ChainKind.as_str chain, recipient).
Proof.
  unfold fetch_case. destruct (find_first _ _) as [r|] eqn:E; [|done]. intros [= <-].
  apply find_first_Some in E as [Hr Hk]. exists r. split_and!; [done..|].
  unfold case_key in Hk. bool_prop. unfold row_key.
  match goal with E : (_ =? _) = true |- _ => apply Z.eqb_eq in E as -> end. by f_equal; [f_equal|].
Qed.

Lemma fetch_case_none db ws chain recipient :
  fetch_case db ws chain recipient = None →
  ∀ r, r ∈ cases db → row_key r ≠ (ws, ChainKind.as_str chain, recipient).
Proof.
  unfold fetch_case. destruct (find_first _ _) eqn:E; [done|]. intros _ r Hr Hk.
  rewrite find_first_None in E. pose proof (E r Hr) as E'. unfold case_key in E'.
  unfold row_key in Hk. injection Hk as E1 E2 E3.
  by rewrite E1, E2, E3, Z.eqb_refl, !bool_decide_eq_true_2 in E' by done.
Qed.

Lemma stage_of_case chain r s :
  CaseRow.stage r = RadarStage.as_str s → FundingRadarCase.stage (case_of chain r) = s.
Proof. unfold case_of. simpl. intros ->. by rewrite radar_stage_round_trip. Qed.

Lemma same_id_same_row db r1 r2 :
  radar_wf db → r1 ∈ cases db → r2 ∈ cases db → CaseRow.id r1 = CaseRow.id r2 → r1 = r2.
Proof.
  intros [_ Hn _ _] [i Hi]%list_elem_of_lookup [j Hj]%list_elem_of_lookup E.
  assert (i = j) as <-; [|congruence].
  eapply (NoDup_lookup _ i j (CaseRow.id r1)); [exact Hn| |]; rewrite list_lookup_fmap.
  - by rewrite Hi.
  - by rewrite Hj, E.
Qed.

Lemma record_event_cases db case kind at_ infra :
  cases (record_case_event db case kind at_ infra).1 = cases db
  ∧ next_case (record_case_event db case kind at_ infra).1 = next_case db.
Proof. unfold record_case_event. by case_match. Qed.

Lemma advances_event db case kind at_ infra :
  radar_wf db → advances db (record_case_event db case kind at_ infra).1.
Proof. intros Hwf. destruct (record_event_cases db case kind at_ infra). by apply advances_cases. Qed.

Lemma advances_fanout db clock id fanout :
  radar_wf db → advances db (update_case_fanout db clock id fanout).
Proof.
  intros Hwf. apply advances_update; [done|]. intros r s Hr _ Hs. unfold progressed.
  split_and!; try done. exists s, s. split_and!; [done|done|by left].
Qed.

Lemma advances_insert db (row : Z → CaseRow D) :
  radar_wf db → (∀ i, CaseRow.id (row i) = i) → (∀ i, CaseRow.stage (row i) = RadarStage.as_str RadarStage.Funded) →
  (∀ i j, row_key (row i) = row_key (row j)) →
  advances db (insert_case db row).1.
Proof.
  intros Hwf Hid Hst Hk. destruct (advances_refl db Hwf) as [_ Ha]. destruct Hwf as [W1 W2 W3 W4].
  unfold insert_case. destruct (existsb _ _) eqn:E; simpl.
  { split; [split; simpl; [done|done| |done]|done]. intros r Hr. pose proof (W3 r Hr). lia. }
  rewrite existsb_false_elem in E. split; [split|]; simpl.
  - rewrite fmap_app. apply NoDup_app. split_and!; [done| |apply NoDup_singleton].
    intros k (r & -> & Hr)%list_elem_of_fmap Hin%list_elem_of_singleton.
    pose proof (E r Hr) as E'. unfold case_key in E'. unfold row_key in Hin. injection Hin as E1 E2 E3.
    by rewrite E1, E2, E3, Z.eqb_refl, !bool_decide_eq_true_2 in E' by done.
  - rewrite fmap_app. apply NoDup_app. split_and!; [done| |apply NoDup_singleton].
    intros k (r & -> & Hr)%list_elem_of_fmap Hin%list_elem_of_singleton.
    pose proof (W3 r Hr). rewrite Hid in Hin. lia.
  - intros r [Hr| ->%list_elem_of_singleton]%elem_of_app; [pose proof (W3 r Hr); lia|rewrite Hid; lia].
  - intros r [Hr| ->%list_elem_of_singleton]%elem_of_app; [by apply W4|]. by exists RadarStage.Funded.
  - intros r Hr. destruct (Ha r Hr) as (r' & ? & ?). exists r'. split; [|done].
    apply elem_of_app. by left.
Qed.

Lemma advances_stage db clock r chain stage confidence reason :
  radar_wf db → r ∈ cases db → forward (FundingRadarCase.stage (case_of chain r)) stage →
  advances db (update_case db (CaseRow.id r) (λ r, set_stage clock stage (confidence r) reason r)).
Proof.
  intros Hwf Hr Hf. apply advances_update; [done|]. intros r' s Hr' Hid Hs.
  rewrite (same_id_same_row db r' r Hwf Hr' Hr Hid) in *. rewrite (stage_of_case _ _ _ Hs) in Hf.
  unfold progressed. split_and!; try done. by exists s, stage.
Qed.

Lemma evaluate_advances db clock ws chain recipient now config :
  radar_wf db → advances db (evaluate_radar_case db clock ws chain recipient now config).1.
Proof.
  clear from_u64. intros Hwf. unfold evaluate_radar_case.
  destruct (fetch_case db ws chain recipient) as [case|] eqn:Ef; [|by apply advances_refl].
  apply fetch_case_row in Ef as (r & Hr & -> & _).
  case_decide as Ht; [by apply advances_refl|]. cbv zeta.
  destruct ((_ <? now) && _) eqn:Ew.
  { apply andb_prop in Ew as [_ Ew%bool_decide_eq_true]. cbn [fst].
    apply (advances_stage db clock r chain RadarStage.Dismissed); [done|done|]. right. by left. }
  destruct (bool_decide ("deployment" ∈ _)); cbn [fst].
  { apply (advances_stage db clock r chain RadarStage.Deployed (λ _, wrap_i32 85)); [done|done|].
    unfold forward. destruct (FundingRadarCase.stage (case_of chain r)); naive_solver. }
  match goal with |- context [if ?c then _ else _] => destruct c eqn:Ep end; [|by apply advances_refl].
  cbn [fst]. apply andb_prop in Ep as [_ Ep%bool_decide_eq_true].
  apply (advances_stage db clock r chain RadarStage.Preparation (λ _, wrap_i32 _)); [done|done|].
  right. by left.
Qed.

Lemma ingest_advances db clock ws event config pct :
  radar_wf db → advances db (ingest_funding_event from_u64 db clock ws event config pct).1.
Proof.
  intros Hwf. unfold ingest_funding_event. cbv zeta.
  set (db1 := (store_funding_observation db event).1).
  assert (advances db db1) as A1.
  { unfold db1, store_funding_observation. case_match; [by apply advances_refl|by apply advances_cases]. }
  destruct (Commitment.ltb _ _); [done|]. destruct (negb (recipient_is_fresh event config)); [done|].
  destruct (negb (qualifies_as_large_funding from_u64 event config pct)); [done|].
  set (db2 := with_policy db1 _).
  assert (advances db db2) as A2.
  { eapply advances_trans; [done|]. apply advances_cases; [apply A1|done|done]. }
  set (row := new_case clock ws event _).
  assert (∀ d id kind at_ infra (k : radar_db D → radar_db D * result (option (FundingRadarCase D))),
    advances db d → (∀ d', advances db d' → advances db (k d').1) →
    advances db (match record_case_event d id kind at_ infra with
                 | (d, RErr e) => (d, RErr e) | (d, ROk _) => k d end).1) as Aev.
  { intros d id kind at_ infra k Ad Hk.
    pose proof (advances_trans _ _ _ Ad (advances_event d id kind at_ infra (proj1 Ad))) as A.
    destruct (record_case_event d id kind at_ infra) as [d' [|]]; [by apply Hk|done]. }
  assert (advances db (insert_case db2 row).1) as A3.
  { eapply advances_trans; [done|]. apply advances_insert; [apply A2|done..]. }
  destruct (insert_case db2 row) as [db3 [id|e]]; cbn [fst] in A3;
    destruct (fetch_case db2 ws (FundingEvent.chain event) (FundingEvent.to_address event)) as [case|];
    try case_decide; try exact A3; apply Aev; try done; intros d Ad; try exact Ad; cbn [fst];
    (eapply advances_trans; [exact Ad|]); apply advances_fanout, Ad.
Qed.

Inductive radar_op :=
  | OpIngest (clock ws : Z) (event : FundingEvent D) (config : FundingRadarConfig) (pct : option D)
  | OpEvaluate (clock ws : Z) (chain : ChainKind) (recipient : string) (now : Z)
      (config : FundingRadarConfig)
  | OpCaseEvidence (case : Z) (kind : string) (at_ : Z) (infrastructure : option bool)
  | OpDeployment (case at_ : Z).

Definition run_radar_op db (o : radar_op) : radar_db D :=
  match o with
  | OpIngest clock ws event config pct => (ingest_funding_event from_u64 db clock ws event config pct).1
  | OpEvaluate clock ws chain recipient now config =>
      (evaluate_radar_case db clock ws chain recipient now config).1
  | OpCaseEvidence case kind at_ infra => (record_case_evidence db case kind at_ infra).1
  | OpDeployment case at_ => (link_deployment db case at_).1
  end.

(** Claim C26: A case is unique to its wallet and only moves forward. *)
Theorem radar_cases_advance db ops (Hwf : radar_wf db) :
  let db' := fold_left run_radar_op ops db in
  radar_wf db'
  ∧ ∀ r, r ∈ cases db → ∃ r', r' ∈ cases db' ∧ progressed r r'.
Proof.
  cbv zeta. change (advances db (fold_left run_radar_op ops db)).
  revert db Hwf. induction ops as [|o ops IH]; intros db Hwf; [by apply advances_refl|]. cbn [fold_left].
  assert (advances db (run_radar_op db o)) as A.
  { destruct o; simpl; [by apply ingest_advances|by apply evaluate_advances|by apply advances_event|].
    by apply advances_event. }
  eapply advances_trans; [exact A|]. apply IH, A.
Qed.

(** ** What opens and what promotes a case *)

(** Only a confirmed, large funding of a fresh wallet touches a case. *)
Theorem case_needs_confirmed_funding db clock ws event config pct :
  let db' := (ingest_funding_event from_u64 db clock ws event config pct).1 in
  cases db' ≠ cases db ∨ events db' ≠ events db →
  FundingEvent.commitment event ≠ Commitment.Processed
  ∧ recipient_is_fresh event config = true
  ∧ qualifies_as_large_funding from_u64 event config pct = true.
Proof.
  cbv zeta. unfold ingest_funding_event. cbv zeta.
  set (db1 := (store_funding_observation db event).1).
  assert (cases db1 = cases db ∧ events db1 = events db) as [E1 E2]
    by (unfold db1, store_funding_observation; by case_match).
  destruct (Commitment.ltb (FundingEvent.commitment event) Commitment.Confirmed) eqn:Ec;
    [cbn [fst]; rewrite E1, E2; naive_solver|].
  destruct (recipient_is_fresh event config); [cbn [negb]|cbn [fst negb]; rewrite E1, E2; naive_solver].
  destruct (qualifies_as_large_funding from_u64 event config pct); [|cbn [fst negb]; rewrite E1, E2; naive_solver].
  intros _. split_and!; [|done..]. intros E. by rewrite E in Ec.
Qed.

Lemma preparation_confidence_range case config kinds :
  55 <= preparation_confidence (D := D) case config kinds <= 95.
Proof. unfold preparation_confidence. repeat case_match; lia. Qed.

(** Each verdict of an evaluation and what it rests on. *)
Theorem evaluation_earned db clock ws chain recipient now config case
    (Hcase : fetch_case db ws chain recipient = Some case) :
  let id := FundingRadarCase.id case in
  let rows := evidence_rows db id now in
  let '(db', d) := evaluate_radar_case db clock ws chain recipient now config in
  previous_stage d = Some (FundingRadarCase.stage case)
  ∧ (d_stage d = FundingRadarCase.stage case → db' = db ∧ d_alert d = None)
  ∧ (d_stage d ≠ FundingRadarCase.stage case →
      match d_stage d with
      | RadarStage.Dismissed =>
          FundingRadarCase.stage case = RadarStage.Funded
          ∧ FundingRadarCase.deploy_window_ends_at case < now ∧ d_alert d = None
      | RadarStage.Deployed =>
          d_confidence d = 85 ∧ d_alert d = None ∧ ∃ e, e ∈ rows ∧ event_kind e = "deployment"
      | RadarStage.Preparation =>
          FundingRadarCase.stage case = RadarStage.Funded
          ∧ now <= FundingRadarCase.deploy_window_ends_at case
          ∧ FundingRadarConfig.preparation_evidence_required config <= Z.of_nat (size (kinds_of rows))
          ∧ (∃ e, e ∈ rows ∧ ev_infrastructure e ≠ Some true)
          ∧ 55 <= d_confidence d <= 95
          ∧ (is_Some (d_alert d) ↔ FundingRadarConfig.preparation_alert_confidence config <= d_confidence d)
      | RadarStage.Funded => False
      end).
Proof.
  clear from_u64. cbv zeta. unfold evaluate_radar_case. rewrite Hcase. cbv zeta.
  set (st := FundingRadarCase.stage case). set (rows := evidence_rows db (FundingRadarCase.id case) now).
  case_decide as Ht; [split_and!; [done|done|]; by intros []|].
  destruct ((FundingRadarCase.deploy_window_ends_at case <? now) && bool_decide (st = RadarStage.Funded)) eqn:Ew;
    cbn [d_stage d_alert d_confidence previous_stage].
  { apply andb_prop in Ew as [Ew%Z.ltb_lt Es%bool_decide_eq_true]. split; [done|].
    split; [intros E; rewrite <-E in Es; done|done]. }
  destruct (bool_decide ("deployment" ∈ kinds_of rows)) eqn:Ed;
    cbn [d_stage d_alert d_confidence previous_stage].
  { apply bool_decide_eq_true in Ed. split; [done|]. split; [intros E; exfalso; apply Ht; by right|]. intros _. split_and!; [done..|].
    unfold kinds_of in Ed. apply elem_of_list_to_set, list_elem_of_fmap in Ed as (e & E & He). by exists e. }
  destruct ((_ <=? _) && non_infrastructure rows && bool_decide (st = RadarStage.Funded)) eqn:Ep;
    cbn [d_stage d_alert d_confidence previous_stage].
  - apply andb_prop in Ep as [[Er%Z.leb_le Ei]%andb_prop Es%bool_decide_eq_true].
    split; [done|]. split; [intros E; rewrite <-E in Es; done|]. intros _.
    split; [done|]. split.
    { rewrite (bool_decide_eq_true_2 _ Es), andb_true_r in Ew. by apply Z.ltb_ge in Ew. }
    split; [done|]. split; [|split; [apply preparation_confidence_range|]].
    + unfold non_infrastructure in Ei. apply existsb_exists_elem in Ei as (e & He & Hn).
      exists e. split; [done|]. intros E. by rewrite E in Hn.
    + destruct (Z.leb_spec (FundingRadarConfig.preparation_alert_confidence config)
        (preparation_confidence case config (kinds_of rows))); [split; [done|by eexists]|].
      split; [by intros [? ?]|lia].
  - split; [done|]. split; [done|]. by intros [].
Qed.

(** A dismissed wallet cannot be funded again: the unique index refuses
    the second case. *)
Theorem refunding_dismissed_fails db clock ws event config pct case
    (Hcase : fetch_case db ws (FundingEvent.chain event) (FundingEvent.to_address event) = Some case)
    (Hdismissed : FundingRadarCase.stage case = RadarStage.Dismissed)
    (Hcommit : FundingEvent.commitment event ≠ Commitment.Processed)
    (Hfresh : recipient_is_fresh event config = true)
    (Hlarge : qualifies_as_large_funding from_u64 event config pct = true) :
  (ingest_funding_event from_u64 db clock ws event config pct).2 = RErr "funding_radar_cases_tenant_uidx".
Proof.
  unfold ingest_funding_event. cbv zeta.
  set (db1 := (store_funding_observation db event).1).
  assert (cases db1 = cases db) as E1 by (unfold db1, store_funding_observation; by case_match).
  assert (Commitment.ltb (FundingEvent.commitment event) Commitment.Confirmed = false) as ->
    by by destruct (FundingEvent.commitment event).
  rewrite Hfresh, Hlarge. cbn [negb].
  set (db2 := with_policy db1 _).
  assert (fetch_case db2 ws (FundingEvent.chain event) (FundingEvent.to_address event) = Some case) as ->.
  { rewrite <-Hcase. unfold fetch_case, db2. simpl. by rewrite E1. }
  rewrite decide_True by done.
  apply fetch_case_row in Hcase as (r & Hr & _ & Hk).
  unfold insert_case. cbv zeta.
  assert (existsb (case_key ws (ChainKind.as_str (FundingEvent.chain event)) (FundingEvent.to_address event))
    (cases db2) = true) as E.
  2: { match goal with |- context [existsb ?f ?l] => replace (existsb f l) with true by (symmetry; exact E) end. done. }
  apply existsb_exists_elem. exists r. split; [simpl; by rewrite E1|].
  unfold row_key in Hk. injection Hk as E2 E3 E4. unfold case_key.
  by rewrite E2, E3, E4, Z.eqb_refl, !bool_decide_eq_true_2.
Qed.
End life.

(** ** Instances *)

Definition from_u64_qc (z : Z) : Qc := Q2Qc (inject_Z z).

Definition sample_event : FundingEvent Qc :=
  FundingEvent.mk ChainKind.Solana "s1" (Some 1) 1000 Commitment.Confirmed "F" "R" AssetKind.Native ""
    "150" (from_u64_qc 150) (Some (from_u64_qc 30000)) None (Some 86400) None.

Definition empty_radar : radar_db Qc := MkRadar [] (MkLabels ∅ []) [] [] 1.

Lemma empty_radar_wf : radar_wf empty_radar.
Proof. split; simpl; try constructor; by intros r ?%not_elem_of_nil. Qed.

Abbreviation sample_ingest db := (ingest_funding_event from_u64_qc db 1000 7 sample_event FundingRadarConfig.default None).
Abbreviation sample_evaluate db now :=
  (evaluate_radar_case db now 7 ChainKind.Solana "R" now FundingRadarConfig.default).

Definition opened : radar_db Qc := (sample_ingest empty_radar).1.
Definition two_weeks : Z := 14 * 86400 * 10 ^ 9.
Definition dismissed : radar_db Qc := (sample_evaluate opened two_weeks).1.

Lemma radar_cases_advance_witness :
  radar_wf (fold_left (run_radar_op from_u64_qc)
    [OpIngest 1000 7 sample_event FundingRadarConfig.default None;
     OpEvaluate two_weeks 7 ChainKind.Solana "R" two_weeks FundingRadarConfig.default] empty_radar).
Proof. apply (radar_cases_advance from_u64_qc empty_radar), empty_radar_wf. Defined.

Lemma case_needs_confirmed_funding_witness :
  recipient_is_fresh sample_event FundingRadarConfig.default = true.
Proof.
  apply (case_needs_confirmed_funding from_u64_qc empty_radar 1000 7 sample_event FundingRadarConfig.default None).
  left. intros E. apply (f_equal length) in E. vm_compute in E. discriminate.
Defined.

Definition opened_case : FundingRadarCase Qc :=
  FundingRadarCase.mk 1 ChainKind.Solana "R" 1000 (Some (from_u64_qc 30000)) (from_u64_qc 150) "F" None 0
    (1000 + 7 * 86400 * 10 ^ 9) RadarStage.Funded 55 1000.

Lemma evaluation_earned_witness :
  previous_stage (sample_evaluate opened two_weeks).2 = Some RadarStage.Funded.
Proof.
  pose proof (evaluation_earned opened two_weeks 7 ChainKind.Solana "R" two_weeks FundingRadarConfig.default
    opened_case ltac:(vm_compute; reflexivity)) as H. cbv zeta in H. revert H.
  destruct (sample_evaluate opened two_weeks) as [db d]. by intros [? _].
Defined.

Lemma refunding_dismissed_fails_witness :
  (sample_ingest dismissed).2 = RErr "funding_radar_cases_tenant_uidx".
Proof.
  eapply (refunding_dismissed_fails from_u64_qc dismissed);
    [vm_compute; reflexivity|reflexivity|discriminate|reflexivity|vm_compute; reflexivity].
Defined.

(** One transfer delivered twice counts as two kinds of evidence: the case
    enters preparation on a single funding. *)
Theorem redelivery_promotes :
  let db := (sample_ingest opened).1 in
  length (observations db) = 1%nat
  ∧ d_stage (sample_evaluate opened 2000).2 = RadarStage.Funded
  ∧ d_stage (sample_evaluate db 2000).2 = RadarStage.Preparation.
Proof. vm_compute. done. Qed.
