(* ===== verification/Chains.v ===== *)
(** * Chain adapters (src/src/chains.rs)

    The Solana adapter's normalisation of a Helius payload and the EVM
    adapter: address validation, quantities, the normalisation of a block and
    its receipts, the fetches over JSON-RPC, and the funding event of a
    transfer.

    [bs58] is the base58 decoder (bs58), [from_timestamp] chrono's
    [DateTime::from_timestamp] in nanoseconds, [rpc] the JSON-RPC transport:
    its answers may depend on how many calls were made before.  A panic of
    the decimal arithmetic or of a slice is [Panicked]. *)
From S2P Require Import Prelude Text Slices Floats CostBasis Decimals Models Json FundingRadar.
From Stdlib Require Import QArith.QArith_base QArith.Qcanon.
From stdpp Require Import options.
Local Open Scope string_scope.
Local Open Scope Z_scope.
Local Open Scope list_scope.

Module NormalizedEvents.
Record NormalizedEvents (D : Type) := mk {
  transfers : list (NormalizedTransfer D);
  trades : list (NormalizedTrade D);
}.
Arguments mk {_}. Arguments transfers {_}. Arguments trades {_}.
End NormalizedEvents.
Abbreviation NormalizedEvents := NormalizedEvents.NormalizedEvents.

Definition LAMPORTS_PER_SOL : Z := 10 ^ 9.

Section chains.
Context {J D : Type} `{JsonValue J, DecimalNum D}.
Context (bs58 : string → option (list Z)) (from_timestamp : Z → option Z).

(** [result *= 10] in a loop: the product overflows at the 29th turn. *)
Fixpoint ten_pow_from (n : nat) (result : D) : outcome D :=
  match n with
  | O => Done result
  | S n => run! result := or_panic (d_mul_checked result (d_of_Z 10)) in ten_pow_from n result
  end.

Definition ten_pow (decimals : Z) : outcome D := ten_pow_from (Z.to_nat decimals) d_one.

(** ** Solana *)

Definition validate_solana_address (address : string) : result () :=
  let len := Z.of_nat (String.length address) in
  if (len <? 32) || (44 <? len) then RErr "solana address length outside 32..=44" else
  match bs58 address with
  | None => RErr "invalid base58 solana address"
  | Some decoded =>
      if negb (Z.of_nat (length decoded) =? 32) then RErr "solana address does not decode to 32 bytes"
      else ROk ()
  end.

Definition lamports_to_sol (lamports : Z) : D := d_div (d_of_Z lamports) (d_of_Z LAMPORTS_PER_SOL).

Definition raw_token_to_amount (raw : string) (decimals : Z) : outcome D :=
  match d_exact (trim raw) with
  | None => Failed "bad token amount"
  | Some raw => run! scale := ten_pow decimals in Done (d_div raw scale)
  end.

Definition format_amount_string (value : f64) : string :=
  if f64_is_integral value then pretty (f64_as_i64 value) else f64_display value.

(** What the events of one payload share. *)
Record payload_header := MkHeader {
  h_signature : string;
  h_slot : option Z;
  h_block_time : option Z;
  h_commitment : Commitment;
  h_observed_at : Z;
}.

Definition payload_signature (raw : J) : option string :=
  match str_field raw "signature" with Some s => Some s | None => str_field raw "transactionHash" end.

Definition payload_header_of (raw : J) (signature : string) (observed_at : Z) : payload_header :=
  MkHeader signature (j_get raw "slot" ≫= as_u64)
    ((j_get raw "timestamp" ≫= as_i64) ≫= from_timestamp)
    (default Commitment.Confirmed (str_field raw "commitment" ≫= Commitment.parse)) observed_at.

Definition solana_transfer (h : payload_header) (event_index : Z) (from to : string)
    (kind : AssetKind) (mint raw_amount : string) (amount : D) : NormalizedTransfer D :=
  NormalizedTransfer.mk ChainKind.Solana (h_signature h) event_index from to kind mint raw_amount
    amount (h_slot h) (h_block_time h) (h_observed_at h) "helius" (h_commitment h).

Definition native_transfer (h : payload_header) (index : nat) (transfer : J)
    : option (NormalizedTransfer D) :=
  let? from := str_field transfer "fromUserAccount" in
  let? to := str_field transfer "toUserAccount" in
  let? lamports := j_get transfer "amount" ≫= as_u64 in
  if negb (0 <? lamports) then None else
  if negb (is_ok (validate_solana_address from)) || negb (is_ok (validate_solana_address to))
  then None else
  Some (solana_transfer h (wrap_i32 (Z.of_nat index)) from to AssetKind.Native "" (pretty lamports)
          (lamports_to_sol lamports)).

Definition leg_decimals (leg : J) : option J := j_get leg "rawTokenAmount" ≫= λ r, j_get r "decimals".

Definition token_amount_field (transfer : J) : option f64 :=
  match j_get transfer "tokenAmount" ≫= as_f64 with
  | Some v => Some v
  | None => j_get transfer "rawTokenAmount" ≫= as_f64
  end.

Definition token_decimals (transfer : J) : Z :=
  wrap_u32 (default 6 (match j_get transfer "decimals" with
                       | Some d => Some d
                       | None => leg_decimals transfer end ≫= as_u64)).

(** One token transfer: skipped, refused with the whole payload, or one more. *)
Definition token_transfer (h : payload_header) (offset : nat) (transfer : J)
    : outcome (option (NormalizedTransfer D)) :=
  let from := default "" (str_field transfer "fromUserAccount") in
  let to := default "" (str_field transfer "toUserAccount") in
  let mint := default "" (str_field transfer "mint") in
  if bool_decide (from = "") || bool_decide (to = "") || bool_decide (mint = "") then Done None else
  if negb (is_ok (validate_solana_address from)) || negb (is_ok (validate_solana_address to))
     || negb (is_ok (validate_solana_address mint)) then Done None else
  match token_amount_field transfer with
  | None => Done None
  | Some value =>
      let amount_str := format_amount_string value in
      run! amount := raw_token_to_amount amount_str (token_decimals transfer) in
      Done (Some (solana_transfer h (wrap_i32 (1000000 + wrap_i32 (Z.of_nat offset))) from to
                    AssetKind.SplToken mint amount_str amount))
  end.

Definition token_step (h : payload_header) (transfers : list (NormalizedTransfer D))
    (item : nat * J) : outcome (list (NormalizedTransfer D)) :=
  run! t := token_transfer h item.1 item.2 in Done (transfers ++ option_list t).

(** [.ok()?] of an amount; a panic is not caught. *)
Definition amount_or_none (raw : string) (decimals : Z) : outcome (option D) :=
  match raw_token_to_amount raw decimals with
  | Done a => Done (Some a)
  | Failed _ => Done None
  | Panicked => Panicked
  end.

Definition build_trade (h : payload_header) (wallet : string) (side : TradeSide) (native_raw : string)
    (token_leg : option J) (dex : option string) : outcome (option (NormalizedTrade D)) :=
  if bool_decide (wallet = "") || negb (is_ok (validate_solana_address wallet)) then Done None else
  match token_leg with
  | None => Done None
  | Some leg =>
      match str_field leg "mint", j_get leg "rawTokenAmount" ≫= (λ r, str_field r "tokenAmount") with
      | Some mint, Some raw_token =>
          run! token := amount_or_none raw_token (wrap_u32 (default 6 (leg_decimals leg ≫= as_u64))) in
          match token with
          | None => Done None
          | Some token_amount =>
              run! native := amount_or_none native_raw 9 in
              Done ((λ native_amount,
                NormalizedTrade.mk ChainKind.Solana (h_signature h) 0 wallet mint side native_raw
                  raw_token native_amount token_amount None (h_slot h) (h_block_time h)
                  (h_observed_at h) dex "helius") <$> native)
          end
      | _, _ => Done None
      end
  end.

(** One direction of a swap, when both of its legs are named. *)
Definition swap_trade (h : payload_header) (wallet : string) (dex : option string) (side : TradeSide)
    (native : option string) (legs : option (list J)) : outcome (list (NormalizedTrade D)) :=
  match native, legs with
  | Some native_raw, Some legs =>
      run! t := build_trade h wallet side native_raw (head legs) dex in Done (option_list t)
  | _, _ => Done []
  end.

Definition swap_trades (h : payload_header) (raw : J) : outcome (list (NormalizedTrade D)) :=
  match j_get raw "events" ≫= λ e, j_get e "swap" with
  | Some swap =>
      if negb (is_object swap) then Done [] else
      let fee_payer := default "" (str_field raw "feePayer") in
      let dex := str_field raw "dexId" in
      let native_amount key := j_get swap key ≫= λ n, str_field n "amount" in
      let legs key := j_get swap key ≫= as_array in
      run! buys := swap_trade h fee_payer dex TradeSide.Buy (native_amount "nativeInput") (legs "tokenOutputs") in
      run! sells := swap_trade h fee_payer dex TradeSide.Sell (native_amount "nativeOutput") (legs "tokenInputs") in
      Done (buys ++ sells)
  | None => Done []
  end.

Definition indexed {A} (l : list A) : list (nat * A) := zip (seq 0 (length l)) l.

Definition field_items (raw : J) (key : string) : list (nat * J) :=
  indexed (default [] (j_get raw key ≫= as_array)).

Definition native_transfers (h : payload_header) (raw : J) : list (NormalizedTransfer D) :=
  omap (λ item, native_transfer h item.1 item.2) (field_items raw "nativeTransfers").

Definition normalize_helius_transaction (raw : J) (observed_at : Z) : outcome (NormalizedEvents D) :=
  match payload_signature raw with
  | None => Failed "helius payload missing signature"
  | Some signature =>
      let h := payload_header_of raw signature observed_at in
      run! transfers := fold_outcome (token_step h) (native_transfers h raw)
                          (field_items raw "tokenTransfers") in
      run! trades := swap_trades h raw in
      Done (NormalizedEvents.mk transfers trades)
  end.

(** ** EVM *)

Definition ERC20_TRANSFER_TOPIC : string :=
  "0xddf252ad1be2c89b69c2b068fc378daa952ba7f163c4a11628f55a4df523b3ef".

Definition parse_hex_quantity (value : string) : option Z :=
  let? hex := match strip_prefix "0x" value with Some h => Some h | None => strip_prefix "0X" value end in
  if bool_decide (hex = "") then Some 0 else from_str_radix 16 u64_max hex.

(** [None] is the panic of a slice inside a character. *)
Definition decode_topic_address (topic : string) : outcome (option string) :=
  if negb (Z.of_nat (String.length topic) =? 66) then Done None else
  if negb (char_boundary 26 topic) then Panicked else
  let address := String.substring 26 40 topic in
  if negb (all_chars is_ascii_hexdigit address) then Done None
  else Done (Some ("0x" +:+ to_ascii_lowercase address)).

Definition validate_evm_address (address : string) : result () :=
  if negb (starts_with "0x" address) || negb (Z.of_nat (String.length address) =? 42)
  then RErr "evm address must be 0x + 40 hex characters" else
  if negb (all_chars is_ascii_hexdigit (String.substring 2 40 address))
  then RErr "evm address contains non-hex characters" else ROk ().

Definition u128_max : Z := 2 ^ 128 - 1.

(** [Decimal::from] of a value above 96 bits panics. *)
Definition raw_to_decimal (raw : string) (decimals : Z) : outcome D :=
  let trimmed := trim raw in
  let value := match strip_prefix "0x" trimmed with
               | Some hex => from_str_radix 16 u128_max hex
               | None => from_str_radix 10 u128_max trimmed
               end in
  match value with
  | None => Failed "bad amount"
  | Some value =>
      run! scale := ten_pow decimals in
      if value <? 2 ^ 96 then Done (d_div (d_of_Z value) scale) else Panicked
  end.

Abbreviation seen_set := (gset (string * Z)).
Abbreviation block_state := (gset (string * Z) * list (NormalizedTransfer D))%type.

Record block_header := MkBlock { b_number : Z; b_time : option Z; b_observed_at : Z }.

Definition evm_transfer (b : block_header) (hash : string) (event_index : Z) (from to : string)
    (kind : AssetKind) (mint : string) (value : Z) (amount : D) : NormalizedTransfer D :=
  NormalizedTransfer.mk ChainKind.Robinhood hash event_index from to kind mint (pretty value) amount
    (Some (b_number b)) (b_time b) (b_observed_at b) "robinhood_rpc" Commitment.Confirmed.

(** [if seen.insert(..) { push }]. *)
Definition push_once (b : block_header) (st : block_state) (hash : string) (event_index : Z)
    (from to : string) (kind : AssetKind) (mint : string) (value : Z) : outcome block_state :=
  let '(seen, out) := st in
  if bool_decide ((hash, event_index) ∈ seen) then Done (seen, out) else
  run! amount := raw_to_decimal (pretty value) 18 in
  Done ({[(hash, event_index)]} ∪ seen, out ++ [evm_transfer b hash event_index from to kind mint value amount]).

Definition block_tx (b : block_header) (st : block_state) (tx : J) : outcome block_state :=
  let field key := default "" (str_field tx key) in
  let value := default 0 (parse_hex_quantity (default "0x0" (str_field tx "value"))) in
  if bool_decide (field "hash" = "") || bool_decide (field "from" = "") || bool_decide (field "to" = "")
     || (value =? 0) then Done st else
  if negb (is_ok (validate_evm_address (field "from"))) || negb (is_ok (validate_evm_address (field "to")))
  then Done st else
  push_once b st (field "hash") 0 (to_ascii_lowercase (field "from")) (to_ascii_lowercase (field "to"))
    AssetKind.Native "" value.

Definition receipt_log (b : block_header) (hash : string) (st : block_state) (item : nat * J)
    : outcome block_state :=
  let '(log_index, log) := item in
  match j_get log "topics" ≫= as_array with
  | Some (t0 :: t1 :: t2 :: _) =>
      let text t := default "" (as_str t) in
      if negb (bool_decide (to_ascii_lowercase (text t0) = ERC20_TRANSFER_TOPIC)) then Done st else
      run! from := decode_topic_address (text t1) in
      match from with
      | None => Done st
      | Some from =>
          run! to := decode_topic_address (text t2) in
          match to with
          | None => Done st
          | Some to =>
              let mint := to_ascii_lowercase (default "" (str_field log "address")) in
              let value := default 0 (parse_hex_quantity (default "0x0" (str_field log "data"))) in
              if (value =? 0) || bool_decide (mint = "") then Done st else
              push_once b st hash (wrap_i32 (1000000 + wrap_i32 (Z.of_nat log_index))) from to
                AssetKind.Erc20 mint value
          end
      end
  | _ => Done st
  end.

Definition block_receipt (b : block_header) (st : block_state) (receipt : J) : outcome block_state :=
  let hash := default "" (str_field receipt "transactionHash") in
  if bool_decide (hash = "") then Done st else
  match j_get receipt "logs" ≫= as_array with
  | None => Done st
  | Some logs => fold_outcome (receipt_log b hash) st (indexed logs)
  end.

Definition normalize_block (block : J) (receipts : list J) (observed_at : Z)
    : outcome (NormalizedEvents D) :=
  match str_field block "number" ≫= parse_hex_quantity with
  | None => Failed "block missing number"
  | Some block_number =>
      let b := MkBlock block_number
        ((str_field block "timestamp" ≫= parse_hex_quantity) ≫= λ ts, from_timestamp (wrap_i64 ts))
        observed_at in
      run! st := fold_outcome (block_tx b) (∅, []) (default [] (j_get block "transactions" ≫= as_array)) in
      run! st := fold_outcome (block_receipt b) st receipts in
      Done (NormalizedEvents.mk st.2 [])
  end.

(** ** The adapter over its transport *)

Record RobinhoodAdapter := MkAdapter {
  chain_id : string;
  native_decimals : Z;
  start_block : Z;
  validated : bool;
}.

Definition adapter_new (chain_id : string) (native_decimals start_block : Z) : RobinhoodAdapter :=
  MkAdapter chain_id native_decimals start_block false.

(** ** The transport *)

Record HttpEvmRpc := MkHttpEvmRpc { rpc_url : string; rpc_timeout : Z }.

(** [built]: whether the HTTP client could be made. *)
Definition evm_rpc_new (url : string) (timeout_seconds : Z) (built : bool) : result HttpEvmRpc :=
  if blank url then RErr "evm rpc url is empty" else
  if built then ROk (MkHttpEvmRpc url (Z.max timeout_seconds 1)) else RErr "failed to build http client".

(** What a POST meets: no connection, or a status and a body that may not be JSON. *)
Inductive RpcReply := NoConnection | Response (success : bool) (body : option J).

Definition rpc_body (id method : string) (params : J) : J :=
  j_object [("jsonrpc", j_str "2.0"); ("id", j_str ("swi-" +:+ id)); ("method", j_str method); ("params", params)].

(** The answers and the ids of the requests, by their number. *)
Definition rpc_call (post : nat → string → J → RpcReply) (uuid : nat → string) (client : HttpEvmRpc)
    (n : nat) (method : string) (params : J) : result J :=
  match post n (rpc_url client) (rpc_body (uuid n) method params) with
  | NoConnection => RErr "evm rpc network error"
  | Response false _ => RErr "evm rpc http status"
  | Response true None => RErr "evm rpc decode error"
  | Response true (Some value) =>
      match j_get value "error" with
      | Some _ => RErr "evm rpc error"
      | None => ROk (default j_null (j_get value "result"))
      end
  end.

(** The [n]-th call, and its answer. *)
Context (rpc : nat → string → J → result J).

Definition validate_chain_id (a : RobinhoodAdapter) (n : nat) : RobinhoodAdapter * result () :=
  match rpc n "eth_chainId" (j_array []) with
  | RErr e => (a, RErr e)
  | ROk value =>
      match as_str value with
      | None => (a, RErr "eth_chainId returned non-string result")
      | Some hex =>
          match parse_hex_quantity hex with
          | None => (a, RErr ("eth_chainId returned malformed value " +:+ hex))
          | Some returned =>
              match parse_hex_quantity ("0x" +:+ chain_id a) with
              | None => (a, RErr "configured robinhood chain_id is malformed")
              | Some expected =>
                  if negb (returned =? expected)
                  then (a, RErr ("robinhood chain id mismatch: rpc returned " +:+ lower_hex returned
                                 +:+ ", configured " +:+ lower_hex expected))
                  else (MkAdapter (chain_id a) (native_decimals a) (start_block a) true, ROk ())
              end
          end
      end
  end.

(** The receipts of the transactions that name a hash, in order. *)
Fixpoint fetch_receipts (n : nat) (txs : list J) : result (list J) :=
  match txs with
  | [] => ROk []
  | tx :: txs =>
      match str_field tx "hash" with
      | None => fetch_receipts n txs
      | Some hash =>
          let! receipt := rpc n "eth_getTransactionReceipt" (j_array [j_str hash]) in
          let! receipts := fetch_receipts (S n) txs in
          ROk (receipt :: receipts)
      end
  end.

Definition fetch_block_events (n : nat) (block_number observed_at : Z) : outcome (NormalizedEvents D) :=
  match rpc n "eth_getBlockByNumber" (j_array [j_str (lower_hex block_number); j_bool true]) with
  | RErr e => Failed e
  | ROk block =>
      if negb (is_object block) then Failed "eth_getBlockByNumber returned non-object" else
      run! receipts := of_result (fetch_receipts (S n) (default [] (j_get block "transactions" ≫= as_array))) in
      normalize_block block receipts observed_at
  end.

Definition current_block (n : nat) : result Z :=
  let! value := rpc n "eth_blockNumber" (j_array []) in
  match as_str value with
  | None => RErr "eth_blockNumber non-string"
  | Some hex => match parse_hex_quantity hex with
                | Some b => ROk b
                | None => RErr "eth_blockNumber malformed"
                end
  end.

Definition fetch_logs (n : nat) (from_block to_block : Z) (address : option string) : result (list J) :=
  let filter := j_object ([("fromBlock", j_str (lower_hex from_block)); ("toBlock", j_str (lower_hex to_block))]
                          ++ option_list ((λ a, ("address", j_str a)) <$> address)) in
  let! value := rpc n "eth_getLogs" (j_array [filter]) in
  match as_array value with Some logs => ROk logs | None => RErr "eth_getLogs returned non-array" end.

(** ** The funding event of a transfer *)

Definition transfer_to_funding_event (t : NormalizedTransfer D) (native_usd_price : option D)
    (recipient_age_seconds : option Z) (source_kind : option WalletLabelKind)
    : outcome (FundingEvent D) :=
  let native := bool_decide (NormalizedTransfer.asset_kind t = AssetKind.Native) in
  run! amount_usd :=
    match native, native_usd_price with
    | true, Some price => run! v := or_panic (d_mul_checked (NormalizedTransfer.amount t) price) in Done (Some v)
    | _, _ => Done None
    end in
  Done (FundingEvent.mk (NormalizedTransfer.chain t) (NormalizedTransfer.signature t)
          (NormalizedTransfer.slot t) (NormalizedTransfer.observed_at t)
          (NormalizedTransfer.commitment t) (NormalizedTransfer.from_address t)
          (NormalizedTransfer.to_address t) (NormalizedTransfer.asset_kind t)
          (NormalizedTransfer.mint t) (NormalizedTransfer.raw_amount t)
          (if native then NormalizedTransfer.amount t else d_zero)
          amount_usd native_usd_price recipient_age_seconds source_kind).
End chains.

(** ** Quantities and addresses *)

Lemma substring_full s : String.substring 0 (String.length s) s = s.
Proof. induction s as [|c s IH]; simpl; [done|]. by rewrite IH. Qed.

Lemma substring_length n m s : (n + m <= String.length s)%nat → String.length (String.substring n m s) = m.
Proof.
  revert m s. induction n as [|n IH]; intros m s Hl.
  - revert m Hl. induction s as [|c s IHs]; intros [|m] Hl; simpl in *; [done|lia|done|].
    rewrite IHs; [done|lia].
  - destruct s as [|c s]; simpl in *; [lia|]. apply IH. lia.
Qed.

Lemma substring_skip c1 c2 s k :
  String.length s = k → String.substring 2 k (String c1 (String c2 s)) = s.
Proof. intros <-. cbn [String.substring]. apply substring_full. Qed.

Lemma hexdigit_lower c : is_ascii_hexdigit c = true → is_ascii_hexdigit (ascii_lower c) = true.
Proof. destruct c as [[] [] [] [] [] [] [] []]; by vm_compute. Qed.

Lemma length_lower s : String.length (to_ascii_lowercase s) = String.length s.
Proof. induction s as [|c s IH]; simpl; [done|]. by rewrite IH. Qed.

Lemma all_hex_lower s :
  all_chars is_ascii_hexdigit s = true → all_chars is_ascii_hexdigit (to_ascii_lowercase s) = true.
Proof.
  unfold all_chars. induction s as [|c s IH]; simpl; [done|].
  intros [Hc Hs]%andb_prop. by rewrite hexdigit_lower, IH.
Qed.

(** A lower-case 0x-address of twenty bytes. *)
Definition evm_address (a : string) : Prop :=
  validate_evm_address a = ROk () ∧ to_ascii_lowercase a = a.

Lemma evm_address_of r : String.length r = 40%nat → all_chars is_ascii_hexdigit r = true →
  evm_address ("0x" +:+ to_ascii_lowercase r).
Proof.
  intros Hl Hh. split.
  - unfold validate_evm_address. rewrite starts_with_app. rewrite str_length_app, length_lower, Hl.
    cbn [String.length Nat.add Z.of_nat]. change ((Z.of_nat 42 =? 42)) with true. cbn [negb orb].
    change ("0x" +:+ to_ascii_lowercase r) with (String "0" (String "x" (to_ascii_lowercase r))).
    rewrite substring_skip by by rewrite length_lower. by rewrite all_hex_lower.
  - rewrite to_ascii_lowercase_app, to_ascii_lowercase_idem. done.
Qed.

Lemma validated_lower a : validate_evm_address a = ROk () → evm_address (to_ascii_lowercase a).
Proof.
  unfold validate_evm_address. destruct (starts_with "0x" a) eqn:Es; [|done]. cbn [negb orb].
  destruct (Z.of_nat (String.length a) =? 42) eqn:El; [|done]. cbn [negb].
  unfold starts_with in Es. destruct (strip_prefix "0x" a) as [r|] eqn:Ep; [|done].
  apply strip_prefix_Some in Ep as ->.
  apply Z.eqb_eq in El. rewrite str_length_app in El. change (String.length "0x") with 2%nat in El.
  assert (String.length r = 40%nat) as Hr by lia.
  change ("0x" +:+ r) with (String "0" (String "x" r)). rewrite substring_skip by done.
  destruct (all_chars is_ascii_hexdigit r) eqn:Eh; [|done]. intros _.
  change (to_ascii_lowercase (String "0" (String "x" r))) with ("0x" +:+ to_ascii_lowercase r).
  by apply evm_address_of.
Qed.

Lemma decode_topic_evm topic a : decode_topic_address topic = Done (Some a) → evm_address a.
Proof.
  unfold decode_topic_address. destruct (Z.of_nat (String.length topic) =? 66) eqn:El; [|done]. cbn [negb].
  destruct (char_boundary 26 topic); [|done]. cbn [negb].
  destruct (all_chars is_ascii_hexdigit (String.substring 26 40 topic)) eqn:Eh; [|done].
  intros [= <-]. apply evm_address_of; [|done]. apply substring_length. lia.
Qed.

Lemma parse_hex_bound s v : parse_hex_quantity s = Some v → 0 <= v <= u64_max.
Proof.
  unfold parse_hex_quantity. destruct (match strip_prefix "0x" s with Some _ => _ | None => _ end) as [h|]; [|done].
  case_bool_decide; [intros [= <-]; unfold u64_max; lia|]. by apply from_str_radix_range.
Qed.

(** A number printed has no sign to strip. *)
Lemma from_str_radix_hex n : 0 <= n <= u64_max → from_str_radix 16 u64_max (hex_from 16 n) = Some n.
Proof.
  intros Hn. assert (radix_value 16 0 (hex_from 16 n) = Some n) as Hv.
  { apply hex_from_value. unfold u64_max in Hn. change (16 ^ Z.of_nat 16) with (2 ^ 64). lia. }
  destruct (hex_from_head 15 n) as (d & s & Hd & E); [lia|].
  assert (hex_digit d ≠ "+"%char) as Hp.
  { intros Ep. pose proof (digit_value_hex d Hd) as Hx. rewrite Ep in Hx. by vm_compute in Hx. }
  revert Hv. generalize (hex_from 16 n), E. clear E. intros h -> Hv. generalize (hex_digit d), Hp, Hv.
  clear -Hn. intros c Hc Hv. unfold from_str_radix.
  assert (match String c s with String "+" (String c b) => String c b | _ => String c s end = String c s) as ->.
  { destruct c as [[] [] [] [] [] [] [] []]; try reflexivity. by destruct Hc. }
  rewrite bool_decide_eq_false_2 by done. rewrite Hv. cbn beta iota.
  destruct (Z.leb_spec n u64_max); [done|lia].
Qed.

(** The block numbers a request prints are the ones a quantity reads
    back, and a quantity is always a u64. *)
Theorem hex_quantity_roundtrip :
  (∀ n, 0 <= n <= u64_max → parse_hex_quantity (lower_hex n) = Some n)
  ∧ (∀ s v, parse_hex_quantity s = Some v → 0 <= v <= u64_max).
Proof.
  split; [|apply parse_hex_bound]. intros n Hn. unfold parse_hex_quantity, lower_hex.
  rewrite (proj2 (strip_prefix_Some "0x" _ (hex_from 16 n)) eq_refl). cbn beta iota.
  rewrite from_str_radix_hex by done. case_bool_decide as E; [|done].
  destruct (hex_from_head 15 n) as (d & s & _ & E'); [lia|]. by rewrite E' in E.
Qed.

Lemma fold_outcome_inv {A S} (P : S → Prop) (step : S → A → outcome S) l s s' :
  (∀ s x s', P s → step s x = Done s' → P s') →
  P s → fold_outcome step s l = Done s' → P s'.
Proof.
  intros Hstep. revert s. induction l as [|x l IH]; intros s Hs; simpl; [by intros [= <-]|].
  destruct (step s x) as [s1| |] eqn:E; [|done..]. by apply IH, (Hstep _ _ _ Hs E).
Qed.

(** ** What a block normalises to *)

Section normalised.
Set Default Proof Using "Type".
Context {J D : Type} `{JsonValue J, DecimalNum D}.

Definition transfer_key (t : NormalizedTransfer D) : string * Z :=
  (NormalizedTransfer.signature t, NormalizedTransfer.event_index t).

(** A transfer of a block: between two addresses, of an amount that a u64
    holds and whose decimal is exactly that over 10^18. *)
Definition evm_wf (b : block_header) (t : NormalizedTransfer D) : Prop :=
  evm_address (NormalizedTransfer.from_address t) ∧ evm_address (NormalizedTransfer.to_address t)
  ∧ NormalizedTransfer.chain t = ChainKind.Robinhood
  ∧ NormalizedTransfer.slot t = Some (b_number b)
  ∧ ∃ v, 0 < v <= u64_max ∧ NormalizedTransfer.raw_amount t = pretty v
      ∧ raw_to_decimal (pretty v) 18 = Done (NormalizedTransfer.amount t).

Definition block_inv (b : block_header) (st : gset (string * Z) * list (NormalizedTransfer D)) : Prop :=
  NoDup (transfer_key <$> st.2) ∧ (∀ k, k ∈ transfer_key <$> st.2 → k ∈ st.1) ∧ Forall (evm_wf b) st.2.

Lemma push_once_inv b st hash i from to kind mint v st' :
  evm_address from → evm_address to → 0 < v <= u64_max →
  block_inv b st → push_once b st hash i from to kind mint v = Done st' → block_inv b st'.
Proof.
  intros Hf Ht Hv. destruct st as [seen out]. intros (Hnd & Hin & Hwf). unfold push_once.
  case_bool_decide as Hs; [by intros [= <-]|].
  destruct (raw_to_decimal (pretty v) 18) as [amount| |] eqn:Ea; [|done..]. intros [= <-].
  unfold block_inv. cbn [fst snd] in *. rewrite fmap_app. cbn [fmap list_fmap]. split_and!.
  - apply NoDup_app. split_and!; [done| |by apply NoDup_singleton].
    intros k Hk ->%list_elem_of_singleton. by apply Hs, Hin.
  - intros k [Hk|Hk]%elem_of_app; [apply Hin in Hk; set_solver|].
    apply list_elem_of_singleton in Hk as ->. set_solver.
  - apply Forall_app. split; [done|]. constructor; [|done]. split_and!; [done..|]. by exists v.
Qed.

Lemma parsed_positive s v : (default 0 (parse_hex_quantity s) =? 0) = false →
  default 0 (parse_hex_quantity s) = v → 0 < v <= u64_max.
Proof.
  destruct (parse_hex_quantity s) as [w|] eqn:E; cbn [default from_option id]; [|done].
  apply parse_hex_bound in E. intros Hz <-. apply Z.eqb_neq in Hz. lia.
Qed.

Lemma block_tx_inv b st tx st' : block_inv b st → block_tx b st tx = Done st' → block_inv b st'.
Proof using Type.
  intros Hi. unfold block_tx. cbv zeta. destruct (_ || (_ =? 0)) eqn:Eg; [by intros [= <-]|].
  apply orb_false_iff in Eg as [_ Ez].
  destruct (validate_evm_address (default "" (str_field tx "from"))) as [[]|e] eqn:Ef; cbn [is_ok negb orb];
    [|by intros [= <-]].
  destruct (validate_evm_address (default "" (str_field tx "to"))) as [[]|e] eqn:Et; cbn [is_ok negb orb];
    [|by intros [= <-]].
  intros Hp. apply push_once_inv in Hp; [done|by apply validated_lower..|by eapply parsed_positive|done].
Qed.

Lemma receipt_log_inv b hash st item st' :
  block_inv b st → receipt_log b hash st item = Done st' → block_inv b st'.
Proof.
  intros Hi. unfold receipt_log. destruct item as [i log].
  destruct (j_get log "topics" ≫= as_array) as [[|t0 [|t1 [|t2 rest]]]|]; try (by intros [= <-]).
  destruct (negb _); [by intros [= <-]|].
  destruct (decode_topic_address (default "" (as_str t1))) as [[from|]| |] eqn:Ef; try done; [|by intros [= <-]].
  destruct (decode_topic_address (default "" (as_str t2))) as [[to|]| |] eqn:Et; try done; [|by intros [= <-]].
  cbv zeta. destruct (_ || _) eqn:Eg; [by intros [= <-]|]. apply orb_false_iff in Eg as [Ez _].
  intros Hp. apply push_once_inv in Hp; [done|by eapply decode_topic_evm..|by eapply parsed_positive|done].
Qed.

Lemma block_receipt_inv b st receipt st' :
  block_inv b st → block_receipt b st receipt = Done st' → block_inv b st'.
Proof.
  intros Hi. unfold block_receipt. case_bool_decide; [by intros [= <-]|].
  destruct (j_get receipt "logs" ≫= as_array) as [logs|]; [|by intros [= <-]].
  apply (fold_outcome_inv (block_inv b)); [|done]. intros s x s'. apply receipt_log_inv.
Qed.

Context (bs58 : string → option (list Z)) (from_timestamp : Z → option Z).

(** The transfers of a block have pairwise different keys, run between
    well-formed lower-case addresses, move a positive amount of at most a
    u64, carry the block's own number, and are all there is: no trade. *)
Theorem block_transfers_wellformed (block : J) receipts at_ (events : NormalizedEvents D)
    (Hn : normalize_block from_timestamp block receipts at_ = Done events) :
  ∃ b, str_field block "number" ≫= parse_hex_quantity = Some (b_number b)
    ∧ NoDup (transfer_key <$> NormalizedEvents.transfers events)
    ∧ Forall (evm_wf b) (NormalizedEvents.transfers events)
    ∧ NormalizedEvents.trades events = [].
Proof.
  unfold normalize_block in Hn. destruct (str_field block "number" ≫= parse_hex_quantity) as [n|]; [|done].
  set (b := MkBlock n _ _) in Hn.
  destruct (fold_outcome (block_tx b) _ _) as [st1| |] eqn:E1; [|done..].
  destruct (fold_outcome (block_receipt b) st1 receipts) as [st2| |] eqn:E2; [|done..].
  injection Hn as <-. exists b. split; [done|].
  apply (fold_outcome_inv (block_inv b)) in E1.
  - apply (fold_outcome_inv (block_inv b)) in E2; [|intros s x s'; apply block_receipt_inv|done].
    destruct E2 as (Hnd & _ & Hwf). done.
  - intros s x s'. apply block_tx_inv.
  - split_and!; [constructor|by intros k ?%not_elem_of_nil|constructor].
Qed.

(** ** What a Helius payload normalises to *)

Definition solana_address (a : string) : Prop := validate_solana_address bs58 a = ROk ().

Definition items_of (raw : J) (key : string) : list J := default [] (j_get raw key ≫= as_array).

(** What the events of the payload [raw] carry of it. *)
Definition header_of (raw : J) (at_ : Z) (h : payload_header) : Prop :=
  (str_field raw "signature" = Some (h_signature h)
   ∨ str_field raw "signature" = None ∧ str_field raw "transactionHash" = Some (h_signature h))
  ∧ h_slot h = (j_get raw "slot" ≫= as_u64)
  ∧ h_block_time h = (j_get raw "timestamp" ≫= as_i64) ≫= from_timestamp
  ∧ h_commitment h = default Commitment.Confirmed (str_field raw "commitment" ≫= Commitment.parse)
  ∧ h_observed_at h = at_.

(** The transfer of a lamports item: at its place, of its amount over 10^9. *)
Definition native_event (h : payload_header) (i : Z) (x : J) (t : NormalizedTransfer D) : Prop :=
  ∃ from to v, str_field x "fromUserAccount" = Some from ∧ str_field x "toUserAccount" = Some to
  ∧ j_get x "amount" ≫= as_u64 = Some v ∧ 0 < v ∧ solana_address from ∧ solana_address to
  ∧ t = NormalizedTransfer.mk ChainKind.Solana (h_signature h) i from to AssetKind.Native "" (pretty v)
          (d_div (d_of_Z v) (d_of_Z (10 ^ 9))) (h_slot h) (h_block_time h) (h_observed_at h) "helius" (h_commitment h).

(** The transfer of a token item: behind the first million places, of the
    amount the item states over its decimals. *)
Definition token_event (h : payload_header) (i : Z) (x : J) (t : NormalizedTransfer D) : Prop :=
  ∃ from to mint value amount, str_field x "fromUserAccount" = Some from ∧ str_field x "toUserAccount" = Some to
  ∧ str_field x "mint" = Some mint ∧ from ≠ "" ∧ to ≠ "" ∧ mint ≠ ""
  ∧ solana_address from ∧ solana_address to ∧ solana_address mint
  ∧ token_amount_field x = Some value
  ∧ raw_token_to_amount (format_amount_string value) (token_decimals x) = Done amount
  ∧ t = NormalizedTransfer.mk ChainKind.Solana (h_signature h) (1000000 + i) from to AssetKind.SplToken mint
          (format_amount_string value) amount (h_slot h) (h_block_time h) (h_observed_at h) "helius" (h_commitment h).

(** The trade of one direction of a swap: of the fee payer, the native amount
    stated under [native_key] against the first leg under [legs_key]. *)
Definition trade_event (h : payload_header) (raw : J) (side : TradeSide) (native_key legs_key : string)
    (t : NormalizedTrade D) : Prop :=
  ∃ swap payer n native_raw legs leg mint q token_raw native_amount token_amount,
    j_get raw "events" ≫= (λ e, j_get e "swap") = Some swap ∧ is_object swap = true
    ∧ str_field raw "feePayer" = Some payer ∧ payer ≠ "" ∧ solana_address payer
    ∧ j_get swap native_key = Some n ∧ str_field n "amount" = Some native_raw
    ∧ j_get swap legs_key ≫= as_array = Some legs ∧ head legs = Some leg
    ∧ str_field leg "mint" = Some mint ∧ j_get leg "rawTokenAmount" = Some q ∧ str_field q "tokenAmount" = Some token_raw
    ∧ raw_token_to_amount native_raw 9 = Done native_amount
    ∧ raw_token_to_amount token_raw (wrap_u32 (default 6 (j_get q "decimals" ≫= as_u64))) = Done token_amount
    ∧ t = NormalizedTrade.mk ChainKind.Solana (h_signature h) 0 payer mint side native_raw token_raw native_amount token_amount
            None (h_slot h) (h_block_time h) (h_observed_at h) (str_field raw "dexId") "helius".

(** The places of a list's events in the payload. *)
Definition native_index (i : nat) : Z := wrap_i32 (Z.of_nat i).
Definition token_index (i : nat) : Z := wrap_i32 (1000000 + wrap_i32 (Z.of_nat i)).

Lemma is_ok_unit (r : result ()) : is_ok r = true → r = ROk ().
Proof. by destruct r as [[]|]. Qed.

Lemma is_ok_validate a : is_ok (validate_solana_address bs58 a) = true ↔ solana_address a.
Proof. split; [apply is_ok_unit|]. unfold solana_address. by intros ->. Qed.

Lemma native_transfer_iff h i (x : J) t : native_transfer bs58 h i x = Some t ↔ native_event h (native_index i) x t.
Proof.
  unfold native_transfer, native_event. split.
  - destruct (str_field x "fromUserAccount") as [from|]; [|done].
    destruct (str_field x "toUserAccount") as [to|]; [|done].
    destruct (j_get x "amount" ≫= as_u64) as [v|]; [|done].
    destruct (Z.ltb_spec 0 v); [|done]. cbn [negb].
    destruct (is_ok (validate_solana_address bs58 from)) eqn:Ef; [|done].
    destruct (is_ok (validate_solana_address bs58 to)) eqn:Et; [|done]. intros [= <-].
    exists from, to, v. by rewrite <-!is_ok_validate.
  - intros (from & to & v & -> & -> & -> & Hv & Hf%is_ok_validate & Ht%is_ok_validate & ->).
    by rewrite (proj2 (Z.ltb_lt 0 v)), Hf, Ht.
Qed.

Lemma str_field_default (x : J) key a : a ≠ "" → default "" (str_field x key) = a → str_field x key = Some a.
Proof. destruct (str_field x key); cbn; congruence. Qed.

Lemma token_transfer_iff h i (x : J) t : token_transfer bs58 h i x = Done (Some t) ↔
  token_event h (token_index i - 1000000) x t.
Proof.
  unfold token_transfer, token_event. replace (1000000 + (token_index i - 1000000)) with (token_index i) by lia. cbv zeta. split.
  - destruct (bool_decide_reflect (default "" (str_field x "fromUserAccount") = "")) as [|Nf]; [done|].
    destruct (bool_decide_reflect (default "" (str_field x "toUserAccount") = "")) as [|Nt]; [done|].
    destruct (bool_decide_reflect (default "" (str_field x "mint") = "")) as [|Nm]; [done|]. cbn [orb].
    destruct (_ || _) eqn:Ev; [done|]. apply orb_false_iff in Ev as [[Vf Vt]%orb_false_iff Vm].
    apply negb_false_iff, is_ok_validate in Vf, Vt, Vm. destruct (token_amount_field x) as [v|]; [|done].
    destruct (raw_token_to_amount _ _) as [a| |] eqn:Ea; [|done..]. intros [= <-].
    exists (default "" (str_field x "fromUserAccount")), (default "" (str_field x "toUserAccount")), (default "" (str_field x "mint")), v, a.
    split_and!; try done; by apply str_field_default.
  - intros (from & to & mint & v & a & -> & -> & -> & Nf & Nt & Nm & Vf & Vt & Vm & -> & Ea & ->). cbn [from_option id].
    rewrite !bool_decide_eq_false_2 by done. apply is_ok_validate in Vf, Vt, Vm. cbn [from_option id]. by rewrite Vf, Vt, Vm, Ea.
Qed.

Lemma omap_sublist {A B C} (f : A → option B) (g : B → C) (k : A → C) l :
  (∀ x y, f x = Some y → g y = k x) → (g <$> omap f l) `sublist_of` (k <$> l).
Proof using Type.
  intros Hk. induction l as [|x l IH]; cbn [omap list_omap fmap list_fmap]; [done|].
  destruct (f x) as [y|] eqn:E; [|by constructor].
  cbn [fmap list_fmap]. rewrite (Hk _ _ E). by constructor.
Qed.

Lemma indexed_fst {A} (l : list A) : fst <$> indexed l = seq 0 (length l).
Proof using Type. unfold indexed. rewrite fst_zip; [done|]. rewrite length_seq. lia. Qed.

Lemma token_fold h items acc out : fold_outcome (token_step bs58 h) acc items = Done out →
  ∃ new, out = acc ++ new ∧ (∀ t, t ∈ new ↔ ∃ i x, (i, x) ∈ items ∧ token_transfer bs58 h i x = Done (Some t))
    ∧ (NormalizedTransfer.event_index <$> new) `sublist_of` (token_index ∘ fst <$> items).
Proof.
  revert acc. induction items as [|[i x] items IH]; intros acc; cbn [fold_outcome].
  { intros [= <-]. exists []. rewrite app_nil_r. split_and!; [done| |done]. intros t.
    split; [by intros ?%not_elem_of_nil|by intros (? & ? & ?%not_elem_of_nil & _)]. }
  unfold token_step at 1. cbn [fst snd].
  destruct (token_transfer bs58 h i x) as [o| |] eqn:E; [|done..].
  intros (new & -> & Hin & Hs)%IH. exists (option_list o ++ new). rewrite <-(assoc_L (++)).
  split_and!; [done| |].
  - intros t. rewrite elem_of_app, Hin. setoid_rewrite elem_of_cons. split.
    + intros [Ht|(i' & x' & Hx & Ht)]; [|naive_solver]. exists i, x. split; [by left|].
      destruct o as [t'|]; [|by apply not_elem_of_nil in Ht]. by apply list_elem_of_singleton in Ht as ->.
    + intros (i' & x' & [[= -> ->]|Hx] & Ht); [|naive_solver]. left. rewrite E in Ht. injection Ht as ->. by apply list_elem_of_singleton.
  - rewrite fmap_app. destruct o as [t|]; cbn [option_list fmap list_fmap]; [|by constructor].
    apply token_transfer_iff in E as (from & to & mint & v & a & ?). destruct_and?. subst t.
    cbn [NormalizedTransfer.event_index fmap list_fmap app]. unfold compose at 1. cbn [fst].
    replace (1000000 + (token_index i - 1000000)) with (token_index i) by lia. by constructor.
Qed.

Lemma token_index_inj (n : nat) i j : Z.of_nat n <= 2 ^ 31 - 1000000 → (i < n)%nat → (j < n)%nat →
  token_index i = token_index j → i = j.
Proof using Type.
  intros Hn Hi Hj. unfold token_index. rewrite !(wrap_i32_id (Z.of_nat _)), !wrap_i32_id by lia. lia.
Qed.

Lemma indices_distinct m n : Z.of_nat m <= 1000000 → Z.of_nat n <= 2 ^ 31 - 1000000 →
  NoDup ((native_index <$> seq 0 m) ++ (token_index <$> seq 0 n)).
Proof using Type.
  intros Hm Hn. apply NoDup_app. split_and!.
  - apply NoDup_fmap_2_strong; [|apply NoDup_seq]. intros i j Hi%elem_of_seq Hj%elem_of_seq.
    unfold native_index. rewrite !wrap_i32_id by lia. lia.
  - intros k (i & -> & Hi%elem_of_seq)%list_elem_of_fmap (j & E & Hj%elem_of_seq)%list_elem_of_fmap.
    unfold native_index, token_index in E. rewrite !(wrap_i32_id (Z.of_nat _)), !wrap_i32_id in E by lia. lia.
  - apply NoDup_fmap_2_strong; [|apply NoDup_seq]. intros i j Hi%elem_of_seq Hj%elem_of_seq.
    apply (token_index_inj n); lia || done.
Qed.

Lemma elem_of_indexed {A} (l : list A) i x : (i, x) ∈ indexed l ↔ l !! i = Some x.
Proof using Type.
  unfold indexed. rewrite list_elem_of_lookup. setoid_rewrite lookup_zip_with_Some. split.
  - intros (k & ? & ? & [= -> ->] & [-> Hk]%lookup_seq & Hx). done.
  - intros Hx. exists i, i, x. split_and!; [done| |done]. apply lookup_seq. split; [done|]. by apply lookup_lt_Some in Hx.
Qed.

Lemma amount_or_none_Done (raw : string) decimals o : amount_or_none (D := D) raw decimals = Done o →
  ∀ a, o = Some a ↔ raw_token_to_amount raw decimals = Done a.
Proof using Type. unfold amount_or_none. destruct (raw_token_to_amount raw decimals); intros [= <-] ?; split; congruence. Qed.

(** Of the swap legs [legs] and the native amount [native_raw]. *)
Lemma swap_trade_iff h (raw : J) side native_key legs_key swap ts
    (Hswap : j_get raw "events" ≫= (λ e, j_get e "swap") = Some swap) (Ho : is_object swap = true) :
  swap_trade bs58 h (default "" (str_field raw "feePayer")) (str_field raw "dexId") side
    (j_get swap native_key ≫= λ n, str_field n "amount") (j_get swap legs_key ≫= as_array) = Done ts →
  (length ts <= 1)%nat ∧ ∀ t, t ∈ ts ↔ trade_event h raw side native_key legs_key t.
Proof.
  assert (∀ o : option (NormalizedTrade D), (length (option_list o) <= 1)%nat) as Hl by (intros []; cbn; lia).
  assert (∀ (o : option (NormalizedTrade D)) t, t ∈ option_list o ↔ o = Some t) as Hin.
  { intros [x|] t; [change (t ∈ [x] ↔ Some x = Some t); split; [intros ->%list_elem_of_singleton; done|intros [= ->]; by apply list_elem_of_singleton]|]. split; [by intros ?%not_elem_of_nil|done]. }
  unfold swap_trade. destruct (j_get swap native_key ≫= _) as [native|] eqn:En.
  2: { intros [= <-]. split; [apply (Hl None)|]. intros t. rewrite (Hin None t). split; [done|].
       intros (? & ? & n & ? & ? & ? & ? & ? & ? & ? & ? & Es & _ & _ & _ & _ & Hn & Hn' & _). rewrite Es in Hswap. simplify_eq. rewrite Hn in En. cbn in En. congruence. }
  destruct (j_get swap legs_key ≫= as_array) as [legs|] eqn:Eg.
  2: { intros [= <-]. split; [apply (Hl None)|]. intros t. rewrite (Hin None t). split; [done|].
       intros (? & ? & n & ? & ? & ? & ? & ? & ? & ? & ? & Es & _ & _ & _ & _ & _ & _ & Hg & _). rewrite Es in Hswap. injection Hswap as ->. congruence. }
  destruct (build_trade _ _ _ _ _ _ _) as [o| |] eqn:E; [|done..]. intros [= <-]. split; [apply Hl|]. intros t. rewrite Hin.
  apply bind_Some in En as (n & En & En'). unfold build_trade in E. split.
  - intros ->. revert E. destruct (bool_decide_reflect (default "" (str_field raw "feePayer") = "")) as [|Np]; [done|]. cbn [orb].
    destruct (is_ok _) eqn:Ev; [|done]. apply is_ok_validate in Ev. cbn [negb]. destruct (head legs) as [leg|] eqn:Eh; [|done].
    destruct (str_field leg "mint") as [mint|] eqn:Em; [|done]. destruct (j_get leg "rawTokenAmount") as [q|] eqn:Eq; [|done]. cbn [mbind option_bind].
    destruct (str_field q "tokenAmount") as [token_raw|] eqn:Et; [|done]. unfold leg_decimals. rewrite Eq. cbn [mbind option_bind].
    destruct (amount_or_none token_raw _) as [[token|]| |] eqn:E1; [|done..]. destruct (amount_or_none native 9) as [[na|]| |] eqn:E2; [|done..].
    pose proof (proj1 (amount_or_none_Done _ _ _ E1 token) eq_refl) as A1. pose proof (proj1 (amount_or_none_Done _ _ _ E2 na) eq_refl) as A2.
    cbn [fmap option_fmap option_map]. intros [= <-].
    eexists swap, _, n, native, legs, leg, mint, q, token_raw, na, token. split_and!; try done. by apply str_field_default.
  - intros (swap' & payer & n' & native' & legs' & leg & mint & q & token_raw & na & token & Es & _ & Ep & Np & Vp%is_ok_validate & Hn & Hn' & Hg & Hh & Hm & Hq & Ht & Hna & Hta & ->).
    rewrite Es in Hswap. simplify_eq. rewrite Ep in E. cbn [from_option id] in E. rewrite bool_decide_eq_false_2, Vp, Hh, Hm in E by done. cbn [negb orb] in E.
    unfold leg_decimals in E. rewrite Hq in E. cbn [mbind option_bind] in E. rewrite Ht in E. unfold amount_or_none in E. rewrite Hta in E.
    cbn iota in E. rewrite Hna in E. cbn [fmap option_fmap option_map] in E. by injection E as <-.
Qed.

Lemma swap_trades_iff h (raw : J) trades : swap_trades bs58 h raw = Done trades →
  ∃ buys sells, trades = buys ++ sells ∧ (length buys <= 1)%nat ∧ (length sells <= 1)%nat
    ∧ (∀ t, t ∈ buys ↔ trade_event h raw TradeSide.Buy "nativeInput" "tokenOutputs" t)
    ∧ (∀ t, t ∈ sells ↔ trade_event h raw TradeSide.Sell "nativeOutput" "tokenInputs" t).
Proof.
  unfold swap_trades. destruct (j_get raw "events" ≫= _) as [swap|] eqn:Es.
  2: { intros [= <-]. exists [], []. split_and!; [done|cbn; lia..| |]; intros t; (split; [by intros ?%not_elem_of_nil|]);
       intros (? & ? & ? & ? & ? & ? & ? & ? & ? & ? & ? & E & _); congruence. }
  destruct (is_object swap) eqn:Eo; cbn [negb].
  2: { intros [= <-]. exists [], []. split_and!; [done|cbn; lia..| |]; intros t; (split; [by intros ?%not_elem_of_nil|]);
       intros (? & ? & ? & ? & ? & ? & ? & ? & ? & ? & ? & E & E' & _); congruence. }
  cbv zeta. destruct (swap_trade _ _ _ _ TradeSide.Buy _ _) as [buys| |] eqn:Eb; [|done..].
  destruct (swap_trade _ _ _ _ TradeSide.Sell _ _) as [sells| |] eqn:Ee; [|done..]. intros [= <-].
  apply swap_trade_iff in Eb as [? ?]; [|done..]. apply swap_trade_iff in Ee as [? ?]; [|done..]. by exists buys, sells.
Qed.

(** Claim C34: What a Helius payload normalises to, exactly.  The transfers are those
    of its valid lamports items, each at its place, of the stated lamports over
    10^9, and those of its valid token items, each a million places further, of
    the stated amount over the stated decimals; the trades are at most one buy,
    of [nativeInput] against the first of [tokenOutputs], and one sell, of
    [nativeOutput] against the first of [tokenInputs], both of the fee payer.
    All carry the payload's signature, slot, time and commitment and the
    instant of observation; the indices of the transfers differ pairwise. *)
Theorem helius_events_wellformed (raw : J) at_ (events : NormalizedEvents D)
    (Hnative : Z.of_nat (length (items_of raw "nativeTransfers")) <= 1000000)
    (Htoken : Z.of_nat (length (items_of raw "tokenTransfers")) <= 2 ^ 31 - 1000000)
    (Hn : normalize_helius_transaction bs58 from_timestamp raw at_ = Done events) :
  ∃ h buys sells, header_of raw at_ h
    ∧ (∀ t, t ∈ NormalizedEvents.transfers events ↔
        (∃ i x, items_of raw "nativeTransfers" !! i = Some x ∧ native_event h (Z.of_nat i) x t)
        ∨ (∃ i x, items_of raw "tokenTransfers" !! i = Some x ∧ token_event h (Z.of_nat i) x t))
    ∧ NoDup (NormalizedTransfer.event_index <$> NormalizedEvents.transfers events)
    ∧ NormalizedEvents.trades events = buys ++ sells ∧ (length buys <= 1)%nat ∧ (length sells <= 1)%nat
    ∧ (∀ t, t ∈ buys ↔ trade_event h raw TradeSide.Buy "nativeInput" "tokenOutputs" t)
    ∧ (∀ t, t ∈ sells ↔ trade_event h raw TradeSide.Sell "nativeOutput" "tokenInputs" t).
Proof.
  unfold normalize_helius_transaction in Hn. destruct (payload_signature raw) as [sig|] eqn:Esig; [|done].
  cbv zeta in Hn. set (h := payload_header_of from_timestamp raw sig at_) in *.
  destruct (fold_outcome _ _ _) as [ts| |] eqn:Et; [|done..].
  apply token_fold in Et as (new & -> & Hnew & Hs).
  destruct (swap_trades bs58 h raw) as [trades| |] eqn:Ew; [|done..]. injection Hn as <-.
  assert (header_of raw at_ h) as Hh.
  { split_and!; [|done..]. unfold payload_signature in Esig. destruct (str_field raw "signature"); [left|right]; cbn; congruence || done. }
  assert (∃ buys sells, trades = buys ++ sells ∧ (length buys <= 1)%nat ∧ (length sells <= 1)%nat
    ∧ (∀ t, t ∈ buys ↔ trade_event h raw TradeSide.Buy "nativeInput" "tokenOutputs" t)
    ∧ (∀ t, t ∈ sells ↔ trade_event h raw TradeSide.Sell "nativeOutput" "tokenInputs" t))
    as (buys & sells & -> & ? & ? & ? & ?) by by apply swap_trades_iff.
  exists h, buys, sells. cbn [NormalizedEvents.transfers NormalizedEvents.trades]. split_and!; try done.
  - intros t. rewrite elem_of_app, Hnew. unfold native_transfers, field_items. rewrite list_elem_of_omap. fold (items_of raw "nativeTransfers") (items_of raw "tokenTransfers").
    apply Morphisms_Prop.or_iff_morphism.
    + split.
      * intros ([i x] & Hi%elem_of_indexed & Ht%native_transfer_iff). exists i, x. split; [done|]. apply lookup_lt_Some in Hi.
        unfold native_index in Ht. cbn [fst snd] in Ht. by rewrite wrap_i32_id in Ht by lia.
      * intros (i & x & Hi & Ht). exists (i, x). split; [by apply elem_of_indexed|]. apply native_transfer_iff. apply lookup_lt_Some in Hi.
        unfold native_index. cbn [fst snd]. by rewrite wrap_i32_id by lia.
    + split.
      * intros (i & x & Hi%elem_of_indexed & Ht%token_transfer_iff). exists i, x. split; [done|]. apply lookup_lt_Some in Hi.
        unfold token_index in Ht. rewrite (wrap_i32_id (Z.of_nat i)), wrap_i32_id in Ht by lia. by replace (1000000 + Z.of_nat i - 1000000) with (Z.of_nat i) in Ht by lia.
      * intros (i & x & Hi & Ht). exists i, x. split; [by apply elem_of_indexed|]. apply token_transfer_iff. apply lookup_lt_Some in Hi.
        unfold token_index. rewrite (wrap_i32_id (Z.of_nat i)), wrap_i32_id by lia. by replace (1000000 + Z.of_nat i - 1000000) with (Z.of_nat i) by lia.
  - rewrite fmap_app. unfold field_items in *. fold (items_of raw "nativeTransfers") (items_of raw "tokenTransfers") in Hs |- *.
    eapply sublist_NoDup; [by apply indices_distinct|]. apply sublist_app.
    + rewrite <-indexed_fst, <-list_fmap_compose. apply omap_sublist.
      intros [i x] t Ht. by apply native_transfer_iff in Ht as (? & ? & ? & ? & ? & ? & ? & ? & ? & ->).
    + by rewrite list_fmap_compose, indexed_fst in Hs.
Qed.
End normalised.

(** ** The chain id *)

Section chain_id.
Set Default Proof Using "Type".
Context {J : Type} `{JsonValue J} (rpc : nat → string → J → result J).

(** The node and the configuration name one chain. *)
Definition same_chain (a : RobinhoodAdapter) (n : nat) : Prop :=
  ∃ j hex v, rpc n "eth_chainId" (j_array []) = ROk j ∧ as_str j = Some hex
    ∧ parse_hex_quantity hex = Some v ∧ parse_hex_quantity ("0x" +:+ chain_id a) = Some v.

(** An adapter is validated exactly by a node of the configured chain;
    on any other answer it stays as it was. *)
Theorem chain_id_validated a n :
  let r := validate_chain_id rpc a n in
  (r.2 = ROk () ↔ same_chain a n)
  ∧ r.1 = MkAdapter (chain_id a) (native_decimals a) (start_block a) (is_ok r.2 || validated a).
Proof.
  cbv zeta. unfold validate_chain_id, same_chain.
  assert (a = MkAdapter (chain_id a) (native_decimals a) (start_block a) (validated a)) as Ha by by destruct a.
  destruct (rpc n "eth_chainId" (j_array [])) as [j|e]; [|split; [naive_solver|done]].
  destruct (as_str j) as [hex|] eqn:Es; [|split; [naive_solver|done]].
  destruct (parse_hex_quantity hex) as [v|] eqn:Ev; [|split; [naive_solver|done]].
  destruct (parse_hex_quantity ("0x" +:+ chain_id a)) as [w|] eqn:Ew; [|split; [naive_solver|done]].
  destruct (Z.eqb_spec v w) as [->|Hne]; cbn [negb fst snd is_ok orb].
  - split; [|done]. split; [|done]. intros _. by exists j, hex, w.
  - split; [|done]. split; [done|]. intros (j' & hex' & v' & [= <-] & Es' & Ev' & Ew').
    rewrite Es in Es'. injection Es' as <-. congruence.
Qed.
End chain_id.

(** *** The transport *)

Section transport.
Set Default Proof Using "Type".
Context {J D : Type} `{JsonValue J, DecimalNum D} (post : nat → string → J → RpcReply (J := J)) (uuid : nat → string).

(** Only a success status with a JSON body that has no member [error], null or
    not, is a result; a body without [result] is the result null.  The head of the
    chain is known exactly where such a body has a quantity under [result]. *)
Theorem head_over_http client n v :
  current_block (rpc_call post uuid client) n = ROk v
  ↔ ∃ body r hex, post n (rpc_url client) (rpc_body (uuid n) "eth_blockNumber" (j_array [])) = Response true (Some body)
      ∧ j_get body "error" = None ∧ default j_null (j_get body "result") = r ∧ as_str r = Some hex ∧ parse_hex_quantity hex = Some v.
Proof.
  unfold current_block, rpc_call.
  destruct (post n (rpc_url client) _) as [|[] [body|]]; try (split; [done|by intros (? & ? & ? & [=] & _)]).
  destruct (j_get body "error") as [e|] eqn:Ee; [split; [done|intros (b & ? & ? & [= <-] & ? & _); congruence]|]. cbn [mbind].
  set (r := default j_null (j_get body "result")). split.
  - intros Hv. destruct (as_str r) as [hex|] eqn:Er; [|done]. destruct (parse_hex_quantity hex) as [q|] eqn:Eq; [|done].
    injection Hv as ->. by exists body, r, hex.
  - intros (b & r' & hex & [= <-] & _ & Hr & Es & Eq). subst r'. fold r in Es. by rewrite Es, Eq.
Qed.
End transport.

(** ** Instances *)

Definition plain58 (s : string) : option (list Z) :=
  if all_chars (λ c, negb (is_continuation c) && negb (bool_decide (c = " "%char))) s
  then Some (repeat 7 32) else None.

Definition any_timestamp (s : Z) : option Z := Some (s * 10 ^ 9).

Definition addr_a : string := "AAAAAAAAAAAAAAAAAAAAAAAAAAAAAAAAAAAAAAAA".
Definition addr_b : string := "BBBBBBBBBBBBBBBBBBBBBBBBBBBBBBBBBBBBBBBB".

Definition native_item (lamports : Z) : json :=
  JObject [("fromUserAccount", JStr addr_a); ("toUserAccount", JStr addr_b); ("amount", JInt lamports)].

Definition token_item (amount : json) (decimals : Z) : json :=
  JObject [("fromUserAccount", JStr addr_a); ("toUserAccount", JStr addr_b); ("mint", JStr addr_b);
           ("tokenAmount", amount); ("decimals", JInt decimals)].

Definition leg_item (amount : string) : json :=
  JObject [("mint", JStr addr_b);
           ("rawTokenAmount", JObject [("tokenAmount", JStr amount); ("decimals", JInt 6)])].

Definition lamports (text : string) : json := JObject [("amount", JStr text)].

(** A swap that reports both directions. *)
Definition sample_payload (decimals : Z) : json :=
  JObject [("signature", JStr "sig"); ("slot", JInt 9); ("timestamp", JInt 5); ("feePayer", JStr addr_a);
    ("nativeTransfers", JArray [native_item 1500000000; native_item 0]);
    ("tokenTransfers", JArray [token_item (JInt 2000000) decimals]);
    ("events", JObject [("swap", JObject
      [("nativeInput", lamports "1000000000"); ("tokenOutputs", JArray [leg_item "500"]);
       ("nativeOutput", lamports "7"); ("tokenInputs", JArray [leg_item "3"])])])].

Definition sample_events (decimals : Z) : outcome (NormalizedEvents Qc) :=
  normalize_helius_transaction plain58 any_timestamp (sample_payload decimals) 11.

(** Token decimals of twenty-nine or more, as the provider sends them,
    panic the normalisation; eight do not. *)
Theorem payload_decimals_panic :
  sample_events 29 = Panicked ∧ ∃ events, sample_events 8 = Done events.
Proof. split; [by vm_compute|]. by vm_compute; eexists. Qed.

(** A token amount above an i64 is stored as the largest i64. *)
Example amount_saturates : format_amount_string (f64_of_Z (10 ^ 19)) = "9223372036854775807".
Proof. vm_compute. reflexivity. Qed.

Lemma helius_events_wellformed_witness :
  ∃ events h t, sample_events 6 = Done events ∧ header_of any_timestamp (sample_payload 6) 11 h ∧ h_signature h = "sig" ∧ h_slot h = Some 9
    ∧ length (NormalizedEvents.transfers events) = 2%nat
    ∧ NoDup (NormalizedTransfer.event_index <$> NormalizedEvents.transfers events)
    ∧ (NormalizedTrade.side <$> NormalizedEvents.trades events) = [TradeSide.Buy; TradeSide.Sell]
    ∧ t ∈ NormalizedEvents.transfers events ∧ NormalizedTransfer.event_index t = 1000000 ∧ NormalizedTransfer.raw_amount t = "2000000".
Proof.
  destruct (sample_events 6) as [events| |] eqn:E; [|vm_compute in E; discriminate E..].
  destruct (helius_events_wellformed plain58 any_timestamp (sample_payload 6) 11 events)
    as (h & buys & sells & Hh & Hin & Hnd & _); [vm_compute; discriminate..|exact E|].
  pose proof Hh as ([Hs|[Hs _]] & Hslot & _); [|vm_compute in Hs; discriminate Hs].
  assert (∃ t, t ∈ NormalizedEvents.transfers events ∧ NormalizedTransfer.event_index t = 1000000 ∧ NormalizedTransfer.raw_amount t = "2000000") as (t & Ht).
  { eexists. split; [apply Hin; right; exists 0%nat; eexists; split; [vm_compute; reflexivity|]|].
    - eexists _, _, _, _, _. split_and!; first [vm_compute; reflexivity|vm_compute; discriminate].
    - split; vm_compute; reflexivity. }
  exists events, h, t. split; [done|]. split; [exact Hh|]. split; [vm_compute in Hs; by injection Hs|]. split; [rewrite Hslot; vm_compute; reflexivity|].
  clear Hin. vm_compute in E. injection E as <-. split_and!; [reflexivity|exact Hnd|reflexivity|apply Ht..].
Defined.

Definition evm_a : string := "0xAbcdefabcdefabcdefabcdefabcdefabcdefabcd".
Definition topic_of (body : string) : string := "0x000000000000000000000000" +:+ body.

Definition evm_tx (hash value : string) : json :=
  JObject [("hash", JStr hash); ("from", JStr evm_a); ("to", JStr evm_a); ("value", JStr value)].

Definition erc20_log (to : string) : json :=
  JObject [("topics", JArray [JStr ERC20_TRANSFER_TOPIC; JStr (topic_of "abcdefabcdefabcdefabcdefabcdefabcdefabcd"); JStr to]);
           ("address", JStr evm_a); ("data", JStr "0x10")].

Definition sample_block (value : string) : json :=
  JObject [("number", JStr "0x1a"); ("timestamp", JStr "0x5"); ("transactions", JArray [evm_tx "0xh" value; evm_tx "0xh" value])].

Definition sample_receipt (to : string) : json :=
  JObject [("transactionHash", JStr "0xh"); ("logs", JArray [erc20_log to])].

Definition block_events (value to : string) : outcome (NormalizedEvents Qc) :=
  normalize_block any_timestamp (sample_block value) [sample_receipt to] 11.

Definition good_topic : string := topic_of "ABCDEFabcdefabcdefabcdefabcdefabcdefabcd".

Lemma block_transfers_wellformed_witness :
  ∃ events, block_events "0xde0b6b3a7640000" good_topic = Done events
    ∧ (NormalizedTransfer.raw_amount <$> NormalizedEvents.transfers events) = ["1000000000000000000"; "16"]
    ∧ NoDup (transfer_key <$> NormalizedEvents.transfers events).
Proof.
  destruct (block_events "0xde0b6b3a7640000" good_topic) as [events| |] eqn:E; [|vm_compute in E; discriminate E..].
  exists events. split; [done|].
  destruct (block_transfers_wellformed any_timestamp (sample_block "0xde0b6b3a7640000") [sample_receipt good_topic] 11 events E)
    as (b & _ & Hnd & _).
  vm_compute in E. injection E as <-. split; [reflexivity|exact Hnd].
Defined.

(** A native transfer of 2^64 wei (about 18.45 coins) or more leaves no
    trace: the quantity does not fit a u64 and counts as zero. *)
Theorem large_value_dropped :
  (NormalizedTransfer.raw_amount <$> (match block_events "0xffffffffffffffff" good_topic with
     | Done e => NormalizedEvents.transfers e | _ => [] end)) = ["18446744073709551615"; "16"]
  ∧ (NormalizedTransfer.raw_amount <$> (match block_events "0x10000000000000000" good_topic with
     | Done e => NormalizedEvents.transfers e | _ => [] end)) = ["16"].
Proof. by vm_compute. Qed.

(** A topic of 66 bytes with a two-byte character across byte 26. *)
Definition split_topic : string :=
  "0x00000000000000000000000" +:+ String (ascii_of_N 195) (String (ascii_of_N 169)
    "bcdefabcdefabcdefabcdefabcdefabcdefabcd").

Example split_topic_panics :
  (String.length split_topic, block_events "0x1" split_topic) = (66%nat, Panicked).
Proof. vm_compute. reflexivity. Qed.
