(* ===== verification/Migrations.v ===== *)
(** * Migrations and their ledger (src/src/db.rs)

    The strict manifest parser, the bundle whose every file a reviewed digest
    vouches for, the migrator that applies it and keeps the ledger, and the
    read-only verifier every other command runs first.

    A run holds the advisory lock from its first statement to its last, so it
    is a function of the database it finds.  Parameters: SHA-256 in hex
    ([sha256_hex]), the server's rendering of the canonical CHECK
    ([canonical_expr]), the effect of a migration's SQL, of a REVOKE and of the
    three preflight repairs on the rest of the database ([exec_sql],
    [revoke_sql], [preflight_repairs]).  Error texts are reduced to the phrase
    that tells them apart. *)
From S2P Require Import Prelude Text.
From stdpp Require Import options.
Local Open Scope string_scope.
Local Open Scope list_scope.

(** ** Digests *)

Definition BASELINE_PREFIX : string := "baseline:".

Definition is_baseline (recorded : string) : bool := starts_with BASELINE_PREFIX recorded.

Definition recorded_digest (recorded : string) : string :=
  default recorded (strip_prefix BASELINE_PREFIX recorded).

(** [body.replace("\r\n", "\n")]. *)
Fixpoint unix_newlines (s : string) : string :=
  match s with
  | EmptyString => ""
  | String c s' =>
      match s' with
      | String d _ =>
          if decide (c = carriage_return ∧ d = newline) then unix_newlines s'
          else String c (unix_newlines s')
      | EmptyString => String c ""
      end
  end.

Definition LEGAL_DIGEST_ORIGINS : list string := ["applied"; "baseline"].

(** ** The manifest *)

(** One line of [MANIFEST.sha256]. *)
Definition manifest_line (recorded : gmap string string) (raw : string)
    : result (gmap string string) :=
  let line := trim raw in
  if bool_decide (line = "") || starts_with "#" line then ROk recorded else
  match split_whitespace line with
  | [digest; name] =>
      if negb (String.length digest =? 64)%nat || negb (all_chars is_ascii_hexdigit digest)
      then RErr "does not carry a 64-character hex sha256"
      else if negb (ends_with ".sql" name) then RErr "names a non-SQL file"
      else match recorded !! name with
      | Some _ => RErr "lists more than once"
      | None => ROk (<[name := to_ascii_lowercase digest]> recorded)
      end
  | _ => RErr "is malformed"
  end.

Definition parse_migration_manifest (body : string) : result (gmap string string) :=
  fold_result manifest_line ∅ (lines body).

(** ** The bundle *)

Module MigrationBundle.
Record MigrationBundle := mk {
  source : string;
  entries : list (string * string);
  manifest : gmap string string;
}.
End MigrationBundle.
Abbreviation MigrationBundle := MigrationBundle.MigrationBundle.

Section migrations.
Context (sha256_hex : string → string).

Definition migration_sha256 (body : string) : string := sha256_hex (unix_newlines body).

Definition check_digest (manifest : gmap string string) (_ : ()) (entry : string * string)
    : result () :=
  match manifest !! entry.1 with
  | Some want =>
      if decide (migration_sha256 entry.2 = want) then ROk ()
      else RErr "these are not the reviewed bytes"
  | None => RErr "index"
  end.

Definition build (source : string) (entries : list (string * string)) (manifest_body : string)
    : result MigrationBundle :=
  let entries := stable_sort (λ a b, String.leb a.1 b.1) entries in
  let! manifest := parse_migration_manifest manifest_body in
  let present : gset string := list_to_set (fst <$> entries) in
  let listed : gset string := dom manifest in
  if negb (bool_decide (present ∖ listed = ∅)) then RErr "unreviewed SQL must never be executed" else
  if negb (bool_decide (listed ∖ present = ∅)) then RErr "missing reviewed SQL" else
  let! _ := fold_result (check_digest manifest) () entries in
  ROk (MigrationBundle.mk source entries manifest).

Definition manifest_digest (b : MigrationBundle) (name : string) : option string :=
  MigrationBundle.manifest b !! name.

(** ** The ledger *)

Record LedgerRow := MkRow { sha256 : option string; digest_origin : option string }.

(** [_migrations_digest_origin_check] as pg_constraint has it. *)
Record OriginCheck := MkCheck {
  is_check : bool;
  convalidated : bool;
  connoinherit : bool;
  conexpr : string;
}.

Record ledger_db (W : Type) := MkLedger {
  ledger_exists : bool;
  has_sha_column : bool;
  has_origin_column : bool;
  ledger : gmap string LedgerRow;
  (** the collation of [digest_origin] when it is nondeterministic *)
  nondeterministic : option string;
  descendants : list string;
  origin_check : option OriginCheck;
  world : W;
}.
Arguments MkLedger {_}. Arguments ledger_exists {_}. Arguments has_sha_column {_}.
Arguments has_origin_column {_}. Arguments ledger {_}. Arguments nondeterministic {_}.
Arguments descendants {_}. Arguments origin_check {_}. Arguments world {_}.

Context {W : Type} (exec_sql : W → string → option W)
  (revoke_sql : W → string → W * option string) (preflight_repairs : W → W * result ())
  (canonical_expr : string).

Definition with_ledger (db : ledger_db W) (rows : gmap string LedgerRow) : ledger_db W :=
  MkLedger (ledger_exists db) (has_sha_column db) (has_origin_column db) rows
    (nondeterministic db) (descendants db) (origin_check db) (world db).

Definition with_world (db : ledger_db W) (w : W) : ledger_db W :=
  MkLedger (ledger_exists db) (has_sha_column db) (has_origin_column db) (ledger db)
    (nondeterministic db) (descendants db) (origin_check db) w.

(** ** Provenance authority *)

Definition assert_ledger_provenance_authority (db : ledger_db W) : result () :=
  match nondeterministic db with
  | Some _ => RErr "uses the nondeterministic collation"
  | None =>
      match descendants db with
      | _ :: _ => RErr "has descendant table(s)"
      | [] =>
          match origin_check db with
          | Some c => if is_check c && connoinherit c then RErr "is declared NO INHERIT" else ROk ()
          | None => ROk ()
          end
      end
  end.

Definition illegal_origin (row : LedgerRow) : bool :=
  match digest_origin row with
  | Some o => negb (contains o LEGAL_DIGEST_ORIGINS)
  | None => false
  end.

Definition assert_ledger_provenance_values (db : ledger_db W) : result () :=
  if existsb (λ '((_, row) : string * LedgerRow), illegal_origin row) (map_to_list (ledger db))
  then RErr "carries provenance value(s) outside its trust model"
  else ROk ().

Definition digest_origin_check_is_canonical (c : OriginCheck) : bool :=
  is_check c && convalidated c && bool_decide (conexpr c = canonical_expr).

Definition canonical_check : OriginCheck := MkCheck true true false canonical_expr.

(** ** The migrator *)

(** CREATE TABLE / ADD COLUMN IF NOT EXISTS: a new column is null. *)
Definition bootstrap_row (db : ledger_db W) (row : LedgerRow) : LedgerRow :=
  MkRow (if has_sha_column db then sha256 row else None)
    (if has_origin_column db then digest_origin row else None).

Definition bootstrap (db : ledger_db W) : ledger_db W :=
  MkLedger true true true
    (if ledger_exists db then bootstrap_row db <$> ledger db else ∅)
    (nondeterministic db) (descendants db) (origin_check db) (world db).

(** The constraint step, one transaction. *)
Definition constraint_step (db : ledger_db W) : ledger_db W * result () :=
  match origin_check db with
  | None =>
      match assert_ledger_provenance_values db with
      | RErr e => (db, RErr e)
      | ROk _ =>
          (MkLedger (ledger_exists db) (has_sha_column db) (has_origin_column db) (ledger db)
             (nondeterministic db) (descendants db) (Some canonical_check) (world db), ROk ())
      end
  | Some c =>
      if digest_origin_check_is_canonical c then (db, assert_ledger_provenance_values db)
      else (db, RErr "constraint is not the canonical")
  end.

Definition ledger_roles : list string := ["PUBLIC"; "swi_legacy_runtime"; "swi_app"].

Fixpoint protect_ledger (w : W) (roles : list string) : W * result () :=
  match roles with
  | [] => (w, ROk ())
  | role :: roles =>
      match revoke_sql w role with
      | (w, Some msg) =>
          if str_contains "does not exist" msg || str_contains "42704" msg
          then protect_ledger w roles
          else (w, RErr "failed to protect the migration ledger")
      | (w, None) => protect_ledger w roles
      end
  end.

(** One file of the loop.  [None]: the transaction of a new file failed. *)
Definition apply_entry (accept_legacy_baseline : bool) (bundle : MigrationBundle)
    (db : ledger_db W) (entry : string * string) : result (ledger_db W) :=
  let '(name, sql) := entry in
  let digest := migration_sha256 sql in
  match ledger db !! name with
  | Some row =>
      match sha256 row, digest_origin row with
      | Some bare, None =>
          if accept_legacy_baseline
          then ROk (with_ledger db
                 (<[name := MkRow (Some (BASELINE_PREFIX +:+ recorded_digest bare)) (Some "baseline")]>
                    (ledger db)))
          else RErr "carries a digest with no recorded provenance"
      | None, _ =>
          match manifest_digest bundle name with
          | Some expected =>
              if decide (expected = digest) then
                if accept_legacy_baseline
                then ROk (with_ledger db
                       (<[name := MkRow (Some (BASELINE_PREFIX +:+ digest)) (Some "baseline")]>
                          (ledger db)))
                else RErr "was applied before digests were recorded"
              else RErr "cannot backfill a digest"
          | None => RErr "has no digest in the ledger"
          end
      | Some recorded, Some _ =>
          if decide (recorded_digest recorded = digest) then ROk db
          else RErr "no longer matches the file on disk"
      end
  | None =>
      match exec_sql (world db) sql with
      | Some w =>
          ROk (with_ledger (with_world db w)
                 (<[name := MkRow (Some digest) (Some "applied")]> (ledger db)))
      | None => RErr "migration failed"
      end
  end.

(** A failing file leaves what the files before it committed. *)
Fixpoint apply_entries (accept_legacy_baseline : bool) (bundle : MigrationBundle)
    (db : ledger_db W) (entries : list (string * string)) : ledger_db W * result () :=
  match entries with
  | [] => (db, ROk ())
  | entry :: entries =>
      match apply_entry accept_legacy_baseline bundle db entry with
      | ROk db => apply_entries accept_legacy_baseline bundle db entries
      | RErr e => (db, RErr e)
      end
  end.

Definition migrate_bundle_with (db : ledger_db W) (bundle : MigrationBundle)
    (accept_legacy_baseline : bool) : ledger_db W * result () :=
  let db := bootstrap db in
  match assert_ledger_provenance_authority db with
  | RErr e => (db, RErr e)
  | ROk _ =>
      match constraint_step db with
      | (db, RErr e) => (db, RErr e)
      | (db, ROk _) =>
          match protect_ledger (world db) ledger_roles with
          | (w, RErr e) => (with_world db w, RErr e)
          | (w, ROk _) =>
              match preflight_repairs w with
              | (w, RErr e) => (with_world db w, RErr e)
              | (w, ROk _) =>
                  apply_entries accept_legacy_baseline bundle (with_world db w)
                    (MigrationBundle.entries bundle)
              end
          end
      end
  end.

(** ** The verifier *)

Record findings := MkFindings {
  pending : list string;
  mismatched : list string;
  unverifiable : list string;
  baseline : list string;
}.

Definition applied_digest (db : ledger_db W) (row : LedgerRow) : option string :=
  if has_sha_column db then sha256 row else None.

Definition classify (db : ledger_db W) (f : findings) (entry : string * string) : findings :=
  let '(name, digest) := entry in
  match ledger db !! name with
  | None => MkFindings (pending f ++ [name]) (mismatched f) (unverifiable f) (baseline f)
  | Some row =>
      match applied_digest db row with
      | Some recorded =>
          if is_baseline recorded then
            if decide (recorded_digest recorded = digest)
            then MkFindings (pending f) (mismatched f) (unverifiable f) (baseline f ++ [name])
            else MkFindings (pending f) (mismatched f ++ [name]) (unverifiable f) (baseline f)
          else if decide (recorded = digest) then f
          else MkFindings (pending f) (mismatched f ++ [name]) (unverifiable f) (baseline f)
      | None => MkFindings (pending f) (mismatched f) (unverifiable f ++ [name]) (baseline f)
      end
  end.

Definition ledger_names (db : ledger_db W) : list string := fst <$> map_to_list (ledger db).

Definition provenanceless (db : ledger_db W) : list string :=
  if has_sha_column db then
    fst <$> List.filter (λ '((_, row) : string * LedgerRow),
        bool_decide (is_Some (sha256 row))
        && (negb (has_origin_column db) || bool_decide (digest_origin row = None)))
      (map_to_list (ledger db))
  else [].

Definition ensure_schema_current (db : ledger_db W) (bundle : MigrationBundle) : result () :=
  if negb (ledger_exists db) then RErr "database has no migration ledger" else
  let! _ := assert_ledger_provenance_authority db in
  let on_disk := prod_map id migration_sha256 <$> MigrationBundle.entries bundle in
  let! _ := if has_origin_column db then assert_ledger_provenance_values db else ROk () in
  let f := fold_left (classify db) on_disk (MkFindings [] [] [] []) in
  let unknown := List.filter (λ n, negb (contains n (fst <$> on_disk))) (ledger_names db) in
  if negb (bool_decide (pending f = [])) then RErr "migration(s) pending" else
  if negb (bool_decide (mismatched f = [])) then RErr "no longer match the files on disk" else
  if negb (bool_decide (unknown = [])) then RErr "with no file on disk" else
  if negb (bool_decide (unverifiable f = [])) then RErr "carry no checksum" else
  if negb (bool_decide (provenanceless db = [])) then RErr "with no recorded provenance" else
  ROk ().

(** [baseline_migrations]: LIKE 'baseline:%' OR digest_origin = 'baseline'. *)
Definition baseline_migrations (db : ledger_db W) : list string :=
  fst <$> List.filter (λ '((_, row) : string * LedgerRow),
      match sha256 row with Some s => is_baseline s | None => false end
      || bool_decide (digest_origin row = Some "baseline")) (map_to_list (ledger db)).
End migrations.

Arguments MkLedger {_}. Arguments ledger_exists {_}. Arguments has_sha_column {_}.
Arguments has_origin_column {_}. Arguments ledger {_}. Arguments nondeterministic {_}.
Arguments descendants {_}. Arguments origin_check {_}. Arguments world {_}.

(** ** The manifest parser *)

Definition significant (raw : string) : bool :=
  negb (bool_decide (trim raw = "") || starts_with "#" (trim raw)).

Definition well_formed (raw : string) (p : string * string) : Prop :=
  split_whitespace (trim raw) = [p.1; p.2] ∧ String.length p.1 = 64
  ∧ all_chars is_ascii_hexdigit p.1 = true ∧ ends_with ".sql" p.2 = true.

Definition binding (p : string * string) : string * string := (p.2, to_ascii_lowercase p.1).

Lemma manifest_line_skip m raw : significant raw = false → manifest_line m raw = ROk m.
Proof. unfold significant, manifest_line. intros ->%negb_false_iff. done. Qed.

Lemma manifest_line_ok m raw m' :
  significant raw = true →
  manifest_line m raw = ROk m' ↔
  ∃ p, well_formed raw p ∧ m !! p.2 = None ∧ m' = <[p.2 := to_ascii_lowercase p.1]> m.
Proof.
  unfold significant, manifest_line. intros ->%negb_true_iff. unfold well_formed. split.
  - intros E. repeat (case_match; try done). bool_prop. injection E as <-.
    exists (s, s0). simpl. split_and!; try done. by apply Nat.eqb_eq.
  - intros ([d n] & (-> & Hl & Hh & Hs) & Hm & ->). simpl in *.
    by rewrite Hl, Hh, Hs, Hm.
Qed.

Lemma parse_lines_spec ls m m' :
  fold_result manifest_line m ls = ROk m' ↔
  ∃ ps, Forall2 well_formed (List.filter significant ls) ps ∧ NoDup (snd <$> ps)
    ∧ (∀ p, p ∈ ps → m !! p.2 = None) ∧ m' = list_to_map (binding <$> ps) ∪ m.
Proof.
  revert m. induction ls as [|raw ls IH]; intros m; cbn [fold_result List.filter].
  { split.
    - intros [= <-]. exists []. split_and!; [constructor|constructor|by intros p ?%not_elem_of_nil|].
      simpl. by rewrite (left_id_L ∅ (∪)).
    - intros (ps & Hf & _ & _ & ->). inversion Hf; subst. simpl. by rewrite (left_id_L ∅ (∪)). }
  destruct (significant raw) eqn:Es; [|by rewrite manifest_line_skip, IH by done].
  split.
  - destruct (manifest_line m raw) as [m1|] eqn:E; [|done].
    apply manifest_line_ok in E as (p & Hp & Hm & ->); [|done].
    rewrite IH. intros (ps & Hf & Hn & Hd & ->). exists (p :: ps).
    assert (p.2 ∉ snd <$> ps) as Hnin.
    { intros (q & Eq & Hq)%list_elem_of_fmap. pose proof (Hd q Hq) as Hq'.
      rewrite <-Eq, lookup_insert_eq in Hq'. done. }
    split_and!; [by constructor|by constructor| |].
    + intros q [->|Hq]%elem_of_cons; [done|]. pose proof (Hd q Hq) as Hq'.
      by apply lookup_insert_None in Hq' as [? _].
    + rewrite fmap_cons. simpl.
      rewrite <-insert_union_l, insert_union_r; [done|].
      apply not_elem_of_list_to_map_1. rewrite <-list_fmap_compose. by rewrite (list_fmap_ext _ snd).
  - intros (ps & Hf & Hn & Hd & ->). inversion Hf as [|? p ? ps' Hp Hf' E1 E2]; subst. clear Hf.
    rewrite fmap_cons in Hn. apply NoDup_cons in Hn as [Hnin Hn].
    assert (manifest_line m raw = ROk (<[p.2 := to_ascii_lowercase p.1]> m)) as ->.
    { apply manifest_line_ok; [done|]. exists p. split_and!; [done| |done]. apply Hd. by left. }
    apply IH. exists ps'. split_and!; [done|done| |].
    + intros q Hq. rewrite lookup_insert_ne; [apply Hd; by right|].
      intros E. apply Hnin. rewrite E. by apply list_elem_of_fmap_2.
    + rewrite fmap_cons. simpl. rewrite <-insert_union_l, insert_union_r; [done|].
      apply not_elem_of_list_to_map_1. rewrite <-list_fmap_compose. by rewrite (list_fmap_ext _ snd).
Qed.

(** The parser is strict. *)
Theorem manifest_parser_strict body m :
  parse_migration_manifest body = ROk m ↔
  ∃ ps, Forall2 well_formed (List.filter significant (lines body)) ps ∧ NoDup (snd <$> ps)
    ∧ m = list_to_map (binding <$> ps).
Proof.
  unfold parse_migration_manifest. rewrite parse_lines_spec. split.
  - intros (ps & ? & ? & _ & ->). exists ps. by rewrite (right_id_L ∅ (∪)).
  - intros (ps & ? & ? & ->). exists ps. split_and!; [done|done|done|].
    by rewrite (right_id_L ∅ (∪)).
Qed.

Section bundle.
Context (sha256_hex : string → string).

Lemma check_digests_ok m es :
  (∃ u, fold_result (check_digest sha256_hex m) () es = ROk u) ↔
  ∀ name sql, (name, sql) ∈ es → m !! name = Some (migration_sha256 sha256_hex sql).
Proof.
  induction es as [|[name sql] es IH]; cbn [fold_result].
  { split; [by intros _ name sql ?%not_elem_of_nil|by exists ()]. }
  unfold check_digest at 1. simpl. destruct (m !! name) as [want|] eqn:E.
  - case_decide as Ed.
    + rewrite IH. subst want. set_solver.
    + split; [by intros [? ?]|]. intros H. exfalso. apply Ed.
      specialize (H name sql (list_elem_of_here _ _)). rewrite E in H. by injection H.
  - split; [by intros [? ?]|]. intros H. specialize (H name sql (list_elem_of_here _ _)). congruence.
Qed.

(** A bundle exists exactly when the manifest vouches for every file. *)
Theorem bundle_is_reviewed source entries body b :
  build sha256_hex source entries body = ROk b ↔
  parse_migration_manifest body = ROk (MigrationBundle.manifest b)
  ∧ (∀ name, is_Some (MigrationBundle.manifest b !! name) ↔ name ∈ fst <$> entries)
  ∧ (∀ name sql, (name, sql) ∈ entries →
       MigrationBundle.manifest b !! name = Some (migration_sha256 sha256_hex sql))
  ∧ MigrationBundle.source b = source
  ∧ MigrationBundle.entries b = stable_sort (λ x y, String.leb x.1 y.1) entries.
Proof.
  unfold build. set (es := stable_sort _ entries).
  assert (∀ e, e ∈ es ↔ e ∈ entries) as Hes by (intros; apply elem_of_stable_sort).
  assert (∀ name, name ∈ fst <$> es ↔ name ∈ fst <$> entries) as Hns.
  { intros name. rewrite !list_elem_of_fmap. by setoid_rewrite Hes. }
  destruct (parse_migration_manifest body) as [m|e] eqn:Ep; [|split; [done|by intros (? & _)]].
  pose proof (check_digests_ok m es) as Hck.
  set (present := list_to_set (fst <$> es) : gset string).
  assert (((present ∖ dom m = ∅) ∧ (dom m ∖ present = ∅)) ↔
    ∀ name, is_Some (m !! name) ↔ name ∈ fst <$> entries) as Hset.
  { split.
    - intros [H1 H2] name. rewrite <-elem_of_dom, <-Hns, <-(elem_of_list_to_set (C := gset string)).
      fold present. split; intros Hx; apply dec_stable; intros Hn;
        apply (not_elem_of_empty (C := gset string) name); [rewrite <-H2|rewrite <-H1];
        by apply elem_of_difference.
    - intros Hb. assert (present = dom m) as ->; [|by rewrite difference_diag_L].
      apply set_eq. intros name. unfold present.
      by rewrite elem_of_list_to_set, elem_of_dom, Hns, Hb. }
  split.
  - intros E. case_bool_decide as E1; [|done]. cbn [negb] in E.
    case_bool_decide as E2; [|done]. cbn [negb] in E.
    destruct (fold_result _ () es) as [u|] eqn:Ef; [|done]. injection E as <-. simpl.
    split_and!; [done|by apply Hset| |done|done].
    intros name sql Hin. apply (proj1 Hck); [by eexists|by apply Hes].
  - intros (Em & Hb & Hd & Es & Ee). injection Em as ->.
    apply Hset in Hb as [E1 E2]. rewrite !bool_decide_eq_true_2 by done. cbn [negb].
    destruct (proj2 Hck) as [u ->]; [intros; apply Hd; by apply Hes|].
    subst. by destruct b; simpl in *; subst.
Qed.
End bundle.

(** ** The verifier *)

Section verifier.
Context (sha256_hex : string → string) {W : Type}.
Implicit Types db : ledger_db W.

(** The row recorded for [name] answers for these bytes. *)
Definition answers (db : ledger_db W) (name sql : string) : Prop :=
  ∃ row recorded, ledger db !! name = Some row ∧ applied_digest db row = Some recorded
    ∧ recorded_digest recorded = migration_sha256 sha256_hex sql.

Lemma recorded_plain s : is_baseline s = false → recorded_digest s = s.
Proof. unfold is_baseline, starts_with, recorded_digest. by destruct (strip_prefix _ s). Qed.

Definition clean (f : findings) : Prop := pending f = [] ∧ mismatched f = [] ∧ unverifiable f = [].

Lemma classify_clean db f name sql :
  clean (classify db f (name, migration_sha256 sha256_hex sql)) ↔ clean f ∧ answers db name sql.
Proof.
  unfold clean, classify, answers. destruct (ledger db !! name) as [row|] eqn:E; simpl.
  - destruct (applied_digest db row) as [r|] eqn:Er.
    + assert (∀ P : Prop, (∃ row0 recorded, Some row = Some row0 ∧ applied_digest db row0 = Some recorded
        ∧ recorded_digest recorded = migration_sha256 sha256_hex sql) ↔
        recorded_digest r = migration_sha256 sha256_hex sql) as Hone.
      { intros _. split; [intros (? & ? & [= <-] & E1 & E2); congruence|]. intros. by exists row, r. }
      rewrite (Hone True). destruct (is_baseline r) eqn:Eb.
      * case_decide; simpl; [naive_solver|]. split; [|naive_solver].
        intros (_ & Hm & _). by destruct (mismatched f).
      * rewrite (recorded_plain _ Eb). case_decide; simpl; [naive_solver|]. split; [|naive_solver].
        intros (_ & Hm & _). by destruct (mismatched f).
    + simpl. split; [intros (_ & _ & Hm); by destruct (unverifiable f)|].
      intros (_ & ? & ? & [= <-] & ? & _). congruence.
  - split; [intros (Hm & _); by destruct (pending f)|]. by intros (_ & ? & ? & ? & _).
Qed.

Lemma classify_all_clean db es f :
  clean (fold_left (classify db) (prod_map id (migration_sha256 sha256_hex) <$> es) f) ↔
  clean f ∧ ∀ name sql, (name, sql) ∈ es → answers db name sql.
Proof.
  revert f. induction es as [|[name sql] es IH]; intros f.
  { simpl. split; [|naive_solver]. intros ?. split; [done|]. by intros ?? ?%not_elem_of_nil. }
  rewrite fmap_cons. cbn [fold_left]. rewrite IH. change (prod_map id _ (name, sql)) with (name, migration_sha256 sha256_hex sql).
  rewrite classify_clean. split.
  - intros [[? ?] ?]. split; [done|]. intros n s [[= -> ->]|?]%elem_of_cons; auto.
  - intros [? Ha]. split; [split; [done|apply Ha; by left]|]. intros. apply Ha. by right.
Qed.

(** Every recorded digest has a provenance. *)
Definition provenanced (db : ledger_db W) : Prop :=
  has_sha_column db = true →
  ∀ name row, ledger db !! name = Some row → is_Some (sha256 row) →
    has_origin_column db = true ∧ digest_origin row ≠ None.

Lemma filter_nil {A} (P : A → bool) l : List.filter P l = [] ↔ ∀ x, x ∈ l → P x = false.
Proof.
  split; [|apply filter_none]. intros E x Hx. destruct (P x) eqn:Ep; [|done].
  assert (x ∈ List.filter P l) as Hin by by rewrite list_elem_of_In, filter_In, <-list_elem_of_In.
  rewrite E in Hin. by apply not_elem_of_nil in Hin.
Qed.

Lemma fmap_nil {A B} (g : A → B) l : g <$> l = [] ↔ l = [].
Proof. by destruct l. Qed.

Lemma provenanceless_nil db : provenanceless db = [] ↔ provenanced db.
Proof.
  unfold provenanceless, provenanced. destruct (has_sha_column db); [|by split].
  rewrite fmap_nil, filter_nil. split.
  - intros Hall _ name row Hr Hs. specialize (Hall (name, row)). simpl in Hall.
    rewrite bool_decide_eq_true_2 in Hall by done. cbn [andb] in Hall.
    assert ((name, row) ∈ map_to_list (ledger db)) as Hin by by apply elem_of_map_to_list.
    apply Hall in Hin. destruct (has_origin_column db); [|done]. split; [done|].
    by apply bool_decide_eq_false in Hin.
  - intros Hp [name row] Hin%elem_of_map_to_list. case_bool_decide as Es; [|done].
    destruct (Hp eq_refl name row Hin Es) as [-> Ho]. by rewrite bool_decide_eq_false_2.
Qed.

(** The verifier passes exactly on a schema the bundle answers for. *)
Theorem schema_current_iff db bundle :
  ensure_schema_current sha256_hex db bundle = ROk () ↔
  ledger_exists db = true
  ∧ assert_ledger_provenance_authority db = ROk ()
  ∧ (has_origin_column db = true → assert_ledger_provenance_values db = ROk ())
  ∧ (∀ name sql, (name, sql) ∈ MigrationBundle.entries bundle → answers db name sql)
  ∧ (∀ name, is_Some (ledger db !! name) → name ∈ fst <$> MigrationBundle.entries bundle)
  ∧ provenanced db.
Proof.
  unfold ensure_schema_current. destruct (ledger_exists db); [cbn [negb]|split; [done|by intros [? _]]].
  destruct (assert_ledger_provenance_authority db) as [[]|] eqn:Ea; [|split; [done|by intros (_ & ? & _)]].
  set (es := MigrationBundle.entries bundle).
  assert ((if has_origin_column db then assert_ledger_provenance_values db else ROk ()) = ROk () ↔
    (has_origin_column db = true → assert_ledger_provenance_values db = ROk ())) as Hv
    by (destruct (has_origin_column db); naive_solver).
  destruct (if has_origin_column db then assert_ledger_provenance_values db else ROk ()) as [[]|] eqn:Ev;
    [|split; [done|intros (_ & _ & H & _); apply Hv in H; done]].
  pose proof (classify_all_clean db es (MkFindings [] [] [] [])) as Hc.
  assert (clean (MkFindings [] [] [] [])) as H0 by done.
  set (f := fold_left _ _ _) in *.
  set (unknown := List.filter _ _).
  assert (unknown = [] ↔ ∀ name, is_Some (ledger db !! name) → name ∈ fst <$> es) as Hu.
  { unfold unknown. rewrite filter_nil. unfold ledger_names, contains.
    assert (fst <$> (prod_map id (migration_sha256 sha256_hex) <$> es) = fst <$> es) as ->.
    { rewrite <-list_fmap_compose. apply list_fmap_ext. by intros _ [] _. }
    split.
    - intros Hall name [row Hr].
      assert (name ∈ fst <$> map_to_list (ledger db)) as Hin.
      { apply list_elem_of_fmap. exists (name, row). split; [done|]. by apply elem_of_map_to_list. }
      apply Hall in Hin. by bool_prop.
    - intros Hall x ([name row] & -> & Hin%elem_of_map_to_list)%list_elem_of_fmap. simpl.
      rewrite bool_decide_eq_true_2; [done|]. apply Hall. by eexists. }
  rewrite <-provenanceless_nil, <-Hu. split.
  - repeat (case_bool_decide; cbn [negb]; [|done]). intros _. split_and!; try done.
    + by apply Hv.
    + apply Hc. by split_and!.
  - intros (_ & _ & _ & Ha & Eu & Ep). destruct (proj2 Hc) as (E1 & E2 & E3); [done|].
    by rewrite E1, E2, E3, Eu, Ep.
Qed.
End verifier.

(** ** The migrator *)

Section migrator.
Context (sha256_hex : string → string) {W : Type} (exec_sql : W → string → option W)
  (revoke_sql : W → string → W * option string) (preflight_repairs : W → W * result ())
  (canonical_expr : string).
Implicit Types (db : ledger_db W) (row : LedgerRow).

Abbreviation sha := (migration_sha256 sha256_hex).
Abbreviation entry_step := (apply_entry sha256_hex exec_sql).
Abbreviation entries_run := (apply_entries sha256_hex exec_sql).
Abbreviation migrate := (migrate_bundle_with sha256_hex exec_sql revoke_sql preflight_repairs canonical_expr).

(** A row the verifier accepts for these bytes. *)
Definition verified_row (sql : string) (row : LedgerRow) : Prop :=
  ∃ recorded, sha256 row = Some recorded ∧ recorded_digest recorded = sha sql
    ∧ is_Some (digest_origin row).

Lemma recorded_baseline d : recorded_digest (BASELINE_PREFIX +:+ d) = d.
Proof. unfold recorded_digest. by rewrite (proj2 (strip_prefix_Some BASELINE_PREFIX _ d) eq_refl). Qed.

(** A digest without provenance that is not this file's. *)
Definition drifted (row : LedgerRow) (sql : string) : Prop :=
  ∃ bare, sha256 row = Some bare ∧ digest_origin row = None ∧ recorded_digest bare ≠ sha sql.

(** What one file of the loop does. *)
Inductive entry_effect (accept : bool) (name sql : string) (db db' : ledger_db W) : Prop :=
  | EffApplied w
      (Hnew : ledger db !! name = None) (Hexec : exec_sql (world db) sql = Some w)
      (Heff : db' = with_ledger (with_world db w)
                      (<[name := MkRow (Some (sha sql)) (Some "applied")]> (ledger db)))
  | EffKept row (Hold : ledger db !! name = Some row) (Hver : verified_row sql row) (Heff : db' = db)
  | EffBaseline row d (Hold : ledger db !! name = Some row) (Haccept : accept = true)
      (Hdigest : ∀ r, sha256 row = Some r → recorded_digest r = d)
      (Hok : d = sha sql ∨ drifted row sql)
      (Heff : db' = with_ledger db
                (<[name := MkRow (Some (BASELINE_PREFIX +:+ d)) (Some "baseline")]> (ledger db))).

Lemma apply_entry_effect accept bundle db name sql db' :
  entry_step accept bundle db (name, sql) = ROk db' → entry_effect accept name sql db db'.
Proof.
  unfold apply_entry. destruct (ledger db !! name) as [[sh orig]|] eqn:E; simpl.
  - destruct sh as [rec|].
    + destruct orig as [o|].
      * case_decide; [|done]. intros [= <-]. eapply EffKept; [done| |done]. by exists rec.
      * destruct accept; [|done]. intros [= <-]. eapply EffBaseline; [done|done| | |done].
        -- by intros r [= <-].
        -- destruct (decide (recorded_digest rec = sha sql)); [by left|right; by exists rec].
    + destruct (manifest_digest bundle name); [|by destruct orig].
      case_decide; [|by destruct orig]. destruct accept; [|by destruct orig].
      intros H'. eapply EffBaseline; [done|done|done|by left|]. destruct orig; congruence.
  - destruct (exec_sql (world db) sql) as [w|] eqn:Ew; [|done]. intros [= <-]. by eapply EffApplied.
Qed.

Definition columns_present db : Prop :=
  ledger_exists db = true ∧ has_sha_column db = true ∧ has_origin_column db = true.

Definition legal_rows db : Prop :=
  ∀ name row, ledger db !! name = Some row → illegal_origin row = false.

Lemma values_ok db : assert_ledger_provenance_values db = ROk () ↔ legal_rows db.
Proof.
  unfold assert_ledger_provenance_values, legal_rows.
  destruct (existsb _ _) eqn:E.
  - split; [done|]. apply existsb_exists_elem in E as ([n r] & Hin%elem_of_map_to_list & Hr).
    intros Hl. rewrite (Hl n r Hin) in Hr. done.
  - split; [|done]. intros _ n r Hr. rewrite existsb_false_elem in E.
    apply (E (n, r)). by apply elem_of_map_to_list.
Qed.

(** What the loop keeps of the catalog. *)
Definition same_catalog db db' : Prop :=
  ledger_exists db' = ledger_exists db ∧ has_sha_column db' = has_sha_column db
  ∧ has_origin_column db' = has_origin_column db ∧ nondeterministic db' = nondeterministic db
  ∧ descendants db' = descendants db ∧ origin_check db' = origin_check db.

Lemma effect_catalog accept name sql db db' :
  entry_effect accept name sql db db' → same_catalog db db'.
Proof. unfold same_catalog. by intros [|? ? ? ->|]; subst. Qed.

Lemma effect_legal accept name sql db db' :
  entry_effect accept name sql db db' → legal_rows db → legal_rows db'.
Proof.
  intros [w Hn Hx ->|row Ho Hv ->|row d Ho Ha Hd Hk ->] Hl; [|done|]; simpl;
    intros n r; simpl; (destruct (decide (n = name)) as [->|];
      [rewrite lookup_insert_eq; by intros [= <-]|rewrite lookup_insert_ne by done; apply Hl]).
Qed.

(** Rows of other names, and rows already verified, are left alone. *)
Lemma effect_other accept name sql db db' n :
  entry_effect accept name sql db db' → n ≠ name → ledger db' !! n = ledger db !! n.
Proof. intros [w Hn Hx ->|row Ho Hv ->|row d Ho Ha Hd Hk ->] Hne; simpl; rewrite ?lookup_insert_ne; done. Qed.

Lemma effect_verified accept name sql db db' n s row :
  entry_effect accept name sql db db' → ledger db !! n = Some row → verified_row s row →
  ledger db' !! n = Some row ∨ n = name ∧ ∃ row', ledger db' !! n = Some row' ∧ verified_row s row'.
Proof.
  intros Heff Hr Hv. destruct (decide (n = name)) as [->|]; [|left; by erewrite effect_other].
  destruct Heff as [w Hn Hx ->|row' Ho Hv' ->|row' d Ho Ha Hd Hk ->]; [congruence|by left|].
  right. split; [done|]. simpl. rewrite lookup_insert_eq. eexists. split; [done|].
  destruct Hv as (rec & E1 & E2 & E3). assert (row' = row) as -> by congruence.
  exists (BASELINE_PREFIX +:+ d). rewrite recorded_baseline. split_and!; [done| |by eexists].
  rewrite <-E2. symmetry. by apply Hd.
Qed.

Lemma effect_names accept name sql db db' n :
  entry_effect accept name sql db db' →
  is_Some (ledger db' !! n) ↔ is_Some (ledger db !! n) ∨ n = name.
Proof.
  intros Heff. destruct (decide (n = name)) as [->|].
  - destruct Heff as [w Hn Hx ->|row' Ho Hv' ->|row' d Ho Ha Hd Hk ->]; simpl;
      rewrite ?lookup_insert_eq; split; eauto.
  - rewrite (effect_other _ _ _ _ _ _ Heff) by done. naive_solver.
Qed.

Lemma apply_entries_app accept bundle db e es db' r :
  entries_run accept bundle db (e :: es) = (db', r) →
  (∃ db1, entry_step accept bundle db e = ROk db1 ∧ entries_run accept bundle db1 es = (db', r))
  ∨ (∃ m, entry_step accept bundle db e = RErr m ∧ db' = db ∧ r = RErr m).
Proof.
  cbn [apply_entries]. destruct (entry_step accept bundle db e) as [db1|m].
  - intros E. left. by exists db1.
  - intros [= <- <-]. right. by exists m.
Qed.

(** No digest without provenance disagrees with its file. *)
Definition no_drift (es : list (string * string)) db : Prop :=
  ∀ name sql row, (name, sql) ∈ es → ledger db !! name = Some row → ¬ drifted row sql.

(** SHA-256 is printed in hexadecimal. *)
Context (Hhex : ∀ s, all_chars is_ascii_hexdigit (sha256_hex s) = true).

Lemma sha_plain sql : recorded_digest (sha sql) = sha sql.
Proof using Hhex.
  apply recorded_plain. unfold is_baseline, starts_with.
  destruct (strip_prefix BASELINE_PREFIX (sha sql)) as [r|] eqn:E; [|done].
  apply strip_prefix_Some in E. pose proof (Hhex (unix_newlines sql)) as Hh.
  unfold migration_sha256 in E. by rewrite E in Hh.
Qed.

Lemma effect_here accept name sql db db' :
  entry_effect accept name sql db db' →
  (accept = true → ∀ row, ledger db !! name = Some row → ¬ drifted row sql) →
  ∃ row, ledger db' !! name = Some row ∧ verified_row sql row.
Proof using Hhex.
  intros [w Hn Hx ->|row Ho Hv ->|row d Ho Ha Hd [->|Hk] ->] Hdr; simpl.
  - rewrite lookup_insert_eq. eexists. split; [done|]. exists (sha sql).
    by rewrite sha_plain.
  - by exists row.
  - rewrite lookup_insert_eq. eexists. split; [done|]. exists (BASELINE_PREFIX +:+ sha sql).
    rewrite recorded_baseline. split_and!; [done|done|by eexists].
  - exfalso. by eapply Hdr.
Qed.

Lemma effect_no_drift accept name sql db db' es :
  entry_effect accept name sql db db' → no_drift es db → no_drift es db'.
Proof using.
  intros Heff Hd n s row Hin Hr Hdr. destruct (decide (n = name)) as [->|];
    [|erewrite effect_other in Hr by done; by eapply Hd].
  destruct Heff as [w Hn Hx ->|row' Ho Hv ->|row' d Ho Ha Hdg Hk ->]; simpl in *;
    [|by eapply Hd|]; rewrite lookup_insert_eq in Hr; injection Hr as <-;
    by destruct Hdr as (? & _ & ? & _).
Qed.

(** What a completed loop leaves. *)
Lemma run_ok accept bundle db es db' :
  entries_run accept bundle db es = (db', ROk ()) →
  (accept = true → no_drift es db) →
  same_catalog db db'
  ∧ (legal_rows db → legal_rows db')
  ∧ (∀ n, is_Some (ledger db' !! n) ↔ is_Some (ledger db !! n) ∨ n ∈ fst <$> es)
  ∧ (∀ n s, (∃ row, ledger db !! n = Some row ∧ verified_row s row) →
       ∃ row, ledger db' !! n = Some row ∧ verified_row s row)
  ∧ ∀ name sql, (name, sql) ∈ es → ∃ row, ledger db' !! name = Some row ∧ verified_row sql row.
Proof using Hhex.
  revert db. induction es as [|[name sql] es IH]; intros db.
  { simpl. intros [= <-] _. split_and!; [by unfold same_catalog|done|set_solver|done|].
    by intros ?? ?%not_elem_of_nil. }
  intros [(db1 & Hstep & Hrun)|(m & _ & _ & ?)]%apply_entries_app Hdr; [|done].
  apply apply_entry_effect in Hstep as Heff.
  destruct (IH db1 Hrun) as (C & L & N & V & A).
  { intros Ha. eapply effect_no_drift; [done|]. intros n s row Hin. apply (Hdr Ha). by right. }
  assert (∀ n s, (∃ row, ledger db !! n = Some row ∧ verified_row s row) →
    ∃ row, ledger db1 !! n = Some row ∧ verified_row s row) as Hstepv.
  { intros n s (row & Hr & Hv). destruct (effect_verified _ _ _ _ _ _ _ _ Heff Hr Hv) as [?|(_ & ?)]; eauto. }
  split_and!.
  - pose proof (effect_catalog _ _ _ _ _ Heff) as C1. unfold same_catalog in *.
    destruct C as (?&?&?&?&?&?), C1 as (?&?&?&?&?&?). split_and!; congruence.
  - intros Hl. apply L. by eapply effect_legal.
  - intros n. rewrite N, (effect_names _ _ _ _ _ _ Heff), fmap_cons, elem_of_cons. simpl. tauto.
  - intros n s Hv. apply V. by apply Hstepv.
  - intros n s [[= -> ->]|Hin]%elem_of_cons; [|by apply A]. apply V.
    eapply effect_here; [done|]. intros Ha row Hr. eapply (Hdr Ha); [by left|done].
Qed.

(** The state the loop starts from. *)
Lemma migrate_inv accept bundle db db' r :
  migrate db bundle accept = (db', r) →
  (∃ e, r = RErr e)
  ∨ ∃ db0 w1 w2, entries_run accept bundle db0 (MigrationBundle.entries bundle) = (db', r)
      ∧ columns_present db0 ∧ legal_rows db0
      ∧ ledger db0 = ledger (bootstrap db) ∧ world db0 = w2
      ∧ protect_ledger revoke_sql (world db) ledger_roles = (w1, ROk ())
      ∧ preflight_repairs w1 = (w2, ROk ())
      ∧ assert_ledger_provenance_authority db0 = ROk ()
      ∧ ∃ c, origin_check db0 = Some c ∧ digest_origin_check_is_canonical canonical_expr c = true.
Proof using.
  unfold migrate_bundle_with. set (db1 := bootstrap db).
  destruct (assert_ledger_provenance_authority db1) as [[]|e] eqn:Ea; [|intros [= <- <-]; left; by eexists].
  destruct (constraint_step canonical_expr db1) as [db2 [[]|e]] eqn:Ec; [|intros [= <- <-]; left; by eexists].
  assert (∃ oc, db2 = MkLedger true true true (ledger db1) (nondeterministic db1) (descendants db1) (Some oc) (world db1)
    ∧ digest_origin_check_is_canonical canonical_expr oc = true
    ∧ (is_check oc && connoinherit oc) = false
    ∧ legal_rows db1) as (oc & -> & Hoc & Hni & Hleg).
  { unfold constraint_step in Ec. destruct (origin_check db1) as [c|] eqn:Eo.
    - destruct (digest_origin_check_is_canonical canonical_expr c) eqn:Ek; [|done].
      injection Ec as <- Ev%values_ok. exists c. split_and!; [|done| |done].
      + rewrite <-Eo. done.
      + unfold assert_ledger_provenance_authority in Ea. rewrite Eo in Ea.
        destruct (nondeterministic db1); [done|]. destruct (descendants db1); [|done].
        by destruct (is_check c && connoinherit c).
    - destruct (assert_ledger_provenance_values db1) as [[]|] eqn:Ev; [|done].
      injection Ec as <-. exists (canonical_check canonical_expr). split_and!; [done| |done|by apply values_ok].
      unfold digest_origin_check_is_canonical. simpl. by apply bool_decide_eq_true_2. }
  simpl world. destruct (protect_ledger revoke_sql (world db) ledger_roles) as [w1 [[]|e]] eqn:Ep;
    [|intros [= <- <-]; left; by eexists].
  destruct (preflight_repairs w1) as [w2 [[]|e]] eqn:Ef; [|intros [= <- <-]; left; by eexists].
  intros Hrun. right.
  eexists _, w1, w2. split; [exact Hrun|]. split_and!; simpl; try done.
  - unfold assert_ledger_provenance_authority in *. simpl in *.
    destruct (nondeterministic db); [done|]. destruct (descendants db); [|done].
    by rewrite Hni.
  - by exists oc.
Qed.

Lemma bootstrap_id db : columns_present db → bootstrap db = db.
Proof using.
  intros (E1 & E2 & E3). destruct db as [e h o l n d c w]. simpl in *. subst. unfold bootstrap. simpl.
  f_equal. apply map_eq. intros i. rewrite lookup_fmap. by destruct (l !! i) as [[]|].
Qed.

Lemma authority_same db db' :
  same_catalog db db' →
  assert_ledger_provenance_authority db' = assert_ledger_provenance_authority db.
Proof using.
  intros (_ & _ & _ & E1 & E2 & E3). unfold assert_ledger_provenance_authority.
  by rewrite E1, E2, E3.
Qed.

(** Claim C18: What the migrator leaves, the verifier accepts. *)
Theorem migrated_is_current db bundle accept db'
    (Hrun : migrate db bundle accept = (db', ROk ()))
    (Hdrift : accept = true → no_drift (MigrationBundle.entries bundle) (bootstrap db)) :
  ensure_schema_current sha256_hex db' bundle = ROk ()
  ↔ ∀ name, is_Some (ledger (bootstrap db) !! name) → name ∈ fst <$> MigrationBundle.entries bundle.
Proof using Hhex.
  apply migrate_inv in Hrun as [[? ?]|(db0 & w1 & w2 & Hrun & (C1 & C2 & C3) & Hleg & El & _ & _ & _ & Hauth & _)];
    [done|].
  destruct (run_ok _ _ _ _ _ Hrun) as (C & L & N & _ & A).
  { intros Ha n s row Hin. rewrite El. by apply (Hdrift Ha). }
  rewrite schema_current_iff. unfold applied_digest, answers.
  pose proof (authority_same _ _ C) as Ea. pose proof C as (D1 & D2 & D3 & _).
  assert (∀ row : LedgerRow, applied_digest db' row = sha256 row) as Hap
    by (intros; unfold applied_digest; by rewrite D2, C2).
  split.
  - intros (_ & _ & _ & _ & Hn & _) name Hs. apply Hn, N. left. by rewrite El.
  - intros Hn.
    assert (∀ name, is_Some (ledger db' !! name) → name ∈ fst <$> MigrationBundle.entries bundle) as Hall.
    { intros name [Hs|?]%N; [|done]. apply Hn. by rewrite <-El. }
    split_and!; [congruence|by rewrite Ea|intros _; apply values_ok; auto| |done|].
    + intros name sql Hin. destruct (A name sql Hin) as (row & Hr & rec & E1 & E2 & _).
      exists row, rec. by rewrite Hap.
    + intros _ name row Hr _. split; [congruence|].
      assert (name ∈ fst <$> MigrationBundle.entries bundle) as Hin by (apply Hall; by eexists).
      apply list_elem_of_fmap in Hin as ([n s] & -> & Hin).
      destruct (A n s Hin) as (row' & Hr' & rec & _ & _ & Ho). simpl in *.
      rewrite Hr in Hr'. injection Hr' as <-. intros E. rewrite E in Ho. by destruct Ho.
Qed.

(** A verified ledger makes the loop a no-op. *)
Lemma run_verified_noop accept bundle db es :
  (∀ name sql, (name, sql) ∈ es → ∃ row, ledger db !! name = Some row ∧ verified_row sql row) →
  entries_run accept bundle db es = (db, ROk ()).
Proof using.
  induction es as [|[name sql] es IH]; intros Hall; [done|]. cbn [apply_entries].
  destruct (Hall name sql) as (row & Hr & rec & E1 & E2 & [o Ho]); [by left|].
  unfold apply_entry at 1. rewrite Hr, E1, Ho, decide_True by done. apply IH. intros. apply Hall. by right.
Qed.

(** A second run executes nothing. *)
Theorem migration_idempotent db bundle accept db' accept' w1 w2
    (Hrun : migrate db bundle accept = (db', ROk ()))
    (Hdrift : accept = true → no_drift (MigrationBundle.entries bundle) (bootstrap db))
    (Hprotect : protect_ledger revoke_sql (world db') ledger_roles = (w1, ROk ()))
    (Hpreflight : preflight_repairs w1 = (w2, ROk ())) :
  migrate db' bundle accept' = (with_world db' w2, ROk ()).
Proof using Hhex.
  apply migrate_inv in Hrun as [[? ?]|(db0 & w1' & w2' & Hrun & (C1 & C2 & C3) & Hleg & El & _ & _ & _ & Hauth & oc & Hoc & Hcan)];
    [done|].
  destruct (run_ok _ _ _ _ _ Hrun) as (C & L & N & _ & A).
  { intros Ha n s row Hin. rewrite El. by apply (Hdrift Ha). }
  pose proof C as (D1 & D2 & D3 & D4 & D5 & D6).
  unfold migrate_bundle_with.
  assert (columns_present db') as Hcols by (split_and!; congruence).
  rewrite (bootstrap_id db' Hcols), (authority_same _ _ C), Hauth.
  unfold constraint_step. rewrite D6, Hoc, Hcan, (proj2 (values_ok db')) by auto.
  rewrite Hprotect, Hpreflight. apply (run_verified_noop accept' bundle (with_world db' w2)). exact A.
Qed.

(** The files of [es] the ledger does not know, in order. *)
Definition fresh_entries db (es : list (string * string)) : list (string * string) :=
  List.filter (λ e, bool_decide (ledger db !! e.1 = None)) es.

Fixpoint exec_all (w : W) (sqls : list string) : option W :=
  match sqls with
  | [] => Some w
  | sql :: sqls => let? w := exec_sql w sql in exec_all w sqls
  end.

(** A row is kept or re-declared a baseline of the same digest. *)
Definition row_kept (accept : bool) (row row' : LedgerRow) : Prop :=
  row' = row ∨ accept = true ∧ digest_origin row' = Some "baseline"
    ∧ ∃ d, sha256 row' = Some (BASELINE_PREFIX +:+ d) ∧ ∀ r, sha256 row = Some r → recorded_digest r = d.

Lemma row_kept_trans accept r1 r2 r3 :
  row_kept accept r1 r2 → row_kept accept r2 r3 → row_kept accept r1 r3.
Proof using.
  intros [->|(Ha & Ho & d & Hd & Hr)] [->|(Ha' & Ho' & d' & Hd' & Hr')]; [by left|by right; split_and!; eauto..|].
  right. split_and!; [done|done|]. exists d'. split; [done|]. intros r Er.
  rewrite (Hr r Er). rewrite <-(Hr' _ Hd). symmetry. apply recorded_baseline.
Qed.

Lemma run_untouched accept bundle db es db' r n :
  entries_run accept bundle db es = (db', r) → n ∉ fst <$> es → ledger db' !! n = ledger db !! n.
Proof using.
  clear Hhex. revert db. induction es as [|[name sql] es IH]; intros db; [by intros [= <- _]|].
  intros Hrun. rewrite fmap_cons, not_elem_of_cons. intros [Hne Hn].
  apply apply_entries_app in Hrun as [(db1 & Hstep & Hrun)|(m & _ & -> & _)]; [|done].
  rewrite (IH db1 Hrun Hn). apply apply_entry_effect in Hstep as Heff.
  by apply (effect_other _ _ _ _ _ _ Heff).
Qed.

(** Every outcome of the loop is a prefix of the reviewed order. *)
Theorem migrations_in_order accept bundle db es db' r
    (Hnodup : NoDup (fst <$> es))
    (Hrun : entries_run accept bundle db es = (db', r)) :
  ∃ k, (r = ROk () → k = length es)
    ∧ exec_all (world db) (snd <$> fresh_entries db (take k es)) = Some (world db')
    ∧ ∀ name, match ledger db !! name with
        | Some row => ∃ row', ledger db' !! name = Some row' ∧ row_kept accept row row'
        | None => ledger db' !! name =
            (λ e, MkRow (Some (sha e.2)) (Some "applied")) <$> find_first (λ e, bool_decide (e.1 = name)) (take k es)
        end.
Proof using.
  clear Hhex. revert db Hrun. induction es as [|[name sql] es IH]; intros db Hrun.
  { injection Hrun as <- <-. exists 0. split; [done|]. split; [done|]. intros name. simpl.
    destruct (ledger db !! name) as [row|] eqn:E; [|done]. exists row. by split; [|left]. }
  rewrite fmap_cons in Hnodup. apply NoDup_cons in Hnodup as [Hnin Hnodup].
  apply apply_entries_app in Hrun as [(db1 & Hstep & Hrun)|(m & _ & -> & ->)]; cycle 1.
  { exists 0. split; [done|]. split; [done|]. intros n. simpl.
    destruct (ledger db !! n) as [row|] eqn:E; [|done]. exists row. by split; [|left]. }
  destruct (IH Hnodup db1 Hrun) as (k & Hk & Hx & Hl). apply apply_entry_effect in Hstep as Heff.
  exists (S k). split; [by intros ->%Hk|]. cbn [take].
  assert (∀ x, x ∈ take k es → x.1 ≠ name) as Hne.
  { intros x Hx' E. apply Hnin. rewrite <-E. apply (list_elem_of_fmap_2 fst es x).
    exact (elem_of_take_l k es x Hx'). }
  assert (fresh_entries db1 (take k es) = fresh_entries db (take k es)) as Hfresh.
  { unfold fresh_entries. revert Hne. generalize (take k es). intros l Hne.
    induction l as [|x l IHl]; [done|]. cbn [List.filter].
    rewrite (effect_other _ _ _ _ _ _ Heff (Hne x (list_elem_of_here _ _))).
    rewrite IHl; [done|]. intros y Hy. apply Hne. by right. }
  rewrite Hfresh in Hx. split.
  - unfold fresh_entries. cbn [List.filter fst]. fold (fresh_entries db (take k es)).
    destruct Heff as [w Hn Hw ->|row Ho Hv ->|row d Ho Ha Hd Hok ->]; simpl in *.
    + rewrite Hn, bool_decide_eq_true_2 by done. rewrite fmap_cons. simpl. by rewrite Hw.
    + by rewrite Ho.
    + by rewrite Ho.
  - intros n. specialize (Hl n). simpl find_first. destruct (decide (n = name)) as [->|Hnn].
    + clear Hl. rewrite (run_untouched _ _ _ _ _ _ name Hrun Hnin), bool_decide_eq_true_2 by done.
      destruct Heff as [w Hn Hw ->|row Ho Hv ->|row d Ho Ha Hd Hok ->]; simpl.
      * by rewrite Hn, lookup_insert_eq.
      * rewrite Ho. exists row. by split; [|left].
      * rewrite Ho, lookup_insert_eq. eexists. split; [done|]. right. split_and!; [done|done|]. by exists d.
    + rewrite bool_decide_eq_false_2 by done. by rewrite (effect_other _ _ _ _ _ _ Heff Hnn) in Hl.
Qed.
End migrator.

(** ** Instances *)

Fixpoint repeat_char (c : ascii) (n : nat) : string :=
  match n with O => "" | S n => String c (repeat_char c n) end.

(** Three digests that tell the two sample files apart. *)
Definition toy_sha (s : string) : string :=
  repeat_char
    (if decide (s = "A") then "a"%char else if decide (s = "B") then "b"%char else "c"%char) 64.

Lemma toy_hex s : all_chars is_ascii_hexdigit (toy_sha s) = true.
Proof. unfold toy_sha. repeat case_decide; vm_compute; done. Qed.

(** The world is the list of executed files; FAIL does not run. *)
Definition toy_exec (w : list string) (sql : string) : option (list string) :=
  if decide (sql = "FAIL") then None else Some (w ++ [sql]).
Definition toy_revoke (w : list string) (_ : string) : list string * option string :=
  (w, Some "role does not exist").
Definition toy_preflight (w : list string) : list string * result () := (w, ROk ()).

Definition toy_files : list (string * string) := [("2.sql", "B"); ("1.sql", "A")].
Definition toy_manifest : string :=
  "# reviewed" +:+ String newline (toy_sha "A" +:+ "  1.sql" +:+ String newline
    (toy_sha "B" +:+ "  2.sql" +:+ String newline "")).

Definition toy_bundle : MigrationBundle :=
  MigrationBundle.mk "toy" [("1.sql", "A"); ("2.sql", "B")]
    {["1.sql" := toy_sha "A"; "2.sql" := toy_sha "B"]}.

Example toy_build : build toy_sha "toy" toy_files toy_manifest = ROk toy_bundle.
Proof. vm_compute. reflexivity. Qed.

Example toy_unreviewed :
  build toy_sha "toy" (("3.sql", "C") :: toy_files) toy_manifest = RErr "unreviewed SQL must never be executed".
Proof. vm_compute. reflexivity. Qed.

Definition fresh_db : ledger_db (list string) := MkLedger false false false ∅ None [] None [].

Abbreviation toy_migrate :=
  (migrate_bundle_with toy_sha toy_exec toy_revoke toy_preflight "canon").

Definition migrated_db : ledger_db (list string) := (toy_migrate fresh_db toy_bundle false).1.

Lemma toy_migrated : toy_migrate fresh_db toy_bundle false = (migrated_db, ROk ()).
Proof. vm_compute. reflexivity. Qed.

Example toy_world : world migrated_db = ["A"; "B"]. Proof. vm_compute. reflexivity. Qed.

Lemma migrated_is_current_witness :
  ensure_schema_current toy_sha migrated_db toy_bundle = ROk ().
Proof.
  apply (migrated_is_current toy_sha toy_exec toy_revoke toy_preflight "canon" toy_hex
           fresh_db toy_bundle false migrated_db toy_migrated ltac:(done)).
  by intros name [? ?].
Defined.

Lemma migration_idempotent_witness :
  toy_migrate migrated_db toy_bundle true = (with_world migrated_db ["A"; "B"], ROk ()).
Proof.
  apply (migration_idempotent toy_sha toy_exec toy_revoke toy_preflight "canon" toy_hex
           fresh_db toy_bundle false migrated_db true ["A"; "B"] ["A"; "B"] toy_migrated);
    [done|vm_compute; reflexivity|reflexivity].
Defined.

(** A failing second file leaves the first applied. *)
Lemma migrations_in_order_witness :
  ∃ k, exec_all toy_exec [] (snd <$> fresh_entries fresh_db (take k [("1.sql", "A"); ("2.sql", "FAIL")]))
       = Some ["A"].
Proof.
  destruct (migrations_in_order toy_sha toy_exec false toy_bundle fresh_db
    [("1.sql", "A"); ("2.sql", "FAIL")]
    (apply_entries toy_sha toy_exec false toy_bundle fresh_db [("1.sql", "A"); ("2.sql", "FAIL")]).1
    (RErr "migration failed")) as (k & _ & Hx & _).
  - by apply (bool_decide_unpack _).
  - vm_compute. reflexivity.
  - by exists k.
Defined.

(** A pre-provenance row whose digest is not the file's. *)
Definition drifted_db : ledger_db (list string) :=
  MkLedger true true true
    {["1.sql" := MkRow (Some (toy_sha "B")) None; "2.sql" := MkRow (Some (toy_sha "B")) (Some "applied")]}
    None [] (Some (canonical_check "canon")) [].

(** [--accept-legacy-baseline] re-declares it without comparing it with the
    file: the migrator succeeds, the verifier and the next run refuse. *)
Theorem accepted_drift_not_current :
  let '(db', r) := toy_migrate drifted_db toy_bundle true in
  r = ROk ()
  ∧ ensure_schema_current toy_sha db' toy_bundle = RErr "no longer match the files on disk"
  ∧ (toy_migrate db' toy_bundle true).2 = RErr "no longer matches the file on disk".
Proof. vm_compute. done. Qed.
