(* ===== verification/Evidence.v ===== *)
(** * Stored evidence and its retention (src/src/db.rs, maintenance.rs)

    The append-only tables that ingestion writes (raw_events, transfers,
    trades), the sync cursors, the market snapshots, and the retention cycle
    that prunes the two disposable tables in bounded batches.  A table is the
    list of its rows in physical order; rows of one age are pruned in that
    order.  [numeric p s] is PostgreSQL's coercion to numeric(p, s): rounding,
    or an error.  A clock is [None] where the statement fails. *)
From S2P Require Import Prelude Text Rows Domain Floats CostBasis Models.
From stdpp Require Import options.
Local Open Scope string_scope.
Local Open Scope Z_scope.
Local Open Scope list_scope.

(** ** The tables *)

Record RawEvent (J : Type) := MkRaw {
  raw_chain : string;
  raw_source : string;
  raw_signature : string;
  raw_payload : J;
  raw_observed_at : Z;
}.
Arguments MkRaw {_}. Arguments raw_chain {_}. Arguments raw_source {_}.
Arguments raw_signature {_}. Arguments raw_payload {_}. Arguments raw_observed_at {_}.

Record TransferRow (D : Type) := MkTransfer {
  tr_chain : string;
  tr_signature : string;
  tr_event_index : Z;
  tr_from : string;
  tr_to : string;
  tr_asset_kind : string;
  tr_mint : string;
  tr_raw_amount : string;
  tr_amount : option D;
  tr_slot : option Z;
  tr_block_time : option Z;
  tr_observed_at : Z;
  tr_source : string;
}.
Arguments MkTransfer {_}. Arguments tr_chain {_}. Arguments tr_signature {_}.
Arguments tr_event_index {_}. Arguments tr_from {_}. Arguments tr_to {_}.

Record TradeRow (D : Type) := MkTrade {
  td_chain : string;
  td_signature : string;
  td_event_index : Z;
  td_wallet : string;
  td_mint : string;
  td_side : string;
  td_raw_native_amount : string;
  td_raw_token_amount : string;
  td_native_amount : option D;
  td_token_amount : option D;
  td_usd_value : option D;
  td_slot : option Z;
  td_block_time : option Z;
  td_observed_at : Z;
  td_dex_id : option string;
  td_source : string;
}.
Arguments MkTrade {_}. Arguments td_chain {_}. Arguments td_signature {_}.
Arguments td_event_index {_}. Arguments td_wallet {_}. Arguments td_mint {_}.
Arguments td_side {_}. Arguments td_token_amount {_}. Arguments td_usd_value {_}.
Arguments td_block_time {_}.

Record SyncState := MkSync {
  sync_cursor : option string;
  sync_updated_at : Z;
  sync_last_error : option string;
}.

(** The columns of a market snapshot that the program reads. *)
Record Snapshot (D : Type) := MkSnapshot {
  ms_chain : string;
  ms_mint : string;
  ms_observed_at : Z;
  ms_liquidity_usd : option D;
  ms_price_usd : option D;
}.
Arguments MkSnapshot {_}. Arguments ms_chain {_}. Arguments ms_mint {_}.
Arguments ms_observed_at {_}. Arguments ms_liquidity_usd {_}. Arguments ms_price_usd {_}.

Record evidence_db (J D : Type) := MkEvidence {
  raw_events : list (RawEvent J);
  transfers : list (TransferRow D);
  trades : list (TradeRow D);
  sync_states : gmap (string * string) SyncState;
  snapshots : list (Snapshot D);
}.
Arguments MkEvidence {_ _}. Arguments raw_events {_ _}. Arguments transfers {_ _}.
Arguments trades {_ _}. Arguments sync_states {_ _}. Arguments snapshots {_ _}.

Definition same_raw {J} (a b : RawEvent J) : bool :=
  bool_decide (raw_chain a = raw_chain b) && bool_decide (raw_source a = raw_source b)
  && bool_decide (raw_signature a = raw_signature b).

Definition same_transfer {D} (a b : TransferRow D) : bool :=
  bool_decide (tr_chain a = tr_chain b) && bool_decide (tr_signature a = tr_signature b)
  && (tr_event_index a =? tr_event_index b)
  && bool_decide (tr_from a = tr_from b) && bool_decide (tr_to a = tr_to b).

Definition same_trade {D} (a b : TradeRow D) : bool :=
  bool_decide (td_chain a = td_chain b) && bool_decide (td_signature a = td_signature b)
  && (td_event_index a =? td_event_index b) && bool_decide (td_wallet a = td_wallet b).

Section store.
Context {J D : Type} `{Decimal D}.
Context (numeric : Z → Z → D → option D) (accepts_raw : RawEvent J → bool).
Local Abbreviation db_t := (evidence_db J D).

(** Whether the row is new. *)
Definition store_raw_event (db : db_t) (chain source signature : string) (payload : J)
    (observed_at : Z) : result (db_t * bool) :=
  let row := MkRaw chain source signature payload observed_at in
  if negb (accepts_raw row) then RErr "insert into raw_events failed" else
  ROk (MkEvidence (insert_absent same_raw row (raw_events db)) (transfers db) (trades db)
         (sync_states db) (snapshots db),
       negb (existsb (same_raw row) (raw_events db))).

Definition store_transfer (db : db_t) (t : NormalizedTransfer D) : result db_t :=
  match numeric 36 12 (NormalizedTransfer.amount t) with
  | None => RErr "insert into transfers failed"
  | Some amount =>
      let row := MkTransfer (ChainKind.as_str (NormalizedTransfer.chain t))
        (NormalizedTransfer.signature t) (NormalizedTransfer.event_index t)
        (NormalizedTransfer.from_address t) (NormalizedTransfer.to_address t)
        (AssetKind.as_str (NormalizedTransfer.asset_kind t)) (NormalizedTransfer.mint t)
        (NormalizedTransfer.raw_amount t) (Some amount) (wrap_i64 <$> NormalizedTransfer.slot t)
        (NormalizedTransfer.block_time t) (NormalizedTransfer.observed_at t)
        (NormalizedTransfer.source t) in
      ROk (MkEvidence (raw_events db) (insert_absent same_transfer row (transfers db)) (trades db)
             (sync_states db) (snapshots db))
  end.

Definition store_trade (db : db_t) (t : NormalizedTrade D) : result db_t :=
  let usd :=
    match NormalizedTrade.usd_value t with
    | None => Some None
    | Some v => Some <$> numeric 30 4 v
    end in
  match numeric 30 9 (NormalizedTrade.native_amount t), numeric 36 12 (NormalizedTrade.token_amount t), usd with
  | Some native, Some token, Some usd =>
      let row := MkTrade (ChainKind.as_str (NormalizedTrade.chain t)) (NormalizedTrade.signature t)
        (NormalizedTrade.event_index t) (NormalizedTrade.wallet t) (NormalizedTrade.mint t)
        (TradeSide.as_str (NormalizedTrade.side t)) (NormalizedTrade.raw_native_amount t)
        (NormalizedTrade.raw_token_amount t) (Some native) (Some token) usd
        (wrap_i64 <$> NormalizedTrade.slot t) (NormalizedTrade.block_time t)
        (NormalizedTrade.observed_at t) (NormalizedTrade.dex_id t) (NormalizedTrade.source t) in
      ROk (MkEvidence (raw_events db) (transfers db) (insert_absent same_trade row (trades db))
             (sync_states db) (snapshots db))
  | _, _, _ => RErr "insert into trades failed"
  end.

Definition get_sync_cursor (db : db_t) (chain stream_kind : string) : option string :=
  sync_states db !! (chain, stream_kind) ≫= sync_cursor.

Definition set_sync_cursor (db : db_t) (clock : Z) (chain stream_kind cursor : string)
    (last_error : option string) : db_t :=
  MkEvidence (raw_events db) (transfers db) (trades db)
    (<[(chain, stream_kind) := MkSync (Some cursor) clock last_error]> (sync_states db))
    (snapshots db).

(** ** Retention *)

(** [now() - (days || ' days')::interval], in a session without clock changes. *)
Definition retention_cutoff (now retention_days : Z) : Z := now - retention_days * 86400 * 10 ^ 9.

Definition raw_older (a b : nat * RawEvent J) : bool := raw_observed_at a.2 <=? raw_observed_at b.2.

(** The physical rows, by their position. *)
Definition positions {A} (rows : list A) : list (nat * A) := zip (seq 0 (length rows)) rows.

Definition expired (cutoff : Z) (rows : list (RawEvent J)) : list (nat * RawEvent J) :=
  List.filter (λ p, raw_observed_at p.2 <? cutoff) (positions rows).

(** The sub-select of one batch. *)
Definition batch (cutoff batch_limit : Z) (rows : list (RawEvent J)) : list (nat * RawEvent J) :=
  take (Z.to_nat batch_limit) (stable_sort raw_older (expired cutoff rows)).

Definition delete_positions {A} (victims : list (nat * A)) (rows : list A) : list A :=
  snd <$> List.filter (λ p, negb (contains p.1 (fst <$> victims))) (positions rows).

Definition with_raw (db : db_t) (rows : list (RawEvent J)) : db_t :=
  MkEvidence rows (transfers db) (trades db) (sync_states db) (snapshots db).

Definition prune_raw_events_batch (db : db_t) (clock : option Z) (retention_days batch_limit : Z)
    : db_t * result Z :=
  match clock with
  | None => (db, RErr "failed to prune raw_events")
  | Some now =>
      let victims := batch (retention_cutoff now retention_days) batch_limit (raw_events db) in
      (with_raw db (delete_positions victims (raw_events db)), ROk (Z.of_nat (length victims)))
  end.

Definition oldest_retained_raw_event (db : db_t) : option Z :=
  min_by Z.ltb (raw_observed_at <$> raw_events db).

Definition prune_market_snapshots (db : db_t) (clock : option Z) (retention_days : Z)
    : db_t * result Z :=
  match clock with
  | None => (db, RErr "prune market_snapshots failed")
  | Some now =>
      let old s := ms_observed_at s <? retention_cutoff now retention_days in
      (MkEvidence (raw_events db) (transfers db) (trades db) (sync_states db)
         (List.filter (λ s, negb (old s)) (snapshots db)),
       ROk (Z.of_nat (length (List.filter old (snapshots db)))))
  end.

Definition BATCH_LIMIT : Z := 5000.
Definition MAX_BATCHES_PER_CYCLE : nat := 40.
Definition MIN_RETENTION_DAYS : Z := 1.
Definition MAX_RETENTION_DAYS : Z := 3650.

Definition effective_retention_days (profile_days : Z) (override_days : option Z) : result Z :=
  let days := default profile_days override_days in
  if days <? MIN_RETENTION_DAYS then
    RErr ("retention must be at least " +:+ pretty MIN_RETENTION_DAYS +:+ " day(s); configured "
          +:+ pretty days)
  else if MAX_RETENTION_DAYS <? days then
    RErr ("retention of " +:+ pretty days +:+ " days exceeds the " +:+ pretty MAX_RETENTION_DAYS
          +:+ "-day maximum")
  else ROk days.

(** The batches of one cycle, batch [i] at [clock i]: at most [n] more. *)
Fixpoint prune_batches (n : nat) (clock : nat → option Z) (i : nat) (db : db_t)
    (retention_days total : Z) : db_t * result Z :=
  match n with
  | O => (db, ROk total)
  | S n =>
      match prune_raw_events_batch db (clock i) retention_days BATCH_LIMIT with
      | (db, RErr e) => (db, RErr e)
      | (db, ROk deleted) =>
          if deleted =? 0 then (db, ROk (total + deleted))
          else prune_batches n clock (S i) db retention_days (total + deleted)
      end
  end.

Definition run_cycle (db : db_t) (clock : nat → option Z) (retention_days : Z) : db_t * result Z :=
  match prune_batches MAX_BATCHES_PER_CYCLE clock 0 db retention_days 0 with
  | (db, RErr e) => (db, RErr e)
  | (db, ROk total) =>
      match prune_market_snapshots db (clock MAX_BATCHES_PER_CYCLE) retention_days with
      | (db, RErr e) => (db, RErr e)
      | (db, ROk n) => (db, ROk (total + n))
      end
  end.
End store.

(** ** maintenance.rs: the observable state *)

Module MaintenanceState.
Record MaintenanceState := mk {
  last_success_unix : Z;
  last_error_unix : Z;
  last_error : option string;
  rows_pruned_total : Z;
  oldest_retained_unix : Z;
  interval_secs : Z;
  started : bool;
  started_at_unix : Z;
}.

Definition new : MaintenanceState := mk 0 0 None 0 0 0 false 0.

Definition record_success (s : MaintenanceState) (clock : Z) (rows : Z) (oldest : option Z)
    : MaintenanceState :=
  mk (timestamp clock) (last_error_unix s) None ((rows_pruned_total s + rows) mod 2 ^ 64)
    (default 0 (timestamp <$> oldest)) (interval_secs s) (started s) (started_at_unix s).

Definition record_error (s : MaintenanceState) (clock : Z) (e : string) : MaintenanceState :=
  mk (last_success_unix s) (timestamp clock) (Some e) (rows_pruned_total s)
    (oldest_retained_unix s) (interval_secs s) (started s) (started_at_unix s).

(** What [spawn] stores before the task starts; [interval] in seconds (a u64). *)
Definition spawned (interval clock : Z) : MaintenanceState :=
  mk 0 0 None 0 0 (wrap_i64 interval) true (timestamp clock).

Section reads.
Context (from_timestamp : Z → option Z).

Definition unix_to_dt (secs : Z) : option Z := if secs <=? 0 then None else from_timestamp secs.

Definition last_success (s : MaintenanceState) : option Z := unix_to_dt (last_success_unix s).
Definition last_error_at (s : MaintenanceState) : option Z := unix_to_dt (last_error_unix s).
Definition oldest_retained (s : MaintenanceState) : option Z := unix_to_dt (oldest_retained_unix s).
Definition started_at (s : MaintenanceState) : option Z := unix_to_dt (started_at_unix s).

Definition next_run (s : MaintenanceState) : option Z :=
  let? last := last_success s in
  if interval_secs s <=? 0 then None else Some (last + interval_secs s * 10 ^ 9).

Definition is_stale (s : MaintenanceState) (now : Z) : bool :=
  if negb (started s) then false else
  if interval_secs s <=? 0 then true else
  match last_success s with
  | None =>
      match started_at s with
      | Some t => wrap_i64 (interval_secs s * 2) <? num_seconds (now - t)
      | None => true
      end
  | Some last => wrap_i64 (interval_secs s * 2) <? num_seconds (now - last)
  end.
End reads.
End MaintenanceState.
Abbreviation MaintenanceState := MaintenanceState.MaintenanceState.

(** [done_at] is the instant of the recording. *)
Definition run_cycle_recording {J D} (db : evidence_db J D) (clock : nat → option Z)
    (retention_days : Z) (done_at : Z) (state : MaintenanceState)
    : evidence_db J D * MaintenanceState * result Z :=
  match run_cycle db clock retention_days with
  | (db, ROk rows) =>
      (db, MaintenanceState.record_success state done_at rows (oldest_retained_raw_event db), ROk rows)
  | (db, RErr e) => (db, MaintenanceState.record_error state done_at e, RErr e)
  end.

(** ** Deletion by position *)

Lemma filter_Permutation {A} (f : A → bool) l l' :
  l ≡ₚ l' → List.filter f l ≡ₚ List.filter f l'.
Proof. induction 1; cbn [List.filter]; repeat case_match; eauto using perm_swap, perm_trans. Qed.

Lemma filter_negb_split {A} (f : A → bool) l :
  l ≡ₚ List.filter f l ++ List.filter (λ x, negb (f x)) l.
Proof.
  induction l as [|x l IH]; cbn [List.filter]; [done|]. destruct (f x); cbn [negb app].
  - by constructor.
  - rewrite <-Permutation_middle. by constructor.
Qed.

Lemma positions_fst {A} (rows : list A) : NoDup (fst <$> positions rows).
Proof. unfold positions. rewrite fst_zip by (rewrite length_seq; lia). apply NoDup_seq. Qed.

Lemma positions_snd {A} (rows : list A) : snd <$> positions rows = rows.
Proof. unfold positions. apply snd_zip. rewrite length_seq. lia. Qed.

Lemma delete_positions_split {A} (victims rest : list (nat * A)) rows :
  positions rows ≡ₚ victims ++ rest → delete_positions victims rows ≡ₚ snd <$> rest.
Proof.
  intros Hp. unfold delete_positions. apply fmap_Permutation.
  pose proof (positions_fst rows) as Hn. rewrite Hp, fmap_app in Hn. apply NoDup_app in Hn as (_ & Hd & _).
  rewrite (filter_Permutation _ _ _ Hp), List.filter_app, filter_none; cbn [app].
  - rewrite List.forallb_filter_id; [done|].
    rewrite forallb_forall_elem. intros p Hin. unfold contains.
    apply negb_true_iff, bool_decide_eq_false. intros Hc. apply (Hd p.1 Hc).
    by apply list_elem_of_fmap_2.
  - intros p Hin. apply negb_false_iff. unfold contains.
    apply bool_decide_eq_true. by apply list_elem_of_fmap_2.
Qed.

(** ** The retention cycle *)

Section retention.
Context {J D : Type}.
Local Abbreviation db_t := (evidence_db J D).

Definition older (a b : RawEvent J) : Prop := raw_observed_at a <= raw_observed_at b.

(** What the other tables hold. *)
Definition same_tables (db db' : db_t) : Prop :=
  transfers db' = transfers db ∧ trades db' = trades db ∧ sync_states db' = sync_states db.

Lemma batch_split (cutoff limit : Z) (rows : list (RawEvent J)) :
  ∃ rest, positions rows ≡ₚ batch cutoff limit rows ++ rest
    ∧ (Z.of_nat (length (batch cutoff limit rows)) < limit →
       ∀ p, p ∈ rest → cutoff <= raw_observed_at p.2).
Proof.
  unfold batch. set (ex := expired cutoff rows). set (k := Z.to_nat limit).
  exists (drop k (stable_sort raw_older ex) ++
    List.filter (λ p, negb (raw_observed_at p.2 <? cutoff)) (positions rows)). split.
  - rewrite (assoc_L (++)), take_drop, stable_sort_perm. apply filter_negb_split.
  - intros Hlt p [Hin|[_ Hin]%elem_of_lfilter]%elem_of_app; [|apply negb_true_iff in Hin; lia].
    rewrite length_take in Hlt. rewrite drop_ge in Hin; [by apply not_elem_of_nil in Hin|]. lia.
Qed.

Lemma batch_spec (db db' : db_t) now days limit n
    (Hrun : prune_raw_events_batch db (Some now) days limit = (db', ROk n)) (Hlimit : 0 <= limit) :
  ∃ gone, raw_events db ≡ₚ gone ++ raw_events db'
    ∧ n = Z.of_nat (length gone) ∧ n <= limit
    ∧ Forall (λ e, raw_observed_at e < retention_cutoff now days) gone
    ∧ (n < limit → Forall (λ e, retention_cutoff now days <= raw_observed_at e) (raw_events db'))
    ∧ same_tables db db' ∧ snapshots db' = snapshots db.
Proof.
  unfold prune_raw_events_batch in Hrun. injection Hrun as <- <-.
  set (cutoff := retention_cutoff now days). destruct (batch_split cutoff limit (raw_events db)) as (rest & Hp & Hr).
  set (vs := batch cutoff limit (raw_events db)) in *. exists (snd <$> vs).
  pose proof (delete_positions_split vs rest (raw_events db) Hp) as Hd. simpl. split_and!; try done.
  - rewrite Hd, <-fmap_app, <-Hp. by rewrite positions_snd.
  - by rewrite length_fmap.
  - unfold vs, batch. rewrite length_take. lia.
  - apply Forall_fmap, Forall_forall. intros p Hin%elem_of_take_l%elem_of_stable_sort%elem_of_lfilter.
    destruct Hin as [_ Hin]. simpl. lia.
  - intros Hlt. rewrite Hd. apply Forall_fmap, Forall_forall. intros p Hin. by apply Hr.
Qed.

Lemma prune_batches_spec n clock i (db : db_t) days total :
  let '(db', r) := prune_batches n clock i db days total in
  ∃ gone, raw_events db ≡ₚ gone ++ raw_events db'
    ∧ Z.of_nat (length gone) <= Z.of_nat n * BATCH_LIMIT
    ∧ Forall (λ e, ∃ j now, clock j = Some now ∧ raw_observed_at e < retention_cutoff now days) gone
    ∧ same_tables db db' ∧ snapshots db' = snapshots db
    ∧ match r with
      | ROk t =>
          t = total + Z.of_nat (length gone)
          ∧ (Z.of_nat (length gone) < Z.of_nat n * BATCH_LIMIT →
             ∃ j now, clock j = Some now
               ∧ Forall (λ e, retention_cutoff now days <= raw_observed_at e) (raw_events db'))
      | RErr _ => ∃ j, clock j = None
      end.
Proof.
  unfold BATCH_LIMIT. revert i db total. induction n as [|n IH]; intros i db total; cbn [prune_batches].
  { exists []. cbn [length app]. split_and!; try done; lia. }
  destruct (clock i) as [now|] eqn:Ec; [|exists []; cbn [length app]; split_and!; try done; by exists i].
  destruct (prune_raw_events_batch db (Some now) days BATCH_LIMIT) as [db1 r] eqn:E1.
  destruct r as [d|e]; [|by apply (f_equal snd) in E1].
  apply batch_spec in E1 as (g & Hg & -> & Hl & Hf & Hlast & (T1 & T2 & T3) & T4); [|unfold BATCH_LIMIT; lia].
  unfold BATCH_LIMIT in *.
  assert (Forall (λ e, ∃ j now, clock j = Some now ∧ raw_observed_at e < retention_cutoff now days) g) as Hf'.
  { eapply Forall_impl; [exact Hf|]. intros e He. by exists i, now. }
  destruct (Z.eqb_spec (Z.of_nat (length g)) 0) as [E0|E0].
  - exists g. split_and!; try done; [lia|]. intros _. exists i, now. split; [done|]. apply Hlast. lia.
  - specialize (IH (S i) db1 (total + Z.of_nat (length g))).
    destruct (prune_batches n clock (S i) db1 days _) as [db2 r].
    destruct IH as (g2 & Hg2 & Hl2 & Hf2 & (U1 & U2 & U3) & U4 & Hr). exists (g ++ g2).
    rewrite length_app. split_and!; [..|congruence|].
    + by rewrite Hg, Hg2, (assoc_L (++)).
    + rewrite Nat2Z.inj_add, Nat2Z.inj_succ. lia.
    + by apply Forall_app.
    + split_and!; congruence.
    + destruct r as [t|]; [|done]. destruct Hr as [-> Hr]. split; [lia|]. intros Hlt.
      destruct (decide (Z.of_nat (length g2) < Z.of_nat n * 5000)) as [?|?]; [auto|].
      exists i, now. split; [done|]. assert (Z.of_nat (length g) < 5000) as Hs by lia.
      apply Hlast in Hs. rewrite Hg2 in Hs. by apply Forall_app in Hs as [_ ?].
Qed.

Lemma run_cycle_keeps clock (db : db_t) days :
  (∃ gone, raw_events db ≡ₚ gone ++ raw_events (run_cycle db clock days).1)
  ∧ same_tables db (run_cycle db clock days).1.
Proof.
  unfold run_cycle. pose proof (prune_batches_spec MAX_BATCHES_PER_CYCLE clock 0 db days 0) as Hp.
  destruct (prune_batches _ _ _ _ _ _) as [db1 [t|e]]; destruct Hp as (g & Hg & _ & _ & Ht & _);
    unfold prune_market_snapshots; [destruct (clock MAX_BATCHES_PER_CYCLE)|];
    (split; [by exists g|exact Ht]).
Qed.

(** Claim C36: One retention cycle deletes only expired raw events, at most
    200000 of them, drains the backlog otherwise, touches no other evidence,
    and reports exactly the rows it deleted. *)
Theorem retention_cycle_spec clock (db : db_t) days :
  let '(db', r) := run_cycle db clock days in
  ∃ gone, raw_events db ≡ₚ gone ++ raw_events db'
    ∧ Z.of_nat (length gone) <= 200000
    ∧ Forall (λ e, ∃ j now, clock j = Some now ∧ raw_observed_at e < retention_cutoff now days) gone
    ∧ same_tables db db'
    ∧ match r with
      | ROk total =>
          (Z.of_nat (length gone) < 200000 →
           ∃ j now, clock j = Some now
             ∧ Forall (λ e, retention_cutoff now days <= raw_observed_at e) (raw_events db'))
          ∧ ∃ now old, clock MAX_BATCHES_PER_CYCLE = Some now
              ∧ snapshots db ≡ₚ old ++ snapshots db'
              ∧ (∀ s, s ∈ snapshots db → (s ∈ old ↔ ms_observed_at s < retention_cutoff now days))
              ∧ total = Z.of_nat (length gone + length old)
      | RErr _ => snapshots db' = snapshots db ∧ ∃ j, clock j = None
      end.
Proof.
  unfold run_cycle. pose proof (prune_batches_spec MAX_BATCHES_PER_CYCLE clock 0 db days 0) as Hp.
  destruct (prune_batches _ _ _ _ _ _) as [db1 r]. destruct Hp as (g & Hg & Hl & Hf & Ht & Hs & Hr).
  change (Z.of_nat MAX_BATCHES_PER_CYCLE * BATCH_LIMIT) with 200000 in *.
  destruct r as [t|e]; [destruct Hr as [-> Hr]|exists g; by split_and!].
  unfold prune_market_snapshots.
  destruct (clock MAX_BATCHES_PER_CYCLE) as [now|] eqn:Ec.
  - exists g. simpl. split_and!; try done; [apply Ht..|].
    set (old := λ s, ms_observed_at s <? retention_cutoff now days). rewrite Hs.
    exists now, (List.filter old (snapshots db)). split_and!; [done|apply filter_negb_split| |lia].
    intros s Hin. rewrite elem_of_lfilter. unfold old. split; [intros [_ ?]; lia|split; [done|lia]].
  - exists g. split_and!; try done. by exists MAX_BATCHES_PER_CYCLE.
Qed.
End retention.

(** ** The append-only tables *)

Section append_only.
Context {J D : Type} (numeric : Z → Z → D → option D) (accepts_raw : RawEvent J → bool).
Local Abbreviation db_t := (evidence_db J D).

Inductive evidence_op :=
  | OpRaw (chain source signature : string) (payload : J) (observed_at : Z)
  | OpTransfer (t : NormalizedTransfer D)
  | OpTrade (t : NormalizedTrade D)
  | OpCursor (clock : Z) (chain stream_kind cursor : string) (last_error : option string)
  | OpCycle (clock : nat → option Z) (retention_days : Z).

Definition run_evidence_op (db : db_t) (o : evidence_op) : db_t :=
  match o with
  | OpRaw c s g p at_ =>
      match store_raw_event accepts_raw db c s g p at_ with ROk (db', _) => db' | RErr _ => db end
  | OpTransfer t => match store_transfer numeric db t with ROk db' => db' | RErr _ => db end
  | OpTrade t => match store_trade numeric db t with ROk db' => db' | RErr _ => db end
  | OpCursor clock c k cur e => set_sync_cursor db clock c k cur e
  | OpCycle clock days => (run_cycle db clock days).1
  end.

Record evidence_wf (db : db_t) : Prop := {
  wf_raw : unique_rows same_raw (raw_events db);
  wf_transfers : unique_rows same_transfer (transfers db);
  wf_trades : unique_rows same_trade (trades db);
}.

Lemma same_raw_sym (a b : RawEvent J) : same_raw a b = same_raw b a.
Proof. unfold same_raw. f_equal; [f_equal|]; by apply bool_decide_ext. Qed.
Lemma same_transfer_sym (a b : TransferRow D) : same_transfer a b = same_transfer b a.
Proof. unfold same_transfer. rewrite Z.eqb_sym. repeat f_equal; by apply bool_decide_ext. Qed.
Lemma same_trade_sym (a b : TradeRow D) : same_trade a b = same_trade b a.
Proof. unfold same_trade. rewrite Z.eqb_sym. repeat f_equal; by apply bool_decide_ext. Qed.
Lemma same_raw_refl (a : RawEvent J) : same_raw a a = true.
Proof. unfold same_raw. by rewrite !bool_decide_eq_true_2. Qed.
Lemma same_transfer_refl (a : TransferRow D) : same_transfer a a = true.
Proof. unfold same_transfer. by rewrite Z.eqb_refl, !bool_decide_eq_true_2. Qed.
Lemma same_trade_refl (a : TradeRow D) : same_trade a a = true.
Proof. unfold same_trade. by rewrite Z.eqb_refl, !bool_decide_eq_true_2. Qed.

Lemma unique_rows_permuted {A} (same : A → A → bool) rows gone kept :
  unique_rows same rows → rows ≡ₚ gone ++ kept → unique_rows same kept.
Proof.
  intros Hu Hp i j a b Hi Hj Hs. destruct (decide (i = j)) as [|Hne]; [done|exfalso].
  assert (∃ i' j', i' ≠ j' ∧ rows !! i' = Some a ∧ rows !! j' = Some b) as (i' & j' & Hne' & Hi' & Hj').
  { symmetry in Hp. apply Permutation_inj in Hp as (_ & f & Hf & Hl).
    exists (f (length gone + i)%nat), (f (length gone + j)%nat). split_and!.
    - intros E. apply Hf in E. lia.
    - rewrite <-Hl, lookup_app_r by lia. by replace (_ + i - _)%nat with i by lia.
    - rewrite <-Hl, lookup_app_r by lia. by replace (_ + j - _)%nat with j by lia. }
  by apply Hne', (Hu i' j' a b).
Qed.

(** What a run of operations did to the rows that were there. *)
Definition evolves (db db' : db_t) : Prop :=
  evidence_wf db'
  ∧ (∃ new, transfers db' = transfers db ++ new) ∧ (∃ new, trades db' = trades db ++ new).

Lemma insert_absent_prefix {A} (same : A → A → bool) row rows :
  ∃ new, insert_absent same row rows = rows ++ new.
Proof.
  unfold insert_absent. destruct (existsb _ _); [exists []; by rewrite app_nil_r|by exists [row]].
Qed.

Lemma op_evolves db o : evidence_wf db → evolves db (run_evidence_op db o).
Proof.
  intros [W1 W2 W3]. assert (∀ A (l : list A), ∃ new, l = l ++ new) as Hid
    by (intros A l; exists []; by rewrite app_nil_r).
  destruct o as [c s g p at_|t|t|? ? ? ? ?|clock days]; simpl.
  - unfold store_raw_event. destruct (accepts_raw _); simpl; [|by split; [split|auto]].
    split; [split; simpl; [|done..]|auto]. apply insert_absent_unique; [apply same_raw_sym|done].
  - unfold store_transfer. destruct (numeric _ _ _); [|by split; [split|auto]].
    split; [split; simpl; [done| |done]|simpl; auto using insert_absent_prefix].
    apply insert_absent_unique; [apply same_transfer_sym|done].
  - unfold store_trade. cbv zeta. destruct (numeric 30 9 _); [|by split; [split|auto]].
    destruct (numeric 36 12 _); [|by split; [split|auto]].
    destruct (match NormalizedTrade.usd_value t with Some _ => _ | None => _ end); [|by split; [split|auto]].
    split; [split; simpl; [done|done|]|simpl; auto using insert_absent_prefix].
    apply insert_absent_unique; [apply same_trade_sym|done].
  - by split; [split|auto].
  - destruct (run_cycle_keeps clock db days) as [[gone Hg] (E1 & E2 & _)].
    destruct (run_cycle db clock days) as [db' r]. unfold evolves. cbn [fst] in *.
    rewrite E1, E2. split; [split; rewrite ?E1, ?E2; [|done..]|auto].
    by eapply unique_rows_permuted.
Qed.

(** Transfers and trades are append-only, whatever is stored or pruned,
    and no table ever holds two rows of one key. *)
Theorem evidence_append_only db ops (Hwf : evidence_wf db) :
  evolves db (fold_left run_evidence_op ops db).
Proof.
  revert db Hwf. induction ops as [|o ops IH]; intros db Hwf; cbn [fold_left].
  { split; [done|]. split; exists []; by rewrite app_nil_r. }
  destruct (op_evolves db o Hwf) as (Hwf1 & [n1 E1] & [n2 E2]).
  destruct (IH _ Hwf1) as (Hwf2 & [m1 F1] & [m2 F2]). split; [done|].
  rewrite F1, F2, E1, E2, <-!(assoc_L (++)). eauto.
Qed.

Definition is_insert (o : evidence_op) : Prop :=
  match o with OpRaw _ _ _ _ _ | OpTransfer _ | OpTrade _ => True | _ => False end.

Lemma insert_op_again db o (Ho : is_insert o) :
  run_evidence_op (run_evidence_op db o) o = run_evidence_op db o.
Proof.
  destruct o as [c s g p at_|t|t|? ? ? ? ?|clock days]; try done; clear Ho; simpl.
  - unfold store_raw_event. set (row := MkRaw c s g p at_). destruct (accepts_raw row) eqn:Ea; simpl; [|done].
    rewrite ?Ea. cbn [negb raw_events].
    by rewrite (insert_absent_again same_raw row (raw_events db) (same_raw_refl row)).
  - unfold store_transfer. destruct (numeric _ _ _); [|done]. simpl. f_equal.
    apply insert_absent_again, same_transfer_refl.
  - unfold store_trade. cbv zeta.
    destruct (numeric 30 9 _); [|done]. destruct (numeric 36 12 _); [|done].
    destruct (match NormalizedTrade.usd_value t with Some _ => _ | None => _ end); [|done].
    simpl. f_equal. apply insert_absent_again, same_trade_refl.
Qed.

(** A redelivered event is stored once; of two payloads under one
    signature the first is kept. *)
Theorem redelivery_stored_once db o (Ho : is_insert o) :
  run_evidence_op (run_evidence_op db o) o = run_evidence_op db o
  ∧ match o with
    | OpRaw c s g p at_ =>
        accepts_raw (MkRaw c s g p at_) = true →
        find_first (same_raw (MkRaw c s g p at_)) (raw_events (run_evidence_op db o))
        = Some (default (MkRaw c s g p at_) (find_first (same_raw (MkRaw c s g p at_)) (raw_events db)))
        ∧ ∃ db', store_raw_event accepts_raw (run_evidence_op db o) c s g p at_ = ROk (db', false)
    | _ => True
    end.
Proof.
  split; [by apply insert_op_again|]. destruct o as [c s g p at_|t|t|? ? ? ? ?|clock days]; try done.
  intros Ea. simpl. unfold store_raw_event. set (row := MkRaw c s g p at_) in *. rewrite Ea. cbn [negb raw_events].
  rewrite (insert_absent_found same_raw row (raw_events db) (same_raw_refl row)).
  split; [done|]. eexists. by rewrite insert_absent_exists by apply same_raw_refl.
Qed.
End append_only.

(** ** Maintenance *)

(** An accepted retention is the configured one, between a day and ten
    years. *)
Theorem retention_days_validated profile override days :
  effective_retention_days profile override = ROk days ↔
  days = default profile override ∧ 1 <= days <= 3650.
Proof.
  unfold effective_retention_days, MIN_RETENTION_DAYS, MAX_RETENTION_DAYS.
  set (d := default profile override).
  destruct (Z.ltb_spec d 1); [split; [done|lia]|].
  destruct (Z.ltb_spec 3650 d); [split; [done|lia]|].
  split; [intros [= <-]; split; [done|lia]|by intros [-> _]].
Qed.

Section staleness.
Context (from_timestamp : Z → option Z).
(** chrono: every second up to the year 9999. *)
Context (Hts : ∀ s, 0 <= s <= 253402300799 → from_timestamp s = Some (s * 10 ^ 9)).

(** The end of a cycle, at an instant: rows and oldest row, or an error. *)
Definition cycle_end : Type := Z * (Z * option Z + string).

Definition record (s : MaintenanceState) (e : cycle_end) : MaintenanceState :=
  match e.2 with
  | inl (rows, oldest) => MaintenanceState.record_success s e.1 rows oldest
  | inr err => MaintenanceState.record_error s e.1 err
  end.

Definition success_at (t : Z) (e : cycle_end) : Z := match e.2 with inl _ => e.1 | inr _ => t end.

Definition tracks (interval start : Z) (s : MaintenanceState) (last : Z) : Prop :=
  MaintenanceState.started s = true ∧ MaintenanceState.interval_secs s = interval
  ∧ MaintenanceState.started_at_unix s = timestamp start
  ∧ start <= last <= 253402300799 * 10 ^ 9
  ∧ (MaintenanceState.last_success_unix s = 0 ∧ last = start
     ∨ MaintenanceState.last_success_unix s = timestamp last).

Lemma record_tracks interval start s last e :
  tracks interval start s last → start <= e.1 <= 253402300799 * 10 ^ 9 →
  tracks interval start (record s e) (success_at last e).
Proof.
  destruct e as [t [[rows oldest]|err]]; intros (? & ? & ? & ? & Hl) Ht;
    unfold tracks, record, success_at; simpl in *; split_and!; try done; try lia; by right.
Qed.

Lemma dt_of_second t : 10 ^ 9 <= t <= 253402300799 * 10 ^ 9 →
  MaintenanceState.unix_to_dt from_timestamp (timestamp t) = Some (timestamp t * 10 ^ 9).
Proof using Hts.
  intros Ht. unfold MaintenanceState.unix_to_dt, timestamp.
  pose proof (Z.div_le_lower_bound t 1000000000 1 ltac:(lia) ltac:(lia)).
  pose proof (Z.div_le_upper_bound t 1000000000 253402300799 ltac:(lia) ltac:(lia)).
  destruct (Z.leb_spec (t / 1000000000) 0); [lia|]. apply Hts. lia.
Qed.

(** A spawned task is stale exactly when two intervals have passed
    since its last success, or since its start while it has none; failed
    cycles never reset that. *)
Theorem staleness_exact interval start ends now
    (Hinterval : 0 < interval < 2 ^ 62) (Hstart : 10 ^ 9 <= start <= 253402300799 * 10 ^ 9)
    (Hends : Forall (λ e : cycle_end, start <= e.1 <= 253402300799 * 10 ^ 9) ends) :
  MaintenanceState.is_stale from_timestamp
    (fold_left record ends (MaintenanceState.spawned interval start)) now
  = (interval * 2 <? num_seconds (now - timestamp (fold_left success_at ends start) * 10 ^ 9)).
Proof using Hts.
  assert (tracks interval start (fold_left record ends (MaintenanceState.spawned interval start))
    (fold_left success_at ends start)) as (H1 & H2 & H3 & Hl & Hs).
  { assert (tracks interval start (MaintenanceState.spawned interval start) start) as H0.
    { unfold tracks. simpl. rewrite wrap_i64_id by (unfold is_i64, i64_min, i64_max; lia).
      split_and!; try done; [lia..|by left]. }
    revert H0. generalize (MaintenanceState.spawned interval start).
    assert (∀ s last, tracks interval start s last →
      tracks interval start (fold_left record ends s) (fold_left success_at ends last)) as Hfold; [|auto].
    induction Hends as [|e ends He _ IH]; intros s last H0; cbn [fold_left]; [done|].
    by apply IH, record_tracks. }
  unfold MaintenanceState.is_stale. rewrite H1, H2. cbn [negb].
  destruct (Z.leb_spec interval 0); [lia|].
  rewrite (wrap_i64_id (interval * 2)) by (unfold is_i64, i64_min, i64_max; lia).
  unfold MaintenanceState.last_success, MaintenanceState.started_at.
  destruct Hs as [[-> ->]| ->].
  - cbn [MaintenanceState.unix_to_dt Z.leb Z.compare]. by rewrite H3, (dt_of_second start).
  - by rewrite dt_of_second by lia.
Qed.
End staleness.

(* Two intervals of sixty seconds after a failed cycle. *)
Lemma staleness_exact_witness :
  let s := fold_left record [(1700000050 * 10 ^ 9, inr "permission denied")]
    (MaintenanceState.spawned 60 (1700000000 * 10 ^ 9)) in
  MaintenanceState.is_stale (λ s, Some (s * 10 ^ 9)) s (1700000121 * 10 ^ 9) = true
  ∧ MaintenanceState.is_stale (λ s, Some (s * 10 ^ 9)) s (1700000120 * 10 ^ 9) = false.
Proof.
  cbv zeta. split; (rewrite (staleness_exact (λ s, Some (s * 10 ^ 9)));
    [vm_compute; reflexivity|by intros|lia|lia|repeat constructor; simpl; lia]).
Defined.

Lemma evidence_append_only_witness :
  let db : evidence_db () () := MkEvidence [] [] [] ∅ [] in
  evolves db (fold_left (run_evidence_op (λ _ _ d, Some d) (λ _, true))
    [OpRaw "solana" "helius" "sig" () 0; OpRaw "solana" "helius" "sig" () 1;
     OpCycle (λ _, Some (10 ^ 18)) 14] db).
Proof. apply evidence_append_only. split; intros i j a b Hi; by destruct i. Defined.

Lemma redelivery_stored_once_witness :
  let db : evidence_db () () := MkEvidence [] [] [] ∅ [] in
  let o := OpRaw (D := ()) "solana" "helius" "sig" () 0 in
  let run := run_evidence_op (λ _ _ d, Some d) (λ _, true) in
  run (run db o) o = run db o ∧ length (raw_events (run db o)) = 1%nat.
Proof.
  cbv zeta. split; [|reflexivity].
  by apply (redelivery_stored_once (λ _ _ d, Some d) (λ _, true) _ (OpRaw (D := ()) "solana" "helius" "sig" () 0)).
Defined.
