(* ===== verification/Ingest.v ===== *)
(** * Ingestion (src/src/ingest.rs, the Robinhood loop of src/src/workers.rs)

    A provider payload becomes rows: the raw payload first, then the transfers
    and trades its adapter finds, the wallets they name and the funding edges.
    Here the adapters (Chains.v), the provider pool (Helius.v), the evidence
    tables (Evidence.v), the wallets and labels (Labels.v), the funding graph
    (Clusters.v) and the radar (FundingRadar.v) meet.

    The parameters are those of the parts: [numeric] the column types,
    [accepts_raw] the constraints of raw_events, [dec] the conversion of a
    confidence, [http] the provider, [rpc] the node.  A tick of the Robinhood
    loop also says which statements on the cursor fail. *)
From S2P Require Import Prelude Text Rows Floats CostBasis Decimals Models Json Helius Labels Clusters.
From S2P Require Import FundingRadar Chains Evidence.
From Stdlib Require Import QArith.QArith_base QArith.Qcanon.
From stdpp Require Import options.
Local Open Scope string_scope.
Local Open Scope Z_scope.
Local Open Scope list_scope.

(** The trait of the adapters, as ingestion uses it. *)
Record ChainAdapter (J D : Type) := MkChainAdapter {
  adapter_chain : ChainKind;
  validate_address : string → result ();
  adapter_ingest : J → Z → outcome (NormalizedEvents D);
}.
Arguments MkChainAdapter {_ _}. Arguments adapter_chain {_ _}. Arguments validate_address {_ _}.
Arguments adapter_ingest {_ _}.

Record IngestCounts := MkCounts {
  raw_new : Z;
  transfers_new : Z;
  trades_new : Z;
  malformed : Z;
}.

Definition no_counts : IngestCounts := MkCounts 0 0 0 0.

Definition add_counts (a b : IngestCounts) : IngestCounts :=
  MkCounts (raw_new a + raw_new b) (transfers_new a + transfers_new b)
    (trades_new a + trades_new b) (malformed a + malformed b).

(** The tables an ingestion writes. *)
Record ingest_db (J D : Type) := MkIngest {
  evidence : evidence_db J D;
  wallets_db : label_db;
  graph : cluster_db D;
}.
Arguments MkIngest {_ _}. Arguments evidence {_ _}. Arguments wallets_db {_ _}. Arguments graph {_ _}.

Section ingest.
Context {J D : Type} `{JsonValue J, DecimalNum D}.
Context (numeric : Z → Z → D → option D) (accepts_raw : RawEvent J → bool) (dec : f64 → D).
Local Abbreviation db_t := (ingest_db J D).

Definition solana_adapter (bs58 : string → option (list Z)) (from_timestamp : Z → option Z)
    : ChainAdapter J D :=
  MkChainAdapter ChainKind.Solana (validate_solana_address bs58)
    (normalize_helius_transaction bs58 from_timestamp).

(** ** One payload *)

Definition upsert_wallets_for_transfer (p : label_db) (t : NormalizedTransfer D) (source : string)
    : label_db :=
  let at_ := default (NormalizedTransfer.observed_at t) (NormalizedTransfer.block_time t) in
  let chain := ChainKind.as_str (NormalizedTransfer.chain t) in
  let p := upsert_wallet p chain (NormalizedTransfer.from_address t) at_ source in
  upsert_wallet p chain (NormalizedTransfer.to_address t) at_ source.

Definition ingest_transfer (source : string) (st : db_t * Z) (t : NormalizedTransfer D) : db_t * Z :=
  let '(db, n) := st in
  let p := upsert_wallets_for_transfer (wallets_db db) t source in
  let '(ev, n) := match store_transfer numeric (evidence db) t with
                  | ROk ev => (ev, n + 1)
                  | RErr _ => (evidence db, n)
                  end in
  (MkIngest ev p (update_funding_edges dec (graph db) t), n).

Definition ingest_trade (chain source : string) (observed_at : Z) (st : db_t * Z)
    (t : NormalizedTrade D) : db_t * Z :=
  let '(db, n) := st in
  let p := upsert_wallet (wallets_db db) chain (NormalizedTrade.wallet t) observed_at source in
  match store_trade numeric (evidence db) t with
  | ROk ev => (MkIngest ev p (graph db), n + 1)
  | RErr _ => (MkIngest (evidence db) p (graph db), n)
  end.

Definition raw_signature (raw : J) : option string :=
  match payload_signature raw with Some s => Some s | None => str_field raw "hash" end.

(** The raw row, and whether it is new. *)
Definition store_raw (db : db_t) (chain source : string) (raw : J) (observed_at : Z)
    : result (db_t * Z) :=
  match raw_signature raw with
  | None => ROk (db, 0)
  | Some signature =>
      let! r := store_raw_event accepts_raw (evidence db) chain source signature raw observed_at in
      ROk (MkIngest r.1 (wallets_db db) (graph db), if r.2 then 1 else 0)
  end.

Definition store_events (db : db_t) (chain source : string) (observed_at : Z)
    (events : NormalizedEvents D) : db_t * (Z * Z) :=
  let '(db, transfers) := fold_left (ingest_transfer source) (NormalizedEvents.transfers events) (db, 0) in
  let '(db, trades) := fold_left (ingest_trade chain source observed_at) (NormalizedEvents.trades events) (db, 0) in
  (db, (transfers, trades)).

Definition ingest_transaction (db : db_t) (chain : ChainKind) (source : string) (raw : J)
    (observed_at : Z) (adapter : ChainAdapter J D) : db_t * outcome IngestCounts :=
  let c := ChainKind.as_str chain in
  match store_raw db c source raw observed_at with
  | RErr e => (db, Failed e)
  | ROk (db, new) =>
      match adapter_ingest adapter raw observed_at with
      | Panicked => (db, Panicked)
      | Failed _ => (db, Done (MkCounts new 0 0 1))
      | Done events =>
          let '(db, (transfers, trades)) := store_events db c source observed_at events in
          (db, Done (MkCounts new transfers trades 0))
      end
  end.

(** ** Deliveries *)

Fixpoint ingest_each (db : db_t) (source : string) (observed_at : Z) (adapter : ChainAdapter J D)
    (counts : IngestCounts) (payload : list J) : db_t * outcome IngestCounts :=
  match payload with
  | [] => (db, Done counts)
  | raw :: payload =>
      match ingest_transaction db ChainKind.Solana source raw observed_at adapter with
      | (db, Done single) => ingest_each db source observed_at adapter (add_counts counts single) payload
      | (db, failed) => (db, failed)
      end
  end.

Definition ingest_webhook (db : db_t) (payload : list J) (source : string) (observed_at : Z)
    (adapter : ChainAdapter J D) : db_t * outcome IngestCounts :=
  ingest_each db source observed_at adapter no_counts payload.

Record WalletSyncOutcome := MkSyncOutcome {
  pages_fetched : Z;
  sync_transfers_new : Z;
  sync_trades_new : Z;
  completed : bool;
  skipped_by_policy : bool;
}.

Definition complete (o : WalletSyncOutcome) : WalletSyncOutcome :=
  MkSyncOutcome (pages_fetched o) (sync_transfers_new o) (sync_trades_new o) true (skipped_by_policy o).

Definition add_page (o : WalletSyncOutcome) (c : IngestCounts) : WalletSyncOutcome :=
  MkSyncOutcome (pages_fetched o + 1) (sync_transfers_new o + transfers_new c)
    (sync_trades_new o + trades_new c) (completed o) (skipped_by_policy o).

Definition first_signature (page : list J) : option string :=
  head (omap (λ t, str_field t "signature") page).

Section sync.
Context (http : nat → string → string → J → reply J) (turns : nat → turn) (clock : nat → Z).

(** The pages; [n] counts the provider's requests, [page] this wallet's. *)
Fixpoint sync_pages (pages page : nat) (db : db_t) (pool : HeliusPool) (n : nat) (address : string)
    (adapter : ChainAdapter J D) (before : option string) (o : WalletSyncOutcome)
    : option (db_t * HeliusPool * outcome WalletSyncOutcome) :=
  match pages with
  | O => Some (db, pool, Done o)
  | S pages =>
      match get_transactions_for_address http turns pool n address before with
      | None => None
      | Some (pool, log, Done answer) =>
          match default [] (as_array answer) with
          | [] => Some (db, pool, Done (complete o))
          | transactions =>
              match ingest_webhook db transactions "helius_history" (clock page) adapter with
              | (db, Failed e) => Some (db, pool, Failed e)
              | (db, Panicked) => Some (db, pool, Panicked)
              | (db, Done counts) =>
                  let o := add_page o counts in
                  match first_signature transactions with
                  | None => Some (db, pool, Done (complete o))
                  | Some before =>
                      if (raw_new counts =? 0) && (transfers_new counts =? 0) && (trades_new counts =? 0)
                      then Some (db, pool, Done (complete o))
                      else sync_pages pages (S page) db pool (n + length log) address adapter (Some before) o
                  end
              end
          end
      | Some (pool, _, Failed e) => Some (db, pool, Failed e)
      | Some (pool, _, Panicked) => Some (db, pool, Panicked)
      end
  end.

Definition sync_wallet (db : db_t) (pool : HeliusPool) (n : nat) (now workspace_id : Z)
    (chain : ChainKind) (address : string) (adapter : ChainAdapter J D) (max_pages : Z)
    : option (db_t * HeliusPool * outcome WalletSyncOutcome) :=
  let start := MkSyncOutcome 0 0 0 false false in
  match effective_disposition (wallets_db db) now workspace_id chain address with
  | RErr e => Some (db, pool, Failed e)
  | ROk d =>
      if negb (allows_deep_sync d) then Some (db, pool, Done (MkSyncOutcome 0 0 0 true true))
      else sync_pages (Z.to_nat max_pages) 0 db pool n address adapter None start
  end.
End sync.

(** ** The radar *)

Definition commitment_max (a b : Commitment) : Commitment := if Commitment.ltb a b then b else a.

Section radar.
Context (from_u64 : Z → D).

Definition ingest_funding_transfer (radar : radar_db D) (clock workspace_id : Z)
    (t : NormalizedTransfer D) (native_usd_price : option D) (config : FundingRadarConfig)
    (percentile_threshold : option D) : radar_db D * outcome (option (FundingRadarCase D)) :=
  let age := wallet_age_seconds (policy radar) (ChainKind.as_str (NormalizedTransfer.chain t))
               (NormalizedTransfer.to_address t) (NormalizedTransfer.observed_at t) in
  match transfer_to_funding_event t native_usd_price age None with
  | Failed e => (radar, Failed e)
  | Panicked => (radar, Panicked)
  | Done e =>
      let event := FundingEvent.mk (FundingEvent.chain e) (FundingEvent.signature e) (FundingEvent.slot e)
        (FundingEvent.observed_at e)
        (commitment_max (NormalizedTransfer.commitment t) Commitment.Processed)
        (FundingEvent.from_address e) (FundingEvent.to_address e) (FundingEvent.asset_kind e)
        (FundingEvent.mint e) (FundingEvent.raw_amount e) (FundingEvent.native_amount e)
        (FundingEvent.amount_usd e) (FundingEvent.native_usd_price e)
        (FundingEvent.recipient_age_seconds e) (FundingEvent.source_kind e) in
      let '(radar, r) := ingest_funding_event from_u64 radar clock workspace_id event config percentile_threshold in
      (radar, of_result r)
  end.
End radar.
End ingest.

(** ** What ingestion does to the tables *)

Section grows.
Set Default Proof Using "Type".
Context {J D : Type} `{JsonValue J, DecimalNum D}.
Context (numeric : Z → Z → D → option D) (accepts_raw : RawEvent J → bool) (dec : f64 → D).
Local Abbreviation db_t := (ingest_db J D).

Definition extends {A} (l l' : list A) : Prop := ∃ new, l' = l ++ new.

Lemma extends_refl {A} (l : list A) : extends l l.
Proof. exists []. by rewrite app_nil_r. Qed.
Lemma extends_trans {A} (l1 l2 l3 : list A) : extends l1 l2 → extends l2 l3 → extends l1 l3.
Proof. intros [n1 ->] [n2 ->]. exists (n1 ++ n2). by rewrite (assoc_L (++)). Qed.
Lemma extends_exists {A} (f : A → bool) l l' : extends l l' → existsb f l = true → existsb f l' = true.
Proof. intros [new ->] Hl. by rewrite existsb_app, Hl. Qed.

(** Wallets keep their first sighting and their last one only moves forward. *)
Definition wallets_kept (p p' : label_db) : Prop :=
  labels p' = labels p
  ∧ ∀ k w, wallets p !! k = Some w → ∃ w', wallets p' !! k = Some w'
      ∧ Wallet.first_seen w' = Wallet.first_seen w ∧ Wallet.last_seen w <= Wallet.last_seen w'.

Record grows (db db' : db_t) : Prop := {
  grow_raw : extends (raw_events (evidence db)) (raw_events (evidence db'));
  grow_transfers : extends (transfers (evidence db)) (transfers (evidence db'));
  grow_trades : extends (trades (evidence db)) (trades (evidence db'));
  grow_unique : evidence_wf (evidence db) → evidence_wf (evidence db');
  grow_cursors : sync_states (evidence db') = sync_states (evidence db);
  grow_snapshots : snapshots (evidence db') = snapshots (evidence db);
  grow_wallets : wallets_kept (wallets_db db) (wallets_db db');
  grow_edges : extends (edges (graph db)) (edges (graph db'));
  grow_members : members (graph db') = members (graph db);
  grow_clusters : next_cluster (graph db') = next_cluster (graph db);
}.

Lemma wallets_kept_refl p : wallets_kept p p.
Proof. split; [done|]. intros k w Hw. exists w. by split_and!. Qed.

Lemma wallets_kept_trans p1 p2 p3 : wallets_kept p1 p2 → wallets_kept p2 p3 → wallets_kept p1 p3.
Proof.
  intros [E1 K1] [E2 K2]. split; [congruence|]. intros k w (w' & Hw' & F1 & L1)%K1.
  apply K2 in Hw' as (w'' & Hw'' & F2 & L2). exists w''. split_and!; [done|congruence|lia].
Qed.

Lemma upsert_wallets_kept p chain a at_ source : wallets_kept p (upsert_wallet p chain a at_ source).
Proof.
  split; [done|]. intros k w Hw. unfold upsert_wallet. cbn [wallets].
  destruct (decide (k = (chain, a))) as [->|Hne].
  - rewrite lookup_insert_eq, Hw. eexists. split; [reflexivity|]. cbn. split; [done|lia].
  - rewrite lookup_insert_ne by done. exists w. by split_and!.
Qed.

Lemma grows_refl db : grows db db.
Proof. split; auto using extends_refl, wallets_kept_refl. Qed.

Lemma grows_trans db1 db2 db3 : grows db1 db2 → grows db2 db3 → grows db1 db3.
Proof.
  intros [] []. split; try (by eapply extends_trans); try congruence; [auto|by eapply wallets_kept_trans].
Qed.

Lemma op_grows ev o (p p' : label_db) (g g' : cluster_db D) :
  match o with OpRaw _ _ _ _ _ | OpTransfer _ | OpTrade _ => True | _ => False end →
  wallets_kept p p' → extends (edges g) (edges g') → members g' = members g →
  next_cluster g' = next_cluster g →
  grows (MkIngest ev p g) (MkIngest (run_evidence_op numeric accepts_raw ev o) p' g').
Proof.
  intros Ho Hp Hg1 Hg2 Hg3.
  assert (extends (raw_events ev) (raw_events (run_evidence_op numeric accepts_raw ev o))
    ∧ extends (transfers ev) (transfers (run_evidence_op numeric accepts_raw ev o))
    ∧ extends (trades ev) (trades (run_evidence_op numeric accepts_raw ev o))
    ∧ sync_states (run_evidence_op numeric accepts_raw ev o) = sync_states ev
    ∧ snapshots (run_evidence_op numeric accepts_raw ev o) = snapshots ev) as (R1 & R2 & R3 & R4 & R5).
  { destruct o as [c s g0 pl at_|t|t|? ? ? ? ?|? ?]; try done; cbn [run_evidence_op].
    - unfold store_raw_event. destruct (negb _); cbn [raw_events transfers trades sync_states snapshots];
        split_and!; auto using extends_refl; apply insert_absent_prefix.
    - unfold store_transfer. destruct (numeric _ _ _); cbn [raw_events transfers trades sync_states snapshots];
        split_and!; auto using extends_refl; apply insert_absent_prefix.
    - unfold store_trade. cbv zeta. destruct (numeric 30 9 _); [|split_and!; auto using extends_refl].
      destruct (numeric 36 12 _); [|split_and!; auto using extends_refl].
      destruct (match NormalizedTrade.usd_value t with Some _ => _ | None => _ end);
        cbn [raw_events transfers trades sync_states snapshots];
        split_and!; auto using extends_refl; apply insert_absent_prefix. }
  split; try done. intros Hwf. by apply op_evolves.
Qed.

Lemma insert_edge_grows (g : cluster_db D) e :
  extends (edges g) (edges (insert_edge g e)) ∧ members (insert_edge g e) = members g
  ∧ next_cluster (insert_edge g e) = next_cluster g.
Proof.
  unfold insert_edge. destruct (existsb _ _); [split_and!; auto using extends_refl|].
  split_and!; [by eexists|done|done].
Qed.

Lemma ingest_transfer_grows source db n t : grows db (ingest_transfer numeric dec source (db, n) t).1.
Proof using Type accepts_raw.
  unfold ingest_transfer. set (p := upsert_wallets_for_transfer _ _ _).
  assert (wallets_kept (wallets_db db) p) as Hp.
  { unfold p, upsert_wallets_for_transfer. eapply wallets_kept_trans; apply upsert_wallets_kept. }
  assert (extends (edges (graph db)) (edges (update_funding_edges dec (graph db) t))
    ∧ members (update_funding_edges dec (graph db) t) = members (graph db)
    ∧ next_cluster (update_funding_edges dec (graph db) t) = next_cluster (graph db)) as (G1 & G2 & G3)
    by by apply insert_edge_grows.
  destruct db as [ev p0 g]. cbn [evidence wallets_db graph] in *.
  pose proof (op_grows ev (OpTransfer t) p0 p g _ I Hp G1 G2 G3) as Hg. cbn [run_evidence_op] in Hg.
  by destruct (store_transfer numeric ev t).
Qed.

Lemma ingest_trade_grows c source at_ db n t : grows db (ingest_trade numeric c source at_ (db, n) t).1.
Proof using Type accepts_raw.
  unfold ingest_trade. destruct db as [ev p g]. cbn [evidence wallets_db graph].
  pose proof (op_grows ev (OpTrade t) p _ g g I (upsert_wallets_kept p c (NormalizedTrade.wallet t) at_ source)
    (extends_refl _) eq_refl eq_refl) as Hg. cbn [run_evidence_op] in Hg.
  by destruct (store_trade numeric ev t).
Qed.

Lemma fold_grows {A} (f : db_t * Z → A → db_t * Z) (Hf : ∀ db n x, grows db (f (db, n) x).1) l db n :
  grows db (fold_left f l (db, n)).1.
Proof.
  revert db n. induction l as [|x l IH]; intros db n; cbn [fold_left]; [apply grows_refl|].
  pose proof (Hf db n x) as Hx. destruct (f (db, n) x) as [db' n']. eapply grows_trans; [exact Hx|apply IH].
Qed.

Lemma store_events_grows db c source at_ events :
  grows db (store_events numeric dec db c source at_ events).1.
Proof using Type accepts_raw.
  unfold store_events.
  pose proof (fold_grows _ (λ db n t, ingest_transfer_grows source db n t) (NormalizedEvents.transfers events) db 0) as K1.
  destruct (fold_left (ingest_transfer numeric dec source) _ _) as [db1 n1].
  pose proof (fold_grows _ (λ db n t, ingest_trade_grows c source at_ db n t) (NormalizedEvents.trades events) db1 0) as K2.
  destruct (fold_left (ingest_trade numeric c source at_) _ _) as [db2 n2]. by eapply grows_trans.
Qed.

Lemma store_raw_grows db c source raw at_ r :
  store_raw accepts_raw db c source raw at_ = ROk r → grows db r.1.
Proof using Type numeric.
  unfold store_raw. destruct (raw_signature raw) as [s|]; [|intros [= <-]; apply grows_refl].
  destruct db as [ev p g]. cbn [evidence wallets_db graph].
  pose proof (op_grows ev (OpRaw c source s raw at_) p p g g I (wallets_kept_refl _) (extends_refl _) eq_refl eq_refl) as Hg.
  cbn [run_evidence_op] in Hg. destruct (store_raw_event _ _ _ _ _ _ _) as [[ev' b]|e]; [|done].
  by intros [= <-].
Qed.

Lemma ingest_transaction_grows db chain source raw at_ adapter :
  grows db (ingest_transaction numeric accepts_raw dec db chain source raw at_ adapter).1.
Proof.
  unfold ingest_transaction. destruct (store_raw _ _ _ _ _ _) as [[db1 n]|e] eqn:E; [|apply grows_refl].
  apply store_raw_grows in E. cbn [fst] in E.
  destruct (adapter_ingest adapter raw at_) as [events| |]; [|done..].
  pose proof (store_events_grows db1 (ChainKind.as_str chain) source at_ events) as K2.
  destruct (store_events _ _ _ _ _ _ _) as [db2 [a b]]. by eapply grows_trans.
Qed.

Lemma ingest_each_grows db source at_ adapter counts payload :
  grows db (ingest_each numeric accepts_raw dec db source at_ adapter counts payload).1.
Proof.
  revert db counts. induction payload as [|raw payload IH]; intros db counts; cbn [ingest_each]; [apply grows_refl|].
  pose proof (ingest_transaction_grows db ChainKind.Solana source raw at_ adapter) as Hg.
  destruct (ingest_transaction _ _ _ _ _ _ _ _ _) as [db' [single| |]]; cbn [fst] in Hg; [|done..].
  eapply grows_trans; [exact Hg|apply IH].
Qed.

Section sync.
Context (http : nat → string → string → J → reply J) (turns : nat → turn) (clock : nat → Z).

(** A sync adds at most one page: the request for the second panics. *)
Lemma sync_pages_spec pages page db pool n address adapter before o :
  ∃ db' pool' r, sync_pages numeric accepts_raw dec http turns clock pages page db pool n address adapter before o
      = Some (db', pool', r)
    ∧ grows db db'
    ∧ match r with
      | Done o' => pages_fetched o <= pages_fetched o' <= pages_fetched o + (match before with Some _ => 0 | None => 1 end)
          ∧ skipped_by_policy o' = skipped_by_policy o
      | _ => True
      end.
Proof.
  revert page db pool n before o. induction pages as [|pages IH]; intros page db pool n before o; cbn [sync_pages].
  { exists db, pool, (Done o). split_and!; [done|apply grows_refl|destruct before; lia..|done]. }
  destruct before as [before|].
  { exists db, pool, Panicked. split_and!; [done|apply grows_refl|done]. }
  unfold get_transactions_for_address, rpc_request.
  destruct (request_json_total http turns Enhanced "getTransactionsForAddress" (j_array [j_str address]) pool n)
    as (pool1 & log & r & ->). cbn [fst snd].
  destruct r as [answer|e]; cbn [of_result]; [|exists db, pool1, (Failed e); split_and!; [done|apply grows_refl|done]].
  destruct (default [] (as_array answer)) as [|t ts] eqn:Et.
  { exists db, pool1, (Done (complete o)). split_and!; [done|apply grows_refl|cbn; lia..|done]. }
  pose proof (ingest_each_grows db "helius_history" (clock page) adapter no_counts (t :: ts)) as Hg.
  unfold ingest_webhook. destruct (ingest_each _ _ _ _ _ _ _ _ _) as [db1 [counts|e|]]; cbn [fst] in Hg.
  2, 3: eexists db1, pool1, _; by split_and!.
  destruct (first_signature (t :: ts)) as [s|].
  2: { eexists db1, pool1, _. split; [reflexivity|]. split_and!; [done|cbn; lia..|done]. }
  destruct (_ && _).
  { eexists db1, pool1, _. split; [reflexivity|]. split_and!; [done|cbn; lia..|done]. }
  destruct (IH (S page) db1 pool1 (n + length log)%nat (Some s) (add_page o counts)) as (db2 & pool2 & r2 & -> & Hg2 & Hr).
  exists db2, pool2, r2. split_and!; [done|by eapply grows_trans|]. destruct r2 as [o'| |]; [|done..].
  cbn in Hr |- *. destruct Hr as [Hr ->]. split; [lia|done].
Qed.

(** Ingestion only adds.  Whatever a delivery or a history sync brings
    and wherever it stops, raw payloads, transfers, trades and edges are
    appended and stay unique per key, every wallet keeps its first sighting,
    and no label, cluster, cursor or snapshot changes; a sync always ends, and
    a wallet the policy skips costs no request. *)
Theorem ingestion_only_adds db pool n now ws chain address adapter max_pages payload source at_ :
  grows db (ingest_webhook numeric accepts_raw dec db payload source at_ adapter).1
  ∧ ∃ db' pool' r,
      sync_wallet numeric accepts_raw dec http turns clock db pool n now ws chain address adapter max_pages
        = Some (db', pool', r)
      ∧ grows db db'
      ∧ (effective_disposition (wallets_db db) now ws chain address = ROk Disposition.Skip →
           db' = db ∧ pool' = pool ∧ r = Done (MkSyncOutcome 0 0 0 true true)).
Proof.
  split; [apply ingest_each_grows|]. unfold sync_wallet.
  destruct (effective_disposition (wallets_db db) now ws chain address) as [d|e].
  2: { exists db, pool, (Failed e). split_and!; [done|apply grows_refl|done]. }
  destruct (allows_deep_sync d) eqn:Ed; cbn [negb].
  2: { eexists db, pool, _. split_and!; [done|apply grows_refl|done]. }
  destruct (sync_pages_spec (Z.to_nat max_pages) 0 db pool n address adapter None (MkSyncOutcome 0 0 0 false false))
    as (db' & pool' & r & -> & Hg & _).
  exists db', pool', r. split_and!; [done|done|]. intros [= ->]. done.
Qed.

(** A history sync reports at most one page: with more to fetch, the
    request for the second page panics before it is sent. *)
Theorem sync_never_pages db pool n now ws chain address adapter max_pages db' pool' o
    (Hrun : sync_wallet numeric accepts_raw dec http turns clock db pool n now ws chain address adapter max_pages
      = Some (db', pool', Done o)) :
  0 <= pages_fetched o <= 1.
Proof.
  unfold sync_wallet in Hrun.
  destruct (effective_disposition (wallets_db db) now ws chain address) as [d|e]; [|done].
  destruct (negb _); [injection Hrun as _ _ <-; cbn; lia|].
  destruct (sync_pages_spec (Z.to_nat max_pages) 0 db pool n address adapter None (MkSyncOutcome 0 0 0 false false))
    as (db1 & pool1 & r & E & _ & Hr).
  rewrite E in Hrun. injection Hrun as _ _ ->. cbn in Hr. lia.
Qed.
End sync.
End grows.

(** ** The Robinhood loop *)

(** A node without a native price and the blocks of one tick. *)
Record poll_db (J D : Type) := MkPoll {
  cursors : evidence_db J D;
  radar : radar_db D;
}.
Arguments MkPoll {_ _}. Arguments cursors {_ _}. Arguments radar {_ _}.

Section robinhood.
Context {J D : Type} `{JsonValue J, DecimalNum D}.
Context (from_timestamp : Z → option Z) (from_u64 : Z → D) (workspace_id : Z) (config : FundingRadarConfig).

(** What one tick meets: the pause switch, the node's answers for the head and
    for each block, the clock, read once per block and once per transfer, and
    whether the statements that read and write the cursor succeed. *)
Record tick := MkTick {
  allowed : bool;
  head_rpc : nat → string → J → result J;
  block_rpc : Z → nat → string → J → result J;
  observed : Z → Z;
  now_at : Z → nat → Z;
  cursor_read : bool;
  cursor_written : Z → bool;
}.

(** The cursor in the table. *)
Definition stored_cursor (db : poll_db J D) : Z :=
  default 0 (get_sync_cursor (cursors db) "robinhood" "funding" ≫= from_str_radix 10 u64_max).

(** The cursor a tick starts from; a read that fails counts as no cursor. *)
Definition cursor_of (t : tick) (db : poll_db J D) : Z := if cursor_read t then stored_cursor db else 0.

(** The error of the write is discarded. *)
Definition set_cursor (t : tick) (block : Z) (e : option string) (db : poll_db J D) : poll_db J D :=
  if cursor_written t block
  then MkPoll (set_sync_cursor (cursors db) (observed t block) "robinhood" "funding" (pretty block) e) (radar db)
  else db.

Definition feed_transfers (t : tick) (block : Z) (transfers : list (NormalizedTransfer D))
    (r : radar_db D) : radar_db D :=
  (fold_left (λ '(r, i) tr,
     ((ingest_funding_transfer from_u64 r (now_at t block i) workspace_id tr None config None).1, S i))
     transfers (r, 0%nat)).1.

(** The blocks of a tick in order: those it fetched, and whether it survived
    (the last one fetched is the one that panics). *)
Fixpoint poll_blocks (t : tick) (blocks : list Z) (db : poll_db J D) : poll_db J D * list Z * bool :=
  match blocks with
  | [] => (db, [], true)
  | block :: blocks =>
      match fetch_block_events from_timestamp (block_rpc t block) 0 block (observed t block) with
      | Panicked => (db, [block], false)
      | Failed e => (set_cursor t block (Some e) db, [block], true)
      | Done events =>
          let db := MkPoll (cursors db) (feed_transfers t block (NormalizedEvents.transfers events) (radar db)) in
          let '(db, fetched, alive) := poll_blocks t blocks (set_cursor t block None db) in
          (db, block :: fetched, alive)
      end
  end.

(** [(cursor + 1)..=current.min(cursor + 100)], in release arithmetic. *)
Definition blocks_due (cursor current : Z) : list Z :=
  let first := wrap_u64 (cursor + 1) in
  let last := Z.min current (wrap_u64 (cursor + 100)) in
  seqZ first (last + 1 - first).

Definition poll_tick (t : tick) (db : poll_db J D) : poll_db J D * list Z * bool :=
  if negb (allowed t) then (db, [], true) else
  match current_block (head_rpc t) 0 with
  | RErr _ => (db, [], true)
  | ROk current => poll_blocks t (blocks_due (cursor_of t db) current) db
  end.

(** The loop over the ticks; a panic ends it. *)
Fixpoint robinhood_funding_loop (ticks : list tick) (db : poll_db J D) : poll_db J D * list Z * bool :=
  match ticks with
  | [] => (db, [], true)
  | t :: ticks =>
      match poll_tick t db with
      | (db, fetched, true) =>
          let '(db, later, alive) := robinhood_funding_loop ticks db in (db, fetched ++ later, alive)
      | (db, fetched, false) => (db, fetched, false)
      end
  end.

(** *** The cursor *)
Set Default Proof Using "Type".

(** The largest head whose arithmetic does not wrap. *)
Definition head_max : Z := 2 ^ 64 - 101.

Definition sane_head (t : tick) : Prop := ∀ c, current_block (head_rpc t) 0 = ROk c → c <= head_max.

(** The cursor can be read and written throughout a tick. *)
Definition cursor_answers (t : tick) : Prop := cursor_read t = true ∧ ∀ block, cursor_written t block = true.

Lemma stored_cursor_range db : 0 <= stored_cursor db <= u64_max.
Proof.
  unfold stored_cursor. destruct (get_sync_cursor _ _ _) as [s|]; cbn; [|unfold u64_max; lia].
  destruct (from_str_radix 10 u64_max s) as [v|] eqn:E; cbn; [|unfold u64_max; lia].
  by apply from_str_radix_range in E.
Qed.

Lemma stored_cursor_set t block e db : 0 <= block <= u64_max →
  stored_cursor (set_cursor t block e db) = if cursor_written t block then block else stored_cursor db.
Proof.
  intros Hb. unfold set_cursor. destruct (cursor_written t block); [|done].
  unfold stored_cursor, get_sync_cursor, set_sync_cursor. cbn [cursors sync_states].
  rewrite lookup_insert_eq. cbn. by rewrite from_str_radix_pretty.
Qed.

(** The cursor after a tick: the last block, short of one that panicked, whose
    write succeeded. *)
Definition cursor_after (t : tick) (fetched : list Z) (alive : bool) (cursor : Z) : Z :=
  fold_left (λ c block, if cursor_written t block then block else c) (if alive then fetched else removelast fetched) cursor.

(** The tables of a poll: rows stay, the radar advances. *)
Definition polled (db db' : poll_db J D) : Prop :=
  raw_events (cursors db') = raw_events (cursors db)
  ∧ transfers (cursors db') = transfers (cursors db)
  ∧ trades (cursors db') = trades (cursors db)
  ∧ (radar_wf (radar db) → advances (radar db) (radar db')).

Lemma polled_refl db : polled db db.
Proof. split_and!; try done. by apply advances_refl. Qed.

Lemma polled_trans db1 db2 db3 : polled db1 db2 → polled db2 db3 → polled db1 db3.
Proof.
  intros (R1 & T1 & D1 & A1) (R2 & T2 & D2 & A2). split_and!; [congruence..|].
  intros Hwf. eapply advances_trans; [by apply A1|]. apply A2. by apply A1.
Qed.

Lemma polled_set t block e db : polled db (set_cursor t block e db).
Proof. unfold set_cursor. destruct (cursor_written t block); [|apply polled_refl]. split_and!; try done. by apply advances_refl. Qed.

Lemma feed_advances t block ts r : radar_wf r → advances r (feed_transfers t block ts r).
Proof.
  unfold feed_transfers. generalize 0%nat as i. revert r.
  induction ts as [|tr ts IH]; intros r i Hwf; [by apply advances_refl|]. cbn [fold_left].
  set (r' := (ingest_funding_transfer _ _ _ _ _ _ _ _).1).
  assert (advances r r') as A.
  { unfold r', ingest_funding_transfer. cbv zeta. case_match; [|by apply advances_refl..].
    match goal with |- context [ingest_funding_event ?f ?a ?b ?c ?d ?e ?g] =>
      pose proof (ingest_advances f a b c d e g Hwf) as A; destruct (ingest_funding_event f a b c d e g) end.
    exact A. }
  eapply advances_trans; [exact A|]. apply IH, A.
Qed.

(** One tick: a run of blocks, and the cursor after it. *)
Lemma poll_blocks_spec t first n db db' fetched alive (Hf : 1 <= first) (Hm : first + Z.of_nat n <= u64_max + 1)
    (Hrun : poll_blocks t (seqZ first (Z.of_nat n)) db = (db', fetched, alive)) :
  polled db db' ∧ (length fetched <= n)%nat ∧ fetched = seqZ first (Z.of_nat (length fetched))
  ∧ stored_cursor db' = cursor_after t fetched alive (stored_cursor db) ∧ (alive = false → fetched ≠ []).
Proof.
  revert first db Hf Hm db' fetched alive Hrun. induction n as [|n IH]; intros first db Hf Hm db' fetched alive Hrun.
  { injection Hrun as <- <- <-. split_and!; [apply polled_refl|done..]. }
  rewrite seqZ_cons in Hrun by lia. cbn [poll_blocks] in Hrun. destruct (fetch_block_events _ _ _ _ _) as [events|e|].
  - replace (Z.pred (Z.of_nat (S n))) with (Z.of_nat n) in Hrun by lia. rewrite <-Z.add_1_r in Hrun. set (db0 := MkPoll _ _) in Hrun.
    assert (polled db db0) as P0 by (split_and!; try done; apply feed_advances).
    destruct (poll_blocks _ _ _) as [[db2 s2] a2] eqn:E2. injection Hrun as <- <- <-.
    apply IH in E2 as (P2 & L2 & S2 & C2 & N2); [|lia..]. split_and!.
    + eapply polled_trans; [exact P0|]. eapply polled_trans; [apply polled_set|exact P2].
    + cbn. lia.
    + cbn [length]. rewrite seqZ_cons by lia. rewrite S2 at 1. f_equal. f_equal; lia.
    + rewrite C2, stored_cursor_set by lia. change (stored_cursor db0) with (stored_cursor db). unfold cursor_after.
      destruct a2; [done|]. destruct s2; [by destruct N2|]. done.
    + done.
  - injection Hrun as <- <- <-. split_and!; [apply polled_set|cbn; lia|done|by apply stored_cursor_set; lia|done].
  - injection Hrun as <- <- <-. split_and!; [apply polled_refl|cbn; lia|done|done|done].
Qed.

(** What a tick does with the head in range. *)
Definition tick_spec (t : tick) (db db' : poll_db J D) (fetched : list Z) (alive : bool) : Prop :=
  polled db db'
  ∧ fetched = seqZ (cursor_of t db + 1) (Z.of_nat (length fetched)) ∧ (length fetched <= 100)%nat
  ∧ (fetched ≠ [] → ∃ head, current_block (head_rpc t) 0 = ROk head ∧ Forall (λ block, block <= head) fetched)
  ∧ stored_cursor db' = cursor_after t fetched alive (stored_cursor db) ∧ (alive = false → fetched ≠ []).

Lemma tick_idle t db : tick_spec t db db [] true.
Proof. split_and!; [apply polled_refl|done|cbn; lia|done..]. Qed.

Lemma poll_tick_spec t db db' fetched alive (Hc : stored_cursor db <= head_max) (Ht : sane_head t)
    (Hrun : poll_tick t db = (db', fetched, alive)) : tick_spec t db db' fetched alive.
Proof.
  unfold poll_tick in Hrun. destruct (negb _); [injection Hrun as <- <- <-; apply tick_idle|].
  destruct (current_block (head_rpc t) 0) as [head|e] eqn:Eh; [|injection Hrun as <- <- <-; apply tick_idle].
  pose proof (stored_cursor_range db) as Hr. specialize (Ht _ Eh).
  assert (0 <= cursor_of t db <= head_max) as Hs by (unfold cursor_of, head_max in *; destruct (cursor_read t); lia).
  unfold blocks_due, wrap_u64, head_max in *. rewrite !Z.mod_small in Hrun by lia. set (cursor := cursor_of t db) in *.
  replace (seqZ (cursor + 1) _) with (seqZ (cursor + 1) (Z.of_nat (Z.to_nat (Z.min head (cursor + 100) - cursor)))) in Hrun.
  2: { destruct (decide (0 <= Z.min head (cursor + 100) - cursor)); [f_equal; lia|]. by rewrite !seqZ_nil by lia. }
  apply poll_blocks_spec in Hrun as (P & L & S & C & N); [|lia|unfold u64_max; lia].
  split_and!; try done; [lia|]. intros _. exists head. split; [done|]. rewrite S. apply Forall_forall. intros b Hb%elem_of_seqZ. lia.
Qed.

Lemma cursor_after_run t first n alive cursor : (∀ block, cursor_written t block = true) →
  (alive = false → n ≠ 0%nat) → cursor + 1 = first →
  cursor_after t (seqZ first (Z.of_nat n)) alive cursor = cursor + Z.of_nat n - (if alive then 0 else 1).
Proof.
  intros Hw Hn Hc. unfold cursor_after.
  assert (∀ n first c, c + 1 = first → fold_left (λ c block, if cursor_written t block then block else c) (seqZ first (Z.of_nat n)) c = c + Z.of_nat n) as Hrun.
  { clear -Hw. induction n as [|n IH]; intros first c Hc; [rewrite seqZ_nil by lia; cbn [fold_left]; lia|]. rewrite seqZ_cons by lia. cbn [fold_left]. rewrite Hw.
    replace (Z.pred (Z.of_nat (S n))) with (Z.of_nat n) by lia. rewrite IH; lia. }
  destruct alive; [rewrite Hrun; lia|]. destruct n as [|n]; [by destruct Hn|].
  assert (removelast (seqZ first (Z.of_nat (S n))) = seqZ first (Z.of_nat n)) as ->.
  { replace (Z.of_nat (S n)) with (Z.of_nat n + 1) by lia. rewrite seqZ_app by lia. rewrite (seqZ_cons (first + Z.of_nat n) 1), (seqZ_nil (Z.succ _)) by lia. apply removelast_last. }
  rewrite Hrun; lia.
Qed.

(** A tick leaves the cursor in range. *)
Lemma tick_in_range t db db' fetched alive : stored_cursor db <= head_max → sane_head t → tick_spec t db db' fetched alive →
  stored_cursor db' <= head_max.
Proof.
  intros Hc Ht (_ & _ & _ & Hh & -> & _). unfold cursor_after.
  assert (Forall (λ block, block <= head_max) fetched) as Hf.
  { destruct fetched as [|b l]; [done|]. destruct Hh as (head & Eh & Hh); [done|]. specialize (Ht _ Eh).
    eapply Forall_impl; [exact Hh|]. cbn. lia. }
  assert (Forall (λ block, block <= head_max) (if alive then fetched else removelast fetched)) as Hl.
  { destruct alive; [done|]. apply Forall_forall. intros b Hb. rewrite Forall_forall in Hf. apply Hf.
    destruct fetched as [|x l]; [done|]. rewrite (app_removelast_last x (l := x :: l)) by done. apply elem_of_app. by left. }
  revert Hc. generalize (stored_cursor db). induction Hl as [|b l Hb Hl IH]; intros c Hc; [done|]. cbn [fold_left]. apply IH. by destruct (cursor_written t b).
Qed.

(** Claim C33: Every Robinhood block is tried once while the cursor answers.
    Whatever the node answers, with heads and a stored cursor of at most
    2^64 - 101: a tick fetches at most a hundred consecutive blocks, none above
    the head, from after the stored cursor, or from block 1 when the cursor
    cannot be read; the cursor ends on the last of them, fetched or failed,
    whose write succeeded, and a block that panics ends the loop before its
    write.  The evidence tables receive nothing and the radar's cases only move
    forward.  Over ticks in which the cursor is read and written, the blocks
    fetched are consecutive from the stored cursor on, none twice, so a block
    whose fetch failed is never tried again, and the cursor ends on the last
    of them, or on the one before a panic. *)
Theorem robinhood_blocks_once ticks db (Hc : stored_cursor db <= head_max) (Ht : Forall sane_head ticks) :
  let '(db', fetched, alive) := robinhood_funding_loop ticks db in
  (∀ t d d' f a, t ∈ ticks → stored_cursor d <= head_max → poll_tick t d = (d', f, a) → tick_spec t d d' f a)
  ∧ polled db db'
  ∧ (Forall cursor_answers ticks →
      fetched = seqZ (stored_cursor db + 1) (Z.of_nat (length fetched))
      ∧ stored_cursor db' = stored_cursor db + Z.of_nat (length fetched) - (if alive then 0 else 1)).
Proof.
  destruct (robinhood_funding_loop ticks db) as [[db' fetched] alive] eqn:E. split.
  { intros t d d' f a Hin Hd Hrun. rewrite Forall_forall in Ht. apply poll_tick_spec; [done|by apply Ht|done]. }
  revert db Hc db' fetched alive E. induction Ht as [|t ticks Ht _ IH]; intros db Hc db' fetched alive E.
  { injection E as <- <- <-. split; [apply polled_refl|]. intros _. split; [done|cbn; lia]. }
  cbn [robinhood_funding_loop] in E. destruct (poll_tick t db) as [[db1 s1] a1] eqn:E1.
  apply poll_tick_spec in E1 as Hs; [|done..]. pose proof (tick_in_range _ _ _ _ _ Hc Ht Hs) as Hc1.
  destruct Hs as (P1 & S1 & _ & _ & C1 & N1).
  assert (cursor_answers t → s1 = seqZ (stored_cursor db + 1) (Z.of_nat (length s1))
    ∧ stored_cursor db1 = stored_cursor db + Z.of_nat (length s1) - (if a1 then 0 else 1)) as Hrun.
  { intros [Hr Hw]. unfold cursor_of in S1. rewrite Hr in S1. split; [done|]. rewrite C1, S1 at 1.
    apply cursor_after_run; [done| |done]. intros Ha Hz. apply (N1 Ha). by apply nil_length_inv. }
  destruct a1.
  - destruct (robinhood_funding_loop ticks db1) as [[db2 s2] a2] eqn:E2. injection E as <- <- <-.
    destruct (IH db1 Hc1 _ _ _ E2) as [P2 Hlater]. split; [by eapply polled_trans|].
    intros [Ha Has]%Forall_cons. destruct (Hrun Ha) as [Es1 Ec1], (Hlater Has) as [Es2 Ec2]. rewrite length_app, Nat2Z.inj_add. split; [|lia].
    rewrite seqZ_app by lia. f_equal; [done|]. rewrite Es2 at 1. f_equal; lia.
  - injection E as <- <- <-. split; [done|]. intros [Ha _]%Forall_cons. by apply Hrun.
Qed.

(** *** What the radar learns *)

(** Without a dollar value and a percentile no funding is large. *)
Lemma unpriced_not_large (event : FundingEvent D) :
  FundingEvent.amount_usd event = None → qualifies_as_large_funding from_u64 event config None = false.
Proof. intros E. unfold qualifies_as_large_funding, usd_ok. rewrite E, andb_false_r. by destruct (FundingEvent.asset_kind event). Qed.

Lemma unpriced_only_observed r clock (t : NormalizedTransfer D) :
  let r' := (ingest_funding_transfer from_u64 r clock workspace_id t None config None).1 in
  cases r' = cases r ∧ FundingRadar.events r' = FundingRadar.events r ∧ policy r' = policy r.
Proof.
  unfold ingest_funding_transfer. cbv zeta. destruct (transfer_to_funding_event t None _ None) as [e|e|] eqn:Et; [|done..].
  assert (FundingEvent.amount_usd e = None) as Hu.
  { unfold transfer_to_funding_event in Et. destruct (bool_decide _); cbn in Et; by injection Et as <-. }
  destruct (ingest_funding_event _ _ _ _ _ _ _) as [r1 x] eqn:Ei. cbn [fst]. unfold ingest_funding_event in Ei.
  rewrite unpriced_not_large in Ei by done. cbn [negb] in Ei. unfold store_funding_observation in Ei. revert Ei.
  destruct (existsb _ _), (Commitment.ltb _ _); cbn [fst]; try (by intros [= <- _]); destruct (negb _); by intros [= <- _].
Qed.

(** The loop that feeds the radar knows no price and no percentile: whatever
    the node answers, it opens no case, adds no evidence to one and marks no
    wallet; it only stores what it observed. *)
Theorem loop_opens_no_case ticks db :
  let r := radar db in let r' := radar (robinhood_funding_loop ticks db).1.1 in
  cases r' = cases r ∧ FundingRadar.events r' = FundingRadar.events r ∧ policy r' = policy r.
Proof.
  set (same := λ r r' : radar_db D, cases r' = cases r ∧ FundingRadar.events r' = FundingRadar.events r ∧ policy r' = policy r).
  assert (∀ r1 r2 r3, same r1 r2 → same r2 r3 → same r1 r3) as Htrans by (intros r1 r2 r3 (? & ? & ?) (? & ? & ?); split_and!; congruence).
  assert (∀ t block ts r, same r (feed_transfers t block ts r)) as Hfeed.
  { intros t block ts. unfold feed_transfers. generalize 0%nat as i. induction ts as [|tr ts IH]; intros i r; [done|]. cbn [fold_left].
    eapply Htrans; [apply (unpriced_only_observed r (now_at t block i) tr)|apply IH]. }
  assert (∀ t blocks db, same (radar db) (radar (poll_blocks t blocks db).1.1)) as Hblocks.
  { intros t blocks. induction blocks as [|block blocks IH]; intros d; [done|]. cbn [poll_blocks].
    assert (∀ e d, radar (set_cursor t block e d) = radar d) as Hset by (intros e d'; unfold set_cursor; by destruct (cursor_written t block)).
    destruct (fetch_block_events _ _ _ _ _) as [events|e|]; [|cbn [fst]; by rewrite Hset|done].
    set (d1 := set_cursor t block None _). assert (radar d1 = _) as Ed by apply Hset. specialize (IH d1). destruct (poll_blocks t blocks d1) as [[d2 s] a]. cbn in IH |- *.
    eapply Htrans; [apply (Hfeed t block (NormalizedEvents.transfers events))|]. by rewrite Ed in IH. }
  cbv zeta. change (same (radar db) (radar (robinhood_funding_loop ticks db).1.1)). revert db.
  induction ticks as [|t ticks IH]; intros db; [done|]. cbn [robinhood_funding_loop].
  assert (same (radar db) (radar (poll_tick t db).1.1)) as Ht.
  { unfold poll_tick. destruct (negb _); [done|]. destruct (current_block _ _) as [c|]; [apply Hblocks|done]. }
  destruct (poll_tick t db) as [[d s] []]; cbn [fst] in Ht; [|exact Ht].
  specialize (IH d). destruct (robinhood_funding_loop ticks d) as [[d' l] a]. by eapply Htrans.
Qed.
End robinhood.
Arguments tick : clear implicits.

(** ** Redelivery *)

(** What a payload gives at another time: the same, observed then. *)
Definition transfer_at {D} (at_ : Z) (t : NormalizedTransfer D) : NormalizedTransfer D :=
  NormalizedTransfer.mk (NormalizedTransfer.chain t) (NormalizedTransfer.signature t)
    (NormalizedTransfer.event_index t) (NormalizedTransfer.from_address t) (NormalizedTransfer.to_address t)
    (NormalizedTransfer.asset_kind t) (NormalizedTransfer.mint t) (NormalizedTransfer.raw_amount t)
    (NormalizedTransfer.amount t) (NormalizedTransfer.slot t) (NormalizedTransfer.block_time t) at_
    (NormalizedTransfer.source t) (NormalizedTransfer.commitment t).

Definition trade_at {D} (at_ : Z) (t : NormalizedTrade D) : NormalizedTrade D :=
  NormalizedTrade.mk (NormalizedTrade.chain t) (NormalizedTrade.signature t)
    (NormalizedTrade.event_index t) (NormalizedTrade.wallet t) (NormalizedTrade.mint t)
    (NormalizedTrade.side t) (NormalizedTrade.raw_native_amount t) (NormalizedTrade.raw_token_amount t)
    (NormalizedTrade.native_amount t) (NormalizedTrade.token_amount t) (NormalizedTrade.usd_value t)
    (NormalizedTrade.slot t) (NormalizedTrade.block_time t) at_ (NormalizedTrade.dex_id t)
    (NormalizedTrade.source t).

Definition events_at {D} (at_ : Z) (e : NormalizedEvents D) : NormalizedEvents D :=
  NormalizedEvents.mk (transfer_at at_ <$> NormalizedEvents.transfers e)
    (trade_at at_ <$> NormalizedEvents.trades e).

Definition outcome_map {A B} (f : A → B) (o : outcome A) : outcome B := run! x := o in Done (f x).

Section observed.
Set Default Proof Using "Type".
Context {J D : Type} `{JsonValue J, DecimalNum D}.
Context (bs58 : string → option (list Z)) (from_timestamp : Z → option Z).

Definition header_at (at_ : Z) (h : payload_header) : payload_header :=
  MkHeader (h_signature h) (h_slot h) (h_block_time h) (h_commitment h) at_.

Lemma native_transfer_at at_ h i (t : J) :
  native_transfer (D := D) bs58 (header_at at_ h) i t = transfer_at at_ <$> native_transfer bs58 h i t.
Proof.
  unfold native_transfer. destruct (str_field t "fromUserAccount"); [|done].
  destruct (str_field t "toUserAccount"); [|done]. destruct (j_get t "amount" ≫= as_u64); [|done].
  cbn beta iota. by repeat destruct (negb _ || negb _) || destruct (negb _).
Qed.

Lemma token_transfer_at at_ h i (t : J) :
  token_transfer (D := D) bs58 (header_at at_ h) i t
  = outcome_map (fmap (transfer_at at_)) (token_transfer bs58 h i t).
Proof.
  unfold token_transfer. cbv zeta. destruct (_ || _); [done|]. destruct (_ || _); [done|].
  destruct (token_amount_field t); [|done]. by destruct (raw_token_to_amount _ _).
Qed.

Lemma token_fold_at at_ h (items : list (nat * J)) (ts : list (NormalizedTransfer D)) :
  fold_outcome (token_step bs58 (header_at at_ h)) (transfer_at at_ <$> ts) items
  = outcome_map (fmap (transfer_at at_)) (fold_outcome (token_step bs58 h) ts items).
Proof.
  revert ts. induction items as [|[i t] items IH]; intros ts; [done|]. cbn [fold_outcome].
  unfold token_step at 1 3. rewrite token_transfer_at. cbn [fst snd].
  destruct (token_transfer bs58 h i t) as [[x|]| |]; [| |done..]; cbn; rewrite <-IH; [|by rewrite !app_nil_r].
  by rewrite fmap_app.
Qed.

Lemma swap_trade_at at_ h wallet dex side native (legs : option (list J)) :
  swap_trade (D := D) bs58 (header_at at_ h) wallet dex side native legs
  = outcome_map (fmap (trade_at at_)) (swap_trade bs58 h wallet dex side native legs).
Proof.
  unfold swap_trade. destruct native as [raw|]; [|done]. destruct legs as [legs|]; [|done].
  unfold build_trade. destruct (_ || _); [done|]. destruct (head legs) as [leg|]; [|done].
  destruct (str_field leg "mint"); [|done]. destruct (j_get leg "rawTokenAmount" ≫= _); [|done].
  destruct (amount_or_none _ _) as [[token|]| |]; [|done..]. cbn.
  by destruct (amount_or_none _ _) as [[native|]| |].
Qed.

Lemma normalize_at at_ at' (raw : J) :
  normalize_helius_transaction (D := D) bs58 from_timestamp raw at'
  = outcome_map (events_at at') (normalize_helius_transaction bs58 from_timestamp raw at_).
Proof.
  unfold normalize_helius_transaction. destruct (payload_signature raw) as [s|]; [|done]. cbv zeta.
  change (payload_header_of from_timestamp raw s at') with (header_at at' (payload_header_of from_timestamp raw s at_)).
  set (h := payload_header_of from_timestamp raw s at_).
  assert (native_transfers (D := D) bs58 (header_at at' h) raw = transfer_at at' <$> native_transfers bs58 h raw) as ->.
  { unfold native_transfers. induction (field_items raw "nativeTransfers") as [|[i t] items IH]; [done|].
    cbn [omap list_omap fst snd]. rewrite native_transfer_at. destruct (native_transfer bs58 h i t); cbn; [by rewrite IH|done]. }
  rewrite token_fold_at. destruct (fold_outcome _ _ _) as [ts| |]; [|done..]. cbn.
  unfold swap_trades. destruct (j_get raw "events" ≫= _) as [swap|]; [|done]. destruct (negb _); [done|]. cbv zeta.
  rewrite !swap_trade_at. destruct (swap_trade _ _ _ _ _ _ _) as [buys| |]; [|done..]. cbn.
  destruct (swap_trade _ _ _ _ _ _ _) as [sells| |]; [|done..]. cbn.
  unfold events_at. cbn. by rewrite fmap_app.
Qed.
End observed.

(** *** The second delivery *)

Section redelivery.
Set Default Proof Using "Type".
Context {J D : Type} `{JsonValue J, DecimalNum D}.
Context (numeric : Z → Z → D → option D) (accepts_raw : RawEvent J → bool) (dec : f64 → D).
Local Abbreviation db_t := (ingest_db J D).
Local Abbreviation run_op := (run_evidence_op numeric accepts_raw).

(** The rows of an event are there already. *)
Definition transfer_settled (t : NormalizedTransfer D) (db : db_t) : Prop :=
  run_op (evidence db) (OpTransfer t) = evidence db ∧ update_funding_edges dec (graph db) t = graph db.

Definition trade_settled (t : NormalizedTrade D) (db : db_t) : Prop :=
  run_op (evidence db) (OpTrade t) = evidence db.

(** The columns take the amounts. *)
Definition storable_transfer (t : NormalizedTransfer D) : bool :=
  bool_decide (is_Some (numeric 36 12 (NormalizedTransfer.amount t))).

Definition storable_trade (t : NormalizedTrade D) : bool :=
  bool_decide (is_Some (numeric 30 9 (NormalizedTrade.native_amount t)))
  && bool_decide (is_Some (numeric 36 12 (NormalizedTrade.token_amount t)))
  && match NormalizedTrade.usd_value t with
     | None => true
     | Some v => bool_decide (is_Some (numeric 30 4 v))
     end.

Definition one (b : bool) : Z := if b then 1 else 0.

Lemma ingest_transfer_eq source db n t :
  ingest_transfer numeric dec source (db, n) t
  = (MkIngest (run_op (evidence db) (OpTransfer t)) (upsert_wallets_for_transfer (wallets_db db) t source)
       (update_funding_edges dec (graph db) t), n + one (storable_transfer t)).
Proof.
  unfold ingest_transfer, storable_transfer. cbn [run_evidence_op]. unfold store_transfer.
  by destruct (numeric 36 12 _); cbn; rewrite ?Z.add_0_r.
Qed.

Lemma ingest_trade_eq c source at_ db n t :
  ingest_trade numeric c source at_ (db, n) t
  = (MkIngest (run_op (evidence db) (OpTrade t)) (upsert_wallet (wallets_db db) c (NormalizedTrade.wallet t) at_ source)
       (graph db), n + one (storable_trade t)).
Proof.
  unfold ingest_trade, storable_trade. cbn [run_evidence_op]. unfold store_trade. cbv zeta.
  destruct (numeric 30 9 _); [|cbn; by rewrite Z.add_0_r].
  destruct (numeric 36 12 _); [|cbn; by rewrite Z.add_0_r].
  destruct (NormalizedTrade.usd_value t) as [v|]; [|done].
  destruct (numeric 30 4 v); cbn; by rewrite ?Z.add_0_r.
Qed.

(** An insert leaves the table alone exactly when its row is there. *)
Lemma insert_absent_same {A} (same : A → A → bool) row rows :
  insert_absent same row rows = rows ↔ existsb (same row) rows = true.
Proof.
  unfold insert_absent. destruct (existsb (same row) rows); [done|]. split; [|done].
  intros E%(f_equal length). rewrite length_app in E. simpl in E. lia.
Qed.

Lemma transfer_settled_grows db db' t : grows db db' → transfer_settled t db → transfer_settled t db'.
Proof.
  intros G [E1 E2]. split.
  - revert E1. cbn [run_evidence_op]. unfold store_transfer. destruct (numeric 36 12 _) as [a|]; [|done].
    destruct (evidence db) as [r ts tr sy sn] eqn:Ev, (evidence db') as [r' ts' tr' sy' sn'] eqn:Ev'.
    cbn [raw_events transfers trades sync_states snapshots]. intros [= E1]. f_equal.
    apply insert_absent_same. apply insert_absent_same in E1. eapply extends_exists; [|exact E1].
    pose proof (grow_transfers _ _ G) as Gt. by rewrite Ev, Ev' in Gt.
  - revert E2. unfold update_funding_edges, insert_edge. set (e := MkEdge _ _ _ _ _ _ _ _ _ _).
    destruct (existsb (same_edge_key e) (edges (graph db))) eqn:Ee.
    + intros _. by rewrite (extends_exists _ _ _ (grow_edges _ _ G) Ee).
    + intros E%(f_equal (length ∘ edges)). simpl in E. rewrite length_app in E. simpl in E. lia.
Qed.

Lemma trade_settled_grows db db' t : grows db db' → trade_settled t db → trade_settled t db'.
Proof.
  intros G. unfold trade_settled. cbn [run_evidence_op]. unfold store_trade. cbv zeta.
  destruct (numeric 30 9 _); [|done]. destruct (numeric 36 12 _); [|done].
  destruct (match NormalizedTrade.usd_value t with Some _ => _ | None => _ end); [|done].
  destruct (evidence db) as [r ts tr sy sn] eqn:Ev, (evidence db') as [r' ts' tr' sy' sn'] eqn:Ev'.
  cbn [raw_events transfers trades sync_states snapshots]. intros [= E1]. f_equal.
  apply insert_absent_same. apply insert_absent_same in E1. eapply extends_exists; [|exact E1].
  pose proof (grow_trades _ _ G) as Gt. by rewrite Ev, Ev' in Gt.
Qed.

Lemma ingest_transfer_settles source db n t : transfer_settled t (ingest_transfer numeric dec source (db, n) t).1.
Proof.
  rewrite ingest_transfer_eq. split; cbn [fst evidence graph]; [by apply insert_op_again|].
  unfold update_funding_edges. set (e := MkEdge _ _ _ _ _ _ _ _ _ _). unfold insert_edge at 2 3.
  assert (same_edge_key e e = true) as Hr by (unfold same_edge_key; by rewrite !bool_decide_eq_true_2).
  destruct (existsb (same_edge_key e) (edges (graph db))) eqn:Ee; unfold insert_edge; [by rewrite Ee|].
  cbn [edges]. rewrite existsb_app. cbn [existsb]. by rewrite Hr, orb_true_r.
Qed.

Lemma ingest_trade_settles c source at_ db n t : trade_settled t (ingest_trade numeric c source at_ (db, n) t).1.
Proof. rewrite ingest_trade_eq. by apply insert_op_again. Qed.

(** What does not depend on the wallets. *)
Definition same_rows (db db' : db_t) : Prop := evidence db' = evidence db ∧ graph db' = graph db.

(** A pass over events settles them, and a pass over settled events, seen at
    another time, changes no row and counts them again. *)
Lemma fold_settles {A} (f : db_t * Z → A → db_t * Z) (settled : A → db_t → Prop) (storable : A → bool)
    (Hg : ∀ db n x, grows db (f (db, n) x).1) (Hs : ∀ db n x, settled x (f (db, n) x).1)
    (Hm : ∀ db db' x, grows db db' → settled x db → settled x db')
    (Hn : ∀ db n x, (f (db, n) x).2 = n + one (storable x)) l db n :
  Forall (λ x, settled x (fold_left f l (db, n)).1) l
  ∧ (fold_left f l (db, n)).2 = n + Z.of_nat (length (List.filter storable l)).
Proof.
  revert db n. induction l as [|x l IH]; intros db n; cbn [fold_left List.filter]; [split; [done|cbn; lia]|].
  pose proof (Hs db n x) as Hx. pose proof (Hn db n x) as En. destruct (f (db, n) x) as [db1 n1] eqn:E.
  cbn [fst snd] in Hx, En. destruct (IH db1 n1) as [F C]. split.
  - constructor; [|done]. eapply Hm; [|exact Hx]. by apply fold_grows.
  - rewrite C, En. destruct (storable x); cbn [one length]; lia.
Qed.

Lemma fold_settled {A} (f : db_t * Z → A → db_t * Z) (settled : A → db_t → Prop) (storable : A → bool) (g : A → A)
    (Hs : ∀ db n x, settled x db → same_rows db (f (db, n) (g x)).1)
    (Hr : ∀ db db' x, same_rows db db' → settled x db → settled x db')
    (Hn : ∀ db n x, (f (db, n) (g x)).2 = n + one (storable x)) l db n :
  Forall (λ x, settled x db) l →
  same_rows db (fold_left f (g <$> l) (db, n)).1
  ∧ (fold_left f (g <$> l) (db, n)).2 = n + Z.of_nat (length (List.filter storable l)).
Proof.
  revert db n. induction l as [|x l IH]; intros db n F; cbn [fold_left List.filter fmap list_fmap];
    [split; [by split|cbn; lia]|]. inversion F as [|?? Fx Fl]; subst.
  pose proof (Hs db n x Fx) as Sx. pose proof (Hn db n x) as En. destruct (f (db, n) (g x)) as [db1 n1].
  cbn [fst snd] in Sx, En. destruct (IH db1 n1) as [S1 C].
  { eapply Forall_impl; [exact Fl|]. intros y. by apply Hr. }
  split; [destruct Sx, S1; split; congruence|]. rewrite C, En. destruct (storable x); cbn [one length]; lia.
Qed.

Lemma settled_transfer_pass db source n at_ t :
  transfer_settled t db → same_rows db (ingest_transfer numeric dec source (db, n) (transfer_at at_ t)).1.
Proof.
  intros [E1 E2]. rewrite ingest_transfer_eq. split; [|exact E2]. cbn [fst evidence]. rewrite <-E1 at 2.
  cbn [run_evidence_op]. revert E1. cbn [run_evidence_op]. unfold store_transfer. cbn [transfer_at NormalizedTransfer.amount].
  destruct (numeric 36 12 _); [|done]. cbn [transfer_at]. destruct (evidence db) as [r ts tr sy sn].
  cbn [raw_events transfers trades sync_states snapshots]. intros [= E1]. f_equal. rewrite E1.
  by apply insert_absent_same in E1; apply insert_absent_same.
Qed.

Lemma settled_trade_pass db c source at_ n at' t :
  trade_settled t db → same_rows db (ingest_trade numeric c source at_ (db, n) (trade_at at' t)).1.
Proof.
  unfold trade_settled. intros E1. rewrite ingest_trade_eq. split; [|done]. cbn [fst evidence]. rewrite <-E1 at 2.
  revert E1. cbn [run_evidence_op]. unfold store_trade. cbv zeta. cbn [trade_at NormalizedTrade.native_amount
    NormalizedTrade.token_amount NormalizedTrade.usd_value].
  destruct (numeric 30 9 _); [|done]. destruct (numeric 36 12 _); [|done].
  destruct (match NormalizedTrade.usd_value t with Some _ => _ | None => _ end); [|done].
  destruct (evidence db) as [r ts tr sy sn].
  cbn [raw_events transfers trades sync_states snapshots]. intros [= E1]. f_equal. rewrite E1.
  by apply insert_absent_same in E1; apply insert_absent_same.
Qed.

Lemma same_rows_settles (db db' : db_t) : same_rows db db' →
  (∀ t, transfer_settled t db → transfer_settled t db') ∧ (∀ t, trade_settled t db → trade_settled t db').
Proof. intros [E1 E2]. unfold transfer_settled, trade_settled. by rewrite E1, E2. Qed.

Lemma transfers_pass source ts db :
  Forall (λ t, transfer_settled t (fold_left (ingest_transfer numeric dec source) ts (db, 0)).1) ts
  ∧ (fold_left (ingest_transfer numeric dec source) ts (db, 0)).2 = Z.of_nat (length (List.filter storable_transfer ts)).
Proof.
  apply (fold_settles _ transfer_settled storable_transfer); intros.
  - by apply (ingest_transfer_grows numeric accepts_raw).
  - by apply ingest_transfer_settles.
  - by eapply transfer_settled_grows.
  - by rewrite ingest_transfer_eq.
Qed.

Lemma transfers_repass source at' ts db : Forall (λ t, transfer_settled t db) ts →
  same_rows db (fold_left (ingest_transfer numeric dec source) (transfer_at at' <$> ts) (db, 0)).1
  ∧ (fold_left (ingest_transfer numeric dec source) (transfer_at at' <$> ts) (db, 0)).2
    = Z.of_nat (length (List.filter storable_transfer ts)).
Proof.
  apply (fold_settled _ transfer_settled storable_transfer); [by auto using settled_transfer_pass| |].
  - intros d d' t S. by apply same_rows_settles.
  - intros. by rewrite ingest_transfer_eq.
Qed.

Lemma trades_pass c source at_ ts db :
  Forall (λ t, trade_settled t (fold_left (ingest_trade numeric c source at_) ts (db, 0)).1) ts
  ∧ (fold_left (ingest_trade numeric c source at_) ts (db, 0)).2 = Z.of_nat (length (List.filter storable_trade ts)).
Proof.
  apply (fold_settles _ trade_settled storable_trade); intros.
  - by apply (ingest_trade_grows numeric accepts_raw).
  - by apply ingest_trade_settles.
  - by eapply trade_settled_grows.
  - by rewrite ingest_trade_eq.
Qed.

Lemma trades_repass c source at' ts db : Forall (λ t, trade_settled t db) ts →
  same_rows db (fold_left (ingest_trade numeric c source at') (trade_at at' <$> ts) (db, 0)).1
  ∧ (fold_left (ingest_trade numeric c source at') (trade_at at' <$> ts) (db, 0)).2
    = Z.of_nat (length (List.filter storable_trade ts)).
Proof.
  apply (fold_settled _ trade_settled storable_trade); [by auto using settled_trade_pass| |].
  - intros d d' t [E _]. unfold trade_settled. by rewrite E.
  - intros. by rewrite ingest_trade_eq.
Qed.

(** The events of a payload stored twice. *)
Lemma store_events_again db c source at_ events at' db2
    (Hs : same_rows (store_events numeric dec db c source at_ events).1 db2) :
  same_rows db2 (store_events numeric dec db2 c source at' (events_at at' events)).1
  ∧ (store_events numeric dec db2 c source at' (events_at at' events)).2
    = (store_events numeric dec db c source at_ events).2.
Proof using Type accepts_raw.
  revert Hs. unfold store_events. cbn [events_at NormalizedEvents.transfers NormalizedEvents.trades].
  destruct (transfers_pass source (NormalizedEvents.transfers events) db) as [Ft Ct].
  destruct (fold_left _ (NormalizedEvents.transfers events) (db, 0)) as [dbt nt]. cbn [fst snd] in Ft, Ct.
  destruct (trades_pass c source at_ (NormalizedEvents.trades events) dbt) as [Fd Cd].
  assert (grows dbt (fold_left (ingest_trade numeric c source at_) (NormalizedEvents.trades events) (dbt, 0)).1) as Gd.
  { apply fold_grows. intros. by apply (ingest_trade_grows numeric accepts_raw). }
  destruct (fold_left _ (NormalizedEvents.trades events) (dbt, 0)) as [db1 nd]. cbn [fst snd] in Fd, Cd, Gd |- *.
  intros Hs. destruct (same_rows_settles _ _ Hs) as [St Sd].
  destruct (transfers_repass source at' (NormalizedEvents.transfers events) db2) as [S3 C3].
  { eapply Forall_impl; [exact Ft|]. intros x Hx. by apply St, (transfer_settled_grows _ _ _ Gd). }
  destruct (fold_left _ (transfer_at at' <$> _) _) as [db3 n3]. cbn [fst snd] in S3, C3.
  destruct (trades_repass c source at' (NormalizedEvents.trades events) db3) as [S4 C4].
  { eapply Forall_impl; [exact Fd|]. intros x Hx. by apply (same_rows_settles _ _ S3), Sd. }
  destruct (fold_left _ (trade_at at' <$> _) _) as [db4 n4]. cbn [fst snd] in S4, C4 |- *.
  split; [destruct S3, S4; split; congruence|congruence].
Qed.

Lemma store_raw_again (db db1 dbr : db_t) c source raw at_ at' n
    (Hraw : ∀ s, raw_signature raw = Some s → accepts_raw (MkRaw c source s raw at') = true)
    (Hfirst : store_raw accepts_raw db c source raw at_ = ROk (dbr, n)) (Hg : grows dbr db1) :
  store_raw accepts_raw db1 c source raw at' = ROk (db1, 0).
Proof.
  unfold store_raw in *. destruct (raw_signature raw) as [s|] eqn:Es; [|done]. specialize (Hraw s eq_refl).
  unfold store_raw_event in *. rewrite Hraw. cbn [negb].
  destruct (negb _) in Hfirst; [done|]. injection Hfirst as <- _. apply grow_raw in Hg.
  assert (existsb (same_raw (MkRaw c source s raw at')) (raw_events (evidence db1)) = true) as E.
  { eapply extends_exists; [exact Hg|]. cbn [evidence raw_events].
    exact (insert_absent_exists same_raw (MkRaw c source s raw at_) _ (same_raw_refl _)). }
  rewrite E. rewrite (proj2 (insert_absent_same _ _ _) E). by destruct db1 as [[] ? ?].
Qed.

(** A payload delivered again changes no row.  The evidence tables and
    the funding graph are what the first delivery left, and the raw payload is
    not counted; but its transfers and trades are counted as new once more. *)
Theorem redelivery_counts_again bs58 from_timestamp db chain source raw at_ at' db1 c1
    (Hraw : ∀ s, raw_signature raw = Some s →
      accepts_raw (MkRaw (ChainKind.as_str chain) source s raw at') = true)
    (Hfirst : ingest_transaction numeric accepts_raw dec db chain source raw at_
      (solana_adapter bs58 from_timestamp) = (db1, Done c1)) :
  let second := ingest_transaction numeric accepts_raw dec db1 chain source raw at'
    (solana_adapter bs58 from_timestamp) in
  evidence second.1 = evidence db1 ∧ graph second.1 = graph db1
  ∧ second.2 = Done (MkCounts 0 (transfers_new c1) (trades_new c1) (malformed c1)).
Proof.
  cbv zeta. unfold ingest_transaction in *. cbv zeta in *. cbn [solana_adapter adapter_ingest] in *.
  destruct (store_raw accepts_raw db _ source raw at_) as [[dbr n]|e] eqn:Er; [|done].
  rewrite (normalize_at bs58 from_timestamp at_ at' raw).
  destruct (normalize_helius_transaction bs58 from_timestamp raw at_) as [events|e|]; [| |done].
  - pose proof (store_events_grows numeric accepts_raw dec dbr (ChainKind.as_str chain) source at_ events) as Hg.
    pose proof (store_events_again dbr (ChainKind.as_str chain) source at_ events at') as Ha.
    destruct (store_events numeric dec dbr _ source at_ events) as [db2 [a b]]. injection Hfirst as -> <-.
    rewrite (store_raw_again _ db1 _ _ _ _ _ at' _ Hraw Er Hg). cbn [outcome_map].
    destruct (Ha db1) as [[S1 S2] C]; [by split|].
    destruct (store_events numeric dec db1 _ source at' _) as [db3 [a' b']]. by injection C as -> ->.
  - injection Hfirst as -> <-. by rewrite (store_raw_again _ db1 _ _ _ _ _ at' _ Hraw Er (grows_refl db1)).
Qed.
End redelivery.

(** ** Raw first *)

Section raw_first.
Set Default Proof Using "Type".
Context {J D : Type} `{JsonValue J, DecimalNum D}.
Context (numeric : Z → Z → D → option D) (accepts_raw : RawEvent J → bool) (dec : f64 → D).
Implicit Types (db : ingest_db J D).

(** Claim C32: The payload is kept before it is read.  A payload with a signature
    that raw_events accepts has a row whatever its adapter makes of it; one the
    adapter refuses is counted malformed and one it panics on ends the
    delivery, and neither leaves anything but its row; a payload the table
    refuses fails the delivery and changes nothing. *)
Theorem raw_payload_first db chain source raw at_ (adapter : ChainAdapter J D) s (Hs : raw_signature raw = Some s) :
  let row := MkRaw (ChainKind.as_str chain) source s raw at_ in
  let r := ingest_transaction numeric accepts_raw dec db chain source raw at_ adapter in
  let new := if existsb (same_raw row) (raw_events (evidence db)) then 0 else 1 in
  let only_raw := MkIngest (MkEvidence (insert_absent same_raw row (raw_events (evidence db)))
    (transfers (evidence db)) (trades (evidence db)) (sync_states (evidence db)) (snapshots (evidence db)))
    (wallets_db db) (graph db) in
  if accepts_raw row then
    existsb (same_raw row) (raw_events (evidence r.1)) = true
    ∧ match adapter_ingest adapter raw at_ with
      | Done _ => ∃ a b, r.2 = Done (MkCounts new a b 0)
      | Failed _ => r = (only_raw, Done (MkCounts new 0 0 1))
      | Panicked => r = (only_raw, Panicked)
      end
  else r = (db, Failed "insert into raw_events failed").
Proof.
  cbv zeta. unfold ingest_transaction, store_raw, store_raw_event. cbv zeta. rewrite Hs.
  set (row := MkRaw _ source s raw at_). destruct (accepts_raw row); cbn [negb]; [|done]. cbn [fst snd].
  assert ((if negb (existsb (same_raw row) (raw_events (evidence db))) then 1 else 0)
    = (if existsb (same_raw row) (raw_events (evidence db)) then 0 else 1)) as -> by by destruct (existsb _ _).
  set (db1 := MkIngest _ _ _).
  assert (existsb (same_raw row) (raw_events (evidence db1)) = true) as Hrow.
  { cbn. apply insert_absent_exists, same_raw_refl. }
  destruct (adapter_ingest adapter raw at_) as [events|e|]; [|done..].
  pose proof (store_events_grows numeric accepts_raw dec db1 (ChainKind.as_str chain) source at_ events) as Hg.
  destruct (store_events _ _ _ _ _ _ _) as [db2 [a b]]. split; [|by exists a, b].
  eapply extends_exists; [exact (grow_raw _ _ Hg)|exact Hrow].
Qed.
End raw_first.

(** ** Concrete runs *)

Definition exact_numeric (_ _ : Z) (d : Qc) : option Qc := Some d.
Definition zero_dec (_ : f64) : Qc := 0%Qc.
Definition no_rows : ingest_db json Qc :=
  MkIngest (MkEvidence [] [] [] ∅ []) (MkLabels ∅ []) (MkClusters [] ∅ 0).

Definition deliver (db : ingest_db json Qc) (at_ : Z) : ingest_db json Qc * outcome IngestCounts :=
  ingest_transaction exact_numeric (λ _, true) zero_dec db ChainKind.Solana "helius" (sample_payload 6) at_
    (solana_adapter plain58 any_timestamp).

Definition row_counts (db : ingest_db json Qc) : nat * nat * nat :=
  (length (raw_events (evidence db)), length (transfers (evidence db)), length (trades (evidence db))).

(** The sample payload reports a buy and a sell: one trade row, two counted. *)
Example sell_shadowed_by_buy :
  row_counts (deliver no_rows 11).1 = (1, 2, 1)%nat
  ∧ (deliver no_rows 11).2 = Done (MkCounts 1 2 2 0)
  ∧ (td_side <$> trades (evidence (deliver no_rows 11).1)) = ["buy"].
Proof. vm_compute. done. Qed.

Lemma redelivery_counts_again_witness :
  let first := deliver no_rows 11 in let second := deliver first.1 99 in
  evidence second.1 = evidence first.1 ∧ graph second.1 = graph first.1
  ∧ second.2 = Done (MkCounts 0 2 2 0).
Proof.
  cbv zeta. destruct (deliver no_rows 11) as [db1 r] eqn:E.
  assert (r = Done (MkCounts 1 2 2 0)) as ->.
  { change r with (db1, r).2. rewrite <-E. vm_compute. reflexivity. }
  exact (redelivery_counts_again exact_numeric (λ _, true) zero_dec plain58 any_timestamp no_rows ChainKind.Solana
    "helius" (sample_payload 6) 11 99 db1 _ (λ _ _, eq_refl) E).
Defined.

Lemma raw_payload_first_witness :
  let r := ingest_transaction exact_numeric (λ _, true) zero_dec no_rows ChainKind.Solana "helius" (sample_payload 29) 11
    (solana_adapter plain58 any_timestamp) in
  r.2 = Panicked ∧ row_counts r.1 = (1, 0, 0)%nat.
Proof.
  cbv zeta. assert (raw_signature (sample_payload 29) = Some "sig") as Hs by (vm_compute; reflexivity).
  destruct (raw_payload_first exact_numeric (λ _, true) zero_dec no_rows ChainKind.Solana "helius" (sample_payload 29) 11
    (solana_adapter plain58 any_timestamp) "sig" Hs) as [_ Hr].
  cbn [solana_adapter adapter_ingest] in Hr.
  assert (normalize_helius_transaction (D := Qc) plain58 any_timestamp (sample_payload 29) 11 = Panicked) as E
    by (vm_compute; reflexivity).
  cbn beta iota zeta in Hr. rewrite E in Hr. rewrite Hr. split; vm_compute; reflexivity.
Defined.

(** *** A history of two pages *)

Definition page_of (txs : list json) : reply json := Answered 200 None (ROk (JObject [("result", JArray txs)])).
Definition sync (max_pages : Z) : option (ingest_db json Qc * HeliusPool * outcome WalletSyncOutcome) :=
  sync_wallet exact_numeric (λ _, true) zero_dec (λ _ _ _ _, page_of [sample_payload 6]) (at_instant 0) (λ _, 11)
    no_rows two_keys 0 0 1 ChainKind.Solana addr_a (solana_adapter plain58 any_timestamp) max_pages.

Definition sync_result (o : option (ingest_db json Qc * HeliusPool * outcome WalletSyncOutcome)) :=
  match o with Some (db, _, r) => Some (row_counts db, r) | None => None end.

(** Two pages asked for: the first is stored, then the sync panics. *)
Example second_page_panics :
  sync_result (sync 1) = Some ((1, 2, 1)%nat, Done (MkSyncOutcome 1 2 2 false false))
  ∧ sync_result (sync 2) = Some ((1, 2, 1)%nat, Panicked).
Proof. vm_compute. done. Qed.

Lemma sync_never_pages_witness :
  ∃ db pool o, sync 1 = Some (db, pool, Done o) ∧ 0 <= pages_fetched o <= 1.
Proof.
  assert (sync_result (sync 1) = Some ((1, 2, 1)%nat, Done (MkSyncOutcome 1 2 2 false false))) as Es
    by (vm_compute; reflexivity).
  destruct (sync 1) as [[[db pool] r]|] eqn:E; [|discriminate Es].
  injection Es as _ _ _ ->. eexists db, pool, _. split; [reflexivity|].
  exact (sync_never_pages exact_numeric (λ _, true) zero_dec _ _ _ _ _ _ _ _ _ _ _ _ _ _ _ E).
Defined.

(** *** A block whose fetch fails *)

Definition no_poll : poll_db json Qc := MkPoll (evidence no_rows) empty_radar.

(** A head of three, and a second block that cannot be fetched. *)
Definition faulty_node : tick json :=
  MkTick true (λ _ _ _, ROk (JStr "0x3"))
    (λ block _ _ _, if block =? 2 then RErr "timeout" else ROk (JObject [("number", JStr (lower_hex block))]))
    (λ b, b) (λ b _, b) true (λ _, true).

(** The same node while the cursor cannot be read. *)
Definition cursor_unread : tick json :=
  MkTick true (head_rpc faulty_node) (block_rpc faulty_node) (observed faulty_node) (now_at faulty_node) false (λ _, true).

Definition run_ticks (ticks : list (tick json)) : poll_db json Qc * list Z * bool :=
  robinhood_funding_loop any_timestamp from_u64_qc 7 FundingRadarConfig.default ticks no_poll.

Definition faulty_run (ticks : nat) : poll_db json Qc * list Z * bool := run_ticks (repeat faulty_node ticks).

(** One read of the cursor that fails sends the loop back to block 1, and the
    cursor with it. *)
Example unread_cursor_restarts :
  let r := run_ticks [faulty_node; faulty_node; cursor_unread] in
  stored_cursor (run_ticks [faulty_node; faulty_node]).1.1 = 3 ∧ r.1.2 = [1; 2; 3; 1; 2] ∧ stored_cursor r.1.1 = 2.
Proof. vm_compute. done. Qed.

Lemma robinhood_blocks_once_witness :
  stored_cursor no_poll <= head_max ∧ Forall sane_head (repeat faulty_node 5)
  ∧ (faulty_run 1).1.2 = [1; 2] ∧ (faulty_run 5).1.2 = [1; 2; 3] ∧ stored_cursor (faulty_run 5).1.1 = 0 + 3 - 0.
Proof.
  assert (stored_cursor no_poll <= head_max) as Hc by (vm_compute; discriminate).
  assert (Forall sane_head (repeat faulty_node 5)) as Hs.
  { apply Forall_forall. intros t Ht. apply list_elem_of_In, repeat_spec in Ht as ->. intros c Hh.
    vm_compute in Hh. injection Hh as <-. vm_compute. discriminate. }
  assert (Forall cursor_answers (repeat faulty_node 5)) as Ha by (repeat constructor).
  split_and!; [exact Hc|exact Hs|vm_compute; reflexivity..|].
  exact (proj2 (proj2 (proj2 (robinhood_blocks_once any_timestamp from_u64_qc 7 FundingRadarConfig.default (repeat faulty_node 5) no_poll Hc Hs)) Ha)).
Defined.

(** ** The Solana funding stream *)

Inductive ws_message (J : Type) :=
  | WsText (parsed : result J)
  | WsPing
  | WsClose
  | WsOther.
Arguments WsText {_}. Arguments WsPing {_}. Arguments WsClose {_}. Arguments WsOther {_}.

Section stream.
Set Default Proof Using "Type".
Context {J D : Type} `{JsonValue J, DecimalNum D}.
Context (accepts_raw : RawEvent J → bool).

(** [/params/result/value/signature] *)
Definition stream_signature (value : J) : option string :=
  let? params := j_get value "params" in
  let? r := j_get params "result" in
  let? v := j_get r "value" in str_field v "signature".

(** The messages of the socket until it closes or fails; a paused queue skips
    them.  Each comes with its pause switch and its time. *)
Fixpoint solana_funding_stream (db : evidence_db J D) (messages : list (result (ws_message J) * bool * Z))
    : evidence_db J D :=
  match messages with
  | [] => db
  | (RErr _, _, _) :: _ => db
  | (ROk message, allowed, at_) :: messages =>
      if negb allowed then solana_funding_stream db messages else
      match message with
      | WsClose => db
      | WsText (ROk value) =>
          let db :=
            match stream_signature value with
            | Some signature =>
                match store_raw_event accepts_raw db "solana" "helius_ws" signature value at_ with
                | ROk (db, _) => db
                | RErr _ => db
                end
            | None => db
            end in
          solana_funding_stream db messages
      | _ => solana_funding_stream db messages
      end
  end.

(** The stream keeps payloads and nothing else: no transfer reaches the radar. *)
Lemma solana_stream_only_raw db messages :
  extends (raw_events db) (raw_events (solana_funding_stream db messages))
  ∧ transfers (solana_funding_stream db messages) = transfers db
  ∧ trades (solana_funding_stream db messages) = trades db
  ∧ sync_states (solana_funding_stream db messages) = sync_states db.
Proof.
  revert db. induction messages as [|[[[m|e] allowed] at_] messages IH]; intros db; cbn [solana_funding_stream];
    [by split_and!; auto using extends_refl| |by split_and!; auto using extends_refl].
  destruct (negb allowed); [apply IH|]. destruct m as [[value|e]| | |];
    [|apply IH|apply IH|by split_and!; auto using extends_refl|apply IH].
  destruct (stream_signature value) as [s|]; [|apply IH]. unfold store_raw_event. destruct (negb _); [apply IH|].
  edestruct IH as (R & T & U & V). split_and!; [|exact T|exact U|exact V].
  eapply extends_trans; [|exact R]. apply insert_absent_prefix.
Qed.
End stream.
