(* ===== verification/Discovery.v ===== *)
(** * Token discovery and the recent worker (src/src/workers.rs, src/src/ingest.rs)

    A discovery pass reads the newest tokens of a provider page, registers each
    and resolves its recent intelligence from the funding graph.  Here the
    graph (Clusters.v) feeds the pipeline (Pipeline.v): the edges a token owns
    become the resolver's graph, and its earliest funder the anchor's.

    Parameters: [rfc3339] renders an instant as chrono does, [json_mint] is the
    [mint] of an evidence document, [collate] the database's text order; the
    others are the pipeline's. *)
From S2P Require Import Prelude Text Rows Floats Domain EventKeys Identity Resolver Recent Store Pipeline.
From S2P Require Import CostBasis Decimals Models Json Clusters Evidence.
From stdpp Require Import options.
Local Open Scope string_scope.
Local Open Scope Z_scope.
Local Open Scope list_scope.

(** ** The edges of a token *)

Record TokenFundingEdge := MkTokenEdge {
  te_from : string;
  te_to : string;
  te_kind : string;
  te_time : Z;
  te_promoted : bool;
}.

Section edges.
Context {D : Type}.
Context (json_mint : string → option string) (collate : string → string → comparison).

(** [evidence ->> 'mint']. *)
Definition evidence_mint (e : edge_evidence) : option string :=
  match e with EvTransfer _ _ mint => Some mint | EvJson text => json_mint text end.

(** The [WHERE] both readers share. *)
Definition owned_by (chain : ChainKind) (mint : string) (e : FundingEdge D) : bool :=
  bool_decide (e_chain e = ChainKind.as_str chain)
  && bool_decide (evidence_mint (e_evidence e) = Some mint)
  && bool_decide (is_Some (block_time e)).

Definition token_edge (e : FundingEdge D) : TokenFundingEdge :=
  MkTokenEdge (from_address e) (to_address e) (edge_kind e) (default 0 (block_time e)) (promoted e).

Definition token_owned_funding_edges (db : cluster_db D) (chain : ChainKind) (mint : string)
    : list TokenFundingEdge :=
  take 200 (stable_sort (λ a b, te_time b <=? te_time a)
    (token_edge <$> List.filter (owned_by chain mint) (edges db))).

Definition funder_row (chain : ChainKind) (mint : string) (e : FundingEdge D) : bool :=
  owned_by chain mint e
  && (bool_decide (edge_kind e = "funding") || bool_decide (edge_kind e = "token_funding")).

(** [ORDER BY block_time, signature, from_address, to_address, edge_kind]. *)
Definition funder_cmp : FundingEdge D → FundingEdge D → comparison :=
  cmp_then (cmp_by (λ e, default 0 (block_time e)) Z.compare)
    (cmp_then (cmp_by e_signature collate)
      (cmp_then (cmp_by from_address collate)
        (cmp_then (cmp_by to_address collate) (cmp_by edge_kind collate)))).

Definition earliest_token_funder (db : cluster_db D) (chain : ChainKind) (mint : string) : option string :=
  from_address <$> head (stable_sort (cmp_leb funder_cmp)
                           (List.filter (funder_row chain mint) (edges db))).
End edges.

(** ** The resolution of one token *)

Section worker.
Context {J D : Type} `{JsonValue J}.
Context (json_mint : string → option string) (collate : string → string → comparison) (rfc3339 : Z → string).
Context (sha256_hex : string → string) (url_host : string → option string).
Context (parse_rfc3339 : string → option instant) (accepts : Z → RecentEvent → bool).
Context (social : list social_row) (workspace : WorkspaceScope).

Definition entity_key (chain : ChainKind) (address : string) : string :=
  ChainKind.as_str chain +:+ ":" +:+ address.

Definition entity_edge (chain : ChainKind) (row : TokenFundingEdge) : EntityEdge :=
  let at_ := rfc3339 (te_time row) in
  EntityEdge.mk (entity_key chain (te_from row)) (entity_key chain (te_to row))
    (if decide (te_kind row = "deploy") then EdgeType.DeployedBy else EdgeType.FundedBy)
    at_ None
    (if te_promoted row then TruthStatus.Confirmed else TruthStatus.Unknown)
    None at_ None None
    ["funding_edge:" +:+ ChainKind.as_str chain +:+ ":" +:+ te_kind row +:+ ":"
     +:+ (if te_promoted row then "promoted" else "unpromoted")].

Definition token_nodes (chain : ChainKind) (mint : string) (rows : list TokenFundingEdge) : list EntityNode :=
  EntityNode.mk (entity_key chain mint) NodeType.Token
  :: ((λ row, EntityNode.mk (entity_key chain (te_to row)) NodeType.Wallet) <$> rows).

Definition token_anchor (db : cluster_db D) (chain : ChainKind) (mint : string) : ActorExtraction :=
  ActorExtraction.mk (entity_key chain mint) None None None None
    (entity_key chain <$> earliest_token_funder json_mint collate db chain mint) [] [].

(** The rows of the workspace's recent table afterwards, and the outcome, which
    the worker logs. *)
Definition resolve_recent_for_token (db : cluster_db D) (chain : ChainKind) (mint : string)
    (observed_at : Z) (s : store) : store * result PipelineOutcome :=
  let rows := token_owned_funding_edges json_mint db chain mint in
  run_for_anchor sha256_hex url_host parse_rfc3339 accepts social workspace
    TokenLifecycle.Active (Some ActivationTrigger.FirstLiquidity) (token_anchor db chain mint)
    (token_nodes chain mint rows) (entity_edge chain <$> rows) observed_at s.

(** ** The pass *)

Record TokenRow := MkToken { first_seen_at : Z; lifecycle_state : string }.

Record TokenObservation := MkObservation {
  ob_chain : string;
  ob_mint : string;
  ob_observed_at : Z;
  ob_endpoint : string;
  ob_payload : J;
}.

Record discovery_db := MkDiscovery {
  token_rows : gmap (string * string) TokenRow;
  token_observations : list TokenObservation;
  recent_rows : store;
}.

Definition same_token_observation (a b : TokenObservation) : bool :=
  bool_decide (ob_chain a = ob_chain b) && bool_decide (ob_mint a = ob_mint b)
  && (ob_observed_at a =? ob_observed_at b) && bool_decide (ob_endpoint a = ob_endpoint b).

Definition store_gmgn_token_observation (db : discovery_db) (chain : ChainKind) (mint endpoint : string)
    (payload : J) (observed_at : Z) : discovery_db :=
  let row := MkObservation (ChainKind.as_str chain) mint observed_at endpoint payload in
  MkDiscovery (token_rows db) (insert_absent same_token_observation row (token_observations db)) (recent_rows db).

Record WalletObservation := MkWalletObservation {
  wo_chain : string;
  wo_address : string;
  wo_observed_at : Z;
  wo_endpoint : string;
  wo_period : string;
  wo_payload : J;
}.

Definition same_wallet_observation (a b : WalletObservation) : bool :=
  bool_decide (wo_chain a = wo_chain b) && bool_decide (wo_address a = wo_address b)
  && (wo_observed_at a =? wo_observed_at b) && bool_decide (wo_endpoint a = wo_endpoint b)
  && bool_decide (wo_period a = wo_period b).

Definition store_gmgn_wallet_observation (rows : list WalletObservation) (chain : ChainKind)
    (address endpoint period : string) (payload : J) (observed_at : Z) : list WalletObservation :=
  insert_absent same_wallet_observation
    (MkWalletObservation (ChainKind.as_str chain) address observed_at endpoint period payload) rows.

Definition first_field (j : J) (keys : list string) : option J := head (omap (j_get j) keys).

Definition page_items (data : J) : list J :=
  default [] (first_field data ["pools"; "items"; "tokens"] ≫= as_array).

Definition item_mint (item : J) : string :=
  default "" (first_field item ["mint"; "address"] ≫= as_str).

(** INSERT .. ON CONFLICT DO NOTHING. *)
Definition register_token (db : discovery_db) (chain : ChainKind) (mint : string) (at_ : Z) : discovery_db :=
  let key := (ChainKind.as_str chain, mint) in
  match token_rows db !! key with
  | Some _ => db
  | None => MkDiscovery (<[key := MkToken at_ "new_creation"]> (token_rows db)) (token_observations db) (recent_rows db)
  end.

Definition discover_item (graph : cluster_db D) (chain : ChainKind) (observed_at : Z)
    (st : discovery_db * Z) (item : J) : discovery_db * Z :=
  let '(db, count) := st in
  let mint := item_mint item in
  if bool_decide (mint = "") then (db, count) else
  let db := register_token db chain mint observed_at in
  let rows := (resolve_recent_for_token graph chain mint observed_at (recent_rows db)).1 in
  (MkDiscovery (token_rows db) (token_observations db) rows, wrap_u32 (count + 1)).

(** [page] is the provider's answer. *)
Definition discover_tokens_once (page : result J) (db : discovery_db) (graph : cluster_db D)
    (chain : ChainKind) (observed_at : Z) : discovery_db * result Z :=
  match page with
  | RErr e => (db, RErr e)
  | ROk data =>
      let db := store_gmgn_token_observation db chain "trenches_discovery" "trenches" data observed_at in
      let '(db, count) := fold_left (discover_item graph chain observed_at) (page_items data) (db, 0) in
      (db, ROk count)
  end.
End worker.

(** ** The resolver has nothing to find *)

Lemma foldl_fixed {A S} (f : S → A → S) l s : (∀ x, x ∈ l → f s x = s) → foldl f s l = s.
Proof.
  induction l as [|x l IH]; intros Hf; [done|]. cbn [foldl]. rewrite Hf by set_solver. apply IH. set_solver.
Qed.

Section nothing.
Set Default Proof Using "Type".
Context {D : Type}.
Context (json_mint : string → option string) (collate : string → string → comparison) (rfc3339 : Z → string).
Context (sha256_hex : string → string) (url_host : string → option string).
Context (parse_rfc3339 : string → option instant) (accepts : Z → RecentEvent → bool).
Context (social : list social_row) (workspace : WorkspaceScope).
Local Abbreviation resolve := (resolve_recent_for_token (D := D) json_mint collate rfc3339 sha256_hex url_host
  parse_rfc3339 accepts social workspace).

(** An anchor without deployer and social identities, in a graph of funding
    and deployment edges whose one token is the anchor itself, has no candidate. *)
Lemma lone_token_no_candidates (anchor : ActorExtraction) nodes edges bindings now
    (Hd : ActorExtraction.deployer anchor = None) (Hs : ActorExtraction.social_identities anchor = [])
    (Hn : ∀ n, n ∈ nodes → EntityNode.node_type n = NodeType.Token →
      EntityNode.entity_key n = ActorExtraction.token anchor)
    (He : ∀ e, e ∈ edges → EntityEdge.edge_type e ≠ EdgeType.CrossChainDeployment) :
  resolve_candidates url_host parse_rfc3339 anchor nodes edges bindings now = [].
Proof.
  unfold resolve_candidates. destruct (canonical_chain _) as [c|]; [|done]. rewrite Hs. cbn [foldl].
  rewrite (foldl_fixed (cross_chain_step _ _ _ _ _)).
  2: { intros e Hin. unfold cross_chain_step, is_type. by rewrite bool_decide_eq_false_2 by by apply He. }
  rewrite (foldl_fixed (actor_node_step _ _ _ _ _)).
  2: { intros n [Hin Ht]%elem_of_lfilter. apply bool_decide_eq_true in Ht. unfold actor_node_step.
       rewrite (Hn n Hin Ht). destruct (same_token _ _ _) eqn:E; [done|].
       unfold same_token in E. destruct (normalize_identity url_host IdentityKind.Token _); [|done].
       by rewrite bool_decide_eq_true_2 in E. }
  rewrite (foldl_fixed (funding_step _ _ _ _ _ _ _)); [done|].
  intros e _. unfold funding_step. rewrite Hd. by destruct (negb _).
Qed.

Lemma worker_has_no_candidates (db : cluster_db D) chain mint bindings now :
  let rows := token_owned_funding_edges json_mint db chain mint in
  resolve_candidates url_host parse_rfc3339 (token_anchor json_mint collate db chain mint)
    (token_nodes chain mint rows) (entity_edge rfc3339 chain <$> rows) bindings now = [].
Proof.
  cbv zeta. apply lone_token_no_candidates; [done..| |].
  - intros n [->|Hn]%elem_of_cons; [done|]. apply list_elem_of_fmap in Hn as (row & -> & _). done.
  - intros e He. apply list_elem_of_fmap in He as (row & -> & _). cbn. by case_decide.
Qed.

(** One disclosure at most, and an untouched outcome apart from its flags. *)
Definition counts_of (o : PipelineOutcome) : nat * nat * nat :=
  (PipelineOutcome.resolved o, PipelineOutcome.appended o, PipelineOutcome.duplicates o).

Lemma disclose_at_most_one anchor now missing s o s' res :
  disclose_coverage sha256_hex accepts workspace anchor now missing s o = (s', res) →
  (s' = s ∨ ∃ id, s' = s ++ [DbRow (length s) (WorkspaceScope.id workspace) (ActorExtraction.token anchor)
                              (bind_row (coverage_event anchor now missing id) false)])
  ∧ ∀ o', res = ROk o' → counts_of o' = counts_of o.
Proof.
  unfold disclose_coverage. destruct (disclosure_due _ _ _); [|intros [= <- <-]; split; [by left|by intros ? [= <-]]].
  destruct (legacy_row_publishes_the_same_fact _ _ _ _); [intros [= <- <-]; split; [by left|by intros ? [= <-]]|].
  destruct (append_recent_event_on _ _ _ _) as [s1 b] eqn:E.
  apply append_cases in E as [[-> Hb]|(-> & _ & ->)].
  - destruct b as [[]|]; intros [= <- <-]; (split; [by left|]); [done|by intros ? [= <-]|done].
  - intros [= <- <-]. split; [right; by eexists|]. intros o' [= <-]. by destruct o.
Qed.

(** The recent worker publishes no relation.  Whatever funding graph,
    identities and token it is given, it resolves nothing, so a pass writes at
    most one row, the disclosure that deployer and authority (and the funder,
    without a funding edge) are unknown; and once a pass has succeeded the
    workspace holds such a disclosure, so the empty answer is explained. *)
Theorem recent_worker_only_discloses (db : cluster_db D) chain mint at_ s s' res
    (Hrun : resolve db chain mint at_ s = (s', res)) :
  let anchor := token_anchor json_mint collate db chain mint in
  let missing := ["deployer"; "authority"] ++
    (if bool_decide (earliest_token_funder json_mint collate db chain mint = None) then ["initial_funder"] else []) in
  (s' = s ∨ ∃ r, s' = s ++ [r] ∧ is_disclosure r = true
     ∧ row_workspace r = WorkspaceScope.id workspace
     ∧ RecentEventRow.missing_inputs (columns r) = missing ∧ RecentEventRow.relation (columns r) = None)
  ∧ ∀ o, res = ROk o → counts_of o = (0, 0, 0)%nat
      ∧ (coverage_keys_sound sha256_hex workspace anchor s → ∃ r, r ∈ s' ∧ discloses workspace anchor r).
Proof.
  cbv zeta. unfold resolve_recent_for_token, run_for_anchor in Hrun. cbn [should_trigger_lookup negb] in Hrun.
  unfold resolve_candidates_from_store in Hrun. rewrite worker_has_no_candidates in Hrun. cbn [append_candidates length] in Hrun.
  set (anchor := token_anchor json_mint collate db chain mint) in *.
  assert (missing_actor_inputs anchor = ["deployer"; "authority"] ++
    (if bool_decide (earliest_token_funder json_mint collate db chain mint = None) then ["initial_funder"] else [])) as Em.
  { unfold missing_actor_inputs, anchor, token_anchor. cbn. by destruct (earliest_token_funder _ _ _ _ _). }
  pose proof (disclose_at_most_one _ _ _ _ _ _ _ Hrun) as [Hs Ho]. rewrite Em in Hs. split.
  - destruct Hs as [->|[id ->]]; [by left|]. right. eexists. split; [reflexivity|]. done.
  - intros o ->. split; [by rewrite (Ho o eq_refl)|]. intros Hk.
    eapply disclose_leaves_disclosure; [|exact Hk|exact Hrun]. by rewrite Em.
Qed.
End nothing.

(** ** The earliest funder *)

Section funder.
Set Default Proof Using "Type*".
Context {D : Type}.
Context (json_mint : string → option string) (collate : string → string → comparison).
Context (Hcollate : cmp_ok collate) (Hties : ∀ a b, collate a b = Eq → a = b).

Lemma funder_cmp_ok : cmp_ok (funder_cmp (D := D) collate).
Proof. unfold funder_cmp. repeat apply cmp_then_ok; apply cmp_by_ok; first [apply cmp_Z_ok|apply Hcollate]. Qed.

(** The unique key of the table, the chain being pinned. *)
Definition edge_key (e : FundingEdge D) : string * string * string * string * string :=
  (e_chain e, from_address e, to_address e, e_signature e, edge_kind e).

Lemma funder_cmp_eq (a b : FundingEdge D) : funder_cmp collate a b = Eq → from_address a = from_address b.
Proof.
  unfold funder_cmp. rewrite !cmp_then_Eq. unfold cmp_by. intros (_ & _ & Hf & _). by apply Hties.
Qed.

(** The initial funder is a property of the edges.  It is the sender of
    an edge that funds the token, no later than any other, and two graphs with
    the same edges in any physical order name the same one. *)
Theorem earliest_funder_total_order (db : cluster_db D) chain mint :
  (∀ a, earliest_token_funder json_mint collate db chain mint = Some a →
     ∃ e t, e ∈ edges db ∧ funder_row json_mint chain mint e = true ∧ from_address e = a ∧ block_time e = Some t
       ∧ ∀ e' t', e' ∈ edges db → funder_row json_mint chain mint e' = true → block_time e' = Some t' → t <= t')
  ∧ (earliest_token_funder json_mint collate db chain mint = None →
     ∀ e, e ∈ edges db → funder_row json_mint chain mint e = false)
  ∧ (∀ db', edges db' ≡ₚ edges db →
     earliest_token_funder json_mint collate db' chain mint = earliest_token_funder json_mint collate db chain mint).
Proof.
  pose proof (cmp_leb_total _ funder_cmp_ok) as Ht. pose proof (cmp_leb_trans _ funder_cmp_ok) as Htr.
  unfold earliest_token_funder. split_and!.
  - intros a Ha. destruct (head _) as [e|] eqn:E; [|done]. injection Ha as <-.
    apply (stable_sort_head _ Ht Htr) in E as [[He Hf]%elem_of_lfilter Hl].
    assert (∀ x : FundingEdge D, funder_row json_mint chain mint x = true → is_Some (block_time x)) as Hb.
    { intros x [[_ Hx]%andb_prop _]%andb_prop. by apply bool_decide_eq_true in Hx. }
    destruct (Hb e Hf) as [t Et]. exists e, t. split_and!; [done..|]. intros e' t' He' Hf' Et'.
    specialize (Hl e'). rewrite elem_of_lfilter in Hl. specialize (Hl (conj He' Hf')).
    unfold cmp_leb, funder_cmp, cmp_then, cmp_by in Hl. rewrite Et, Et' in Hl. cbn in Hl.
    destruct (Z.compare_spec t t'); [lia|lia|done].
  - intros Hn e He. destruct (head _) as [x|] eqn:E; [done|]. apply stable_sort_head_None in E.
    destruct (funder_row json_mint chain mint e) eqn:Ef; [|done].
    assert (e ∈ List.filter (funder_row json_mint chain mint) (edges db)) as Hin by by apply elem_of_lfilter.
    rewrite E in Hin. by apply not_elem_of_nil in Hin.
  - intros db' Hp. assert (∀ x, x ∈ List.filter (funder_row json_mint chain mint) (edges db')
      ↔ x ∈ List.filter (funder_row json_mint chain mint) (edges db)) as Hin.
    { intros x. by rewrite !elem_of_lfilter, Hp. }
    destruct (head (stable_sort _ (List.filter _ (edges db')))) as [a|] eqn:Ea,
      (head (stable_sort _ (List.filter _ (edges db)))) as [b|] eqn:Eb; [| | |done].
    + apply (stable_sort_head _ Ht Htr) in Ea as [Ha La], Eb as [Hb Lb]. cbn. f_equal.
      apply funder_cmp_eq. specialize (La b (proj2 (Hin b) Hb)). specialize (Lb a (proj1 (Hin a) Ha)).
      unfold cmp_leb in La, Lb. rewrite (cmp_antisym _ funder_cmp_ok a b) in Lb.
      by destruct (funder_cmp collate a b).
    + exfalso. apply (stable_sort_head _ Ht Htr) in Ea as [Ha _]. apply stable_sort_head_None in Eb.
      apply Hin in Ha. rewrite Eb in Ha. by apply not_elem_of_nil in Ha.
    + exfalso. apply (stable_sort_head _ Ht Htr) in Eb as [Hb _]. apply stable_sort_head_None in Ea.
      apply Hin in Hb. rewrite Ea in Hb. by apply not_elem_of_nil in Hb.
Qed.
End funder.

(** ** What a pass registers *)

Section pass.
Set Default Proof Using "Type".
Context {J D : Type} `{JsonValue J}.
Context (json_mint : string → option string) (collate : string → string → comparison) (rfc3339 : Z → string).
Context (sha256_hex : string → string) (url_host : string → option string).
Context (parse_rfc3339 : string → option instant) (accepts : Z → RecentEvent → bool).
Context (social : list social_row) (workspace : WorkspaceScope).
Local Abbreviation item_step := (discover_item (J := J) (D := D) json_mint collate rfc3339 sha256_hex url_host
  parse_rfc3339 accepts social workspace).
Local Abbreviation discover := (discover_tokens_once (J := J) (D := D) json_mint collate rfc3339 sha256_hex url_host
  parse_rfc3339 accepts social workspace).

(** The mints a page names. *)
Definition page_mints (items : list J) : list string :=
  List.filter (λ m, negb (bool_decide (m = ""))) (item_mint <$> items).

(** A known token keeps its row; a named one is new. *)
Definition registered (chain : ChainKind) (at_ : Z) (mints : list string)
    (rows : gmap (string * string) TokenRow) (k : string * string) : option TokenRow :=
  match rows !! k with
  | Some row => Some row
  | None => if bool_decide (k.1 = ChainKind.as_str chain ∧ k.2 ∈ mints)
            then Some (MkToken at_ "new_creation") else None
  end.

Lemma register_token_rows (db : discovery_db (J := J)) chain m at_ k :
  token_rows (register_token db chain m at_) !! k = registered chain at_ [m] (token_rows db) k.
Proof.
  unfold register_token, registered. destruct k as [c x]. cbn [fst snd].
  destruct (decide ((c, x) = (ChainKind.as_str chain, m))) as [[= -> ->]|Hne].
  - destruct (token_rows db !! (ChainKind.as_str chain, m)) as [row|] eqn:E; [by rewrite E|].
    cbn [token_rows]. rewrite lookup_insert_eq. by rewrite bool_decide_eq_true_2 by (split; [done|by apply list_elem_of_singleton]).
  - assert (∀ o : option TokenRow, match o with Some row => Some row
      | None => if bool_decide (c = ChainKind.as_str chain ∧ x ∈ [m]) then Some (MkToken at_ "new_creation") else None
      end = o) as Hid.
    { intros [row|]; [done|]. rewrite bool_decide_eq_false_2; [done|]. intros [-> ->%list_elem_of_singleton]. by apply Hne. }
    destruct (token_rows db !! (ChainKind.as_str chain, m)); rewrite ?Hid; [done|].
    cbn [token_rows]. by rewrite lookup_insert_ne by done.
Qed.

Lemma registered_app chain at_ m1 m2 rows k rows' (Hr : ∀ k, rows' !! k = registered chain at_ m1 rows k) :
  registered chain at_ m2 rows' k = registered chain at_ (m1 ++ m2) rows k.
Proof.
  clear json_mint collate rfc3339 sha256_hex url_host parse_rfc3339 accepts social workspace.
  unfold registered at 1 2. rewrite Hr. unfold registered. destruct (rows !! k); [done|].
  repeat case_bool_decide; try done; set_solver.
Qed.

Lemma discover_fold graph chain at_ items (db : discovery_db (J := J)) n :
  let r := fold_left (item_step graph chain at_) items (db, n) in
  (∀ k, token_rows r.1 !! k = registered chain at_ (page_mints items) (token_rows db) k)
  ∧ (wrap_u32 n = n → r.2 = wrap_u32 (n + Z.of_nat (length (page_mints items))))
  ∧ token_observations r.1 = token_observations db.
Proof.
  cbv zeta. revert db n. induction items as [|item items IH]; intros db n; cbn [fold_left fst snd].
  { split_and!; [|intros E; cbn; by rewrite Z.add_0_r, E|done].
    intros k. unfold registered. destruct (token_rows db !! k); [done|]. by rewrite bool_decide_eq_false_2 by (intros [_ Hx]; by apply not_elem_of_nil in Hx). }
  unfold page_mints. cbn [fmap list_fmap List.filter].
  change (List.filter _ (item_mint <$> items)) with (page_mints items).
  unfold discover_item at 2 4 6. case_bool_decide as Hm; cbn [negb]; [apply IH|].
  set (db1 := MkDiscovery _ _ _). destruct (IH db1 (wrap_u32 (n + 1))) as (IH1 & IH2 & IH3). split_and!.
  - intros k. rewrite IH1. apply (registered_app chain at_ [item_mint item] (page_mints items)).
    intros k'. apply register_token_rows.
  - intros Hn. rewrite IH2 by (unfold wrap_u32; by rewrite Z.mod_mod). cbn [length]. rewrite Nat2Z.inj_succ.
    unfold wrap_u32. rewrite Zplus_mod_idemp_l. f_equal. lia.
  - rewrite IH3. unfold db1, register_token. cbn [token_observations]. by destruct (token_rows db !! _).
Qed.

(** A discovery pass registers exactly the mints of its page.  A token
    already known keeps its row, a new one is recorded at the time of the pass,
    no other row changes, and the count is that of the mints named, known or
    not; the page itself is kept once, and a provider error changes nothing. *)
Theorem discovery_registers page (db : discovery_db (J := J)) graph chain at_ :
  match page with
  | RErr e => discover page db graph chain at_ = (db, RErr e)
  | ROk data =>
      let mints := page_mints (page_items data) in
      let r := discover page db graph chain at_ in
      (∀ k, token_rows r.1 !! k = registered chain at_ mints (token_rows db) k)
      ∧ r.2 = ROk (wrap_u32 (Z.of_nat (length mints)))
      ∧ token_observations r.1 = insert_absent same_token_observation
          (MkObservation (ChainKind.as_str chain) "trenches_discovery" at_ "trenches" data) (token_observations db)
  end.
Proof.
  destruct page as [data|e]; [|done]. cbv zeta. unfold discover_tokens_once.
  set (db1 := store_gmgn_token_observation _ _ _ _ _ _).
  destruct (discover_fold graph chain at_ (page_items data) db1 0) as (H1 & H2 & H3).
  destruct (fold_left _ _ _) as [db2 n]. cbn [fst snd] in *. split_and!; [exact H1|by rewrite H2|by rewrite H3].
Qed.
End pass.

(** ** Instances *)

Definition no_mint (_ : string) : option string := None.
Definition plain_time (t : Z) : string := pretty t.

Definition funded (from to sig : string) (t : option Z) : FundingEdge () :=
  MkEdge "solana" from to sig "token_funding" "5" t () (EvTransfer transfer_components "spl_token" "MINT") false.

(** Two senders in one block: the signature decides. *)
Definition sample_graph : cluster_db () :=
  MkClusters [funded "late" "w" "s9" (Some 9); funded "second" "w" "s2" (Some 5); funded "first" "w" "s1" (Some 5);
              funded "undated" "w" "s0" None] ∅ 0.

Lemma str_compare_ties a b : String.compare a b = Eq → a = b.
Proof. by intros ?%str_compare_eq. Qed.

Lemma earliest_funder_total_order_witness :
  earliest_token_funder no_mint String.compare sample_graph ChainKind.Solana "MINT" = Some "first"
  ∧ (∀ db', edges db' ≡ₚ edges sample_graph →
      earliest_token_funder no_mint String.compare db' ChainKind.Solana "MINT" = Some "first").
Proof.
  assert (earliest_token_funder no_mint String.compare sample_graph ChainKind.Solana "MINT" = Some "first") as E
    by (vm_compute; reflexivity).
  split; [exact E|]. intros db' Hp. rewrite <-E.
  exact (proj2 (proj2 (earliest_funder_total_order no_mint String.compare cmp_str_ok str_compare_ties
    sample_graph ChainKind.Solana "MINT")) db' Hp).
Defined.

Definition resolve_sample (s : store) : store * result PipelineOutcome :=
  resolve_recent_for_token no_mint String.compare plain_time toy_digest no_url jan_2026 (λ _ _, true)
    sample_social (WorkspaceScope.mk 7) sample_graph ChainKind.Solana "MINT" (1800000000 * 10 ^ 9) s.

Definition run_summary (r : store * result PipelineOutcome) : list (list string) * option (nat * nat * nat) :=
  ((λ row, RecentEventRow.missing_inputs (columns row)) <$> r.1,
   match r.2 with ROk o => Some (counts_of o) | RErr _ => None end).

Lemma recent_worker_only_discloses_witness :
  run_summary (resolve_sample []) = ([["deployer"; "authority"]], Some (0, 0, 0)%nat)
  ∧ ∃ o, (resolve_sample []).2 = ROk o ∧ counts_of o = (0, 0, 0)%nat
    ∧ ∃ r, r ∈ (resolve_sample []).1 ∧ discloses (WorkspaceScope.mk 7)
        (token_anchor no_mint String.compare sample_graph ChainKind.Solana "MINT") r.
Proof.
  split; [vm_compute; reflexivity|].
  destruct (resolve_sample []) as [s' res] eqn:E.
  destruct (recent_worker_only_discloses no_mint String.compare plain_time toy_digest no_url jan_2026 (λ _ _, true)
    sample_social (WorkspaceScope.mk 7) sample_graph ChainKind.Solana "MINT" (1800000000 * 10 ^ 9) [] s' res E) as [_ H].
  assert (run_summary (s', res) = ([["deployer"; "authority"]], Some (0, 0, 0)%nat)) as Es.
  { rewrite <-E. vm_compute. reflexivity. }
  destruct res as [o|e]; [|discriminate Es]. exists o. split; [reflexivity|].
  destruct (H o eq_refl) as [Hc Hd]. split; [exact Hc|]. apply Hd.
  intros r m b p Hr. by apply not_elem_of_nil in Hr.
Defined.
