(* ===== verification/Scoring.v ===== *)
(** * Wallet scores (src/src/scoring.rs, workers.rs, config.rs)

    The FIFO matching of a wallet's trades, the two deterministic scores and
    the conviction built from them, the append-only score table, and
    [score_wallet], which reads the trades of a wallet whose policy allows
    scoring.  The map [totals] of the matching is written and never read, and
    is left out.  [numeric p s] is PostgreSQL's coercion to numeric(p, s). *)
From S2P Require Import Prelude Text Rows Domain Floats CostBasis Decimals Models Labels Evidence.
From Stdlib Require Import QArith.QArith QArith.Qcanon Lqa.
From stdpp Require Import options.
Local Open Scope string_scope.
Local Open Scope Z_scope.
Local Open Scope list_scope.

(** ** config.rs *)

Module ScoringConfig.
Record ScoringConfig := mk {
  min_meaningful_trades : Z;
  min_tokens_traded : Z;
  full_skill_score : Z;
  full_copyability_score : Z;
  history_completeness_floor : f64;
  conviction_cap_below_completeness : Z;
}.

Definition default : ScoringConfig := mk 20 5 70 60 (f64_lit 80 100) 49.
End ScoringConfig.
Abbreviation ScoringConfig := ScoringConfig.ScoringConfig.

(** ** The records *)

Record ScoredTrade (D : Type) := MkScoredTrade {
  st_mint : string;
  st_side : TradeSide;
  st_token_amount : D;
  st_usd_value : option D;
  st_block_time : option Z;
}.
Arguments MkScoredTrade {_}. Arguments st_mint {_}. Arguments st_side {_}.
Arguments st_token_amount {_}. Arguments st_usd_value {_}. Arguments st_block_time {_}.

Record MatchedPosition (D : Type) := MkMatched {
  mp_mint : string;
  realized_pnl_usd : option D;
  roi : option D;
  hold_seconds : option Z;
}.
Arguments MkMatched {_}. Arguments mp_mint {_}. Arguments realized_pnl_usd {_}.
Arguments roi {_}. Arguments hold_seconds {_}.

Record OpenLot (D : Type) := MkLot { lot_amount : D; lot_usd : D; lot_time : option Z }.
Arguments MkLot {_}. Arguments lot_amount {_}. Arguments lot_usd {_}. Arguments lot_time {_}.

Module ScoreInputs.
Record ScoreInputs (D : Type) := mk {
  meaningful_trades : Z;
  tokens_traded : Z;
  realized_pnl_usd : D;
  size_weighted_roi : D;
  meaningful_win_rate : D;
  early_entry_rate : D;
  history_completeness : D;
  mev_likelihood : D;
  avg_hold_seconds : option Z;
  gmgn_agreement : option D;
  liquidity_available : option D;
}.
Arguments mk {_}. Arguments meaningful_trades {_}. Arguments tokens_traded {_}.
Arguments realized_pnl_usd {_}. Arguments size_weighted_roi {_}. Arguments meaningful_win_rate {_}.
Arguments early_entry_rate {_}. Arguments history_completeness {_}. Arguments mev_likelihood {_}.
Arguments avg_hold_seconds {_}. Arguments gmgn_agreement {_}. Arguments liquidity_available {_}.
End ScoreInputs.
Abbreviation ScoreInputs := ScoreInputs.ScoreInputs.

Record CopyabilityPenalties := MkPenalties {
  hold_penalty : Z;
  liquidity_penalty : Z;
  drift_penalty : Z;
  sell_race_penalty : Z;
  bot_penalty : Z;
}.

Record WalletScoreResult (D : Type) := MkResult {
  skill : Z;
  copyability : Z;
  conviction : Z;
  provisional : bool;
  r_history_completeness : D;
  penalties : CopyabilityPenalties;
}.
Arguments MkResult {_}. Arguments skill {_}. Arguments copyability {_}. Arguments conviction {_}.
Arguments provisional {_}. Arguments r_history_completeness {_}. Arguments penalties {_}.

Section scoring.
Context {D : Type} `{DecimalNum D}.

(** ** FIFO matching *)

(** The [while] loop of a sell over the open lots of its token. *)
Fixpoint consume_lots (fuel : nat) (lots : list (OpenLot D)) (remaining cost : D)
    (open_time : option Z) : option (list (OpenLot D) * D * option Z) :=
  match fuel with
  | O => None
  | S fuel =>
      if negb (d_ltb d_zero remaining) then Some (lots, cost, open_time) else
      match lots with
      | [] => Some ([], cost, open_time)
      | lot :: rest =>
          let take := d_min remaining (lot_amount lot) in
          let cost :=
            if negb (d_eqb (lot_usd lot) d_zero) && negb (d_eqb (lot_amount lot) d_zero)
            then d_add cost (d_mul (lot_usd lot) (d_div take (lot_amount lot))) else cost in
          let open_time := match open_time with None => lot_time lot | Some _ => open_time end in
          let amount := d_sub (lot_amount lot) take in
          let lots := if d_eqb amount d_zero then rest
                      else MkLot amount (lot_usd lot) (lot_time lot) :: rest in
          consume_lots fuel lots (d_sub remaining take) cost open_time
      end
  end.

Definition buy_usd (t : ScoredTrade D) : D :=
  match st_usd_value t with Some usd => usd | None => d_mul (st_token_amount t) d_zero end.

Definition matched_position (t : ScoredTrade D) (cost : D) (open_time : option Z)
    : MatchedPosition D :=
  let proceeds := default d_zero (st_usd_value t) in
  MkMatched (st_mint t) (Some (d_sub proceeds cost))
    (if negb (d_eqb cost d_zero) then Some (d_div (d_sub proceeds cost) cost) else None)
    (match open_time, st_block_time t with
     | Some opened, Some closed => Some (Z.max 0 (num_seconds (closed - opened)))
     | _, _ => None
     end).

Abbreviation fifo_state := (gmap string (list (OpenLot D)) * list (MatchedPosition D))%type.

Definition fifo_trade (st : fifo_state) (t : ScoredTrade D) : option fifo_state :=
  let '(open, matched) := st in
  let lots := default [] (open !! st_mint t) in
  match st_side t with
  | TradeSide.Buy =>
      Some (<[st_mint t := lots ++ [MkLot (st_token_amount t) (buy_usd t) (st_block_time t)]]> open,
            matched)
  | TradeSide.Sell =>
      let? (lots', cost, open_time) :=
        consume_lots (S (length lots)) lots (st_token_amount t) d_zero None in
      Some (<[st_mint t := lots']> open, matched ++ [matched_position t cost open_time])
  end.

Fixpoint fifo_trades (st : fifo_state) (trades : list (ScoredTrade D)) : option fifo_state :=
  match trades with
  | [] => Some st
  | t :: trades => let? st := fifo_trade st t in fifo_trades st trades
  end.

Definition fifo_match (trades : list (ScoredTrade D)) : option (list (MatchedPosition D)) :=
  snd <$> fifo_trades (∅, []) trades.

(** ** Skill *)

(** ROI above 5x saturates; below -100% floors at zero. *)
Definition normalize_ratio (value : D) : D :=
  d_div (d_add (d_clamp value (d_of_Z (-1)) (d_of_Z 5)) d_one) (d_of_Z 6).

Definition skill_total (inputs : ScoreInputs D) : D :=
  let half := d_new 5 1 in
  let unit v := d_clamp v d_zero d_one in
  let win := ScoreInputs.meaningful_win_rate inputs in
  let roi_component := d_mul (normalize_ratio (ScoreInputs.size_weighted_roi inputs)) (d_of_Z 30) in
  let win_component := d_mul (unit win) (d_of_Z 20) in
  let early_component := d_mul (unit (ScoreInputs.early_entry_rate inputs)) (d_of_Z 15) in
  let consistency := d_sub d_one (d_abs (d_sub win half)) in
  let consistency_component := d_mul (unit consistency) (d_of_Z 10) in
  let sample := d_div (d_of_Z (Z.min (ScoreInputs.meaningful_trades inputs) 50)) (d_of_Z 50) in
  let sample_component := d_mul sample (d_of_Z 10) in
  let agreement := default half (ScoreInputs.gmgn_agreement inputs) in
  let agreement_component := d_mul (unit agreement) (d_of_Z 15) in
  d_add (d_add (d_add (d_add (d_add roi_component win_component) early_component)
    consistency_component) sample_component) agreement_component.

Definition skill_score (inputs : ScoreInputs D) : Z :=
  default 0 (d_to_u32 (d_clamp (skill_total inputs) d_zero (d_of_Z 100))).

(** ** Copyability *)

Definition copyability_score (inputs : ScoreInputs D) : Z * CopyabilityPenalties :=
  let hold := ScoreInputs.avg_hold_seconds inputs in
  let mev := ScoreInputs.mev_likelihood inputs in
  let hold_penalty :=
    match hold with
    | Some h => if h <=? 5 then 60 else if h <=? 60 then 30 else if h <=? 300 then 10 else 0
    | None => 0
    end in
  let liquidity_penalty :=
    match ScoreInputs.liquidity_available inputs with
    | Some l => if d_ltb l (d_of_Z 10000) then 25 else if d_ltb l (d_of_Z 50000) then 10 else 0
    | None => 0
    end in
  let drift_penalty :=
    if d_leb (d_new 8 1) mev then 25 else if d_leb (d_new 5 1) mev then 10 else 0 in
  let sell_race_penalty :=
    match hold with Some h => if h <=? 5 then 15 else 0 | None => 0 end in
  let bot_penalty := if d_leb (d_new 9 1) mev then 30 else 0 in
  let total_penalty :=
    hold_penalty + liquidity_penalty + drift_penalty + sell_race_penalty + bot_penalty in
  (Z.min 100 (Z.max 0 (100 - total_penalty)),
   MkPenalties hold_penalty liquidity_penalty drift_penalty sell_race_penalty bot_penalty).

(** ** The score of a wallet *)

(** The configured floor, read back from its printed form. *)
Definition completeness_floor (config : ScoringConfig) : D :=
  match d_exact (f64_display (ScoringConfig.history_completeness_floor config)) with
  | Some d => d
  | None => d_new 8 1
  end.

Definition compute_wallet_score (inputs : ScoreInputs D) (config : ScoringConfig)
    : WalletScoreResult D :=
  let skill := skill_score inputs in
  let '(copyability, penalties) := copyability_score inputs in
  let provisional :=
    (ScoreInputs.meaningful_trades inputs <? ScoringConfig.min_meaningful_trades config)
    || (ScoreInputs.tokens_traded inputs <? ScoringConfig.min_tokens_traded config) in
  let base_conviction :=
    default 0 (d_to_u32 (d_div (d_add (d_of_Z skill) (d_of_Z copyability)) (d_of_Z 2))) in
  let conviction :=
    if d_ltb (ScoreInputs.history_completeness inputs) (completeness_floor config)
    then Z.min base_conviction (ScoringConfig.conviction_cap_below_completeness config)
    else Z.min base_conviction 100 in
  MkResult skill copyability conviction provisional (ScoreInputs.history_completeness inputs)
    penalties.

Definition full_entry_eligible (result : WalletScoreResult D) (config : ScoringConfig) : bool :=
  (ScoringConfig.full_skill_score config <=? skill result)
  && (ScoringConfig.full_copyability_score config <=? copyability result)
  && negb (provisional result).

(** ** The table *)

Record ScoreRow := MkScore {
  sc_chain : string;
  sc_address : string;
  sc_as_of : Z;
  sc_realized_pnl_usd : option D;
  sc_size_weighted_roi : option D;
  sc_meaningful_win_rate : option D;
  sc_early_entry_rate : option D;
  skill_col : Z;
  copyability_col : Z;
  completeness_col : D;
  mev_col : D;
  conviction_col : Z;
  provisional_col : bool;
  sc_penalties : CopyabilityPenalties;
  sc_meaningful_trades : Z;
  sc_tokens_traded : Z;
}.

Definition same_score (a b : ScoreRow) : bool :=
  bool_decide (sc_chain a = sc_chain b) && bool_decide (sc_address a = sc_address b)
  && (sc_as_of a =? sc_as_of b).

Section store.
Context (numeric : Z → Z → D → option D).

Definition score_row (chain : ChainKind) (address : string) (as_of : Z) (inputs : ScoreInputs D)
    (result : WalletScoreResult D) : option ScoreRow :=
  let? pnl := numeric 30 4 (ScoreInputs.realized_pnl_usd inputs) in
  let? roi := numeric 10 4 (ScoreInputs.size_weighted_roi inputs) in
  let? win := numeric 6 4 (ScoreInputs.meaningful_win_rate inputs) in
  let? early := numeric 6 4 (ScoreInputs.early_entry_rate inputs) in
  let? completeness := numeric 6 4 (ScoreInputs.history_completeness inputs) in
  let? mev := numeric 5 4 (ScoreInputs.mev_likelihood inputs) in
  Some (MkScore (ChainKind.as_str chain) address as_of (Some pnl) (Some roi) (Some win) (Some early)
          (wrap_i32 (skill result)) (wrap_i32 (copyability result)) completeness mev
          (wrap_i32 (conviction result)) (provisional result) (penalties result)
          (ScoreInputs.meaningful_trades inputs) (ScoreInputs.tokens_traded inputs)).

Definition store_wallet_score (scores : list ScoreRow) (chain : ChainKind) (address : string)
    (as_of : Z) (inputs : ScoreInputs D) (result : WalletScoreResult D) : Prelude.result (list ScoreRow) :=
  match score_row chain address as_of inputs result with
  | Some row => ROk (insert_absent same_score row scores)
  | None => RErr "insert into wallet_scores failed"
  end.

(** ** workers.rs: [score_wallet] *)

Definition block_time_leb (a b : TradeRow D) : bool :=
  match td_block_time a, td_block_time b with Some s, Some t => s <=? t | _, _ => true end.

(** The trades of the wallet up to [as_of], oldest first. *)
Definition wallet_trades {J} (db : evidence_db J D) (chain address : string) (as_of : Z)
    : list (TradeRow D) :=
  stable_sort block_time_leb
    (List.filter (λ t, bool_decide (td_chain t = chain) && bool_decide (td_wallet t = address)
        && match td_block_time t with Some b => b <=? as_of | None => false end) (trades db)).

Definition scored_trade (t : TradeRow D) : option (ScoredTrade D) :=
  let? side := pick [(["buy"], TradeSide.Buy); (["sell"], TradeSide.Sell)] (td_side t) in
  Some (MkScoredTrade (td_mint t) side (default d_zero (td_token_amount t)) (td_usd_value t)
          (td_block_time t)).

Definition opt_test (p : D → bool) (o : option D) : bool :=
  match o with Some v => p v | None => false end.

Definition avg_hold (matched : list (MatchedPosition D)) : option Z :=
  let holds := omap hold_seconds matched in
  if bool_decide (holds = []) then None
  else Some (Z.quot (wrap_i64 (fold_left Z.add holds 0)) (Z.max (Z.of_nat (length holds)) 1)).

Definition score_inputs (matched : list (MatchedPosition D)) : ScoreInputs D :=
  let count p := Z.of_nat (length (List.filter (λ m, opt_test p (realized_pnl_usd m)) matched)) in
  let n := Z.of_nat (length matched) in
  ScoreInputs.mk (wrap_u32 (count (λ p, d_leb (d_of_Z 1) (d_abs p))))
    (wrap_u32 (Z.of_nat (size (list_to_set (mp_mint <$> matched) : gset string))))
    (d_sum (omap realized_pnl_usd matched)) d_zero
    (if n =? 0 then d_zero else d_div (d_of_Z (count (λ p, d_ltb d_zero p))) (d_of_Z n))
    d_zero d_one d_zero (avg_hold matched) None None.

(** The wallet's result; [ROk None] when its policy forbids scoring.  The
    outer option is the loop of the matching. *)
Definition score_wallet {J} (db : evidence_db J D) (policy : label_db) (scores : list ScoreRow)
    (now workspace_id : Z) (chain : ChainKind) (address : string) (as_of : Z)
    (config : ScoringConfig)
    : option (list ScoreRow * Prelude.result (option (WalletScoreResult D))) :=
  match effective_disposition policy now workspace_id chain address with
  | RErr e => Some (scores, RErr e)
  | ROk disposition =>
      if negb (allows_scoring disposition) then Some (scores, ROk None) else
      let scored := omap scored_trade (wallet_trades db (ChainKind.as_str chain) address as_of) in
      let? matched := fifo_match scored in
      let inputs := score_inputs matched in
      let result := compute_wallet_score inputs config in
      match store_wallet_score scores chain address as_of inputs result with
      | RErr e => Some (scores, RErr e)
      | ROk scores => Some (scores, ROk (Some result))
      end
  end.
End store.
End scoring.
Arguments ScoreRow : clear implicits.

(** ** The matching *)

Section matching.
Set Default Proof Using "Type*".
Context {D : Type} `{DecimalNumSpec D}.

Lemma smaller_cases (a b : D) : d_min a b = a ∨ d_min a b = b.
Proof. unfold d_min. destruct (d_leb a b); auto. Qed.

Lemma consume_lots_total fuel (lots : list (OpenLot D)) remaining cost t :
  (length lots < fuel)%nat → is_Some (consume_lots fuel lots remaining cost t).
Proof.
  revert lots remaining cost t. induction fuel as [|fuel IH]; intros lots remaining cost t Hl; [lia|].
  cbn [consume_lots]. destruct (d_ltb d_zero remaining); [|by eexists]. cbn [negb].
  destruct lots as [|lot lots]; [by eexists|]. simpl in Hl.
  destruct (smaller_cases remaining (lot_amount lot)) as [->| ->].
  - assert (d_leb (d_sub remaining remaining) d_zero = true) as E
      by (apply d_leb_val; rewrite d_sub_self_val, d_zero_val; apply Qle_refl).
    destruct fuel as [|fuel]; [lia|]. cbn [consume_lots]. unfold d_ltb at 1. rewrite E. by eexists.
  - assert (d_eqb (d_sub (lot_amount lot) (lot_amount lot)) d_zero = true) as ->
      by (apply d_eqb_val; by rewrite d_sub_self_val, d_zero_val).
    apply IH. lia.
Qed.

(** Every trade is processed. *)
Lemma fifo_trades_total (trades : list (ScoredTrade D)) st : is_Some (fifo_trades st trades).
Proof.
  revert st. induction trades as [|t trades IH]; intros [open ps]; [by eexists|].
  cbn [fifo_trades fifo_trade]. destruct (st_side t); [apply IH|].
  set (lots := default [] _).
  destruct (consume_lots_total (S (length lots)) lots (st_token_amount t) d_zero None) as [[[l c] o] ->];
    [lia|]. apply IH.
Qed.

End matching.

(** ** The scores *)

Section scores.
Set Default Proof Using "Type*".
Context {D : Type} `{DecimalNumSpec D}.

(** A component of weight [w] on a value between 0 and 1. *)
Lemma component_within (v : D) w : within 0 1 v → 0 <= w <= max_mantissa → within 0 w (d_mul v (d_of_Z w)).
Proof.
  intros Hv Hw. replace w with (1 * w) at 1 by lia. change 0 with (0 * w).
  apply within_weight; unfold small; try done; lia.
Qed.

Lemma unit_within (v : D) : within 0 1 (d_clamp v d_zero d_one).
Proof. apply within_clamp; [apply within_zero|by apply within_of_Z|done]. Qed.

Lemma normalize_within (v : D) : within 0 1 (normalize_ratio v).
Proof.
  assert (within (-1) 5 (d_clamp v (d_of_Z (-1)) (d_of_Z 5))) as Hc
    by (apply within_clamp; [by apply within_of_Z..|done]).
  apply within_div; [|done..]. by apply (within_add (-1) 5 1 1); [|by apply within_of_Z|..].
Qed.

Lemma sample_within n : 0 <= n → within 0 1 (d_div (d_of_Z (Z.min n 50)) (d_of_Z (D := D) 50)).
Proof.
  intros Hn. apply within_div; [|done..]. eapply within_weaken; [apply within_of_Z|..]; unfold small, max_mantissa; lia.
Qed.

(** The weights add up to 100: the clamp of the total never bites. *)
Lemma skill_total_within (inputs : ScoreInputs D) : 0 <= ScoreInputs.meaningful_trades inputs →
  within 0 100 (skill_total inputs).
Proof.
  intros Hn. unfold skill_total. cbv zeta.
  apply (within_add 0 85 0 15); [|by apply component_within; [apply unit_within|]|done..].
  apply (within_add 0 75 0 10); [|by apply component_within; [by apply sample_within|]|done..].
  apply (within_add 0 65 0 10); [|by apply component_within; [apply unit_within|]|done..].
  apply (within_add 0 50 0 15); [|by apply component_within; [apply unit_within|]|done..].
  by apply (within_add 0 30 0 20); [apply component_within; [apply normalize_within|]
    |apply component_within; [apply unit_within|]|..].
Qed.

Lemma skill_truncates (inputs : ScoreInputs D) lo hi : within lo hi (skill_total inputs) → 0 <= lo → hi <= 100 →
  lo <= skill_score inputs <= hi
  ∧ (inject_Z (skill_score inputs) <= d_val (skill_total inputs))%Q
  ∧ (d_val (skill_total inputs) < inject_Z (skill_score inputs + 1))%Q.
Proof.
  intros Hw Hlo Hhi. destruct (within_weaken _ _ 0 100 _ Hw Hlo Hhi) as [F0 F100].
  unfold skill_score. rewrite d_clamp_id.
  - destruct (to_u32_within lo hi _ Hw) as (n & -> & ?); [done|lia|]. done.
  - by rewrite d_zero_val.
  - by rewrite d_of_Z_val.
Qed.

Lemma copyability_exact (inputs : ScoreInputs D) :
  let '(c, p) := copyability_score inputs in
  let total := hold_penalty p + liquidity_penalty p + drift_penalty p + sell_race_penalty p + bot_penalty p in
  c = Z.max 0 (100 - total) ∧ 0 <= total <= 155.
Proof.
  unfold copyability_score. cbn [hold_penalty liquidity_penalty drift_penalty sell_race_penalty bot_penalty].
  repeat case_match; lia.
Qed.

Lemma copyability_range (inputs : ScoreInputs D) : 0 <= (copyability_score inputs).1 <= 100.
Proof. pose proof (copyability_exact inputs) as Hc. destruct (copyability_score inputs) as [c p]. destruct Hc. cbn [fst]. lia. Qed.

(** The mean of two scores, truncated. *)
Lemma half_sum a b : 0 <= a <= 100 → 0 <= b <= 100 →
  d_to_u32 (d_div (d_add (d_of_Z a) (d_of_Z b)) (d_of_Z (D := D) 2)) = Some ((a + b) / 2).
Proof.
  intros Ha Hb. assert (units 0 (a + b) (d_add (d_of_Z (D := D) a) (d_of_Z b))) as Hs.
  { apply units_add; [lia|unfold max_mantissa; lia|..]; unfold units; rewrite d_of_Z_val by (unfold max_mantissa; lia);
      change (pow10 0) with 1%Q; by rewrite Qmult_1_r. }
  unfold units in Hs. change (pow10 0) with 1%Q in Hs. rewrite Qmult_1_r in Hs.
  set (q := d_div _ _). assert (d_val q * pow10 1 == inject_Z (5 * (a + b)))%Q as Hq.
  { eapply rounds_exact; [apply d_div_val|lia|unfold max_mantissa; lia|]; rewrite d_of_Z_val by done; [done|].
    rewrite Hs, inject_Z_mult. change (pow10 1) with 10%Q. change (inject_Z 2) with 2%Q. change (inject_Z 5) with 5%Q. field. }
  change (pow10 1) with 10%Q in Hq. rewrite inject_Z_mult in Hq. change (inject_Z 5) with 5%Q in Hq.
  assert (d_val q == inject_Z (a + b) * (1 # 2))%Q as Hv by lra.
  destruct (to_u32_within 0 100 q) as (n & -> & _ & F1 & F2); [|done..|].
  - assert (inject_Z 0 <= inject_Z (a + b) ∧ inject_Z (a + b) <= inject_Z 200)%Q as [G1 G2] by (rewrite <-!Zle_Qle; lia).
    change (inject_Z 0) with 0%Q in G1. change (inject_Z 200) with 200%Q in G2.
    split; rewrite Hv; change (inject_Z 0) with 0%Q; change (inject_Z 100) with 100%Q; lra.
  - f_equal. apply (Z.div_unique _ 2 n (a + b - 2 * n)); [left|lia].
    rewrite Hv in F1, F2. clear Hs Hq Hv q. set (t := a + b) in *. rewrite inject_Z_plus in F2. change (inject_Z 1) with 1%Q in F2.
    assert (inject_Z (2 * n) <= inject_Z t ∧ inject_Z t < inject_Z (2 * n + 2))%Q as [G1 G2]
      by (rewrite inject_Z_plus, inject_Z_mult; change (inject_Z 2) with 2%Q; split; lra).
    rewrite <-Zle_Qle in G1. rewrite <-Zlt_Qlt in G2. lia.
Qed.

(** The win rate less one half, and its distance to one, are numbers of the
    type. *)
Definition win_in_range (inputs : ScoreInputs D) : Prop :=
  let win := ScoreInputs.meaningful_win_rate inputs in
  let dev := d_sub win (d_new 5 1) in
  fits 0 (d_val win - d_val (d_new (D := D) 5 1)) ∧ fits 0 (d_val (d_zero (D := D)) - d_val dev)
  ∧ fits 0 (d_val (d_one (D := D)) - d_val (d_abs dev)).

Lemma within_fits lo hi (q : Q) : (inject_Z lo <= q)%Q → (q <= inject_Z hi)%Q → small lo → small hi → fits 0 q.
Proof.
  unfold small, fits. intros Hl Hh ??. change (pow10 0) with 1%Q. rewrite Qmult_1_r.
  split_and!; [lia|eapply Qle_trans; [|exact Hl]|eapply Qle_trans; [exact Hh|]]; rewrite <-Zle_Qle; lia.
Qed.

Lemma win_rate_in_range (inputs : ScoreInputs D) :
  within (- 2 ^ 95) (2 ^ 95) (ScoreInputs.meaningful_win_rate inputs) → win_in_range inputs.
Proof.
  intros Hw. assert (within 0 1 (d_new (D := D) 5 1)) as Hh.
  { assert (units 1 5 (d_new (D := D) 5 1)) as Hu by by apply d_new_val; [lia|].
    unfold units in Hu. change (pow10 1) with 10%Q in Hu. change (inject_Z 5) with 5%Q in Hu.
    unfold within. change (inject_Z 0) with 0%Q. change (inject_Z 1) with 1%Q. split; lra. }
  pose proof (within_sub _ _ _ _ _ _ Hw Hh ltac:(done) ltac:(done)) as Hs.
  pose proof (within_sub 0 0 _ _ _ _ within_zero Hs ltac:(done) ltac:(done)) as Hneg.
  unfold win_in_range. cbv zeta. set (dev := d_sub _ _) in *.
  assert (within (- 2 ^ 95 - 1) (2 ^ 95 + 1) (d_abs dev)) as Ha
    by (unfold d_abs; destruct (d_leb _ _); (eapply within_weaken; [eassumption|lia|lia])).
  assert (d_val (d_one (D := D)) == 1)%Q as Hone by (unfold d_one; by rewrite d_of_Z_val).
  pose proof d_zero_val as Hzero. revert Hw Hh Hs Ha. unfold within. intros [] [] [] [].
  split_and!; apply (within_fits (- 2 ^ 95 - 2) (2 ^ 95 + 2)); try done; rewrite ?Hzero, ?Hone; clear Hneg;
    unfold Z.sub in *; rewrite ?inject_Z_plus, ?inject_Z_opp in *; set (B := inject_Z (2 ^ 95)) in *;
    change (inject_Z 0) with 0%Q in *; change (inject_Z (- 0)) with 0%Q in *; change (inject_Z 1) with 1%Q in *; change (inject_Z 2) with 2%Q in *; lra.
Qed.

(** Claim C37: With a trade count of the field's type and a win rate no
    larger than 2^95 in size, no arithmetic of the scores overflows and each is
    in range: the weighted total lies in 0..100, so the clamp changes nothing,
    and the skill is its truncation; the copyability is 100 less the recorded
    penalties, but not below 0; the conviction is half their sum, rounded down,
    capped at the configured bound exactly when the history is incomplete. *)
Theorem scores_bounded (inputs : ScoreInputs D) config
    (Htrades : 0 <= ScoreInputs.meaningful_trades inputs < 2 ^ 32)
    (Hwin : within (- 2 ^ 95) (2 ^ 95) (ScoreInputs.meaningful_win_rate inputs)) :
  let r := compute_wallet_score inputs config in
  let p := penalties r in
  let total := hold_penalty p + liquidity_penalty p + drift_penalty p + sell_race_penalty p + bot_penalty p in
  win_in_range inputs
  ∧ within 0 100 (skill_total inputs) ∧ 0 <= skill r <= 100
  ∧ (inject_Z (skill r) <= d_val (skill_total inputs))%Q ∧ (d_val (skill_total inputs) < inject_Z (skill r + 1))%Q
  ∧ copyability r = Z.max 0 (100 - total) ∧ 0 <= copyability r <= 100
  ∧ conviction r
    = Z.min ((skill r + copyability r) / 2)
        (if d_ltb (ScoreInputs.history_completeness inputs) (completeness_floor config)
         then ScoringConfig.conviction_cap_below_completeness config else 100).
Proof.
  cbv zeta. unfold compute_wallet_score. pose proof (skill_total_within inputs (proj1 Htrades)) as Ht.
  destruct (skill_truncates inputs 0 100 Ht) as (Hs & F1 & F2); [done..|].
  pose proof (copyability_exact inputs) as Hc. destruct (copyability_score inputs) as [c p]. destruct Hc as [Ec Hp].
  cbn [skill copyability conviction penalties]. rewrite half_sum by lia. cbn [default from_option id].
  split_and!; try done; [by apply win_rate_in_range|lia..|]. by destruct (d_ltb _ _).
Qed.

(** The default thresholds admit only wallets that can be copied: held
    for more than five seconds, below the bot and thin-market levels, and with
    a large enough record. *)
Theorem eligible_is_copyable (inputs : ScoreInputs D) config
    (Hcopy : 60 <= ScoringConfig.full_copyability_score config)
    (Hfull : full_entry_eligible (compute_wallet_score inputs config) config = true) :
  (∀ h, ScoreInputs.avg_hold_seconds inputs = Some h → 5 < h)
  ∧ d_ltb (ScoreInputs.mev_likelihood inputs) (d_new 9 1) = true
  ∧ (∀ h l, ScoreInputs.avg_hold_seconds inputs = Some h → h <= 60 →
       ScoreInputs.liquidity_available inputs = Some l → d_leb (d_of_Z 10000) l = true)
  ∧ ScoringConfig.full_skill_score config <= skill_score inputs
  ∧ ScoringConfig.min_meaningful_trades config <= ScoreInputs.meaningful_trades inputs
  ∧ ScoringConfig.min_tokens_traded config <= ScoreInputs.tokens_traded inputs.
Proof.
  revert Hfull. unfold full_entry_eligible, compute_wallet_score.
  destruct (copyability_score inputs) as [c p] eqn:Ec. cbn [skill copyability provisional].
  intros Hf. bool_prop.
  assert (60 <= c) as Hc by lia. injection Ec as Ec _.
  assert (d_leb (d_new 9 1) (ScoreInputs.mev_likelihood inputs) = true →
    d_leb (d_new 8 1) (ScoreInputs.mev_likelihood inputs) = true) as H98.
  { rewrite !d_leb_val. intros. eapply Qle_trans; [|done]. apply d_leb_val.
    rewrite (units_leb 1 8 9); [done|by apply d_new_val; [lia|]..]. }
  split_and!; try lia.
  - intros h Eh. rewrite Eh in Ec. destruct (Z.leb_spec h 5); [|done]. exfalso. repeat case_match; lia.
  - unfold d_ltb. apply negb_true_iff, not_true_iff_false. intros E9.
    rewrite E9, (H98 E9) in Ec. repeat case_match; lia.
  - intros h l Eh H60 El. rewrite Eh, El in Ec. destruct (d_leb (d_of_Z 10000) l) eqn:E; [done|].
    exfalso. unfold d_ltb at 1 in Ec. rewrite E in Ec. cbn [negb] in Ec.
    destruct (Z.leb_spec h 60); [|lia]. repeat case_match; lia.
Qed.

(** ** What [score_wallet] stores *)

Lemma score_inputs_skill (matched : list (MatchedPosition D)) : 0 <= skill_score (score_inputs matched) <= 53.
Proof.
  set (inputs := score_inputs matched).
  assert (0 <= ScoreInputs.meaningful_trades inputs) as Hn by by apply Z.mod_pos_bound.
  pose proof (skill_total_within inputs Hn) as Hw.
  destruct (skill_truncates inputs 0 100 Hw) as (Hs & F1 & _); [done..|]. split; [lia|].
  enough (d_val (skill_total inputs) * 10 <= 535)%Q as Ht.
  { enough (skill_score inputs < 54) by lia. rewrite Zlt_Qlt. change (inject_Z 54) with 54%Q. lra. }
  clear Hs F1 Hw. unfold skill_total. cbv zeta.
  change (ScoreInputs.size_weighted_roi inputs) with (d_zero (D := D)).
  change (ScoreInputs.early_entry_rate inputs) with (d_zero (D := D)).
  change (ScoreInputs.gmgn_agreement inputs) with (@None D). cbn [default from_option].
  set (five := d_new (D := D) 5 1). assert (d_val five == 1 # 2)%Q as H5.
  { assert (units 1 5 five) as Hu by by apply d_new_val; [lia|].
    unfold units in Hu. change (pow10 1) with 10%Q in Hu. change (inject_Z 5) with 5%Q in Hu. lra. }
  assert (d_val (d_one (D := D)) == 1)%Q as Hone by (unfold d_one; by rewrite d_of_Z_val).
  rewrite (d_clamp_id five), (d_clamp_id d_zero d_zero d_one) by (rewrite ?d_zero_val, ?H5, ?Hone; done).
  assert (within 0 6 (d_mul (normalize_ratio (D := D) d_zero) (d_of_Z 30))) as C1.
  { unfold normalize_ratio. rewrite d_clamp_id by (rewrite d_zero_val, d_of_Z_val by done; done).
    assert (d_val (d_add (d_zero (D := D)) d_one) == 1)%Q as Hz.
    { pose proof (rounds_exact _ _ 0 1 (d_add_val (d_zero (D := D)) d_one)) as G.
      change (pow10 0) with 1%Q in G. rewrite !Qmult_1_r in G. apply G; [lia|done|]. by rewrite d_zero_val, Hone. }
    set (v := d_div _ _). assert (0 <= d_val v ∧ d_val v * 10 <= 2)%Q as [G1 G2].
    { assert (rounds (1 # 6) (d_val v)) as Hr.
      { eapply rounds_eq; [|apply d_div_val]; rewrite ?Hz, d_of_Z_val by done; done. }
      destruct (Hr 1%nat 2) as [_ F2]; [by split_and!; [lia|..]|]. destruct (Hr 1%nat 0) as [F1 _]; [by split_and!; [lia|..]|].
      specialize (F1 ltac:(done)). specialize (F2 ltac:(done)). change (pow10 1) with 10%Q in *.
      change (inject_Z 0) with 0%Q in F1. change (inject_Z 2) with 2%Q in F2. split; lra. }
    eapply rounds_between; [apply d_mul_val|done|done|..]; rewrite d_of_Z_val by done;
      change (inject_Z 30) with 30%Q; change (inject_Z 0) with 0%Q; change (inject_Z 6) with 6%Q; lra. }
  assert (within 0 0 (d_mul (d_zero (D := D)) (d_of_Z 15))) as C3.
  { apply (within_weight 0 0); [apply within_zero|done..]. }
  assert (d_val (d_mul five (d_of_Z (D := D) 15)) * 10 == 75)%Q as C6.
  { change 10%Q with (pow10 1). change 75%Q with (inject_Z 75).
    eapply rounds_exact; [apply d_mul_val|lia|done|]. rewrite H5, d_of_Z_val by done. done. }
  set (a := d_mul five _) in *. set (b := d_add _ (d_mul (d_div _ _) _)).
  assert (within 0 46 b) as [B1 B2].
  { apply (within_add 0 36 0 10); [|by apply component_within; [by apply sample_within|]|done..].
    apply (within_add 0 26 0 10); [|by apply component_within; [apply unit_within|]|done..].
    apply (within_add 0 26 0 0); [|done..].
    by apply (within_add 0 6 0 20); [|apply component_within; [apply unit_within|]|..]. }
  change (inject_Z 0) with 0%Q in B1. change (inject_Z 46) with 46%Q in B2.
  destruct (d_add_val b a 1%nat 535) as [_ F]; change (pow10 1) with 10%Q in *; change (inject_Z 535) with 535%Q in *.
  - split_and!; [lia|apply (Qle_trans _ (inject_Z 0))|apply (Qle_trans _ (inject_Z 600))]; try (rewrite <-Zle_Qle; done);
      change (pow10 1) with 10%Q; change (inject_Z 0) with 0%Q; change (inject_Z 600) with 600%Q; lra.
  - apply F. lra.
Qed.

Context (numeric : Z → Z → D → option D).

(** What is computed from stored trades. *)
Lemma computed_scores (ps : list (MatchedPosition D)) config :
  let result := compute_wallet_score (score_inputs ps) config in
  0 <= skill result <= 53 ∧ 0 <= copyability result <= 100.
Proof.
  cbv zeta. unfold compute_wallet_score. pose proof (copyability_range (score_inputs ps)) as Hc.
  pose proof (score_inputs_skill ps) as Hs.
  destruct (copyability_score (score_inputs ps)). cbn [skill copyability]. simpl in Hc. lia.
Qed.

(** The row of a result, unless a column refuses its number. *)
Lemma score_row_columns chain address as_of inputs result row :
  - 2 ^ 31 <= skill result < 2 ^ 31 → - 2 ^ 31 <= copyability result < 2 ^ 31 →
  score_row numeric chain address as_of inputs result = Some row →
  sc_chain row = ChainKind.as_str chain ∧ sc_address row = address ∧ sc_as_of row = as_of
  ∧ skill_col row = skill result ∧ copyability_col row = copyability result.
Proof.
  intros Hs Hc Er. unfold score_row in Er. repeat (destruct (numeric _ _ _); [|done]). injection Er as <-.
  cbn [sc_chain sc_address sc_as_of skill_col copyability_col].
  split_and!; [done..| |]; by apply wrap_i32_id.
Qed.

Lemma insert_absent_new {A} (same : A → A → bool) x l :
  insert_absent same x l = l ++ (if existsb (same x) l then [] else [x]).
Proof. unfold insert_absent. destruct (existsb _ l); [by rewrite app_nil_r|done]. Qed.

(** The table after a run: its own row, unless the policy, a column or an
    earlier row of the same instant stands against it. *)
Lemma score_wallet_step {J} (db : evidence_db J D) policy scores now ws chain address as_of config :
  ∃ new r, score_wallet numeric db policy scores now ws chain address as_of config = Some (scores ++ new, r)
    ∧ Forall (λ row, sc_chain row = ChainKind.as_str chain ∧ sc_address row = address
        ∧ sc_as_of row = as_of ∧ 0 <= skill_col row <= 53 ∧ 0 <= copyability_col row <= 100) new
    ∧ match r with
      | ROk None => new = []
          ∧ ∃ d, effective_disposition policy now ws chain address = ROk d ∧ d ≠ Disposition.Score
      | ROk (Some result) =>
          effective_disposition policy now ws chain address = ROk Disposition.Score
          ∧ 0 <= skill result <= 53
          ∧ ∃ row, row ∈ scores ++ new ∧ sc_chain row = ChainKind.as_str chain ∧ sc_address row = address
              ∧ sc_as_of row = as_of
      | RErr _ => new = []
      end.
Proof.
  unfold score_wallet. destruct (effective_disposition policy now ws chain address) as [d|e] eqn:Ed.
  2: { exists [], (RErr e). by rewrite app_nil_r. }
  destruct (allows_scoring d) eqn:Ea; cbn [negb].
  2: { exists [], (ROk None). rewrite app_nil_r. split_and!; [done..|]. exists d. by destruct d. }
  unfold fifo_match. set (trades := omap _ _).
  destruct (fifo_trades_total trades (∅, [])) as [[open ps] ->].
  change (snd <$> Some (open, ps)) with (Some ps). cbv beta iota zeta.
  pose proof (computed_scores ps config) as [Hs Hc]. cbv zeta in Hs, Hc.
  set (result := compute_wallet_score (score_inputs ps) config) in *.
  destruct d; try done. unfold store_wallet_score.
  destruct (score_row numeric chain address as_of (score_inputs ps) result) as [row|] eqn:Er.
  2: { exists []. eexists. rewrite app_nil_r. by split_and!. }
  apply score_row_columns in Er as (R1 & R2 & R3 & R4 & R5); [|lia..].
  rewrite insert_absent_new. eexists _, (ROk (Some result)). split; [reflexivity|].
  destruct (existsb (same_score row) scores) eqn:Ex.
  - split_and!; [done|done|lia|lia|]. apply existsb_exists_elem in Ex as (x & Hx & Es).
    exists x. rewrite app_nil_r. split; [done|]. unfold same_score in Es. bool_prop.
    split_and!; congruence || lia.
  - split; [constructor; [|done]; by rewrite R4, R5; split_and!; try lia|]. split_and!; [done|lia|lia|].
    exists row. split_and!; [|done..]. rewrite elem_of_app, list_elem_of_singleton. by right.
Qed.

(** A wallet is scored exactly when its policy says score; the table
    only grows, by at most its own row, and a row once there is never
    replaced.  The skill stored is at most 53. *)
Theorem score_wallet_spec {J} (db : evidence_db J D) policy scores now ws chain address as_of config :
  ∃ scores' r, score_wallet numeric db policy scores now ws chain address as_of config = Some (scores', r)
    ∧ (∃ new, scores' = scores ++ new
        ∧ Forall (λ row, sc_chain row = ChainKind.as_str chain ∧ sc_address row = address
            ∧ sc_as_of row = as_of ∧ 0 <= skill_col row <= 53 ∧ 0 <= copyability_col row <= 100) new)
    ∧ match r with
      | ROk None => scores' = scores
          ∧ ∃ d, effective_disposition policy now ws chain address = ROk d ∧ d ≠ Disposition.Score
      | ROk (Some result) =>
          effective_disposition policy now ws chain address = ROk Disposition.Score
          ∧ 0 <= skill result <= 53
          ∧ ∃ row, row ∈ scores' ∧ sc_chain row = ChainKind.as_str chain ∧ sc_address row = address
              ∧ sc_as_of row = as_of
      | RErr _ => scores' = scores
      end.
Proof.
  destruct (score_wallet_step db policy scores now ws chain address as_of config) as (new & r & E & Hn & Hr).
  exists (scores ++ new), r. split_and!; [done|by exists new|].
  destruct r as [[result|]|e]; [done| |]; [destruct Hr as [-> Hr]|subst new]; rewrite app_nil_r; done.
Qed.
End scores.

(** ** Instances *)

Definition qz (z : Z) : Qc := qc_new z 0.

Definition sample_trade (side : TradeSide) (amount usd time : Z) : ScoredTrade Qc :=
  MkScoredTrade "M" side (qz amount) (Some (qz usd)) (Some (time * 10 ^ 9)).

(** A purchase of 100 tokens for $50, sold in halves for $40 each. *)
Definition half_sells : list (ScoredTrade Qc) :=
  [sample_trade TradeSide.Buy 100 50 0; sample_trade TradeSide.Sell 50 40 60;
   sample_trade TradeSide.Sell 50 40 120].

(** A lot sold in parts is charged more than it cost, because a partial
    sell leaves the whole cost on the lot: the halves of a $50 purchase are
    charged $25 and $50, so $80 of proceeds count as $5 of profit. *)
Theorem partial_sells_overcharge :
  (map realized_pnl_usd <$> fifo_match half_sells) = Some [Some (qz 15); Some (qz (-10))].
Proof. vm_compute. done. Qed.

Definition good_inputs : ScoreInputs Qc :=
  ScoreInputs.mk 60 8 (qz 5000) (qz 4) (qc_new 8 1) (qc_new 9 1) (qz 1) (qz 0) (Some 3600)
    (Some (qz 1)) (Some (qz 100000)).

Example good_scores :
  let r := compute_wallet_score good_inputs ScoringConfig.default in
  (skill r, copyability r, conviction r, full_entry_eligible r ScoringConfig.default)
  = (86, 100, 93, true).
Proof. vm_compute. reflexivity. Qed.

(** The floor of 0.80 is read back exactly. *)
Example floor_read : completeness_floor (D := Qc) ScoringConfig.default = qc_new 8 1.
Proof. vm_compute. reflexivity. Qed.

Lemma scores_bounded_witness :
  let r := compute_wallet_score good_inputs ScoringConfig.default in
  skill r = 86 ∧ conviction r = Z.min ((skill r + copyability r) / 2) 100.
Proof.
  destruct (scores_bounded good_inputs ScoringConfig.default) as (_ & _ & _ & _ & _ & _ & _ & Hc).
  - done.
  - by vm_compute.
  - split; [by vm_compute|exact Hc].
Defined.

Lemma eligible_is_copyable_witness :
  5 < 3600 ∧ d_ltb (ScoreInputs.mev_likelihood good_inputs) (qc_new 9 1) = true.
Proof.
  destruct (eligible_is_copyable good_inputs ScoringConfig.default) as (Hh & Hm & _);
    [simpl; lia|vm_compute; reflexivity|].
  split; [by apply Hh|exact Hm].
Defined.
