(* ===== verification/Signals.v ===== *)
(** * Signal evaluation
      (src/src/signals.rs, models.rs, config.rs, workers.rs, sf/signal_gate.rs)

    The entry and exit gates, the rows an evaluation writes, and the durable
    claim that fences it.  The database is the three tables an evaluation
    touches; a transaction that fails leaves them as they were.  [clock] is
    the database clock, [now] the evaluation's own timestamp.

    Parameters: the decimal type and its conversions ([from_u64], [from_ratio]
    for [decimal_from_ratio], [min_history] for the literal 0.80), and the rows
    the database may refuse for reasons other than the unique index
    ([accepts_signal], [accepts_evaluation]).  The JSON evidence is kept as the
    record of the facts it lists.  A serial id is the number of rows before. *)
From S2P Require Import Prelude Text Domain Floats CostBasis Decimals Models.
From Stdlib Require Import QArith.QArith QArith.Qreduction QArith.Qcanon Lqa.
From stdpp Require Import options.
Local Open Scope string_scope.
Local Open Scope Z_scope.
Local Open Scope list_scope.

(** ** models.rs, config.rs *)

Module SignalsConfig.
Record SignalsConfig := mk {
  entry_max_token_age_hours : Z;
  entry_min_liquidity_usd : Z;
  market_max_age_seconds : Z;
  exit_liquidity_drop_ratio : f64;
}.
Definition default : SignalsConfig := mk 24 20000 300 (f64_lit 30 100).
End SignalsConfig.
Abbreviation SignalsConfig := SignalsConfig.SignalsConfig.

(** ** The gate inputs *)

Record TokenGate := MkToken {
  lifecycle : LifecycleState;
  age_hours : option Z;
  risk_flags : list string;
}.

Record ClusterSummary := MkClusters {
  eligible_clusters : Z;
  meaningful_buys : Z;
}.

Section gates.
Context {D : Type} `{Decimal D}.
Context (from_u64 : Z → D) (from_ratio : f64 → D) (min_history : D).

Record MarketGate := MkMarket {
  liquidity_usd : option D;
  observed_at : option instant;
}.

Record WalletEligibility := MkWallets {
  eligible_wallets : Z;
  max_skill : Z;
  max_copyability : Z;
  min_history_completeness : D;
}.

Record ExitGates := MkExit {
  clusters_selling : Z;
  material_fresh_transfer : bool;
  dev_distribution : bool;
  liquidity_drop_ratio : option D;
  tracked_selling : bool;
}.

(** The JSON evidence of an evaluation. *)
Inductive evidence :=
  | EntryEvidence (clusters meaningful_buys : Z) (lifecycle : string) (age_hours : option Z)
      (liquidity_usd : option D) (market_age_seconds : option Z) (risk_flags : list string)
      (max_skill max_copyability : Z) (min_history_completeness : D)
      (narrative_confidence : option Z)
  | ExitEvidence (gates : ExitGates).

Record Evaluation := MkEvaluation {
  ev_workspace : Z;
  ev_chain : string;
  ev_mint : string;
  ev_kind : string;
  evaluated_at : instant;
  status : string;
  rejection_code : option string;
  ev_evidence : evidence;
}.

Record Signal := MkSignal {
  sig_id : nat;
  sig_workspace : Z;
  sig_chain : string;
  sig_mint : string;
  sig_kind : string;
  created_at : instant;
  score : Z;
  sig_status : string;
  sig_evidence : evidence;
}.

(** The key of a claim: workspace, chain, mint; its holder and its expiry. *)
Abbreviation claim_key := (Z * string * string)%type.
Abbreviation eval_claims := (gmap (Z * string * string) (string * Z)).

Record eval_db := MkDb {
  claims : eval_claims;
  evaluations : list Evaluation;
  signals : list Signal;
}.

Context (accepts_signal : Signal → bool) (accepts_evaluation : Evaluation → bool).

Definition record_evaluation (db : eval_db) (e : Evaluation) : eval_db * result () :=
  if accepts_evaluation e
  then (MkDb (claims db) (evaluations db ++ [e]) (signals db), ROk ())
  else (db, RErr "insert into signal_evaluations failed").

(** [UNIQUE (workspace_id, chain, mint, signal_kind, created_at)] *)
Definition same_signal_key (a b : Signal) : bool :=
  bool_decide (sig_workspace a = sig_workspace b) && bool_decide (sig_chain a = sig_chain b)
  && bool_decide (sig_mint a = sig_mint b) && bool_decide (sig_kind a = sig_kind b)
  && bool_decide (created_at a = created_at b).

Definition insert_signal (db : eval_db) (workspace_id : Z) (chain mint kind : string)
    (now : instant) (score : Z) (ev : evidence) : eval_db * result nat :=
  let s := MkSignal (length (signals db)) workspace_id chain mint kind now score "active" ev in
  if existsb (same_signal_key s) (signals db) || negb (accepts_signal s)
  then (db, RErr "insert into signals failed")
  else (MkDb (claims db) (evaluations db) (signals db ++ [s]), ROk (sig_id s)).

(** ** The entry gates *)

Definition compute_entry_score (clusters : ClusterSummary) (wallets : WalletEligibility)
    (narrative_confidence : option Z) : Z :=
  let cluster_component := Z.min (eligible_clusters clusters) 5 * 8 in
  let wallet_component :=
    (Z.min (max_skill wallets) 100 + Z.min (max_copyability wallets) 100) / 4 in
  let narrative_component := Z.min (default 0 narrative_confidence) 100 / 5 in
  Z.min (cluster_component + wallet_component + narrative_component) 100.

Section evaluation.
Context (workspace_id : Z) (chain : ChainKind) (mint : string) (now : instant)
  (config : SignalsConfig).
Local Abbreviation chain_str := (ChainKind.as_str chain).

Definition evaluation_row (kind status : string) (code : option string) (ev : evidence)
    : Evaluation :=
  MkEvaluation workspace_id chain_str mint kind now status code ev.

Definition reject (db : eval_db) (kind code : string) (ev : evidence)
    : eval_db * result (option nat) :=
  match record_evaluation db (evaluation_row kind "rejected" (Some code) ev) with
  | (db, ROk _) => (db, ROk None)
  | (db, RErr e) => (db, RErr e)
  end.

Definition accept (db : eval_db) (kind : string) (score : Z) (ev : evidence)
    : eval_db * result (option nat) :=
  match insert_signal db workspace_id chain_str mint kind now score ev with
  | (db, RErr e) => (db, RErr e)
  | (db, ROk id) =>
      match record_evaluation db (evaluation_row kind "accepted" None ev) with
      | (db, RErr e) => (db, RErr e)
      | (db, ROk _) => (db, ROk (Some id))
      end
  end.

Definition entry_evidence (token : TokenGate) (market : MarketGate) (clusters : ClusterSummary)
    (wallets : WalletEligibility) (narrative_confidence : option Z) : evidence :=
  EntryEvidence (eligible_clusters clusters) (meaningful_buys clusters)
    (LifecycleState.as_str (lifecycle token)) (age_hours token) (liquidity_usd market)
    ((λ t, num_seconds (now - t)) <$> observed_at market) (risk_flags token)
    (max_skill wallets) (max_copyability wallets) (min_history_completeness wallets)
    narrative_confidence.

Definition is_critical_flag (f : string) : bool :=
  bool_decide (f = "critical_risk") || bool_decide (f = "wash_trading")
  || bool_decide (f = "honeypot") || bool_decide (f = "rugged").

Definition evaluate_token_on (db : eval_db) (token : TokenGate) (market : MarketGate)
    (clusters : ClusterSummary) (wallets : WalletEligibility)
    (narrative_confidence : option Z) : eval_db * result (option nat) :=
  let ev := entry_evidence token market clusters wallets narrative_confidence in
  let reject code := reject db "entry" code ev in
  if eligible_clusters clusters <? 2 then reject "insufficient_clusters" else
  if meaningful_buys clusters <? 2 then reject "insufficient_buys" else
  if negb (LifecycleState.entry_supported (lifecycle token))
     || bool_decide (lifecycle token = LifecycleState.Unsupported)
  then reject "unsupported_lifecycle" else
  if match age_hours token with
     | Some age => SignalsConfig.entry_max_token_age_hours config <? age
     | None => true
     end
  then reject "token_too_old" else
  let liquidity_ok :=
    match liquidity_usd market with
    | Some l => d_leb (from_u64 (SignalsConfig.entry_min_liquidity_usd config)) l
    | None => false
    end in
  if negb liquidity_ok then reject "insufficient_liquidity" else
  let critical := existsb is_critical_flag (risk_flags token) in
  if critical then
    reject (if existsb (λ f, bool_decide (f = "wash_trading")) (risk_flags token)
            then "wash_risk" else "critical_risk")
  else
  let market_fresh :=
    match observed_at market with
    | Some t => num_seconds (now - t) <=? wrap_i64 (SignalsConfig.market_max_age_seconds config)
    | None => false
    end in
  if negb market_fresh then reject "stale_market" else
  if max_skill wallets <? 70 then reject "ineligible_skill" else
  if max_copyability wallets <? 60 then reject "ineligible_copyability" else
  if negb (d_leb min_history (min_history_completeness wallets))
  then reject "incomplete_history" else
  accept db "entry" (compute_entry_score clusters wallets narrative_confidence) ev.

(** ** The exit gates *)

Definition evaluate_exit_on (db : eval_db) (gates : ExitGates) : eval_db * result (option nat) :=
  let ev := ExitEvidence gates in
  let liquidity_drop_ok :=
    match liquidity_drop_ratio gates with
    | Some r => d_leb (from_ratio (SignalsConfig.exit_liquidity_drop_ratio config)) r
    | None => false
    end in
  let triggered :=
    (2 <=? clusters_selling gates) || material_fresh_transfer gates || dev_distribution gates
    || (liquidity_drop_ok && tracked_selling gates) in
  if negb triggered then
    let code :=
      if clusters_selling gates =? 1 then "no_cluster_sells"
      else if negb (material_fresh_transfer gates) then "no_fresh_transfer"
      else "insufficient_liquidity_drop" in
    reject db "exit" code ev
  else
    let score :=
      if 2 <=? clusters_selling gates then 80
      else if dev_distribution gates then 75
      else if material_fresh_transfer gates then 70 else 65 in
    accept db "exit" score ev.

(** ** The claim *)

Definition the_key : claim_key := (workspace_id, chain_str, mint).

(** [interval '10 minutes'] *)
Definition claim_lease : Z := 600 * 10 ^ 9.

(** The INSERT .. ON CONFLICT of [evaluate_due_signals]. *)
Definition acquire_claim (db : eval_db) (clock : instant) (claimant : string) : eval_db * bool :=
  let take := MkDb (<[the_key := (claimant, clock + claim_lease)]> (claims db))
                (evaluations db) (signals db) in
  match claims db !! the_key with
  | None => (take, true)
  | Some (_, expires_at) => if expires_at <=? clock then (take, true) else (db, false)
  end.

(** The DELETE fenced by the claim token. *)
Definition release_eval_claim (db : eval_db) (claim_token : string) : eval_db :=
  match claims db !! the_key with
  | Some (holder, _) =>
      if bool_decide (holder = claim_token)
      then MkDb (delete the_key (claims db)) (evaluations db) (signals db) else db
  | None => db
  end.

(** [SELECT .. claimed_by = $4 AND expires_at > now() FOR UPDATE] *)
Definition claim_held (db : eval_db) (clock : instant) (claim_token : string) : bool :=
  match claims db !! the_key with
  | Some (holder, expires_at) => bool_decide (holder = claim_token) && (clock <? expires_at)
  | None => false
  end.

(** [begin], the fence, the evaluation, the release, [commit]; an error rolls
    back. *)
Definition fenced (db : eval_db) (clock : instant) (claim_token : string)
    (evaluate : eval_db → eval_db * result (option nat)) : eval_db * result (option nat) :=
  if negb (claim_held db clock claim_token)
  then (db, RErr "evaluation claim not held (stale or reclaimed)") else
  match evaluate db with
  | (_, RErr e) => (db, RErr e)
  | (db', ROk out) => (release_eval_claim db' claim_token, ROk out)
  end.

Definition evaluate_token_fenced (db : eval_db) (clock : instant) (token : TokenGate)
    (market : MarketGate) (clusters : ClusterSummary) (wallets : WalletEligibility)
    (narrative_confidence : option Z) (claim_token : string) : eval_db * result (option nat) :=
  fenced db clock claim_token
    (λ db, evaluate_token_on db token market clusters wallets narrative_confidence).

Definition evaluate_exit_fenced (db : eval_db) (clock : instant) (gates : ExitGates)
    (claim_token : string) : eval_db * result (option nat) :=
  fenced db clock claim_token (λ db, evaluate_exit_on db gates).
End evaluation.
End gates.

(** ** sf/signal_gate.rs *)

Module SignalGate.
Inductive RejectionCode :=
  | InsufficientClusters | InsufficientBuys | UnsupportedLifecycle | TokenTooOld
  | InsufficientLiquidity | CriticalRisk | WashRisk | StaleMarket | IneligibleSkill
  | IneligibleCopyability | IncompleteHistory.

Record GateThresholds := MkThresholds {
  min_eligible_clusters : Z;
  min_meaningful_buys : Z;
  max_token_age_hours : Z;
  min_liquidity_usd : Z;
  max_market_age_seconds : Z;
  min_skill : Z;
  min_copyability : Z;
  t_min_history_completeness : f64;
}.

Definition default : GateThresholds := MkThresholds 2 2 24 20000 300 70 60 (f64_lit 80 100).

Inductive RiskFlag := CriticalRiskFlag | WashTrading | Honeypot | Rugged.
#[global] Instance RiskFlag_eq_dec : EqDecision RiskFlag.
Proof. solve_decision. Defined.

Record EntryGateInput := MkInput {
  eligible_clusters : Z;
  meaningful_buys : Z;
  lifecycle_supported : bool;
  token_age_hours : option Z;
  liquidity_usd : option Z;
  risk_flags : list RiskFlag;
  market_age_seconds : option Z;
  max_skill : Z;
  max_copyability : Z;
  min_history_completeness : f64;
}.

Inductive GateOutcome := Accepted | Rejected (code : RejectionCode).

Definition evaluate_entry_gate (input : EntryGateInput) (t : GateThresholds) : GateOutcome :=
  if eligible_clusters input <? min_eligible_clusters t then Rejected InsufficientClusters else
  if meaningful_buys input <? min_meaningful_buys t then Rejected InsufficientBuys else
  if negb (lifecycle_supported input) then Rejected UnsupportedLifecycle else
  if negb (match token_age_hours input with
           | Some age => age <=? max_token_age_hours t | None => false end)
  then Rejected TokenTooOld else
  if negb (match liquidity_usd input with
           | Some l => min_liquidity_usd t <=? l | None => false end)
  then Rejected InsufficientLiquidity else
  if contains WashTrading (risk_flags input) then Rejected WashRisk else
  if existsb (λ f, match f with CriticalRiskFlag | Honeypot | Rugged => true | WashTrading => false end)
       (risk_flags input)
  then Rejected CriticalRisk else
  if negb (match market_age_seconds input with
           | Some a => a <=? max_market_age_seconds t | None => false end)
  then Rejected StaleMarket else
  if max_skill input <? min_skill t then Rejected IneligibleSkill else
  if max_copyability input <? min_copyability t then Rejected IneligibleCopyability else
  if f64_ltb (min_history_completeness input) (t_min_history_completeness t)
  then Rejected IncompleteHistory else
  Accepted.
End SignalGate.

(** ** What an evaluation writes *)

Section written.
Set Default Proof Using "Type".
Context {D : Type} `{Decimal D}.
Context (from_u64 : Z → D) (from_ratio : f64 → D) (min_history : D).
Context (accepts_signal : Signal (D := D) → bool) (accepts_evaluation : Evaluation (D := D) → bool).

(** The gates of an entry in their order, each with the code of its failure. *)
Definition entry_checks (config : SignalsConfig) (now : instant) (token : TokenGate)
    (market : MarketGate (D := D)) (clusters : ClusterSummary) (wallets : WalletEligibility (D := D))
    : list (bool * string) :=
  [(2 <=? eligible_clusters clusters, "insufficient_clusters");
   (2 <=? meaningful_buys clusters, "insufficient_buys");
   (bool_decide (lifecycle token ≠ LifecycleState.Unsupported), "unsupported_lifecycle");
   (match age_hours token with
    | Some age => age <=? SignalsConfig.entry_max_token_age_hours config | None => false end,
    "token_too_old");
   (match liquidity_usd market with
    | Some l => d_leb (from_u64 (SignalsConfig.entry_min_liquidity_usd config)) l | None => false end,
    "insufficient_liquidity");
   (bool_decide ("wash_trading" ∉ risk_flags token), "wash_risk");
   (bool_decide (Forall (λ f, f ∉ ["critical_risk"; "honeypot"; "rugged"]) (risk_flags token)),
    "critical_risk");
   (match observed_at market with
    | Some t => num_seconds (now - t) <=? wrap_i64 (SignalsConfig.market_max_age_seconds config)
    | None => false end, "stale_market");
   (70 <=? max_skill wallets, "ineligible_skill");
   (60 <=? max_copyability wallets, "ineligible_copyability");
   (d_leb min_history (min_history_completeness wallets), "incomplete_history")].

(** The code of the first failing gate. *)
Definition first_failure (checks : list (bool * string)) : option string :=
  snd <$> find_first (λ c, negb c.1) checks.

Lemma ltb_negb_leb a b : (a <? b) = negb (b <=? a).
Proof. apply Z.ltb_antisym. Qed.

Lemma critical_split flags :
  existsb is_critical_flag flags =
  negb (bool_decide ("wash_trading" ∉ flags))
  || negb (bool_decide (Forall (λ f, f ∉ ["critical_risk"; "honeypot"; "rugged"]) flags)).
Proof.
  apply eq_true_iff_eq. rewrite orb_true_iff, !negb_true_iff, !bool_decide_eq_false,
    existsb_exists_elem.
  assert (¬ Forall (λ f, f ∉ ["critical_risk"; "honeypot"; "rugged"]) flags ↔
    ∃ f, f ∈ flags ∧ f ∈ ["critical_risk"; "honeypot"; "rugged"]) as ->.
  { split.
    - intros Hn%not_Forall_Exists; [|apply _]. apply Exists_exists in Hn as (f & Hf & Hc).
      exists f. split; [done|]. by apply dec_stable.
    - intros (f & Hf & Hc) Hn. rewrite Forall_forall in Hn. by apply (Hn f Hf). }
  unfold is_critical_flag. setoid_rewrite orb_true_iff. setoid_rewrite orb_true_iff.
  setoid_rewrite orb_true_iff. setoid_rewrite bool_decide_eq_true. split.
  - intros (f & Hf & [[[-> | ->] | ->] | ->]); [right|left; by intros Hn|right|right];
      (eexists; split; [exact Hf|]); set_solver.
  - intros [Hw|(f & Hf & Hn)].
    + exists "wash_trading". split; [by apply dec_stable|naive_solver].
    + exists f. split; [done|]. set_solver.
Qed.

Lemma wash_flag flags :
  existsb (λ f, bool_decide (f = "wash_trading")) flags = negb (bool_decide ("wash_trading" ∉ flags)).
Proof.
  apply eq_true_iff_eq. rewrite negb_true_iff, bool_decide_eq_false, existsb_exists_elem.
  setoid_rewrite bool_decide_eq_true. split; [by intros (f & ? & ->); intros ?|].
  intros Hw%dec_stable. eauto.
Qed.

(** The entry evaluation rejects with the first failing gate's code. *)
Lemma evaluate_token_on_spec ws chain mint now config db token market clusters wallets nc :
  evaluate_token_on from_u64 min_history accepts_signal accepts_evaluation ws chain mint now config
    db token market clusters wallets nc =
  let ev := entry_evidence now token market clusters wallets nc in
  match first_failure (entry_checks config now token market clusters wallets) with
  | Some code => reject accepts_evaluation ws chain mint now db "entry" code ev
  | None => accept accepts_signal accepts_evaluation ws chain mint now db "entry"
              (compute_entry_score clusters wallets nc) ev
  end.
Proof.
  unfold evaluate_token_on, first_failure, entry_checks. rewrite critical_split, wash_flag.
  cbn [find_first fst]. rewrite !ltb_negb_leb.
  destruct (2 <=? eligible_clusters clusters); [|done].
  destruct (2 <=? meaningful_buys clusters); [|done]. cbn [negb].
  assert (negb (LifecycleState.entry_supported (lifecycle token))
    || bool_decide (lifecycle token = LifecycleState.Unsupported) =
    negb (bool_decide (lifecycle token ≠ LifecycleState.Unsupported))) as ->
    by by destruct (lifecycle token).
  destruct (bool_decide (lifecycle token ≠ _)); [|done]. cbn [negb].
  destruct (age_hours token) as [age|]; [|done]. rewrite ltb_negb_leb.
  destruct (age <=? _); [|done]. cbn [negb].
  destruct (match liquidity_usd market with Some _ => _ | None => _ end); [|done]. cbn [negb].
  destruct (bool_decide ("wash_trading" ∉ _)); [|done]. cbn [negb orb].
  destruct (bool_decide (Forall _ _)); [|done]. cbn [negb].
  destruct (match observed_at market with Some _ => _ | None => _ end); [|done]. cbn [negb].
  destruct (70 <=? max_skill wallets); [|done].
  destruct (60 <=? max_copyability wallets); [|done]. cbn [negb].
  by destruct (d_leb _ _).
Qed.

(** The rows a successful evaluation adds: a rejected evaluation, or an accepted
    one with its signal. *)
Definition written (ws : Z) (chain : ChainKind) (mint : string) (now : instant) (kind : string)
    (code : option string) (score : Z) (db db' : eval_db (D := D)) (out : option nat) : Prop :=
  ∃ ev,
  claims db' = claims db ∧
  match code with
  | Some c =>
      evaluations db' = evaluations db ++ [evaluation_row ws chain mint now kind "rejected" (Some c) ev] ∧
      signals db' = signals db ∧ out = None
  | None =>
      evaluations db' = evaluations db ++ [evaluation_row ws chain mint now kind "accepted" None ev] ∧
      signals db' = signals db ++
        [MkSignal (length (signals db)) ws (ChainKind.as_str chain) mint kind now score "active" ev] ∧
      out = Some (length (signals db))
  end.

Lemma reject_written ws chain mint now db kind c ev db' out score :
  reject accepts_evaluation ws chain mint now db kind c ev = (db', ROk out) →
  written ws chain mint now kind (Some c) score db db' out.
Proof.
  unfold reject, record_evaluation. destruct (accepts_evaluation _); [|done].
  intros [= <- <-]. by exists ev.
Qed.

Lemma accept_written ws chain mint now db kind score ev db' out :
  accept accepts_signal accepts_evaluation ws chain mint now db kind score ev = (db', ROk out) →
  written ws chain mint now kind None score db db' out.
Proof.
  unfold accept, insert_signal, record_evaluation.
  destruct (_ || negb (accepts_signal _)); [done|].
  destruct (accepts_evaluation _); [|done]. intros [= <- <-]. by exists ev.
Qed.

(** The verdict of an exit. *)
Definition exit_verdict (config : SignalsConfig) (g : ExitGates (D := D)) : option string * Z :=
  let drop := match liquidity_drop_ratio g with
              | Some r => d_leb (from_ratio (SignalsConfig.exit_liquidity_drop_ratio config)) r
              | None => false end in
  if (2 <=? clusters_selling g) || material_fresh_transfer g || dev_distribution g
     || (drop && tracked_selling g)
  then (None, if 2 <=? clusters_selling g then 80 else if dev_distribution g then 75
              else if material_fresh_transfer g then 70 else 65)
  else (Some (if clusters_selling g =? 1 then "no_cluster_sells" else "no_fresh_transfer"), 0).

Lemma evaluate_exit_written ws chain mint now config db g db' out :
  evaluate_exit_on from_ratio accepts_signal accepts_evaluation ws chain mint now config db g
    = (db', ROk out) →
  written ws chain mint now "exit" (exit_verdict config g).1 (exit_verdict config g).2 db db' out.
Proof.
  unfold evaluate_exit_on, exit_verdict.
  destruct (material_fresh_transfer g); rewrite ?orb_true_r, ?orb_false_r;
    cbn [negb orb]; [apply accept_written|].
  destruct (_ || _ || _) eqn:E; cbn [negb].
  - apply accept_written.
  - destruct (clusters_selling g =? 1); apply reject_written.
Qed.

(** The claim's transaction. *)
Lemma fenced_inv ws chain mint (db : eval_db (D := D)) clock tok evaluate db' out :
  fenced ws chain mint db clock tok evaluate = (db', ROk out) →
  claim_held ws chain mint db clock tok = true ∧
  ∃ db1, evaluate db = (db1, ROk out) ∧ db' = release_eval_claim ws chain mint db1 tok.
Proof.
  unfold fenced. destruct (claim_held _ _ _ _ _ _); [|done]. cbn [negb].
  destruct (evaluate db) as [db1 [o|e]]; [|done]. intros [= <- <-]. eauto.
Qed.

Lemma fenced_error ws chain mint (db : eval_db (D := D)) clock tok evaluate db' e :
  fenced ws chain mint db clock tok evaluate = (db', RErr e) → db' = db.
Proof.
  unfold fenced. destruct (negb _); [by intros [= <- _]|].
  destruct (evaluate db) as [db1 [o|e']]; [done|]. by intros [= <- _].
Qed.

Lemma claim_held_holder ws chain mint (db : eval_db (D := D)) clock tok :
  claim_held ws chain mint db clock tok = true ↔
  ∃ exp, claims db !! the_key ws chain mint = Some (tok, exp) ∧ clock < exp.
Proof.
  clear from_u64 from_ratio min_history accepts_signal accepts_evaluation.
  unfold claim_held. destruct (claims db !! _) as [[holder exp]|].
  - rewrite andb_true_iff, bool_decide_eq_true, Z.ltb_lt. split; [intros [-> ?]; eauto|].
    by intros (exp' & [= -> ->] & ?).
  - split; [done|]. by intros (exp' & ? & _).
Qed.

(** The releasing transaction after the evaluation's own rows. *)
Lemma release_holder ws chain mint (db : eval_db (D := D)) tok exp :
  claims db !! the_key ws chain mint = Some (tok, exp) →
  release_eval_claim ws chain mint db tok =
    MkDb (delete (the_key ws chain mint) (claims db)) (evaluations db) (signals db).
Proof. unfold release_eval_claim. intros ->. by rewrite bool_decide_eq_true_2. Qed.

(** The transaction of a fenced evaluation, given what the evaluation writes. *)
Definition fenced_outcome (ws : Z) (chain : ChainKind) (mint : string) (now clock : instant)
    (tok kind : string) (code : option string) (score : Z) (db : eval_db (D := D))
    (r : eval_db (D := D) * result (option nat)) : Prop :=
  match r.2 with
  | RErr _ => r.1 = db
  | ROk out =>
      claim_held ws chain mint db clock tok = true ∧
      ∃ db1, written ws chain mint now kind code score db db1 out ∧
        r.1 = MkDb (delete (the_key ws chain mint) (claims db)) (evaluations db1) (signals db1)
  end.

Lemma fenced_outcome_intro ws chain mint now clock tok kind code score (db : eval_db (D := D)) evaluate :
  (∀ db1 out, evaluate db = (db1, ROk out) → written ws chain mint now kind code score db db1 out) →
  fenced_outcome ws chain mint now clock tok kind code score db
    (fenced ws chain mint db clock tok evaluate).
Proof.
  clear from_u64 from_ratio min_history accepts_signal accepts_evaluation.
  intros Hw. unfold fenced_outcome.
  destruct (fenced ws chain mint db clock tok evaluate) as [db' [out|e]] eqn:E; simpl.
  - apply fenced_inv in E as (Hh & db1 & E & ->). split; [done|].
    pose proof (Hw _ _ E) as W. exists db1. split; [done|].
    apply claim_held_holder in Hh as (exp & Hk & _). destruct W as (ev & Hc & _).
    rewrite (release_holder _ _ _ _ _ exp) by by rewrite Hc. by rewrite Hc.
  - by apply fenced_error in E.
Qed.

Lemma fenced_evaluation_intro ws chain mint now config db clock tok :
  (∀ token market clusters wallets nc,
     fenced_outcome ws chain mint now clock tok "entry"
       (first_failure (entry_checks config now token market clusters wallets))
       (compute_entry_score clusters wallets nc) db
       (evaluate_token_fenced from_u64 min_history accepts_signal accepts_evaluation
          ws chain mint now config db clock token market clusters wallets nc tok)) ∧
  (∀ gates,
     fenced_outcome ws chain mint now clock tok "exit"
       (exit_verdict config gates).1 (exit_verdict config gates).2 db
       (evaluate_exit_fenced from_ratio accepts_signal accepts_evaluation
          ws chain mint now config db clock gates tok)).
Proof.
  split.
  - intros. apply fenced_outcome_intro. intros db1 out. rewrite evaluate_token_on_spec. simpl.
    destruct (first_failure _) as [c|]; [apply reject_written|apply accept_written].
  - intros. apply fenced_outcome_intro. intros db1 out. apply evaluate_exit_written.
Qed.

(** Claim C7: A signal evaluation is fenced and atomic.  An entry or exit evaluation that
    fails leaves the tables as they were.  One that succeeds held an unexpired
    claim with its own token, gives the claim up, and adds exactly one
    evaluation row: rejected with the code of the first failing gate, or
    accepted together with exactly one signal, whose id is the answer.  Without
    the claim nothing is evaluated; and while another's claim is live nobody can
    take it, evaluate under it or release it. *)
Theorem fenced_evaluation_atomic ws chain mint now config db clock tok :
  (∀ token market clusters wallets nc,
     fenced_outcome ws chain mint now clock tok "entry"
       (first_failure (entry_checks config now token market clusters wallets))
       (compute_entry_score clusters wallets nc) db
       (evaluate_token_fenced from_u64 min_history accepts_signal accepts_evaluation
          ws chain mint now config db clock token market clusters wallets nc tok)) ∧
  (∀ gates,
     fenced_outcome ws chain mint now clock tok "exit"
       (exit_verdict config gates).1 (exit_verdict config gates).2 db
       (evaluate_exit_fenced from_ratio accepts_signal accepts_evaluation
          ws chain mint now config db clock gates tok)) ∧
  (∀ holder (exp : Z), claims db !! the_key ws chain mint = Some (holder, exp) → clock < exp →
     (∀ claimant, acquire_claim ws chain mint db clock claimant = (db, false)) ∧
     (tok ≠ holder → claim_held ws chain mint db clock tok = false ∧
        release_eval_claim ws chain mint db tok = db)).
Proof.
  split_and!; [apply fenced_evaluation_intro..|].
  - intros holder exp Hk Hlt. split; [|intros Hne; split].
    + intros claimant. unfold acquire_claim. rewrite Hk.
      destruct (Z.leb_spec exp clock); [lia|done].
    + unfold claim_held. rewrite Hk. by rewrite bool_decide_eq_false_2 by congruence.
    + unfold release_eval_claim. rewrite Hk. by rewrite bool_decide_eq_false_2 by congruence.
Qed.

(** ** Interleavings *)

(** One transaction of some worker. *)
Inductive eval_op :=
  | Acquire (ws : Z) (chain : ChainKind) (mint : string) (clock : instant) (claimant : string)
  | EvaluateEntry (ws : Z) (chain : ChainKind) (mint : string) (now : instant)
      (config : SignalsConfig) (clock : instant) (token : TokenGate) (market : MarketGate (D := D))
      (clusters : ClusterSummary) (wallets : WalletEligibility (D := D)) (nc : option Z)
      (tok : string)
  | EvaluateExit (ws : Z) (chain : ChainKind) (mint : string) (now : instant)
      (config : SignalsConfig) (clock : instant) (gates : ExitGates (D := D)) (tok : string)
  | Release (ws : Z) (chain : ChainKind) (mint : string) (tok : string).

(** The new tables, and the key of the claim the step took. *)
Definition run_eval (db : eval_db (D := D)) (o : eval_op)
    : eval_db (D := D) * option (Z * string * string) :=
  match o with
  | Acquire ws chain mint clock claimant =>
      let (db, taken) := acquire_claim ws chain mint db clock claimant in
      (db, if taken then Some (the_key ws chain mint) else None)
  | EvaluateEntry ws chain mint now config clock token market clusters wallets nc tok =>
      ((evaluate_token_fenced from_u64 min_history accepts_signal accepts_evaluation
          ws chain mint now config db clock token market clusters wallets nc tok).1, None)
  | EvaluateExit ws chain mint now config clock gates tok =>
      ((evaluate_exit_fenced from_ratio accepts_signal accepts_evaluation
          ws chain mint now config db clock gates tok).1, None)
  | Release ws chain mint tok => (release_eval_claim ws chain mint db tok, None)
  end.

(** The transactions of all workers in the order they committed; [n] counts the
    claims taken on [key]. *)
Inductive eval_run (key : Z * string * string) : eval_db (D := D) → eval_db (D := D) → nat → Prop :=
  | eval_run_nil db : eval_run key db db 0
  | eval_run_snoc db db1 db2 n o taken :
      eval_run key db db1 n → run_eval db1 o = (db2, taken) →
      eval_run key db db2 (n + if decide (taken = Some key) then 1 else 0).

Definition evaluation_key (e : Evaluation (D := D)) : Z * string * string :=
  (ev_workspace e, ev_chain e, ev_mint e).
Definition signal_key (s : Signal (D := D)) : Z * string * string :=
  (sig_workspace s, sig_chain s, sig_mint s).

Definition evaluations_on (key : Z * string * string) (db : eval_db (D := D)) : nat :=
  length (List.filter (λ e, bool_decide (evaluation_key e = key)) (evaluations db)).
Definition accepted_on (key : Z * string * string) (db : eval_db (D := D)) : nat :=
  length (List.filter (λ e, bool_decide (evaluation_key e = key) && bool_decide (status e = "accepted"))
    (evaluations db)).
Definition signals_on (key : Z * string * string) (db : eval_db (D := D)) : nat :=
  length (List.filter (λ s, bool_decide (signal_key s = key)) (signals db)).
Definition live_claim (key : Z * string * string) (db : eval_db (D := D)) : nat :=
  match claims db !! key with Some _ => 1 | None => 0 end.

(** The invariant with [n] claims taken so far. *)
Definition paced (key : Z * string * string) (n : nat) (db : eval_db (D := D)) : Prop :=
  (evaluations_on key db + live_claim key db <= n)%nat ∧ signals_on key db = accepted_on key db.

Lemma paced_outcome ws chain mint now clock tok kind code score key n db r :
  fenced_outcome ws chain mint now clock tok kind code score db r →
  paced key n db → paced key n r.1.
Proof.
  clear from_u64 from_ratio min_history accepts_signal accepts_evaluation.
  unfold fenced_outcome. destruct r as [db' [out|e]]; simpl; [|by intros ->].
  intros (Hh & db1 & (ev & _ & W) & ->) [Hn Hs].
  apply claim_held_holder in Hh as (exp & Hk & _).
  unfold paced, evaluations_on, live_claim, signals_on, accepted_on in *. simpl.
  destruct code as [c|]; destruct W as (-> & -> & _); rewrite !List.filter_app, !length_app; simpl;
    unfold evaluation_key, signal_key in *; simpl in *; fold (the_key ws chain mint);
    (case_bool_decide as Ek; [subst key; rewrite lookup_delete_eq; rewrite Hk in Hn
                             |rewrite lookup_delete_ne by done]); simpl; split; lia.
Qed.

Lemma paced_release ws chain mint tok key n (db : eval_db (D := D)) :
  paced key n db → paced key n (release_eval_claim ws chain mint db tok).
Proof.
  clear from_u64 from_ratio min_history accepts_signal accepts_evaluation.
  unfold release_eval_claim. destruct (claims db !! _) as [[holder exp]|] eqn:Hk; [|done].
  case_bool_decide; [|done]. unfold paced, live_claim, evaluations_on, signals_on, accepted_on. simpl.
  destruct (decide (key = the_key ws chain mint)) as [->|Hne].
  - rewrite lookup_delete_eq. rewrite Hk. lia.
  - by rewrite lookup_delete_ne.
Qed.

Lemma paced_acquire ws chain mint clock claimant key n (db : eval_db (D := D)) :
  paced key n db →
  paced key (n + if (acquire_claim ws chain mint db clock claimant).2
                 then if decide (the_key ws chain mint = key) then 1 else 0 else 0)
    (acquire_claim ws chain mint db clock claimant).1.
Proof.
  clear from_u64 from_ratio min_history accepts_signal accepts_evaluation.
  intros [Hn Hs]. unfold acquire_claim.
  assert (paced key (n + if decide (the_key ws chain mint = key) then 1 else 0)
    (MkDb (<[the_key ws chain mint := (claimant, clock + claim_lease)]> (claims db))
       (evaluations db) (signals db))) as Htake.
  { split; [|done]. unfold live_claim, evaluations_on in *. simpl.
    case_decide as E; [rewrite E, lookup_insert_eq|rewrite lookup_insert_ne by done]; lia. }
  destruct (claims db !! the_key ws chain mint) as [[holder exp]|]; [|done].
  destruct (exp <=? clock); [done|]. simpl. rewrite Nat.add_0_r. by split.
Qed.

(** Claim C6: A claim buys at most one evaluation.  However the workers' transactions
    interleave and whatever leases expire, from empty tables the evaluations of a
    token, plus one while it is claimed, never outnumber the claims taken on it;
    and every accepted evaluation has its signal and every signal its accepted
    evaluation. *)
Theorem evaluations_paced_by_claims key db n :
  eval_run key (MkDb ∅ [] []) db n →
  (evaluations_on key db + live_claim key db <= n)%nat ∧
  signals_on key db = accepted_on key db.
Proof.
  intros Hr. change (paced key n db). remember (MkDb ∅ [] []) as db0 eqn:E0.
  induction Hr as [db|db db1 db2 n o taken Hr IH Ho].
  { subst db. split; [|done]. unfold live_claim. simpl. by rewrite lookup_empty. }
  specialize (IH E0).
  destruct o as [ws chain mint clock claimant|ws chain mint now config clock token market clusters
    wallets nc tok|ws chain mint now config clock gates tok|ws chain mint tok]; simpl in Ho.
  - pose proof (paced_acquire ws chain mint clock claimant _ _ _ IH) as Ha.
    destruct (acquire_claim ws chain mint db1 clock claimant) as [db' b]. simpl in Ha.
    injection Ho as <- <-. destruct b; [|done]. repeat case_decide; try congruence; done.
  - injection Ho as <- <-. rewrite Nat.add_0_r.
    eapply paced_outcome; [|exact IH].
    apply (proj1 (fenced_evaluation_intro ws chain mint now config db1 clock tok)).
  - injection Ho as <- <-. rewrite Nat.add_0_r.
    eapply paced_outcome; [|exact IH].
    apply (proj2 (fenced_evaluation_intro ws chain mint now config db1 clock tok)).
  - injection Ho as <- <-. rewrite Nat.add_0_r. by apply paced_release.
Qed.
End written.

(** ** A concrete run *)

Definition any_signal (_ : Signal (D := Qc)) : bool := true.
Definition any_evaluation (_ : Evaluation (D := Qc)) : bool := true.
Definition qc_u64 (z : Z) : Qc := Q2Qc (inject_Z z).
Definition qc_ratio (_ : f64) : Qc := Q2Qc (3 # 10).

Definition selling : ExitGates (D := Qc) := MkExit 2 false false None true.

(** One worker claims a token and evaluates its exit. *)
Definition claimed_db : eval_db (D := Qc) := (acquire_claim 7 ChainKind.Solana "M" (MkDb ∅ [] []) 0 "w1").1.
Definition evaluated_db : eval_db (D := Qc) :=
  (evaluate_exit_fenced qc_ratio any_signal any_evaluation 7 ChainKind.Solana "M" 5
     SignalsConfig.default claimed_db 1 selling "w1").1.

Definition sample_key : Z * string * string := (7%Z, "solana", "M").

Lemma evaluations_paced_by_claims_witness :
  evaluations_on sample_key evaluated_db = 1%nat ∧
  (evaluations_on sample_key evaluated_db <= 1)%nat.
Proof.
  split; [by vm_compute|].
  assert (eval_run qc_u64 qc_ratio (qc_ratio (f64_of_Z 0)) any_signal any_evaluation sample_key
    (MkDb ∅ [] []) evaluated_db
    (0 + (if decide (Some sample_key = Some sample_key) then 1 else 0)
     + (if decide (None = Some sample_key) then 1 else 0))) as Hr.
  { eapply (eval_run_snoc _ _ _ _ _ _ _ claimed_db _ _
      (EvaluateExit 7 ChainKind.Solana "M" 5 SignalsConfig.default 1 selling "w1") None); [|done].
    eapply (eval_run_snoc _ _ _ _ _ _ _ (MkDb ∅ [] []) _ _
      (Acquire 7 ChainKind.Solana "M" 0 "w1") (Some sample_key)); [constructor|done]. }
  destruct (evaluations_paced_by_claims _ _ _ _ _ _ _ _ Hr) as [Hn _].
  rewrite decide_True, decide_False in Hn by done. lia.
Defined.

(** ** The two entry gates agree *)

Section agreement.
Set Default Proof Using "Type".
Context {D : Type} `{DecimalNumSpec D}.
Context (accepts_signal : Signal (D := D) → bool) (accepts_evaluation : Evaluation (D := D) → bool).

(** The names the codes and flags are serialised under. *)
Definition code_str (c : SignalGate.RejectionCode) : string :=
  match c with
  | SignalGate.InsufficientClusters => "insufficient_clusters"
  | SignalGate.InsufficientBuys => "insufficient_buys"
  | SignalGate.UnsupportedLifecycle => "unsupported_lifecycle"
  | SignalGate.TokenTooOld => "token_too_old"
  | SignalGate.InsufficientLiquidity => "insufficient_liquidity"
  | SignalGate.CriticalRisk => "critical_risk"
  | SignalGate.WashRisk => "wash_risk"
  | SignalGate.StaleMarket => "stale_market"
  | SignalGate.IneligibleSkill => "ineligible_skill"
  | SignalGate.IneligibleCopyability => "ineligible_copyability"
  | SignalGate.IncompleteHistory => "incomplete_history"
  end.

Definition parse_flag (s : string) : option SignalGate.RiskFlag :=
  if bool_decide (s = "critical_risk") then Some SignalGate.CriticalRiskFlag else
  if bool_decide (s = "wash_trading") then Some SignalGate.WashTrading else
  if bool_decide (s = "honeypot") then Some SignalGate.Honeypot else
  if bool_decide (s = "rugged") then Some SignalGate.Rugged else None.

(** The configuration as thresholds. *)
Definition thresholds_of (config : SignalsConfig) : SignalGate.GateThresholds :=
  SignalGate.MkThresholds 2 2 (SignalsConfig.entry_max_token_age_hours config)
    (SignalsConfig.entry_min_liquidity_usd config)
    (wrap_i64 (SignalsConfig.market_max_age_seconds config)) 70 60 (f64_lit 80 100).

(** The same facts, as each gate takes them: the pure gate has the liquidity
    in whole dollars, rounded down, and the completeness, a fraction of four
    places, as the nearest f64. *)
Record corresponds (now : instant) (token : TokenGate)
    (market : MarketGate (D := D)) (clusters : ClusterSummary) (wallets : WalletEligibility (D := D))
    (input : SignalGate.EntryGateInput) : Prop := MkCorresponds {
  c_clusters : SignalGate.eligible_clusters input = eligible_clusters clusters;
  c_buys : SignalGate.meaningful_buys input = meaningful_buys clusters;
  c_lifecycle : SignalGate.lifecycle_supported input = LifecycleState.entry_supported (lifecycle token);
  c_age : SignalGate.token_age_hours input = age_hours token;
  c_liquidity : match liquidity_usd market, SignalGate.liquidity_usd input with
                | Some l, Some z => (inject_Z z <= d_val l ∧ d_val l < inject_Z (z + 1))%Q
                | None, None => True
                | _, _ => False
                end;
  c_flags : SignalGate.risk_flags input = omap parse_flag (risk_flags token);
  c_market : SignalGate.market_age_seconds input = (λ t, num_seconds (now - t)) <$> observed_at market;
  c_skill : SignalGate.max_skill input = max_skill wallets;
  c_copy : SignalGate.max_copyability input = max_copyability wallets;
  c_history : ∃ n, 0 <= n <= 10000 ∧ units 4 n (min_history_completeness wallets)
    ∧ SignalGate.min_history_completeness input = f64_lit n 10000;
}.

Lemma parse_flag_Some s f :
  parse_flag s = Some f ↔
  s = match f with
      | SignalGate.CriticalRiskFlag => "critical_risk" | SignalGate.WashTrading => "wash_trading"
      | SignalGate.Honeypot => "honeypot" | SignalGate.Rugged => "rugged"
      end.
Proof.
  clear. unfold parse_flag. split; [|intros ->; by destruct f].
  repeat (case_bool_decide; [intros [= <-]; done|]). done.
Qed.

Lemma wash_agrees flags :
  contains SignalGate.WashTrading (omap parse_flag flags) =
  negb (bool_decide ("wash_trading" ∉ flags)).
Proof.
  clear. unfold contains. apply eq_true_iff_eq.
  rewrite bool_decide_eq_true, negb_true_iff, bool_decide_eq_false, list_elem_of_omap. split.
  - intros (s & Hs & ->%parse_flag_Some) Hn. by apply Hn.
  - intros Hw%dec_stable. exists "wash_trading". by split; [|apply parse_flag_Some].
Qed.

Lemma critical_agrees flags :
  existsb (λ f, match f with
    | SignalGate.CriticalRiskFlag | SignalGate.Honeypot | SignalGate.Rugged => true
    | SignalGate.WashTrading => false end) (omap parse_flag flags) =
  negb (bool_decide (Forall (λ f, f ∉ ["critical_risk"; "honeypot"; "rugged"]) flags)).
Proof.
  clear. apply eq_true_iff_eq. rewrite existsb_exists_elem, negb_true_iff, bool_decide_eq_false.
  split.
  - intros (f & (s & Hs & ->%parse_flag_Some)%list_elem_of_omap & Hf) Hn.
    rewrite Forall_forall in Hn. apply (Hn _ Hs). destruct f; try done; set_solver.
  - intros (s & Hs & Hf)%not_Forall_Exists%Exists_exists; [|apply _].
    apply dec_stable in Hf. rewrite !elem_of_cons in Hf. setoid_rewrite list_elem_of_omap.
    destruct Hf as [->|[->|[->|Hf%not_elem_of_nil]]]; [| | |done];
      [exists SignalGate.CriticalRiskFlag|exists SignalGate.Honeypot|exists SignalGate.Rugged];
      (split; [|done]); eexists; (split; [exact Hs|done]).
Qed.

(** Rounding a fraction of four places to an f64 does not move it across
    the bound. *)
Lemma completeness_agrees n : 0 <= n <= 10000 → f64_ltb (f64_lit n 10000) (f64_lit 80 100) = (n <? 8000).
Proof.
  clear. intros Hn.
  assert (forallb (λ k, eqb (f64_ltb (f64_lit (Z.of_nat k) 10000) (f64_lit 80 100)) (Z.of_nat k <? 8000)) (seq 0 (Z.to_nat 10001)) = true) as Hall
    by (vm_compute; reflexivity).
  rewrite forallb_forall in Hall. specialize (Hall (Z.to_nat n)). rewrite Z2Nat.id in Hall by lia.
  apply eqb_prop, Hall, in_seq. lia.
Qed.

Lemma history_agrees n (a : D) : 0 <= n <= 10000 → units 4 n a →
  f64_ltb (f64_lit n 10000) (f64_lit 80 100) = negb (d_leb (d_new 80 2) a).
Proof using All.
  intros Hn Ha. rewrite completeness_agrees by done. rewrite (units_leb 4 8000 n); [apply Z.ltb_antisym| |done].
  assert (units 2 80 (d_new (D := D) 80 2)) as Hu by by apply d_new_val; [lia|].
  unfold units in *. change (pow10 2) with 100%Q in Hu. change (pow10 4) with 10000%Q.
  change (inject_Z 80) with 80%Q in Hu. change (inject_Z 8000) with 8000%Q. lra.
Qed.

Lemma liquidity_agrees min z (l : D) : is_u64 min → (inject_Z z <= d_val l)%Q → (d_val l < inject_Z (z + 1))%Q →
  d_leb (d_of_Z min) l = (min <=? z).
Proof using All.
  intros Hm Hl Hu. unfold is_u64, u64_max in Hm. apply eq_true_iff_eq.
  rewrite d_leb_val, d_of_Z_val by (unfold max_mantissa; lia). rewrite Z.leb_le. split.
  - intros Hle. enough (min < z + 1) by lia. rewrite Zlt_Qlt. by eapply Qle_lt_trans.
  - rewrite Zle_Qle. intros. by eapply Qle_trans.
Qed.

Lemma checks_agree config now token market clusters wallets input :
  is_u64 (SignalsConfig.entry_min_liquidity_usd config) →
  corresponds now token market clusters wallets input →
  first_failure (entry_checks d_of_Z (d_new 80 2) config now token market clusters wallets) =
    match SignalGate.evaluate_entry_gate input (thresholds_of config) with
    | SignalGate.Accepted => None
    | SignalGate.Rejected c => Some (code_str c)
    end.
Proof using All.
  intros Hc [C1 C2 C3 C4 C5 C6 C7 C8 C9 (n & Hn & Hu & C10)].
  unfold first_failure, entry_checks, SignalGate.evaluate_entry_gate. simpl.
  rewrite C1, C2, C3, C4, C6, C7, C8, C9, C10, (history_agrees n _ Hn Hu), wash_agrees, critical_agrees, !ltb_negb_leb.
  assert (LifecycleState.entry_supported (lifecycle token) =
    bool_decide (lifecycle token ≠ LifecycleState.Unsupported)) as -> by by destruct (lifecycle token).
  destruct (2 <=? eligible_clusters clusters); [|done].
  destruct (2 <=? meaningful_buys clusters); [|done]. cbn [negb].
  destruct (bool_decide (lifecycle token ≠ _)); [|done]. cbn [negb].
  destruct (age_hours token) as [age|]; [|done].
  destruct (age <=? _); [|done]. cbn [negb].
  destruct (liquidity_usd market) as [l|], (SignalGate.liquidity_usd input) as [z|]; try done. simpl.
  destruct C5 as [Hl1 Hl2]. rewrite (liquidity_agrees _ z) by done. destruct (_ <=? z); [|done]. cbn [negb].
  destruct (bool_decide ("wash_trading" ∉ _)); [|done]. cbn [negb].
  destruct (bool_decide (Forall _ _)); [|done]. cbn [negb].
  destruct (observed_at market) as [t|]; [|done]. simpl.
  destruct (num_seconds (now - t) <=? _); [|done]. cbn [negb].
  destruct (70 <=? max_skill wallets); [|done]. cbn [negb].
  destruct (60 <=? max_copyability wallets); [|done]. cbn [negb].
  by destruct (d_leb _ _).
Qed.

(** Claim C15: The evaluator of signals.rs does what the pure gate of
    sf/signal_gate.rs decides.  On the same facts, whatever the tables, it
    writes the rejection under the code the gate rejects with, and accepts, with
    its score, exactly when the gate accepts; the default configuration gives
    the default thresholds.  The pure gate sees the liquidity rounded down to
    whole dollars and the history completeness, a fraction of four decimal
    places, as the nearest f64; the configured minimum is a u64. *)
Theorem entry_gates_agree ws chain mint config now db token market clusters wallets nc input
    (Hmin : is_u64 (SignalsConfig.entry_min_liquidity_usd config))
    (Hfacts : corresponds now token market clusters wallets input) :
  let ev := entry_evidence now token market clusters wallets nc in
  evaluate_token_on d_of_Z (d_new 80 2) accepts_signal accepts_evaluation ws chain mint now config
    db token market clusters wallets nc
  = match SignalGate.evaluate_entry_gate input (thresholds_of config) with
    | SignalGate.Rejected c => reject accepts_evaluation ws chain mint now db "entry" (code_str c) ev
    | SignalGate.Accepted =>
        accept accepts_signal accepts_evaluation ws chain mint now db "entry"
          (compute_entry_score clusters wallets nc) ev
    end
  ∧ thresholds_of SignalsConfig.default = SignalGate.default.
Proof using All.
  cbv zeta. split; [|by vm_compute].
  rewrite evaluate_token_on_spec, (checks_agree config now token market clusters wallets input) by done.
  by destruct (SignalGate.evaluate_entry_gate _ _).
Qed.
End agreement.

(** A token that passes every gate but copyability. *)
Definition sample_input : SignalGate.EntryGateInput :=
  SignalGate.MkInput 2 3 true (Some 5) (Some 50000) [] (Some 60) 80 40 (f64_lit 90 100).

Lemma entry_gates_agree_witness :
  (evaluate_token_on d_of_Z (d_new 80 2) any_signal any_evaluation 7 ChainKind.Solana "M" (60 * 10 ^ 9)
     SignalsConfig.default (MkDb ∅ [] []) (MkToken LifecycleState.Graduated (Some 5) [])
     (MkMarket (Some (qc_new 500004 1)) (Some 0)) (MkClusters 2 3) (MkWallets 4 80 40 (qc_new 9 1)) None).1
  = (reject any_evaluation 7 ChainKind.Solana "M" (60 * 10 ^ 9) (MkDb ∅ [] []) "entry" "ineligible_copyability"
      (entry_evidence (60 * 10 ^ 9) (MkToken LifecycleState.Graduated (Some 5) [])
         (MkMarket (Some (qc_new 500004 1)) (Some 0)) (MkClusters 2 3) (MkWallets 4 80 40 (qc_new 9 1)) None)).1.
Proof.
  rewrite (proj1 (entry_gates_agree any_signal any_evaluation 7 ChainKind.Solana "M" SignalsConfig.default (60 * 10 ^ 9)
    (MkDb ∅ [] []) (MkToken LifecycleState.Graduated (Some 5) [])
    (MkMarket (Some (qc_new 500004 1)) (Some 0)) (MkClusters 2 3)
    (MkWallets 4 80 40 (qc_new 9 1)) None sample_input
    ltac:(unfold is_u64, u64_max; simpl; lia)
    ltac:(split; [by vm_compute..|by vm_compute|by vm_compute|by vm_compute|by vm_compute|by vm_compute|exists 9000; split; [lia|by vm_compute]]))).
  by vm_compute.
Defined.
