(* ===== verification/Workers.v ===== *)
(** * The signal evaluator (src/src/workers.rs)

    What one scheduled pass evaluates and from which facts: the policy-eligible
    buyers of a token, the clusters and purchases counted over them alone, the
    latest of their scores, the market snapshot; then the fenced entry
    evaluation of Signals.v.  This is where labels, clusters, scores, stored
    trades and the evaluation tables meet.

    [clock] is the database clock, one instant per statement; a pass receives
    the instants and the claim token of each token it evaluates.  [as_strings]
    decodes a JSON array of strings (serde_json). *)
From S2P Require Import Prelude Text Domain Floats CostBasis Decimals Models Labels Clusters.
From S2P Require Import Evidence Signals Scoring.
From Stdlib Require Import QArith.QArith_base QArith.Qcanon.
From stdpp Require Import options.
Local Open Scope string_scope.
Local Open Scope Z_scope.
Local Open Scope list_scope.

Record TokenRow (J : Type) := MkTokenRow {
  tk_chain : string;
  tk_mint : string;
  tk_lifecycle_state : string;
  tk_first_seen_at : option Z;
  tk_risk_flags : J;
}.
Arguments MkTokenRow {_}. Arguments tk_chain {_}. Arguments tk_mint {_}.
Arguments tk_lifecycle_state {_}. Arguments tk_first_seen_at {_}. Arguments tk_risk_flags {_}.

(** The tables an evaluation reads; the ones it writes are an [eval_db]. *)
Record world (J D : Type) := MkWorld {
  w_tokens : list (TokenRow J);
  w_evidence : evidence_db J D;
  w_policy : label_db;
  w_graph : cluster_db D;
  w_scores : list (ScoreRow D);
}.
Arguments MkWorld {_ _}. Arguments w_tokens {_ _}. Arguments w_evidence {_ _}.
Arguments w_policy {_ _}. Arguments w_graph {_ _}. Arguments w_scores {_ _}.

(** [TimeDelta::num_hours]. *)
Definition num_hours (d : Z) : Z := Z.quot (num_seconds d) 3600.

Definition SIGNAL_EVAL_REEVAL_SECONDS : Z := 300.

Section facts.
Context {J D : Type} `{DecimalNum D} (as_strings : J → option (list string)).
Local Abbreviation world := (world J D).

(** ** The buyers *)

Definition is_buy (chain mint : string) (t : TradeRow D) : bool :=
  bool_decide (td_chain t = chain) && bool_decide (td_mint t = mint)
  && bool_decide (td_side t = "buy").

(** SELECT DISTINCT wallet. *)
Definition buyers (w : world) (chain mint : string) : list string :=
  elements (list_to_set (td_wallet <$> List.filter (is_buy chain mint) (trades (w_evidence w)))
            : gset string).

(** One buyer: its policy is read at its own instant. *)
Definition eligible_step (w : world) (clock : string → Z) (workspace_id : Z) (chain : ChainKind)
    (eligible : list string) (buyer : string) : result (list string) :=
  let! d := effective_disposition (w_policy w) (clock buyer) workspace_id chain buyer in
  ROk (if allows_scoring d then eligible ++ [buyer] else eligible).

Definition eligible_signal_buyers (w : world) (clock : string → Z) (workspace_id : Z)
    (chain : ChainKind) (mint : string) : result (list string) :=
  fold_result (eligible_step w clock workspace_id chain) [] (buyers w (ChainKind.as_str chain) mint).

(** ** The counts *)

(** The smallest active cluster of a wallet. *)
Definition canonical_membership (g : cluster_db D) (chain address : string) : option Z :=
  min_by Z.ltb (fst <$> active_where g chain (λ _ a, bool_decide (a = address))).

Definition has_bought (w : world) (chain mint address : string) : bool :=
  existsb (λ t, is_buy chain mint t && bool_decide (td_wallet t = address)) (trades (w_evidence w)).

Definition cluster_buys (w : world) (chain mint : string) (eligible : list string) : Z :=
  Z.of_nat (size (list_to_set (omap (canonical_membership (w_graph w) chain)
    (List.filter (has_bought w chain mint) eligible)) : gset Z)).

Definition count_meaningful_buys (w : world) (chain mint : string) (eligible : list string) : Z :=
  Z.of_nat (length (List.filter (λ t,
    is_buy chain mint t && d_leb (d_of_Z 1) (default (d_of_Z 0) (td_usd_value t))
    && contains (td_wallet t) eligible) (trades (w_evidence w)))).

Definition newest_score (a b : ScoreRow D) : bool := sc_as_of b <=? sc_as_of a.

Definition best_score_among (w : world) (chain : string) (eligible : list string)
    : option (ScoreRow D) :=
  if bool_decide (eligible = []) then None else
  head (stable_sort newest_score (List.filter (λ r,
    bool_decide (sc_chain r = chain) && contains (sc_address r) eligible) (w_scores w))).

(** ** The gates' inputs *)

Definition newest_snapshot (a b : Snapshot D) : bool := ms_observed_at b <=? ms_observed_at a.

Definition market_gate (w : world) (chain mint : string) (now : Z) : MarketGate (D := D) :=
  let row := head (stable_sort newest_snapshot (List.filter (λ s,
    bool_decide (ms_chain s = chain) && bool_decide (ms_mint s = mint)
    && (ms_observed_at s <=? now)) (snapshots (w_evidence w)))) in
  MkMarket (row ≫= ms_liquidity_usd) (ms_observed_at <$> row).

Definition token_gate (t : TokenRow J) (now : Z) : TokenGate :=
  MkToken (default LifecycleState.Unsupported (LifecycleState.parse (tk_lifecycle_state t)))
    ((λ seen, num_hours (now - seen)) <$> tk_first_seen_at t)
    (default [] (as_strings (tk_risk_flags t))).

Definition wallet_gate (w : world) (chain : string) (eligible : list string)
    : WalletEligibility (D := D) :=
  match best_score_among w chain eligible with
  | Some r => MkWallets 1 (wrap_u32 (Z.max 0 (skill_col r))) (wrap_u32 (Z.max 0 (copyability_col r)))
                (completeness_col r)
  | None => MkWallets 0 0 0 d_zero
  end.

Definition cluster_gate (w : world) (chain mint : string) (eligible : list string) : ClusterSummary :=
  Signals.MkClusters (wrap_u32 (Z.max 0 (cluster_buys w chain mint eligible)))
    (wrap_u32 (Z.max 0 (count_meaningful_buys w chain mint eligible))).

Definition find_token (w : world) (chain mint : string) : option (TokenRow J) :=
  find_first (λ t, bool_decide (tk_chain t = chain) && bool_decide (tk_mint t = mint)) (w_tokens w).

(** The facts, and who they were counted over. *)
Definition signal_facts (w : world) (clock : string → Z) (workspace_id : Z) (chain : ChainKind)
    (mint : string) (now : Z)
    : result (TokenGate * MarketGate (D := D) * ClusterSummary * WalletEligibility (D := D)) :=
  let c := ChainKind.as_str chain in
  match find_token w c mint with
  | None => RErr "token not tracked"
  | Some t =>
      let! eligible := eligible_signal_buyers w clock workspace_id chain mint in
      ROk (token_gate t now, market_gate w c mint now, cluster_gate w c mint eligible,
           wallet_gate w c eligible)
  end.

Section evaluation.
Context (from_u64 : Z → D) (min_history : D).
Context (accepts_signal : Signal (D := D) → bool) (accepts_evaluation : Evaluation (D := D) → bool).
Local Abbreviation eval_db := (eval_db (D := D)).

(** With a claim token the write is fenced, without one it is direct. *)
Definition evaluate_token_signals_impl (w : world) (db : eval_db) (clock : string → Z)
    (fence_at workspace_id : Z) (chain : ChainKind) (mint : string) (now : Z)
    (config : SignalsConfig) (claim_token : option string) : eval_db * result (option nat) :=
  match signal_facts w clock workspace_id chain mint now with
  | RErr e => (db, RErr e)
  | ROk (token, market, clusters, wallets) =>
      match claim_token with
      | Some ct =>
          evaluate_token_fenced from_u64 min_history accepts_signal accepts_evaluation
            workspace_id chain mint now config db fence_at token market clusters wallets None ct
      | None =>
          evaluate_token_on from_u64 min_history accepts_signal accepts_evaluation
            workspace_id chain mint now config db token market clusters wallets None
      end
  end.

(** ** One pass *)

Definition due_states : list string :=
  ["new_creation"; "bonding_curve"; "near_graduation"; "graduated"; "post_migration"].

Definition recently_evaluated (db : eval_db) (clock workspace_id : Z) (chain mint : string) : bool :=
  existsb (λ e, (ev_workspace e =? workspace_id) && bool_decide (ev_chain e = chain)
    && bool_decide (ev_mint e = mint)
    && (clock - SIGNAL_EVAL_REEVAL_SECONDS * 10 ^ 9 <? evaluated_at e)) (evaluations db).

Definition due (w : world) (db : eval_db) (clock workspace_id : Z) (config : SignalsConfig)
    (t : TokenRow J) : bool :=
  contains (tk_chain t) ["solana"; "robinhood"] && contains (tk_lifecycle_state t) due_states
  && match tk_first_seen_at t with
     | Some seen =>
         clock - SignalsConfig.entry_max_token_age_hours config * 3600 * 10 ^ 9 <? seen
     | None => false
     end
  && negb (recently_evaluated db clock workspace_id (tk_chain t) (tk_mint t)).

(** ORDER BY first_seen_at ASC NULLS LAST, mint ASC. *)
Definition due_order (a b : TokenRow J) : bool :=
  match tk_first_seen_at a, tk_first_seen_at b with
  | Some s, Some t => (s <? t) || ((s =? t) && String.leb (tk_mint a) (tk_mint b))
  | Some _, None => true
  | None, Some _ => false
  | None, None => String.leb (tk_mint a) (tk_mint b)
  end.

Definition due_tokens (w : world) (db : eval_db) (clock workspace_id : Z) (config : SignalsConfig)
    : list (TokenRow J) :=
  take 20 (stable_sort due_order (List.filter (due w db clock workspace_id config) (w_tokens w))).

(** When the statements for one token run, and its claim token. *)
Record attempt := MkAttempt {
  claimant : string;
  claimed_at : Z;
  policy_at : string → Z;
  fenced_at : Z;
}.

(** One token of the batch: claim, evaluate, and on an error release. *)
Definition evaluate_due_token (w : world) (workspace_id now : Z) (config : SignalsConfig)
    (st : eval_db * Z) (item : TokenRow J * attempt) : eval_db * Z :=
  let '(db, evaluated) := st in
  let '(t, a) := item in
  match ChainKind.parse (tk_chain t) with
  | None => (db, evaluated)
  | Some chain =>
      match acquire_claim workspace_id chain (tk_mint t) db (claimed_at a) (claimant a) with
      | (db, false) => (db, evaluated)
      | (db, true) =>
          match evaluate_token_signals_impl w db (policy_at a) (fenced_at a) workspace_id chain
                  (tk_mint t) now config (Some (claimant a)) with
          | (db, ROk _) => (db, evaluated + 1)
          | (db, RErr _) => (release_eval_claim workspace_id chain (tk_mint t) db (claimant a), evaluated)
          end
      end
  end.

Definition evaluate_due_signals (w : world) (db : eval_db) (workspace_id clock now : Z)
    (config : SignalsConfig) (attempts : nat → attempt) : eval_db * Z :=
  fold_left (evaluate_due_token w workspace_id now config)
    (imap (λ i t, (t, attempts i)) (due_tokens w db clock workspace_id config)) (db, 0).
End evaluation.
End facts.

(** ** The eligible buyers *)

Section eligibility.
Set Default Proof Using "Type".
Context {J D : Type} `{DecimalNum D} (as_strings : J → option (list string)).
Local Abbreviation world := (world J D).

(** What the policy says of one buyer. *)
Definition allowed (w : world) (clock : string → Z) (workspace_id : Z) (chain : ChainKind)
    (a : string) : bool :=
  match effective_disposition (w_policy w) (clock a) workspace_id chain a with
  | ROk d => allows_scoring d
  | RErr _ => false
  end.

Definition readable (w : world) (clock : string → Z) (workspace_id : Z) (chain : ChainKind)
    (a : string) : Prop :=
  is_ok (effective_disposition (w_policy w) (clock a) workspace_id chain a) = true.

Lemma eligible_fold (w : world) clock ws chain l acc :
  match fold_result (eligible_step w clock ws chain) acc l with
  | ROk out => out = acc ++ List.filter (allowed w clock ws chain) l
      ∧ Forall (readable w clock ws chain) l
  | RErr _ => ¬ Forall (readable w clock ws chain) l
  end.
Proof.
  revert acc. induction l as [|a l IH]; intros acc; cbn [fold_result List.filter].
  { by rewrite app_nil_r. }
  unfold eligible_step at 1, allowed at 1.
  destruct (effective_disposition (w_policy w) (clock a) ws chain a) as [d|e] eqn:E.
  - specialize (IH (if allows_scoring d then acc ++ [a] else acc)).
    destruct (fold_result _ _ l) as [out|e].
    + destruct IH as [-> Hr]. split; [destruct (allows_scoring d); [by rewrite <-(assoc_L (++))|done]|].
      constructor; [|done]. unfold readable. by rewrite E.
    + intros [_ ?]%Forall_cons. by apply IH.
  - intros [Hr _]%Forall_cons. unfold readable in Hr. by rewrite E in Hr.
Qed.

Lemma elem_of_buyers (w : world) chain mint a :
  a ∈ buyers w chain mint ↔ has_bought w chain mint a = true.
Proof.
  unfold buyers, has_bought. rewrite elem_of_elements, elem_of_list_to_set, list_elem_of_fmap.
  rewrite existsb_exists_elem. split.
  - intros (t & -> & [Ht Hb]%elem_of_lfilter). exists t. by rewrite Hb, bool_decide_eq_true_2.
  - intros (t & Ht & [Hb <-%bool_decide_eq_true]%andb_prop). exists t.
    split; [done|]. by apply elem_of_lfilter.
Qed.

Lemma eligible_ok (w : world) clock ws chain mint eligible :
  eligible_signal_buyers w clock ws chain mint = ROk eligible →
  (∀ a, a ∈ eligible ↔ has_bought w (ChainKind.as_str chain) mint a = true ∧ allowed w clock ws chain a = true)
  ∧ ∀ a, has_bought w (ChainKind.as_str chain) mint a = true → readable w clock ws chain a.
Proof.
  unfold eligible_signal_buyers. intros E.
  pose proof (eligible_fold w clock ws chain (buyers w (ChainKind.as_str chain) mint) []) as Hf.
  rewrite E in Hf. destruct Hf as [-> Hr]. split.
  - intros a. cbn [app]. by rewrite elem_of_lfilter, elem_of_buyers.
  - intros a Ha. rewrite Forall_forall in Hr. apply Hr. by apply elem_of_buyers.
Qed.

(** ** Restricting the tables to some wallets *)

Definition restrict (w : world) (p : string → bool) : world :=
  MkWorld (w_tokens w)
    (MkEvidence (raw_events (w_evidence w)) (transfers (w_evidence w))
       (List.filter (λ t, p (td_wallet t)) (trades (w_evidence w)))
       (sync_states (w_evidence w)) (snapshots (w_evidence w)))
    (w_policy w)
    (Clusters.MkClusters (edges (w_graph w))
       (filter (λ km : (Z * string * string) * Member D, p km.1.2 = true) (members (w_graph w)))
       (next_cluster (w_graph w)))
    (List.filter (λ r, p (sc_address r)) (w_scores w)).

Lemma has_bought_restrict (w : world) p chain mint a :
  has_bought (restrict w p) chain mint a = p a && has_bought w chain mint a.
Proof.
  apply eq_true_iff_eq. unfold has_bought. rewrite andb_true_iff, !existsb_exists_elem. simpl. split.
  - intros (t & [Ht Hp]%elem_of_lfilter & E). apply andb_prop in E as E'. destruct E' as [_ <-%bool_decide_eq_true].
    split; [done|]. by exists t.
  - intros (Hp & t & Ht & E). exists t. split; [|done]. apply elem_of_lfilter. split; [done|].
    apply andb_prop in E as [_ <-%bool_decide_eq_true]. done.
Qed.

Lemma min_by_same (l l' : list Z) : (∀ x, x ∈ l ↔ x ∈ l') → min_by Z.ltb l = min_by Z.ltb l'.
Proof.
  intros Hl. assert (∀ x y z, (x <? y) = false → (y <? z) = false → (x <? z) = false) as Htr by lia.
  destruct (min_by Z.ltb l) as [m|] eqn:E, (min_by Z.ltb l') as [m'|] eqn:E'.
  - f_equal. pose proof (min_by_elem _ _ _ E) as Hm. pose proof (min_by_elem _ _ _ E') as Hm'.
    assert ((m' <? m) = false) by (eapply (min_by_least Z.ltb); [lia|lia|exact Htr|exact E|by apply Hl]).
    assert ((m <? m') = false) by (eapply (min_by_least Z.ltb); [lia|lia|exact Htr|exact E'|by apply Hl]). lia.
  - apply min_by_None in E' as ->. apply min_by_elem, Hl in E. by apply not_elem_of_nil in E.
  - apply min_by_None in E as ->. apply min_by_elem, Hl in E'. by apply not_elem_of_nil in E'.
  - done.
Qed.

Lemma canonical_restrict (w : world) p chain a : p a = true →
  canonical_membership (w_graph (restrict w p)) chain a = canonical_membership (w_graph w) chain a.
Proof.
  intros Hp. unfold canonical_membership. apply min_by_same. intros k.
  rewrite !list_elem_of_fmap. unfold active_where.
  assert (∀ g : cluster_db D, (∃ y : Z * string, k = y.1 ∧ y ∈ omap (λ '((cluster, c, a0), m),
      if bool_decide (c = chain) && is_active m && bool_decide (a0 = a) then Some (cluster, a0) else None)
      (map_to_list (members g)))
    ↔ ∃ m, members g !! (k, chain, a) = Some m ∧ is_active m = true) as Hg.
  { intros g. split.
    - intros (y & -> & Hy). apply list_elem_of_omap in Hy as ([[[c ch] b] m] & Hin & Hy).
      apply elem_of_map_to_list in Hin. destruct (bool_decide (ch = chain)) eqn:E1; [|done].
      destruct (is_active m) eqn:E2; [|done]. destruct (bool_decide (b = a)) eqn:E3; [|done].
      injection Hy as <-. apply bool_decide_eq_true in E1 as ->, E3 as ->. by exists m.
    - intros (m & Hm & Ha). exists (k, a). split; [done|]. apply list_elem_of_omap.
      exists ((k, chain, a), m). split; [by apply elem_of_map_to_list|].
      by rewrite Ha, !bool_decide_eq_true_2. }
  rewrite !Hg. simpl. setoid_rewrite map_lookup_filter_Some. simpl. naive_solver.
Qed.

(** Lists with the same elements give the same counts. *)
Lemma contains_same (l l' : list string) a : (∀ x, x ∈ l ↔ x ∈ l') → contains a l = contains a l'.
Proof. intros Hl. unfold contains. by apply bool_decide_ext. Qed.

Lemma gates_restrict (w : world) p chain mint eligible eligible'
    (He : ∀ a, a ∈ eligible' ↔ a ∈ eligible) (Hp : ∀ a, a ∈ eligible → p a = true) :
  cluster_gate (restrict w p) chain mint eligible' = cluster_gate w chain mint eligible
  ∧ wallet_gate (restrict w p) chain eligible' = wallet_gate w chain eligible.
Proof.
  assert (∀ a, contains a eligible' = true → p a = true) as Hc.
  { intros a Ha%bool_decide_eq_true. by apply Hp, He. }
  split.
  - unfold cluster_gate. f_equal; f_equal; f_equal.
    + unfold cluster_buys. f_equal. f_equal. apply leibniz_equiv. intros k.
      rewrite !elem_of_list_to_set, !list_elem_of_omap. split.
      * intros (a & [Ha Hb]%elem_of_lfilter & E). apply He in Ha. exists a.
        rewrite has_bought_restrict in Hb. apply andb_prop in Hb as [Hpa Hb].
        rewrite canonical_restrict in E by done. split; [by apply elem_of_lfilter|done].
      * intros (a & [Ha Hb]%elem_of_lfilter & E). exists a. rewrite canonical_restrict by auto.
        split; [|done]. apply elem_of_lfilter. rewrite has_bought_restrict, Hb, (Hp a Ha).
        split; [by apply He|done].
    + unfold count_meaningful_buys. do 2 f_equal. simpl.
      induction (trades (w_evidence w)) as [|t l IH]; cbn [List.filter]; [done|].
      rewrite <-(contains_same _ _ (td_wallet t) He).
      destruct (p (td_wallet t)) eqn:Ep; cbn [List.filter].
      * rewrite IH. done.
      * destruct (contains (td_wallet t) eligible') eqn:Ec; [by rewrite (Hc _ Ec) in Ep|].
        by rewrite andb_false_r.
  - unfold wallet_gate, best_score_among.
    assert (bool_decide (eligible' = []) = bool_decide (eligible = [])) as ->.
    { apply bool_decide_ext. split; intros ->; [destruct eligible as [|a l]|destruct eligible' as [|a l]]; try done;
        exfalso; apply (not_elem_of_nil a); [apply He|apply He]; left. }
    destruct (bool_decide (eligible = [])); [done|].
    assert (List.filter (λ r, bool_decide (sc_chain r = chain) && contains (sc_address r) eligible')
        (w_scores (restrict w p))
      = List.filter (λ r, bool_decide (sc_chain r = chain) && contains (sc_address r) eligible) (w_scores w))
      as ->; [|done].
    simpl. induction (w_scores w) as [|r l IH]; cbn [List.filter]; [done|].
    rewrite <-(contains_same _ _ (sc_address r) He).
    destruct (p (sc_address r)) eqn:Ep; cbn [List.filter].
    + by rewrite IH.
    + destruct (contains (sc_address r) eligible') eqn:Ec; [by rewrite (Hc _ Ec) in Ep|].
      by rewrite andb_false_r.
Qed.

(** Only policy-eligible wallets contribute.  Deleting every trade,
    cluster membership and score of the wallets the workspace does not allow
    to score leaves the facts of an evaluation as they are. *)
Theorem excluded_wallets_invisible (w : world) clock ws chain mint now facts
    (Hfacts : signal_facts as_strings w clock ws chain mint now = ROk facts) :
  signal_facts as_strings (restrict w (allowed w clock ws chain)) clock ws chain mint now = ROk facts.
Proof.
  unfold signal_facts in *. change (find_token (restrict w ?p)) with (find_token w).
  destruct (find_token w (ChainKind.as_str chain) mint) as [t|]; [|done].
  destruct (eligible_signal_buyers w clock ws chain mint) as [eligible|] eqn:E; [|done].
  apply eligible_ok in E as [He Hr]. set (p := allowed w clock ws chain) in *.
  set (c := ChainKind.as_str chain) in *.
  pose proof (eligible_fold (restrict w p) clock ws chain (buyers (restrict w p) c mint) []) as Hf.
  unfold eligible_signal_buyers at 1. fold c.
  destruct (fold_result _ _ _) as [eligible'|e].
  - destruct Hf as [-> _]. cbn [app]. injection Hfacts as <-.
    destruct (gates_restrict w p c mint eligible (List.filter (allowed (restrict w p) clock ws chain) (buyers (restrict w p) c mint)))
      as [-> ->]; [|by intros a [_ ?]%He|done].
    intros a. rewrite elem_of_lfilter, elem_of_buyers, has_bought_restrict, He.
    change (allowed (restrict w p) clock ws chain a) with (p a). destruct (p a); naive_solver.
  - exfalso. apply Hf, Forall_forall. intros a Ha. apply elem_of_buyers in Ha.
    rewrite has_bought_restrict in Ha. apply andb_prop in Ha as [_ Ha]. by apply Hr.
Qed.
End eligibility.

(** ** What an accepted entry rests on *)

Lemma two_elements (X : gset Z) : (2 <= size X)%nat → ∃ x y, x ≠ y ∧ x ∈ X ∧ y ∈ X.
Proof.
  intros Hs. destruct (decide (X = ∅)) as [->|Hx]; [rewrite size_empty in Hs; lia|].
  apply set_choose_L in Hx as [x Hx].
  assert (X ∖ {[x]} ≠ ∅) as Hy.
  { intros E. assert (size (X ∖ {[x]}) = 0%nat) as E0 by by rewrite E, size_empty.
    rewrite size_difference, size_singleton in E0 by set_solver. lia. }
  apply set_choose_L in Hy as [y Hy]. exists x, y. set_solver.
Qed.

Lemma wrap_u32_le z : 0 <= z → wrap_u32 z <= z.
Proof. intros Hz. unfold wrap_u32. by apply Z.mod_le. Qed.

Lemma filter_sublist {A} (p : A → bool) l : List.filter p l `sublist_of` l.
Proof. induction l as [|x l IH]; cbn [List.filter]; [done|]. destruct (p x); by constructor. Qed.

Lemma first_failure_None (checks : list (bool * string)) :
  first_failure checks = None → Forall (λ c, c.1 = true) checks.
Proof.
  unfold first_failure. intros E. destruct (find_first _ checks) eqn:F; [done|].
  rewrite find_first_None in F. apply Forall_forall. intros c Hc. apply negb_false_iff. by apply F.
Qed.

Section acceptance.
Set Default Proof Using "Type".
Context {J D : Type} `{DecimalNum D} (as_strings : J → option (list string)).
Context (from_u64 : Z → D) (min_history : D).
Context (accepts_signal : Signal (D := D) → bool) (accepts_evaluation : Evaluation (D := D) → bool).
Local Abbreviation world := (world J D).
Local Abbreviation eval_db := (eval_db (D := D)).
Local Abbreviation evaluate_impl := (evaluate_token_signals_impl as_strings from_u64 min_history
  accepts_signal accepts_evaluation).

(** A wallet the workspace allows to score that bought the token. *)
Definition scorer (w : world) (clock : string → Z) (ws : Z) (chain : ChainKind) (mint a : string) : Prop :=
  allowed w clock ws chain a = true ∧ has_bought w (ChainKind.as_str chain) mint a = true.

(** The newest score of the scorers. *)
Definition best_scorer (w : world) (clock : string → Z) (ws : Z) (chain : ChainKind) (mint : string)
    (r : ScoreRow D) : Prop :=
  r ∈ w_scores w ∧ sc_chain r = ChainKind.as_str chain ∧ scorer w clock ws chain mint (sc_address r)
  ∧ ∀ r', r' ∈ w_scores w → sc_chain r' = ChainKind.as_str chain →
      scorer w clock ws chain mint (sc_address r') → sc_as_of r' <= sc_as_of r.

Lemma newest_sorted (l : list (ScoreRow D)) :
  StronglySorted (λ a b, newest_score a b = true) (stable_sort newest_score l).
Proof. apply stable_sort_sorted; unfold newest_score; lia. Qed.

(** An acceptance passed every check on the facts of the eligible buyers. *)
Lemma impl_accepted w (db : eval_db) clock fence_at ws chain mint now config ct db' id :
  evaluate_impl w db clock fence_at ws chain mint now config ct = (db', ROk (Some id)) →
  let c := ChainKind.as_str chain in
  ∃ t eligible, (∀ a, a ∈ eligible ↔ scorer w clock ws chain mint a)
    ∧ Forall (λ c, c.1 = true) (entry_checks from_u64 min_history config now
        (token_gate as_strings t now) (market_gate w c mint now)
        (cluster_gate w c mint eligible) (wallet_gate w c eligible)).
Proof.
  unfold evaluate_token_signals_impl, signal_facts.
  destruct (find_token w (ChainKind.as_str chain) mint) as [t|]; [|done].
  destruct (eligible_signal_buyers w clock ws chain mint) as [eligible|e] eqn:El; [|done].
  cbn beta iota. intros E. exists t, eligible. split.
  { intros a. apply eligible_ok in El as [He _]. rewrite He. unfold scorer. tauto. }
  set (token := token_gate _ _ _) in *. set (market := market_gate _ _ _ _) in *.
  set (clusters := cluster_gate _ _ _ _) in *. set (wallets := wallet_gate _ _ _) in *.
  apply first_failure_None.
  assert (∀ (db db1 : eval_db), evaluate_token_on from_u64 min_history accepts_signal accepts_evaluation ws chain mint
      now config db token market clusters wallets None = (db1, ROk (Some id)) →
    first_failure (entry_checks from_u64 min_history config now token market clusters wallets) = None) as Hon.
  { intros d d1 E1. rewrite evaluate_token_on_spec in E1. cbv zeta in E1.
    destruct (first_failure _) as [code|]; [|done].
    apply (reject_written accepts_evaluation _ _ _ _ _ _ _ _ _ _ 0) in E1 as (ev & _ & _ & _ & E1). done. }
  destruct ct as [tok|]; [|by eapply Hon].
  unfold evaluate_token_fenced in E. apply fenced_inv in E as (_ & db1 & E & _). by eapply Hon.
Qed.

Lemma two_clusters w clock ws chain mint eligible :
  (∀ a, a ∈ eligible ↔ scorer w clock ws chain mint a) →
  2 <= eligible_clusters (cluster_gate w (ChainKind.as_str chain) mint eligible) →
  ∃ a b j k, scorer w clock ws chain mint a ∧ scorer w clock ws chain mint b ∧ a ≠ b ∧ j ≠ k
    ∧ canonical_membership (w_graph w) (ChainKind.as_str chain) a = Some j
    ∧ canonical_membership (w_graph w) (ChainKind.as_str chain) b = Some k.
Proof.
  intros He Hc. set (c := ChainKind.as_str chain) in *. cbn [cluster_gate eligible_clusters] in Hc.
  assert (2 <= cluster_buys w c mint eligible) as Hn.
  { etrans; [exact Hc|]. etrans; [apply wrap_u32_le; lia|]. unfold cluster_buys. lia. }
  unfold cluster_buys in Hn. change 2 with (Z.of_nat 2) in Hn. apply Nat2Z.inj_le, two_elements in Hn.
  destruct Hn as (j & k & Hjk & Hj & Hk).
  rewrite elem_of_list_to_set, list_elem_of_omap in Hj, Hk.
  destruct Hj as (a & [Ha _]%elem_of_lfilter & Ea), Hk as (b & [Hb _]%elem_of_lfilter & Eb).
  apply He in Ha, Hb. exists a, b, j, k. split_and!; try done. congruence.
Qed.

Lemma two_purchases w clock ws chain mint eligible :
  (∀ a, a ∈ eligible ↔ scorer w clock ws chain mint a) →
  2 <= meaningful_buys (cluster_gate w (ChainKind.as_str chain) mint eligible) →
  ∃ bought, Forall (λ t, scorer w clock ws chain mint (td_wallet t)
      ∧ d_leb (d_of_Z 1) (default (d_of_Z 0) (td_usd_value t)) = true) bought
    ∧ bought `sublist_of` trades (w_evidence w) ∧ (2 <= length bought)%nat.
Proof.
  intros He Hc. set (c := ChainKind.as_str chain) in *. cbn [cluster_gate meaningful_buys] in Hc.
  assert (2 <= count_meaningful_buys w c mint eligible) as Hn.
  { etrans; [exact Hc|]. etrans; [apply wrap_u32_le; lia|]. unfold count_meaningful_buys. lia. }
  unfold count_meaningful_buys in Hn.
  set (p := λ t, _) in Hn. exists (List.filter p (trades (w_evidence w))). split_and!; [|apply filter_sublist|lia].
  apply Forall_forall. intros x [_ Hx]%elem_of_lfilter. unfold p in Hx.
  apply andb_prop in Hx as [Hx Hin]. apply andb_prop in Hx as [_ Hx].
  apply bool_decide_eq_true, He in Hin. done.
Qed.

Lemma gating_score w clock ws chain mint eligible :
  (∀ a, a ∈ eligible ↔ scorer w clock ws chain mint a) →
  let g := wallet_gate w (ChainKind.as_str chain) eligible in
  0 < max_skill g →
  ∃ r, best_scorer w clock ws chain mint r ∧ max_skill g <= skill_col r
    ∧ max_copyability g <= Z.max 0 (copyability_col r) ∧ min_history_completeness g = completeness_col r.
Proof.
  cbv zeta. unfold wallet_gate, best_scorer. set (c := ChainKind.as_str chain). intros He.
  destruct (best_score_among w c eligible) as [r|] eqn:Er; cbn [max_skill max_copyability min_history_completeness];
    [|lia].
  intros Hs. unfold best_score_among in Er. destruct (bool_decide (eligible = [])); [done|].
  set (q := λ r, _) in Er. set (l := List.filter q (w_scores w)) in Er.
  pose proof (wrap_u32_le (Z.max 0 (skill_col r)) ltac:(lia)).
  pose proof (wrap_u32_le (Z.max 0 (copyability_col r)) ltac:(lia)).
  pose proof (newest_sorted l) as Hss. pose proof (λ x, elem_of_stable_sort newest_score x l) as Hel.
  destruct (stable_sort newest_score l) as [|x l'] eqn:El; [done|]. injection Er as ->.
  assert (∀ x, x ∈ l ↔ x ∈ w_scores w ∧ sc_chain x = c ∧ scorer w clock ws chain mint (sc_address x)) as Hl.
  { intros x. unfold l. rewrite elem_of_lfilter. unfold q, contains.
    rewrite andb_true_iff, !bool_decide_eq_true, He. done. }
  assert (r ∈ l) as (Hr & Hch & Hsc)%Hl by (apply Hel; left).
  exists r. split_and!; try done; [|lia]. intros r' Hr' Hc' Ha'.
  assert (r' ∈ r :: l') as [->|Hin]%elem_of_cons; [|done|].
  { apply Hel, Hl. done. }
  apply StronglySorted_inv in Hss as [_ Hss]. rewrite Forall_forall in Hss.
  apply Hss in Hin. by apply Z.leb_le in Hin.
Qed.

(** Claim C31: An accepted entry has two wallets of different clusters and two
    purchases of at least a dollar behind it, all by wallets the workspace
    allows to score, and the newest score among those passes the gates. *)
Theorem accepted_entry_earned w (db : eval_db) clock fence_at ws chain mint now config ct db' id
    (Hrun : evaluate_impl w db clock fence_at ws chain mint now config ct = (db', ROk (Some id))) :
  let c := ChainKind.as_str chain in
  let scorer := scorer w clock ws chain mint in
  (∃ a b j k, scorer a ∧ scorer b ∧ a ≠ b ∧ j ≠ k
     ∧ canonical_membership (w_graph w) c a = Some j ∧ canonical_membership (w_graph w) c b = Some k)
  ∧ (∃ bought, Forall (λ t, scorer (td_wallet t) ∧ d_leb (d_of_Z 1) (default (d_of_Z 0) (td_usd_value t)) = true) bought
     ∧ bought `sublist_of` trades (w_evidence w) ∧ (2 <= length bought)%nat)
  ∧ (∃ r, best_scorer w clock ws chain mint r
     ∧ 70 <= skill_col r ∧ 60 <= copyability_col r ∧ d_leb min_history (completeness_col r) = true).
Proof.
  cbv zeta. apply impl_accepted in Hrun as (t & eligible & He & Hc).
  unfold entry_checks in Hc. repeat rewrite Forall_cons in Hc. cbn [fst] in Hc.
  destruct Hc as (Hcl & Hmb & _ & _ & _ & _ & _ & _ & Hskill & Hcopy & Hhist & _).
  apply Z.leb_le in Hcl, Hmb, Hskill, Hcopy. split_and!.
  - by eapply two_clusters.
  - by eapply two_purchases.
  - destruct (gating_score w clock ws chain mint eligible He) as (r & Hr & ? & ? & E); [lia|].
    exists r. rewrite <-E. split_and!; [done|lia|lia|done].
Qed.

Lemma accepted_skill w (db : eval_db) clock fence_at ws chain mint now config ct db' id :
  evaluate_impl w db clock fence_at ws chain mint now config ct = (db', ROk (Some id)) →
  ∃ r, r ∈ w_scores w ∧ 70 <= skill_col r.
Proof.
  intros (t & eligible & He & Hc)%impl_accepted.
  unfold entry_checks in Hc. repeat rewrite Forall_cons in Hc. cbn [fst] in Hc.
  destruct Hc as (_ & _ & _ & _ & _ & _ & _ & _ & Hskill%Z.leb_le & _).
  destruct (gating_score w clock ws chain mint eligible He) as (r & [Hr _] & ? & _); [lia|].
  exists r. split; [done|lia].
Qed.
End acceptance.

(** ** A pass *)

Section pass.
Set Default Proof Using "Type".
Context {J D : Type} `{DecimalNum D} (as_strings : J → option (list string)).
Context (from_u64 : Z → D) (min_history : D).
Context (accepts_signal : Signal (D := D) → bool) (accepts_evaluation : Evaluation (D := D) → bool).
Local Abbreviation world := (world J D).
Local Abbreviation eval_db := (eval_db (D := D)).
Local Abbreviation evaluate_impl := (evaluate_token_signals_impl as_strings from_u64 min_history
  accepts_signal accepts_evaluation).
Local Abbreviation evaluate_due := (evaluate_due_token as_strings from_u64 min_history
  accepts_signal accepts_evaluation).

Definition is_accepted (e : Evaluation (D := D)) : bool := bool_decide (status e = "accepted").

Definition token_key (ws : Z) (t : TokenRow J) : Z * string * string := (ws, tk_chain t, tk_mint t).

(** What [db'] has more than [db]: the evaluations [new], and one signal for
    each accepted one; no claim more. *)
Definition adds (db : eval_db) (new : list (Evaluation (D := D))) (db' : eval_db) : Prop :=
  claims db' ⊆ claims db
  ∧ evaluations db' = evaluations db ++ new
  ∧ ∃ sigs, signals db' = signals db ++ sigs ∧ length sigs = length (List.filter is_accepted new).

Lemma adds_nil db : adds db [] db.
Proof. split_and!; [done|by rewrite app_nil_r|]. exists []. by rewrite app_nil_r. Qed.

Lemma adds_app db db1 db2 new1 new2 :
  adds db new1 db1 → adds db1 new2 db2 → adds db (new1 ++ new2) db2.
Proof.
  intros (Hc1 & He1 & s1 & Hs1 & Hl1) (Hc2 & He2 & s2 & Hs2 & Hl2). split_and!.
  - by etrans.
  - by rewrite He2, He1, (assoc_L (++)).
  - exists (s1 ++ s2). by rewrite Hs2, Hs1, List.filter_app, !length_app, Hl1, Hl2, (assoc_L (++)).
Qed.

(** An accepted evaluation rests on a stored score that passes the gate. *)
Definition earned (w : world) (e : Evaluation (D := D)) : Prop :=
  is_accepted e = true → ∃ r, r ∈ w_scores w ∧ 70 <= skill_col r.

(** The evaluation of one claimed token. *)
Lemma impl_fenced w (db : eval_db) clock fence_at ws chain mint now config tok :
  let r := evaluate_impl w db clock fence_at ws chain mint now config (Some tok) in
  (∃ e, r = (db, RErr e)) ∨
  ∃ code score, fenced_outcome ws chain mint now fence_at tok "entry" code score db r.
Proof.
  cbv zeta. unfold evaluate_token_signals_impl.
  destruct (signal_facts as_strings w clock ws chain mint now) as [[[[token market] clusters] wallets]|e];
    [|left; by exists e].
  right. eexists _, _. apply fenced_evaluation_intro; done.
Qed.

Lemma acquired (db db1 : eval_db) ws chain mint clock tok :
  acquire_claim ws chain mint db clock tok = (db1, true) →
  db1 = MkDb (<[the_key ws chain mint := (tok, clock + claim_lease)]> (claims db)) (evaluations db) (signals db).
Proof.
  unfold acquire_claim. destruct (claims db !! _) as [[h exp]|]; [|by intros [= <-]].
  destruct (exp <=? clock); [by intros [= <-]|done].
Qed.

Lemma token_key_chain ws t c : c = tk_chain t → (ws, c, tk_mint t) = token_key ws t.
Proof. by intros ->. Qed.

(** One token of the batch adds one evaluation of that token and counts it, or
    nothing at all. *)
Lemma due_token_adds w ws now config (db : eval_db) n t a db' n'
    (Ht : tk_chain t ∈ ["solana"; "robinhood"]) :
  evaluate_due w ws now config (db, n) (t, a) = (db', n') →
  ∃ new, adds db new db' ∧ n' = n + Z.of_nat (length new) ∧ Forall (earned w) new
    ∧ (evaluation_key <$> new = [token_key ws t] ∨ new = []).
Proof.
  unfold evaluate_due_token. cbn [fst snd].
  assert (∀ d, adds db [] d → ∃ new, adds db new d ∧ n = n + Z.of_nat (length new) ∧ Forall (earned w) new
    ∧ (evaluation_key <$> new = [token_key ws t] ∨ new = [])) as Hnone.
  { intros d Hd. exists []. split_and!; [done|simpl; lia|done|by right]. }
  destruct (ChainKind.parse (tk_chain t)) as [chain|] eqn:Ec; [|intros [= <- <-]; apply Hnone, adds_nil].
  assert (ChainKind.as_str chain = tk_chain t) as Hstr.
  { apply elem_of_cons in Ht as [Ht|[Ht|[]%not_elem_of_nil]%elem_of_cons];
      rewrite Ht in Ec |- *; vm_compute in Ec; injection Ec as <-; done. }
  destruct (acquire_claim ws chain (tk_mint t) db (claimed_at a) (claimant a)) as [db1 b] eqn:Ea.
  destruct b.
  2: { unfold acquire_claim in Ea. destruct (claims db !! _) as [[h exp]|]; [|done].
       destruct (exp <=? claimed_at a); [done|]. injection Ea as <-. intros [= <- <-]. apply Hnone, adds_nil. }
  apply acquired in Ea.
  assert (claims db1 !! the_key ws chain (tk_mint t) = Some (claimant a, claimed_at a + claim_lease)) as Hk
    by by rewrite Ea; apply lookup_insert_eq.
  assert (delete (the_key ws chain (tk_mint t)) (claims db1) ⊆ claims db) as Hsub.
  { rewrite Ea. cbn [claims]. rewrite delete_insert_eq. apply delete_subseteq. }
  assert (adds db [] (release_eval_claim ws chain (tk_mint t) db1 (claimant a))) as Hrel.
  { rewrite (release_holder _ _ _ _ _ _ Hk). rewrite Ea in Hsub |- *. cbn [claims evaluations signals] in *.
    split_and!; [done|by rewrite app_nil_r|]. exists []. by rewrite app_nil_r. }
  pose proof (impl_fenced w db1 (policy_at a) (fenced_at a) ws chain (tk_mint t) now config (claimant a)) as Hi.
  cbv zeta in Hi. destruct (evaluate_impl w db1 _ _ _ _ _ _ _ _) as [db2 [out|e]] eqn:Er.
  2: { intros [= <- <-]. destruct Hi as [(e' & [= -> _])|(code & score & Hf)]; [by apply Hnone|].
       unfold fenced_outcome in Hf. simpl in Hf. subst db2. by apply Hnone. }
  intros [= <- <-]. destruct Hi as [(e' & [=])|(code & score & Hf)].
  destruct Hf as (_ & db3 & (ev & _ & Hw) & Hr). cbn [fst] in Hr. subst db2.
  destruct code as [c|]; destruct Hw as (He & Hs & Ho); eexists [_]; split_and!.
  - split_and!; [done|cbn [evaluations]; by rewrite He, Ea|]. exists []. cbn [signals]. by rewrite Hs, app_nil_r, Ea.
  - simpl. lia.
  - by constructor.
  - left. by rewrite <-(token_key_chain _ _ _ Hstr).
  - split_and!; [done|cbn [evaluations]; by rewrite He, Ea|]. eexists [_]. cbn [signals]. rewrite Hs, Ea. done.
  - simpl. lia.
  - constructor; [|done]. intros _. subst out. by eapply accepted_skill.
  - left. by rewrite <-(token_key_chain _ _ _ Hstr).
Qed.

Lemma due_fold_adds w ws now config l : Forall (λ ta : TokenRow J * attempt, tk_chain ta.1 ∈ ["solana"; "robinhood"]) l →
  ∀ (db : eval_db) n db' n', fold_left (evaluate_due w ws now config) l (db, n) = (db', n') →
  ∃ new, adds db new db' ∧ n' = n + Z.of_nat (length new) ∧ Forall (earned w) new
    ∧ (evaluation_key <$> new) `sublist_of` (token_key ws ∘ fst <$> l).
Proof.
  induction 1 as [|[t a] l Ht _ IH]; intros db n db' n' E; cbn [fold_left] in E.
  - injection E as <- <-. exists []. split_and!; [apply adds_nil|simpl; lia|done|done].
  - destruct (evaluate_due w ws now config (db, n) (t, a)) as [db1 n1] eqn:E1.
    apply due_token_adds in E1 as (new1 & H1 & -> & He1 & Hk); [|done].
    apply IH in E as (new2 & H2 & -> & He2 & Hl). exists (new1 ++ new2). split_and!.
    + by eapply adds_app.
    + rewrite length_app. lia.
    + by apply Forall_app.
    + rewrite fmap_app. cbn [fmap list_fmap]. destruct Hk as [-> | ->]; [by constructor|].
      simpl. by constructor.
Qed.

Lemma fst_imap {A B} (f : nat → B) (l : list A) : fst <$> imap (λ i t, (t, f i)) l = l.
Proof. rewrite fmap_imap. apply list_eq. intros i. rewrite list_lookup_imap. by destruct (l !! i). Qed.

Lemma due_token_due (w : world) (db : eval_db) clock ws config t :
  t ∈ due_tokens w db clock ws config → t ∈ w_tokens w ∧ due w db clock ws config t = true.
Proof.
  intros Ht. apply elem_of_take in Ht as (i & Hi & _). apply list_elem_of_lookup_2 in Hi.
  apply elem_of_stable_sort in Hi. by apply elem_of_lfilter in Hi.
Qed.

(** The fold of a pass, over its due tokens. *)
Lemma pass_adds (w : world) (db : eval_db) ws clock now config attempts db' n :
  evaluate_due_signals as_strings from_u64 min_history accepts_signal accepts_evaluation
    w db ws clock now config attempts = (db', n) →
  ∃ new, adds db new db' ∧ n = Z.of_nat (length new) ∧ Forall (earned w) new
    ∧ (evaluation_key <$> new) `sublist_of` (token_key ws <$> due_tokens w db clock ws config).
Proof.
  unfold evaluate_due_signals. intros E. apply due_fold_adds in E as (new & Ha & -> & He & Hs).
  - rewrite list_fmap_compose, fst_imap in Hs. exists new. split_and!; [done|lia|done|done].
  - apply (Forall_fmap fst (λ t, tk_chain t ∈ ["solana"; "robinhood"])). rewrite fst_imap.
    apply Forall_forall. intros t [_ Ht]%due_token_due. unfold due in Ht. rewrite !andb_true_iff in Ht.
    destruct Ht as [[[Ht _] _] _]. by apply bool_decide_eq_true in Ht.
Qed.

(** What a pass does.  It counts and stores one evaluation for some of
    at most twenty due tokens, none twice, each accepted one with its signal,
    and leaves no claim behind, whatever fails on the way.  A token evaluated
    in the last five minutes is not evaluated again. *)
Theorem pass_evaluates_due_once (w : world) (db : eval_db) ws clock now config attempts :
  let r := evaluate_due_signals as_strings from_u64 min_history accepts_signal accepts_evaluation
             w db ws clock now config attempts in
  ∃ new, adds db new r.1 ∧ r.2 = Z.of_nat (length new) ∧ (length new <= 20)%nat
    ∧ (evaluation_key <$> new) `sublist_of` (token_key ws <$> due_tokens w db clock ws config)
    ∧ (∀ e, e ∈ new → ∃ t, t ∈ w_tokens w ∧ evaluation_key e = token_key ws t
         ∧ tk_lifecycle_state t ∈ due_states
         ∧ ∀ old, old ∈ evaluations db → evaluation_key old = token_key ws t →
             evaluated_at old <= clock - 300 * 10 ^ 9).
Proof.
  cbv zeta. destruct (evaluate_due_signals _ _ _ _ _ w db ws clock now config attempts) as [db' n] eqn:E.
  apply pass_adds in E as (new & Ha & -> & _ & Hs). exists new. split_and!; [done|done| |done|].
  - apply sublist_length in Hs. rewrite !length_fmap in Hs. unfold due_tokens in Hs.
    rewrite length_take in Hs. lia.
  - intros e He. apply (list_elem_of_fmap_2 evaluation_key) in He.
    apply (elem_of_sublist _ _ _ He) in Hs as He'. clear He. rename He' into He. apply list_elem_of_fmap in He as (t & -> & Ht).
    apply due_token_due in Ht as [Hin Ht]. exists t. unfold due in Ht. rewrite !andb_true_iff in Ht.
    destruct Ht as [[[_ Hl] _] Hre%negb_true_iff].
    split_and!; [done|done|by apply bool_decide_eq_true in Hl|]. intros old Ho Hkey.
    destruct (Z.leb_spec (evaluated_at old) (clock - 300 * 10 ^ 9)); [done|].
    enough (recently_evaluated db clock ws (tk_chain t) (tk_mint t) = true) by congruence.
    apply existsb_exists_elem. exists old. split; [done|].
    unfold evaluation_key, token_key in Hkey. injection Hkey as -> -> ->.
    rewrite !bool_decide_eq_true_2, Z.eqb_refl by done. by apply Z.ltb_lt.
Qed.

(** ** The pipeline from scoring to signals *)

(** The score table after some runs of the scorer, whatever its evidence. *)
Inductive scored_by (numeric : Z → Z → D → option D) : list (ScoreRow D) → Prop :=
  | scored_none : scored_by numeric []
  | scored_run {K} (ev : evidence_db K D) policy scores now ws chain address as_of config scores' r :
      scored_by numeric scores →
      score_wallet numeric ev policy scores now ws chain address as_of config = Some (scores', r) →
      scored_by numeric scores'.
End pass.

Section pipeline.
Set Default Proof Using "Type*".
Context {J D : Type} `{DecimalNumSpec D} (as_strings : J → option (list string)).
Context (from_u64 : Z → D) (min_history : D).
Context (accepts_signal : Signal (D := D) → bool) (accepts_evaluation : Evaluation (D := D) → bool).

Lemma scored_skill numeric (scores : list (ScoreRow D)) :
  scored_by numeric scores → Forall (λ r, skill_col r <= 53) scores.
Proof.
  induction 1 as [|K ev policy scores now ws chain address as_of config scores' r _ IH E]; [done|].
  destruct (score_wallet_step numeric ev policy scores now ws chain address as_of config)
    as (new & r' & E' & Hn & _).
  rewrite E in E'. injection E' as -> _. apply Forall_app. split; [done|].
  eapply Forall_impl; [exact Hn|]. intros row. simpl. lia.
Qed.

(** With the scores the scorer stores, no pass ever emits an entry
    signal: whatever the trades, clusters, snapshots, policy and configuration,
    every evaluation it adds is a rejection. *)
Theorem stored_scores_never_signal numeric (w : world J D) (db : eval_db (D := D)) ws clock now config attempts
    (Hscores : scored_by numeric (w_scores w)) :
  let r := evaluate_due_signals as_strings from_u64 min_history accepts_signal accepts_evaluation
             w db ws clock now config attempts in
  signals r.1 = signals db
  ∧ ∃ new, evaluations r.1 = evaluations db ++ new ∧ Forall (λ e, status e ≠ "accepted") new.
Proof.
  cbv zeta. destruct (evaluate_due_signals _ _ _ _ _ w db ws clock now config attempts) as [db' n] eqn:E.
  apply pass_adds in E as (new & (_ & He & sigs & Hs & Hl) & _ & Hearned & _). cbn [fst].
  apply scored_skill in Hscores. rewrite Forall_forall in Hscores. rewrite Forall_forall in Hearned.
  assert (∀ e, e ∈ new → is_accepted e = false) as Hrej.
  { intros e Hin. destruct (is_accepted e) eqn:Ea; [|done].
    destruct (Hearned e Hin Ea) as (r & Hr & ?). apply Hscores in Hr. lia. }
  assert (List.filter is_accepted new = []) as Hnil.
  { clear -Hrej. induction new as [|e l IH]; cbn [List.filter]; [done|].
    rewrite Hrej by left. apply IH. intros e' ?. apply Hrej. by right. }
  rewrite Hnil in Hl. apply nil_length_inv in Hl as ->. split; [by rewrite Hs, app_nil_r|].
  exists new. split; [done|]. apply Forall_forall. intros e Hin%Hrej. by apply bool_decide_eq_false in Hin.
Qed.
End pipeline.

(** ** Instances *)

Definition strings_of (j : list string) : option (list string) := Some j.

Definition sample_buy (wallet : string) (usd : Z) : TradeRow Qc :=
  MkTrade "solana" "sig" 0 wallet "M" "buy" "0" "0" None (Some (qc_new 10 0)) (Some (qc_new usd 0))
    None (Some 0) 0 None "helius".

Definition score_label (wallet disposition : string) : WalletLabel :=
  WalletLabel.mk 7 "solana" wallet "manual" disposition "" "cli" 100 true None None.

Definition sample_score (wallet : string) (as_of skill : Z) : ScoreRow Qc :=
  MkScore "solana" wallet as_of None None None None skill 80 (qc_new 9 1) (qc_new 0 0) 80 false
    (MkPenalties 0 0 0 0 0) 12 6.

(** Two scored wallets in two clusters, and a watched one that bought more. *)
Definition sample_world (scores : list (ScoreRow Qc)) : world (list string) Qc :=
  MkWorld [MkTokenRow "solana" "M" "graduated" (Some 0) []]
    (MkEvidence [] [] [sample_buy "A" 50; sample_buy "B" 20; sample_buy "C" 900] ∅
       [MkSnapshot "solana" "M" 0 (Some (qc_new 50000 0)) None])
    (MkLabels ∅ [score_label "A" "score"; score_label "B" "score"; score_label "C" "watch"])
    (Clusters.MkClusters [] {[(1, "solana", "A") := MkMember (qc_new 1 0) None;
                              (2, "solana", "B") := MkMember (qc_new 1 0) None;
                              (3, "solana", "C") := MkMember (qc_new 1 0) None]} 4)
    scores.

Definition good_scores_of : list (ScoreRow Qc) :=
  [sample_score "A" 5 75; sample_score "B" 3 90; sample_score "C" 9 99].

Definition sample_pass (scores : list (ScoreRow Qc)) : eval_db (D := Qc) * Z :=
  evaluate_due_signals strings_of qc_u64 (qc_new 8 1) any_signal any_evaluation
    (sample_world scores) (MkDb ∅ [] []) 7 (60 * 10 ^ 9) (60 * 10 ^ 9) SignalsConfig.default
    (λ _, MkAttempt "t" (60 * 10 ^ 9) (λ _, 60 * 10 ^ 9) (60 * 10 ^ 9)).

(** An accepted entry, with the score 2 * 8 + (75 + 80) / 4; the claim is
    given back. *)
Example accepting_pass :
  let (db, n) := sample_pass good_scores_of in
  n = 1 ∧ (score <$> signals db) = [54] ∧ (status <$> evaluations db) = ["accepted"] ∧ claims db = ∅.
Proof. vm_compute. done. Qed.

Lemma excluded_wallets_invisible_witness :
  let clock _ := 60 * 10 ^ 9 in
  let w := sample_world good_scores_of in
  has_bought (restrict w (allowed w clock 7 ChainKind.Solana)) "solana" "M" "C" = false
  ∧ signal_facts strings_of (restrict w (allowed w clock 7 ChainKind.Solana)) clock 7 ChainKind.Solana "M"
      (60 * 10 ^ 9) = signal_facts strings_of w clock 7 ChainKind.Solana "M" (60 * 10 ^ 9).
Proof.
  cbv zeta. split; [vm_compute; reflexivity|].
  destruct (signal_facts strings_of (sample_world good_scores_of) (λ _, 60 * 10 ^ 9) 7 ChainKind.Solana "M"
    (60 * 10 ^ 9)) as [facts|e] eqn:E; [|vm_compute in E; discriminate E].
  apply excluded_wallets_invisible. exact E.
Defined.

Lemma accepted_entry_earned_witness :
  ∃ r, best_scorer (sample_world good_scores_of) (λ _, 0) 7 ChainKind.Solana "M" r ∧ 70 <= skill_col r.
Proof.
  destruct (evaluate_token_signals_impl strings_of qc_u64 (qc_new 8 1) any_signal any_evaluation
    (sample_world good_scores_of) (MkDb ∅ [] []) (λ _, 0) 0 7 ChainKind.Solana "M" (60 * 10 ^ 9)
    SignalsConfig.default None) as [db' [[id|]|e]] eqn:E; [|vm_compute in E; discriminate E..].
  apply accepted_entry_earned in E as (_ & _ & r & Hr & Hs & _). by exists r.
Defined.

(** Keeps every number. *)
Definition any_numeric (_ _ : Z) (d : Qc) : option Qc := Some d.

Definition stored_scores : list (ScoreRow Qc) :=
  let w := sample_world [] in
  default [] (fst <$> score_wallet any_numeric (w_evidence w) (w_policy w) [] 0 7 ChainKind.Solana "A" 10
    ScoringConfig.default).

Lemma stored_scores_never_signal_witness :
  (sc_address <$> stored_scores) = ["A"] ∧ (sample_pass stored_scores).2 = 1
  ∧ signals (sample_pass stored_scores).1 = [].
Proof.
  split_and!; [vm_compute; reflexivity..|].
  apply (stored_scores_never_signal strings_of qc_u64 (qc_new 8 1) any_signal any_evaluation any_numeric
    (sample_world stored_scores) (MkDb ∅ [] [])).
  unfold stored_scores. cbv zeta.
  destruct (score_wallet _ _ _ _ _ _ _ _ _ _) as [[scores r]|] eqn:E; [|vm_compute in E; discriminate E].
  eapply scored_run; [apply scored_none|exact E].
Defined.
