(* ===== verification/TelegramParse.v ===== *)
(** * Parsing of channel messages

    telegram_parse.rs: the URLs, base58 addresses and claim keywords of an
    untrusted message, each with the text around it.  [bs58] is the base58
    decoder (bs58), [sha256_hex] the digest (sha2, hex); [to_lowercase] is
    [str::to_lowercase], whose Unicode tables are a parameter. *)
From stdpp Require Import base list strings.
From stdpp Require Import options.
From S2P Require Import Prelude Text Slices Models.
Local Open Scope string_scope.
Local Open Scope list_scope.
Local Open Scope nat_scope.

Module MentionKind.
Inductive MentionKind := Mint | Wallet | Url.
#[global] Instance MentionKind_eq_dec : EqDecision MentionKind.
Proof. solve_decision. Defined.

Definition as_str (k : MentionKind) : string :=
  match k with Mint => "mint" | Wallet => "wallet" | Url => "url" end.
End MentionKind.
Abbreviation MentionKind := MentionKind.MentionKind.

Record ParsedClaim := MkClaim { claim_type : string; keyword : string; claim_context : string }.

Record ParsedMention := MkMention { kind : MentionKind; extracted_value : string; mention_context : string }.

Record ParsedMessage := MkParsed {
  mentions : list ParsedMention;
  claims : list ParsedClaim;
  media_only : bool;
}.

Definition CLAIM_KEYWORDS : list (string * string) :=
  [("buy", "buy"); ("sell", "sell"); ("entry", "entry"); ("exit", "exit"); ("target", "target");
   ("launch", "launch"); ("partnership", "partnership"); ("narrative", "narrative")].

(** The match with thirty characters on each side. *)
Definition context_around (text : string) (start length : nat) : outcome string :=
  let cs := chars text in
  run! before := slice_to start text in
  run! matched := slice start (start + length) text in
  let start_char := List.length (chars before) in
  let len_chars := List.length (chars matched) in
  let from := start_char - 30 in
  let to := Nat.min (start_char + len_chars + 30) (List.length cs) in
  Done (concat_str (take (to - from) (drop from cs))).

Definition is_ascii_alphanumeric (c : ascii) : bool :=
  let n := N_of_ascii c in byte_in n 48 57 || byte_in n 65 90 || byte_in n 97 122.

Definition is_base58_char (ch : string) : bool :=
  match ch with
  | String c EmptyString =>
      is_ascii_alphanumeric c
      && negb (bool_decide (c = "0"%char)) && negb (bool_decide (c = "O"%char))
      && negb (bool_decide (c = "I"%char)) && negb (bool_decide (c = "l"%char))
  | _ => false
  end.

Definition is_word_char (ch : string) : bool :=
  match ch with
  | String c EmptyString => is_ascii_alphanumeric c || bool_decide (c = "_"%char)
  | _ => false
  end.

Section parse.
Context (bs58 : string → option (list Z)) (to_lowercase : string → string).

Definition is_valid_solana_address (value : string) : bool :=
  (32 <=? String.length value) && (String.length value <=? 44)
  && match bs58 value with Some v => List.length v =? 32 | None => false end.

(** ** Addresses *)

(** A completed run of base58 characters. *)
Definition candidate (text current : string) (start : nat) : outcome (list (string * string)) :=
  if is_valid_solana_address current
  then run! context := context_around text start (String.length current) in Done [(current, context)]
  else Done [].

Fixpoint base58_scan (text : string) (l : list (nat * string)) (current : string) (start : nat)
    : outcome (list (string * string)) :=
  match l with
  | [] => if bool_decide (current = "") then Done [] else candidate text current start
  | (i, ch) :: l =>
      if is_base58_char ch
      then base58_scan text l (current +:+ ch) (if bool_decide (current = "") then i else start)
      else if bool_decide (current = "") then base58_scan text l "" start
      else run! found := candidate text current start in
           run! rest := base58_scan text l "" start in Done (found ++ rest)
  end.

Definition extract_base58_candidates (text : string) : outcome (list (string * string)) :=
  base58_scan text (char_indices text) "" 0.

(** ** URLs *)

Definition ends_url (ch : string) : bool :=
  is_whitespace ch || bool_decide (ch = ")") || bool_decide (ch = "]") || bool_decide (ch = ">").

(** [str::find] of a character. *)
Definition find_char (p : string → bool) (s : string) : option nat :=
  fst <$> find_first (λ ic, p ic.2) (char_indices s).

(** The first http URL, and an https one only when there is none. *)
Definition url_position (s : string) : option nat :=
  match str_find "http://" s with Some pos => Some pos | None => str_find "https://" s end.

Fixpoint urls_from (fuel : nat) (text remainder : string) (offset : nat)
    : outcome (list (string * string)) :=
  match fuel with
  | O => Failed "out of fuel"
  | S fuel =>
      match url_position remainder with
      | None => Done []
      | Some pos =>
          run! after := slice_from pos remainder in
          let end_ := default (String.length after) (find_char ends_url after) in
          run! url := slice_to end_ after in
          run! found :=
            (if bool_decide (url = "") then Done [] else
             run! context := context_around text (offset + pos) (String.length url) in
             Done [(url, context)]) in
          let skip := pos + Nat.max end_ 1 in
          run! remainder := slice_from skip remainder in
          run! rest := urls_from fuel text remainder (offset + skip) in
          Done (found ++ rest)
      end
  end.

Definition extract_urls (text : string) : outcome (list (string * string)) :=
  urls_from (S (String.length text)) text text 0.

(** ** Mentions and claims *)

Definition push_mention (k : MentionKind) (ms : list ParsedMention) (found : string * string)
    : list ParsedMention :=
  if existsb (λ m, bool_decide (kind m = k) && bool_decide (extracted_value m = found.1)) ms
  then ms else ms ++ [MkMention k found.1 found.2].

Definition parse_mentions (trimmed : string) : outcome (list ParsedMention) :=
  run! urls := extract_urls trimmed in
  let ms := fold_left (push_mention MentionKind.Url) urls [] in
  run! candidates := extract_base58_candidates trimmed in
  Done (fold_left (push_mention MentionKind.Mint) candidates ms).

Definition no_word (ch : option string) : bool :=
  negb (default false (is_word_char <$> ch)).

(** The search for one keyword: positions are those of the lowered text. *)
Fixpoint claim_search (fuel : nat) (trimmed lower keyword : string) (search_from : nat)
    : outcome (option string) :=
  match fuel with
  | O => Failed "out of fuel"
  | S fuel =>
      run! rest := slice_from search_from lower in
      match str_find keyword rest with
      | None => Done None
      | Some pos =>
          let absolute := search_from + pos in
          let after_idx := absolute + String.length keyword in
          run! before := slice_to absolute lower in
          run! after := (if String.length lower <=? after_idx then Done "" else slice_from after_idx lower) in
          if no_word (last (chars before)) && no_word (head (chars after))
          then run! context := context_around trimmed absolute (String.length keyword) in
               Done (Some context)
          else claim_search fuel trimmed lower keyword after_idx
      end
  end.

Definition claim_step (trimmed lower : string) (cs : list ParsedClaim) (kw : string * string)
    : outcome (list ParsedClaim) :=
  run! found := claim_search (S (String.length lower)) trimmed lower kw.1 0 in
  Done (match found with Some context => cs ++ [MkClaim kw.2 kw.1 context] | None => cs end).

Definition parse_claims (trimmed : string) : outcome (list ParsedClaim) :=
  fold_outcome (claim_step trimmed (to_lowercase trimmed)) [] CLAIM_KEYWORDS.

Definition parse_message_text (text : option string) : outcome ParsedMessage :=
  match text with
  | None => Done (MkParsed [] [] true)
  | Some text =>
      let trimmed := trim text in
      if bool_decide (trimmed = "") then Done (MkParsed [] [] true) else
      run! ms := parse_mentions trimmed in
      run! cs := parse_claims trimmed in
      Done (MkParsed ms cs false)
  end.

Definition claim_narrative_hints (claim_type context : string) : list NarrativeCategory :=
  let lower := to_lowercase context in
  let matches needle := str_contains needle lower in
  (if matches "ai " || matches " ai" || matches "gpt" || matches "agent" then [NarrativeCategory.Ai] else [])
  ++ (if matches "meme" then [NarrativeCategory.Meme] else [])
  ++ (if matches "depin" || matches "dep_in" then [NarrativeCategory.DepIn] else [])
  ++ (if matches "rwa" then [NarrativeCategory.Rwa] else [])
  ++ (if matches "gaming" || matches "game" then [NarrativeCategory.Gaming] else [])
  ++ (if matches "launchpad" then [NarrativeCategory.Launchpad] else [])
  ++ (if bool_decide (claim_type = "partnership") then [NarrativeCategory.Unknown] else []).
End parse.

(** What [content_hash] digests; a missing text counts as an empty one. *)
Definition content_preimage (channel_key : string) (message_id edit_version : Z) (text : option string) : string :=
  channel_key +:+ le_bytes 8 message_id +:+ le_bytes 4 edit_version +:+ default "" text.

Definition content_hash (sha256_hex : string → string) (channel_key : string) (message_id edit_version : Z)
    (text : option string) : string :=
  sha256_hex (content_preimage channel_key message_id edit_version text).

(** ** The text around a match *)

Lemma chars_app_boundary a b : char_boundary 0 b = true → chars (a +:+ b) = chars a ++ chars b.
Proof.
  destruct b as [|c b]; intros Hb; [by rewrite str_app_nil_r, app_nil_r|].
  apply chars_app_ascii. change (negb (is_continuation c) = true) in Hb. by apply negb_true_iff.
Qed.

(** The context of [v] between [a] and [b]. *)
Definition around (a v b : string) : string :=
  concat_str (drop (List.length (chars a) - 30) (chars a)) +:+ v +:+ concat_str (take 30 (chars b)).

Lemma context_ok a v b : char_boundary 0 (v +:+ b) = true → char_boundary 0 b = true →
  context_around (a +:+ v +:+ b) (String.length a) (String.length v) = Done (around a v b).
Proof.
  intros Hv Hb. unfold context_around, slice_to. rewrite in_bounds_app, str_take_app, slice_app by done.
  rewrite !chars_app_boundary by done. rewrite !length_app. f_equal. unfold around.
  set (A := chars a). set (V := chars v). set (B := chars b).
  rewrite drop_app_le by lia.
  replace (Nat.min (List.length A + List.length V + 30) (List.length A + (List.length V + List.length B)) - (List.length A - 30))
    with (List.length (drop (List.length A - 30) A) + (List.length V + Nat.min 30 (List.length B)))
    by (rewrite length_drop; lia).
  rewrite take_app_add, take_app_add, !concat_str_app. unfold V at 1. rewrite chars_concat. do 2 f_equal.
  destruct (decide (30 <= List.length B)) as [?|?]; [by rewrite Nat.min_l by lia|].
  rewrite Nat.min_r by lia. by rewrite !take_ge by lia.
Qed.

(** ** Runs of base58 characters *)

Definition not_b58 (ch : option string) : Prop := match ch with Some ch => is_base58_char ch = false | None => True end.

(** A maximal run of base58 characters between [pre] and [post]. *)
Record maximal_run (l pre run post : list string) : Prop := {
  run_split : l = pre ++ run ++ post;
  run_some : run ≠ [];
  run_chars : Forall (λ ch, is_base58_char ch = true) run;
  run_before : not_b58 (last pre);
  run_after : not_b58 (head post);
}.

Lemma b58_ascii ch : is_base58_char ch = true → ∃ c, ch = String c "" ∧ is_continuation c = false.
Proof.
  destruct ch as [|c [|d ch]]; [done| |done]. cbn. intros H. exists c. split; [done|].
  apply andb_prop in H as [H _]. apply andb_prop in H as [H _]. apply andb_prop in H as [H _].
  apply andb_prop in H as [H _]. apply ascii_not_continuation. unfold is_ascii. apply N.ltb_lt.
  unfold is_ascii_alphanumeric, byte_in in H. rewrite !orb_true_iff, !andb_true_iff, !N.leb_le in H. lia.
Qed.

Lemma b58_concat l : Forall (λ ch, is_base58_char ch = true) l → l ≠ [] → concat_str l ≠ "".
Proof. intros Hl Hn. destruct l as [|ch l]; [done|]. inversion_clear Hl as [|? ? (c & -> & _)%b58_ascii _]. done. Qed.

Lemma boundary_head s pre post : chars s = pre ++ post → (pre = [] → char_boundary 0 s = true) →
  char_boundary 0 (concat_str post) = true.
Proof.
  intros E Hp. destruct pre as [|ch pre].
  - cbn in E. rewrite <-E, chars_concat. by apply Hp.
  - by apply (boundary_after s (ch :: pre)).
Qed.

Lemma maximal_context s pre run post : maximal_run (chars s) pre run post →
  context_around s (String.length (concat_str pre)) (String.length (concat_str run))
  = Done (around (concat_str pre) (concat_str run) (concat_str post)).
Proof.
  intros [E Hs Hr _ _]. destruct run as [|ch run]; [done|].
  inversion Hr as [|? ? (c & -> & Hc)%b58_ascii _]; subst.
  rewrite <-(chars_concat s) at 1. rewrite E, concat_str_app, concat_str_app. apply context_ok.
  - change (negb (is_continuation c) = true). by rewrite Hc.
  - apply (boundary_after s (pre ++ String c "" :: run)); [by rewrite <-app_assoc|by destruct pre].
Qed.

Section facts.
Context (bs58 : string → option (list Z)) (to_lowercase : string → string).
Set Default Proof Using "Type".

(** What the address search finds from the character at [n] on. *)
Definition found_runs (s : string) (n : nat) (found : list (string * string)) : Prop :=
  ∀ v c, (v, c) ∈ found ↔ ∃ pre run post, maximal_run (chars s) pre run post ∧ n <= List.length pre
    ∧ v = concat_str run ∧ is_valid_solana_address bs58 v = true ∧ c = around (concat_str pre) v (concat_str post).

Lemma candidate_spec s pre run post : maximal_run (chars s) pre run post →
  ∃ found, candidate bs58 s (concat_str run) (String.length (concat_str pre)) = Done found
    ∧ ∀ v c, (v, c) ∈ found ↔ v = concat_str run ∧ is_valid_solana_address bs58 v = true
                              ∧ c = around (concat_str pre) v (concat_str post).
Proof.
  intros Hm. unfold candidate. destruct (is_valid_solana_address bs58 (concat_str run)) eqn:Ev.
  - rewrite (maximal_context _ _ _ _ Hm). eexists. split; [done|]. intros v c. rewrite list_elem_of_singleton. split.
    + intros [= -> ->]. done.
    + intros (-> & _ & ->). done.
  - eexists. split; [done|]. intros v c. split; [intros H; by apply not_elem_of_nil in H|].
    intros (-> & E & _). congruence.
Qed.

(** Two maximal runs that overlap are one. *)
Lemma run_at l pre run post pre' run' post' :
  maximal_run l pre run post → maximal_run l pre' run' post' →
  List.length pre <= List.length pre' <= List.length pre + List.length run →
  pre' = pre ∧ run' = run ∧ post' = post.
Proof.
  intros [E Hs Hr Hb Ha] [E' Hs' Hr' Hb' Ha'] L. rewrite E in E'.
  assert (pre' = pre) as ->.
  { apply app_eq_inv in E' as [(k & Ek & E')|(k & Ek & E')].
    - rewrite Ek in L. rewrite length_app in L. destruct k; [by rewrite app_nil_r in Ek|cbn in L; lia].
    - destruct k as [|x k _] using rev_ind; [by rewrite app_nil_r in Ek|]. exfalso.
      rewrite Ek, last_app in Hb'. rewrite last_snoc in Hb'. cbn in Hb'.
      rewrite Ek, length_app in L. apply app_eq_inv in E' as [(j & Ej & _)|(j & Ej & _)].
      + rewrite Ej, !Forall_app, Forall_singleton in Hr. destruct Hr as [[_ Hx] _]. congruence.
      + rewrite Ej, length_app in L. destruct j as [|y j]; [|cbn in L; lia]. rewrite app_nil_r in Ej.
        rewrite <-Ej, Forall_app, Forall_singleton in Hr. destruct Hr as [_ Hx]. congruence. }
  apply app_inv_head in E'. apply app_eq_inv in E' as [(k & Ek & E')|(k & Ek & E')].
  - destruct k as [|x k]; [by rewrite app_nil_r in Ek; subst|]. exfalso. rewrite E' in Ha'. cbn in Ha'.
    rewrite Ek, Forall_app, Forall_cons in Hr. destruct Hr as (_ & Hx & _). congruence.
  - destruct k as [|x k]; [by rewrite app_nil_r in Ek; subst|]. exfalso. rewrite E' in Ha. cbn in Ha.
    rewrite Ek, Forall_app, Forall_cons in Hr'. destruct Hr' as (_ & Hx & _). congruence.
Qed.

Lemma concat_str_singleton ch : concat_str [ch] = ch.
Proof. apply str_app_nil_r. Qed.

(** No run starts at a character that is not base58. *)
Lemma runs_skip s done ch rest found : chars s = done ++ ch :: rest → is_base58_char ch = false →
  found_runs s (List.length (done ++ [ch])) found → found_runs s (List.length done) found.
Proof.
  intros E Ech Hr v c. rewrite (Hr v c), length_app. cbn.
  split; intros (pre & run & post & Hm & Hn & H); exists pre, run, post; (split_and!; [done| |apply H..]); [lia|].
  destruct (decide (List.length pre = List.length done)) as [El|]; [|lia]. exfalso.
  destruct Hm as [E' Hs Hru _ _]. rewrite E in E'. apply app_inj_1 in E' as [_ E']; [|done].
  destruct run as [|y run]; [done|]. injection E' as <- _. inversion_clear Hru. congruence.
Qed.

(** One run and those after it. *)
Lemma runs_join s done cur ch rest found later : maximal_run (chars s) done cur (ch :: rest) →
  (∀ v c, (v, c) ∈ found ↔ v = concat_str cur ∧ is_valid_solana_address bs58 v = true
                           ∧ c = around (concat_str done) v (concat_str (ch :: rest))) →
  found_runs s (List.length (done ++ cur ++ [ch])) later → found_runs s (List.length done) (found ++ later).
Proof.
  intros Hm Hf Hr v c. rewrite elem_of_app, Hf, (Hr v c), !length_app. cbn. split.
  - intros [(-> & Hv & ->)|(pre & run & post & Hm' & Hn & H)].
    + exists done, cur, (ch :: rest). by split_and!.
    + exists pre, run, post. split_and!; [done|lia|apply H..].
  - intros (pre & run & post & Hm' & Hn & -> & Hv & ->).
    destruct (decide (List.length pre <= List.length done + List.length cur)) as [Hle|Hgt].
    + left. by destruct (run_at _ _ _ _ _ _ _ Hm Hm') as (-> & -> & ->).
    + right. exists pre, run, post. split_and!; try done. lia.
Qed.

(** The last run of a text. *)
Lemma runs_last s done cur found : maximal_run (chars s) done cur [] →
  (∀ v c, (v, c) ∈ found ↔ v = concat_str cur ∧ is_valid_solana_address bs58 v = true
                           ∧ c = around (concat_str done) v (concat_str [])) →
  found_runs s (List.length done) found.
Proof.
  intros Hm Hf v c. rewrite Hf. split.
  - intros (-> & Hv & ->). exists done, cur, []. by split_and!.
  - intros (pre & run & post & Hm' & Hn & -> & Hv & ->).
    destruct (run_at _ _ _ _ _ _ _ Hm Hm') as (-> & -> & ->); [|done]. split; [done|].
    pose proof (run_split _ _ _ _ Hm) as E. rewrite (run_split _ _ _ _ Hm') in E.
    apply (f_equal List.length) in E. rewrite !length_app in E. cbn in E.
    pose proof (run_some _ _ _ _ Hm'). destruct run; [done|cbn in *; lia].
Qed.

Lemma scan_start s l b : base58_scan bs58 s l "" b = base58_scan bs58 s l "" 0.
Proof.
  revert b. induction l as [|[i ch] l IH]; intros b; [done|]. cbn [base58_scan].
  destruct (is_base58_char ch); [by rewrite !bool_decide_eq_true_2|]. by rewrite bool_decide_eq_true_2.
Qed.

Lemma base58_scan_spec s rest done cur start :
  chars s = done ++ cur ++ rest →
  Forall (λ ch, is_base58_char ch = true) cur → not_b58 (last done) →
  (cur ≠ [] → start = String.length (concat_str done)) →
  ∃ found, base58_scan bs58 s (indices_from (String.length (concat_str (done ++ cur))) rest)
             (concat_str cur) start = Done found
    ∧ found_runs s (List.length done) found.
Proof.
  revert done cur start. induction rest as [|ch rest IH]; intros done cur start E Hc Hd Hst.
  - cbn [indices_from base58_scan]. destruct (decide (cur = [])) as [->|Hne].
    + exists []. split; [done|]. intros v c. split; [intros H; by apply not_elem_of_nil in H|].
      intros (pre & run & post & [E' Hs _ _ _] & Hn & _). rewrite E in E'. cbn [app] in E'. rewrite app_nil_r in E'.
      apply (f_equal List.length) in E'. rewrite !length_app in E'. destruct run; [done|cbn in E'; lia].
    + assert (maximal_run (chars s) done cur []) as Hm by (split; [by rewrite E|done..]).
      rewrite bool_decide_eq_false_2, Hst by (done || by apply b58_concat).
      destruct (candidate_spec _ _ _ _ Hm) as (found & -> & Hf). exists found. split; [done|]. by eapply runs_last.
  - cbn [indices_from base58_scan].
    replace (String.length (concat_str (done ++ cur)) + String.length ch)
      with (String.length (concat_str (done ++ cur ++ [ch])))
      by by rewrite app_assoc, (concat_str_app (done ++ cur)), concat_str_singleton, str_length_app.
    destruct (is_base58_char ch) eqn:Ech.
    + replace (concat_str cur +:+ ch) with (concat_str (cur ++ [ch]))
        by by rewrite concat_str_app, concat_str_singleton.
      apply IH; [by rewrite E, <-app_assoc| |done|].
      * apply Forall_app. split; [done|by apply Forall_singleton].
      * intros _. case_bool_decide as Ec; [|apply Hst; by intros ->].
        rewrite concat_str_app, Ec, str_app_nil_r. done.
    + destruct (IH (done ++ cur ++ [ch]) [] start) as (later & Hl & Hr);
        [by rewrite E, <-!app_assoc|done|by rewrite app_assoc, last_snoc|done|].
      rewrite app_nil_r in Hl. cbn [concat_str] in Hl.
      destruct (decide (cur = [])) as [->|Hne].
      * rewrite bool_decide_eq_true_2 by done. exists later. split; [exact Hl|]. by eapply runs_skip.
      * rewrite bool_decide_eq_false_2 by by apply b58_concat.
        assert (maximal_run (chars s) done cur (ch :: rest)) as Hm by (split; done).
        rewrite scan_start in Hl |- *. rewrite Hst by done.
        destruct (candidate_spec _ _ _ _ Hm) as (found & -> & Hf). rewrite Hl. eexists. split; [done|].
        by eapply runs_join.
Qed.

(** The address search never panics and finds exactly the valid maximal runs. *)
Lemma candidates_spec s : ∃ found, extract_base58_candidates bs58 s = Done found ∧ found_runs s 0 found.
Proof. apply (base58_scan_spec s (chars s) [] [] 0); done. Qed.
End facts.

(** ** URLs *)

(** The characters on both sides of a cut are those of the pieces. *)
Lemma chars_pieces s pre post : chars s = pre ++ post → char_boundary 0 (concat_str post) = true →
  chars (concat_str pre) = pre ∧ chars (concat_str post) = post.
Proof.
  intros E Hb. pose proof (chars_app_boundary (concat_str pre) _ Hb) as E'.
  rewrite <-concat_str_app, <-E, chars_concat, E in E'.
  pose proof (proj2 (chars_starts s)) as Hne. rewrite E in Hne. apply Forall_app in Hne as [H1 _].
  pose proof (proj2 (chars_starts (concat_str pre))) as H2.
  assert (∀ k, Forall (λ ch, ch ≠ "") k → concat_str k = "" → k = []) as Hk.
  { intros [|[|c ch] k] Hf; [done| |done]. by inversion_clear Hf. }
  apply app_eq_inv in E' as [(k & Ek & Ep)|(k & Ek & Ep)].
  - apply (f_equal concat_str) in Ek as Ec. rewrite concat_str_app, chars_concat in Ec.
    assert (k = []) as ->.
    { apply Hk; [rewrite Ek in H1; by apply Forall_app in H1 as [_ ?]|].
      apply (f_equal String.length) in Ec. rewrite str_length_app in Ec. destruct (concat_str k); [done|cbn in Ec; lia]. }
    rewrite app_nil_r in Ek. by rewrite <-Ek.
  - apply (f_equal concat_str) in Ek as Ec. rewrite concat_str_app, chars_concat in Ec.
    assert (k = []) as ->.
    { apply Hk; [rewrite Ek in H2; by apply Forall_app in H2 as [_ ?]|].
      apply (f_equal String.length) in Ec. rewrite str_length_app in Ec. destruct (concat_str k); [done|cbn in Ec; lia]. }
    rewrite app_nil_r in Ek. by rewrite Ek.
Qed.

Definition stops (ch : option string) : Prop := match ch with Some ch => ends_url ch = true | None => True end.

Lemma find_char_spec p s : ∃ pre post, chars s = pre ++ post ∧ Forall (λ ch, p ch = false) pre
  ∧ match head post with Some ch => p ch = true | None => True end
  ∧ default (String.length s) (find_char p s) = String.length (concat_str pre).
Proof.
  unfold find_char, char_indices.
  assert (∀ l o, ∃ pre post, l = pre ++ post ∧ Forall (λ ch, p ch = false) pre
    ∧ match head post with Some ch => p ch = true | None => True end
    ∧ default (o + String.length (concat_str l)) (fst <$> find_first (λ ic, p ic.2) (indices_from o l))
      = o + String.length (concat_str pre)) as H.
  2: { pose proof (H (chars s) 0) as Hs. by rewrite chars_concat in Hs. }
  induction l as [|ch l IH]; intros o; [by exists [], []|]. cbn [indices_from find_first]. cbn [snd].
  destruct (p ch) eqn:Ep; [exists [], (ch :: l); split_and!; [done|constructor|done|cbn; lia]|].
  destruct (IH (o + String.length ch)) as (pre & post & -> & Hf & Hh & Hd).
  exists (ch :: pre), post. split_and!; [done|by constructor|done|].
  cbn [concat_str]. rewrite !str_length_app, !Nat.add_assoc. exact Hd.
Qed.

(** A byte that neither continues a character nor starts one that ends a URL. *)
Definition url_byte (c : ascii) : Prop := is_continuation c = false ∧ ∀ x, ends_url (String c x) = false.

Lemma chars_cons c s : ∃ x l, chars (String c s) = String c x :: l.
Proof.
  cbn [chars]. destruct (chars s) as [|[|d ch] l]; [by eexists _, _..|]. destruct (is_continuation d); by eexists _, _.
Qed.

Lemma url_prefix p r pre post : Forall url_byte (String.list_ascii_of_string p) →
  chars (p +:+ r) = pre ++ post → stops (head post) → ∃ x, concat_str pre = p +:+ x.
Proof.
  revert pre. induction p as [|c p IH]; intros pre Hp E Hs; [by eexists|].
  cbn [String.list_ascii_of_string] in Hp. inversion Hp as [|? ? [Hc Hx] Hp']; subst. rewrite str_app_cons in E.
  assert (∀ x l, chars (String c (p +:+ r)) = String c x :: l → ∃ pre', pre = String c x :: pre' ∧ l = pre' ++ post) as Hcut.
  { intros x l El. rewrite El in E. destruct pre as [|y pre]; [|injection E as <- ->; by exists pre].
    cbn [app] in E. rewrite <-E in Hs. cbn [head stops] in Hs. by rewrite Hx in Hs. }
  destruct p as [|d p].
  - destruct (chars_cons c r) as (x & l & El). rewrite str_app_nil_l in Hcut.
    destruct (Hcut x l El) as (pre' & -> & _). exists (x +:+ concat_str pre'). done.
  - inversion Hp' as [|? ? [Hd _] _]; subst.
    pose proof (chars_app_ascii (String c "") d (p +:+ r) Hd) as El.
    destruct (Hcut "" (chars (String d p +:+ r)) El) as (pre' & -> & El').
    destruct (IH pre' Hp' El' Hs) as [x Hx']. exists x. cbn [concat_str]. by rewrite Hx'.
Qed.

Lemma url_byte_scheme p : p = "http://" ∨ p = "https://" → Forall url_byte (String.list_ascii_of_string p).
Proof. intros [->| ->]; repeat constructor; intros [|a [|b [|d x]]]; done. Qed.

Definition is_url (v : string) : Prop := starts_with "http://" v = true ∨ starts_with "https://" v = true.

Lemma url_position_Some s pos : url_position s = Some pos → pos <= String.length s ∧ is_url (str_drop pos s).
Proof.
  unfold url_position, is_url. destruct (str_find "http://" s) as [i|] eqn:E.
  - intros [= <-]. apply str_find_Some in E as (? & ? & _). auto.
  - intros (? & ? & _)%str_find_Some. auto.
Qed.

(** The URL cut from a text that begins with one. *)
Lemma cut_url after : is_url after →
  ∃ pre post, chars after = pre ++ post ∧ Forall (λ ch, ends_url ch = false) pre ∧ stops (head post)
    ∧ default (String.length after) (find_char ends_url after) = String.length (concat_str pre)
    ∧ is_url (concat_str pre) ∧ pre ≠ [].
Proof.
  intros Hu. destruct (find_char_spec ends_url after) as (pre & post & E & Hf & Hs & Hd).
  exists pre, post. assert (is_url (concat_str pre)) as Hp; [|split_and!; try done; intros ->; by destruct Hp].
  destruct Hu as [[r ->]%starts_with_spec|[r ->]%starts_with_spec]; [left|right]; apply starts_with_spec;
    (eapply url_prefix; [|exact E|exact Hs]); apply url_byte_scheme; auto.
Qed.

(** A URL of a text with its context: as long as it goes. *)
Definition url_found (text : string) (vc : string * string) : Prop :=
  ∃ pre post, text = pre +:+ vc.1 +:+ post ∧ is_url vc.1
    ∧ Forall (λ ch, ends_url ch = false) (chars vc.1) ∧ stops (head (chars post)) ∧ vc.2 = around pre vc.1 post.

Lemma boundary_url u b : is_url u → char_boundary 0 (u +:+ b) = true.
Proof. by intros [[r ->]%starts_with_spec|[r ->]%starts_with_spec]. Qed.

Lemma urls_from_spec fuel text a remainder : text = a +:+ remainder → String.length remainder < fuel →
  ∃ l, urls_from fuel text remainder (String.length a) = Done l ∧ Forall (url_found text) l.
Proof.
  revert a remainder. induction fuel as [|fuel IH]; intros a remainder Ht Hf; [lia|]. cbn [urls_from].
  destruct (url_position remainder) as [pos|] eqn:Ep; [|by exists []].
  apply url_position_Some in Ep as [Hpos Hu]. pose proof (take_drop_str pos remainder) as Er.
  set (before := str_take pos remainder) in *. set (after := str_drop pos remainder) in *.
  assert (String.length before = pos) as Hlen by by apply length_str_take.
  destruct (cut_url after Hu) as (pre & post & E & Hpre & Hs & Hd & Hup & Hne).
  assert (after = concat_str pre +:+ concat_str post) as Ea by by rewrite <-concat_str_app, <-E, chars_concat.
  assert (char_boundary 0 (concat_str post) = true) as Hb by by apply (boundary_after after pre).
  destruct (chars_pieces after pre post E Hb) as [E1 E2].
  set (url := concat_str pre) in *. set (rest := concat_str post) in *. clearbody before after.
  assert (slice_from pos remainder = Done after) as ->.
  { unfold slice_from. rewrite <-Er, <-Hlen, in_bounds_app, str_drop_app; [done|]. rewrite Ea. by apply boundary_url. }
  rewrite Hd. assert (slice_to (String.length url) after = Done url) as ->.
  { unfold slice_to. by rewrite Ea, in_bounds_app, str_take_app. }
  assert (url ≠ "") as Hnu by (intros Eu; rewrite Eu in Hup; by destruct Hup).
  rewrite bool_decide_eq_false_2 by done.
  assert (context_around text (String.length a + pos) (String.length url) = Done (around (a +:+ before) url rest)) as ->.
  { rewrite Ht, <-Er, Ea, str_app_assoc, <-Hlen, <-str_length_app. apply context_ok; [by apply boundary_url|done]. }
  assert (0 < String.length url) as Hpos' by (destruct url; [done|cbn; lia]). rewrite Nat.max_l by lia.
  assert (remainder = (before +:+ url) +:+ rest) as Er' by by rewrite <-Er, Ea, str_app_assoc.
  assert (pos + String.length url = String.length (before +:+ url)) as Hskip by by rewrite str_length_app, Hlen.
  rewrite Hskip. assert (slice_from (String.length (before +:+ url)) remainder = Done rest) as ->.
  { unfold slice_from. by rewrite Er', in_bounds_app, str_drop_app. }
  destruct (IH (a +:+ before +:+ url) rest) as (l & Hl & Hall).
  { by rewrite Ht, Er', !str_app_assoc. }
  { rewrite Er', !str_length_app in Hf. lia. }
  rewrite <-str_length_app, Hl. eexists. split; [done|]. constructor; [|done].
  exists (a +:+ before), rest. cbn [fst snd]. rewrite E1, E2. split_and!; try done.
  by rewrite Ht, Er', !str_app_assoc.
Qed.

(** The URL search never panics, ends, and finds URLs only. *)
Lemma extract_urls_spec text : ∃ l, extract_urls text = Done l ∧ Forall (url_found text) l.
Proof. apply (urls_from_spec _ text "" text); [done|lia]. Qed.

(** ** Mentions *)

Definition mention_key (m : ParsedMention) : MentionKind * string := (kind m, extracted_value m).

Lemma push_mention_spec k ms found :
  (∀ m, m ∈ ms → m ∈ push_mention k ms found)
  ∧ (∀ m, m ∈ push_mention k ms found → m ∈ ms ∨ m = MkMention k found.1 found.2)
  ∧ (∃ c, MkMention k found.1 c ∈ push_mention k ms found)
  ∧ (NoDup (mention_key <$> ms) → NoDup (mention_key <$> push_mention k ms found)).
Proof.
  unfold push_mention. set (same := λ m, _ && _). destruct (existsb same ms) eqn:E.
  - apply existsb_exists_elem in E as (m & Hm & Es). split_and!; auto. exists (mention_context m).
    unfold same in Es. bool_prop. destruct m. cbn in *. by subst.
  - rewrite existsb_false_elem in E. split_and!.
    + intros m Hm. apply elem_of_app. by left.
    + intros m [?|?%list_elem_of_singleton]%elem_of_app; auto.
    + exists found.2. apply elem_of_app. right. by left.
    + intros Hn. rewrite fmap_app. apply NoDup_app. split_and!; [done| |apply NoDup_singleton].
      intros key (m & -> & Hm)%list_elem_of_fmap Hk. cbn in Hk. apply list_elem_of_singleton in Hk.
      unfold mention_key in Hk. injection Hk as E1 E2. specialize (E m Hm). unfold same in E.
      by rewrite E1, E2, !bool_decide_eq_true_2 in E.
Qed.

Lemma push_mentions_spec k l ms :
  let r := fold_left (push_mention k) l ms in
  (∀ m, m ∈ ms → m ∈ r) ∧ (∀ m, m ∈ r → m ∈ ms ∨ ∃ f, f ∈ l ∧ m = MkMention k f.1 f.2)
  ∧ (∀ f, f ∈ l → ∃ c, MkMention k f.1 c ∈ r)
  ∧ (NoDup (mention_key <$> ms) → NoDup (mention_key <$> r)).
Proof.
  cbv zeta. revert ms. induction l as [|f l IH]; intros ms; cbn [fold_left].
  { split_and!; auto. intros f Hf. by apply not_elem_of_nil in Hf. }
  destruct (push_mention_spec k ms f) as (P1 & P2 & (c & P3) & P4).
  destruct (IH (push_mention k ms f)) as (I1 & I2 & I3 & I4). split_and!.
  - auto.
  - intros m [[Hm| ->]%P2|(f' & Hf & ->)]%I2; [by left|right; exists f; split; [left|done]|].
    right. exists f'. split; [by right|done].
  - intros f' [->|Hf]%elem_of_cons; [exists c; auto|auto].
  - auto.
Qed.

(** What the mentions of a text are: addresses exactly, URLs soundly. *)
Record mentions_of (bs58 : string → option (list Z)) (s : string) (ms : list ParsedMention) : Prop := {
  no_repeats : NoDup (mention_key <$> ms);
  mints_exact : ∀ v, (∃ c, MkMention MentionKind.Mint v c ∈ ms) ↔
    ∃ pre run post, maximal_run (chars s) pre run post ∧ v = concat_str run ∧ is_valid_solana_address bs58 v = true;
  mint_contexts : ∀ v c, MkMention MentionKind.Mint v c ∈ ms → ∃ pre post, s = pre +:+ v +:+ post ∧ c = around pre v post;
  urls_sound : ∀ v c, MkMention MentionKind.Url v c ∈ ms → url_found s (v, c);
  no_wallets : ∀ v c, (MkMention MentionKind.Wallet v c ∈ ms) → False;
}.

Lemma parse_mentions_spec bs58 s : ∃ ms, parse_mentions bs58 s = Done ms ∧ mentions_of bs58 s ms.
Proof.
  unfold parse_mentions. destruct (extract_urls_spec s) as (us & -> & Hu). rewrite Forall_forall in Hu.
  destruct (candidates_spec bs58 s) as (cs & -> & Hc).
  destruct (push_mentions_spec MentionKind.Url us []) as (U1 & U2 & _ & U4).
  set (urls := fold_left (push_mention MentionKind.Url) us []) in *.
  destruct (push_mentions_spec MentionKind.Mint cs urls) as (C1 & C2 & C3 & C4).
  eexists. split; [done|].
  assert (∀ m, m ∈ urls → ∃ f, f ∈ us ∧ m = MkMention MentionKind.Url f.1 f.2) as HU.
  { intros m [Hm|Hm]%U2; [by apply not_elem_of_nil in Hm|done]. }
  split.
  - apply C4, U4. constructor.
  - intros v. split.
    + intros [c [([? ?] & _ & ?)%HU|([v' c'] & Hin & [= -> ->])]%C2]; [done|].
      apply Hc in Hin as (pre & run & post & Hm & _ & Hv & Hval & _). by exists pre, run, post.
    + intros (pre & run & post & Hm & -> & Hval).
      apply (C3 (concat_str run, around (concat_str pre) (concat_str run) (concat_str post))).
      apply Hc. exists pre, run, post. split_and!; [done|lia|done..].
  - intros v c [([? ?] & _ & ?)%HU|([v' c'] & Hin & [= -> ->])]%C2; [done|].
    apply Hc in Hin as (pre & run & post & Hm & _ & -> & _ & ->). exists (concat_str pre), (concat_str post).
    split; [|done]. by rewrite <-!concat_str_app, <-(run_split _ _ _ _ Hm), chars_concat.
  - intros v c [([v' c'] & Hin & [= -> ->])%HU|([v' c'] & _ & ?)]%C2; [by apply Hu|done].
  - intros v c [([v' c'] & Hin & ?)%HU|([v' c'] & _ & ?)]%C2; done.
Qed.

(** ** Claims *)

(** An occurrence of [k] at [j] between non-word characters. *)
Definition word_bounded (k s : string) (j : nat) : bool :=
  starts_with k (str_drop j s) && no_word (last (chars (str_take j s)))
  && no_word (head (chars (str_drop (j + String.length k) s))).

Definition word_byte (c : ascii) : Prop := is_word_char (String c "") = true ∧ is_ascii c = true.

Definition all_ascii (s : string) : Prop := all_chars is_ascii s = true.

Lemma split_at i (k : string) : i < String.length k → ∃ a c b, k = a +:+ String c b ∧ String.length a = i.
Proof.
  revert i. induction k as [|c k IH]; intros i Hi; [cbn in Hi; lia|].
  destruct i as [|i]; [by exists "", c, k|]. cbn in Hi. destruct (IH i) as (a & d & b & -> & Ha); [lia|].
  exists (String c a), d, b. cbn. by rewrite Ha.
Qed.

(** A keyword is not bounded inside an occurrence of itself. *)
Lemma inside_not_bounded k s a j : Forall word_byte (String.list_ascii_of_string k) →
  starts_with k (str_drop a s) = true → a < j < a + String.length k → word_bounded k s j = false.
Proof.
  intros Hk [r Hr]%starts_with_spec Hj. destruct (split_at (j - a - 1) k) as (x & c & y & -> & Hx); [lia|].
  rewrite list_ascii_app, Forall_app in Hk. destruct Hk as [_ Hc]. cbn in Hc. inversion_clear Hc as [|? ? [Hw Ha] _].
  assert (String.length (str_take a s) = a) as Hla.
  { apply length_str_take. pose proof (length_str_drop a s) as Hl. rewrite Hr, !str_length_app in Hl. cbn in Hl. lia. }
  pose proof (take_drop_str a s) as Es. rewrite Hr in Es. revert Hla Es. generalize (str_take a s). intros p Hla Es.
  unfold word_bounded. assert (str_take j s = (p +:+ x) +:+ String c "") as ->.
  { replace s with (((p +:+ x) +:+ String c "") +:+ (y +:+ r)) by by rewrite <-Es, <-!str_app_assoc.
    replace j with (String.length ((p +:+ x) +:+ String c "")) by (rewrite !str_length_app; cbn; lia).
    apply str_take_app. }
  rewrite last_char_ascii by by apply ascii_not_continuation.
  unfold no_word. cbn [fmap option_fmap option_map default]. rewrite Hw. cbn. by rewrite andb_false_r.
Qed.

Lemma context_outcome text i n : match context_around text i n with
  | Done _ => True | Failed _ => False | Panicked => all_ascii text → ~ (i + n <= String.length text) end.
Proof.
  unfold context_around, slice_to, slice, in_bounds.
  destruct (i <=? String.length text) eqn:E1; cbn [andb]; [|intros _; apply Nat.leb_gt in E1; lia].
  destruct (char_boundary i text) eqn:E2; [|intros Ha; by rewrite ascii_boundary in E2].
  rewrite (proj2 (Nat.leb_le i (i + n))) by lia. cbn [andb].
  destruct (i + n <=? String.length text) eqn:E3; cbn [andb]; [|intros _; apply Nat.leb_gt in E3; lia].
  destruct (char_boundary (i + n) text) eqn:E4; [done|]. intros Ha. by rewrite ascii_boundary in E4.
Qed.

Lemma starts_with_length k s : starts_with k s = true → String.length k <= String.length s.
Proof. intros [r ->]%starts_with_spec. rewrite str_length_app. lia. Qed.

Lemma ascii_in_bounds i s : all_ascii s → i <= String.length s → in_bounds i s = true.
Proof. intros Ha Hi. unfold in_bounds. by rewrite ascii_boundary, andb_true_r, Nat.leb_le. Qed.

(** The answer of the search for a keyword of word bytes. *)
Definition claim_answer (trimmed lower k : string) (r : outcome (option string)) : Prop :=
  match r with
  | Done None => ∀ j, word_bounded k lower j = false
  | Done (Some c) => ∃ j, word_bounded k lower j = true ∧ context_around trimmed j (String.length k) = Done c
  | Failed _ => False
  | Panicked => ~ (all_ascii trimmed ∧ all_ascii lower ∧ String.length trimmed = String.length lower)
  end.

(** An unbounded first occurrence at [from + pos] leaves nothing before its end. *)
Lemma none_before k s from pos : Forall word_byte (String.list_ascii_of_string k) →
  (∀ j, j < from → word_bounded k s j = false) →
  (∀ j, j < pos → starts_with k (str_drop j (str_drop from s)) = false) →
  starts_with k (str_drop (from + pos) s) = true → word_bounded k s (from + pos) = false →
  ∀ j, j < from + pos + String.length k → word_bounded k s j = false.
Proof.
  intros Hw Hbefore Hleast Hs Hat j Hj. destruct (decide (j < from)) as [|Hjf]; [by apply Hbefore|].
  destruct (decide (j < from + pos)) as [Hja|Hja].
  - unfold word_bounded. specialize (Hleast (j - from)). rewrite drop_drop_str in Hleast.
    replace (from + (j - from)) with j in Hleast by lia. rewrite Hleast; [done|lia].
  - destruct (decide (j = from + pos)) as [->|]; [done|]. apply (inside_not_bounded k s (from + pos)); [done|done|lia].
Qed.

Lemma claim_search_spec fuel trimmed lower k from : k ≠ "" → Forall word_byte (String.list_ascii_of_string k) →
  (∀ j, j < from → word_bounded k lower j = false) → String.length lower - from < fuel → from <= String.length lower →
  claim_answer trimmed lower k (claim_search fuel trimmed lower k from).
Proof.
  intros Hk Hw. revert from. induction fuel as [|fuel IH]; intros from Hbefore Hfuel Hfrom; [lia|].
  cbn [claim_search]. unfold slice_from at 1. destruct (in_bounds from lower) eqn:Eb; [|intros (_ & Ha & _)].
  2: { by rewrite ascii_in_bounds in Eb. }
  destruct (str_find k (str_drop from lower)) as [pos|] eqn:Ef.
  2: { intros j. destruct (decide (j < from)) as [|Hj]; [by apply Hbefore|]. unfold word_bounded.
       pose proof (str_find_None _ _ Hk Ef (j - from)) as Hn. rewrite drop_drop_str in Hn.
       replace (from + (j - from)) with j in Hn by lia. by rewrite Hn. }
  apply str_find_Some in Ef as (_ & Hs & Hleast). rewrite drop_drop_str in Hs.
  set (at_ := from + pos) in *. apply starts_with_length in Hs as Hlen. rewrite length_str_drop in Hlen.
  assert (String.length k ≠ 0) as Hk0 by by destruct k.
  unfold slice_to at 1. destruct (in_bounds at_ lower) eqn:Ea; [|intros (_ & Ha & _); rewrite ascii_in_bounds in Ea; [done|done|lia]].
  assert (∀ after, str_drop (at_ + String.length k) lower = after →
    claim_answer trimmed lower k
      (if no_word (last (chars (str_take at_ lower))) && no_word (head (chars after))
       then run! context := context_around trimmed at_ (String.length k) in Done (Some context)
       else claim_search fuel trimmed lower k (at_ + String.length k))) as Hgo.
  { intros after Eafter. destruct (no_word (last (chars (str_take at_ lower))) && no_word (head (chars after))) eqn:En.
    - pose proof (context_outcome trimmed at_ (String.length k)) as Hc.
      destruct (context_around trimmed at_ (String.length k)) as [c|e|] eqn:Ec; [|done|].
      + exists at_. split; [|done]. unfold word_bounded. rewrite Eafter, Hs. exact En.
      + intros (Ht & _ & El). apply (Hc Ht). lia.
    - apply IH; [|lia|lia]. apply none_before; [done..|].
      change (word_bounded k lower at_ = false). unfold word_bounded. by rewrite Hs, Eafter. }
  destruct (String.length lower <=? at_ + String.length k) eqn:El.
  - refine (Hgo "" _). apply Nat.leb_le in El. pose proof (length_str_drop (at_ + String.length k) lower) as Hl.
    revert Hl. destruct (str_drop (at_ + String.length k) lower); [by intros _|cbn; lia].
  - apply Nat.leb_gt in El. unfold slice_from. destruct (in_bounds (at_ + String.length k) lower) eqn:Eo; [exact (Hgo _ eq_refl)|].
    intros (_ & Ha & _). rewrite ascii_in_bounds in Eo; [done|done|lia].
Qed.

(** What the claims of a text are: the keywords that occur as words. *)
Record claims_of (trimmed lower : string) (cs : list ParsedClaim) : Prop := {
  in_keyword_order : keyword <$> cs `sublist_of` CLAIM_KEYWORDS.*1;
  claims_exact : ∀ k ty, (k, ty) ∈ CLAIM_KEYWORDS →
    (∃ c, MkClaim ty k c ∈ cs) ↔ ∃ j, word_bounded k lower j = true;
  claim_contexts : ∀ k ty c, MkClaim ty k c ∈ cs →
    ∃ j, word_bounded k lower j = true ∧ context_around trimmed j (String.length k) = Done c;
}.

Lemma keywords_words k ty : (k, ty) ∈ CLAIM_KEYWORDS → k ≠ "" ∧ Forall word_byte (String.list_ascii_of_string k).
Proof.
  intros H. assert (Forall (λ kw, kw.1 ≠ "" ∧ Forall word_byte (String.list_ascii_of_string kw.1)) CLAIM_KEYWORDS) as Hall.
  { repeat constructor; done. }
  rewrite Forall_forall in Hall. exact (Hall _ H).
Qed.

(** The claims after the keywords [done] of a list without repetitions. *)
Definition claims_after (trimmed lower : string) (done : list (string * string)) (cs : list ParsedClaim) : Prop :=
  keyword <$> cs `sublist_of` done.*1
  ∧ (∀ k ty, (k, ty) ∈ done → (∃ c, MkClaim ty k c ∈ cs) ↔ ∃ j, word_bounded k lower j = true)
  ∧ (∀ k ty c, MkClaim ty k c ∈ cs → ∃ j, word_bounded k lower j = true ∧ context_around trimmed j (String.length k) = Done c).

Lemma claim_step_spec trimmed lower done cs kw : kw.1 ≠ "" → Forall word_byte (String.list_ascii_of_string kw.1) →
  kw.1 ∉ done.*1 → claims_after trimmed lower done cs →
  match claim_step trimmed lower cs kw with
  | Done cs => claims_after trimmed lower (done ++ [kw]) cs
  | Failed _ => False
  | Panicked => ~ (all_ascii trimmed ∧ all_ascii lower ∧ String.length trimmed = String.length lower)
  end.
Proof.
  intros Hk Hw Hfresh (C1 & C2 & C3). destruct kw as [k ty]. cbn [fst] in *. unfold claim_step. cbn [fst snd].
  assert (∀ x ty', (MkClaim ty' k x ∈ cs) → False) as Hnew.
  { intros x ty' Hx. apply Hfresh. eapply elem_of_sublist; [|exact C1].
    apply list_elem_of_fmap. by exists (MkClaim ty' k x). }
  pose proof (claim_search_spec (S (String.length lower)) trimmed lower k 0 Hk Hw) as Hs.
  destruct (claim_search _ _ _ _ _) as [[c|]|e|]; cbn [claim_answer] in Hs; try (apply Hs; lia || (intros; lia)).
  - destruct Hs as (j & Hj & Hc); [intros; lia|lia|lia|]. split_and!.
    + rewrite !fmap_app. by apply sublist_app.
    + intros k' ty' [Hin|Hin]%elem_of_app.
      * rewrite <-(C2 k' ty' Hin). split; intros [x Hx]; exists x; [|apply elem_of_app; by left].
        apply elem_of_app in Hx as [Hx|[= -> ->]%list_elem_of_singleton]; [done|]. exfalso. apply Hfresh.
        apply list_elem_of_fmap. by exists (k, ty).
      * apply list_elem_of_singleton in Hin as [= -> ->]. split; [by exists j|]. intros _. exists c.
        apply elem_of_app. right. by left.
    + intros k' ty' x [Hx|[= -> -> ->]%list_elem_of_singleton]%elem_of_app; [by eapply C3|by exists j].
  - assert (∀ j, word_bounded k lower j = false) as Hn by (apply Hs; intros; lia). split_and!; [| |done].
    + rewrite fmap_app. by apply sublist_inserts_r.
    + intros k' ty' [Hin|[= -> ->]%list_elem_of_singleton]%elem_of_app; [by apply C2|].
      split; [intros [x Hx]; by apply Hnew in Hx|]. intros [j Hj]. by rewrite Hn in Hj.
Qed.

Lemma claim_steps_spec trimmed lower kws done cs : NoDup (done ++ kws).*1 →
  (∀ k ty, (k, ty) ∈ kws → k ≠ "" ∧ Forall word_byte (String.list_ascii_of_string k)) →
  claims_after trimmed lower done cs →
  match fold_outcome (claim_step trimmed lower) cs kws with
  | Done cs => claims_after trimmed lower (done ++ kws) cs
  | Failed _ => False
  | Panicked => ~ (all_ascii trimmed ∧ all_ascii lower ∧ String.length trimmed = String.length lower)
  end.
Proof.
  revert done cs. induction kws as [|[k ty] kws IH]; intros done cs Hnd Hw Hc; [by rewrite app_nil_r|].
  cbn [fold_outcome]. destruct (Hw k ty) as [H1 H2]; [left|].
  assert (k ∉ done.*1) as Hfresh.
  { intros Hin. rewrite fmap_app in Hnd. apply NoDup_app in Hnd as (_ & Hd & _). apply (Hd k Hin). left. }
  pose proof (claim_step_spec trimmed lower done cs (k, ty) H1 H2 Hfresh Hc) as Hs.
  destruct (claim_step trimmed lower cs (k, ty)) as [cs'|e|].
  - replace (done ++ (k, ty) :: kws) with ((done ++ [(k, ty)]) ++ kws) by by rewrite <-app_assoc.
    apply IH; [by rewrite <-app_assoc| |by apply Hs].
    intros k' ty' Hin. apply (Hw k' ty'). by right.
  - by apply Hs.
  - by apply Hs.
Qed.

Lemma parse_claims_spec to_lowercase t :
  match parse_claims to_lowercase t with
  | Done cs => claims_of t (to_lowercase t) cs
  | Failed _ => False
  | Panicked => ~ (all_ascii t ∧ all_ascii (to_lowercase t) ∧ String.length t = String.length (to_lowercase t))
  end.
Proof.
  assert (claims_after t (to_lowercase t) [] []) as H0.
  { split_and!; [constructor|intros ? ? Hin; by apply not_elem_of_nil in Hin|intros ? ? ? Hin; by apply not_elem_of_nil in Hin]. }
  assert (NoDup CLAIM_KEYWORDS.*1) as Hnd by (apply (bool_decide_unpack _); by vm_compute).
  pose proof (claim_steps_spec t (to_lowercase t) CLAIM_KEYWORDS [] [] Hnd keywords_words H0) as H.
  unfold parse_claims. destruct (fold_outcome _ _ _) as [cs|e|]; [|done..]. by destruct H as (C1 & C2 & C3).
Qed.

Lemma ascii_lower_ascii s : all_ascii s → all_ascii (to_ascii_lowercase s) ∧ String.length (to_ascii_lowercase s) = String.length s.
Proof.
  unfold all_ascii, all_chars. induction s as [|c s IH]; [done|]. cbn. intros [Hc Hs]%andb_prop.
  destruct (IH Hs) as [H1 H2]. rewrite H1, H2, andb_true_r. split; [|done].
  revert Hc. clear. destruct c as [[] [] [] [] [] [] [] []]; by vm_compute.
Qed.

(** Claim C40: What a message parses to.  The mentions are exact on addresses and sound on
    URLs, the claims are the keywords that stand as words in the lowered text,
    and only a message outside ASCII can panic the parser. *)
Theorem parsed_message_exact bs58 to_lowercase text
    (Hlower : ∀ s, all_ascii s → to_lowercase s = to_ascii_lowercase s) :
  let t := trim text in
  match parse_message_text bs58 to_lowercase (Some text) with
  | Done p =>
      media_only p = bool_decide (t = "")
      ∧ mentions_of bs58 t (mentions p)
      ∧ claims_of t (to_lowercase t) (claims p)
  | Failed _ => False
  | Panicked => ~ all_ascii t
  end.
Proof.
  cbv zeta. unfold parse_message_text. set (t := trim text).
  destruct (parse_mentions_spec bs58 t) as (ms & Ems & Hms).
  pose proof (parse_claims_spec to_lowercase t) as Hcs. case_bool_decide as Et.
  - rewrite Et in *. assert (parse_mentions bs58 "" = Done []) as E0 by done. rewrite E0 in Ems. injection Ems as <-.
    assert (parse_claims to_lowercase "" = Done []) as E1 by (unfold parse_claims; by rewrite (Hlower "")).
    rewrite E1 in Hcs. done.
  - rewrite Ems. destruct (parse_claims to_lowercase t) as [cs|e|]; [done|done|].
    intros Ha. apply Hcs. rewrite Hlower by done. destruct (ascii_lower_ascii t Ha) as [H1 H2]. by rewrite H2.
Qed.

(** ** Content hashes *)

Lemma le_bytes4_inj_i32 z1 z2 : (- 2 ^ 31 <= z1 < 2 ^ 31)%Z → (- 2 ^ 31 <= z2 < 2 ^ 31)%Z → le_bytes 4 z1 = le_bytes 4 z2 → z1 = z2.
Proof.
  intros H1 H2 H%le_bytes_inj.
  change (256 ^ Z.of_nat 4)%Z with (2 ^ 32)%Z in H.
  apply (f_equal (λ z, (z + 2 ^ 31) mod 2 ^ 32)%Z) in H.
  rewrite !Z.add_mod_idemp_l, !Z.mod_small in H by lia. lia.
Qed.

(** In one channel the digest tells the messages and their texts apart, up to
    a digest collision; across channels it does not, since the parts are
    digested without their lengths. *)
Theorem content_hash_in_channel sha256_hex :
  (∀ channel m1 e1 t1 m2 e2 t2, is_i64 m1 → is_i64 m2 → (- 2 ^ 31 <= e1 < 2 ^ 31)%Z → (- 2 ^ 31 <= e2 < 2 ^ 31)%Z →
     content_hash sha256_hex channel m1 e1 t1 = content_hash sha256_hex channel m2 e2 t2 →
     (m1 = m2 ∧ e1 = e2 ∧ default "" t1 = default "" t2) ∨ ∃ x y, x ≠ y ∧ sha256_hex x = sha256_hex y)
  ∧ content_hash sha256_hex "a" 98 0 (Some (String Ascii.zero "x")) = content_hash sha256_hex "ab" 0 0 (Some "x").
Proof.
  split; [|done]. intros channel m1 e1 t1 m2 e2 t2 Hm1 Hm2 He1 He2. unfold content_hash.
  set (x := content_preimage channel m1 e1 t1). set (y := content_preimage channel m2 e2 t2). intros Hh.
  destruct (decide (x = y)) as [Exy|]; [left|right; by exists x, y].
  unfold x, y, content_preimage in Exy. apply str_app_inj_length in Exy as [_ Exy]; [|done].
  apply str_app_inj_length in Exy as [Em Exy]; [|by rewrite !le_bytes_length].
  apply str_app_inj_length in Exy as [Ee Et]; [|by rewrite !le_bytes_length].
  split_and!; [by apply le_bytes8_inj_i64|by apply le_bytes4_inj_i32|done].
Qed.

(** ** Concrete messages *)

(** A decoder that accepts any 32 characters. *)
Definition any_address (value : string) : option (list Z) := Some (repeat 0%Z 32).

Definition an_address : string := "So1aaaaaaaaaaaaaaaaaaaaaaaaaaaaaaaaaaaaaaaa".

Definition a_message : string := " Huge BUY on " +:+ an_address +:+ " target 10x http://t.me/c/1) rebuy".

Example a_message_parsed :
  (λ p, (mention_key <$> mentions p, keyword <$> claims p)) <$>
    match parse_message_text any_address to_ascii_lowercase (Some a_message) with Done p => Some p | _ => None end
  = Some ([(MentionKind.Url, "http://t.me/c/1"); (MentionKind.Mint, an_address)], ["buy"; "target"]).
Proof. vm_compute. reflexivity. Qed.

Lemma parsed_message_exact_witness :
  ∃ p, parse_message_text any_address to_ascii_lowercase (Some a_message) = Done p
    ∧ claims_of (trim a_message) (to_ascii_lowercase (trim a_message)) (claims p).
Proof.
  pose proof (parsed_message_exact any_address to_ascii_lowercase a_message (λ _ _, eq_refl)) as H. cbv zeta in H.
  destruct (parse_message_text any_address to_ascii_lowercase (Some a_message)) as [p|e|] eqn:E.
  - exists p. split; [reflexivity|apply H].
  - destruct H.
  - exfalso. apply H. vm_compute. reflexivity.
Defined.

(** Only the first of these links is found: the search for an https one starts
    when no http one is left. *)
Theorem https_before_http_lost bs58 lower :
  match parse_mentions bs58 "https://a.io http://b.io https://c.io" with
  | Done ms => extracted_value <$> ms = ["http://b.io"; "https://c.io"]
  | _ => False
  end
  ∧ (lower "K buy" = "k buy" → parse_message_text bs58 lower (Some "K buy") = Panicked).
Proof.
  split; [by vm_compute|]. intros E. unfold parse_message_text. change (trim "K buy") with "K buy".
  rewrite bool_decide_eq_false_2 by done.
  assert (parse_mentions bs58 "K buy" = Done []) as -> by by vm_compute.
  unfold parse_claims. rewrite E. by vm_compute.
Qed.
