(* ===== verification/TelegramIngest.v ===== *)
(** * Channel ingestion

    telegram_ingest.rs and the polling of telegram_client.rs: the stores behind
    [MessageStore], the ingestion of one message, channel errors, and the poll
    of the allowlisted channels.  The database store keeps the tables
    telegram_channels (without the columns nothing here reads),
    telegram_messages and telegram_mentions; what their columns refuse is
    [accepts_message] and [accepts_mention].  The answers of the MTProto client
    (grammers) and the clock are arguments of a poll. *)
From stdpp Require Import base gmap list strings sorting.
From stdpp Require Import options.
From S2P Require Import Prelude Text Slices Rows Models TelegramParse.
Local Open Scope string_scope.
Local Open Scope Z_scope.
Local Open Scope list_scope.

Module ChannelStatus.
Inductive ChannelStatus := Active | FloodWait | Disabled | NotFound | AuthFailed.

Definition as_str (s : ChannelStatus) : string :=
  match s with
  | Active => "active" | FloodWait => "flood_wait" | Disabled => "disabled"
  | NotFound => "not_found" | AuthFailed => "auth_failed"
  end.
End ChannelStatus.

Module TelegramError.
Inductive TelegramError :=
  | FloodWait (seconds : Z) | AuthFailed | ChannelNotFound | ChannelBanned | Network (msg : string).
End TelegramError.
Abbreviation TelegramError := TelegramError.TelegramError.

(** A post, already read from MTProto. *)
Record RawChannelMessage (J : Type) := MkRawMessage {
  channel_key : string;
  message_id : Z;
  edit_version : Z;
  posted_at : option Z;
  observed_at : Z;
  author_ref : option string;
  author_name : option string;
  text : option string;
  deleted : bool;
  has_media : bool;
  raw : J;
}.
Arguments MkRawMessage {_}. Arguments channel_key {_}. Arguments message_id {_}. Arguments edit_version {_}.
Arguments posted_at {_}. Arguments observed_at {_}. Arguments author_ref {_}. Arguments author_name {_}.
Arguments text {_}. Arguments deleted {_}. Arguments has_media {_}. Arguments raw {_}.

Record MentionRow := MkMentionRow {
  mr_channel_key : string;
  mr_message_id : Z;
  mr_edit_version : Z;
  mr_chain : string;
  mr_mint : option string;
  mr_wallet : option string;
  mr_mention_kind : string;
  mr_extracted_value : string;
  mr_context : string;
}.

(** Rows of telegram_mentions with one unique key. *)
Definition same_mention (a b : MentionRow) : bool :=
  bool_decide (mr_channel_key a = mr_channel_key b) && (mr_message_id a =? mr_message_id b)
  && (mr_edit_version a =? mr_edit_version b) && bool_decide (mr_mention_kind a = mr_mention_kind b)
  && bool_decide (mr_extracted_value a = mr_extracted_value b).

(** The key of a message. *)
Definition message_key {J} (m : RawChannelMessage J) : string * Z * Z :=
  (channel_key m, message_id m, edit_version m).

(** ** The store interface *)

Class MessageStore (S J : Type) := {
  insert_message : S → RawChannelMessage J → S * result bool;
  insert_mention : S → MentionRow → S * result bool;
  update_channel : S → string → string → option string → option Z → S * result ();
  channel_allowlisted : S → string → result bool;
}.

(** ** Operations over any store *)

Section ingest.
Context {S J : Type} `{MessageStore S J}.
Context (bs58 : string → option (list Z)) (to_lowercase : string → string).

(** The row of a mention. *)
Definition mention_row (m : RawChannelMessage J) (p : ParsedMention) : MentionRow :=
  let '(mint, wallet) :=
    match kind p with
    | MentionKind.Mint => (Some (extracted_value p), None)
    | MentionKind.Wallet => (None, Some (extracted_value p))
    | MentionKind.Url => (None, None)
    end in
  MkMentionRow (channel_key m) (message_id m) (edit_version m) (ChainKind.as_str ChainKind.Solana)
    mint wallet (MentionKind.as_str (kind p)) (extracted_value p) (mention_context p).

Fixpoint insert_mentions (s : S) (rows : list MentionRow) : S * result () :=
  match rows with
  | [] => (s, ROk ())
  | row :: rows =>
      match insert_mention s row with
      | (s, ROk _) => insert_mentions s rows
      | (s, RErr e) => (s, RErr e)
      end
  end.

Definition ingest_message (s : S) (m : RawChannelMessage J) : S * outcome bool :=
  match channel_allowlisted s (channel_key m) with
  | RErr e => (s, Failed e)
  | ROk false => (s, Done false)
  | ROk true =>
      match insert_message s m with
      | (s, RErr e) => (s, Failed e)
      | (s, ROk false) => (s, Done false)
      | (s, ROk true) =>
          match parse_message_text bs58 to_lowercase (text m) with
          | Done parsed =>
              match insert_mentions s (mention_row m <$> mentions parsed) with
              | (s, ROk _) => (s, Done true)
              | (s, RErr e) => (s, Failed e)
              end
          | Failed e => (s, Failed e)
          | Panicked => (s, Panicked)
          end
      end
  end.

Definition handle_channel_error (s : S) (channel : string) (error : TelegramError) : S * result () :=
  match error with
  | TelegramError.FloodWait _ => update_channel s channel (ChannelStatus.as_str ChannelStatus.FloodWait) None None
  | TelegramError.AuthFailed => update_channel s channel (ChannelStatus.as_str ChannelStatus.AuthFailed) None None
  | TelegramError.ChannelNotFound | TelegramError.ChannelBanned =>
      update_channel s channel (ChannelStatus.as_str ChannelStatus.Disabled) None None
  | TelegramError.Network _ => (s, ROk ())
  end.

(** The maximal runs of decimal digits. *)
Fixpoint digit_runs (s : string) : list string :=
  match s with
  | EmptyString => [""]
  | String c s =>
      let runs := digit_runs s in
      if is_digit c
      then match runs with run :: runs => String c run :: runs | [] => [String c ""] end
      else "" :: runs
  end.

Definition classify_error (raw : string) : TelegramError :=
  let lower := to_lowercase raw in
  let has p := str_contains p lower in
  if has "flood"
  then TelegramError.FloodWait
         (default 5 (last (omap (from_str_radix 10 u64_max)
                             (List.filter (λ s, negb (bool_decide (s = ""))) (digit_runs lower)))))
  else if has "auth" || has "unauthorized" || has "session" then TelegramError.AuthFailed
  else if has "not found" || has "does not exist" then TelegramError.ChannelNotFound
  else if has "banned" || has "restricted" || has "kicked" then TelegramError.ChannelBanned
  else TelegramError.Network raw.

(** ** Concurrency *)

Inductive RuntimeProfile := Low | Scale.

Definition telegram_concurrency (p : RuntimeProfile) : Z := match p with Low => 4 | Scale => 32 end.

Record ConcurrencyLimit := MkLimit { limit : Z }.

Definition new_limit (n : Z) : ConcurrencyLimit := MkLimit (Z.max n 1).

Definition limit_from_profile (p : RuntimeProfile) : ConcurrencyLimit := new_limit (telegram_concurrency p).

(** ** Polling *)

(** A message of the client; its raw value is made of the id and the channel. *)
Record TgMessage := MkTg {
  tg_id : Z;
  tg_date : Z;
  tg_edit_date : option Z;
  tg_sender_id : option Z;
  tg_post_author : option string;
  tg_text : string;
  tg_media : bool;
}.

Context (raw_json : Z → string → J).

Definition raw_message (channel : string) (observed : Z) (t : TgMessage) : RawChannelMessage J :=
  MkRawMessage channel (tg_id t) (match tg_edit_date t with Some _ => 1 | None => 0 end)
    (Some (tg_date t)) observed (pretty <$> tg_sender_id t) (tg_post_author t)
    (if bool_decide (tg_text t = "") then None else Some (tg_text t)) false (tg_media t)
    (raw_json (tg_id t) channel).

(** The messages of a channel, as the iterator hands them out, each with the
    instant it is handled at; a result of [ingest_message] is discarded, a
    panic is not. *)
Fixpoint poll_messages (limit : nat) (s : S) (channel : string) (feed : list (result TgMessage * Z))
    (max_id fetched : Z) : S * outcome (Z * Z) :=
  match limit, feed with
  | O, _ | _, [] => (s, Done (max_id, fetched))
  | _, (RErr e, _) :: _ =>
      match handle_channel_error s channel (classify_error e) with
      | (s, ROk _) => (s, Done (max_id, fetched))
      | (s, RErr e) => (s, Failed e)
      end
  | Datatypes.S limit, (ROk t, at_) :: feed =>
      let max_id := if max_id <? tg_id t then tg_id t else max_id in
      match ingest_message s (raw_message channel at_ t) with
      | (s, Panicked) => (s, Panicked)
      | (s, _) => poll_messages limit s channel feed max_id (fetched + 1)
      end
  end.

(** What the client answers for one channel: whether the name resolves, and
    then its messages; [polled_at] is the instant of the last statement. *)
Record channel_feed := MkFeed {
  resolved : result bool;
  feed : list (result TgMessage * Z);
  polled_at : Z;
}.

Definition poll_channel (s : S) (channel : string) (limit : Z) (f : channel_feed) : S * outcome Z :=
  match resolved f with
  | ROk false =>
      match handle_channel_error s channel TelegramError.ChannelNotFound with
      | (s, ROk _) => (s, Done 0)
      | (s, RErr e) => (s, Failed e)
      end
  | RErr e =>
      match handle_channel_error s channel (classify_error e) with
      | (s, ROk _) => (s, Done 0)
      | (s, RErr e) => (s, Failed e)
      end
  | ROk true =>
      match poll_messages (Z.to_nat (wrap_u32 limit)) s channel (feed f) 0 0 with
      | (s, Done (max_id, fetched)) =>
          match update_channel s channel (ChannelStatus.as_str ChannelStatus.Active)
                  (Some (pretty max_id)) (Some (polled_at f)) with
          | (s, ROk _) => (s, Done fetched)
          | (s, RErr e) => (s, Failed e)
          end
      | (s, Failed e) => (s, Failed e)
      | (s, Panicked) => (s, Panicked)
      end
  end.

Fixpoint poll_all_channels (s : S) (keys : list string) (limit : Z) (feeds : string → channel_feed) (total : Z)
    : S * outcome Z :=
  match keys with
  | [] => (s, Done total)
  | key :: keys =>
      match poll_channel s key limit (feeds key) with
      | (s, Done count) => poll_all_channels s keys limit feeds (wrap_u32 (total + count))
      | (s, Panicked) => (s, Panicked)
      | (s, Failed e) =>
          match handle_channel_error s key (classify_error e) with
          | (s, ROk _) => poll_all_channels s keys limit feeds total
          | (s, RErr e) => (s, Failed e)
          end
      end
  end.
End ingest.

(** ** The database store *)

Record ChannelRow := MkChannel {
  allowlisted : bool;
  status : string;
  last_cursor : option string;
  last_observed_at : option Z;
}.

Record MessageRow (J : Type) := MkMessageRow {
  mg_channel_key : string;
  mg_message_id : Z;
  mg_edit_version : Z;
  mg_posted_at : option Z;
  mg_observed_at : Z;
  mg_author_ref : option string;
  mg_author_name : option string;
  mg_text_content : option string;
  mg_raw : J;
  mg_content_hash : string;
  mg_deleted_at : option Z;
}.
Arguments MkMessageRow {_}. Arguments mg_channel_key {_}. Arguments mg_message_id {_}. Arguments mg_edit_version {_}.
Arguments mg_posted_at {_}. Arguments mg_observed_at {_}. Arguments mg_author_ref {_}. Arguments mg_author_name {_}.
Arguments mg_text_content {_}. Arguments mg_raw {_}. Arguments mg_content_hash {_}. Arguments mg_deleted_at {_}.

Definition row_key {J} (r : MessageRow J) : string * Z * Z := (mg_channel_key r, mg_message_id r, mg_edit_version r).

Definition same_message {J} (a b : MessageRow J) : bool := bool_decide (row_key a = row_key b).

Record PgMessageStore (J : Type) := MkPg {
  channels : gmap string ChannelRow;
  messages : list (MessageRow J);
  mention_rows : list MentionRow;
}.
Arguments MkPg {_}. Arguments channels {_}. Arguments messages {_}. Arguments mention_rows {_}.

Section postgres.
Context {J : Type} (sha256_hex : string → string).
Context (accepts_message : MessageRow J → bool) (accepts_mention : MentionRow → bool).

Definition row_of (m : RawChannelMessage J) : MessageRow J :=
  MkMessageRow (channel_key m) (message_id m) (edit_version m) (posted_at m) (observed_at m) (author_ref m)
    (author_name m) (text m) (raw m)
    (content_hash sha256_hex (channel_key m) (message_id m) (edit_version m) (text m))
    (if deleted m then Some (observed_at m) else None).

(** A channel the first insert creates: allowlisted and active. *)
Definition new_channel : ChannelRow := MkChannel true "active" None None.

Definition pg_insert_message (db : PgMessageStore J) (m : RawChannelMessage J) : PgMessageStore J * result bool :=
  let chs := match channels db !! channel_key m with
             | Some _ => channels db | None => <[channel_key m := new_channel]> (channels db) end in
  let db := MkPg chs (messages db) (mention_rows db) in
  let row := row_of m in
  if negb (accepts_message row) then (db, RErr "insert into telegram_messages failed") else
  (MkPg chs (insert_absent same_message row (messages db)) (mention_rows db),
   ROk (negb (existsb (same_message row) (messages db)))).

Definition pg_insert_mention (db : PgMessageStore J) (row : MentionRow) : PgMessageStore J * result bool :=
  if negb (accepts_mention row) then (db, RErr "insert into telegram_mentions failed") else
  (MkPg (channels db) (messages db) (insert_absent same_mention row (mention_rows db)),
   ROk (negb (existsb (same_mention row) (mention_rows db)))).

(** The column default of [allowlisted] is true. *)
Definition pg_update_channel (db : PgMessageStore J) (channel st : string) (cursor : option string)
    (at_ : option Z) : PgMessageStore J * result () :=
  let row :=
    match channels db !! channel with
    | None => MkChannel true st cursor at_
    | Some r => MkChannel (allowlisted r) st (union cursor (last_cursor r)) (union at_ (last_observed_at r))
    end in
  (MkPg (<[channel := row]> (channels db)) (messages db) (mention_rows db), ROk ()).

Definition pg_channel_allowlisted (db : PgMessageStore J) (channel : string) : result bool :=
  ROk (default false (allowlisted <$> channels db !! channel)).

#[global] Instance PgMessageStore_store : MessageStore (PgMessageStore J) J := {
  insert_message := pg_insert_message;
  insert_mention := pg_insert_mention;
  update_channel := pg_update_channel;
  channel_allowlisted := pg_channel_allowlisted;
}.

(** The channels a round of [telegram_poll_loop] polls; the SELECT has no order. *)
Definition polled_channels (db : PgMessageStore J) : list string :=
  (map_to_list (filter (λ c, allowlisted c.2 = true ∧ status c.2 = "active") (channels db))).*1.

Definition telegram_poll_round (bs58 : string → option (list Z)) (to_lowercase : string → string)
    (raw_json : Z → string → J) (limit : Z) (feeds : string → channel_feed) (db : PgMessageStore J)
    : PgMessageStore J * outcome Z :=
  match polled_channels db with
  | [] => (db, Done 0)
  | keys => poll_all_channels bs58 to_lowercase raw_json db keys limit feeds 0
  end.
End postgres.

(** ** The store in memory *)

Record MemoryMessageStore (J : Type) := MkMemory {
  allowlist : gset string;
  mem_messages : list (RawChannelMessage J);
  mem_mentions : list MentionRow;
  statuses : gmap string string;
  cursors : gmap string string;
}.
Arguments MkMemory {_}. Arguments allowlist {_}. Arguments mem_messages {_}. Arguments mem_mentions {_}.
Arguments statuses {_}. Arguments cursors {_}.

Section memory.
Context {J : Type}.

Definition memory_new (allow : list string) : MemoryMessageStore J := MkMemory (list_to_set allow) [] [] ∅ ∅.

Definition mem_insert_message (s : MemoryMessageStore J) (m : RawChannelMessage J) : MemoryMessageStore J * result bool :=
  if existsb (λ x, bool_decide (message_key x = message_key m)) (mem_messages s) then (s, ROk false)
  else (MkMemory (allowlist s) (mem_messages s ++ [m]) (mem_mentions s) (statuses s) (cursors s), ROk true).

Definition mem_insert_mention (s : MemoryMessageStore J) (row : MentionRow) : MemoryMessageStore J * result bool :=
  if existsb (λ x, same_mention x row) (mem_mentions s) then (s, ROk false)
  else (MkMemory (allowlist s) (mem_messages s) (mem_mentions s ++ [row]) (statuses s) (cursors s), ROk true).

Definition mem_update_channel (s : MemoryMessageStore J) (channel st : string) (cursor : option string)
    (at_ : option Z) : MemoryMessageStore J * result () :=
  (MkMemory (allowlist s) (mem_messages s) (mem_mentions s) (<[channel := st]> (statuses s))
     (match cursor with Some c => <[channel := c]> (cursors s) | None => cursors s end), ROk ()).

Definition mem_channel_allowlisted (s : MemoryMessageStore J) (channel : string) : result bool :=
  ROk (bool_decide (channel ∈ allowlist s)).

#[global] Instance MemoryMessageStore_store : MessageStore (MemoryMessageStore J) J := {
  insert_message := mem_insert_message;
  insert_mention := mem_insert_mention;
  update_channel := mem_update_channel;
  channel_allowlisted := mem_channel_allowlisted;
}.

Definition message_count (s : MemoryMessageStore J) : nat := length (mem_messages s).
Definition mention_count (s : MemoryMessageStore J) : nat := length (mem_mentions s).
End memory.

(** ** Ingestion over a lawful store *)

(** What a store promises: keys are stored once, an insert that stores nothing
    changes nothing, and no insert changes the allowlist. *)
Class LawfulStore (S J : Type) `{MessageStore S J} := {
  has_message : S → string * Z * Z → bool;
  stored_mentions : S → list MentionRow;
  insert_message_law s m : channel_allowlisted s (channel_key m) = ROk true →
    match insert_message s m with
    | (s', ROk b) =>
        b = negb (has_message s (message_key m)) ∧ (b = false → s' = s)
        ∧ has_message s' (message_key m) = true ∧ stored_mentions s' = stored_mentions s
        ∧ ∀ c, channel_allowlisted s' c = channel_allowlisted s c
    | (s', RErr _) => s' = s
    end;
  insert_mention_law s row :
    match insert_mention s row with
    | (s', ROk _) =>
        stored_mentions s' = insert_absent same_mention row (stored_mentions s)
        ∧ (∀ k, has_message s' k = has_message s k)
        ∧ ∀ c, channel_allowlisted s' c = channel_allowlisted s c
    | (s', RErr _) => s' = s
    end;
}.

Section lawful.
Context {S J : Type} `{LawfulStore S J}.
Context (bs58 : string → option (list Z)) (to_lowercase : string → string).
Set Default Proof Using "Type".

Definition store_rows (rows : list MentionRow) (l : list MentionRow) : list MentionRow :=
  fold_left (λ l row, insert_absent same_mention row l) rows l.

Lemma insert_mentions_spec (s : S) rows :
  let '(s', r) := insert_mentions s rows in
  (∀ k, has_message s' k = has_message s k) ∧ (∀ c, channel_allowlisted s' c = channel_allowlisted s c)
  ∧ (r = ROk () → stored_mentions s' = store_rows rows (stored_mentions s)).
Proof.
  revert s. induction rows as [|row rows IH]; intros s; cbn [insert_mentions]; [done|].
  pose proof (insert_mention_law s row) as Hl. destruct (insert_mention s row) as [s1 [b|e]]; [|by subst].
  destruct Hl as (E1 & E2 & E3). specialize (IH s1). destruct (insert_mentions s1 rows) as [s2 r].
  destruct IH as (I1 & I2 & I3). split_and!; [intros; by rewrite I1|intros; by rewrite I2|].
  intros Er. rewrite (I3 Er), E1. done.
Qed.

(** A message that is there stays as it is. *)
Lemma ingest_again (s : S) (m : RawChannelMessage J) : has_message s (message_key m) = true →
  (ingest_message bs58 to_lowercase s m).1 = s
  ∧ ∀ b, (ingest_message bs58 to_lowercase s m).2 = Done b → b = false.
Proof.
  intros Hh. unfold ingest_message. destruct (channel_allowlisted s (channel_key m)) as [[]|e] eqn:Ha.
  - pose proof (insert_message_law s m Ha) as Hl. destruct (insert_message s m) as [s1 [b|e]]; [|by subst].
    destruct Hl as (Eb & Hs & _). rewrite Hh in Eb. cbn in Eb. subst b. rewrite (Hs eq_refl).
    split; [done|]. by intros b [= <-].
  - split; [done|]. by intros b [= <-].
  - done.
Qed.

Lemma parse_never_fails t e : parse_message_text bs58 to_lowercase t ≠ Failed e.
Proof.
  unfold parse_message_text. destruct t as [t|]; [|done]. case_bool_decide; [done|].
  destruct (parse_mentions_spec bs58 (trim t)) as (ms & -> & _).
  pose proof (parse_claims_spec to_lowercase (trim t)) as Hc. by destruct (parse_claims to_lowercase (trim t)).
Qed.

(** What one ingestion does, and that the message never counts again.  A panic
    of the parser comes after the message is stored and before its mentions
    are, so they are lost: a redelivery stores nothing. *)
Theorem ingested_once (s : S) (m : RawChannelMessage J) :
  let '(s', r) := ingest_message bs58 to_lowercase s m in
  let parsed := parse_message_text bs58 to_lowercase (text m) in
  match r with
  | Done true =>
      channel_allowlisted s (channel_key m) = ROk true
      ∧ has_message s (message_key m) = false ∧ has_message s' (message_key m) = true
      ∧ ∃ p, parsed = Done p ∧ stored_mentions s' = store_rows (mention_row m <$> mentions p) (stored_mentions s)
  | Done false => s' = s
      ∧ (channel_allowlisted s (channel_key m) = ROk false ∨ has_message s (message_key m) = true)
  | Panicked => parsed = Panicked ∧ has_message s' (message_key m) = true ∧ stored_mentions s' = stored_mentions s
  | Failed _ => s' = s ∨ has_message s' (message_key m) = true
  end
  ∧ (∀ c, channel_allowlisted s' c = channel_allowlisted s c)
  ∧ (has_message s' (message_key m) = true → ∀ m', message_key m' = message_key m →
       (ingest_message bs58 to_lowercase s' m').1 = s'
       ∧ ∀ b, (ingest_message bs58 to_lowercase s' m').2 = Done b → b = false).
Proof.
  assert (∀ s' : S, has_message s' (message_key m) = true → ∀ m', message_key m' = message_key m →
    (ingest_message bs58 to_lowercase s' m').1 = s'
    ∧ ∀ b, (ingest_message bs58 to_lowercase s' m').2 = Done b → b = false) as Hagain.
  { intros s' Hh m' Em. apply ingest_again. by rewrite Em. }
  unfold ingest_message at 1. destruct (channel_allowlisted s (channel_key m)) as [[]|e] eqn:Ha;
    [|by split_and!; auto|by split_and!; auto].
  pose proof (insert_message_law s m Ha) as Hl. destruct (insert_message s m) as [s1 [b|e]]; [|subst; by split_and!; auto].
  destruct Hl as (Eb & Hs & Hh & Hm & Hc). destruct b.
  2: { rewrite (Hs eq_refl). split_and!; auto. right. by destruct (has_message s (message_key m)). }
  destruct (parse_message_text bs58 to_lowercase (text m)) as [p|e|] eqn:Ep; [|by apply parse_never_fails in Ep|by split_and!; auto].
  pose proof (insert_mentions_spec s1 (mention_row m <$> mentions p)) as Hi.
  destruct (insert_mentions s1 (mention_row m <$> mentions p)) as [s2 [[]|e]]; destruct Hi as (I1 & I2 & I3).
  - split_and!; [done|by destruct (has_message s (message_key m))|by rewrite I1| |intros; by rewrite I2|apply Hagain].
    exists p. split; [done|]. by rewrite (I3 eq_refl), Hm.
  - split_and!; [right; by rewrite I1|intros; by rewrite I2|apply Hagain].
Qed.
End lawful.

(** ** Both stores are lawful *)

Lemma same_mention_sym a b : same_mention a b = same_mention b a.
Proof.
  unfold same_mention.
  rewrite (bool_decide_ext (mr_channel_key a = _) (mr_channel_key b = mr_channel_key a)) by naive_solver.
  rewrite (bool_decide_ext (mr_mention_kind a = _) (mr_mention_kind b = mr_mention_kind a)) by naive_solver.
  rewrite (bool_decide_ext (mr_extracted_value a = _) (mr_extracted_value b = mr_extracted_value a)) by naive_solver.
  by rewrite (Z.eqb_sym (mr_message_id a)), (Z.eqb_sym (mr_edit_version a)).
Qed.

Section stores.
Context {J : Type} (sha256_hex : string → string).
Context (accepts_message : MessageRow J → bool) (accepts_mention : MentionRow → bool).
Set Default Proof Using "Type".
#[local] Existing Instance PgMessageStore_store.

Definition pg_has_message (db : PgMessageStore J) (k : string * Z * Z) : bool :=
  existsb (λ r, bool_decide (k = row_key r)) (messages db).

Lemma same_message_refl (r : MessageRow J) : same_message r r = true.
Proof. by apply bool_decide_eq_true. Qed.

#[global] Program Instance pg_lawful :
    LawfulStore (H := PgMessageStore_store sha256_hex accepts_message accepts_mention) (PgMessageStore J) J :=
  { has_message := pg_has_message; stored_mentions := mention_rows }.
Next Obligation.
  intros db m Ha. cbn in Ha |- *. unfold pg_channel_allowlisted in Ha. unfold pg_insert_message.
  destruct (channels db !! channel_key m) as [row|] eqn:Ec; [|done].
  destruct (accepts_message _); cbn [negb]; [|by destruct db].
  set (r := row_of sha256_hex m).
  assert (pg_has_message db (message_key m) = existsb (same_message r) (messages db)) as -> by done.
  split_and!; [done| | |done|done].
  - intros E%negb_false_iff. unfold insert_absent. rewrite E. by destruct db.
  - exact (insert_absent_exists same_message r (messages db) (same_message_refl r)).
Qed.
Next Obligation.
  intros db row. cbn. unfold pg_insert_mention. by destruct (accepts_mention row).
Qed.

Definition mem_has_message (s : MemoryMessageStore J) (k : string * Z * Z) : bool :=
  existsb (λ x, bool_decide (message_key x = k)) (mem_messages s).

#[global] Program Instance mem_lawful : LawfulStore (MemoryMessageStore J) J :=
  { has_message := mem_has_message; stored_mentions := mem_mentions }.
Next Obligation.
  intros s m _. cbn. unfold mem_insert_message, mem_has_message.
  destruct (existsb _ (mem_messages s)) eqn:E; [by split_and!|]. split_and!; try done.
  cbn [mem_messages]. rewrite existsb_app. cbn [existsb]. rewrite bool_decide_eq_true_2 by done. apply orb_true_r.
Qed.
Next Obligation.
  intros s row. cbn. unfold mem_insert_mention, insert_absent.
  assert (existsb (λ x, same_mention x row) (mem_mentions s) = existsb (same_mention row) (mem_mentions s)) as ->.
  { induction (mem_mentions s) as [|x l IH]; [done|]. cbn [existsb]. by rewrite IH, same_mention_sym. }
  by destruct (existsb _ _).
Qed.
End stores.

(** ** Stores that answer alike *)

Section simulation.
Context {S1 S2 J : Type} `{M1 : MessageStore S1 J} `{M2 : MessageStore S2 J}.
Context (R : S1 → S2 → Prop) (known : string → Prop) (fed : RawChannelMessage J → Prop).
Set Default Proof Using "Type*".

(** Two answers with related states. *)
Definition related {A} (x : S1 * A) (y : S2 * A) : Prop := R x.1 y.1 ∧ x.2 = y.2.

Context (R_allowed : ∀ s1 s2 c, R s1 s2 → channel_allowlisted s1 c = channel_allowlisted s2 c).
Context (R_message : ∀ s1 s2 m, R s1 s2 → fed m → channel_allowlisted s1 (channel_key m) = ROk true →
  related (insert_message s1 m) (insert_message s2 m)).
Context (R_mention : ∀ s1 s2 m p, R s1 s2 → fed m → related (insert_mention s1 (mention_row m p)) (insert_mention s2 (mention_row m p))).
Context (R_update : ∀ s1 s2 c st cursor at_, R s1 s2 → known c →
  related (update_channel s1 c st cursor at_) (update_channel s2 c st cursor at_)).
Context (bs58 : string → option (list Z)) (to_lowercase : string → string) (raw_json : Z → string → J).

Lemma sim_mentions m ps s1 s2 : R s1 s2 → fed m →
  related (insert_mentions s1 (mention_row m <$> ps)) (insert_mentions s2 (mention_row m <$> ps)).
Proof.
  intros Hr Hm. revert s1 s2 Hr. induction ps as [|p ps IH]; intros s1 s2 Hr; [done|]. cbn [fmap list_fmap insert_mentions].
  destruct (R_mention s1 s2 m p Hr Hm) as [Hr' E]. destruct (insert_mention s1 _) as [t1 r1], (insert_mention s2 _) as [t2 r2].
  cbn in *. subst r2. destruct r1; [by apply IH|done].
Qed.

Lemma sim_ingest m s1 s2 : R s1 s2 → fed m →
  related (ingest_message bs58 to_lowercase s1 m) (ingest_message bs58 to_lowercase s2 m).
Proof.
  intros Hr Hk. unfold ingest_message. pose proof (R_allowed s1 s2 (channel_key m) Hr) as Ea. rewrite <-Ea.
  destruct (channel_allowlisted s1 (channel_key m)) as [[]|e] eqn:E1; [|done..].
  destruct (R_message s1 s2 m Hr Hk E1) as [Hr' E]. destruct (insert_message s1 m) as [t1 r1], (insert_message s2 m) as [t2 r2].
  cbn in *. subst r2. destruct r1 as [[]|]; [|done..]. destruct (parse_message_text _ _ _) as [p| |]; [|done..].
  destruct (sim_mentions m (mentions p) t1 t2 Hr' Hk) as [Hr'' E].
  destruct (insert_mentions t1 _) as [u1 q1], (insert_mentions t2 _) as [u2 q2]. cbn in *. subst q2. by destruct q1.
Qed.

Lemma sim_error s1 s2 c e : R s1 s2 → known c → related (handle_channel_error s1 c e) (handle_channel_error s2 c e).
Proof. intros Hr Hk. destruct e; cbn [handle_channel_error]; (by apply R_update) || done. Qed.

(** The messages of a channel's feed. *)
Definition fed_by (c : string) (feed : list (result TgMessage * Z)) : Prop :=
  ∀ t at_, (ROk t, at_) ∈ feed → fed (raw_message raw_json c at_ t).

Lemma sim_messages limit c feed s1 s2 i n : R s1 s2 → known c → fed_by c feed →
  related (poll_messages bs58 to_lowercase raw_json limit s1 c feed i n)
          (poll_messages bs58 to_lowercase raw_json limit s2 c feed i n).
Proof.
  intros Hr Hk. revert feed s1 s2 i n Hr. induction limit as [|limit IH]; intros feed s1 s2 i n Hr Hf; [done|].
  destruct feed as [|[[t|e] at_] feed]; [done| |]; cbn [poll_messages].
  - destruct (sim_ingest (raw_message raw_json c at_ t) s1 s2 Hr (Hf t at_ ltac:(left))) as [Hr' E].
    destruct (ingest_message _ _ s1 _) as [t1 r1], (ingest_message _ _ s2 _) as [t2 r2]. cbn in *. subst r2.
    destruct r1; [apply IH; [done|]; intros ???; apply Hf; by right..|done].
  - destruct (sim_error s1 s2 c (classify_error to_lowercase e) Hr Hk) as [Hr' E].
    destruct (handle_channel_error s1 c _) as [t1 r1], (handle_channel_error s2 c _) as [t2 r2]. cbn in *. subst r2.
    by destruct r1.
Qed.

Lemma sim_channel c limit f s1 s2 : R s1 s2 → known c → fed_by c (feed f) →
  related (poll_channel bs58 to_lowercase raw_json s1 c limit f) (poll_channel bs58 to_lowercase raw_json s2 c limit f).
Proof.
  intros Hr Hk Hf. unfold poll_channel.
  assert (∀ e, related
    (match handle_channel_error s1 c e with (s, ROk _) => (s, Done 0) | (s, RErr e) => (s, Failed e) end)
    (match handle_channel_error s2 c e with (s, ROk _) => (s, Done 0) | (s, RErr e) => (s, Failed e) end)) as Herr.
  { intros e. destruct (sim_error s1 s2 c e Hr Hk) as [Hr' E].
    destruct (handle_channel_error s1 c e) as [t1 r1], (handle_channel_error s2 c e) as [t2 r2]. cbn in *. subst r2.
    by destruct r1. }
  destruct (resolved f) as [[]|e]; [|apply Herr..].
  destruct (sim_messages (Z.to_nat (wrap_u32 limit)) c (feed f) s1 s2 0 0 Hr Hk Hf) as [Hr' E].
  destruct (poll_messages _ _ _ _ s1 _ _ _ _) as [t1 r1], (poll_messages _ _ _ _ s2 _ _ _ _) as [t2 r2]. cbn in *. subst r2.
  destruct r1 as [[i n]|e|]; [|done..].
  destruct (R_update t1 t2 c (ChannelStatus.as_str ChannelStatus.Active) (Some (pretty i)) (Some (polled_at f)) Hr' Hk) as [Hr'' E].
  destruct (update_channel t1 _ _ _ _) as [u1 q1], (update_channel t2 _ _ _ _) as [u2 q2]. cbn in *. subst q2. by destruct q1.
Qed.

Lemma sim_all keys limit feeds s1 s2 n : R s1 s2 → Forall (λ c, known c ∧ fed_by c (feed (feeds c))) keys →
  related (poll_all_channels bs58 to_lowercase raw_json s1 keys limit feeds n)
          (poll_all_channels bs58 to_lowercase raw_json s2 keys limit feeds n).
Proof.
  intros Hr Hk. revert s1 s2 n Hr. induction Hk as [|c keys [Hc Hf] _ IH]; intros s1 s2 n Hr; [done|]. cbn [poll_all_channels].
  destruct (sim_channel c limit (feeds c) s1 s2 Hr Hc Hf) as [Hr' E].
  destruct (poll_channel _ _ _ s1 _ _ _) as [t1 r1], (poll_channel _ _ _ s2 _ _ _) as [t2 r2]. cbn in *. subst r2.
  destruct r1 as [k|e|]; [by apply IH| |done].
  destruct (sim_error t1 t2 c (classify_error to_lowercase e) Hr' Hc) as [Hr'' E].
  destruct (handle_channel_error t1 c _) as [u1 q1], (handle_channel_error t2 c _) as [u2 q2]. cbn in *. subst q2.
  destruct q1; [by apply IH|done].
Qed.
End simulation.

(** ** The database refines the store in memory *)

(** The states correspond: the same allowlist, messages and mentions, and the
    statuses and cursors the memory has. *)
Record simulates {J} (sha256_hex : string → string) (db : PgMessageStore J) (s : MemoryMessageStore J) : Prop := {
  same_allowlist : ∀ c, c ∈ allowlist s ↔ default false (allowlisted <$> channels db !! c) = true;
  same_messages : messages db = row_of sha256_hex <$> mem_messages s;
  same_mentions : mention_rows db = mem_mentions s;
  same_status : ∀ c st, statuses s !! c = Some st → status <$> channels db !! c = Some st;
  same_cursor : ∀ c, cursors s !! c = channels db !! c ≫= last_cursor;
}.

Definition everything {A} (_ : A) : bool := true.

Section refinement.
Context {J : Type} (sha256_hex : string → string).
Context (accepts_message : MessageRow J → bool) (accepts_mention : MentionRow → bool).
Context (bs58 : string → option (list Z)) (to_lowercase : string → string) (raw_json : Z → string → J).
Set Default Proof Using "Type".
#[local] Instance pg : MessageStore (PgMessageStore J) J := PgMessageStore_store sha256_hex accepts_message accepts_mention.

(** The database refuses neither the row of the message nor those of its mentions. *)
Definition accepted (m : RawChannelMessage J) : Prop :=
  accepts_message (row_of sha256_hex m) = true ∧ ∀ p, accepts_mention (mention_row m p) = true.

Definition known_in (keys : list string) (db : PgMessageStore J) (s : MemoryMessageStore J) : Prop :=
  simulates sha256_hex db s ∧ ∀ c, c ∈ keys → is_Some (channels db !! c).

Lemma known_message keys db s m : known_in keys db s → accepted m → channel_allowlisted db (channel_key m) = ROk true →
  related (known_in keys) (insert_message db m) (insert_message s m).
Proof.
  intros [[S1 S2 S3 S4 S5] Hk] [Hm _] Ha. cbn in Ha |- *. unfold pg_channel_allowlisted in Ha.
  unfold pg_insert_message, mem_insert_message. rewrite Hm. cbn [negb].
  destruct (channels db !! channel_key m) as [row|] eqn:Ec; [|done].
  assert (existsb (λ x, bool_decide (message_key x = message_key m)) (mem_messages s)
    = existsb (same_message (row_of sha256_hex m)) (messages db)) as ->.
  { rewrite S2. clear S2. induction (mem_messages s) as [|x l IH]; [done|]. cbn [existsb fmap list_fmap]. rewrite IH.
    apply (f_equal (λ b, b || _)). apply bool_decide_ext. split; intros E; symmetry; exact E. }
  unfold insert_absent. destruct (existsb _ _); (split; [|done]); (split; [|done]); split; try done.
  cbn. by rewrite S2, fmap_app.
Qed.

Lemma known_update keys db s c st cursor at_ : known_in keys db s → c ∈ keys →
  related (known_in keys) (update_channel db c st cursor at_) (update_channel s c st cursor at_).
Proof.
  intros [[S1 S2 S3 S4 S5] Hk] Hc. destruct (Hk c Hc) as [row Ec]. cbn. unfold pg_update_channel, mem_update_channel.
  rewrite Ec. split; [|done]. cbn. split; [split|]; cbn; try done.
  - intros x. rewrite S1. destruct (decide (x = c)) as [->|]; [by rewrite lookup_insert_eq, Ec|by rewrite lookup_insert_ne].
  - intros x st'. destruct (decide (x = c)) as [->|]; [by rewrite !lookup_insert_eq|].
    rewrite !lookup_insert_ne by done. apply S4.
  - intros x. destruct (decide (x = c)) as [->|].
    + rewrite lookup_insert_eq. cbn. destruct cursor as [k|].
      { rewrite lookup_insert_eq. by destruct (last_cursor row). }
      rewrite S5, Ec. cbn. by destruct (last_cursor row).
    + rewrite (lookup_insert_ne (channels db)) by done. rewrite <-S5. destruct cursor; [by rewrite lookup_insert_ne|done].
  - intros x Hx. destruct (decide (x = c)) as [->|]; [by rewrite lookup_insert_eq|]. rewrite lookup_insert_ne by done. by apply Hk.
Qed.

Lemma known_mention keys db s row : known_in keys db s → accepts_mention row = true →
  related (known_in keys) (insert_mention db row) (insert_mention s row).
Proof.
  intros [[S1 S2 S3 S4 S5] Hk] Ha. cbn. unfold pg_insert_mention, mem_insert_mention. rewrite Ha. cbn [negb].
  assert (existsb (λ x, same_mention x row) (mem_mentions s) = existsb (same_mention row) (mention_rows db)) as ->.
  { rewrite S3. clear S3. induction (mem_mentions s) as [|x l IH]; [done|]. cbn [existsb]. by rewrite IH, same_mention_sym. }
  unfold insert_absent. destruct (existsb _ _); (split; [|done]); (split; [|done]); split; try done.
  cbn. by rewrite S3.
Qed.

End refinement.

(** ** Rounds of polling *)

(** A channel the next round polls. *)
Definition pollable {J} (db : PgMessageStore J) (c : string) : Prop :=
  ∃ row, channels db !! c = Some row ∧ allowlisted row = true ∧ status row = "active".

Section rounds.
Context {J : Type} (sha256_hex : string → string).
Context (accepts_message : MessageRow J → bool) (accepts_mention : MentionRow → bool).
Context (bs58 : string → option (list Z)) (to_lowercase : string → string) (raw_json : Z → string → J).
Set Default Proof Using "Type".
#[local] Instance pg_store : MessageStore (PgMessageStore J) J :=
  PgMessageStore_store sha256_hex accepts_message accepts_mention.

(** What polling [keys] may have done to [db0]. *)
Record scoped (keys : list string) (db0 db : PgMessageStore J) : Prop := {
  flags_kept : ∀ c, allowlisted <$> channels db !! c = allowlisted <$> channels db0 !! c;
  others_kept : ∀ c, c ∉ keys → channels db !! c = channels db0 !! c;
  rows_scoped : ∃ new, messages db = messages db0 ++ new ∧ Forall (λ r, mg_channel_key r ∈ keys) new;
  keys_unique : unique_rows same_message (messages db0) → unique_rows same_message (messages db);
}.

Lemma scoped_message keys db0 db m : scoped keys db0 db → channel_key m ∈ keys →
  channel_allowlisted db (channel_key m) = ROk true → scoped keys db0 (insert_message db m).1.
Proof.
  intros [F1 F2 (new & E & Hf) F4] Hk Ha. cbn in Ha |- *. unfold pg_channel_allowlisted in Ha. unfold pg_insert_message.
  destruct (channels db !! channel_key m) as [row|] eqn:Ec; [|done].
  destruct (accepts_message _); cbn [negb fst]; [|split; try done; by exists new].
  split; cbn; [done|done| |].
  - unfold insert_absent. destruct (existsb _ _); [by exists new|]. exists (new ++ [row_of sha256_hex m]).
    rewrite E, app_assoc. split; [done|]. apply Forall_app. split; [done|by apply Forall_singleton].
  - intros Hu. apply insert_absent_unique; [|by apply F4]. intros a b. unfold same_message. by apply bool_decide_ext.
Qed.

Lemma scoped_mention keys db0 db row : scoped keys db0 db → scoped keys db0 (insert_mention db row).1.
Proof. intros [F1 F2 F3 F4]. cbn. unfold pg_insert_mention. destruct (accepts_mention row); by split. Qed.

Lemma scoped_update keys db0 db c st cursor at_ : scoped keys db0 db → c ∈ keys → is_Some (channels db0 !! c) →
  scoped keys db0 (update_channel db c st cursor at_).1.
Proof.
  intros [F1 F2 F3 F4] Hc [row0 E0]. cbn. unfold pg_update_channel. specialize (F1 c) as Fc. rewrite E0 in Fc.
  destruct (channels db !! c) as [row|] eqn:Ec; [|done]. split; cbn; [| |done|done].
  - intros x. destruct (decide (x = c)) as [->|]; [|by rewrite lookup_insert_ne].
    rewrite lookup_insert_eq. cbn. rewrite E0. exact Fc.
  - intros x Hx. rewrite lookup_insert_ne by (by intros ->). by apply F2.
Qed.

Lemma scoped_poll keys limit feeds db0 n : (∀ c, c ∈ keys → is_Some (channels db0 !! c)) →
  scoped keys db0 (poll_all_channels bs58 to_lowercase raw_json db0 keys limit feeds n).1.
Proof.
  intros Hk. destruct (sim_all (λ s1 s2, s1 = s2 ∧ scoped keys db0 s1) (λ c, c ∈ keys) (λ m, channel_key m ∈ keys)) with (bs58 := bs58)
    (to_lowercase := to_lowercase) (raw_json := raw_json) (keys := keys) (limit := limit) (feeds := feeds) (n := n)
    (s1 := db0) (s2 := db0) as [[_ H] _]; [| | | | | |exact H].
  - by intros s1 ? c [-> _].
  - intros s1 ? m [-> Hs] Hc Ha. split; [|done]. split; [done|]. by apply scoped_message.
  - intros s1 ? m p [-> Hs] _. split; [|done]. split; [done|]. by apply scoped_mention.
  - intros s1 ? c st cursor at_ [-> Hs] Hc. split; [|done]. split; [done|]. apply scoped_update; [done..|by apply Hk].
  - split; [done|]. split; try done. exists []. by rewrite app_nil_r.
  - by apply Forall_forall; intros c Hc; split; [|intros t at_ _].
Qed.

Lemma elem_of_polled (db : PgMessageStore J) c : c ∈ polled_channels db ↔ pollable db c.
Proof.
  unfold polled_channels, pollable. rewrite list_elem_of_fmap. split.
  - intros ([k row] & -> & Hin%elem_of_map_to_list). cbn. apply map_lookup_filter_Some in Hin as [Hr [Ha Hs]].
    by exists row.
  - intros (row & Hr & Ha & Hs). exists (c, row). split; [done|]. apply elem_of_map_to_list.
    by apply map_lookup_filter_Some.
Qed.

(** A round touches only the allowlisted active channels: a channel that is
    paused, disabled or removed keeps its row and gets no message, whatever the
    client answers; no round changes the allowlist or stores a key twice. *)
Theorem poll_round_scoped (db : PgMessageStore J) limit feeds :
  let db' := (telegram_poll_round sha256_hex accepts_message accepts_mention bs58 to_lowercase raw_json limit feeds db).1 in
  (∀ c, allowlisted <$> channels db' !! c = allowlisted <$> channels db !! c)
  ∧ (∀ c, pollable db c ∨ channels db' !! c = channels db !! c)
  ∧ (∃ new, messages db' = messages db ++ new ∧ Forall (λ r, pollable db (mg_channel_key r)) new)
  ∧ (unique_rows same_message (messages db) → unique_rows same_message (messages db')).
Proof.
  cbv zeta. unfold telegram_poll_round. destruct (polled_channels db) as [|c0 keys] eqn:E.
  { split_and!; [done|by right| |done]. exists []. by rewrite app_nil_r. }
  assert (∀ c, c ∈ c0 :: keys ↔ pollable db c) as Hp by (intros c; rewrite <-E; apply elem_of_polled).
  destruct (scoped_poll (c0 :: keys) limit feeds db 0) as [F1 F2 (new & F3 & Hf) F4].
  { intros c (row & Hr & _)%Hp. by exists row. }
  split_and!; [done| | |done].
  - intros c. destruct (decide (c ∈ c0 :: keys)) as [?%Hp|]; [by left|right; by apply F2].
  - exists new. split; [done|]. eapply Forall_impl; [exact Hf|]. intros r Hr. by apply Hp.
Qed.

(** Whatever its messages answered, a poll that ends leaves its channel active:
    a flood wait or an authorisation error met on the way is overwritten. *)
Theorem poll_forgets_errors (db db' : PgMessageStore J) c limit f n
    (Hresolved : resolved f = ROk true)
    (Hrun : poll_channel bs58 to_lowercase raw_json db c limit f = (db', Done n)) :
  status <$> channels db' !! c = Some "active".
Proof.
  unfold poll_channel in Hrun. rewrite Hresolved in Hrun.
  destruct (poll_messages _ _ _ _ _ _ _ _ _) as [s [[i k]|e|]]; [|done..]. cbn in Hrun. injection Hrun as <- _.
  cbn. unfold pg_update_channel. cbn. rewrite lookup_insert_eq. by destruct (channels s !! c).
Qed.

(** An error of a channel the table does not have allowlists it. *)
Theorem error_allowlists_unknown (db : PgMessageStore J) c seconds (Hunknown : channels db !! c = None) :
  channel_allowlisted db c = ROk false
  ∧ channel_allowlisted (handle_channel_error db c (TelegramError.FloodWait seconds)).1 c = ROk true.
Proof.
  cbn. unfold pg_channel_allowlisted, pg_update_channel. rewrite Hunknown. split; [done|]. cbn. by rewrite lookup_insert_eq.
Qed.
End rounds.

(** ** Flood waits *)

Lemma digit_value_decimal c d : digit_value c = Some d → d < 10 → is_digit c = true.
Proof. destruct c as [[] [] [] [] [] [] [] []]; vm_compute; intros [= <-]; try done; by intros. Qed.

Lemma radix_value_digits acc s v : radix_value 10 acc s = Some v → all_chars is_digit s = true.
Proof.
  unfold all_chars. revert acc. induction s as [|c s IH]; intros acc; [done|]. cbn [radix_value].
  destruct (digit_value c) as [d|] eqn:Ed; [|done]. cbn. destruct (d <? 10) eqn:El; [|done].
  intros Hv. rewrite (digit_value_decimal c d Ed) by lia. by apply (IH (acc * 10 + d)).
Qed.

Lemma digit_runs_digits s : all_chars is_digit s = true → digit_runs s = [s].
Proof.
  unfold all_chars. induction s as [|c s IH]; [done|]. cbn [String.list_ascii_of_string forallb]. intros [Hc Hs]%andb_prop.
  cbn [digit_runs]. by rewrite (IH Hs), Hc.
Qed.

Lemma digits_lower s : all_chars is_digit s = true → to_ascii_lowercase s = s ∧ all_ascii s.
Proof.
  unfold all_ascii, all_chars. induction s as [|c s IH]; [done|]. cbn. intros [Hc Hs]%andb_prop.
  destruct (IH Hs) as [-> ->]. split.
  - f_equal. revert Hc. clear. by destruct c as [[] [] [] [] [] [] [] []].
  - rewrite andb_true_r. revert Hc. clear. by destruct c as [[] [] [] [] [] [] [] []].
Qed.

(** The wait that an error names is the wait that is read. *)
Theorem flood_wait_roundtrip to_lowercase n (Hlower : ∀ s, all_ascii s → to_lowercase s = to_ascii_lowercase s)
    (Hn : 0 <= n <= u64_max) :
  classify_error to_lowercase ("FLOOD_WAIT_" +:+ pretty n) = TelegramError.FloodWait n.
Proof.
  pose proof (from_str_radix_pretty u64_max n Hn) as Hp.
  pose proof (radix_value_digits 0 (pretty n) n (radix_value_pretty n (proj1 Hn))) as Hd.
  revert Hp Hd. generalize (pretty n). intros p Hp Hd. destruct (digits_lower p Hd) as [Hl Ha].
  unfold classify_error. rewrite Hlower.
  2: { unfold all_ascii, all_chars in *. rewrite list_ascii_app, forallb_app, Ha. done. }
  rewrite to_ascii_lowercase_app, Hl. change (to_ascii_lowercase "FLOOD_WAIT_") with "flood_wait_".
  assert (str_contains "flood" ("flood_wait_" +:+ p) = true) as -> by reflexivity.
  assert (digit_runs ("flood_wait_" +:+ p) = repeat "" 11 ++ digit_runs p) as -> by reflexivity.
  rewrite digit_runs_digits, List.filter_app by done.
  assert (p ≠ "") as Hne by (intros E; rewrite E in Hp; by vm_compute in Hp).
  change (List.filter (λ s, negb (bool_decide (s = ""))) (repeat "" 11)) with (@nil string).
  cbn. rewrite bool_decide_eq_false_2 by done. cbn. by rewrite Hp.
Qed.

(** ** A round, on both stores *)

Definition sample_db : PgMessageStore string :=
  MkPg (<["alpha" := new_channel]> (<["beta" := MkChannel true "flood_wait" None None]> ∅)) [] [].

Definition sample_memory : MemoryMessageStore string := MkMemory {["alpha"; "beta"]} [] [] ∅ ∅.

(** Message 7, its two edits, and then a flood wait. *)
Definition edit (e : option Z) (t : string) : result TgMessage * Z := (ROk (MkTg 7 1 e None None t false), 5).

Definition sample_feed (_ : string) : channel_feed :=
  MkFeed (ROk true) [edit None "buy"; edit (Some 2) "sell"; edit (Some 3) "exit"; (RErr "FLOOD_WAIT_30", 6)] 9.

Definition json_text (id : Z) (channel : string) : string := pretty id +:+ channel.

Definition sample_round : PgMessageStore string * outcome Z :=
  telegram_poll_round id everything everything any_address to_ascii_lowercase json_text 10 sample_feed sample_db.

(** The second edit has the key of the first and is lost; the flood wait of
    alpha is forgotten, and beta stays paused. *)
Example sample_round_result :
  ((mg_edit_version <$> messages sample_round.1, mg_text_content <$> messages sample_round.1),
   status <$> channels sample_round.1 !! "alpha", status <$> channels sample_round.1 !! "beta", sample_round.2)
  = (([0; 1], [Some "buy"; Some "sell"]), Some "active", Some "flood_wait", Done 3).
Proof. vm_compute. reflexivity. Qed.

Lemma sample_simulates : simulates id sample_db sample_memory.
Proof.
  split; try done.
  - intros c. cbn. rewrite elem_of_union, !elem_of_singleton.
    destruct (decide (c = "alpha")) as [->|]; [rewrite lookup_insert_eq; naive_solver|]. rewrite lookup_insert_ne by done.
    destruct (decide (c = "beta")) as [->|]; [rewrite lookup_insert_eq; naive_solver|].
    rewrite lookup_insert_ne, lookup_empty by done. naive_solver.
  - intros c. cbn. rewrite lookup_empty.
    destruct (decide (c = "alpha")) as [->|]; [by rewrite lookup_insert_eq|]. rewrite lookup_insert_ne by done.
    destruct (decide (c = "beta")) as [->|]; [by rewrite lookup_insert_eq|]. by rewrite lookup_insert_ne.
Qed.

Lemma sample_known c : c ∈ ["alpha"] → is_Some (channels sample_db !! c).
Proof. intros ->%list_elem_of_singleton. by eexists. Qed.


Lemma poll_forgets_errors_witness :
  status <$> channels (poll_channel (H := pg_store id everything everything) any_address to_ascii_lowercase json_text
    sample_db "alpha" 10 (sample_feed "alpha")).1 !! "alpha" = Some "active".
Proof.
  apply (poll_forgets_errors id everything everything any_address to_ascii_lowercase json_text sample_db _ "alpha" 10
    (sample_feed "alpha") 3 eq_refl).
  vm_compute. reflexivity.
Defined.

Lemma flood_wait_roundtrip_witness :
  classify_error to_ascii_lowercase "FLOOD_WAIT_31" = TelegramError.FloodWait 31.
Proof. apply (flood_wait_roundtrip to_ascii_lowercase 31 (λ _ _, eq_refl)). unfold u64_max. lia. Defined.
