(* ===== verification/Auth.v ===== *)
(** * Admin authentication

    auth.rs and the login, logout and guards of admin.rs and api.rs over the
    tables admin_sessions, login_attempts and workspaces.  [sha256_hex] is the
    digest (sha2, hex), [bcrypt_verify] and [base64_decode] are the libraries,
    the two environment variables and every random token are arguments.  The
    instant of a statement is [None] where the statement fails. *)
From stdpp Require Import base gmap list strings.
From stdpp Require Import options.
From S2P Require Import Prelude Text.
Local Open Scope string_scope.
Local Open Scope Z_scope.
Local Open Scope list_scope.

Definition SESSION_COOKIE : string := "swi_session".
Definition SESSION_TTL_HOURS : Z := 24.
Definition MAX_FAILURES : Z := 5.
Definition WINDOW_MINUTES : Z := 15.

(** Nanoseconds. *)
Definition second : Z := 10 ^ 9.

Record Session := MkSession {
  se_expires_at : Z;
  se_last_seen_at : option Z;
  se_ip : option string;
  se_user_agent : option string;
  se_workspace_id : option Z;
}.

Record LoginAttempt := MkAttempt {
  la_key : string;
  la_attempted_at : Z;
  la_success : bool;
  la_ip : option string;
  la_user_agent : option string;
}.

Record WorkspaceRow := MkWorkspace { ws_id : Z; ws_slug : string; ws_status : string }.

(** Sessions under the hash of their token; workspaces in the order of their ids. *)
Record auth_db := MkAuth {
  sessions : gmap string Session;
  attempts : list LoginAttempt;
  workspaces : list WorkspaceRow;
}.

(** ** The password *)

Section password.
Context (bcrypt_verify : string → string → option bool) (base64_decode : string → option string).

Definition verify_password (password hash : string) : bool := default false (bcrypt_verify password hash).

(** The hash of the environment; [base64_decode] is [None] on bad base64 or UTF-8. *)
Definition password_hash (b64 plain : option string) : option string :=
  match b64 ≫= (λ b, if blank b then None else base64_decode (trim b)) with
  | Some hash => Some hash
  | None => plain ≫= (λ v, if blank v then None else Some v)
  end.
End password.

(** ** Workspaces of sessions *)

Definition select_workspace (default_id : option Z) (active_ids : list Z) : option Z :=
  match default_id with
  | Some id => Some id
  | None => match active_ids with [only] => Some only | _ => None end
  end.

Definition active_workspaces (db : auth_db) : list WorkspaceRow :=
  List.filter (λ w, bool_decide (ws_status w = "active")) (workspaces db).

Definition workspace_for_new_session (db : auth_db) : option Z :=
  select_workspace (ws_id <$> find_first (λ w, bool_decide (ws_slug w = "default")) (active_workspaces db))
    (take 2 (ws_id <$> active_workspaces db)).

(** ** Sessions and attempts *)

Section auth.
Context (sha256_hex : string → string).

Definition record_attempt_in (db : auth_db) (now : Z) (key : string) (success : bool) (ip ua : option string) : auth_db :=
  MkAuth (sessions db) (attempts db ++ [MkAttempt key now success ip ua]) (workspaces db).

Definition clear_attempts_in (db : auth_db) (key : string) : auth_db :=
  MkAuth (sessions db)
    (List.filter (λ a, negb (bool_decide (la_key a = key) && negb (la_success a))) (attempts db)) (workspaces db).

(** [None]: the token hash is taken. *)
Definition create_session_in (db : auth_db) (now : Z) (token : string) (ip ua : option string) : option auth_db :=
  match sessions db !! sha256_hex token with
  | Some _ => None
  | None =>
      Some (MkAuth (<[sha256_hex token := MkSession (now + SESSION_TTL_HOURS * 3600 * second) None ip ua
                                            (workspace_for_new_session db)]> (sessions db))
              (attempts db) (workspaces db))
  end.

(** One transaction: when it began, the clock of the process, the token drawn,
    and whether its statements and its commit succeed. *)
Record transaction := MkTx { begun_at : Z; process_now : Z; drawn : string; commits : bool }.

Definition establish_session (db : auth_db) (tx : transaction) (key : string) (ip ua : option string)
    : auth_db * result string :=
  let db1 := clear_attempts_in (record_attempt_in db (begun_at tx) key true ip ua) key in
  match create_session_in db1 (process_now tx) (drawn tx) ip ua with
  | Some db2 => if commits tx then (db2, ROk (drawn tx)) else (db, RErr "establish_session failed")
  | None => (db, RErr "duplicate session")
  end.

Definition create_session (db : auth_db) (tx : transaction) (ip ua : option string) : auth_db * result string :=
  match create_session_in db (process_now tx) (drawn tx) ip ua with
  | Some db2 => if commits tx then (db2, ROk (drawn tx)) else (db, RErr "create_session failed")
  | None => (db, RErr "duplicate session")
  end.

Definition record_attempt (db : auth_db) (now : option Z) (key : string) (success : bool) (ip ua : option string)
    : auth_db * result () :=
  match now with
  | Some now => (record_attempt_in db now key success ip ua, ROk ())
  | None => (db, RErr "record_attempt failed")
  end.

Definition live (db : auth_db) (now : Z) (token : string) : option Session :=
  match sessions db !! sha256_hex token with
  | Some se => if now <? se_expires_at se then Some se else None
  | None => None
  end.

Definition validate_session (db : auth_db) (now : option Z) (token : string) : auth_db * result bool :=
  if bool_decide (token = "") then (db, ROk false) else
  match now with
  | None => (db, RErr "validate_session failed")
  | Some now =>
      match live db now token with
      | Some se =>
          (MkAuth (<[sha256_hex token := MkSession (se_expires_at se) (Some now) (se_ip se) (se_user_agent se)
                                           (se_workspace_id se)]> (sessions db)) (attempts db) (workspaces db), ROk true)
      | None => (db, ROk false)
      end
  end.

Definition workspace_for_session (db : auth_db) (now : option Z) (token : string) : result (option Z) :=
  if bool_decide (token = "") then ROk None else
  match now with
  | None => RErr "workspace_for_session failed"
  | Some now => ROk (live db now token ≫= se_workspace_id)
  end.

Definition destroy_session (db : auth_db) (reached : bool) (token : string) : auth_db * result () :=
  if reached then (MkAuth (delete (sha256_hex token) (sessions db)) (attempts db) (workspaces db), ROk ())
  else (db, RErr "destroy_session failed").

Definition prune_sessions (db : auth_db) (now : Z) : auth_db * Z :=
  let keep := filter (λ se, now < se_expires_at se.2) (sessions db) in
  (MkAuth keep (attempts db) (workspaces db), Z.of_nat (size (sessions db) - size keep)).

Definition rate_limit_key (ip : option string) : string :=
  match ip with
  | Some ip => if blank ip then "global" else "ip:" +:+ trim ip
  | None => "global"
  end.

Definition threshold_reached (failures : Z) : bool := MAX_FAILURES <=? failures.

Definition window : Z := WINDOW_MINUTES * 60 * second.

Definition failed_since (t : Z) (key : string) (a : LoginAttempt) : bool :=
  bool_decide (la_key a = key) && negb (la_success a) && (t <? la_attempted_at a).

Definition is_rate_limited (db : auth_db) (now : option Z) (key : string) : result bool :=
  match now with
  | None => RErr "is_rate_limited failed"
  | Some now =>
      ROk (threshold_reached (wrap_u32 (Z.of_nat (length (List.filter (failed_since (now - window) key) (attempts db))))))
  end.

Definition prune_attempts (db : auth_db) (now : Z) : auth_db * Z :=
  let keep := List.filter (λ a, negb (la_attempted_at a <? now - 24 * 3600 * second)) (attempts db) in
  (MkAuth (sessions db) keep (workspaces db), Z.of_nat (length (attempts db) - length keep)).

Definition session_cookie_value (token : string) : string :=
  SESSION_COOKIE +:+ "=" +:+ token +:+ "; Path=/; HttpOnly; SameSite=Lax; Max-Age="
  +:+ pretty (SESSION_TTL_HOURS * 3600).

Definition clear_cookie_value : string := SESSION_COOKIE +:+ "=; Path=/; HttpOnly; SameSite=Lax; Max-Age=0".

(** ** Handlers *)

(** The session token of a Cookie header. *)
Definition session_token (cookie : option string) : option string :=
  cookie ≫= λ c, head (omap (λ part,
    match split_once "="%char (trim part) with
    | Some (k, v) => if bool_decide (k = SESSION_COOKIE) then Some v else None
    | None => None
    end) (split_on ";"%char c)).

Context (bcrypt_verify : string → string → option bool) (admin_hash : option string).

(** The client a login names: the first entry of its x-forwarded-for header. *)
Definition client_ip (forwarded : option string) : string :=
  match forwarded with
  | Some v => trim (default "" (head (split_on ","%char v)))
  | None => "unknown"
  end.

Record login_request := MkLogin {
  forwarded_for : option string;
  user_agent : option string;
  form_password : string;
  checked_at : option Z;
  recorded_at : option Z;
  establishing : transaction;
}.

Inductive login_response :=
  | NotConfigured | TooManyAttempts | ServerError | WrongPassword | LoggedIn (token : string).

Definition login_submit (db : auth_db) (r : login_request) : auth_db * login_response :=
  match admin_hash with
  | None => (db, NotConfigured)
  | Some hash =>
      let ip := client_ip (forwarded_for r) in
      let key := rate_limit_key (Some ip) in
      match is_rate_limited db (checked_at r) key with
      | ROk true => (db, TooManyAttempts)
      | RErr _ => (db, ServerError)
      | ROk false =>
          if negb (verify_password bcrypt_verify (trim (form_password r)) hash)
          then match record_attempt db (recorded_at r) key false (Some ip) (user_agent r) with
               | (db, ROk _) => (db, WrongPassword)
               | (db, RErr _) => (db, ServerError)
               end
          else match establish_session db (establishing r) key (Some ip) (user_agent r) with
               | (db, ROk token) => (db, LoggedIn token)
               | (db, RErr _) => (db, ServerError)
               end
      end
  end.

Inductive guard := Allowed | Unauthorized | Forbidden | GuardError.

Definition require_auth (db : auth_db) (now : option Z) (cookie : option string) : auth_db * guard :=
  match admin_hash with
  | None => (db, Allowed)
  | Some _ =>
      match session_token cookie with
      | None => (db, Unauthorized)
      | Some token =>
          match validate_session db now token with
          | (db, ROk true) => (db, Allowed)
          | (db, ROk false) => (db, Unauthorized)
          | (db, RErr _) => (db, GuardError)
          end
      end
  end.

Definition require_write_auth (db : auth_db) (now : option Z) (cookie : option string) : auth_db * guard :=
  match admin_hash with None => (db, Forbidden) | Some _ => require_auth db now cookie end.

(** The workspace of a request of the read API, and of the admin panel. *)
Definition require_workspace (db : auth_db) (now : option Z) (cookie : option string) : Z + guard :=
  match session_token cookie with
  | None => inr Unauthorized
  | Some token =>
      match workspace_for_session db now token with
      | ROk (Some id) => inl id
      | ROk None => inr Unauthorized
      | RErr _ => inr GuardError
      end
  end.

(** Whether the browser is told it is logged out. *)
Definition logout (db : auth_db) (reached : bool) (cookie : option string) : auth_db * bool :=
  match session_token cookie with
  | Some token =>
      match destroy_session db reached token with
      | (db, ROk _) => (db, true)
      | (db, RErr _) => (db, false)
      end
  | None => (db, true)
  end.

(** ** Runs *)

Inductive auth_event :=
  | Login (r : login_request)
  | Logout (reached : bool) (cookie : option string)
  | Guard (now : option Z) (cookie : option string)
  | PruneSessions (now : Z)
  | PruneAttempts (now : Z).

Definition run_event (db : auth_db) (e : auth_event) : auth_db * option login_response :=
  match e with
  | Login r => let '(db, x) := login_submit db r in (db, Some x)
  | Logout reached cookie => ((logout db reached cookie).1, None)
  | Guard now cookie => ((require_auth db now cookie).1, None)
  | PruneSessions now => ((prune_sessions db now).1, None)
  | PruneAttempts now => ((prune_attempts db now).1, None)
  end.

Fixpoint run_events (db : auth_db) (es : list auth_event) : auth_db * list (option login_response) :=
  match es with
  | [] => (db, [])
  | e :: es => let '(db, x) := run_event db e in let '(db, xs) := run_events db es in (db, x :: xs)
  end.
End auth.

(** ** Throttling *)

Section throttling.
Context (sha256_hex : string → string) (bcrypt_verify : string → string → option bool) (admin_hash : option string).
Set Default Proof Using "Type".
Local Abbreviation run := (run_events sha256_hex bcrypt_verify admin_hash).
Local Abbreviation step := (run_event sha256_hex bcrypt_verify admin_hash).

(** The clock runs forward: each statement of an event reads a time no earlier
    than those before it. *)
Definition event_in_order (clock : Z) (e : auth_event) : Prop :=
  match e with
  | Login r => match checked_at r with
               | Some c => clock <= c ∧ ∀ w, recorded_at r = Some w → c <= w
               | None => True
               end
  | PruneAttempts now => clock <= now
  | _ => True
  end.

Definition clock_after (clock : Z) (e : auth_event) : Z :=
  match e with
  | Login r => match checked_at r with Some c => default c (recorded_at r) | None => clock end
  | PruneAttempts now => now
  | _ => clock
  end.

Fixpoint in_order (clock : Z) (es : list auth_event) : Prop :=
  match es with
  | [] => True
  | e :: es => event_in_order clock e ∧ in_order (clock_after clock e) es
  end.

(** The client of a request, by its rate-limit key. *)
Definition client (r : login_request) : string := rate_limit_key (Some (client_ip (forwarded_for r))).

(** The times at which a client was told its password is wrong, since it was
    last logged in: a function of the requests and their answers alone. *)
Definition miss (key : string) (acc : list Z) (ex : auth_event * option login_response) : list Z :=
  match ex with
  | (Login r, Some answer) =>
      if bool_decide (client r = key) then
        match answer, recorded_at r with
        | WrongPassword, Some w => acc ++ [w]
        | LoggedIn _, _ => []
        | _, _ => acc
        end
      else acc
  | _ => acc
  end.

Definition misses (key : string) (es : list auth_event) (answers : list (option login_response)) : list Z :=
  foldl (miss key) [] (zip es answers).

(** How many of them fall in the fifteen minutes up to [t]. *)
Definition recent_misses (t : Z) (l : list Z) : Z :=
  Z.of_nat (length (List.filter (λ w, (t - window <? w) && (w <=? t)) l)).

(** The failures of a key in the table. *)
Definition failures_of (key : string) (db : auth_db) : list Z :=
  la_attempted_at <$> List.filter (λ a, bool_decide (la_key a = key) && negb (la_success a)) (attempts db).

(** What the table keeps of the misses: those younger than the last prune. *)
Record kept (clock : Z) (db : auth_db) (m : string → list Z) : Prop := MkKept {
  kept_past : ∀ key, Forall (λ w, w <= clock) (m key);
  kept_bound : ∀ key t, recent_misses t (m key) <= MAX_FAILURES;
  kept_rows : ∃ b, b <= clock - 24 * 3600 * second ∧ ∀ key, failures_of key db = List.filter (λ w, b <=? w) (m key);
}.

(** What the limit counts. *)
Lemma limit_counts clock c db m key : kept clock db m → clock <= c →
  is_rate_limited db (Some c) key = ROk (MAX_FAILURES <=? recent_misses c (m key)).
Proof.
  intros [Hp Hb (b & Hbc & Hr)] Hc. unfold is_rate_limited, threshold_reached. do 2 f_equal.
  set (seen := List.filter (failed_since (c - window) key) (attempts db)).
  assert (Z.of_nat (length seen) = recent_misses c (m key)) as E.
  { assert (seen = List.filter (λ a, bool_decide (la_key a = key) && negb (la_success a) && (c - window <? la_attempted_at a)) (attempts db)) as -> by done.
    rewrite <-filter_conj. unfold recent_misses. rewrite <-(length_fmap la_attempted_at), <-(filter_map_comm la_attempted_at (λ w, c - window <? w)).
    change (la_attempted_at <$> _) with (failures_of key db). rewrite Hr, filter_conj. do 2 f_equal. apply filter_same.
    intros w Hw. pose proof (Hp key) as Hpk. rewrite Forall_forall in Hpk. specialize (Hpk w Hw). unfold window, WINDOW_MINUTES, second in *.
    destruct (Z.leb_spec b w), (Z.ltb_spec (c - 15 * 60 * 10 ^ 9) w), (Z.leb_spec w c); cbn; lia. }
  rewrite <-E. apply wrap_u32_id. unfold is_u32, u32_max. specialize (Hb key c). rewrite <-E in Hb. unfold MAX_FAILURES in Hb. lia.
Qed.

Lemma attempts_validate db now token : attempts (validate_session sha256_hex db now token).1 = attempts db.
Proof.
  unfold validate_session. case_bool_decide; [done|]. destruct now as [now|]; [|done].
  by destruct (live sha256_hex db now token).
Qed.

Lemma attempts_guard db now cookie : attempts (require_auth sha256_hex admin_hash db now cookie).1 = attempts db.
Proof.
  unfold require_auth. destruct admin_hash; [|done]. destruct (session_token cookie) as [token|]; [|done].
  pose proof (attempts_validate db now token) as H. by destruct (validate_session _ _ _ _) as [db' [[]|]].
Qed.

Lemma attempts_logout db reached cookie : attempts (logout sha256_hex db reached cookie).1 = attempts db.
Proof. unfold logout, destroy_session. destruct (session_token cookie); [|done]. by destruct reached. Qed.

Lemma kept_same clock db db' m : attempts db' = attempts db → kept clock db m → kept clock db' m.
Proof. intros E [Hp Hb (b & Hbc & Hr)]. split; [done..|]. exists b. split; [done|]. unfold failures_of. by rewrite E. Qed.

Lemma kept_later clock clock' db m : clock <= clock' → kept clock db m → kept clock' db m.
Proof.
  intros Hc [Hp Hb (b & Hbc & Hr)]. split; [|done|exists b; split; [lia|done]].
  intros key. eapply Forall_impl; [apply Hp|]. cbn. lia.
Qed.

Lemma kept_pruned clock now db m : clock <= now → kept clock db m → kept now (prune_attempts db now).1 m.
Proof.
  intros Hc Hk. pose proof (kept_later _ _ _ _ Hc Hk) as [Hp Hb (b & Hbc & Hr)]. split; [done..|].
  exists (Z.max b (now - 24 * 3600 * second)). split; [lia|]. intros key. specialize (Hr key). unfold failures_of in *. cbn [prune_attempts fst attempts].
  rewrite filter_conj. transitivity (List.filter (λ w, now - 24 * 3600 * second <=? w) (List.filter (λ w, b <=? w) (m key))).
  - rewrite <-Hr, filter_map_comm, filter_conj. f_equal. apply filter_same. intros a _. rewrite <-Z.leb_antisym. apply andb_comm.
  - rewrite filter_conj. apply filter_same. intros w _. destruct (Z.leb_spec b w), (Z.leb_spec (now - 24 * 3600 * second) w), (Z.leb_spec (Z.max b (now - 24 * 3600 * second)) w); cbn; lia.
Qed.

(** A wrong password below the limit. *)
Lemma kept_miss clock c w db m key ip ua : kept clock db m → clock <= c → c <= w → recent_misses c (m key) < MAX_FAILURES →
  kept w (record_attempt_in db w key false ip ua) (λ k, if bool_decide (key = k) then m k ++ [w] else m k).
Proof.
  intros Hk Hc Hw Hm. pose proof (kept_later clock w _ _ ltac:(lia) Hk) as [Hp Hb (b & Hbc & Hr)]. pose proof (kept_past _ _ _ Hk) as Hpast. split.
  - intros k. case_bool_decide; [|done]. apply Forall_app. split; [done|]. by apply Forall_singleton.
  - intros k t. case_bool_decide as E; [subst k|done]. unfold recent_misses. rewrite List.filter_app, length_app. cbn [List.filter].
    destruct (_ && _) eqn:Ew; cbn [length]; [|specialize (Hb key t); unfold recent_misses in Hb; lia].
    enough (length (List.filter (λ w, (t - window <? w)%Z && (w <=? t)%Z) (m key)) <= length (List.filter (λ w, (c - window <? w)%Z && (w <=? c)%Z) (m key)))%nat
      by (unfold recent_misses in Hm; lia).
    specialize (Hpast key). clear -Hpast Ew Hc Hw. induction Hpast as [|x l Hx Hpast IH]; [done|]. cbn [List.filter].
    destruct ((t - window <? x)%Z && (x <=? t)%Z) eqn:E1; [|destruct ((c - window <? x)%Z && (x <=? c)%Z); cbn [length]; lia].
    assert ((c - window <? x)%Z && (x <=? c)%Z = true) as ->; [|cbn [length]; lia].
    rewrite !andb_true_iff, !Z.ltb_lt, !Z.leb_le in *. lia.
  - exists b. split; [done|]. intros k. unfold failures_of. cbn [record_attempt_in attempts]. rewrite List.filter_app, fmap_app.
    change (la_attempted_at <$> List.filter _ (attempts db)) with (failures_of k db). rewrite Hr. cbn [List.filter la_key la_success negb].
    rewrite andb_true_r. case_bool_decide; cbn; [|by rewrite app_nil_r]. rewrite List.filter_app. cbn [List.filter].
    unfold second in Hbc. destruct (Z.leb_spec b w); [done|lia].
Qed.

(** A login: its success is recorded and its failures are forgotten. *)
Lemma kept_login clock db m tx key ip ua token db' : kept clock db m →
  establish_session sha256_hex db tx key ip ua = (db', ROk token) →
  kept clock db' (λ k, if bool_decide (key = k) then [] else m k).
Proof.
  unfold establish_session, create_session_in. intros [Hp Hb (b & Hbc & Hr)] E. destruct (sessions _ !! _); [done|]. destruct (commits tx); [|done].
  injection E as <- _. split.
  - intros k. case_bool_decide; [constructor|done].
  - intros k t. case_bool_decide; [done|apply Hb].
  - exists b. split; [done|]. intros k. unfold failures_of. cbn [attempts clear_attempts_in record_attempt_in].
    rewrite filter_conj, List.filter_app, fmap_app. cbn [List.filter la_key la_success negb]. rewrite !andb_false_r. cbn. rewrite app_nil_r.
    case_bool_decide as Ek; [subst k|].
    + cbn. rewrite filter_none; [done|]. intros a _. by destruct (bool_decide _ && _).
    + rewrite <-Hr. unfold failures_of. f_equal. apply filter_same. intros a _.
      destruct (bool_decide (la_key a = k)) eqn:E1; [|by rewrite andb_false_r]. apply bool_decide_eq_true in E1.
      rewrite (bool_decide_false (la_key a = key)) by congruence. done.
Qed.

Lemma step_kept clock db m e : event_in_order clock e → kept clock db m →
  kept (clock_after clock e) (step db e).1 (λ key, miss key (m key) (e, (step db e).2)).
Proof.
  intros He Hk. destruct e as [r|reached cookie|now cookie|now|now]; cbn [run_event fst snd miss].
  - assert (kept (clock_after clock (Login r)) db m) as Hlater.
    { cbn in *. destruct (checked_at r) as [c|]; [|done]. destruct He as [Hc Hw]. eapply kept_later; [|exact Hk].
      destruct (recorded_at r) as [w|]; cbn; [specialize (Hw w eq_refl)|]; lia. }
    assert (∀ c w, checked_at r = Some c → recorded_at r = Some w → clock_after clock (Login r) = w ∧ clock <= c ∧ c <= w) as Hat.
    { intros c w Ec Ew. cbn in *. rewrite Ec in *. destruct He as [? He]. rewrite Ew. cbn. specialize (He w Ew). lia. }
    assert (∀ c, checked_at r = Some c → clock <= c) as Hchecked.
    { intros c Ec. cbn in He. rewrite Ec in He. apply He. }
    generalize dependent (clock_after clock (Login r)). intros later Hlater Hat. clear He.
    unfold login_submit. fold (client r). set (key := client r).
    assert (∀ answer, match answer with WrongPassword | LoggedIn _ => False | _ => True end →
      kept later db (λ key0, if bool_decide (key = key0)
        then match answer, recorded_at r with WrongPassword, Some w => m key0 ++ [w] | LoggedIn _, _ => [] | _, _ => m key0 end else m key0)) as Hsame.
    { intros answer Ha. destruct Hlater as [Hp Hb (b & ? & Hr)]. 
      assert (∀ k, (if bool_decide (key = k) then match answer, recorded_at r with WrongPassword, Some w => m k ++ [w] | LoggedIn _, _ => [] | _, _ => m k end else m k) = m k) as E
        by (intros k; case_bool_decide; by destruct answer).
      split; [|intros k t; rewrite E; apply Hb|exists b; split; [done|]]; intros k; by rewrite E. }
    destruct admin_hash as [h|]; [|by apply (Hsame NotConfigured)].
    destruct (checked_at r) as [c|] eqn:Ec; [|by apply (Hsame ServerError)]. specialize (Hchecked c eq_refl).
    rewrite (limit_counts clock c db m key Hk Hchecked). destruct (Z.leb_spec MAX_FAILURES (recent_misses c (m key))) as [|Hlt]; [by apply (Hsame TooManyAttempts)|].
    destruct (negb _).
    + unfold record_attempt. destruct (recorded_at r) as [w|] eqn:Ew; [|by apply (Hsame ServerError)].
      destruct (Hat c w eq_refl eq_refl) as (-> & _ & Hcw). by apply (kept_miss clock c w).
    + destruct (establish_session _ _ _ _ _ _) as [db' [token|e]] eqn:El.
      * eapply kept_login in El; [|exact Hlater]. exact El.
      * assert (db' = db) as -> by (unfold establish_session in El; repeat case_match; congruence). by apply (Hsame ServerError).
  - eapply kept_same; [apply attempts_logout|]. exact Hk.
  - eapply kept_same; [apply attempts_guard|]. exact Hk.
  - by eapply kept_same; [|exact Hk].
  - by apply (kept_pruned clock).
Qed.

Lemma in_order_app clock es1 es2 : in_order clock (es1 ++ es2) → in_order clock es1 ∧ in_order (foldl clock_after clock es1) es2.
Proof. revert clock. induction es1 as [|e es1 IH]; intros clock H; [done|]. destruct H as [He H%IH]. by destruct H. Qed.

Lemma run_kept_at clock db m es : in_order clock es → kept clock db m →
  kept (foldl clock_after clock es) (run db es).1 (λ key, foldl (miss key) (m key) (zip es (run db es).2)).
Proof.
  revert clock db m. induction es as [|e es IH]; intros clock db m Hes Hk; [done|]. destruct Hes as [He Hes].
  pose proof (step_kept clock db m e He Hk) as H1. cbn [run_events foldl]. destruct (step db e) as [db1 x]. cbn [fst snd] in H1.
  specialize (IH _ _ _ Hes H1). by destruct (run db1 es) as [db2 xs].
Qed.

(** Claim C27: Guessing is throttled.  On a forward clock and from an empty table
    of attempts, whatever requests, logouts, checks and prunes happen in between:
    a client is told at most five times in any fifteen minutes that its password
    is wrong since it was last logged in (a login forgets its failures), and its
    next request, if its limit is read, is refused as too many, with any
    password, exactly when five of those answers were given in the last fifteen
    minutes. *)
Theorem failures_throttled db es clock r c hash (Hempty : attempts db = []) (Hclock : in_order clock (es ++ [Login r]))
    (Hhash : admin_hash = Some hash) (Hc : checked_at r = Some c) :
  (∀ key t, recent_misses t (misses key es (run db es).2) <= 5)
  ∧ ((login_submit sha256_hex bcrypt_verify admin_hash (run db es).1 r).2 = TooManyAttempts
     ↔ recent_misses c (misses (client r) es (run db es).2) = 5).
Proof.
  apply in_order_app in Hclock as [Hes [Hr _]].
  assert (kept clock db (λ _, [])) as H0.
  { split; [constructor|done|]. exists (clock - 24 * 3600 * second). split; [done|]. intros key. unfold failures_of. by rewrite Hempty. }
  pose proof (run_kept_at clock db (λ _, []) es Hes H0) as Hk. change (λ key, foldl (miss key) [] (zip es (run db es).2)) with (λ key, misses key es (run db es).2) in Hk.
  split; [intros key t; apply (kept_bound _ _ _ Hk)|].
  cbn in Hr. rewrite Hc in Hr. destruct Hr as [Hle _]. pose proof (kept_bound _ _ _ Hk (client r) c) as Hb. cbn beta in Hb.
  generalize dependent (run db es). intros [db1 answers] Hk Hb. cbn [fst snd] in *. unfold login_submit. rewrite Hhash, Hc. fold (client r).
  rewrite (limit_counts _ c _ _ (client r) Hk Hle). unfold MAX_FAILURES in *.
  fold (misses (client r) es answers) in *.
  destruct (Z.leb_spec 5 (recent_misses c (misses (client r) es answers))) as [Hge|Hlt]; [split; [lia|done]|].
  split; [|intros; lia]. destruct (negb _).
  - unfold record_attempt. by destruct (recorded_at r).
  - by destruct (establish_session _ _ _ _ _ _) as [? []].
Qed.

(** A client that names a new address each time is never limited. *)
Theorem forged_forwarding_unlimited db (rs : list login_request)
    (Hnew : NoDup ((λ r, rate_limit_key (Some (client_ip (forwarded_for r)))) <$> rs))
    (Hclean : ∀ r a, r ∈ rs → a ∈ attempts db → la_key a ≠ rate_limit_key (Some (client_ip (forwarded_for r)))) :
  (Some TooManyAttempts ∈ (run db (Login <$> rs)).2) → False.
Proof.
  revert db Hclean. induction rs as [|r rs IH]; intros db Hclean; [intros H; by apply not_elem_of_nil in H|].
  inversion_clear Hnew as [|? ? Hr Hrs]. cbn [fmap list_fmap run_events run_event].
  set (key := rate_limit_key (Some (client_ip (forwarded_for r)))) in *.
  assert (∀ l, l = List.filter (λ a, bool_decide (la_key a = key)) (attempts db) → l = []) as Hnone.
  { intros [|a l] El; [done|]. exfalso. assert (a ∈ List.filter (λ a, bool_decide (la_key a = key)) (attempts db)) as Ha
      by (rewrite <-El; left). apply elem_of_lfilter in Ha as [Ha Hk%bool_decide_eq_true]. by apply (Hclean r a); [left|..]. }
  pose proof (Hnone _ eq_refl) as Hno. clear Hnone.
  assert (∀ t, List.filter (failed_since t key) (attempts db) = []) as Hempty.
  { intros t. destruct (List.filter (failed_since t key) (attempts db)) as [|a l] eqn:E; [done|]. exfalso.
    assert (a ∈ List.filter (failed_since t key) (attempts db)) as Ha by (rewrite E; left).
    apply elem_of_lfilter in Ha as [Ha Hk]. unfold failed_since in Hk. bool_prop. by apply (Hclean r a); [left|..]. }
  assert ((login_submit sha256_hex bcrypt_verify admin_hash db r).2 ≠ TooManyAttempts
    ∧ ∀ a, a ∈ attempts (login_submit sha256_hex bcrypt_verify admin_hash db r).1 → a ∈ attempts db ∨ la_key a = key) as [H1 H2].
  { unfold login_submit. fold key. destruct admin_hash as [h|]; [|split; auto].
    unfold is_rate_limited. destruct (checked_at r) as [c|]; [|split; auto]. rewrite Hempty. cbn [length].
    change (threshold_reached (wrap_u32 (Z.of_nat 0))) with false. cbn iota. destruct (negb _).
    - unfold record_attempt. destruct (recorded_at r); [|split; auto]. split; [done|]. cbn.
      intros a [?|?%list_elem_of_singleton]%elem_of_app; [by left|right]. by subst.
    - unfold establish_session, create_session_in. destruct (sessions _ !! _); [split; auto|].
      destruct (commits _); [|split; auto]. split; [done|]. cbn. intros a [Ha _]%elem_of_lfilter.
      apply elem_of_app in Ha as [?|?%list_elem_of_singleton]; [by left|right]. by subst. }
  destruct (login_submit _ _ _ db r) as [db1 x]. cbn [fst snd] in *. specialize (IH Hrs db1).
  destruct (run db1 (Login <$> rs)) as [db2 xs]. cbn [snd] in *. intros [[= E]|Hin]%elem_of_cons; [by subst|].
  apply IH; [|done]. intros r' a Hr' [Ha|Ha]%H2; [apply Hclean; [by right|done]|].
  intros E. apply Hr. apply list_elem_of_fmap. exists r'. split; [|done]. exact (eq_trans (eq_sym Ha) E).
Qed.

(** ** Sessions *)

(** The logins that handed out a token. *)
Definition issued (db : auth_db) (es : list auth_event) (r : login_request) (token : string) : Prop :=
  ∃ i, es !! i = Some (Login r) ∧ (run db es).2 !! i = Some (Some (LoggedIn token)).

Lemma login_sessions db r :
  let '(db', x) := login_submit sha256_hex bcrypt_verify admin_hash db r in
  match x with
  | LoggedIn token =>
      token = drawn (establishing r) ∧ sessions db !! sha256_hex token = None
      ∧ (∃ hash, admin_hash = Some hash ∧ verify_password bcrypt_verify (trim (form_password r)) hash = true)
      ∧ ∃ se, sessions db' = <[sha256_hex token := se]> (sessions db)
          ∧ se_expires_at se = process_now (establishing r) + SESSION_TTL_HOURS * 3600 * second
          ∧ se_workspace_id se = workspace_for_new_session db
  | WrongPassword => sessions db' = sessions db
  | _ => db' = db
  end.
Proof.
  unfold login_submit. destruct admin_hash as [h|]; [|done].
  destruct (is_rate_limited _ _ _) as [[]|]; [done| |done].
  destruct (negb _) eqn:Ev.
  - unfold record_attempt. by destruct (recorded_at r).
  - apply negb_false_iff in Ev. unfold establish_session, create_session_in. cbn [sessions clear_attempts_in record_attempt_in].
    destruct (sessions db !! _) eqn:Es; [done|]. destruct (commits _); [|done].
    split_and!; [done|done|by exists h|]. eexists. split; [done|]. done.
Qed.

Lemma other_sessions db e h se : (∀ r, e ≠ Login r) → sessions (step db e).1 !! h = Some se →
  ∃ se0, sessions db !! h = Some se0 ∧ se_expires_at se = se_expires_at se0.
Proof.
  intros He. destruct e as [r|reached cookie|now cookie|now|now]; cbn [run_event fst]; [by specialize (He r)|..].
  - unfold logout, destroy_session. destruct (session_token cookie); [|by exists se]. destruct reached; [|by exists se].
    cbn. intros [_ ?]%lookup_delete_Some. by exists se.
  - unfold require_auth, validate_session. destruct admin_hash; [|by exists se].
    destruct (session_token cookie) as [token|]; [|by exists se]. case_bool_decide; [by exists se|].
    destruct now as [now|]; [|by exists se]. destruct (live _ _ _ _) as [se0|] eqn:El; [|by exists se]. cbn.
    intros [[<- <-]|[_ ?]]%lookup_insert_Some; [|by exists se]. exists se0. split; [|done].
    unfold live in El. destruct (sessions db !! _) as [x|]; [|done]. by destruct (now <? _); simplify_eq.
  - cbn. intros [? _]%map_lookup_filter_Some. by exists se.
  - by exists se.
Qed.

(** Claim C28: A session that validates was handed out by a login with the right password,
    less than its lifetime ago. *)
Theorem sessions_earned db es token now se (Hempty : sessions db = ∅)
    (Hlive : live sha256_hex (run db es).1 now token = Some se) :
  ∃ r t hash, issued db es r t ∧ sha256_hex t = sha256_hex token ∧ t = drawn (establishing r)
    ∧ admin_hash = Some hash ∧ verify_password bcrypt_verify (trim (form_password r)) hash = true
    ∧ se_expires_at se = process_now (establishing r) + SESSION_TTL_HOURS * 3600 * second
    ∧ now < process_now (establishing r) + SESSION_TTL_HOURS * 3600 * second.
Proof.
  assert (∀ h x, sessions (run db es).1 !! h = Some x →
    (∃ y, sessions db !! h = Some y ∧ se_expires_at x = se_expires_at y)
    ∨ ∃ r t hash, issued db es r t ∧ sha256_hex t = h ∧ t = drawn (establishing r)
        ∧ admin_hash = Some hash ∧ verify_password bcrypt_verify (trim (form_password r)) hash = true
        ∧ se_expires_at x = process_now (establishing r) + SESSION_TTL_HOURS * 3600 * second) as Hall.
  { clear Hempty Hlive se now token. revert db. induction es as [|e es IH]; intros db h x Hx; [left; by exists x|].
    assert ((run db (e :: es)).1 = (run (step db e).1 es).1 ∧ (run db (e :: es)).2 = (step db e).2 :: (run (step db e).1 es).2)
      as [E1 E2] by (cbn [run_events]; destruct (step db e) as [db1 y]; cbn [fst snd]; by destruct (run db1 es)).
    rewrite E1 in Hx. apply IH in Hx as [(y & Hy & Ey)|(r & t & hash & (i & Hi1 & Hi2) & H)].
    - destruct e as [r|reached cookie|t cookie|t|t].
      2-5: apply other_sessions in Hy as (z & Hz & Ez); [|done]; left; exists z; split; [done|congruence].
      cbn [run_event] in Hy, E1, E2. pose proof (login_sessions db r) as Hl.
      destruct (login_submit _ _ _ db r) as [db1 resp]. cbn [fst snd] in *.
      destruct resp as [| | | |tok]; [subst; left; by exists y..|left; exists y; by rewrite <-Hl|].
      destruct Hl as (Et & _ & (hash & Eh & Ev) & z & Ez & Ee & _). rewrite Ez in Hy.
      apply lookup_insert_Some in Hy as [[<- <-]|[_ Hy]]; [|left; by exists y].
      right. exists r, tok, hash. split_and!; try done; [|congruence]. exists 0%nat. by rewrite E2.
    - right. exists r, t, hash. split; [|exact H]. exists (S i). rewrite E2. by split. }
  unfold live in Hlive. destruct (sessions (run db es).1 !! sha256_hex token) as [x|] eqn:Ex; [|done].
  destruct (now <? se_expires_at x) eqn:Elt; [|done]. injection Hlive as <-.
  apply Hall in Ex as [(y & Hy & _)|(r & t & hash & H1 & H2 & H3 & H4 & H5 & H6)].
  - rewrite Hempty, lookup_empty in Hy. done.
  - exists r, t, hash. split_and!; try done. rewrite <-H6. lia.
Qed.
End throttling.

(** ** Workspaces *)

(** A session is bound to the active default workspace, or to the only active
    one, and otherwise to none. *)
Theorem workspace_never_guessed db :
  match workspace_for_new_session db with
  | Some id => ∃ w, w ∈ active_workspaces db ∧ ws_id w = id
      ∧ (ws_slug w = "default" ∨ active_workspaces db = [w])
  | None => (∀ w, w ∈ active_workspaces db → ws_slug w ≠ "default") ∧ length (active_workspaces db) ≠ 1%nat
  end.
Proof.
  unfold workspace_for_new_session. destruct (find_first _ (active_workspaces db)) as [w|] eqn:E.
  - apply find_first_Some in E as [Hw Hd%bool_decide_eq_true]. exists w. auto.
  - rewrite find_first_None in E. cbn [fmap option_fmap option_map select_workspace].
    destruct (active_workspaces db) as [|w [|w' l]]; cbn.
    + split; [|done]. intros w Hw. by apply not_elem_of_nil in Hw.
    + exists w. split_and!; [left|done|by right].
    + split; [|done]. intros x Hx Hd. specialize (E x Hx). by rewrite bool_decide_eq_true_2 in E.
Qed.

(** ** Concrete runs *)

Definition plain_verify (password hash : string) : option bool := Some (bool_decide (password = hash)).

Definition two_spaces : auth_db := MkAuth ∅ [] [MkWorkspace 1 "alpha" "active"; MkWorkspace 2 "default" "active"].

Definition attempt_at (forwarded : string) (password : string) (t : Z) (token : string) : login_request :=
  MkLogin (Some forwarded) None password (Some t) (Some t) (MkTx t t token true).

(** Five failures, a refusal of the right password, another address, and the
    right password after the window. *)
Definition guessing : list auth_event :=
  ((λ i, Login (attempt_at "1.1.1.1" "guess" i "t")) <$> [1; 2; 3; 4; 5])
  ++ [Login (attempt_at "1.1.1.1" "secret" 6 "t6"); Login (attempt_at "2.2.2.2, 1.1.1.1" "guess" 7 "t7");
      Login (attempt_at "1.1.1.1" "secret" (second * 901) "t8")].

Definition guessed := run_events id plain_verify (Some "secret") two_spaces guessing.

Example guessing_responses :
  guessed.2 = (Some <$> repeat WrongPassword 5 ++ [TooManyAttempts; WrongPassword; LoggedIn "t8"])
  ∧ require_workspace id guessed.1 (Some (second * 902)) (Some "a=b; swi_session=t8") = inl 2.
Proof. vm_compute. done. Qed.

(** The sixth guess is refused, though it is right; after four failures and a
    login four more are answered. *)
Lemma failures_throttled_witness :
  let early := (λ i, Login (attempt_at "1.1.1.1" "guess" i "t")) <$> [1; 2; 3; 4; 5] in
  (login_submit id plain_verify (Some "secret") (run_events id plain_verify (Some "secret") two_spaces early).1
     (attempt_at "1.1.1.1" "secret" 6 "t6")).2 = TooManyAttempts.
Proof.
  cbv zeta. set (early := _ <$> _ : list auth_event).
  assert (in_order 0 (early ++ [Login (attempt_at "1.1.1.1" "secret" 6 "t6")])) as Hclock
    by (vm_compute; repeat split; try discriminate; intros w [= <-]; discriminate).
  apply (proj2 (failures_throttled id plain_verify (Some "secret") two_spaces early 0
    (attempt_at "1.1.1.1" "secret" 6 "t6") 6 "secret" eq_refl Hclock eq_refl eq_refl)).
  vm_compute. reflexivity.
Defined.

Example login_forgets_failures :
  let guesses := ((λ i, Login (attempt_at "1.1.1.1" "guess" i "t")) <$> [1; 2; 3; 4])
    ++ [Login (attempt_at "1.1.1.1" "secret" 5 "t5")] ++ ((λ i, Login (attempt_at "1.1.1.1" "guess" i "t")) <$> [6; 7; 8; 9]) in
  (run_events id plain_verify (Some "secret") two_spaces guesses).2
  = Some <$> repeat WrongPassword 4 ++ [LoggedIn "t5"] ++ repeat WrongPassword 4.
Proof. vm_compute. reflexivity. Qed.

Lemma forged_forwarding_unlimited_witness :
  (Some TooManyAttempts ∈ (run_events id plain_verify (Some "secret") two_spaces
     (Login <$> [attempt_at "1" "a" 1 "t"; attempt_at "2" "b" 2 "t"; attempt_at "3" "c" 3 "t"])).2) → False.
Proof.
  apply (forged_forwarding_unlimited id plain_verify (Some "secret") two_spaces).
  - apply (bool_decide_unpack _). vm_compute. reflexivity.
  - intros r a _ Ha. cbn in Ha. inversion Ha.
Defined.

Lemma sessions_earned_witness :
  ∃ r t, issued id plain_verify (Some "secret") two_spaces guessing r t ∧ id t = "t8".
Proof.
  assert (∃ se, live id guessed.1 (second * 902) "t8" = Some se) as [se Hse] by (vm_compute; eexists; reflexivity).
  destruct (sessions_earned id plain_verify (Some "secret") two_spaces guessing "t8" (second * 902) se eq_refl Hse)
    as (r & t & hash & Hi & Et & _).
  exists r, t. exact (conj Hi Et).
Defined.
