(* ===== verification/Gmgn.v ===== *)
(** * The GMGN client (src/src/gmgn.rs)

    The weighted bucket, the query loop and the triage of token payloads.
    Instants and durations are nanoseconds.  One iteration of the loop is a
    [turn]: the instants it reads, the wall clock and the client id of its
    headers.  [http] is the client: the answer to the request of the [k]-th
    iteration; [parse_json] is [serde_json::from_str], [number_text] the text of
    a JSON number. *)
From stdpp Require Import base gmap list strings.
From stdpp Require Import options.
From S2P Require Import Prelude Text Floats Json CostBasis Decimals Helius.
Local Open Scope string_scope.
Local Open Scope list_scope.
Local Open Scope Z_scope.

Inductive RouteWeight := Light | Standard | Heavy | VeryHeavy.

Definition cost (w : RouteWeight) : Z :=
  match w with Light => 1 | Standard => 2 | Heavy => 3 | VeryHeavy => 5 end.

Definition route_weight (route : string) : RouteWeight :=
  default Standard (pick [(["trenches"; "trending"], Heavy); (["signal"; "smartmoney"; "kol"], VeryHeavy);
    (["info"; "security"], Light); (["pool"; "holders"; "traders"], Standard); (["stats"; "profits"], Heavy);
    (["activity"; "created_tokens"], Standard)] route).

(** ** The bucket *)

Module WeightedBucket.
Record WeightedBucket := mk {
  capacity : f64;
  refill_per_second : f64;
  tokens : f64;
  last_refill : Z;
  pause_until : option Z;
}.

Definition new (capacity refill_per_second now : Z) : WeightedBucket :=
  mk (f64_of_Z capacity) (f64_of_Z refill_per_second) (f64_of_Z capacity) now None.

Definition unpause (b : WeightedBucket) : WeightedBucket :=
  mk (capacity b) (refill_per_second b) (tokens b) (last_refill b) None.

Definition top_up (b : WeightedBucket) (now : Z) : WeightedBucket :=
  let elapsed := as_secs_f64 (Z.max 0 (now - last_refill b)) in
  if f64_ltb (f64_of_Z 0) elapsed
  then mk (capacity b) (refill_per_second b)
         (f64_min (f64_add (tokens b) (f64_mul elapsed (refill_per_second b))) (capacity b)) now (pause_until b)
  else b.

Definition refill (b : WeightedBucket) (now : Z) : WeightedBucket :=
  match pause_until b with
  | Some pause => if now <? pause then b else top_up (unpause b) now
  | None => top_up b now
  end.

(** [None]: the tokens were taken; otherwise how long to wait. *)
Definition try_acquire (b : WeightedBucket) (cost now : Z) : WeightedBucket * option Z :=
  let b := refill b now in
  let cost := f64_of_Z cost in
  if f64_leb cost (tokens b)
  then (mk (capacity b) (refill_per_second b) (f64_sub (tokens b) cost) (last_refill b) (pause_until b), None)
  else
    let deficit := f64_sub cost (tokens b) in
    let rate := f64_max (refill_per_second b) (f64_lit 1 1000) in
    let wait := from_secs_f64 (f64_div deficit rate) in
    (b, Some (match pause_until b with
              | Some pause => let pause_wait := Z.max 0 (pause - now) in if wait <? pause_wait then pause_wait else wait
              | None => wait
              end)).

Definition pause_for (b : WeightedBucket) (duration now : Z) : WeightedBucket :=
  mk (capacity b) (refill_per_second b) (tokens b) (last_refill b) (Some (now + duration)).

Definition current_tokens (b : WeightedBucket) (now : Z) : WeightedBucket * f64 :=
  let b := refill b now in (b, tokens b).
End WeightedBucket.
Abbreviation WeightedBucket := WeightedBucket.WeightedBucket.

(** ** Queries *)

Record HeaderPair := MkHeader { header_name : string; header_value : string }.

Record GmgnConfig := MkGmgnConfig {
  base_url : string;
  bucket_capacity : Z;
  bucket_refill_per_second : Z;
  timeout_seconds : Z;
  enabled_routes : list string;
}.

Definition default_config : GmgnConfig := MkGmgnConfig "https://openapi.gmgn.ai" 20 20 30 [].

Inductive gmgn_error :=
  | ApiKeyNotConfigured
  | RouteNotEnabled (route : string)
  | ApiKeyMissing
  | GmgnNetworkError (e : string)
  | GmgnDecodeError (e : string)
  | GmgnClientError (status : Z) (text : string)
  | GmgnServerError (status : Z)
  | PayloadNotJson
  | EnvelopeError (code : Z) (message : string).

Inductive gmgn_reply :=
  | NoResponse (e : string)
  | Response (status : Z) (reset : option string) (text : result string).

Record request := MkRequest { url : string; request_headers : list HeaderPair }.

Record turn := MkTurn { asked_at : Z; answered_at : Z; stamp_ms : Z; client_id : string }.

(** What one iteration did. *)
Inductive gmgn_step := Slept (d : Z) | Sent (k : nat) (r : request).

(** [BTreeMap] order. *)
Definition stable_query (params : gmap string string) : string :=
  join "&" ((λ p, p.1 +:+ "=" +:+ p.2) <$> stable_sort (λ a b, String.leb a.1 b.1) (map_to_list params)).

Section client.
Context {J : Type} `{JsonValue J} (parse_json : string → option J).
Context (http : nat → request → gmgn_reply) (turns : nat → turn).

Record GmgnEnvelope := MkEnvelope { code : Z; message : string; data : J }.

Definition is_error (e : GmgnEnvelope) : bool := negb (code e =? 0).

Definition is_configured (api_key : option string) : bool :=
  match api_key with Some k => negb (blank k) | None => false end.

Definition build_headers (api_key : option string) (t : turn) : gmgn_error + list HeaderPair :=
  match api_key with
  | Some k =>
      if blank k then inl ApiKeyMissing else
      inr [MkHeader "X-APIKEY" k; MkHeader "X-TIMESTAMP" (pretty (stamp_ms t)); MkHeader "X-CLIENT-ID" (client_id t);
           MkHeader "Content-Type" "application/json"]
  | None => inl ApiKeyMissing
  end.

Definition full_url (config : GmgnConfig) (route : string) (params : gmap string string) : string :=
  let url := str_rev (HeliusConfig.drop_slashes (str_rev (base_url config))) +:+ "/" +:+ route +:+ "/api/v1" in
  let query := stable_query params in
  if bool_decide (query = "") then url else url +:+ "?" +:+ query.

Definition envelope_of (value : J) : GmgnEnvelope :=
  MkEnvelope (default 0 (j_get value "code" ≫= as_i64)) (default "" (j_get value "message" ≫= as_str))
    (default j_null (j_get value "data")).

(** The result of an answer; [None] when it is to be asked again. *)
Definition settle (r : gmgn_reply) : option (gmgn_error + GmgnEnvelope) :=
  match r with
  | NoResponse e => Some (inl (GmgnNetworkError e))
  | Response _ _ (RErr e) => Some (inl (GmgnDecodeError e))
  | Response status _ (ROk text) =>
      if status =? 429 then None else
      if (400 <=? status) && (status <? 500) then Some (inl (GmgnClientError status text)) else
      if negb ((200 <=? status) && (status <? 300)) then Some (inl (GmgnServerError status)) else
      match parse_json text with
      | None => Some (inl PayloadNotJson)
      | Some value =>
          let envelope := envelope_of value in
          Some (if is_error envelope then inl (EnvelopeError (code envelope) (message envelope)) else inr envelope)
      end
  end.

(** The pause a 429 asks for. *)
Definition pause_of (r : gmgn_reply) : Z :=
  let reset := match r with
               | Response _ reset _ => reset ≫= λ v, from_str_radix 10 u64_max (trim v)
               | NoResponse _ => None
               end in
  Z.min (default SECONDS ((λ s, s * SECONDS) <$> reset)) (120 * SECONDS).

(** The loop from its [k]-th iteration; [None] is out of fuel. *)
Fixpoint query_loop (fuel : nat) (api_key : option string) (config : GmgnConfig) (route : string) (params : gmap string string)
    (k : nat) (b : WeightedBucket) : option (WeightedBucket * list gmgn_step * (gmgn_error + GmgnEnvelope)) :=
  match fuel with
  | O => None
  | S fuel =>
      let t := turns k in
      match WeightedBucket.try_acquire b (cost (route_weight route)) (asked_at t) with
      | (b, Some wait) =>
          '(b, log, r) ← query_loop fuel api_key config route params (S k) b;
          Some (b, Slept (Z.min wait (5 * SECONDS)) :: log, r)
      | (b, None) =>
          match build_headers api_key t with
          | inl e => Some (b, [], inl e)
          | inr headers =>
              let request := MkRequest (full_url config route params) headers in
              let reply := http k request in
              match settle reply with
              | Some r => Some (b, [Sent k request], r)
              | None =>
                  let b := WeightedBucket.pause_for b (pause_of reply) (answered_at t) in
                  '(b, log, r) ← query_loop fuel api_key config route params (S k) b;
                  Some (b, Sent k request :: Slept (100 * MILLIS) :: log, r)
              end
          end
      end
  end.

Definition query (fuel : nat) (api_key : option string) (config : GmgnConfig) (route : string) (params : gmap string string)
    (b : WeightedBucket) : option (WeightedBucket * list gmgn_step * (gmgn_error + GmgnEnvelope)) :=
  if negb (is_configured api_key) then Some (b, [], inl ApiKeyNotConfigured) else
  if negb (bool_decide (enabled_routes config = [])) && negb (contains route (enabled_routes config))
  then Some (b, [], inl (RouteNotEnabled route)) else
  query_loop fuel api_key config route params 0 b.
End client.
Arguments GmgnEnvelope : clear implicits.

(** ** Triage *)

Record TokenTriage {D : Type} := MkTriage {
  mint : string;
  symbol : option string;
  liquidity_usd : option D;
  market_cap_usd : option D;
  smart_degen_count : option Z;
  top_rat_trader_percentage : option D;
  top_bundler_trader_percentage : option D;
  fresh_wallet_rate : option D;
  private_vault_hold_rate : option D;
  is_wash_trading : option bool;
  dex_bot : option bool;
  sniper : option bool;
  bundler : option bool;
  rat_trader : option bool;
}.
Arguments TokenTriage : clear implicits.

Section triage.
Context {J D : Type} `{JsonValue J} `{DecimalNum D} (number_text : J → option string).

Definition parse_decimal (value : J) : option D :=
  match number_text value with
  | Some n => d_exact n
  | None => as_str value ≫= λ s, d_exact (trim s)
  end.

Definition from_payload (payload : J) : TokenTriage D :=
  let field key := parse_decimal (default j_null (j_get payload key)) in
  let flag key := j_get payload key ≫= as_bool in
  {| mint := default "" (union (j_get payload "address") (j_get payload "mint") ≫= as_str);
     symbol := j_get payload "symbol" ≫= as_str;
     liquidity_usd := field "liquidity";
     market_cap_usd := field "market_cap";
     smart_degen_count := wrap_u32 <$> (j_get payload "smart_degen_count" ≫= as_u64);
     top_rat_trader_percentage := field "top_rat_trader_percentage";
     top_bundler_trader_percentage := field "top_bundler_trader_percentage";
     fresh_wallet_rate := field "fresh_wallet_rate";
     private_vault_hold_rate := field "private_vault_hold_rate";
     is_wash_trading := flag "is_wash_trading";
     dex_bot := flag "dex_bot";
     sniper := flag "sniper";
     bundler := flag "bundler";
     rat_trader := flag "rat_trader" |}.

Definition above (limit : Z) (x : option D) : bool :=
  match x with Some p => d_ltb (d_of_Z limit) p | None => false end.

Definition risk_flags (t : TokenTriage D) : list string :=
  (if bool_decide (is_wash_trading t = Some true) then ["wash_trading"] else [])
  ++ (if bool_decide (dex_bot t = Some true) then ["dex_bot_activity"] else [])
  ++ (if above 30 (top_rat_trader_percentage t) then ["rat_trader_heavy"] else [])
  ++ (if above 50 (fresh_wallet_rate t) then ["fresh_wallet_heavy"] else []).

Definition skip_candidate (t : TokenTriage D) : bool := bool_decide (dex_bot t = Some true).
End triage.

(** ** What a query does *)

Lemma elem_of_contains (x : string) l : contains x l = true ↔ x ∈ l.
Proof. apply bool_decide_eq_true. Qed.

Section queries.
Context {J : Type} `{JsonValue J} (parse_json : string → option J).
Context (http : nat → request → gmgn_reply) (turns : nat → turn).
Context (api_key : option string) (config : GmgnConfig) (route : string) (params : gmap string string).
Set Default Proof Using "Type".
Local Abbreviation loop := (query_loop parse_json http turns).
Local Abbreviation settles := (settle parse_json).
Local Abbreviation price := (cost (route_weight route)).

(** The request of the [k]-th iteration. *)
Definition request_at (k : nat) : option request :=
  match build_headers api_key (turns k) with
  | inr headers => Some (MkRequest (full_url config route params) headers)
  | inl _ => None
  end.

(** Pauses of at most five seconds, requests of this route with the key. *)
Definition proper (s : gmgn_step) : Prop :=
  match s with Slept d => d <= 5 * SECONDS | Sent k r => request_at k = Some r end.

Definition asked_again (s : gmgn_step) : Prop :=
  match s with Slept _ => True | Sent k r => settles (http k r) = None end.

Lemma configured_headers t : is_configured api_key = true → ∃ hs, build_headers api_key t = inr hs.
Proof.
  unfold is_configured, build_headers. destruct api_key as [key|]; [|done]. destruct (blank key); [done|]. eauto.
Qed.

Lemma loop_answers fuel k b b' log r : is_configured api_key = true →
  loop fuel api_key config route params k b = Some (b', log, r) →
  ∃ before i req, log = before ++ [Sent i req] ∧ Forall asked_again before ∧ settles (http i req) = Some r
    ∧ Forall proper log.
Proof.
  intros Hkey. revert k b b' log r. induction fuel as [|fuel IH]; intros k b b' log r; [done|]. cbn [query_loop].
  destruct (WeightedBucket.try_acquire b price (asked_at (turns k))) as [b1 [wait|]].
  - destruct (loop fuel api_key config route params (S k) b1) as [[[b2 l] x]|] eqn:E; [|done]. intros [= <- <- <-].
    apply IH in E as (before & i & req & -> & Ha & Hs & Hp). exists (Slept (Z.min wait (5 * SECONDS)) :: before), i, req.
    split_and!; [done|by constructor|done|]. constructor; [cbn; lia|done].
  - destruct (configured_headers (turns k) Hkey) as [hs Eh]. rewrite Eh.
    set (rq := MkRequest (full_url config route params) hs).
    assert (request_at k = Some rq) as Hrq by (unfold request_at; by rewrite Eh).
    destruct (settles (http k rq)) as [x|] eqn:Es.
    + intros [= <- <- <-]. exists [], k, rq. split_and!; [done|done|done|by repeat constructor].
    + destruct (loop fuel api_key config route params (S k) _) as [[[b2 l] x]|] eqn:E; [|done]. intros [= <- <- <-].
      apply IH in E as (before & i & req & -> & Ha & Hs & Hp).
      exists (Sent k rq :: Slept (100 * MILLIS) :: before), i, req.
      split_and!; [done|by repeat constructor|done|]. constructor; [done|]. constructor; [unfold proper, MILLIS, SECONDS; lia|done].
Qed.

(** Without a key or for a route that is not enabled nothing is sent.
    Otherwise the result is that of the last answer, every earlier answer asked
    for another attempt, and every request is for the route and carries the key. *)
Theorem query_answers fuel b b' log r
    (Hq : query parse_json http turns fuel api_key config route params b = Some (b', log, r)) :
  (r = inl ApiKeyNotConfigured ∧ is_configured api_key = false ∧ log = [] ∧ b' = b)
  ∨ (r = inl (RouteNotEnabled route) ∧ enabled_routes config ≠ [] ∧ (route ∉ enabled_routes config) ∧ log = [] ∧ b' = b)
  ∨ (is_configured api_key = true ∧ (enabled_routes config = [] ∨ route ∈ enabled_routes config)
     ∧ ∃ before i req, log = before ++ [Sent i req] ∧ Forall asked_again before ∧ settles (http i req) = Some r
         ∧ Forall proper log).
Proof.
  unfold query in Hq. destruct (is_configured api_key) eqn:Ek; cbn [negb] in Hq.
  2: { left. by injection Hq as <- <- <-. }
  right. destruct (negb _ && negb _) eqn:Er in Hq.
  - left. injection Hq as <- <- <-. apply andb_prop in Er as [H1 H2]. rewrite negb_true_iff in H1, H2.
    apply bool_decide_eq_false in H1. split_and!; try done. intros Hin. apply elem_of_contains in Hin. congruence.
  - right. split; [done|]. split; [|by eapply loop_answers].
    apply andb_false_iff in Er as [H1|H2]; rewrite negb_false_iff in *; [left|right].
    + by apply bool_decide_eq_true in H1.
    + by apply elem_of_contains.
Qed.

Lemma f64_leb_min_r a x y : f64_leb a (f64_min x y) = true → f64_is_nan y = false → f64_leb a y = true.
Proof.
  unfold f64_min. intros Ha Hy. destruct (f64_is_nan x) eqn:Ex; [done|]. rewrite Hy in Ha.
  destruct (f64_ltb y x) eqn:Eyx; [done|]. eapply f64_leb_trans; [exact Ha|]. apply f64_leb_cmp. split_and!; [done|done|].
  destruct (cmp_leb f64_cmp x y) eqn:E; [done|]. exfalso.
  assert (f64_ltb y x = true) as Ht; [|congruence]. apply f64_ltb_cmp. split_and!; [done|done|].
  rewrite cmp_ltb_leb by apply f64_cmp_ok. by rewrite E.
Qed.

(** Too few tokens, whatever the clock says. *)
Definition starved (b : WeightedBucket) : Prop :=
  f64_is_nan (WeightedBucket.capacity b) = false
  ∧ f64_leb (f64_of_Z price) (WeightedBucket.capacity b) = false
  ∧ f64_leb (f64_of_Z price) (WeightedBucket.tokens b) = false.

Lemma starved_top_up b now : starved b → starved (WeightedBucket.top_up b now).
Proof.
  intros (H1 & H2 & H3). unfold WeightedBucket.top_up. destruct (f64_ltb _ _); [|by split_and!].
  split_and!; [done|done|]. cbn [WeightedBucket.tokens]. apply not_true_iff_false. intros E.
  apply f64_leb_min_r in E; [congruence|done].
Qed.

Lemma starved_refill b now : starved b → starved (WeightedBucket.refill b now).
Proof.
  intros Hb. unfold WeightedBucket.refill. destruct (WeightedBucket.pause_until b); [|by apply starved_top_up].
  destruct (now <? _); [exact Hb|]. apply starved_top_up. exact Hb.
Qed.

Lemma starved_waits b now : starved b →
  ∃ wait, WeightedBucket.try_acquire b price now = (WeightedBucket.refill b now, Some wait).
Proof.
  intros Hb. apply (starved_refill b now) in Hb as (_ & _ & H3). unfold WeightedBucket.try_acquire. rewrite H3. eauto.
Qed.

(** A route that costs more than the configured capacity is never sent: its
    query waits for ever. *)
Theorem dear_route_starves fuel b (Hkey : is_configured api_key = true)
    (Hroute : enabled_routes config = [] ∨ route ∈ enabled_routes config) (Hb : starved b) :
  query parse_json http turns fuel api_key config route params b = None.
Proof.
  assert (∀ k b, starved b → loop fuel api_key config route params k b = None) as Hloop.
  { clear. induction fuel as [|fuel IH]; intros k b Hb; [done|]. cbn [query_loop].
    destruct (starved_waits b (asked_at (turns k)) Hb) as [wait ->]. by rewrite IH by (by apply starved_refill). }
  unfold query. rewrite Hkey. cbn [negb]. destruct (negb _ && negb _) eqn:E; [|by apply Hloop].
  apply andb_prop in E as [E1 E2]. rewrite negb_true_iff in E1, E2. apply bool_decide_eq_false in E1.
  destruct Hroute as [?|Hin%elem_of_contains]; congruence.
Qed.

(** A provider that keeps answering 429 keeps the query for ever. *)
Theorem query_endless fuel b (Hkey : is_configured api_key = true)
    (Hroute : enabled_routes config = [] ∨ route ∈ enabled_routes config)
    (H429 : ∀ k req, ∃ reset text, http k req = Response 429 reset (ROk text)) :
  query parse_json http turns fuel api_key config route params b = None.
Proof.
  assert (∀ k, loop fuel api_key config route params k b = None) as Hloop.
  { revert b. induction fuel as [|fuel IH]; intros b k; [done|]. cbn [query_loop].
    destruct (WeightedBucket.try_acquire b price (asked_at (turns k))) as [b1 [wait|]]; [by rewrite IH|].
    destruct (configured_headers (turns k) Hkey) as [hs ->].
    destruct (H429 k (MkRequest (full_url config route params) hs)) as (reset & text & ->). cbn. by rewrite IH. }
  unfold query. rewrite Hkey. cbn [negb]. destruct (negb _ && negb _) eqn:E; [|by apply Hloop].
  apply andb_prop in E as [E1 E2]. rewrite negb_true_iff in E1, E2. apply bool_decide_eq_false in E1.
  destruct Hroute as [?|Hin%elem_of_contains]; congruence.
Qed.
End queries.

(** While the bucket holds the tokens, a pause stops nothing. *)
Theorem pause_grants_tokens b price pause now (Hp : WeightedBucket.pause_until b = Some pause) (Hnow : now < pause)
    (Htokens : f64_leb (f64_of_Z price) (WeightedBucket.tokens b) = true) :
  (WeightedBucket.try_acquire b price now).2 = None.
Proof.
  unfold WeightedBucket.try_acquire, WeightedBucket.refill. rewrite Hp, (proj2 (Z.ltb_lt _ _)) by lia. by rewrite Htokens.
Qed.

(** ** Triage *)

(** The flags are distinct, and a token to be skipped carries the bot flag. *)
Theorem triage_flags {D} `{DecimalNum D} (t : TokenTriage D) :
  NoDup (risk_flags t) ∧ (skip_candidate t = true ↔ "dex_bot_activity" ∈ risk_flags t)
  ∧ (∀ t', top_rat_trader_percentage t' = top_rat_trader_percentage t → fresh_wallet_rate t' = fresh_wallet_rate t →
      is_wash_trading t' = is_wash_trading t → dex_bot t' = dex_bot t → risk_flags t' = risk_flags t).
Proof.
  split_and!.
  - unfold risk_flags. repeat (case_bool_decide || destruct (above _ _)); apply (bool_decide_unpack _); reflexivity.
  - unfold skip_candidate, risk_flags. case_bool_decide as Hd.
    + split; [|done]. intros _. rewrite !elem_of_app. right. left. left.
    + split; [done|]. intros Hin. exfalso. revert Hin. apply (bool_decide_unpack _).
      destruct (bool_decide (is_wash_trading t = Some true)), (above 30 _), (above 50 _); reflexivity.
  - intros t' H1 H2 H3 H4. unfold risk_flags. by rewrite H1, H2, H3, H4.
Qed.

(** ** Concrete queries *)

Definition steady (k : nat) : turn := MkTurn (Z.of_nat k * 100 * MILLIS) (Z.of_nat k * 100 * MILLIS) 0 "id".

Definition parse_sample (s : string) : option json :=
  if bool_decide (s = "ok") then Some (JObject [("code", JInt 0); ("data", JStr "d")])
  else if bool_decide (s = "coded") then Some (JObject [("code", JStr "40001")])
  else if bool_decide (s = "quota") then Some (JObject [("code", JInt 1001); ("message", JStr "quota exceeded")]) else None.

(** The first answer asks for a minute's pause, the second succeeds. *)
Definition limited_once (k : nat) (_ : request) : gmgn_reply :=
  match k with O => Response 429 (Some "60") (ROk "") | _ => Response 200 None (ROk "ok") end.

Definition sample_bucket : WeightedBucket := WeightedBucket.new 20 20 0.

Definition sample_query (http : nat → request → gmgn_reply) := query parse_sample http steady 10 (Some "k") default_config "info" ∅ sample_bucket.

(** A tenth of a second after being asked to wait a minute, the next request is sent. *)
Example retried_while_paused :
  match sample_query limited_once with
  | Some (b, [Sent 0 _; Slept d; Sent 1 r], inr e) =>
      d = 100 * MILLIS ∧ WeightedBucket.pause_until b = Some (60 * SECONDS) ∧ asked_at (steady 1) = 100 * MILLIS
      ∧ url r = "https://openapi.gmgn.ai/info/api/v1" ∧ data e = JStr "d"
  | _ => False
  end.
Proof. vm_compute. done. Qed.

(** An error code that is a JSON string passes for success. *)
Example string_code_succeeds :
  match sample_query (λ _ _, Response 200 None (ROk "coded")) with Some (_, _, inr e) => code e = 0 | _ => False end.
Proof. vm_compute. done. Qed.

Example nonzero_code_fails :
  match sample_query (λ _ _, Response 200 None (ROk "quota")) with
  | Some (_, _, inl (EnvelopeError 1001 m)) => m = "quota exceeded" | _ => False end.
Proof. vm_compute. done. Qed.

(** Values are not percent-encoded: two different queries have one text. *)
Example stable_query_ambiguous :
  stable_query {[ "a" := "1&b=2" ]} = stable_query {[ "a" := "1"; "b" := "2" ]}
  ∧ ({[ "a" := "1&b=2" ]} : gmap string string) ≠ {[ "a" := "1"; "b" := "2" ]}.
Proof. split; [vm_compute; reflexivity|]. intros E. apply (f_equal (lookup "b")) in E. vm_compute in E. done. Qed.

Lemma query_answers_witness :
  ∃ b log r, sample_query limited_once = Some (b, log, r) ∧
   ((r = inl ApiKeyNotConfigured ∧ is_configured (Some "k") = false ∧ log = [] ∧ b = sample_bucket)
  ∨ (r = inl (RouteNotEnabled "info") ∧ enabled_routes default_config ≠ [] ∧ ("info" ∉ enabled_routes default_config) ∧ log = []
     ∧ b = sample_bucket)
  ∨ (is_configured (Some "k") = true ∧ (enabled_routes default_config = [] ∨ "info" ∈ enabled_routes default_config)
     ∧ ∃ before i req, log = before ++ [Sent i req] ∧ Forall (asked_again parse_sample limited_once) before
         ∧ settle parse_sample (limited_once i req) = Some r ∧ Forall (proper steady (Some "k") default_config "info" ∅) log)).
Proof.
  assert (is_Some (sample_query limited_once)) as [[[b log] r] E] by (vm_compute; eexists; reflexivity).
  exists b, log, r. split; [exact E|].
  exact (query_answers parse_sample limited_once steady (Some "k") default_config "info" ∅ 10 sample_bucket b log r E).
Defined.

Lemma dear_route_starves_witness :
  query parse_sample limited_once steady 50 (Some "k") default_config "kol" ∅ (WeightedBucket.new 4 4 0) = None.
Proof.
  apply dear_route_starves; [reflexivity|left; reflexivity|]. vm_compute. done.
Defined.

Lemma query_endless_witness :
  query parse_sample (λ _ _, Response 429 None (ROk "")) steady 50 (Some "k") default_config "info" ∅ sample_bucket = None.
Proof. apply query_endless; [reflexivity|left; reflexivity|]. intros k req. exists None, "". reflexivity. Defined.

Lemma pause_grants_tokens_witness :
  (WeightedBucket.try_acquire (WeightedBucket.pause_for sample_bucket (60 * SECONDS) 0) 5 SECONDS).2 = None.
Proof. apply (pause_grants_tokens _ 5 (60 * SECONDS)); [reflexivity|vm_compute; reflexivity|vm_compute; reflexivity]. Defined.
