(* ===== verification/Idempotency.v ===== *)
(** * The ingestion pipeline and its idempotency keys (src/src/sf/ingest_runtime.rs, ingest.rs, core.rs)

    The stages over one payload, the two-phase store as an interface with the
    in-memory implementation, and the keys: the text of ingest_runtime.rs and
    the record of core.rs. *)
From stdpp Require Import gmap sets list strings.
From stdpp Require Import options.
From S2P Require Import Prelude Text Floats Domain Json.
Local Open Scope string_scope.
Local Open Scope Z_scope.
Local Open Scope list_scope.

(** ** ingest.rs *)

Module Chain.
Inductive Chain := Solana | Robinhood | Ethereum | Base | Bsc.

Definition as_str (c : Chain) : string :=
  match c with Solana => "solana" | Robinhood => "robinhood" | Ethereum => "ethereum" | Base => "base" | Bsc => "bsc" end.
End Chain.
Abbreviation Chain := Chain.Chain.

Module IngestionStage.
Inductive IngestionStage :=
  | Fetch | RawEvidenceWrite | EnvelopeValidation | IdempotentAppend | Normalization
  | EntityResolution | GraphEdges | ScalarProjections | TriggerEvaluation | JobsOutbox.
#[global] Instance IngestionStage_eq_dec : EqDecision IngestionStage.
Proof. solve_decision. Defined.
End IngestionStage.
Abbreviation IngestionStage := IngestionStage.IngestionStage.

Module StageResult.
Inductive StageResult :=
  | Ok (s : IngestionStage)
  | Skipped (s : IngestionStage) (reason : string)
  | Failed (s : IngestionStage) (reason : string).
End StageResult.
Abbreviation StageResult := StageResult.StageResult.

Definition stage_of (r : StageResult) : IngestionStage :=
  match r with StageResult.Ok s | StageResult.Skipped s _ | StageResult.Failed s _ => s end.

(** ** The store *)

Record DurableAppendReceipt := MkReceipt { receipt_key : string }.

Definition matches (r : DurableAppendReceipt) (key : string) : bool := bool_decide (receipt_key r = key).

Class IdempotencyStore (S : Type) := {
  contains_key : S → string → bool;
  commit : S → string → DurableAppendReceipt → S;
}.

(** A commit adds its key when the receipt is bound to it, and nothing else. *)
Class LawfulIdempotency (S : Type) `{IdempotencyStore S} :=
  contains_commit (s : S) key receipt key' :
    contains_key (commit s key receipt) key' = contains_key s key' || (matches receipt key && bool_decide (key' = key)).

Record InMemoryIdempotency := MkMemory { committed : gset string }.

#[global] Instance InMemory_store : IdempotencyStore InMemoryIdempotency := {|
  contains_key s key := bool_decide (key ∈ committed s);
  commit s key receipt := if matches receipt key then MkMemory ({[ key ]} ∪ committed s) else s;
|}.

#[global] Instance InMemory_lawful : LawfulIdempotency InMemoryIdempotency.
Proof.
  intros s key receipt key'. cbn. destruct (matches receipt key); cbn; [|by rewrite orb_false_r].
  apply eq_true_iff_eq. rewrite orb_true_iff, !bool_decide_eq_true. set_solver.
Qed.

(** ** One payload *)

Section pipeline.
Context {J : Type} `{JsonValue J}.

Record RawPayload := MkPayload {
  chain : Chain;
  source_name : string;
  source_event_id : option string;
  event_type : string;
  payload_schema_version : string;
  raw_hash : string;
  observed_at : Z;
  payload : J;
}.

Record PipelineOutcome := MkOutcome { stages : list StageResult; accepted : bool; deduped : bool }.

Definition time_bucket (unix_secs : Z) : Z := unix_secs / 3600.

Definition normalize_entity_keys (raw : RawPayload) : option (list string) :=
  if negb (is_object (payload raw)) then None else
  let qualified kind key other :=
    match union (j_get (payload raw) key) (j_get (payload raw) other) ≫= as_str with
    | Some a => [kind +:+ ":" +:+ Chain.as_str (chain raw) +:+ ":" +:+ a]
    | None => []
    end in
  match qualified "token" "token" "mint" ++ qualified "wallet" "wallet" "from" with
  | [] => None
  | keys => Some keys
  end.

Definition idempotency_key (raw : RawPayload) : string :=
  match source_event_id raw with
  | Some id => source_name raw +:+ "|" +:+ id +:+ "|" +:+ payload_schema_version raw
  | None =>
      let entity := join "," (default [] (normalize_entity_keys raw)) in
      source_name raw +:+ "|" +:+ entity +:+ "|" +:+ event_type raw +:+ "|" +:+ pretty (time_bucket (observed_at raw))
      +:+ "|" +:+ raw_hash raw
  end.

Definition incomplete (raw : RawPayload) : bool :=
  blank (raw_hash raw) || blank (payload_schema_version raw) || blank (source_name raw) || blank (event_type raw).

Definition run_pipeline {S} `{IdempotencyStore S} (idem : S) (raw : RawPayload) : PipelineOutcome :=
  let trace := [StageResult.Ok IngestionStage.Fetch;
    StageResult.Skipped IngestionStage.RawEvidenceWrite "no raw evidence writer backend (pure logic slice)"] in
  if incomplete raw then
    MkOutcome (trace ++ [StageResult.Failed IngestionStage.EnvelopeValidation
      "incomplete envelope: raw_hash/schema_version/source_name/event_type required"]) false false
  else
    let trace := trace ++ [StageResult.Ok IngestionStage.EnvelopeValidation] in
    if contains_key idem (idempotency_key raw) then
      MkOutcome (trace ++ [StageResult.Skipped IngestionStage.IdempotentAppend "duplicate committed idempotency key"]) false true
    else
      let trace := trace ++ [StageResult.Skipped IngestionStage.IdempotentAppend
        "no canonical append backend (pure logic slice)"] in
      match normalize_entity_keys raw with
      | Some _ =>
          MkOutcome (trace ++ [StageResult.Ok IngestionStage.Normalization;
            StageResult.Skipped IngestionStage.EntityResolution "no graph backend (pure logic slice)";
            StageResult.Skipped IngestionStage.GraphEdges "no graph backend (pure logic slice)";
            StageResult.Skipped IngestionStage.ScalarProjections "no projection backend (pure logic slice)";
            StageResult.Skipped IngestionStage.TriggerEvaluation "no trigger backend (pure logic slice)";
            StageResult.Skipped IngestionStage.JobsOutbox "no jobs/outbox backend (pure logic slice)"]) false false
      | None =>
          MkOutcome (trace ++ [StageResult.Skipped IngestionStage.Normalization
            "no entity keys derivable (malformed or empty payload)"]) false false
      end.

(** ** Runs: payloads and commits in any order *)

Inductive ingest_event := Process (raw : RawPayload) | Commit (key : string) (receipt : DurableAppendReceipt).

Fixpoint run_ingest {S} `{IdempotencyStore S} (s : S) (es : list ingest_event) : S * list (option PipelineOutcome) :=
  match es with
  | [] => (s, [])
  | Process raw :: es => let '(s', xs) := run_ingest s es in (s', Some (run_pipeline s raw) :: xs)
  | Commit key receipt :: es => let '(s', xs) := run_ingest (commit s key receipt) es in (s', None :: xs)
  end.
End pipeline.
Arguments RawPayload : clear implicits.
Arguments ingest_event : clear implicits.

(** ** core.rs *)

Record EventEnvelope := MkEnvelope {
  event_id : string;
  env_workspace_id : option string;
  env_chain : option string;
  env_event_type : string;
  entity_keys : list string;
  source_id : string;
  env_source_event_id : option string;
  occurred_at : option string;
  env_observed_at : string;
  ingested_at : string;
  env_raw_hash : string;
  raw_ref : string;
  parser_version : option string;
  env_schema_version : string;
  env_truth_status : TruthStatus;
  confidence : option f64;
}.

Inductive IdempotencyKey :=
  | StableId (source_id source_event_id payload_schema_version : string)
  | Fallback (source_id normalized_entity event_type time_bucket raw_hash : string).

Section envelope.
Context (parse_rfc3339 : string → option instant).

Definition envelope_bucket (observed_at : string) : option string :=
  (λ dt, pretty (timestamp dt / 3600)) <$> parse_rfc3339 observed_at.

Definition envelope_key (e : EventEnvelope) : option IdempotencyKey :=
  bucket ← envelope_bucket (env_observed_at e);
  match env_source_event_id e with
  | Some id => Some (StableId (source_id e) id (env_schema_version e))
  | None =>
      Some (Fallback (source_id e) (join "," (entity_keys e)) (env_event_type e) bucket (env_raw_hash e))
  end.
End envelope.

(** ** Stages *)

Section pipeline_facts.
Context {J : Type} `{JsonValue J} {S : Type} `{LawfulIdempotency S}.
Set Default Proof Using "Type".

Definition all_stages : list IngestionStage :=
  [IngestionStage.Fetch; IngestionStage.RawEvidenceWrite; IngestionStage.EnvelopeValidation; IngestionStage.IdempotentAppend;
   IngestionStage.Normalization; IngestionStage.EntityResolution; IngestionStage.GraphEdges;
   IngestionStage.ScalarProjections; IngestionStage.TriggerEvaluation; IngestionStage.JobsOutbox].

Definition reached (s : S) (raw : RawPayload J) : nat :=
  if incomplete raw then 3 else if contains_key s (idempotency_key raw) then 4
  else match normalize_entity_keys raw with Some _ => 10 | None => 5 end.

(** The trace is a prefix of the ten stages in their order: three when the
    envelope is incomplete, which is the only failure; four for a duplicate,
    which is not normalised again; five without entity keys; else all ten.
    Only fetching, validation and normalisation are reported as done, and
    nothing is accepted. *)
Theorem pipeline_trace (s : S) (raw : RawPayload J) :
  let o := run_pipeline s raw in
  stage_of <$> stages o = take (reached s raw) all_stages
  ∧ accepted o = false
  ∧ (deduped o = true ↔ incomplete raw = false ∧ contains_key s (idempotency_key raw) = true)
  ∧ ∀ r, r ∈ stages o → match r with
      | StageResult.Ok st => st = IngestionStage.Fetch ∨ st = IngestionStage.EnvelopeValidation
          ∨ (st = IngestionStage.Normalization ∧ deduped o = false ∧ is_Some (normalize_entity_keys raw))
      | StageResult.Failed st _ => st = IngestionStage.EnvelopeValidation ∧ incomplete raw = true
      | StageResult.Skipped _ _ => incomplete raw = false ∨ stage_of r = IngestionStage.RawEvidenceWrite
      end.
Proof.
  unfold run_pipeline, reached. destruct (incomplete raw); [|destruct (contains_key s (idempotency_key raw));
    [|destruct (normalize_entity_keys raw) as [ks|]]]; cbn; (split_and!; [done|done|naive_solver|]);
    intros r Hr; repeat (apply elem_of_cons in Hr as [->|Hr]; [naive_solver|]); by apply not_elem_of_nil in Hr.
Qed.

Set Default Proof Using "Type*".
Lemma run_ingest_deduped (s : S) es i raw : es !! i = Some (Process raw) →
  ∃ o, (run_ingest s es).2 !! i = Some (Some o)
    ∧ (deduped o = true ↔ incomplete raw = false
        ∧ (contains_key s (idempotency_key raw) = true
           ∨ ∃ j receipt, (j < i)%nat ∧ es !! j = Some (Commit (idempotency_key raw) receipt)
               ∧ receipt_key receipt = idempotency_key raw)).
Proof.
  revert s i. induction es as [|e es IH]; intros s i Hi; [done|]. destruct i as [|i].
  - injection Hi as ->. cbn [run_ingest]. destruct (run_ingest s es) as [s' xs]. eexists. split; [reflexivity|].
    rewrite (proj1 (proj2 (proj2 (pipeline_trace s raw)))). split; [naive_solver|].
    intros [? [?|(j & ? & ? & _)]]; [done|lia].
  - cbn in Hi. destruct e as [raw'|key receipt]; cbn [run_ingest].
    + destruct (IH s i Hi) as (o & Ho & Hd). destruct (run_ingest s es) as [s' xs]. exists o. split; [exact Ho|].
      rewrite Hd. split; (intros [? Hc]; split; [done|]); (destruct Hc as [Hc|(j & rc & Hj & Hr & Hk)]; [by left|right]).
      * exists (Datatypes.S j), rc. split_and!; [lia|exact Hr|done].
      * destruct j as [|j]; [done|]. exists j, rc. split_and!; [lia|exact Hr|done].
    + destruct (IH (commit s key receipt) i Hi) as (o & Ho & Hd). destruct (run_ingest (commit s key receipt) es) as [s' xs].
      exists o. split; [exact Ho|]. rewrite Hd, contains_commit, orb_true_iff, andb_true_iff. unfold matches.
      rewrite !bool_decide_eq_true. split; intros [? Hc]; (split; [done|]).
      * destruct Hc as [[Hc|[Hm Hk]]|(j & rc & Hj & Hr & Hk)]; [by left|right|right].
        -- exists O, receipt. split_and!; [lia|by rewrite Hk|congruence].
        -- exists (Datatypes.S j), rc. split_and!; [lia|exact Hr|done].
      * destruct Hc as [Hc|([|j] & rc & Hj & Hr & Hk)]; [by left; left|left; right|right].
        -- injection Hr as -> ->. split; [congruence|done].
        -- exists j, rc. split_and!; [lia|exact Hr|done].
Qed.

(** Over any run that starts with an empty store, a payload is skipped as a
    duplicate exactly when its envelope is complete and its key was committed
    earlier with a receipt bound to that key. *)
Theorem duplicates_committed (s : S) es i raw (Hempty : ∀ key, contains_key s key = false) (Hi : es !! i = Some (Process raw)) :
  ∃ o, (run_ingest s es).2 !! i = Some (Some o)
    ∧ (deduped o = true ↔ incomplete raw = false
        ∧ ∃ j receipt, (j < i)%nat ∧ es !! j = Some (Commit (idempotency_key raw) receipt)
            ∧ receipt_key receipt = idempotency_key raw).
Proof.
  destruct (run_ingest_deduped s es i raw Hi) as (o & Ho & Hd). exists o. split; [done|]. rewrite Hd, Hempty. naive_solver.
Qed.
End pipeline_facts.

(** ** Keys *)

Local Abbreviation bar := "|"%char.

Lemma bar_app (a b : string) : a +:+ "|" +:+ b = a +:+ String bar b.
Proof. done. Qed.

(** What a key is made of. *)
Definition key_parts {J} `{JsonValue J} (raw : RawPayload J) : list string :=
  match source_event_id raw with
  | Some id => [source_name raw; id; payload_schema_version raw]
  | None => [source_name raw; join "," (default [] (normalize_entity_keys raw)); event_type raw;
             pretty (time_bucket (observed_at raw)); raw_hash raw]
  end.

Lemma join_bars_inj l k : Forall (no_char bar) l → Forall (no_char bar) k → l ≠ [] → k ≠ [] →
  join "|" l = join "|" k → l = k.
Proof.
  intros Hl. revert k. induction Hl as [|a l Ha Hl IH]; intros k Hk Hn1 Hn2 E; [done|].
  destruct Hk as [|b k Hb Hk]; [done|]. destruct l as [|a2 l], k as [|b2 k].
  - cbn in E. by subst.
  - cbn [join] in E. rewrite E in Ha. rewrite bar_app in Ha. apply no_char_app in Ha as [_ [Ha _]]. done.
  - cbn [join] in E. rewrite <-E in Hb. rewrite bar_app in Hb. apply no_char_app in Hb as [_ [Hb _]]. done.
  - change (join "|" (a :: a2 :: l)) with (a +:+ "|" +:+ join "|" (a2 :: l)) in E.
    change (join "|" (b :: b2 :: k)) with (b +:+ "|" +:+ join "|" (b2 :: k)) in E. rewrite !bar_app in E.
    apply sep_app_inj in E as [-> E]; [|done|done]. f_equal. by apply IH.
Qed.

Lemma idempotency_key_join {J} `{JsonValue J} (raw : RawPayload J) : idempotency_key raw = join "|" (key_parts raw).
Proof. unfold idempotency_key, key_parts. by destruct (source_event_id raw). Qed.

(** Payloads whose parts hold no bar have one key exactly when their parts
    agree: no two different payloads are taken for each other. *)
Theorem idempotency_key_injective {J} `{JsonValue J} (a b : RawPayload J)
    (Ha : Forall (no_char bar) (key_parts a)) (Hb : Forall (no_char bar) (key_parts b)) :
  idempotency_key a = idempotency_key b ↔ key_parts a = key_parts b.
Proof.
  rewrite !idempotency_key_join. split; [|by intros ->]. apply join_bars_inj; try done.
  all: unfold key_parts; by destruct (source_event_id _).
Qed.

(** One bucket an hour, also before the epoch. *)
Theorem time_bucket_hour a b : time_bucket a = time_bucket b ↔ ∃ h, h * 3600 <= a < (h + 1) * 3600 ∧ h * 3600 <= b < (h + 1) * 3600.
Proof.
  unfold time_bucket. split.
  - intros E. exists (a / 3600). pose proof (Z.div_mod a 3600). pose proof (Z.mod_pos_bound a 3600).
    pose proof (Z.div_mod b 3600). pose proof (Z.mod_pos_bound b 3600). lia.
  - intros (h & Ha & Hb). rewrite <-(Z.div_unique a 3600 h (a - 3600 * h)), <-(Z.div_unique b 3600 h (b - 3600 * h)) by lia. done.
Qed.

(** The two definitions of the fallback key agree on its parts; a malformed
    instant is refused by the record alone. *)
Theorem envelope_key_parts parse_rfc3339 (e : EventEnvelope) :
  match envelope_key parse_rfc3339 e with
  | None => parse_rfc3339 (env_observed_at e) = None
  | Some (StableId s id v) => env_source_event_id e = Some id ∧ s = source_id e ∧ v = env_schema_version e
  | Some (Fallback s n t bucket h) =>
      env_source_event_id e = None
      ∧ ∃ at_, parse_rfc3339 (env_observed_at e) = Some at_ ∧ bucket = pretty (time_bucket (timestamp at_))
         ∧ [s; n; t; h] = [source_id e; join "," (entity_keys e); env_event_type e; env_raw_hash e]
  end.
Proof.
  unfold envelope_key, envelope_bucket. destruct (parse_rfc3339 _) as [t|]; cbn; [|done].
  destruct (env_source_event_id e) as [id|]; [done|]. split; [done|]. by exists t.
Qed.

(** ** Concrete payloads *)

Definition sample (source : string) (id : option string) (version hash token : string) : RawPayload json :=
  MkPayload Chain.Solana source id "transfer" version hash 0 (JObject [("token", JStr token)]).

(** The parts are not framed: a bar in an upstream id moves the boundary, and a
    payload with an id can take the key of one without. *)
Example keys_collide :
  idempotency_key (sample "s" (Some "x|y") "1" "h" "A") = idempotency_key (sample "s|x" (Some "y") "1" "h" "A")
  ∧ idempotency_key (sample "s" (Some "token:solana:A|transfer|0") "h" "h" "A") = idempotency_key (sample "s" None "1" "h" "A").
Proof. vm_compute. done. Qed.

(** The colliding payload is dropped as a duplicate of the other. *)
Example colliding_payload_dropped :
  let key := idempotency_key (sample "s" (Some "x|y") "1" "h" "A") in
  option_map deduped <$> (run_ingest (MkMemory ∅) [Commit key (MkReceipt key); Process (sample "s|x" (Some "y") "1" "h2" "B")]).2
  = [None; Some true].
Proof. vm_compute. reflexivity. Qed.

Lemma duplicates_committed_witness :
  let raw := sample "s" None "1" "h" "A" in
  let key := idempotency_key raw in
  ∃ o, (run_ingest (MkMemory ∅) [Process raw; Commit key (MkReceipt key); Process raw]).2 !! 2%nat = Some (Some o)
    ∧ (deduped o = true ↔ incomplete raw = false
        ∧ ∃ j receipt, (j < 2)%nat
            ∧ [Process raw; Commit key (MkReceipt key); Process raw] !! j = Some (Commit (idempotency_key raw) receipt)
            ∧ receipt_key receipt = idempotency_key raw).
Proof. cbv zeta. apply duplicates_committed; [intros key; reflexivity|reflexivity]. Defined.

Lemma idempotency_key_injective_witness :
  idempotency_key (sample "s" (Some "x") "1" "h" "A") = idempotency_key (sample "s" (Some "y") "1" "h" "A")
  ↔ key_parts (sample "s" (Some "x") "1" "h" "A") = key_parts (sample "s" (Some "y") "1" "h" "A").
Proof. apply idempotency_key_injective; repeat constructor; vm_compute; repeat split; discriminate. Defined.
