(* ===== verification/Runtimes.v ===== *)
(** * Callers, liquidity, browser captures, dashboard and authorisation

    sf/caller_runtime.rs, lp_runtime.rs, browser_runtime.rs,
    dashboard_runtime.rs, auth.rs and identity.rs, one Module each.  A sum of
    [f64] starts at -0.0, as the library of the pinned compiler does.
    [to_lowercase] (the Unicode tables), [Decimal::to_string] and the parser of
    [f64] are parameters. *)
From Stdlib Require Import QArith.QArith_base.
From stdpp Require Import base gmap sets list strings.
From stdpp Require Import options.
From S2P Require Import Prelude Text Floats Domain CostBasis Decimals.
Local Open Scope string_scope.
Local Open Scope Z_scope.
Local Open Scope list_scope.

Module Callers.
Inductive CallerPlatform := Telegram | X | Web | Tiktok.

Record CallOutcome := MkOutcome {
  mfe : option f64;
  mae : option f64;
  copy_entry : option f64;
  copy_pnl : option f64;
  outcome_window_days : Z;
}.

Record Call := MkCall {
  call_caller_id : string;
  call_platform : CallerPlatform;
  call_token : string;
  occurred_at : string;
  lead_time : option string;
  immutable_t0_snapshot : string;
  outcome : option CallOutcome;
}.

Record CallerReputation := MkReputation {
  caller_id : string;
  regime : string;
  sample_size : Z;
  sample_confidence : option f64;
  hit_rate_of : option f64;
  avg_mfe : option f64;
}.

Definition MAX_OUTCOME_WINDOW_DAYS : Z := 21.

Definition clamp_window_days (days : Z) : Z := Z.min days MAX_OUTCOME_WINDOW_DAYS.

Definition pnl_of (c : Call) : option f64 := outcome c ≫= copy_pnl.

Definition is_hit (c : Call) : bool := match pnl_of c with Some p => f64_ltb (f64_of_Z 0) p | None => false end.

Definition hit_rate (calls : list Call) : option f64 :=
  match List.filter (λ c, bool_decide (is_Some (pnl_of c))) calls with
  | [] => None
  | resolved => Some (f64_div (f64_of_Z (Z.of_nat (length (List.filter is_hit resolved)))) (f64_of_Z (Z.of_nat (length resolved))))
  end.

(** [Iterator::sum] of [f64]. *)
Definition f64_sum (l : list f64) : f64 := foldl f64_add (S754_zero true) l.

Definition average_mfe (calls : list Call) : option f64 :=
  match omap (λ c, outcome c ≫= mfe) calls with
  | [] => None
  | mfes => Some (f64_div (f64_sum mfes) (f64_of_Z (Z.of_nat (length mfes))))
  end.

Definition build_reputation (id reg : string) (calls : list Call) : CallerReputation :=
  let n := wrap_u32 (Z.of_nat (length calls)) in
  let confidence := f64_sub (f64_of_Z 1) (f64_div (f64_of_Z 1) (f64_add (f64_of_Z n) (f64_of_Z 1))) in
  MkReputation id reg n (Some confidence) (hit_rate calls) (average_mfe calls).
End Callers.

Module Lp.
Inductive LpProtocol := MeteoraDlmm | UniswapV2 | UniswapV3 | UniswapV4 | PancakeV2 | PancakeV3.
#[global] Instance LpProtocol_eq_dec : EqDecision LpProtocol.
Proof. solve_decision. Defined.

(** The fields of [LpPoolIntelligence] the runtime reads. *)
Record LpPoolIntelligence := MkPool { pool_address_of : string; range : option string }.

Record LpRangeChamber := MkChamber {
  pool_address : string;
  current_range : option string;
  recommended_range : option string;
  range_shift_reason : option string;
}.

Section fees.
Context {D : Type} `{Decimal D} (d_to_string : D → string) (parse_f64 : string → option f64).

Definition fee_to_tvl (fees tvl : option string) : option f64 :=
  fees ← fees ≫= d_parse;
  tvl ← tvl ≫= d_parse;
  if d_eqb tvl d_zero then None else Some (default (f64_of_Z 0) (parse_f64 (d_to_string (d_div fees tvl)))).
End fees.

Definition is_supported_scope (to_lowercase : string → string) (chain : string) (protocol : LpProtocol) : bool :=
  let chain_l := to_lowercase chain in
  let is_robinhood := bool_decide (chain_l = "robinhood") || bool_decide (chain_l = "rh") in
  match protocol with
  | MeteoraDlmm => bool_decide (chain_l = "solana")
  | UniswapV2 | UniswapV3 | UniswapV4 | PancakeV2 | PancakeV3 => is_robinhood
  end.

Definition build_range_chamber (pool : LpPoolIntelligence) (recommended shift_reason : option string) : LpRangeChamber :=
  MkChamber (pool_address_of pool) (range pool) (union recommended (range pool)) shift_reason.
End Lp.

Module Browser.
Inductive BrowserTaskType := Search | Profile | List | TokenTriggeredResolve.
#[global] Instance BrowserTaskType_eq_dec : EqDecision BrowserTaskType.
Proof. solve_decision. Defined.

Record BrowserCapture := MkCapture {
  raw_ref : string;
  parser_version : string;
  challenge_health : ChallengeHealth;
  session_health : SessionHealth;
}.

Definition capture_usable (c : BrowserCapture) : bool :=
  bool_decide (session_health c = SessionHealth.Ok) && bool_decide (challenge_health c = ChallengeHealth.Ok).

Definition capture_failed (c : BrowserCapture) : bool :=
  bool_decide (session_health c = SessionHealth.Invalid) || bool_decide (challenge_health c = ChallengeHealth.Failed).

Definition capture_retryable (c : BrowserCapture) : bool :=
  bool_decide (challenge_health c = ChallengeHealth.ChallengeDetected) && bool_decide (session_health c = SessionHealth.Ok).

Definition enrichment_warranted (t : BrowserTaskType) : bool := bool_decide (t = TokenTriggeredResolve).
End Browser.

Module Dashboard.
Inductive DashboardSection := CommandCenter | Signals | Entities | Strategies | Lab | Operations.

Inductive Surface :=
  | SignalSpine | LifecycleRail | EvidenceStrips | ConfidenceFreshnessTexture | NarrativeRiver | OriginTrace
  | TokenFamilyConstellation | CallerPropagationTree | RevivalSeismicView | LpRangeChamber | AutomationPolicies
  | ExecutionTape | SourceHealthCost | DecisionExplanation | MissedRunnerReview | TokenRecentTimeline | DeployerSocialReuse.

Inductive RetentionTier := Hot | Warm | Cold.
#[global] Instance RetentionTier_eq_dec : EqDecision RetentionTier.
Proof. solve_decision. Defined.

Record DashboardView := MkView {
  section : DashboardSection;
  surface : Surface;
  retention : RetentionTier;
  opportunity_first : bool;
}.

Record HotProjection := MkProjection {
  active_opportunities : list string;
  active_positions : list string;
  active_intents : list string;
  refreshed_at : string;
}.

Definition retention_tier (is_active has_open_window : bool) : RetentionTier :=
  if is_active then Hot else if has_open_window then Warm else Cold.

Definition dashboard_view := MkView.
Definition build_hot_projection := MkProjection.

Definition is_operational (v : DashboardView) : bool := opportunity_first v && bool_decide (retention v = Hot).
End Dashboard.

Module Authorization.
Record Identity := MkIdentity { issuer : string; subject : string }.
Record WorkloadIdentity := MkWorkload { workload_name : string; key_fingerprint : string; scopes : list string }.
Inductive Role := Admin | Operator | Analyst.

Definition identity_key (i : Identity) : string * string := (issuer i, subject i).

Inductive AuthzDecision := Allow | Deny (reason : string).
Inductive Actor := Human (identity : Identity) | Worker (workload : WorkloadIdentity).

(** The interface of every protected operation. *)
Class Authorizer (A : Type) := {
  authorize : A → Actor → Role → string → AuthzDecision;
  requires_step_up : A → string → bool;
}.

Inductive DenyByDefaultAuthorizer := DenyByDefault.

#[global] Instance DenyByDefault_authorizer : Authorizer DenyByDefaultAuthorizer := {|
  authorize _ _ _ _ := Deny "no explicit RBAC policy matched (fail-closed)";
  requires_step_up _ action :=
    contains action ["policy.activate"; "signer.configure"; "workspace.delete"; "identity.rotate"];
|}.
End Authorization.

(** ** Callers *)

Import Callers.

Lemma resolved_perm calls calls' : calls ≡ₚ calls' →
  List.filter (λ c, bool_decide (is_Some (pnl_of c))) calls ≡ₚ List.filter (λ c, bool_decide (is_Some (pnl_of c))) calls'.
Proof. apply filter_perm. Qed.

(** The hit rate does not depend on the order of the calls, and a call without
    a copy result is no miss: it can be added anywhere. *)
Theorem hit_rate_of_resolved calls calls' (Hsame : List.filter (λ c, bool_decide (is_Some (pnl_of c))) calls
    ≡ₚ List.filter (λ c, bool_decide (is_Some (pnl_of c))) calls') :
  hit_rate calls = hit_rate calls' ∧ (hit_rate calls = None ↔ ∀ c, c ∈ calls → pnl_of c = None).
Proof.
  split.
  - unfold hit_rate. destruct (List.filter _ calls) as [|c l], (List.filter _ calls') as [|c' l']; try done.
    + by apply Permutation_nil_l in Hsame.
    + by apply Permutation_nil_r in Hsame.
    + assert (length (List.filter is_hit (c :: l)) = length (List.filter is_hit (c' :: l'))) as -> by (apply Permutation_length, filter_perm, Hsame).
      assert (length (c :: l) = length (c' :: l')) as -> by by apply Permutation_length. done.
  - unfold hit_rate. destruct (List.filter _ calls) as [|c l] eqn:E.
    + split; [|done]. intros _ c Hc. destruct (pnl_of c) as [p|] eqn:Ep; [|done]. exfalso.
      apply (not_elem_of_nil c). rewrite <-E. apply elem_of_lfilter. split; [done|]. rewrite Ep. by apply bool_decide_eq_true_2.
    + split; [done|]. intros Hall. exfalso.
      assert (c ∈ List.filter (λ c, bool_decide (is_Some (pnl_of c))) calls) as Hc by (rewrite E; left).
      apply elem_of_lfilter in Hc as [Hc Hp%bool_decide_eq_true]. rewrite (Hall c Hc) in Hp. by destruct Hp.
Qed.

Definition call_with (pnl m : option f64) : Call :=
  MkCall "c" Telegram "T" "" None "h" (Some (MkOutcome m None None pnl 21)).

(** A call without a copy result enters the average of [mfe], and the sample
    size with its confidence, but not the hit rate. *)
Example unresolved_counts_elsewhere :
  let calls := [call_with (Some (f64_of_Z 10)) (Some (f64_of_Z 20)); call_with None (Some (f64_of_Z 40))] in
  hit_rate calls = Some (f64_of_Z 1) ∧ average_mfe calls = Some (f64_of_Z 30) ∧ sample_size (build_reputation "c" "r" calls) = 2.
Proof. vm_compute. done. Qed.

(** The confidence of an empty sample is zero, that of the greatest is below one. *)
Example confidence_ends :
  sample_confidence (build_reputation "c" "r" []) = Some (f64_of_Z 0)
  ∧ f64_ltb (f64_sub (f64_of_Z 1) (f64_div (f64_of_Z 1) (f64_add (f64_of_Z (2 ^ 32 - 1)) (f64_of_Z 1)))) (f64_of_Z 1) = true.
Proof. vm_compute. done. Qed.

(** A copy result that is not a number counts as a miss. *)
Example nan_is_a_miss : hit_rate [call_with (Some S754_nan) None] = Some (f64_of_Z 0).
Proof. vm_compute. reflexivity. Qed.

Lemma hit_rate_of_resolved_witness :
  hit_rate [call_with (Some (f64_of_Z 1)) None; call_with None None] = hit_rate [call_with (Some (f64_of_Z 1)) None].
Proof.
  refine (proj1 (hit_rate_of_resolved [call_with (Some (f64_of_Z 1)) None; call_with None None] [call_with (Some (f64_of_Z 1)) None] _)).
  vm_compute. reflexivity.
Defined.

(** ** Liquidity *)

(** Every chain outside the two in scope supports nothing, Solana its one
    protocol, Robinhood the others: no protocol has two chains. *)
Theorem lp_scope_exact to_lowercase chain protocol :
  Lp.is_supported_scope to_lowercase chain protocol = true
  ↔ (to_lowercase chain = "solana" ∧ protocol = Lp.MeteoraDlmm)
    ∨ ((to_lowercase chain = "robinhood" ∨ to_lowercase chain = "rh") ∧ protocol ≠ Lp.MeteoraDlmm).
Proof.
  unfold Lp.is_supported_scope. destruct protocol; rewrite ?orb_true_iff, ?bool_decide_eq_true; naive_solver.
Qed.

(** A ratio needs both numbers and a divisor. *)
Theorem fee_to_tvl_Some {D} `{DecimalSpec D} d_to_string parse_f64 fees tvl :
  is_Some (Lp.fee_to_tvl (D := D) d_to_string parse_f64 fees tvl)
  ↔ ∃ f t, fees ≫= d_parse = Some f ∧ tvl ≫= d_parse = Some t ∧ ¬ (d_val t == 0)%Q.
Proof.
  unfold Lp.fee_to_tvl. destruct (fees ≫= d_parse) as [f|]; cbn; [|split; [by intros []|naive_solver]].
  destruct (tvl ≫= d_parse) as [t|]; cbn; [|split; [by intros []|naive_solver]].
  destruct (d_eqb t d_zero) eqn:E.
  - rewrite d_eqb_val, d_zero_val in E. split; [by intros []|]. by intros (f' & t' & _ & [= <-] & []).
  - split; [|by eauto]. intros _. exists f, t. split_and!; [done|done|]. intros Et.
    assert (d_eqb t d_zero = true) as E' by (by rewrite d_eqb_val, d_zero_val). congruence.
Qed.

(** ** Captures *)

(** No capture is in two of the three classes, and the ones in none are those
    of an expired session whose challenge has not failed. *)
Theorem capture_classes (c : Browser.BrowserCapture) :
  let usable := Browser.capture_usable c in let failed := Browser.capture_failed c in
  let retryable := Browser.capture_retryable c in
  usable && failed = false ∧ usable && retryable = false ∧ failed && retryable = false
  ∧ (usable || failed || retryable = false
     ↔ Browser.session_health c = SessionHealth.Expired ∧ Browser.challenge_health c ≠ ChallengeHealth.Failed).
Proof.
  destruct c as [r v ch sh]. destruct ch, sh; vm_compute; naive_solver.
Qed.

(** ** Dashboard and authorisation *)

Theorem operational_iff_active section surface active window first :
  Dashboard.is_operational (Dashboard.dashboard_view section surface (Dashboard.retention_tier active window) first) = first && active.
Proof. by destruct active, window, first. Qed.

Theorem default_denies actor role action :
  Authorization.authorize Authorization.DenyByDefault actor role action ≠ Authorization.Allow.
Proof. discriminate. Qed.
