(* ===== verification/Replay.v ===== *)
(** * Temporal replay (src/src/replay.rs)

    The guard, the four queries of a replay over the tables of Evidence.v,
    Scoring.v, Discovery.v and TelegramIngest.v, and the paper metrics.  Of
    rows with one instant the first in the list is taken. *)
From stdpp Require Import base gmap sets list strings.
From stdpp Require Import options.
From S2P Require Import Prelude Text Floats Domain Models Json CostBasis Decimals Rows Evidence Scoring Discovery TelegramIngest.
From Stdlib Require Import QArith.Qcanon.
Local Open Scope string_scope.
Local Open Scope list_scope.
Local Open Scope Z_scope.

Inductive GuardResult := Usable | Excluded | Unavailable.

Definition replay_guard (observed_at : option Z) (evaluation_time : Z) : GuardResult :=
  match observed_at with
  | Some at_ => if at_ <=? evaluation_time then Usable else Excluded
  | None => Unavailable
  end.

(** [WHERE p AND at <= t ORDER BY at DESC LIMIT 1]. *)
Definition latest {A} (at_ : A → Z) (p : A → bool) (rows : list A) (t : Z) : option A :=
  head (stable_sort (λ a b, at_ b <=? at_ a) (List.filter (λ r, p r && (at_ r <=? t)) rows)).

Record ReplayMarket (D : Type) := MkReplayMarket {
  rm_liquidity_usd : option D;
  rm_price_usd : option D;
  rm_observed_at : option Z;
  rm_status : string;
}.
Arguments MkReplayMarket {_}. Arguments rm_liquidity_usd {_}. Arguments rm_price_usd {_}. Arguments rm_observed_at {_}. Arguments rm_status {_}.

Record ReplayScore (D : Type) := MkReplayScore {
  rs_skill_score : Z;
  rs_copyability_score : Z;
  rs_conviction : Z;
  rs_history_completeness : D;
  rs_observed_at : option Z;
  rs_status : string;
}.
Arguments MkReplayScore {_}. Arguments rs_skill_score {_}. Arguments rs_copyability_score {_}. Arguments rs_conviction {_}. Arguments rs_history_completeness {_}. Arguments rs_observed_at {_}. Arguments rs_status {_}.

Record ReplayGmgn (J : Type) := MkReplayGmgn { rg_payload : J; rg_observed_at : option Z; rg_usable : bool }.
Arguments MkReplayGmgn {_}. Arguments rg_payload {_}. Arguments rg_observed_at {_}. Arguments rg_usable {_}.

Record ReplayMention := MkReplayMention {
  rn_mint : option string;
  rn_mention_kind : string;
  rn_observed_at : option Z;
  rn_usable : bool;
}.

Record PaperMetrics (D : Type) := MkPaperMetrics {
  latency_fill_seconds : option Z;
  slippage : option D;
  max_favorable_excursion : option D;
  max_adverse_excursion : option D;
  liquidity_1m_usd : option D;
  liquidity_5m_usd : option D;
  liquidity_15m_usd : option D;
  sell_before_copy : bool;
}.
Arguments MkPaperMetrics {_}. Arguments latency_fill_seconds {_}. Arguments slippage {_}. Arguments max_favorable_excursion {_}. Arguments max_adverse_excursion {_}. Arguments liquidity_1m_usd {_}. Arguments liquidity_5m_usd {_}. Arguments liquidity_15m_usd {_}. Arguments sell_before_copy {_}.

(** The tables a replay reads. *)
Record replay_db (J D : Type) := MkReplayDb {
  rp_snapshots : list (Snapshot D);
  rp_scores : list (ScoreRow D);
  rp_observations : list (TokenObservation (J := J));
  rp_messages : list (MessageRow J);
  rp_mentions : list MentionRow;
}.
Arguments MkReplayDb {_ _}. Arguments rp_snapshots {_ _}. Arguments rp_scores {_ _}.
Arguments rp_observations {_ _}. Arguments rp_messages {_ _}. Arguments rp_mentions {_ _}.

Section replay.
Context {J D : Type} `{DecimalNum D}.
Local Abbreviation db_t := (replay_db J D).

Definition is_market (chain : ChainKind) (mint : string) (s : Snapshot D) : bool :=
  bool_decide (ms_chain s = ChainKind.as_str chain) && bool_decide (ms_mint s = mint).

Definition market_at (db : db_t) (chain : ChainKind) (mint : string) (evaluation_time : Z) : ReplayMarket D :=
  match latest ms_observed_at (is_market chain mint) (rp_snapshots db) evaluation_time with
  | Some s => MkReplayMarket (ms_liquidity_usd s) (ms_price_usd s) (Some (ms_observed_at s)) "usable"
  | None => MkReplayMarket None None None "stale_market_replay"
  end.

Definition is_score (chain : ChainKind) (address : string) (r : ScoreRow D) : bool :=
  bool_decide (sc_chain r = ChainKind.as_str chain) && bool_decide (sc_address r = address).

Definition wallet_score_at (db : db_t) (chain : ChainKind) (address : string) (evaluation_time : Z) : ReplayScore D :=
  match latest sc_as_of (is_score chain address) (rp_scores db) evaluation_time with
  | Some r => MkReplayScore (Z.max 0 (skill_col r)) (Z.max 0 (copyability_col r)) (Z.max 0 (conviction_col r))
                (completeness_col r) (Some (sc_as_of r)) "usable"
  | None => MkReplayScore 0 0 0 d_zero None "incomplete_history_replay"
  end.

Definition is_observation (chain : ChainKind) (mint endpoint : string) (o : TokenObservation (J := J)) : bool :=
  bool_decide (ob_chain o = ChainKind.as_str chain) && bool_decide (ob_mint o = mint) && bool_decide (ob_endpoint o = endpoint).

Definition gmgn_token_at (db : db_t) (chain : ChainKind) (mint endpoint : string) (evaluation_time : Z) : option (ReplayGmgn J) :=
  (λ o, MkReplayGmgn (ob_payload o) (Some (ob_observed_at o)) true)
    <$> latest ob_observed_at (is_observation chain mint endpoint) (rp_observations db) evaluation_time.

Definition same_version (m : MentionRow) (g : MessageRow J) : bool :=
  bool_decide (mg_channel_key g = mr_channel_key m) && (mg_message_id g =? mr_message_id m)
  && (mg_edit_version g =? mr_edit_version m).

Definition telegram_mentions_at (db : db_t) (mint : string) (evaluation_time : Z) : list ReplayMention :=
  flat_map (λ m, (λ g, MkReplayMention (mr_mint m) (mr_mention_kind m) (Some (mg_observed_at g)) true)
    <$> List.filter (λ g, bool_decide (mr_mint m = Some mint) && same_version m g && (mg_observed_at g <=? evaluation_time))
          (rp_messages db)) (rp_mentions db).

(** ** Paper metrics *)

Definition no_metrics : PaperMetrics D := MkPaperMetrics None None None None None None None false.

(** The first fifty snapshots after the signal, oldest first. *)
Definition snapshots_after (db : db_t) (chain : ChainKind) (mint : string) (signal_at : Z) : list (Snapshot D) :=
  take 50 (stable_sort (λ a b, ms_observed_at a <=? ms_observed_at b)
    (List.filter (λ s, is_market chain mint s && (signal_at <? ms_observed_at s)) (rp_snapshots db))).

Definition elapsed (signal_at : Z) (s : Snapshot D) : Z := num_seconds (ms_observed_at s - signal_at).

(** [if elapsed <= limit && slot.is_none() { slot = liquidity }]. *)
Definition fill (limit signal_at : Z) (s : Snapshot D) (slot : option D) : option D :=
  match slot with
  | None => if elapsed signal_at s <=? limit then ms_liquidity_usd s else None
  | Some _ => slot
  end.

Definition metrics_step (signal_at : Z) (m : PaperMetrics D) (s : Snapshot D) : PaperMetrics D :=
  MkPaperMetrics (latency_fill_seconds m) (slippage m) (max_favorable_excursion m) (max_adverse_excursion m)
    (fill 60 signal_at s (liquidity_1m_usd m)) (fill 300 signal_at s (liquidity_5m_usd m))
    (fill 900 signal_at s (liquidity_15m_usd m)) (sell_before_copy m).

Definition paper_metrics (db : db_t) (chain : ChainKind) (mint : string) (signal_at : Z) : PaperMetrics D :=
  foldl (metrics_step signal_at) no_metrics (snapshots_after db chain mint signal_at).

(** ** No look-ahead *)

Set Default Proof Using "Type".

(** What the tables held at [t]: the rows observed by then, a mention being
    observed with the message it was found in. *)
Definition known_by (t : Z) (db : db_t) : db_t :=
  MkReplayDb (List.filter (λ s, ms_observed_at s <=? t) (rp_snapshots db))
    (List.filter (λ r, sc_as_of r <=? t) (rp_scores db))
    (List.filter (λ o, ob_observed_at o <=? t) (rp_observations db))
    (List.filter (λ g, mg_observed_at g <=? t) (rp_messages db))
    (List.filter (λ m, existsb (λ g, same_version m g && (mg_observed_at g <=? t)) (rp_messages db)) (rp_mentions db)).

Lemma filter_known {A} (at_ : A → Z) (p : A → bool) rows t t' : t <= t' →
  List.filter (λ r, p r && (at_ r <=? t)) (List.filter (λ r, at_ r <=? t') rows) = List.filter (λ r, p r && (at_ r <=? t)) rows.
Proof.
  intros Ht. induction rows as [|r rows IH]; [done|]. cbn. destruct (Z.leb_spec (at_ r) t'); cbn; [by rewrite IH|].
  rewrite (proj2 (Z.leb_gt _ _)), andb_false_r by lia. done.
Qed.

Lemma latest_known {A} (at_ : A → Z) p rows t t' : t <= t' →
  latest at_ p (List.filter (λ r, at_ r <=? t') rows) t = latest at_ p rows t.
Proof. intros Ht. unfold latest. by rewrite filter_known. Qed.

(** A mention of a later message has nothing to show at [t]. *)
Lemma mentions_known (db : db_t) mint t t' : t <= t' → telegram_mentions_at (known_by t' db) mint t = telegram_mentions_at db mint t.
Proof.
  intros Ht. unfold telegram_mentions_at. cbn [known_by rp_messages rp_mentions].
  induction (rp_mentions db) as [|m ms IH]; [done|]. cbn [List.filter flat_map].
  destruct (existsb _ (rp_messages db)) eqn:E; cbn [flat_map]; rewrite IH; [by rewrite filter_known|].
  rewrite (filter_none _ (rp_messages db)); [done|]. intros g Hg.
  destruct (same_version m g && (mg_observed_at g <=? t)) eqn:Eg; [|by rewrite <-andb_assoc, Eg, andb_false_r].
  apply not_true_iff_false in E. exfalso. apply E, existsb_exists. exists g. split; [by apply list_elem_of_In|].
  apply andb_prop in Eg as [-> Eg%Z.leb_le]. apply Z.leb_le. lia.
Qed.

Lemma elem_of_mentions (db : db_t) mint t n : n ∈ telegram_mentions_at db mint t ↔ ∃ m g, m ∈ rp_mentions db ∧ g ∈ rp_messages db
  ∧ same_version m g = true ∧ mr_mint m = Some mint ∧ mg_observed_at g <= t
  ∧ n = MkReplayMention (Some mint) (mr_mention_kind m) (Some (mg_observed_at g)) true.
Proof.
  unfold telegram_mentions_at. rewrite list_elem_of_In, in_flat_map. setoid_rewrite <-list_elem_of_In. setoid_rewrite list_elem_of_fmap.
  setoid_rewrite elem_of_lfilter. split.
  - intros (m & Hm & g & -> & Hg & [[Em%bool_decide_eq_true Ev]%andb_prop Ht%Z.leb_le]%andb_prop). exists m, g. by rewrite Em.
  - intros (m & g & Hm & Hg & Ev & Em & Ht & ->). exists m. split; [done|]. exists g.
    by rewrite bool_decide_true, Em, Ev, (proj2 (Z.leb_le _ _)).
Qed.

(** Claim C38: A replay at an instant sees what had been observed by then and nothing of
    what came later: it answers as the program would have answered at that
    instant, two histories that agree so far give the same answers, and the
    mentions it lists are exactly the mentions of the mint in the message
    versions observed by then, each with its message's instant. *)
Theorem no_look_ahead (db db' : db_t) t t' (Ht : t <= t') (Hsame : known_by t' db = known_by t' db') chain :
  (∀ mint, market_at db chain mint t = market_at (known_by t' db) chain mint t ∧ market_at db chain mint t = market_at db' chain mint t)
  ∧ (∀ a, wallet_score_at db chain a t = wallet_score_at (known_by t' db) chain a t
      ∧ wallet_score_at db chain a t = wallet_score_at db' chain a t)
  ∧ (∀ mint e, gmgn_token_at db chain mint e t = gmgn_token_at (known_by t' db) chain mint e t
      ∧ gmgn_token_at db chain mint e t = gmgn_token_at db' chain mint e t)
  ∧ (∀ mint, telegram_mentions_at db mint t = telegram_mentions_at (known_by t' db) mint t
      ∧ telegram_mentions_at db mint t = telegram_mentions_at db' mint t
      ∧ ∀ n, n ∈ telegram_mentions_at db mint t ↔ ∃ m g, m ∈ rp_mentions db ∧ g ∈ rp_messages db
          ∧ same_version m g = true ∧ mr_mint m = Some mint ∧ mg_observed_at g <= t
          ∧ n = MkReplayMention (Some mint) (mr_mention_kind m) (Some (mg_observed_at g)) true).
Proof.
  assert (∀ d, (∀ mint, market_at d chain mint t = market_at (known_by t' d) chain mint t)
    ∧ (∀ a, wallet_score_at d chain a t = wallet_score_at (known_by t' d) chain a t)
    ∧ (∀ mint e, gmgn_token_at d chain mint e t = gmgn_token_at (known_by t' d) chain mint e t)
    ∧ (∀ mint, telegram_mentions_at d mint t = telegram_mentions_at (known_by t' d) mint t)) as Hd.
  { intros d. split_and!; intros; [..|by rewrite mentions_known]; unfold market_at, wallet_score_at, gmgn_token_at; cbn; by rewrite latest_known. }
  destruct (Hd db) as (H1 & H2 & H3 & H4), (Hd db') as (H1' & H2' & H3' & H4').
  split_and!; intros; (split; [auto|]); [..|split; [|by intros; apply elem_of_mentions]];
    rewrite ?H1, ?H1', ?H2, ?H2', ?H3, ?H3', ?H4, ?H4'; by rewrite Hsame.
Qed.

Lemma latest_spec {A} (at_ : A → Z) p rows t : match latest at_ p rows t with
  | Some r => r ∈ rows ∧ p r = true ∧ at_ r <= t ∧ ∀ x, x ∈ rows → p x = true → at_ x <= t → at_ x <= at_ r
  | None => ∀ x, x ∈ rows → p x = true → t < at_ x
  end.
Proof.
  unfold latest. destruct (head _) as [r|] eqn:E.
  - apply stable_sort_head in E as [Hr Hmax]; [|intros x y; rewrite !Z.leb_le; lia|intros x y z; rewrite !Z.leb_le; lia].
    apply elem_of_lfilter in Hr as [Hr [Hp Ht%Z.leb_le]%andb_prop]. split_and!; [done|done|done|].
    intros x Hx Hpx Htx. apply Z.leb_le, Hmax, elem_of_lfilter. split; [done|]. by rewrite Hpx, (proj2 (Z.leb_le _ _)).
  - apply stable_sort_head_None in E. intros x Hx Hp. destruct (Z.lt_ge_cases t (at_ x)) as [?|Hle]; [done|]. exfalso.
    apply (not_elem_of_nil x). rewrite <-E. apply elem_of_lfilter. split; [done|]. by rewrite Hp, (proj2 (Z.leb_le _ _)).
Qed.

(** The market and the score of a replay are the newest usable rows, the guard
    lets them pass, and the stale statuses are exactly their absence. *)
Theorem replay_reads_newest (db : db_t) chain mint address t :
  match rm_observed_at (market_at db chain mint t) with
  | Some at_ => rm_status (market_at db chain mint t) = "usable" ∧ replay_guard (Some at_) t = Usable
      ∧ ∃ s, s ∈ rp_snapshots db ∧ is_market chain mint s = true ∧ ms_observed_at s = at_
          ∧ rm_liquidity_usd (market_at db chain mint t) = ms_liquidity_usd s
          ∧ ∀ x, x ∈ rp_snapshots db → is_market chain mint x = true → replay_guard (Some (ms_observed_at x)) t = Usable →
              ms_observed_at x <= at_
  | None => rm_status (market_at db chain mint t) = "stale_market_replay"
      ∧ ∀ x, x ∈ rp_snapshots db → is_market chain mint x = true → replay_guard (Some (ms_observed_at x)) t = Excluded
  end
  ∧ match rs_observed_at (wallet_score_at db chain address t) with
    | Some at_ => rs_status (wallet_score_at db chain address t) = "usable" ∧ replay_guard (Some at_) t = Usable
        ∧ 0 <= rs_skill_score (wallet_score_at db chain address t)
        ∧ ∀ x, x ∈ rp_scores db → is_score chain address x = true → replay_guard (Some (sc_as_of x)) t = Usable → sc_as_of x <= at_
    | None => rs_status (wallet_score_at db chain address t) = "incomplete_history_replay"
        ∧ ∀ x, x ∈ rp_scores db → is_score chain address x = true → replay_guard (Some (sc_as_of x)) t = Excluded
    end.
Proof.
  assert (∀ a, replay_guard (Some a) t = Usable ↔ a <= t) as Hu by (intros a; cbn; destruct (Z.leb_spec a t); naive_solver lia).
  assert (∀ a, replay_guard (Some a) t = Excluded ↔ t < a) as He by (intros a; cbn; destruct (Z.leb_spec a t); naive_solver lia).
  split.
  - unfold market_at. pose proof (latest_spec ms_observed_at (is_market chain mint) (rp_snapshots db) t) as Hl.
    destruct (latest _ _ _ _) as [s|]; cbn [rm_observed_at rm_status rm_liquidity_usd].
    + destruct Hl as (Hs & Hp & Ht & Hmax). split_and!; [done|by apply Hu|]. exists s. split_and!; try done.
      intros x Hx Hpx Hux%Hu. by apply Hmax.
    + split; [done|]. intros x Hx Hp. apply He. by apply Hl.
  - unfold wallet_score_at. pose proof (latest_spec sc_as_of (is_score chain address) (rp_scores db) t) as Hl.
    destruct (latest _ _ _ _) as [r|]; cbn [rs_observed_at rs_status rs_skill_score].
    + destruct Hl as (Hs & Hp & Ht & Hmax). split_and!; [done|by apply Hu|lia|]. intros x Hx Hpx Hux%Hu. by apply Hmax.
    + split; [done|]. intros x Hx Hp. apply He. by apply Hl.
Qed.

(** ** The horizons of the paper metrics *)

Definition first_within (limit signal_at : Z) (l : list (Snapshot D)) : option D :=
  head (omap (λ s, if elapsed signal_at s <=? limit then ms_liquidity_usd s else None) l).

Lemma foldl_fill limit signal_at l slot : foldl (λ slot s, fill limit signal_at s slot) slot l
  = match slot with Some x => Some x | None => first_within limit signal_at l end.
Proof.
  revert slot. induction l as [|s l IH]; intros slot; [by destruct slot|]. cbn [foldl]. rewrite IH.
  unfold fill, first_within. destruct slot; [done|]. cbn. destruct (elapsed signal_at s <=? limit); [|done].
  by destruct (ms_liquidity_usd s).
Qed.

Lemma metrics_fold signal_at m l : foldl (metrics_step signal_at) m l
  = MkPaperMetrics (latency_fill_seconds m) (slippage m) (max_favorable_excursion m) (max_adverse_excursion m)
      (foldl (λ slot s, fill 60 signal_at s slot) (liquidity_1m_usd m) l)
      (foldl (λ slot s, fill 300 signal_at s slot) (liquidity_5m_usd m) l)
      (foldl (λ slot s, fill 900 signal_at s slot) (liquidity_15m_usd m) l) (sell_before_copy m).
Proof. revert m. induction l as [|s l IH]; intros m; [by destruct m|]. cbn [foldl]. by rewrite IH. Qed.

Lemma first_within_wider near far signal_at l x : near <= far →
  StronglySorted (λ a b, (ms_observed_at a <=? ms_observed_at b) = true) l →
  first_within near signal_at l = Some x → first_within far signal_at l = Some x.
Proof.
  intros Hnf Hl. unfold first_within. induction Hl as [|s l Hl IH Hs]; [done|]. cbn.
  destruct (Z.leb_spec (elapsed signal_at s) near) as [Hn|Hn].
  - rewrite (proj2 (Z.leb_le _ _)) by lia. destruct (ms_liquidity_usd s); [done|exact IH].
  - assert (omap (λ s, if elapsed signal_at s <=? near then ms_liquidity_usd s else None) l = []) as ->; [|done].
    clear IH Hl. induction Hs as [|y l Hy Hs IHs]; [done|]. cbn. rewrite (proj2 (Z.leb_gt _ _)); [done|].
    apply Z.leb_le in Hy. unfold elapsed, num_seconds in *.
    pose proof (Z.quot_le_mono (ms_observed_at s - signal_at) (ms_observed_at y - signal_at) 1000000000). lia.
Qed.

Lemma sorted_take {A} (R : A → A → Prop) n l : StronglySorted R l → StronglySorted R (take n l).
Proof.
  intros Hl. revert n. induction Hl as [|x l Hl IH Hx]; intros [|n]; cbn; try constructor; [apply IH|].
  by apply Forall_take.
Qed.

(** The metrics hold three liquidities, each the first snapshot with a
    liquidity within its horizon: whenever the one-minute value exists, the
    five- and fifteen-minute values are that same snapshot's, not later ones.
    The other five metrics are never computed. *)
Theorem paper_horizons_coincide (db : db_t) chain mint signal_at :
  let m := paper_metrics db chain mint signal_at in
  let l := snapshots_after db chain mint signal_at in
  m = MkPaperMetrics None None None None (first_within 60 signal_at l) (first_within 300 signal_at l) (first_within 900 signal_at l) false
  ∧ (∀ x, liquidity_1m_usd m = Some x → liquidity_5m_usd m = Some x ∧ liquidity_15m_usd m = Some x)
  ∧ (∀ x, liquidity_5m_usd m = Some x → liquidity_15m_usd m = Some x)
  ∧ Forall (λ s, signal_at < ms_observed_at s ∧ is_market chain mint s = true ∧ s ∈ rp_snapshots db) l
  ∧ (length l <= 50)%nat.
Proof.
  cbv zeta. unfold paper_metrics. rewrite metrics_fold, !foldl_fill. cbn [no_metrics liquidity_1m_usd liquidity_5m_usd liquidity_15m_usd
    latency_fill_seconds slippage max_favorable_excursion max_adverse_excursion sell_before_copy].
  assert (StronglySorted (λ a b, (ms_observed_at a <=? ms_observed_at b) = true) (snapshots_after db chain mint signal_at)) as Hs.
  { unfold snapshots_after. apply sorted_take. apply stable_sort_sorted; [intros x y|intros x y z]; rewrite !Z.leb_le; lia. }
  split_and!; [done|..].
  - intros x Hx. split; by eapply (first_within_wider 60).
  - intros x Hx. by eapply (first_within_wider 300).
  - apply list.Forall_forall. intros s Hin. apply elem_of_take_l, elem_of_stable_sort, elem_of_lfilter in Hin as [Hin [Hm Ht%Z.ltb_lt]%andb_prop].
    done.
  - unfold snapshots_after. rewrite length_take. lia.
Qed.
End replay.

(** ** A concrete history *)

Definition snapshot_at (t liquidity : Z) : Snapshot Qc := MkSnapshot "solana" "M" (t * 10 ^ 9) (Some (qc_new liquidity 0)) None.

(** A liquidity that collapses within five minutes. *)
Definition collapsing : replay_db json Qc :=
  MkReplayDb [snapshot_at 1000 9000; snapshot_at 1030 9000; snapshot_at 1240 500; snapshot_at 1800 0] [] [] [] [].

(** The fifteen-minute liquidity is reported as the first minute's. *)
Example collapse_unseen :
  let m := paper_metrics collapsing ChainKind.Solana "M" (1000 * 10 ^ 9) in
  liquidity_1m_usd m = Some (qc_new 9000 0) ∧ liquidity_5m_usd m = Some (qc_new 9000 0) ∧ liquidity_15m_usd m = Some (qc_new 9000 0)
  ∧ latest ms_observed_at (is_market ChainKind.Solana "M") (rp_snapshots collapsing) (1900 * 10 ^ 9) = Some (snapshot_at 1800 0).
Proof. vm_compute. done. Qed.

(** A message of minute 20 names the mint. *)
Definition told (t : Z) : replay_db json Qc :=
  MkReplayDb [snapshot_at 1000 9000; snapshot_at 1030 9000] [] []
    [MkMessageRow "c" 7 0 None (t * 10 ^ 9) None None (Some "M") JNull "h" None] [MkMentionRow "c" 7 0 "solana" (Some "M") None "mint" "M" "M"].

Lemma no_look_ahead_witness :
  market_at collapsing ChainKind.Solana "M" (1100 * 10 ^ 9) = market_at (told 1300) ChainKind.Solana "M" (1100 * 10 ^ 9)
  ∧ telegram_mentions_at (told 1300) "M" (1100 * 10 ^ 9) = telegram_mentions_at collapsing "M" (1100 * 10 ^ 9).
Proof.
  destruct (no_look_ahead collapsing (told 1300) (1100 * 10 ^ 9) (1200 * 10 ^ 9) ltac:(lia) ltac:(vm_compute; reflexivity)
    ChainKind.Solana) as (Hmarket & _ & _ & Hmentions).
  exact (conj (proj2 (Hmarket "M")) (eq_sym (proj1 (proj2 (Hmentions "M"))))).
Defined.

Example told_in_time : telegram_mentions_at (told 1050) "M" (1100 * 10 ^ 9)
  = [MkReplayMention (Some "M") "mint" (Some (1050 * 10 ^ 9)) true].
Proof. vm_compute. reflexivity. Qed.
