(* ===== verification/Narrative.v ===== *)
(** * Narratives (src/src/narrative.rs)

    The taxonomy, the evidence rows, classification and explanation at an
    instant, and the hints of a GMGN payload.  The digest, the coercions of the
    database, [to_lowercase], the text of a JSON value and of an instant, and
    the orders of the hash map and of DISTINCT are parameters. *)
From stdpp Require Import base gmap sets list strings.
From stdpp Require Import options.
From S2P Require Import Prelude Text Floats Domain Models Json CostBasis Decimals.
From Stdlib Require Import QArith.Qcanon.
Local Open Scope string_scope.
Local Open Scope list_scope.
Local Open Scope Z_scope.

Definition NARRATIVE_SLUGS : list (string * string) :=
  [("ai", "AI / Agents"); ("defi", "DeFi"); ("dep_in", "DePIN"); ("meme", "Meme"); ("celebrity", "Celebrity");
   ("political", "Political"); ("gaming", "Gaming"); ("rwa", "RWA"); ("solana_ecosystem", "Solana Ecosystem");
   ("launchpad", "Launchpad"); ("community_takeover", "Community Takeover"); ("unknown", "Unknown")].

Record NarrativeRow := MkNarrative { nr_id : Z; nr_slug : string; nr_name : string; nr_category : string }.

Record NarrativeEvidence (J : Type) := MkEvidenceRow {
  ne_chain : string;
  ne_mint : string;
  ne_narrative_id : Z;
  ne_source_kind : string;
  ne_source_ref : string;
  ne_canonical_url : option string;
  ne_claim_type : string;
  ne_claim_text : string;
  ne_polarity : string;
  ne_published_at : option Z;
  ne_observed_at : Z;
  ne_confidence : Z;
  ne_content_hash : string;
  ne_raw : J;
}.
Arguments MkEvidenceRow {_}. Arguments ne_chain {_}. Arguments ne_mint {_}. Arguments ne_narrative_id {_}.
Arguments ne_source_kind {_}. Arguments ne_claim_text {_}. Arguments ne_polarity {_}. Arguments ne_observed_at {_}.
Arguments ne_confidence {_}. Arguments ne_content_hash {_}.

Record narrative_db (J : Type) := MkNarratives {
  narratives : list NarrativeRow;
  next_id : Z;
  evidence : list (NarrativeEvidence J);
}.
Arguments MkNarratives {_}. Arguments narratives {_}. Arguments next_id {_}. Arguments evidence {_}.

Record NarrativeEvidenceInput (J : Type) := MkInput {
  in_chain : ChainKind;
  in_mint : string;
  in_slug : string;
  in_source_kind : string;
  in_source_ref : string;
  in_canonical_url : option string;
  in_claim_type : string;
  in_claim_text : string;
  in_polarity : string;
  in_published_at : option Z;
  in_confidence : Z;
  in_raw : J;
}.
Arguments MkInput {_}. Arguments in_chain {_}. Arguments in_mint {_}. Arguments in_slug {_}. Arguments in_source_kind {_}.
Arguments in_source_ref {_}. Arguments in_canonical_url {_}. Arguments in_claim_type {_}. Arguments in_claim_text {_}.
Arguments in_polarity {_}. Arguments in_published_at {_}. Arguments in_confidence {_}. Arguments in_raw {_}.

Section store.
Context {J : Type} (sha256_hex : string → string).

(** ON CONFLICT (slug) DO NOTHING; the sequence advances on a conflict too. *)
Definition seed_one (db : narrative_db J) (entry : string * string) : narrative_db J :=
  if existsb (λ r, bool_decide (nr_slug r = entry.1)) (narratives db)
  then MkNarratives (narratives db) (next_id db + 1) (evidence db)
  else MkNarratives (narratives db ++ [MkNarrative (next_id db) entry.1 entry.2 entry.1]) (next_id db + 1) (evidence db).

Definition seed_narratives (db : narrative_db J) : narrative_db J := foldl seed_one db NARRATIVE_SLUGS.

Definition content_hash_of (source_kind source_ref claim_type claim_text : string) : string :=
  sha256_hex (source_kind +:+ "|" +:+ source_ref +:+ "|" +:+ claim_type +:+ "|" +:+ claim_text).

Definition narrative_of_slug (db : narrative_db J) (slug : string) : option NarrativeRow :=
  find_first (λ r, bool_decide (nr_slug r = slug)) (narratives db).

Definition add_narrative_evidence (db : narrative_db J) (now : Z) (e : NarrativeEvidenceInput J) : narrative_db J * result () :=
  match narrative_of_slug db (in_slug e) with
  | None => (db, RErr "no rows returned")
  | Some r =>
      let hash := content_hash_of (in_source_kind e) (in_source_ref e) (in_claim_type e) (in_claim_text e) in
      (MkNarratives (narratives db) (next_id db)
         (evidence db ++ [MkEvidenceRow (ChainKind.as_str (in_chain e)) (in_mint e) (nr_id r) (in_source_kind e)
            (in_source_ref e) (in_canonical_url e) (in_claim_type e) (in_claim_text e) (in_polarity e) (in_published_at e)
            now (in_confidence e) hash (in_raw e)]), ROk ())
  end.
End store.

(** ** Classification *)

Record TokenNarrative (D : Type) := MkTokenNarrative {
  tn_slug : string;
  tn_score : D;
  tn_confidence : Z;
  tn_status : string;
  tn_evidence_count : Z;
  tn_on_chain_confirmed : bool;
}.
Arguments MkTokenNarrative {_}. Arguments tn_slug {_}. Arguments tn_score {_}. Arguments tn_confidence {_}.
Arguments tn_status {_}. Arguments tn_evidence_count {_}. Arguments tn_on_chain_confirmed {_}.

Record NarrativeReport := MkReport {
  nrep_chain : ChainKind;
  nrep_mint : string;
  narrative : string;
  why_now : string;
  counter_evidence : list string;
  report_confidence : Z;
  sources : list string;
}.

Section classify.
Context {J D : Type} `{DecimalNum D}.

(** The accumulator of one narrative: score, on-chain, count. *)
Record tally := MkTally { ta_score : D; ta_on_chain : bool; ta_count : Z }.

Definition usable (chain : ChainKind) (mint : string) (t : Z) (e : NarrativeEvidence J) : bool :=
  bool_decide (ne_chain e = ChainKind.as_str chain) && bool_decide (ne_mint e = mint) && (ne_observed_at e <=? t).

Definition polarity_weight (polarity : string) : D :=
  if bool_decide (polarity = "supporting") then d_of_Z 1 else if bool_decide (polarity = "contradicting") then d_of_Z (-1)
  else d_zero.

Definition count_evidence (m : gmap Z tally) (e : NarrativeEvidence J) : gmap Z tally :=
  let entry := default (MkTally d_zero false 0) (m !! ne_narrative_id e) in
  <[ne_narrative_id e :=
      MkTally (d_add (ta_score entry) (d_mul (polarity_weight (ne_polarity e)) (d_of_Z (Z.max 0 (ne_confidence e)))))
        (if bool_decide (ne_source_kind e = "on_chain") then true else ta_on_chain entry) (wrap_u32 (ta_count entry + 1))]> m.

Definition base_confidence (t : tally) : Z :=
  if ta_count t =? 0 then 0 else
  default 0 (d_to_u32 (d_clamp (d_div (ta_score t) (d_of_Z (ta_count t))) d_zero (d_of_Z 100))).

Definition token_narrative (slug : string) (t : tally) : TokenNarrative D :=
  let base := base_confidence t in
  let confidence := if ta_on_chain t then Z.max 0 (Z.min base 100) else Z.max 0 (Z.min base 49) in
  MkTokenNarrative slug (ta_score t) confidence (if ta_on_chain t then "confirmed" else "candidate") (ta_count t) (ta_on_chain t).

Definition slug_of_id (db : narrative_db J) (id : Z) : option string :=
  nr_slug <$> find_first (λ r, nr_id r =? id) (narratives db).

(** [order]: the narratives in the order of the hash map. *)
Definition classify_token_narratives (db : narrative_db J) (order : list Z) (chain : ChainKind) (mint : string) (t : Z)
    : result (list (TokenNarrative D)) :=
  let by_narrative := foldl count_evidence ∅ (List.filter (usable chain mint t) (evidence db)) in
  let! results := fold_result (λ acc id,
      match by_narrative !! id with
      | None => ROk acc
      | Some ta =>
          match slug_of_id db id with
          | Some slug => ROk (acc ++ [token_narrative slug ta])
          | None => RErr "no rows returned"
          end
      end) [] order in
  ROk (stable_sort (λ a b, tn_confidence b <=? tn_confidence a) results).

Context (show_time : Z → string) (distinct : list string → list string).

Definition explain_narrative (db : narrative_db J) (order : list Z) (chain : ChainKind) (mint : string) (t : Z)
    : result (option NarrativeReport) :=
  let! narratives := classify_token_narratives db order chain mint t in
  match narratives with
  | [] => ROk None
  | top :: _ =>
      if tn_confidence top =? 0 then ROk None else
      let rows := List.filter (usable chain mint t) (evidence db) in
      let counter := take 5 (stable_sort (λ a b, ne_observed_at b <=? ne_observed_at a)
        (List.filter (λ e, bool_decide (ne_polarity e = "contradicting")) rows)) in
      let items := pretty (tn_evidence_count top) in
      ROk (Some (MkReport chain mint (tn_slug top)
        (if tn_on_chain_confirmed top
         then "on-chain evidence confirms the " +:+ tn_slug top +:+ " narrative with " +:+ items +:+ " evidence items"
         else "enrichment-only " +:+ tn_slug top +:+ " narrative with " +:+ items
              +:+ " evidence items; awaiting on-chain confirmation")
        ((λ e, ne_claim_text e +:+ " (observed " +:+ show_time (ne_observed_at e) +:+ ")") <$> counter)
        (tn_confidence top) (distinct (ne_source_kind <$> rows))))
  end.
End classify.
Arguments tally : clear implicits.

(** ** Hints *)

Definition narrative_hints_from_gmgn {J} (json_text : J → string) (to_lowercase : string → string) (payload : J)
    : list NarrativeCategory :=
  let text := to_lowercase (json_text payload) in
  let has p := str_contains p text in
  let quote := String (ascii_of_N 34) "" in
  (if has (quote +:+ "ai" +:+ quote) || has "ai_" || has "gpt" then [NarrativeCategory.Ai] else [])
  ++ (if has "meme" then [NarrativeCategory.Meme] else [])
  ++ (if has "depin" || has "dep_in" then [NarrativeCategory.DepIn] else [])
  ++ (if has "rwa" then [NarrativeCategory.Rwa] else [])
  ++ (if has "gaming" then [NarrativeCategory.Gaming] else [])
  ++ (if has "launchpad" then [NarrativeCategory.Launchpad] else []).

(** ** The taxonomy *)

Section taxonomy.
Context {J : Type} (sha256_hex : string → string).
Set Default Proof Using "Type".
Local Abbreviation has_slug db s := (existsb (λ r, bool_decide (nr_slug r = s)) (narratives db)).

Lemma seed_one_has (db : narrative_db J) entry s : has_slug (seed_one db entry) s = has_slug db s || bool_decide (entry.1 = s).
Proof.
  unfold seed_one. destruct (has_slug db entry.1) eqn:E; cbn.
  - case_bool_decide as Es; [subst; by rewrite E|by rewrite orb_false_r].
  - rewrite existsb_app. cbn. by rewrite orb_false_r.
Qed.

Lemma seed_list_has l (db : narrative_db J) s : has_slug (foldl seed_one db l) s = has_slug db s || existsb (λ e, bool_decide (e.1 = s)) l.
Proof.
  revert db. induction l as [|e l IH]; intros db; cbn; [by rewrite orb_false_r|]. rewrite IH, seed_one_has. by rewrite orb_assoc.
Qed.

Lemma seed_list_present l (db : narrative_db J) : (∀ e, e ∈ l → has_slug db e.1 = true) → narratives (foldl seed_one db l) = narratives db.
Proof.
  revert db. induction l as [|e l IH]; intros db Hl; [done|]. cbn [foldl].
  assert (narratives (seed_one db e) = narratives db) as E by (unfold seed_one; by rewrite (Hl e) by left).
  rewrite IH; [done|]. intros x Hx. rewrite E. apply Hl. by right.
Qed.

(** Seeding twice leaves the rows of seeding once, and afterwards evidence can
    be added under the slug of every category. *)
Theorem seeded_taxonomy (db : narrative_db J) :
  narratives (seed_narratives (seed_narratives db)) = narratives (seed_narratives db)
  ∧ ∀ c now e, in_slug e = NarrativeCategory.slug c →
      (add_narrative_evidence sha256_hex (seed_narratives db) now e).2 = ROk ().
Proof.
  assert (∀ e, e ∈ NARRATIVE_SLUGS → has_slug (seed_narratives db) e.1 = true) as Hall.
  { intros e He. unfold seed_narratives. rewrite seed_list_has. apply orb_true_iff. right. apply existsb_exists.
    exists e. split; [by apply list_elem_of_In|]. by apply bool_decide_eq_true. }
  split; [by apply seed_list_present|]. intros c now e Hc. unfold add_narrative_evidence, narrative_of_slug. rewrite Hc.
  destruct (find_first _ _) eqn:E; [done|]. exfalso. rewrite find_first_None in E.
  assert (has_slug (seed_narratives db) (NarrativeCategory.slug c) = true) as H.
  { destruct c; match goal with |- has_slug _ (NarrativeCategory.slug ?c) = _ =>
      apply (Hall (NarrativeCategory.slug c, default "" (snd <$> find_first (λ e, bool_decide (e.1 = NarrativeCategory.slug c)) NARRATIVE_SLUGS))) end;
      apply (bool_decide_unpack _); vm_compute; reflexivity. }
  apply existsb_exists in H as (r & Hr%list_elem_of_In & Hs). rewrite E in Hs; done.
Qed.

Fixpoint add_times (n : nat) (db : narrative_db J) (now : Z) (e : NarrativeEvidenceInput J) : narrative_db J :=
  match n with O => db | S n => add_times n (add_narrative_evidence sha256_hex db now e).1 now e end.

(** Nothing is deduplicated: adding one piece of evidence [n] times stores [n]
    rows with one content hash. *)
Theorem evidence_accumulates (db : narrative_db J) now e n (Hslug : is_Some (narrative_of_slug db (in_slug e))) :
  ∃ row, evidence (add_times n db now e) = evidence db ++ repeat row n
    ∧ ne_content_hash row = content_hash_of sha256_hex (in_source_kind e) (in_source_ref e) (in_claim_type e) (in_claim_text e).
Proof.
  destruct Hslug as [r Hr].
  set (row := MkEvidenceRow (ChainKind.as_str (in_chain e)) (in_mint e) (nr_id r) (in_source_kind e) (in_source_ref e) (in_canonical_url e)
    (in_claim_type e) (in_claim_text e) (in_polarity e) (in_published_at e) now (in_confidence e)
    (content_hash_of sha256_hex (in_source_kind e) (in_source_ref e) (in_claim_type e) (in_claim_text e)) (in_raw e)).
  exists row.
  split; [|reflexivity].
  assert (∀ m d, narratives d = narratives db → evidence (add_times m d now e) = evidence d ++ repeat row m) as Hn; [|by apply (Hn n db)].
  intros m. induction m as [|m IH]; intros d Hd; cbn [add_times repeat]; [by rewrite app_nil_r|].
  unfold add_narrative_evidence at 1. unfold narrative_of_slug at 1. rewrite Hd. fold (narrative_of_slug db (in_slug e)). rewrite Hr.
  cbn [fst]. rewrite IH by done. cbn [evidence]. by rewrite <-app_assoc.
Qed.
End taxonomy.

(** ** Classification *)

Section classification.
Context {J D : Type} `{DecimalNum D}.
Set Default Proof Using "Type".
Local Abbreviation classify := (classify_token_narratives (J := J) (D := D)).

Definition rows_of (id : Z) (rows : list (NarrativeEvidence J)) : list (NarrativeEvidence J) :=
  List.filter (λ e, ne_narrative_id e =? id) rows.

Lemma rows_of_nonempty id rows : rows_of id rows ≠ [] ↔ id ∈ ne_narrative_id <$> rows.
Proof.
  unfold rows_of. rewrite list_elem_of_fmap. split.
  - destruct (List.filter _ rows) as [|e l] eqn:E; [done|]. intros _.
    assert (e ∈ List.filter (λ e, ne_narrative_id e =? id) rows) as He by (rewrite E; left).
    apply elem_of_lfilter in He as [He Hid%Z.eqb_eq]. by exists e.
  - intros (e & -> & He) E. apply (not_elem_of_nil e). rewrite <-E. apply elem_of_lfilter. split; [done|]. apply Z.eqb_refl.
Qed.

Definition is_on_chain (e : NarrativeEvidence J) : bool := bool_decide (ne_source_kind e = "on_chain").

Definition empty_tally : tally D := MkTally d_zero false 0.

Lemma count_lookup rows m id : 0 <= ta_count (default empty_tally (m !! id)) < 2 ^ 32 →
  (rows_of id rows = [] → foldl count_evidence m rows !! id = m !! id)
  ∧ (rows_of id rows ≠ [] → ∃ ta, foldl count_evidence m rows !! id = Some ta
      ∧ ta_on_chain ta = ta_on_chain (default empty_tally (m !! id)) || existsb is_on_chain (rows_of id rows)
      ∧ ta_count ta = wrap_u32 (ta_count (default empty_tally (m !! id)) + Z.of_nat (length (rows_of id rows)))).
Proof.
  revert m. induction rows as [|e rows IH]; intros m Hm; [done|]. cbn [foldl rows_of List.filter].
  set (m' := count_evidence m e). destruct (Z.eqb_spec (ne_narrative_id e) id) as [E|E].
  - assert (m' !! id = Some (MkTally (ta_score (default empty_tally (m' !! id)))
      (ta_on_chain (default empty_tally (m !! id)) || is_on_chain e)
      (wrap_u32 (ta_count (default empty_tally (m !! id)) + 1)))) as Em.
    { unfold m', count_evidence. rewrite E, !lookup_insert_eq. cbn [default from_option ta_score]. do 2 f_equal.
      unfold is_on_chain, empty_tally. case_bool_decide; [by rewrite orb_true_r|by rewrite orb_false_r]. }
    assert (0 <= ta_count (default empty_tally (m' !! id)) < 2 ^ 32) as Hm'.
    { rewrite Em. cbn. unfold wrap_u32. apply Z.mod_pos_bound. lia. }
    destruct (IH m' Hm') as [H1 H2]. split; [done|]. intros _. fold (rows_of id rows).
    destruct (decide (rows_of id rows = [])) as [Enil|Enil].
    + rewrite (H1 Enil), Em, Enil. eexists. split; [reflexivity|]. cbn. by rewrite orb_false_r.
    + destruct (H2 Enil) as (ta & Hta & Hc & Hn). exists ta. split; [done|]. rewrite Em in Hc, Hn. cbn in Hc, Hn. cbn [existsb length].
      split; [by rewrite Hc, orb_assoc|]. rewrite Hn. unfold wrap_u32. rewrite Zplus_mod_idemp_l. f_equal. lia.
  - assert (m' !! id = m !! id) as Em by (unfold m', count_evidence; by rewrite lookup_insert_ne).
    rewrite <-Em in Hm. destruct (IH m' Hm) as [H1 H2]. rewrite Em in H1, H2. done.
Qed.

Lemma tally_of rows id : match foldl count_evidence (∅ : gmap Z (tally D)) rows !! id with
  | None => rows_of id rows = []
  | Some ta => rows_of id rows ≠ [] ∧ ta_on_chain ta = existsb is_on_chain (rows_of id rows)
      ∧ ta_count ta = wrap_u32 (Z.of_nat (length (rows_of id rows)))
  end.
Proof.
  destruct (count_lookup rows ∅ id) as [H1 H2]; [by rewrite lookup_empty|]. rewrite lookup_empty in H1, H2. cbn in H2.
  destruct (decide (rows_of id rows = [])) as [E|E]; [by rewrite H1|]. destruct (H2 E) as (ta & -> & ? & ?). done.
Qed.

(** One result for each narrative with usable evidence, the most confident
    first; without on-chain evidence a narrative is a candidate of confidence
    at most 49, with it confirmed at most 100. *)
Theorem narratives_classified (db : narrative_db J) order chain mint t l (Hok : classify db order chain mint t = ROk l)
    (Horder : NoDup order) (Hids : ∀ id, id ∈ order ↔ rows_of id (List.filter (usable chain mint t) (evidence db)) ≠ []) :
  StronglySorted (λ a b, tn_confidence b <= tn_confidence a) l
  ∧ ∃ results, l ≡ₚ results ∧ Forall2 (λ id n,
      let rows := rows_of id (List.filter (usable chain mint t) (evidence db)) in
      slug_of_id db id = Some (tn_slug n)
      ∧ tn_on_chain_confirmed n = existsb is_on_chain rows
      ∧ tn_status n = (if existsb is_on_chain rows then "confirmed" else "candidate")
      ∧ 0 <= tn_confidence n <= (if existsb is_on_chain rows then 100 else 49)
      ∧ tn_evidence_count n = wrap_u32 (Z.of_nat (length rows))) order results.
Proof.
  unfold classify_token_narratives in Hok. set (rows := List.filter (usable chain mint t) (evidence db)) in *.
  destruct (fold_result _ [] order) as [results|] eqn:E; [|done]. injection Hok as <-. split.
  - assert (StronglySorted (λ a b : TokenNarrative D, (tn_confidence b <=? tn_confidence a) = true)
      (stable_sort (λ a b, tn_confidence b <=? tn_confidence a) results)) as Hs.
    { apply stable_sort_sorted; [intros x y|intros x y z]; rewrite !Z.leb_le; lia. }
    revert Hs. apply StronglySorted_weaken. intros a b. apply Z.leb_le.
  - exists results. split; [apply stable_sort_perm|]. clear Horder.
    assert (∀ order acc, (∀ id, id ∈ order → rows_of id rows ≠ []) →
      fold_result (λ acc id, match foldl count_evidence (∅ : gmap Z (tally D)) rows !! id with
        | None => ROk acc
        | Some ta => match slug_of_id db id with Some slug => ROk (acc ++ [token_narrative slug ta]) | None => RErr "no rows returned" end
        end) acc order = ROk results →
      ∃ new, results = acc ++ new ∧ Forall2 (λ id n, slug_of_id db id = Some (tn_slug n)
        ∧ tn_on_chain_confirmed n = existsb is_on_chain (rows_of id rows)
        ∧ tn_status n = (if existsb is_on_chain (rows_of id rows) then "confirmed" else "candidate")
        ∧ 0 <= tn_confidence n <= (if existsb is_on_chain (rows_of id rows) then 100 else 49)
        ∧ tn_evidence_count n = wrap_u32 (Z.of_nat (length (rows_of id rows)))) order new) as Hgen.
    { clear E. intros ids. induction ids as [|id ids IH]; intros acc Hne; cbn [fold_result].
      { intros [= ->]. exists []. by rewrite app_nil_r. }
      pose proof (tally_of rows id) as Ht. destruct (_ !! id) as [ta|]; [|exfalso; by apply (Hne id); [left|]].
      destruct Ht as (_ & Hc & Hn). destruct (slug_of_id db id) as [slug|] eqn:Es; [|done]. intros E.
      apply IH in E as (new & -> & Hnew); [|intros x Hx; apply Hne; by right].
      exists (token_narrative slug ta :: new). split; [by rewrite <-app_assoc|]. constructor; [|done].
      unfold token_narrative. cbn. rewrite <-Hc. split_and!; try done; destruct (ta_on_chain ta); lia. }
    apply (Hgen order []) in E as (new & -> & Hnew); [done|]. intros id. apply Hids.
Qed.

(** Evidence observed after the instant changes no classification and no report. *)
Theorem narrative_no_look_ahead (db db' : narrative_db J) show_time distinct order chain mint t
    (Hsame : narratives db = narratives db')
    (Hknown : List.filter (λ e, ne_observed_at e <=? t) (evidence db) = List.filter (λ e, ne_observed_at e <=? t) (evidence db')) :
  classify db order chain mint t = classify db' order chain mint t
  ∧ explain_narrative (D := D) show_time distinct db order chain mint t
    = explain_narrative (D := D) show_time distinct db' order chain mint t.
Proof.
  assert (List.filter (usable chain mint t) (evidence db) = List.filter (usable chain mint t) (evidence db')) as Hu.
  { assert (∀ l : list (NarrativeEvidence J), List.filter (usable chain mint t) l
      = List.filter (usable chain mint t) (List.filter (λ e, ne_observed_at e <=? t) l)) as Hf.
    { induction l as [|e l IH]; [done|]. cbn. destruct (ne_observed_at e <=? t) eqn:E; cbn; [by rewrite IH|].
      unfold usable at 1. by rewrite E, andb_false_r. }
    by rewrite (Hf (evidence db)), Hknown, <-Hf. }
  unfold explain_narrative, classify_token_narratives, slug_of_id. by rewrite Hsame, Hu.
Qed.
End classification.

(** ** Concrete narratives *)

Definition seeded : narrative_db () := seed_narratives (MkNarratives [] 1 []).

Definition piece (slug source polarity : string) (confidence : Z) : NarrativeEvidenceInput () :=
  MkInput ChainKind.Solana "M" slug source "ref" None "theme" "text" polarity None confidence ().

Definition with_pieces (l : list (NarrativeEvidenceInput ())) : narrative_db () :=
  foldl (λ db e, (add_narrative_evidence (λ s, s) db 0 e).1) seeded l.

Definition classified (db : narrative_db ()) (order : list Z) : result (list (string * Z * string)) :=
  match classify_token_narratives (D := Qc) db order ChainKind.Solana "M" 10 with
  | ROk l => ROk ((λ n, (tn_slug n, tn_confidence n, tn_status n)) <$> l)
  | RErr e => RErr e
  end.

Example gmgn_alone_capped : classified (with_pieces [piece "ai" "gmgn" "supporting" 90]) [1] = ROk [("ai", 49, "candidate")].
Proof. vm_compute. reflexivity. Qed.

(** On-chain evidence against a narrative confirms it and lifts its cap. *)
Example contradiction_confirms :
  classified (with_pieces [piece "ai" "gmgn" "supporting" 90; piece "ai" "gmgn" "supporting" 90; piece "ai" "on_chain" "contradicting" 10]) [1]
  = ROk [("ai", 56, "confirmed")].
Proof. vm_compute. reflexivity. Qed.

(** With equal confidences the order of the hash map decides what is reported. *)
Example equal_narratives_undecided :
  let db := with_pieces [piece "ai" "gmgn" "supporting" 40; piece "meme" "gmgn" "supporting" 40] in
  classified db [1; 4] = ROk [("ai", 40, "candidate"); ("meme", 40, "candidate")]
  ∧ classified db [4; 1] = ROk [("meme", 40, "candidate"); ("ai", 40, "candidate")].
Proof. vm_compute. done. Qed.

(** The parts of the hash are not framed. *)
Example content_hash_ambiguous sha256_hex :
  content_hash_of sha256_hex "gmgn" "a|b" "c" "d" = content_hash_of sha256_hex "gmgn" "a" "b|c" "d".
Proof. reflexivity. Qed.

(** The word "forward" is a hint of real-world assets. *)
Example forward_is_rwa : narrative_hints_from_gmgn (λ s : string, s) to_ascii_lowercase "move forward" = [NarrativeCategory.Rwa].
Proof. vm_compute. reflexivity. Qed.

Lemma evidence_accumulates_witness :
  ∃ row, evidence (add_times (λ s, s) 3 seeded 0 (piece "ai" "gmgn" "supporting" 90)) = [] ++ repeat row 3
    ∧ ne_content_hash row = content_hash_of (λ s, s) "gmgn" "ref" "theme" "text".
Proof. refine (evidence_accumulates (λ s, s) seeded 0 (piece "ai" "gmgn" "supporting" 90) 3 _). vm_compute. eexists. reflexivity. Defined.

Definition two_sources : narrative_db () :=
  with_pieces [piece "ai" "gmgn" "supporting" 90; piece "ai" "on_chain" "supporting" 70; piece "meme" "gmgn" "supporting" 95].

Lemma narratives_classified_witness :
  ∃ l, classify_token_narratives (D := Qc) two_sources [4; 1] ChainKind.Solana "M" 10 = ROk l
    ∧ StronglySorted (λ a b, tn_confidence b <= tn_confidence a) l.
Proof.
  assert (∃ l, classify_token_narratives (D := Qc) two_sources [4; 1] ChainKind.Solana "M" 10 = ROk l) as [l Hl]
    by (vm_compute; eexists; reflexivity).
  exists l. split; [exact Hl|]. refine (proj1 (narratives_classified two_sources [4; 1] ChainKind.Solana "M" 10 l Hl _ _)).
  - apply (bool_decide_unpack _). vm_compute. reflexivity.
  - intros id. assert (List.filter (usable ChainKind.Solana "M" 10) (evidence two_sources) = evidence two_sources) as -> by (vm_compute; reflexivity).
    set (ids := [4; 1]). assert (ne_narrative_id <$> evidence two_sources = [1; 1; 4]) as E by (vm_compute; reflexivity).
    rewrite rows_of_nonempty, E. unfold ids. rewrite !elem_of_cons. clear. pose proof (not_elem_of_nil id) as Hn. tauto.
Defined.

Lemma narrative_no_look_ahead_witness :
  classify_token_narratives (D := Qc) (with_pieces [piece "ai" "gmgn" "supporting" 90]) [1] ChainKind.Solana "M" 0
  = classify_token_narratives (D := Qc)
      (add_narrative_evidence (λ s, s) (with_pieces [piece "ai" "gmgn" "supporting" 90]) 5 (piece "ai" "on_chain" "supporting" 100)).1
      [1] ChainKind.Solana "M" 0.
Proof.
  refine (proj1 (narrative_no_look_ahead _ _ (λ _, "") (λ l, l) [1] ChainKind.Solana "M" 0 _ _)); vm_compute; reflexivity.
Defined.
