(* ===== verification/Health.v ===== *)
(** * Health reports (src/src/health.rs)

    Adapter health, the counts of the radar stages and of the channels, the
    report and the redaction of secrets.  A query that fails is a [false] of
    [reads]; the clocks and the texts of instants are arguments. *)
From stdpp Require Import base gmap sets list strings.
From stdpp Require Import options.
From S2P Require Import Prelude Text Slices Floats Models Json.
Local Open Scope string_scope.
Local Open Scope list_scope.
Local Open Scope Z_scope.

Record ChainHealth := MkChainHealth {
  ch_chain : ChainKind;
  enabled : bool;
  ch_error : option string;
  validated_chain_id : option string;
}.

Definition chain_health (solana_enabled robinhood_configured robinhood_validated : bool)
    (robinhood_error robinhood_chain_id : option string) : list ChainHealth :=
  [MkChainHealth ChainKind.Solana solana_enabled None None;
   MkChainHealth ChainKind.Robinhood (robinhood_configured && robinhood_validated) robinhood_error
     (if robinhood_validated then robinhood_chain_id else None)].

(** SELECT v, COUNT( * ) GROUP BY v. *)
Definition group_counts (values : list string) : list (string * Z) :=
  (λ v, (v, Z.of_nat (length (List.filter (λ x, bool_decide (x = v)) values)))) <$> remove_dups values.

(** [count.max(0) as u32]. *)
Definition count_u32 (count : Z) : Z := wrap_u32 (Z.max 0 count).

Record RadarStageCounts := MkRadarCounts { funded : Z; preparation : Z; deployed : Z; dismissed : Z }.
Definition no_radar : RadarStageCounts := MkRadarCounts 0 0 0 0.

Definition radar_step (c : RadarStageCounts) (row : string * Z) : RadarStageCounts :=
  let n := count_u32 row.2 in
  if bool_decide (row.1 = "funded") then MkRadarCounts n (preparation c) (deployed c) (dismissed c)
  else if bool_decide (row.1 = "preparation") then MkRadarCounts (funded c) n (deployed c) (dismissed c)
  else if bool_decide (row.1 = "deployed") then MkRadarCounts (funded c) (preparation c) n (dismissed c)
  else if bool_decide (row.1 = "dismissed") then MkRadarCounts (funded c) (preparation c) (deployed c) n
  else c.

(** The stages of funding_radar_cases. *)
Definition radar_stage_counts (reached : bool) (stages : list string) : result RadarStageCounts :=
  if reached then ROk (foldl radar_step no_radar (group_counts stages)) else RErr "radar stages".

Record TelegramHealth := MkTelegramHealth {
  th_allowlisted : Z;
  th_active : Z;
  th_flood_wait : Z;
  th_disabled : Z;
  th_messages_stored : Z;
}.
Definition no_telegram : TelegramHealth := MkTelegramHealth 0 0 0 0 0.

Definition telegram_step (h : TelegramHealth) (row : string * Z) : TelegramHealth :=
  let n := count_u32 row.2 in
  if bool_decide (row.1 = "active") then MkTelegramHealth (th_allowlisted h) n (th_flood_wait h) (th_disabled h) (th_messages_stored h)
  else if bool_decide (row.1 = "flood_wait") then MkTelegramHealth (th_allowlisted h) (th_active h) n (th_disabled h) (th_messages_stored h)
  else if contains row.1 ["disabled"; "not_found"; "auth_failed"]
  then MkTelegramHealth (th_allowlisted h) (th_active h) (th_flood_wait h) (wrap_u32 (th_disabled h + n)) (th_messages_stored h)
  else h.

(** The channels as (status, allowlisted), and the number of messages. *)
Definition telegram_health (reads : bool * bool * bool) (channels : list (string * bool)) (messages : Z) : result TelegramHealth :=
  let '(statuses_read, allowlist_read, messages_read) := reads in
  if negb statuses_read then RErr "channel statuses" else
  let h := foldl telegram_step no_telegram (group_counts channels.*1) in
  if negb allowlist_read then RErr "allowlisted" else
  let allowlisted := Z.of_nat (length (List.filter snd channels)) in
  if negb messages_read then RErr "messages" else
  ROk (MkTelegramHealth (count_u32 allowlisted) (th_active h) (th_flood_wait h) (th_disabled h) (wrap_u64 (Z.max 0 messages))).

Record MaintenanceView := MkView {
  running : bool;
  stale : bool;
  last_success : option string;
  last_error : option string;
  last_error_at : option string;
  rows_pruned_total : Z;
  oldest_retained : option string;
  next_run : option string;
  interval_secs : Z;
}.

(** The tables of a report and which of its queries succeed. *)
Record health_db := MkHealthDb {
  radar_read : bool;
  telegram_reads : bool * bool * bool;
  raw_read : bool;
  open_read : bool;
  case_stages : list string;
  channel_rows : list (string * bool);
  message_count : Z;
  raw_event_count : Z;
}.

Definition result_or {A} (d : A) (r : result A) : A := match r with ROk x => x | RErr _ => d end.

Definition open_cases (db : health_db) : Z :=
  Z.of_nat (length (List.filter (λ s, negb (bool_decide (s = "dismissed"))) (case_stages db))).

Section report.
Context {J : Type} `{JsonValue J} (j_int : Z → J) (j_float : f64 → J).

Definition j_opt (o : option string) : J := match o with Some s => j_str s | None => j_null end.

Definition chain_json (c : ChainHealth) : J :=
  j_object [("chain", j_str (ChainKind.as_str (ch_chain c))); ("enabled", j_bool (enabled c)); ("error", j_opt (ch_error c));
            ("validated_chain_id", j_opt (validated_chain_id c))].

Definition retention_json (m : MaintenanceView) : J :=
  j_object [("running", j_bool (running m)); ("stale", j_bool (stale m)); ("interval_secs", j_int (interval_secs m));
    ("last_success", j_opt (last_success m)); ("last_error", j_opt (last_error m)); ("last_error_at", j_opt (last_error_at m));
    ("rows_pruned_total", j_int (rows_pruned_total m)); ("oldest_retained", j_opt (oldest_retained m)); ("next_run", j_opt (next_run m))].

Definition degraded (m : option MaintenanceView) : bool :=
  match m with Some m => stale m || bool_decide (is_Some (last_error m)) | None => false end.

(** The fields of the report. *)
Definition report_fields (db : health_db) (latency : result f64) (chains : list ChainHealth) (helius_provider_count : nat)
    (gmgn_configured : bool) (gmgn_bucket_tokens : option f64) (maintenance : option MaintenanceView)
    (generated_at : string) (duration_ms : f64) : list (string * J) :=
  match latency with
  | RErr e => [("status", j_str "degraded"); ("database", j_object [("error", j_str e)])]
  | ROk db_latency =>
      let radar := result_or no_radar (radar_stage_counts (radar_read db) (case_stages db)) in
      let telegram := result_or no_telegram (telegram_health (telegram_reads db) (channel_rows db) (message_count db)) in
      let raw_events := if raw_read db then raw_event_count db else 0 in
      let open := if open_read db then open_cases db else 0 in
      [("status", j_str (if degraded maintenance then "degraded" else "ok"));
       ("generated_at", j_str generated_at);
       ("database", j_object [("latency_ms", j_float db_latency)]);
       ("chains", j_array (chain_json <$> chains));
       ("helius", j_object [("providers", j_int (Z.of_nat helius_provider_count));
          ("provider_ids", j_array ((λ i, j_str ("helius_" +:+ pretty i)) <$> seq 1 helius_provider_count))]);
       ("gmgn", j_object [("configured", j_bool gmgn_configured);
          ("bucket_tokens", match gmgn_bucket_tokens with Some t => j_float t | None => j_null end)]);
       ("telegram", j_object [("allowlisted", j_int (th_allowlisted telegram)); ("active", j_int (th_active telegram));
          ("flood_wait", j_int (th_flood_wait telegram)); ("disabled", j_int (th_disabled telegram));
          ("messages_stored", j_int (th_messages_stored telegram))]);
       ("funding_radar", j_object [("stages", j_object [("funded", j_int (funded radar)); ("preparation", j_int (preparation radar));
          ("deployed", j_int (deployed radar)); ("dismissed", j_int (dismissed radar))]); ("open_cases", j_int open)]);
       ("storage", j_object [("raw_events", j_int raw_events)]);
       ("report_duration_ms", j_float duration_ms);
       ("retention", match maintenance with
                     | Some m => retention_json m
                     | None => j_object [("running", j_bool false); ("reason", j_str "not_running_in_this_process")]
                     end)]
  end.
End report.

(** [&secret[..2]] panics inside a character. *)
Definition redact (secret : string) : outcome string :=
  if (String.length secret <=? 4)%nat then Done "***" else
  run! prefix := slice_to 2 secret in
  Done (prefix +:+ "***(" +:+ pretty (String.length secret) +:+ " chars)").

(** ** Counts *)

(** How many of the values are [v]. *)
Definition occurrences (v : string) (values : list string) : Z :=
  Z.of_nat (length (List.filter (λ x, bool_decide (x = v)) values)).

Lemma occurrences_absent v values : (v ∉ remove_dups values) → occurrences v values = 0.
Proof.
  rewrite elem_of_remove_dups. intros Hv. unfold occurrences. destruct (List.filter _ values) as [|x l] eqn:E; [done|].
  exfalso. assert (x ∈ List.filter (λ x, bool_decide (x = v)) values) as Hx by (rewrite E; left).
  apply elem_of_lfilter in Hx as [Hx ->%bool_decide_eq_true]. done.
Qed.

Lemma occurrences_le v values : 0 <= occurrences v values <= Z.of_nat (length values).
Proof. unfold occurrences. induction values as [|x l IH]; cbn; [lia|]. case_bool_decide; cbn [length] in *; lia. Qed.

(** A slot set by its own value keeps the count of that value. *)
Definition slot (ds values : list string) (v : string) (d : Z) : Z :=
  if bool_decide (v ∈ ds) then count_u32 (occurrences v values) else d.

Lemma slot_cons x ds values v d : (x ∉ ds) → slot (x :: ds) values v d = slot ds values v (if bool_decide (x = v) then count_u32 (occurrences x values) else d).
Proof.
  intros Hx. unfold slot. destruct (decide (x = v)) as [->|Hne].
  - by rewrite bool_decide_eq_true_2, (bool_decide_eq_false_2 (v ∈ ds)), bool_decide_eq_true_2 by (done || left).
  - rewrite (bool_decide_eq_false_2 (x = v)) by done. apply (f_equal (λ b : bool, if b then _ else _)). apply bool_decide_ext. set_solver.
Qed.

Lemma slot_all values v : slot (remove_dups values) values v 0 = count_u32 (occurrences v values).
Proof. unfold slot. case_bool_decide as Hv; [done|]. by rewrite occurrences_absent. Qed.

Lemma radar_fold ds values c : NoDup ds →
  foldl radar_step c ((λ v, (v, occurrences v values)) <$> ds)
  = MkRadarCounts (slot ds values "funded" (funded c)) (slot ds values "preparation" (preparation c))
      (slot ds values "deployed" (deployed c)) (slot ds values "dismissed" (dismissed c)).
Proof.
  intros Hnd. revert c. induction Hnd as [|x ds Hx Hnd IH]; intros c; [by destruct c|].
  rewrite !slot_cons by done. cbn [fmap list_fmap foldl]. rewrite IH. unfold radar_step. cbn [fst snd].
  destruct (decide (x = "funded")) as [->|H1]; [done|]. rewrite !(bool_decide_eq_false_2 (x = "funded")) by done.
  destruct (decide (x = "preparation")) as [->|H2]; [done|]. rewrite !(bool_decide_eq_false_2 (x = "preparation")) by done.
  destruct (decide (x = "deployed")) as [->|H3]; [done|]. rewrite !(bool_decide_eq_false_2 (x = "deployed")) by done.
  destruct (decide (x = "dismissed")) as [->|H4]; [done|]. by rewrite !(bool_decide_eq_false_2 (x = "dismissed")) by done.
Qed.

(** The counts of the stages are exact below 2^32 cases. *)
Theorem radar_counts_exact stages (Hsmall : Z.of_nat (length stages) < 2 ^ 32) :
  radar_stage_counts true stages = ROk (MkRadarCounts (occurrences "funded" stages) (occurrences "preparation" stages)
    (occurrences "deployed" stages) (occurrences "dismissed" stages)).
Proof.
  unfold radar_stage_counts, group_counts. fold (occurrences).
  change (λ v, (v, Z.of_nat (length (List.filter (λ x, bool_decide (x = v)) stages)))) with (λ v, (v, occurrences v stages)).
  rewrite radar_fold by apply NoDup_remove_dups. cbn [no_radar funded preparation deployed dismissed]. rewrite !slot_all.
  assert (∀ v, count_u32 (occurrences v stages) = occurrences v stages) as Hid; [|by rewrite !Hid].
  intros v. pose proof (occurrences_le v stages). unfold count_u32. rewrite Z.max_r by lia. apply wrap_u32_id. unfold is_u32, u32_max. lia.
Qed.

(** ** The status *)

Section status.
Context {J : Type} `{JsonValue J} (j_int : Z → J) (j_float : f64 → J).
Set Default Proof Using "Type".

Definition field (key : string) (fields : list (string * J)) : option J := snd <$> find_first (λ f, bool_decide (f.1 = key)) fields.

Lemma degraded_iff maintenance : degraded maintenance = true ↔ ∃ m, maintenance = Some m ∧ (stale m = true ∨ is_Some (last_error m)).
Proof.
  destruct maintenance as [m|]; cbn; [|split; [done|by intros (m & ? & _)]].
  rewrite orb_true_iff, bool_decide_eq_true. split; [intros; by exists m|by intros (m' & [= <-] & ?)].
Qed.

(** The status is degraded exactly when the database does not answer or the
    maintenance of this process is stale or failing; without maintenance here
    the report says so. *)
Theorem status_degraded_iff db latency chains n configured tokens maintenance at_ ms
    (Hdistinct : j_str "degraded" ≠ (j_str "ok" : J)) :
  let fields := report_fields j_int j_float db latency chains n configured tokens maintenance at_ ms in
  (field "status" fields = Some (j_str "degraded")
   ↔ is_ok latency = false ∨ ∃ m, maintenance = Some m ∧ (stale m = true ∨ is_Some (last_error m)))
  ∧ (is_ok latency = true → maintenance = None →
     field "retention" fields = Some (j_object [("running", j_bool false); ("reason", j_str "not_running_in_this_process")])).
Proof.
  cbv zeta. destruct latency as [l|e].
  - split; [|by intros _ ->]. rewrite <-(degraded_iff maintenance). unfold field, report_fields. cbn.
    destruct (degraded maintenance); split; [by right|done|intros [= E]; by symmetry in E|by intros [?|?]].
  - split; [|done]. split; [by left|done].
Qed.

(** A report whose counting queries fail is the report of an empty database. *)
Theorem failed_counts_read_as_empty db latency chains n configured tokens maintenance at_ ms
    (Hfail : radar_read db = false ∧ telegram_reads db = (false, false, false) ∧ raw_read db = false ∧ open_read db = false) :
  report_fields j_int j_float db latency chains n configured tokens maintenance at_ ms
  = report_fields j_int j_float (MkHealthDb true (true, true, true) true true [] [] 0 0) latency chains n configured tokens maintenance at_ ms.
Proof. destruct Hfail as (H1 & H2 & H3 & H4). unfold report_fields. rewrite H1, H2, H3, H4. by destruct latency. Qed.
End status.

(** ** Redaction *)

(** A redaction depends on the first two bytes and the length of the secret
    alone, and it panics exactly when those bytes end inside a character. *)
Theorem redact_hides s t (Hlen : String.length s = String.length t) (Hprefix : str_take 2 s = str_take 2 t)
    (Hboundary : char_boundary 2 s = char_boundary 2 t) :
  redact s = redact t ∧ (redact s = Panicked ↔ (4 < String.length s)%nat ∧ char_boundary 2 s = false).
Proof.
  unfold redact, slice_to, in_bounds. rewrite Hlen, Hprefix, Hboundary. split; [done|].
  destruct (Nat.leb_spec (String.length t) 4); [split; [done|lia]|].
  rewrite (proj2 (Nat.leb_le 2 _)) by lia. cbn. destruct (char_boundary 2 t); split; try done; [intros [? ?]; done].
Qed.

(** ** Concrete reports *)

Definition euro_key : string := String (byte_of 226) (String (byte_of 130) (String (byte_of 172) "uro")).

Example redact_samples :
  redact "abcd" = Done "***" ∧ redact "super-secret" = Done "su***(12 chars)" ∧ redact euro_key = Panicked.
Proof. vm_compute. done. Qed.

Lemma redact_hides_witness : redact "super-secret" = redact "sunken-chest".
Proof. apply (redact_hides "super-secret" "sunken-chest"); vm_compute; reflexivity. Defined.

Lemma radar_counts_exact_witness :
  radar_stage_counts true ["funded"; "deployed"; "funded"; "odd"] = ROk (MkRadarCounts 2 0 1 0).
Proof. exact (radar_counts_exact ["funded"; "deployed"; "funded"; "odd"] ltac:(vm_compute; reflexivity)). Defined.

Definition quiet_view : MaintenanceView := MkView false false None None None 0 None None 3600.
Definition small_db : health_db := MkHealthDb true (true, true, false) true true ["funded"] [("active", true)] 5 7.

Lemma status_degraded_iff_witness :
  field "status" (report_fields JInt JFloat small_db (ROk (f64_of_Z 1)) [] 2 true None (Some quiet_view) "" (f64_of_Z 1))
    = Some (j_str "degraded")
  ↔ is_ok (ROk (f64_of_Z 1)) = false ∨ ∃ m, Some quiet_view = Some m ∧ (stale m = true ∨ is_Some (last_error m)).
Proof.
  assert (@j_str json _ "degraded" ≠ j_str "ok") as Hne by discriminate.
  exact (proj1 (status_degraded_iff JInt JFloat small_db (ROk (f64_of_Z 1)) [] 2 true None (Some quiet_view) "" (f64_of_Z 1) Hne)).
Defined.

(** A maintenance task that is not running but neither stale nor failing leaves
    the status at ok, and one failed query zeroes every count of the channels. *)
Example stopped_maintenance_ok :
  let fields := report_fields JInt JFloat small_db (ROk (f64_of_Z 1)) [] 2 true None (Some quiet_view) "" (f64_of_Z 1) in
  field "status" fields = Some (JStr "ok") ∧ (field "telegram" fields ≫= λ j, j_get j "active") = Some (JInt 0).
Proof. vm_compute. done. Qed.

Lemma failed_counts_read_as_empty_witness :
  report_fields JInt JFloat (MkHealthDb false (false, false, false) false false ["funded"] [] 5 7) (ROk (f64_of_Z 1)) [] 2 true None None "" (f64_of_Z 1)
  = report_fields JInt JFloat (MkHealthDb true (true, true, true) true true [] [] 0 0) (ROk (f64_of_Z 1)) [] 2 true None None "" (f64_of_Z 1).
Proof. apply failed_counts_read_as_empty. repeat split. Defined.
