(* ===== verification/Config.v ===== *)
(** * Configuration (src/src/config.rs)

    The sections of config.toml with their defaults, their deserialisation, the
    environment and [Settings::load].  The TOML parser is a library: a value is
    read through the interface [TomlValue], whose instance [toml] runs the
    witnesses.  The environment is the one of the launching process together
    with the file .env, which never replaces a variable that is set. *)
From stdpp Require Import base gmap sets list strings pretty.
From stdpp Require Import options.
From S2P Require Import Prelude Text Slices Floats Helius FundingRadar Scoring Signals Gmgn TelegramIngest.
Local Open Scope string_scope.
Local Open Scope Z_scope.
Local Open Scope list_scope.

(** ** TOML *)

Class TomlValue (T : Type) := {
  t_get : T → string → option T;
  t_is_table : T → bool;
  t_bool : T → option bool;
  t_int : T → option Z;
  (** integers too *)
  t_float : T → option f64;
  t_str : T → option string;
  t_array : T → option (list T);
}.

Inductive toml :=
  | TBool (b : bool)
  | TInt (z : Z)
  | TFloat (f : f64)
  | TStr (s : string)
  | TArray (l : list toml)
  | TTable (fields : list (string * toml)).

#[global] Instance toml_TomlValue : TomlValue toml := {|
  t_get t key := match t with
                 | TTable fields => snd <$> find_first (λ f, bool_decide (f.1 = key)) fields
                 | _ => None end;
  t_is_table t := match t with TTable _ => true | _ => false end;
  t_bool t := match t with TBool b => Some b | _ => None end;
  t_int t := match t with TInt z => Some z | _ => None end;
  t_float t := match t with TInt z => Some (f64_of_Z z) | TFloat f => Some f | _ => None end;
  t_str t := match t with TStr s => Some s | _ => None end;
  t_array t := match t with TArray l => Some l | _ => None end;
|}.

(** ** The sections *)

Definition provider_workers (p : RuntimeProfile) : Z := match p with Low => 2 | Scale => 8 end.
Definition raw_retention_days (p : RuntimeProfile) : Z := match p with Low => 14 | Scale => 90 end.
Definition laserstream_grpc (p : RuntimeProfile) : bool := match p with Low => false | Scale => true end.
Definition independent_workers (p : RuntimeProfile) : bool := match p with Low => false | Scale => true end.

Module RobinhoodChain.
Record RobinhoodChainConfig := mk {
  enabled : bool;
  chain_id : string;
  helius_slug : string;
  native_symbol : string;
  native_decimals : Z;
  explorer_url : string;
  start_block : Z;
}.

(** The derived [Default]. *)
Definition default : RobinhoodChainConfig := mk false "" "" "" 0 "" 0.
End RobinhoodChain.

(** The Solana section is its flag. *)
Record ChainsConfig := MkChains {
  solana_enabled : bool;
  robinhood : RobinhoodChain.RobinhoodChainConfig;
}.

Module TelegramConfig.
Record TelegramConfig := mk {
  enabled : bool;
  allowlist : list string;
  concurrency : Z;
  backfill_limit_per_channel : Z;
}.

Definition default : TelegramConfig := mk false [] 4 1000.
End TelegramConfig.

Record RetentionConfig := MkRetention {
  raw_events_days_low : option Z;
  raw_events_days_scale : option Z;
}.

Module QueuesConfig.
Record QueuesConfig := mk {
  precedence : list string;
  historical_backfill_pause_lag_seconds : Z;
}.

Definition default : QueuesConfig :=
  mk ["live_watch"; "funding_radar"; "telegram_ingest"; "seed_sync"; "historical_backfill"] 60.
End QueuesConfig.

Record ServerConfig := MkServer {
  webhook_bind : option string;
  webhook_auth_token : option string;
}.

Record AppConfig := MkApp {
  runtime_profile : RuntimeProfile;
  workspace_id : Z;
  chains : ChainsConfig;
  helius : HeliusConfig;
  gmgn : GmgnConfig;
  telegram : TelegramConfig.TelegramConfig;
  funding_radar : FundingRadarConfig;
  scoring : ScoringConfig;
  signals : SignalsConfig;
  gmgn_only_confidence_cap : Z;
  retention : RetentionConfig;
  queues : QueuesConfig.QueuesConfig;
  server : ServerConfig;
}.

Definition app_default : AppConfig :=
  MkApp Low 1 (MkChains false RobinhoodChain.default) HeliusConfig.default Gmgn.default_config
    TelegramConfig.default FundingRadarConfig.default ScoringConfig.default SignalsConfig.default
    49 (MkRetention None None) QueuesConfig.default (MkServer None None).

(** [replacen(from, to, 1)]. *)
Definition replace_first (from to s : string) : string :=
  match str_find from s with
  | Some i => str_take i s +:+ to +:+ str_drop (i + String.length from) s
  | None => s
  end.

Definition ws_url (c : HeliusConfig) (key : string) : string :=
  replace_first "http://" "ws://" (replace_first "https://" "wss://" (HeliusConfig.normalized_base c))
  +:+ "/?api-key=" +:+ key.

(** ** Deserialisation

    An absent field takes its default or is an error; a present one of the
    wrong type is an error; fields the structure does not have are ignored. *)
Section decode.
Context {T : Type} `{TomlValue T}.

Definition field_or {A} (t : T) (key : string) (dec : T → option A) (absent : option A) : result A :=
  match t_get t key with
  | Some v => match dec v with Some a => ROk a | None => RErr ("invalid type for `" +:+ key +:+ "`") end
  | None => match absent with Some a => ROk a | None => RErr ("missing field `" +:+ key +:+ "`") end
  end.

Definition ranged (lo hi : Z) (v : T) : option Z :=
  t_int v ≫= λ z, if (lo <=? z) && (z <=? hi) then Some z else None.
Definition dec_u32 : T → option Z := ranged 0 u32_max.
(** A TOML integer is an i64. *)
Definition dec_u64 : T → option Z := ranged 0 i64_max.
Definition dec_i64 : T → option Z := ranged i64_min i64_max.
Definition dec_strings (v : T) : option (list string) := t_array v ≫= mapM t_str.
Definition dec_option {A} (dec : T → option A) (v : T) : option (option A) := Some <$> dec v.

Definition dec_profile (v : T) : option RuntimeProfile :=
  t_str v ≫= pick [(["low"], Low); (["scale"], Scale)].

Definition table {A} (dec : T → result A) (v : T) : result A :=
  if t_is_table v then dec v else RErr "invalid type: expected a table".

(** A section of [#[serde(default)]]. *)
Definition section_or {A} (t : T) (key : string) (dec : T → result A) (absent : A) : result A :=
  match t_get t key with Some v => table dec v | None => ROk absent end.

Definition dec_solana (t : T) : result bool := field_or t "enabled" t_bool None.

Definition dec_robinhood (t : T) : result RobinhoodChain.RobinhoodChainConfig :=
  let! enabled := field_or t "enabled" t_bool None in
  let! chain_id := field_or t "chain_id" t_str (Some "") in
  let! slug := field_or t "helius_slug" t_str (Some "robinhood") in
  let! symbol := field_or t "native_symbol" t_str (Some "") in
  let! decimals := field_or t "native_decimals" dec_u32 (Some 18) in
  let! url := field_or t "explorer_url" t_str (Some "") in
  let! start := field_or t "start_block" dec_u64 (Some 0) in
  ROk (RobinhoodChain.mk enabled chain_id slug symbol decimals url start).

Definition dec_chains (t : T) : result ChainsConfig :=
  let! solana := section_or t "solana" dec_solana false in
  let! rh := section_or t "robinhood" dec_robinhood RobinhoodChain.default in
  ROk (MkChains solana rh).

Definition dec_helius (t : T) : result HeliusConfig :=
  let! base := field_or t "base_url" t_str (Some "https://mainnet.helius-rpc.com") in
  let! rpc := field_or t "rpc_rate_per_second" dec_u32 (Some 10) in
  let! enhanced := field_or t "enhanced_rate_per_second" dec_u32 (Some 2) in
  let! wallet := field_or t "wallet_rate_per_second" dec_u32 (Some 2) in
  let! retries := field_or t "max_retries" dec_u32 (Some 3) in
  let! timeout := field_or t "timeout_seconds" dec_u64 (Some 30) in
  ROk (HeliusConfig.mk base rpc enhanced wallet retries timeout).

Definition dec_gmgn (t : T) : result GmgnConfig :=
  let! base := field_or t "base_url" t_str (Some "https://openapi.gmgn.ai") in
  let! capacity := field_or t "bucket_capacity" dec_u32 (Some 20) in
  let! refill := field_or t "bucket_refill_per_second" dec_u32 (Some 20) in
  let! timeout := field_or t "timeout_seconds" dec_u64 (Some 30) in
  let! routes := field_or t "enabled_routes" dec_strings (Some []) in
  ROk (MkGmgnConfig base capacity refill timeout routes).

Definition dec_telegram (t : T) : result TelegramConfig.TelegramConfig :=
  let! enabled := field_or t "enabled" t_bool (Some false) in
  let! allowlist := field_or t "allowlist" dec_strings (Some []) in
  let! concurrency := field_or t "concurrency" dec_u64 (Some 4) in
  let! backfill := field_or t "backfill_limit_per_channel" dec_u32 (Some 1000) in
  ROk (TelegramConfig.mk enabled allowlist concurrency backfill).

Definition dec_funding_radar (t : T) : result FundingRadarConfig :=
  let! min_sol := field_or t "large_funding_min_sol" dec_u64 (Some 100) in
  let! min_usd := field_or t "large_funding_min_usd" dec_u64 (Some 10000) in
  let! floor := field_or t "percentile_floor_sol" dec_u64 (Some 10) in
  let! percentile := field_or t "percentile" t_float (Some (f64_lit 99 100)) in
  let! age := field_or t "recipient_max_age_days" dec_u32 (Some 7) in
  let! window := field_or t "preparation_window_days" dec_u32 (Some 7) in
  let! fanout := field_or t "fanout_threshold" dec_u32 (Some 3) in
  let! evidence := field_or t "preparation_evidence_required" dec_u32 (Some 2) in
  let! confidence := field_or t "preparation_alert_confidence" dec_u32 (Some 70) in
  ROk (FundingRadarConfig.mk min_sol min_usd floor percentile age window fanout evidence confidence).

Definition dec_scoring (t : T) : result ScoringConfig :=
  let! trades := field_or t "min_meaningful_trades" dec_u32 (Some 20) in
  let! tokens := field_or t "min_tokens_traded" dec_u32 (Some 5) in
  let! skill := field_or t "full_skill_score" dec_u32 (Some 70) in
  let! copyability := field_or t "full_copyability_score" dec_u32 (Some 60) in
  let! floor := field_or t "history_completeness_floor" t_float (Some (f64_lit 80 100)) in
  let! cap := field_or t "conviction_cap_below_completeness" dec_u32 (Some 49) in
  ROk (ScoringConfig.mk trades tokens skill copyability floor cap).

Definition dec_signals (t : T) : result SignalsConfig :=
  let! age := field_or t "entry_max_token_age_hours" dec_u32 (Some 24) in
  let! liquidity := field_or t "entry_min_liquidity_usd" dec_u64 (Some 20000) in
  let! market := field_or t "market_max_age_seconds" dec_u64 (Some 300) in
  let! drop := field_or t "exit_liquidity_drop_ratio" t_float (Some (f64_lit 30 100)) in
  ROk (SignalsConfig.mk age liquidity market drop).

Definition dec_narrative (t : T) : result Z := field_or t "gmgn_only_confidence_cap" dec_u32 (Some 49).

Definition dec_retention (t : T) : result RetentionConfig :=
  let! low := field_or t "raw_events_days_low" (dec_option dec_i64) (Some None) in
  let! scale := field_or t "raw_events_days_scale" (dec_option dec_i64) (Some None) in
  ROk (MkRetention low scale).

Definition dec_queues (t : T) : result QueuesConfig.QueuesConfig :=
  let! precedence := field_or t "precedence" dec_strings (Some (QueuesConfig.precedence QueuesConfig.default)) in
  let! lag := field_or t "historical_backfill_pause_lag_seconds" dec_u64 (Some 60) in
  ROk (QueuesConfig.mk precedence lag).

Definition dec_server (t : T) : result ServerConfig :=
  let! bind := field_or t "webhook_bind" (dec_option t_str) (Some None) in
  let! token := field_or t "webhook_auth_token" (dec_option t_str) (Some None) in
  ROk (MkServer bind token).

Definition dec_app (t : T) : result AppConfig :=
  let! profile := field_or t "runtime_profile" dec_profile (Some Low) in
  let! workspace := field_or t "workspace_id" dec_i64 (Some 1) in
  let! chains := section_or t "chains" dec_chains (chains app_default) in
  let! helius := section_or t "helius" dec_helius HeliusConfig.default in
  let! gmgn := section_or t "gmgn" dec_gmgn Gmgn.default_config in
  let! telegram := section_or t "telegram" dec_telegram TelegramConfig.default in
  let! radar := section_or t "funding_radar" dec_funding_radar FundingRadarConfig.default in
  let! scoring := section_or t "scoring" dec_scoring ScoringConfig.default in
  let! signals := section_or t "signals" dec_signals SignalsConfig.default in
  let! cap := section_or t "narrative" dec_narrative 49 in
  let! retention := section_or t "retention" dec_retention (MkRetention None None) in
  let! queues := section_or t "queues" dec_queues QueuesConfig.default in
  let! server := section_or t "server" dec_server (MkServer None None) in
  ROk (MkApp profile workspace chains helius gmgn telegram radar scoring signals cap retention queues server).

(** What the path of the configuration file is. *)
Inductive config_file := Missing | Unreadable | Contents (raw : string).

Definition load_config (toml_parse : string → result T) (file : config_file) : result AppConfig :=
  match file with
  | Missing => ROk app_default
  | Unreadable => RErr "failed to read config file"
  | Contents raw => match toml_parse raw with
                    | ROk t => match dec_app t with ROk c => ROk c | RErr _ => RErr "failed to parse config file" end
                    | RErr _ => RErr "failed to parse config file"
                    end
  end.
End decode.

(** ** The environment *)

Record environment := MkEnv { process : gmap string string; dotenv : gmap string string }.

(** [std::env::var] once .env is loaded. *)
Definition getenv (e : environment) (name : string) : option string := (process e ∪ dotenv e) !! name.

Definition non_blank (v : option string) : option string := v ≫= λ v, if blank v then None else Some v.

Record EnvConfig := MkEnvConfig {
  database_url : option string;
  migration_database_url : option string;
  helius_keys : list string;
  gmgn_api_key : option string;
  tg_api_id : option Z;
  tg_api_hash : option string;
  tg_session_path : option string;
  telegram_bot_token : option string;
  telegram_chat_id : option string;
}.

Definition helius_var (index : nat) : string := "HELIUS_KEY_" +:+ pretty (N.of_nat index).

(** The loop from [index]: it ends at the first variable that is not set. *)
Fixpoint keys_from (e : environment) (fuel index : nat) : list string :=
  match fuel with
  | O => []
  | S fuel =>
      match getenv e (helius_var index) with
      | Some key => (if blank key then [] else [trim key]) ++ keys_from e fuel (S index)
      | None => []
      end
  end.

Definition load_keys (e : environment) : list string := keys_from e (S (size (process e ∪ dotenv e))) 1.

(** [str::parse::<i64>]: an optional sign before the digits. *)
Definition parse_i64 (s : string) : option Z :=
  match s with
  | String "-"%char r =>
      from_str_radix 10 (i64_max + 1) r ≫= λ z, if starts_with "+" r then None else Some (- z)
  | _ => from_str_radix 10 i64_max s
  end.

Definition env_load (e : environment) : EnvConfig :=
  let var name := non_blank (getenv e name) in
  MkEnvConfig (var "DATABASE_URL") (var "MIGRATION_DATABASE_URL") (load_keys e) (var "GMGN_API_KEY")
    (getenv e "TG_API_ID" ≫= λ v, parse_i64 (trim v)) (var "TG_API_HASH") (var "TG_SESSION_PATH")
    (var "TELEGRAM_BOT_TOKEN") (var "TELEGRAM_CHAT_ID").

Record Settings := MkSettings { config : AppConfig; env : EnvConfig }.

Definition load {T} `{TomlValue T} (toml_parse : string → result T) (file : config_file) (e : environment)
    : result Settings :=
  let! c := load_config toml_parse file in ROk (MkSettings c (env_load e)).

(** ** The defaults *)

Section defaults.
Context {T : Type} `{TomlValue T}.
Set Default Proof Using "Type".

(** A table with none of the fields. *)
Definition empty_table (t : T) : Prop := t_is_table t = true ∧ ∀ key, t_get t key = None.

Lemma field_absent {A} (t : T) key (dec : T → option A) d : t_get t key = None → field_or t key dec (Some d) = ROk d.
Proof. unfold field_or. by intros ->. Qed.

Lemma section_absent {A} (t : T) key (dec : T → result A) d : t_get t key = None → section_or t key dec d = ROk d.
Proof. unfold section_or. by intros ->. Qed.

Local Ltac absent_fields := intros [_ He]; repeat (rewrite ?section_absent, ?field_absent by apply He; cbn [id]); try done.

(** Every section that is present and empty has the value of the section that
    is absent: the serde defaults and the [Default] instances agree. *)
Theorem empty_sections_are_defaults (t : T) : empty_table t →
  dec_helius t = ROk HeliusConfig.default ∧ dec_gmgn t = ROk Gmgn.default_config
  ∧ dec_telegram t = ROk TelegramConfig.default ∧ dec_funding_radar t = ROk FundingRadarConfig.default
  ∧ dec_scoring t = ROk ScoringConfig.default ∧ dec_signals t = ROk SignalsConfig.default
  ∧ dec_narrative t = ROk (gmgn_only_confidence_cap app_default) ∧ dec_retention t = ROk (retention app_default)
  ∧ dec_queues t = ROk QueuesConfig.default ∧ dec_server t = ROk (server app_default)
  ∧ dec_chains t = ROk (chains app_default) ∧ dec_app t = ROk app_default.
Proof.
  intros He. repeat split; revert He;
    unfold dec_helius, dec_gmgn, dec_telegram, dec_funding_radar, dec_scoring, dec_signals, dec_narrative, dec_retention,
      dec_queues, dec_server, dec_chains, dec_app; absent_fields.
Qed.

(** The flag of a chain has no default, and the other defaults of the Robinhood
    section are not those of the section that is absent: 18 decimals and the
    slug, against none. *)
Theorem robinhood_defaults_differ (t : T) : empty_table t →
  is_ok (dec_robinhood t) = false ∧ is_ok (dec_solana t) = false
  ∧ ∀ t' flag, t_get t' "enabled" = Some flag → t_bool flag = Some false →
      (∀ key, key ≠ "enabled" → t_get t' key = None) →
      dec_robinhood t' = ROk (RobinhoodChain.mk false "" "robinhood" "" 18 "" 0)
      ∧ robinhood (chains app_default) = RobinhoodChain.mk false "" "" "" 0 "" 0.
Proof.
  intros [_ He]. unfold dec_robinhood, dec_solana, field_or. rewrite He. split_and!; [done..|].
  intros t' flag Hf Hb Ho. rewrite Hf, Hb, !Ho by done. done.
Qed.
End defaults.

(** ** Loading *)

(** A file that exists and cannot be read or parsed, or has a section of the
    wrong type, is an error and never the defaults; the defaults are those of a
    file that is missing. *)
Theorem load_fails_closed {T} `{TomlValue T} (toml_parse : string → result T) file e :
  (load toml_parse file e = load toml_parse Missing e ↔
     file = Missing ∨ ∃ raw t, file = Contents raw ∧ toml_parse raw = ROk t ∧ dec_app t = ROk app_default)
  ∧ (is_ok (load toml_parse file e) = false ↔
     file = Unreadable ∨ ∃ raw, file = Contents raw ∧ ∀ t, toml_parse raw = ROk t → is_ok (dec_app t) = false).
Proof.
  unfold load, load_config. destruct file as [| |raw].
  - split; split; try done; [by left|intros [?|(? & ? & _)]; done].
  - split; split; try done; [intros [?|(? & ? & ? & _)]; done|by left].
  - destruct (toml_parse raw) as [t|] eqn:E; [destruct (dec_app t) as [c|] eqn:Ec|]; cbn; split; split.
    + intros [= ->]. right. by exists raw, t.
    + intros [?|(raw' & t' & [= <-] & E' & Ed)]; [done|]. rewrite E in E'. injection E' as <-. congruence.
    + done.
    + intros [?|(raw' & [= <-] & Hn)]; [done|]. by specialize (Hn t E); rewrite Ec in Hn.
    + done.
    + intros [?|(raw' & t' & [= <-] & E' & Ed)]; [done|]. rewrite E in E'. injection E' as <-. congruence.
    + intros _. right. exists raw. split; [done|]. intros t' E'. rewrite E in E'. injection E' as <-. by rewrite Ec.
    + done.
    + done.
    + intros [?|(raw' & t' & [= <-] & E' & Ed)]; [done|]. congruence.
    + intros _. right. exists raw. split; [done|]. intros t' E'. congruence.
    + done.
Qed.

(** ** The keys *)

Lemma helius_var_inj : Inj (=) (=) helius_var.
Proof. intros i j E. unfold helius_var in E. apply (inj (String.append _)), (inj pretty) in E. by apply Nat2N.inj. Qed.

(** The variables [i .. i + k) are set. *)
Definition all_set (e : environment) (i k : nat) : Prop := ∀ j, (i <= j < i + k)%nat → is_Some (getenv e (helius_var j)).

Lemma all_set_bound e i k : all_set e i k → (k <= size (process e ∪ dotenv e))%nat.
Proof.
  intros Ha. assert ((list_to_set (helius_var <$> seq i k) : gset string) ⊆ dom (process e ∪ dotenv e)) as Hsub.
  { intros x Hx. apply elem_of_list_to_set, list_elem_of_fmap in Hx as (j & -> & Hj%elem_of_seq).
    apply elem_of_dom, Ha. lia. }
  apply subseteq_size in Hsub. rewrite size_dom, size_list_to_set, length_fmap, length_seq in Hsub; [done|].
  apply NoDup_fmap; [apply helius_var_inj|apply NoDup_seq].
Qed.

Lemma keys_from_stops e fuel i k : all_set e i k → getenv e (helius_var (i + k)) = None → (k < fuel)%nat →
  keys_from e fuel i = trim <$> List.filter (λ v, negb (blank v)) (omap (λ j, getenv e (helius_var j)) (seq i k)).
Proof.
  revert i k. induction fuel as [|fuel IH]; intros i k Ha Hn Hf; [lia|]. cbn [keys_from].
  destruct k as [|k]; [by rewrite Nat.add_0_r in Hn; rewrite Hn|].
  destruct (Ha i) as [v Hv]; [lia|]. rewrite Hv. cbn [seq omap list_omap]. rewrite Hv. cbn [List.filter].
  rewrite (IH (S i) k); [by destruct (blank v)|intros j Hj; apply Ha; lia|by rewrite <-Hn; f_equal; f_equal; lia|lia].
Qed.

Lemma first_unset e i fuel : (∃ k, (k < fuel)%nat ∧ all_set e i k ∧ getenv e (helius_var (i + k)) = None) ∨ all_set e i fuel.
Proof.
  induction fuel as [|fuel [(k & Hk & Ha & Hn)|IH]]; [by right; intros j Hj; lia|by left; exists k; split; [lia|]|].
  destruct (getenv e (helius_var (i + fuel))) as [v|] eqn:E; [right|by left; exists fuel; split; [lia|]].
  intros j Hj. destruct (decide (j = i + fuel)%nat) as [->|]; [by rewrite E|]. apply IH. lia.
Qed.

(** The keys are the trimmed variables HELIUS_KEY_1, HELIUS_KEY_2 and so on up
    to the first that is not set, without the blank ones; the loop ends. *)
Theorem load_keys_contiguous e :
  ∃ n, (∀ j, (1 <= j <= n)%nat → is_Some (getenv e (helius_var j))) ∧ getenv e (helius_var (S n)) = None
    ∧ load_keys e = trim <$> List.filter (λ v, negb (blank v)) (omap (λ j, getenv e (helius_var j)) (seq 1 n)).
Proof.
  unfold load_keys. set (fuel := S (size (process e ∪ dotenv e))).
  destruct (first_unset e 1 fuel) as [(k & Hk & Ha & Hn)|Ha]; [|apply all_set_bound in Ha; unfold fuel in Ha; lia].
  exists k. split_and!; [intros j Hj; apply Ha; lia|done|by apply keys_from_stops].
Qed.

(** A variable of the process wins over the file .env. *)
Theorem process_wins e name v : process e !! name = Some v → getenv e name = Some v.
Proof. intros Hv. unfold getenv. by apply lookup_union_Some_l. Qed.

(** ** The websocket URL *)

Lemma str_find_at_0 p s : starts_with p s = true → str_find p s = Some 0%nat.
Proof. intros Hs. destruct s; cbn [str_find]; by rewrite Hs. Qed.

Lemma str_contains_find p s : str_contains p s = false → p ≠ "" → str_find p s = None.
Proof.
  intros Hc Hp. induction s as [|c s IH]; cbn in *.
  - rewrite orb_false_r in Hc. by rewrite Hc.
  - apply orb_false_iff in Hc as [-> Hc]. by rewrite IH.
Qed.

(** The websocket URL is the HTTP one with only its scheme changed, where the
    rest of the base names no scheme. *)
Theorem ws_url_same_host (c : HeliusConfig) key rest :
  str_contains "http://" rest = false →
  (HeliusConfig.normalized_base c = "https://" +:+ rest →
     HeliusConfig.http_url c key = "https://" +:+ rest +:+ "/?api-key=" +:+ key
     ∧ ws_url c key = "wss://" +:+ rest +:+ "/?api-key=" +:+ key)
  ∧ (HeliusConfig.normalized_base c = "http://" +:+ rest → str_contains "https://" rest = false →
     HeliusConfig.http_url c key = "http://" +:+ rest +:+ "/?api-key=" +:+ key
     ∧ ws_url c key = "ws://" +:+ rest +:+ "/?api-key=" +:+ key).
Proof.
  intros Hr. unfold HeliusConfig.http_url, ws_url. split.
  - intros ->. split; [by rewrite !str_app_assoc|].
    unfold replace_first at 2. rewrite str_find_at_0 by apply starts_with_app. cbn [str_take String.length plus].
    change (str_drop 8 ("https://" +:+ rest)) with rest.
    assert (str_find "http://" ("wss://" +:+ rest) = None) as Hf.
    { apply str_contains_find; [|done]. cbn. exact Hr. }
    unfold replace_first. rewrite str_app_nil_l, Hf. by rewrite !str_app_assoc.
  - intros -> Hs. split; [by rewrite !str_app_assoc|].
    assert (str_find "https://" ("http://" +:+ rest) = None) as Hf.
    { apply str_contains_find; [|done]. cbn. exact Hs. }
    unfold replace_first at 2. rewrite Hf. unfold replace_first. rewrite str_find_at_0 by apply starts_with_app.
    cbn [str_take String.length plus]. change (str_drop 7 ("http://" +:+ rest)) with rest.
    rewrite str_app_nil_l. by rewrite !str_app_assoc.
Qed.

(** ** Concrete configurations *)

Definition sample_toml : toml :=
  TTable [("runtime_profile", TStr "scale"); ("unknown", TInt 3);
          ("chains", TTable [("robinhood", TTable [("enabled", TBool false); ("chain_id", TStr "1a2b")])]);
          ("scoring", TTable [("full_skill_score", TInt 75)])].

Example sample_loaded :
  load (T := toml) (λ _, ROk sample_toml) (Contents "") (MkEnv {["HELIUS_KEY_1" := " a "; "HELIUS_KEY_2" := " "; "DATABASE_URL" := "p"]}
      {["HELIUS_KEY_3" := "c"; "HELIUS_KEY_5" := "e"; "DATABASE_URL" := "ambient"; "TG_API_ID" := " -7 "]})
  = ROk (MkSettings (MkApp Scale 1 (MkChains false (RobinhoodChain.mk false "1a2b" "robinhood" "" 18 "" 0)) HeliusConfig.default
      Gmgn.default_config TelegramConfig.default FundingRadarConfig.default (ScoringConfig.mk 20 5 75 60 (f64_lit 80 100) 49)
      SignalsConfig.default 49 (MkRetention None None) QueuesConfig.default (MkServer None None))
      (MkEnvConfig (Some "p") None ["a"; "c"] None (Some (-7)) None None None None)).
Proof. vm_compute. reflexivity. Qed.

Example wrong_type_fails :
  is_ok (load (T := toml) (λ _, ROk (TTable [("helius", TTable [("max_retries", TInt (-1))])])) (Contents "") (MkEnv ∅ ∅)) = false.
Proof. vm_compute. reflexivity. Qed.

Example i64_bounds :
  parse_i64 "-9223372036854775808" = Some i64_min ∧ parse_i64 "9223372036854775808" = None ∧ parse_i64 "-+1" = None ∧ parse_i64 "+1" = Some 1
  ∧ parse_i64 "-" = None ∧ parse_i64 "" = None.
Proof. vm_compute. done. Qed.
