(* ===== verification/Admin.v ===== *)
(** * The admin panel (src/src/admin.rs)

    The handlers that change state, and the reads of what they change: the
    Telegram channels, the wallet labels and the block list, the switches of the
    queues, the secret store and the runtime settings.  A request carries its
    cookie and the clocks of the statements that check it; a statement that
    fails is an absent clock or a [false].  AES-GCM, SHA-256, base64 and hex are
    the libraries. *)
From stdpp Require Import base gmap sets list strings pretty.
From stdpp Require Import options.
From S2P Require Import Prelude Text Slices Rows Json Models Labels Queues TelegramIngest Auth Config.
Local Open Scope string_scope.
Local Open Scope Z_scope.
Local Open Scope list_scope.

(** ** Tables and replies *)

(** A row of telegram_channels under its key. *)
Record PanelChannel := MkPanelChannel {
  pc_title : option string;
  pc_username : option string;
  pc_row : ChannelRow;
}.

(** A row of wallet_labels with the columns the panel reads besides. *)
Record LabelEntry := MkLabelEntry { le_id : Z; le_created_at : Z; le_label : WalletLabel }.

Record label_table := MkLabelTable {
  lt_wallets : gmap (string * string) Wallet;
  lt_rows : list LabelEntry;
  lt_next : Z;
}.

Record QueueRow := MkQueueRow { q_paused : bool; q_lag_seconds : Z; q_updated_at : Z; q_updated_by : string }.

Record admin_db (J : Type) := MkAdmin {
  ad_auth : auth_db;
  ad_channels : gmap string PanelChannel;
  ad_labels : label_table;
  ad_queues : gmap string QueueRow;
  (** name, nonce and ciphertext *)
  ad_secrets : gmap string (string * string);
  ad_settings : gmap string J;
}.
Arguments MkAdmin {_}. Arguments ad_auth {_}. Arguments ad_channels {_}. Arguments ad_labels {_}.
Arguments ad_queues {_}. Arguments ad_secrets {_}. Arguments ad_settings {_}.

(** A JSON body, or the bare status. *)
Inductive reply (A : Type) := Reply (body : A) | Status (code : Z).
Arguments Reply {_}. Arguments Status {_}.

Definition guard_code (g : guard) : Z :=
  match g with Allowed => 200 | Unauthorized => 401 | Forbidden => 403 | GuardError => 500 end.

Record request := MkRequest { rq_cookie : option string; rq_auth : option Z; rq_workspace : option Z }.

(** COALESCE. *)
Definition coalesce {A} (a b : option A) : option A := match a with Some _ => a | None => b end.

Section panel.
Context {J : Type} `{JsonValue J} (j_int : Z → J).
Context (sha256_hex : string → string) (admin_hash : option string).
Context (accepts : WalletLabel → bool) (text_le : string → string → bool).
Local Abbreviation db_t := (admin_db J).
Implicit Types (db : db_t) (r : request).

Definition set_auth db (a : auth_db) : db_t :=
  MkAdmin a (ad_channels db) (ad_labels db) (ad_queues db) (ad_secrets db) (ad_settings db).
Definition set_channels db (c : gmap string PanelChannel) : db_t :=
  MkAdmin (ad_auth db) c (ad_labels db) (ad_queues db) (ad_secrets db) (ad_settings db).
Definition set_labels db (t : label_table) : db_t :=
  MkAdmin (ad_auth db) (ad_channels db) t (ad_queues db) (ad_secrets db) (ad_settings db).
Definition set_queues db (q : gmap string QueueRow) : db_t :=
  MkAdmin (ad_auth db) (ad_channels db) (ad_labels db) q (ad_secrets db) (ad_settings db).
Definition set_secrets db (s : gmap string (string * string)) : db_t :=
  MkAdmin (ad_auth db) (ad_channels db) (ad_labels db) (ad_queues db) s (ad_settings db).
Definition set_settings db (s : gmap string J) : db_t :=
  MkAdmin (ad_auth db) (ad_channels db) (ad_labels db) (ad_queues db) (ad_secrets db) s.

Definition pass {A} db (g : auth_db * guard) (k : db_t → db_t * A) (refuse : Z → A) : db_t * A :=
  match g with
  | (a, Allowed) => k (set_auth db a)
  | (a, g) => (set_auth db a, refuse (guard_code g))
  end.

Definition reading {A} db r (k : db_t → db_t * reply A) : db_t * reply A :=
  pass db (require_auth sha256_hex admin_hash (ad_auth db) (rq_auth r) (rq_cookie r)) k Status.

Definition writing {A} db r (k : db_t → db_t * reply A) : db_t * reply A :=
  pass db (require_write_auth sha256_hex admin_hash (ad_auth db) (rq_auth r) (rq_cookie r)) k Status.

Definition in_workspace {A} db r (k : Z → db_t * reply A) : db_t * reply A :=
  match require_workspace sha256_hex (ad_auth db) (rq_workspace r) (rq_cookie r) with
  | inl id => k id
  | inr g => (db, Status (guard_code g))
  end.

(** ** Telegram channels *)

Record ChannelView := MkChannelView {
  cv_channel_key : string;
  cv_title : option string;
  cv_username : option string;
  cv_allowlisted : bool;
  cv_status : string;
  cv_last_observed_at : option Z;
}.

Definition channel_view (e : string * PanelChannel) : ChannelView :=
  MkChannelView e.1 (pc_title e.2) (pc_username e.2) (allowlisted (pc_row e.2)) (status (pc_row e.2))
    (last_observed_at (pc_row e.2)).

Definition channel_views (chs : gmap string PanelChannel) : list ChannelView :=
  channel_view <$> stable_sort (λ a b, text_le a.1 b.1) (map_to_list chs).

Definition list_channels db r (reached : bool) : db_t * reply (list ChannelView) :=
  reading db r (λ db, (db, if reached then Reply (channel_views (ad_channels db)) else Status 500)).

(** INSERT .. ON CONFLICT DO UPDATE: allowlisted and active. *)
Definition allow_channel (chs : gmap string PanelChannel) (key : string) (title username : option string)
    : gmap string PanelChannel :=
  <[key := match chs !! key with
           | None => MkPanelChannel title username (MkChannel true "active" None None)
           | Some c => MkPanelChannel (coalesce title (pc_title c)) (coalesce username (pc_username c))
                         (MkChannel true "active" (last_cursor (pc_row c)) (last_observed_at (pc_row c)))
           end]> chs.

Definition add_channel db r (key : string) (title username : option string) (reached : bool) : db_t * reply () :=
  writing db r (λ db,
    if reached then (set_channels db (allow_channel (ad_channels db) key title username), Reply ()) else (db, Status 500)).

(** One statement per entry, each on its own; [reached] by its position. *)
Fixpoint bulk_from (chs : gmap string PanelChannel) (entries : list (string * option string)) (reached : nat → bool)
    (i : nat) (imported : Z) : gmap string PanelChannel * reply Z :=
  match entries with
  | [] => (chs, Reply imported)
  | (key, title) :: entries =>
      if blank key then bulk_from chs entries reached (S i) imported else
      if reached i then bulk_from (allow_channel chs key title None) entries reached (S i) (imported + 1)
      else (chs, Status 500)
  end.

Definition bulk_add_channels db r (entries : list (string * option string)) (reached : nat → bool) : db_t * reply Z :=
  writing db r (λ db, let '(chs, x) := bulk_from (ad_channels db) entries reached 0 0 in (set_channels db chs, x)).

Definition with_row (c : PanelChannel) (row : ChannelRow) : PanelChannel :=
  MkPanelChannel (pc_title c) (pc_username c) row.

Definition update_channel db r (key : string) (allow : option bool) (st : option string) (reached : bool)
    : db_t * reply () :=
  writing db r (λ db,
    if reached then
      (set_channels db (alter (λ c, with_row c (MkChannel (default (allowlisted (pc_row c)) allow)
         (default (status (pc_row c)) st) (last_cursor (pc_row c)) (last_observed_at (pc_row c)))) key (ad_channels db)), Reply ())
    else (db, Status 500)).

Definition disable_channel (chs : gmap string PanelChannel) (key : string) : gmap string PanelChannel :=
  alter (λ c, with_row c (MkChannel false "disabled" (last_cursor (pc_row c)) (last_observed_at (pc_row c)))) key chs.

Definition remove_channel db r (key : string) (reached : bool) : db_t * reply () :=
  writing db r (λ db,
    if reached then (set_channels db (disable_channel (ad_channels db) key), Reply ()) else (db, Status 500)).

(** ** Labels and the block list *)

Record LabelRow := MkLabelRow {
  lr_id : Z;
  lr_kind : string;
  lr_disposition : string;
  lr_manual : bool;
  lr_confidence : Z;
  lr_active : bool;
}.

Definition label_live (now : Z) (l : WalletLabel) : bool :=
  bool_decide (WalletLabel.revoked_at l = None)
  && match WalletLabel.expires_at l with None => true | Some t => now <? t end.

Definition label_view (now : Z) (e : LabelEntry) : LabelRow :=
  let l := le_label e in
  MkLabelRow (le_id e) (WalletLabel.kind l) (WalletLabel.disposition l) (WalletLabel.manual l) (WalletLabel.confidence l)
    (label_live now l).

Definition label_of (ws : Z) (chain address : string) (e : LabelEntry) : bool :=
  (WalletLabel.workspace_id (le_label e) =? ws) && bool_decide (WalletLabel.chain (le_label e) = chain)
  && bool_decide (WalletLabel.address (le_label e) = address).

(** ORDER BY created_at DESC. *)
Definition newest_first (l : list LabelEntry) : list LabelEntry :=
  stable_sort (λ a b, le_created_at b <=? le_created_at a) l.

Definition labels_of (t : label_table) (ws : Z) (chain address : string) : list LabelEntry :=
  newest_first (List.filter (label_of ws chain address) (lt_rows t)).

Definition list_labels db r (chain address : string) (now : option Z) : db_t * reply (list LabelRow) :=
  reading db r (λ db, in_workspace db r (λ ws,
    match ChainKind.parse chain with
    | None => (db, Status 400)
    | Some chain =>
        (db, match now with
             | Some now => Reply (label_view now <$> labels_of (ad_labels db) ws (ChainKind.as_str chain) address)
             | None => Status 500
             end)
    end)).

(** The table as the policy reads it. *)
Definition policy_view (t : label_table) : label_db := MkLabels (lt_wallets t) (le_label <$> lt_rows t).

Definition append_label (t : label_table) (now : Z) (l : WalletLabel) : result label_table :=
  let! _ := insert_label accepts (policy_view t) l in
  ROk (MkLabelTable (lt_wallets t) (lt_rows t ++ [MkLabelEntry (lt_next t) now l]) (lt_next t + 1)).

(** A handler that writes the labels of the workspace of its session. *)
Definition labelling {A} db r (k : label_table → Z → label_table * reply A) : db_t * reply A :=
  writing db r (λ db, in_workspace db r (λ ws, let '(t, x) := k (ad_labels db) ws in (set_labels db t, x))).

(** The wallet and then the label, two statements. *)
Definition add_in (chain address kind disposition : string) (reason : option string) (clock : Z) (upserted : bool)
    (inserted : option Z) (t : label_table) (ws : Z) : label_table * reply () :=
  match ChainKind.parse chain, Disposition.parse disposition with
  | Some chain, Some d =>
      if negb upserted then (t, Status 500) else
      let w := upsert_wallet (policy_view t) (ChainKind.as_str chain) address clock "admin" in
      let t := MkLabelTable (wallets w) (lt_rows t) (lt_next t) in
      match inserted with
      | None => (t, Status 500)
      | Some now =>
          match append_label t now (WalletLabel.mk ws (ChainKind.as_str chain) address kind (Disposition.as_str d)
                  (default "admin label" reason) "manual" 100 true None None) with
          | ROk t => (t, Reply ())
          | RErr _ => (t, Status 500)
          end
      end
  | _, _ => (t, Status 400)
  end.

Definition add_label db r (chain address kind disposition : string) (reason : option string)
    (clock : Z) (upserted : bool) (inserted : option Z) : db_t * reply () :=
  labelling db r (add_in chain address kind disposition reason clock upserted inserted).

Definition addressed (id ws : Z) (chain address : string) (e : LabelEntry) : bool :=
  (le_id e =? id) && label_of ws chain address e.

Definition unrevoked (e : LabelEntry) : bool := bool_decide (WalletLabel.revoked_at (le_label e) = None).

Record Revocation := MkRevocation { revoked : Z; already_revoked : bool }.

Definition revoke_entry (now : Z) (e : LabelEntry) : LabelEntry :=
  MkLabelEntry (le_id e) (le_created_at e) (revoke_row now (le_label e)).

(** [now] is the clock of the update, [asked] whether the second query answers. *)
Definition revoke_in (chain address : string) (id : Z) (now : option Z) (asked : bool) (t : label_table) (ws : Z)
    : label_table * reply Revocation :=
  match ChainKind.parse chain with
  | None => (t, Status 400)
  | Some chain =>
      match now with
      | None => (t, Status 500)
      | Some now =>
          let row := addressed id ws (ChainKind.as_str chain) address in
          let hit e := row e && unrevoked e in
          let n := length (List.filter hit (lt_rows t)) in
          if (n =? 0)%nat then
            (t, if negb asked then Status 500 else
                if existsb (λ e, row e && negb (unrevoked e)) (lt_rows t) then Reply (MkRevocation 0 true) else Status 404)
          else
            (MkLabelTable (lt_wallets t) ((λ e, if hit e then revoke_entry now e else e) <$> lt_rows t) (lt_next t),
             Reply (MkRevocation (Z.of_nat n) false))
      end
  end.

Definition revoke_label db r (chain address : string) (id : Z) (now : option Z) (asked : bool) : db_t * reply Revocation :=
  labelling db r (revoke_in chain address id now asked).

(** The labels one import appended, with their columns of this table. *)
Fixpoint number_from (next now : Z) (ls : list WalletLabel) : list LabelEntry :=
  match ls with [] => [] | l :: ls => MkLabelEntry next now l :: number_from (next + 1) now ls end.

(** [now] is the instant of the transaction. *)
Definition import_in (chain : string) (addresses : list (Z * string)) (now : Z) (t : label_table) (ws : Z)
    : label_table * reply Z :=
  match ChainKind.parse chain with
  | None => (t, Status 400)
  | Some chain =>
      match import_blocklist_tx accepts (policy_view t) ws (ChainKind.as_str chain) addresses "admin blocklist import" with
      | (p, ROk imported) =>
          let fresh := drop (length (lt_rows t)) (labels p) in
          (MkLabelTable (wallets p) (lt_rows t ++ number_from (lt_next t) now fresh) (lt_next t + Z.of_nat (length fresh)),
           Reply imported)
      | (_, RErr _) => (t, Status 500)
      end
  end.

Definition import_blocklist db r (chain : string) (addresses : list (Z * string)) (now : Z) : db_t * reply Z :=
  labelling db r (import_in chain addresses now).

(** ** Queues *)

Definition list_queue_state db r (reached : bool) : db_t * reply (list (string * QueueRow)) :=
  reading db r (λ db,
    (db, if reached then Reply (stable_sort (λ a b, text_le a.1 b.1) (map_to_list (ad_queues db))) else Status 500)).

Definition set_queue_pause db r (name : string) (paused : bool) (now : option Z) : db_t * reply (string * bool) :=
  writing db r (λ db,
    if negb (contains name ALL_QUEUES) then (db, Status 404) else
    match now with
    | None => (db, Status 500)
    | Some now =>
        let lag := match ad_queues db !! name with Some q => q_lag_seconds q | None => 0 end in
        (set_queues db (<[name := MkQueueRow paused lag now "admin"]> (ad_queues db)), Reply (name, paused))
    end).

(** What the workers read of the table. *)
Definition durable_pauses db : gmap string bool := q_paused <$> ad_queues db.

(** ** Secrets *)

Definition ellipsis : string := String (byte_of 226) (String (byte_of 128) (String (byte_of 166) "")).

(** The slices panic inside a character. *)
Definition mask (secret : string) : outcome (option string) :=
  let s := trim secret in
  if (String.length s <? 4)%nat then Done None else
  run! front := slice_to 2 s in
  run! back := slice_from (String.length s - 2) s in
  Done (Some (front +:+ ellipsis +:+ back)).

Definition SECRET_KEYS : list string :=
  ["DATABASE_URL"; "TG_API_ID"; "TG_API_HASH"; "TG_SESSION_PATH"; "TELEGRAM_BOT_TOKEN"; "TELEGRAM_CHAT_ID"].

Section crypto.
Context (sha256 : string → string) (aes_encrypt aes_decrypt : string → string → string → option string)
  (hex_encode : string → string) (hex_decode : string → option string)
  (base64_encode : string → string) (base64_decode : string → option string) (utf8 : string → bool).

(** The key of SECRET_STORE_KEY. *)
Definition secret_store_key (raw : option string) : option string :=
  raw ≫= λ raw, if blank raw then None else Some (sha256 (trim raw)).

Definition encrypt_secret (key nonce plaintext : string) : option (string * string) :=
  (λ ct, (hex_encode nonce, base64_encode ct)) <$> aes_encrypt key nonce plaintext.

(** [Nonce::from_slice] panics on another length than twelve. *)
Definition decrypt_secret (key nonce_hex b64 : string) : outcome (option string) :=
  match hex_decode nonce_hex with
  | None => Done None
  | Some nonce =>
      match base64_decode b64 with
      | None => Done None
      | Some ct =>
          if negb (String.length nonce =? 12)%nat then Panicked else
          Done (aes_decrypt key nonce ct ≫= λ pt, if utf8 pt then Some pt else None)
      end
  end.

(** The override of a secret: a row that is there, read and decrypted. *)
Definition db_secret db (reached : bool) (store_key : option string) (name : string) : outcome (option string) :=
  match store_key with
  | None => Done None
  | Some key =>
      match (if reached then ad_secrets db !! name else None) with
      | None => Done None
      | Some (nonce, ct) => decrypt_secret key nonce ct
      end
  end.

Definition resolve_secret db (reached : bool) (store_key env_value : option string) (name : string) : outcome (option string) :=
  run! v := db_secret db reached store_key name in
  Done (match v with Some v => Some v | None => env_value end).

(** The key of the store, the nonce drawn. *)
Definition settings_secret_set db r (store_key : option string) (nonce name value : string) (reached : bool)
    : db_t * reply () :=
  writing db r (λ db,
    if negb (contains name SECRET_KEYS) || blank value then (db, Status 400) else
    match store_key with
    | None => (db, Status 503)
    | Some key =>
        match encrypt_secret key nonce (trim value) with
        | None => (db, Status 500)
        | Some row => if reached then (set_secrets db (<[name := row]> (ad_secrets db)), Reply ()) else (db, Status 500)
        end
    end).

Definition settings_secret_delete db r (name : string) (reached : bool) : db_t * reply () :=
  writing db r (λ db,
    if negb (contains name SECRET_KEYS) then (db, Status 400) else
    if reached then (set_secrets db (delete name (ad_secrets db)), Reply ()) else (db, Status 500)).

Record EnvRow := MkEnvRow {
  er_name : string;
  er_set : bool;
  er_secret : bool;
  er_preview : option string;
  er_source : option string;
  er_editable : bool;
}.

Definition env_row (name : string) (value : option string) (secret : bool) (source : option string) : outcome EnvRow :=
  match value with
  | Some v =>
      if blank v then Done (MkEnvRow name false secret None None false) else
      run! preview := (if secret then mask v else Done (Some v)) in
      Done (MkEnvRow name true secret preview source false)
  | None => Done (MkEnvRow name false secret None None false)
  end.

Definition from_env {A} (value : option A) : option string := match value with Some _ => Some "env" | None => None end.

Definition secret_env_row db (reads : string → bool) (store_key : option string) (name : string) (env_value : option string)
    : outcome EnvRow :=
  run! v := db_secret db (reads name) store_key name in
  run! row := match v with
              | Some v => env_row name (Some v) true (Some "db")
              | None => env_row name env_value true (from_env env_value)
              end in
  Done (MkEnvRow (er_name row) (er_set row) (er_secret row) (er_preview row) (er_source row) true).

(** The rows of the page, in order; [var] is the environment of the process. *)
Definition env_rows db (reads : string → bool) (store_key : option string) (env : EnvConfig) (var : string → option string)
    : list (outcome EnvRow) :=
  let secret := secret_env_row db reads store_key in
  let rh := non_blank (var "ROBINHOOD_RPC_URL") in
  [secret "DATABASE_URL" (database_url env)]
  ++ imap (λ i key, env_row (helius_var (S i)) (Some key) true (Some "env")) (helius_keys env)
  ++ [env_row "GMGN_API_KEY" (gmgn_api_key env) true (from_env (gmgn_api_key env));
      secret "TG_API_ID" (pretty <$> tg_api_id env);
      secret "TG_API_HASH" (tg_api_hash env);
      secret "TG_SESSION_PATH" (tg_session_path env);
      secret "TELEGRAM_BOT_TOKEN" (telegram_bot_token env);
      secret "TELEGRAM_CHAT_ID" (telegram_chat_id env);
      env_row "ADMIN_PASSWORD_HASH_B64" (var "ADMIN_PASSWORD_HASH_B64") true (from_env (var "ADMIN_PASSWORD_HASH_B64"));
      env_row "ROBINHOOD_RPC_URL" rh true (from_env rh)].

Fixpoint all_rows (l : list (outcome EnvRow)) : outcome (list EnvRow) :=
  match l with
  | [] => Done []
  | x :: l => run! x := x in run! l := all_rows l in Done (x :: l)
  end.

Definition settings_env db r (reads : string → bool) (store_key : option string) (env : EnvConfig)
    (var : string → option string) : db_t * outcome (reply (list EnvRow)) :=
  pass db (require_auth sha256_hex admin_hash (ad_auth db) (rq_auth r) (rq_cookie r))
    (λ db, (db, run! rows := all_rows (env_rows db reads store_key env var) in Done (Reply rows)))
    (λ code, Done (Status code)).
End crypto.

(** ** Runtime settings *)

Definition EDITABLE_KEYS : list string :=
  ["large_funding_min_sol"; "large_funding_min_usd"; "recipient_max_age_days"; "preparation_alert_confidence";
   "entry_min_liquidity_usd"; "full_skill_score"; "full_copyability_score"; "telegram_concurrency"; "runtime_profile"].

Definition runtime_defaults (c : AppConfig) : gmap string J :=
  let fr := funding_radar c in
  list_to_map
    [("large_funding_min_sol", j_int (FundingRadar.FundingRadarConfig.large_funding_min_sol fr));
     ("large_funding_min_usd", j_int (FundingRadar.FundingRadarConfig.large_funding_min_usd fr));
     ("recipient_max_age_days", j_int (FundingRadar.FundingRadarConfig.recipient_max_age_days fr));
     ("preparation_alert_confidence", j_int (FundingRadar.FundingRadarConfig.preparation_alert_confidence fr));
     ("entry_min_liquidity_usd", j_int (Signals.SignalsConfig.entry_min_liquidity_usd (signals c)));
     ("full_skill_score", j_int (Scoring.ScoringConfig.full_skill_score (scoring c)));
     ("full_copyability_score", j_int (Scoring.ScoringConfig.full_copyability_score (scoring c)));
     ("telegram_concurrency", j_int (TelegramConfig.concurrency (telegram c)));
     ("runtime_profile", j_str (match runtime_profile c with Low => "low" | Scale => "scale" end))].

Definition editable (key : string) : bool := contains key EDITABLE_KEYS.

(** The overrides of the table over the defaults. *)
Definition effective_settings db (c : AppConfig) : gmap string J :=
  filter (λ e, editable e.1 = true) (ad_settings db) ∪ runtime_defaults c.

Definition settings_runtime_get db r (c : AppConfig) (reached : bool) : db_t * reply (gmap string J) :=
  reading db r (λ db, (db, if reached then Reply (effective_settings db c) else Status 500)).

Definition valid_runtime_value (key : string) (value : J) : bool :=
  if bool_decide (key = "runtime_profile") then
    match as_str value with Some s => contains s ["low"; "scale"] | None => false end
  else bool_decide (is_Some (as_u64 value)).

Record RuntimeSaveForm := MkSaveForm {
  sf_key : option string;
  sf_value : option J;
  (** in the order the map is iterated *)
  sf_settings : option (list (string * J));
}.

Definition save_pairs (f : RuntimeSaveForm) : list (string * J) :=
  match sf_key f, sf_value f with Some k, Some v => [(k, v)] | _, _ => [] end ++ default [] (sf_settings f).

(** One statement per pair, each on its own. *)
Fixpoint save_from (s : gmap string J) (pairs : list (string * J)) (reached : nat → bool) (i : nat) : gmap string J * reply Z :=
  match pairs with
  | [] => (s, Reply (Z.of_nat i))
  | (k, v) :: pairs => if reached i then save_from (<[k := v]> s) pairs reached (S i) else (s, Status 500)
  end.

Definition settings_runtime_save db r (f : RuntimeSaveForm) (reached : nat → bool) : db_t * reply Z :=
  writing db r (λ db,
    let pairs := save_pairs f in
    if bool_decide (pairs = []) then (db, Status 400) else
    if negb (forallb (λ e, editable e.1 && valid_runtime_value e.1 e.2) pairs) then (db, Status 400) else
    let '(s, x) := save_from (ad_settings db) pairs reached 0 in (set_settings db s, x)).
End panel.
Arguments MkSaveForm {_}. Arguments sf_key {_}. Arguments sf_value {_}. Arguments sf_settings {_}.

(** ** Authorisation *)

Section laws.
Context {J : Type} `{JsonValue J} (j_int : Z → J).
Context (sha256_hex : string → string) (admin_hash : option string).
Context (accepts : WalletLabel → bool) (text_le : string → string → bool).
Context (aes_encrypt : string → string → string → option string) (hex_encode base64_encode : string → string).
Set Default Proof Using "Type".
Local Abbreviation db_t := (admin_db J).
Local Abbreviation writing := (writing sha256_hex admin_hash).
Local Abbreviation labelling := (labelling sha256_hex admin_hash).

(** Everything but the sessions. *)
Definition tables (db : db_t) :=
  (ad_channels db, ad_labels db, ad_queues db, ad_secrets db, ad_settings db).

(** The session of a request is live at the clock of its check. *)
Definition signed_in (db : db_t) (r : request) : Prop :=
  is_Some admin_hash ∧ ∃ token now se, session_token (rq_cookie r) = Some token ∧ token ≠ "" ∧ rq_auth r = Some now
    ∧ live sha256_hex (ad_auth db) now token = Some se.

Definition guard_of (db : db_t) (r : request) : auth_db * guard :=
  require_write_auth sha256_hex admin_hash (ad_auth db) (rq_auth r) (rq_cookie r).

Lemma guard_signed_in (db : db_t) r : (guard_of db r).2 = Allowed ↔ signed_in db r.
Proof.
  unfold guard_of, signed_in, require_write_auth, require_auth, validate_session.
  destruct admin_hash as [h|]; [|split; [done|by intros [[? ?] _]]].
  destruct (session_token (rq_cookie r)) as [token|]; [|split; [done|by intros (_ & ? & ? & ? & ? & _)]].
  case_bool_decide as Ht; [split; [done|by intros (_ & ? & ? & ? & [= <-] & ? & _)]|].
  destruct (rq_auth r) as [now|]; [|split; [done|by intros (_ & ? & ? & ? & _ & _ & ? & _)]].
  destruct (live _ _ now token) as [se|] eqn:El; split; try done.
  - intros _. split; [done|]. by exists token, now, se.
  - intros (_ & ? & ? & ? & [= <-] & _ & [= <-] & E). congruence.
Qed.

Lemma writing_cases {A} (db : db_t) r (k : db_t → db_t * reply A) :
  (signed_in db r ∧ writing db r k = k (set_auth db (guard_of db r).1))
  ∨ (¬ signed_in db r ∧ ∃ code, writing db r k = (set_auth db (guard_of db r).1, Status code) ∧ code ∈ [401; 403; 500]).
Proof.
  rewrite <-guard_signed_in. unfold Admin.writing, pass. fold (guard_of db r).
  destruct (guard_of db r) as [a []] eqn:E; cbn; [by left|right; split; [done|]; eexists; split; [done|]; set_solver..].
Qed.

(** A session's workspace at the clock of the request. *)
Definition workspace_of (db : db_t) (r : request) : option Z :=
  match require_workspace sha256_hex (ad_auth db) (rq_workspace r) (rq_cookie r) with inl ws => Some ws | inr _ => None end.

Lemma labelling_cases {A} (db : db_t) r (k : label_table → Z → label_table * reply A) :
  let db1 := set_auth db (guard_of db r).1 in
  (∃ ws, signed_in db r ∧ workspace_of db1 r = Some ws
     ∧ labelling db r k = (set_labels db1 (k (ad_labels db) ws).1, (k (ad_labels db) ws).2))
  ∨ ∃ code, labelling db r k = (db1, Status code).
Proof.
  unfold Admin.labelling. destruct (writing_cases db r (λ db, in_workspace sha256_hex db r (λ ws, let '(t, x) := k (ad_labels db) ws in (set_labels db t, x))))
    as [[Hs ->]|[_ (code & -> & _)]]; [|right; by exists code].
  unfold in_workspace, workspace_of. destruct (require_workspace _ _ _ _) as [ws|g]; [|right; by eexists].
  left. exists ws. split_and!; try done. cbn [ad_labels set_auth]. by destruct (k _ ws).
Qed.

(** ** The mutations *)

Inductive admin_op :=
  | AddChannel (key : string) (title username : option string) (reached : bool)
  | BulkChannels (entries : list (string * option string)) (reached : nat → bool)
  | UpdateChannel (key : string) (allow : option bool) (st : option string) (reached : bool)
  | RemoveChannel (key : string) (reached : bool)
  | AddLabel (chain address kind disposition : string) (reason : option string) (clock : Z) (upserted : bool) (inserted : option Z)
  | RevokeLabel (chain address : string) (id : Z) (now : option Z) (asked : bool)
  | ImportBlocklist (chain : string) (addresses : list (Z * string)) (now : Z)
  | PauseQueue (name : string) (paused : bool) (now : option Z)
  | SaveSettings (f : RuntimeSaveForm (J := J)) (reached : nat → bool)
  | SetSecret (store_key : option string) (nonce name value : string) (reached : bool)
  | DeleteSecret (name : string) (reached : bool).

Definition run_op (db : db_t) (r : request) (o : admin_op) : db_t :=
  match o with
  | AddChannel key title username reached => (add_channel sha256_hex admin_hash db r key title username reached).1
  | BulkChannels entries reached => (bulk_add_channels sha256_hex admin_hash db r entries reached).1
  | UpdateChannel key allow st reached => (update_channel sha256_hex admin_hash db r key allow st reached).1
  | RemoveChannel key reached => (remove_channel sha256_hex admin_hash db r key reached).1
  | AddLabel chain address kind d why clock upserted inserted =>
      (add_label sha256_hex admin_hash accepts db r chain address kind d why clock upserted inserted).1
  | RevokeLabel chain address id now asked => (revoke_label sha256_hex admin_hash db r chain address id now asked).1
  | ImportBlocklist chain addresses now => (import_blocklist sha256_hex admin_hash accepts db r chain addresses now).1
  | PauseQueue name paused now => (set_queue_pause sha256_hex admin_hash db r name paused now).1
  | SaveSettings f reached => (settings_runtime_save sha256_hex admin_hash db r f reached).1
  | SetSecret key nonce name value reached =>
      (settings_secret_set sha256_hex admin_hash aes_encrypt hex_encode base64_encode db r key nonce name value reached).1
  | DeleteSecret name reached => (settings_secret_delete sha256_hex admin_hash db r name reached).1
  end.

Lemma labelling_tables {A} (db : db_t) r (k : label_table → Z → label_table * reply A) :
  ¬ signed_in db r → tables (labelling db r k).1 = tables db.
Proof.
  intros Hn. unfold Admin.labelling.
  by destruct (writing_cases db r (λ db, in_workspace sha256_hex db r (λ ws, let '(t, x) := k (ad_labels db) ws in (set_labels db t, x))))
    as [[Hs _]|[_ (code & -> & _)]].
Qed.

(** Without a live session, or with no password configured, no request changes
    a table. *)
Theorem mutations_need_a_session (db : db_t) r o : tables (run_op db r o) ≠ tables db → signed_in db r.
Proof.
  intros Ht. assert ((guard_of db r).2 = Allowed ∨ ¬ signed_in db r) as [Hg|Hg];
    [rewrite <-guard_signed_in; destruct (guard_of db r).2; auto|by apply guard_signed_in|]. exfalso. apply Ht. destruct o; cbn [run_op]; try (by apply labelling_tables);
    unfold add_channel, bulk_add_channels, update_channel, remove_channel, set_queue_pause, settings_runtime_save, settings_secret_set, settings_secret_delete;
    match goal with |- context [Admin.writing _ _ ?db ?r ?k] => destruct (writing_cases db r k) as [[Hs _]|[_ (code & -> & _)]]; done end.
Qed.
(** ** The labels of a tenant *)

Definition own_rows (ws : Z) (t : label_table) : list LabelEntry :=
  List.filter (λ e, WalletLabel.workspace_id (le_label e) =? ws) (lt_rows t).

Lemma filter_within {A} (P Q : A → bool) l :
  (∀ x, P x = true → Q x = true) → List.filter P (List.filter Q l) = List.filter P l.
Proof.
  intros HPQ. induction l as [|x l IH]; [done|]. cbn [List.filter]. destruct (Q x) eqn:EQ; cbn [List.filter]; [by rewrite IH|].
  destruct (P x) eqn:EP; [|done]. by rewrite HPQ in EQ.
Qed.

Lemma own_rows_app ws w rows new next :
  (∀ e, e ∈ new → WalletLabel.workspace_id (le_label e) ≠ ws) →
  own_rows ws (MkLabelTable w (rows ++ new) next) = List.filter (λ e, WalletLabel.workspace_id (le_label e) =? ws) rows.
Proof.
  intros Hn. unfold own_rows. cbn [lt_rows]. rewrite List.filter_app, (filter_none _ new), app_nil_r; [done|].
  intros e He. apply Z.eqb_neq. by apply Hn.
Qed.

Lemma append_label_ok t now l t' : append_label accepts t now l = ROk t' →
  t' = MkLabelTable (lt_wallets t) (lt_rows t ++ [MkLabelEntry (lt_next t) now l]) (lt_next t + 1).
Proof. unfold append_label. destruct (insert_label _ _ _); [|done]. by intros [= <-]. Qed.

Lemma add_in_rows chain address kind d why clock up ins t w :
  let t' := (add_in accepts chain address kind d why clock up ins t w).1 in
  lt_rows t' = lt_rows t ∧ lt_next t' = lt_next t
  ∨ ∃ now l, WalletLabel.workspace_id l = w ∧ lt_rows t' = lt_rows t ++ [MkLabelEntry (lt_next t) now l] ∧ lt_next t' = lt_next t + 1.
Proof.
  cbv zeta. unfold add_in. destruct (ChainKind.parse chain); [|by left]. destruct (Disposition.parse d); [|by left].
  destruct up; [|by left]. cbn [negb]. destruct ins as [now|]; [|by left].
  match goal with |- context [append_label _ ?t ?n ?l] => destruct (append_label accepts t n l) as [t'|] eqn:E end; [|by left].
  apply append_label_ok in E as ->. right. eexists _, _. split; [|done]. done.
Qed.

Lemma number_from_label next now ls : le_label <$> number_from next now ls = ls.
Proof. revert next. induction ls as [|l ls IH]; intros next; cbn; [done|]. by rewrite IH. Qed.

Lemma import_in_rows chain addresses now t w :
  let t' := (import_in accepts chain addresses now t w).1 in
  t' = t ∨ ∃ ls, Forall (λ l, WalletLabel.workspace_id l = w) ls
     ∧ lt_rows t' = lt_rows t ++ number_from (lt_next t) now ls ∧ lt_next t' = lt_next t + Z.of_nat (length ls).
Proof.
  cbv zeta. unfold import_in. destruct (ChainKind.parse chain) as [c|]; [|by left].
  unfold import_blocklist_tx. destruct (fold_result _ _ _) as [[p n]|] eqn:E; [|by left].
  apply import_ok in E as [E _]. right. cbn [fst lt_rows lt_next].
  assert (drop (length (lt_rows t)) (labels p) = block_row w (ChainKind.as_str c) "admin blocklist import" <$> omap blocked_address addresses) as Hd.
  { rewrite E. cbn [policy_view labels]. by rewrite drop_app_length' by (by rewrite length_fmap). }
  rewrite Hd. eexists. split; [|by split]. apply Forall_fmap, Forall_true. done.
Qed.

Lemma foreign_labelling w ws t :
  w ≠ ws →
  (∀ chain address kind d why clock up ins, own_rows ws (add_in accepts chain address kind d why clock up ins t w).1 = own_rows ws t)
  ∧ (∀ chain address id now asked, own_rows ws (revoke_in chain address id now asked t w).1 = own_rows ws t)
  ∧ (∀ chain addresses now, own_rows ws (import_in accepts chain addresses now t w).1 = own_rows ws t).
Proof.
  intros Hne. split_and!.
  - intros chain address kind d why clock up ins.
    destruct (add_in_rows chain address kind d why clock up ins t w) as [[E _]|(now & l & El & E & _)];
      unfold own_rows; rewrite E; [done|].
    apply (own_rows_app ws ∅ (lt_rows t) _ 0). intros e ->%list_elem_of_singleton. cbn. congruence.
  - intros chain address id now asked. unfold revoke_in. destruct (ChainKind.parse chain) as [c|]; [|done].
    destruct now as [now|]; [|done]. destruct (_ =? 0)%nat; [done|]. unfold own_rows. cbn [lt_rows fst].
    apply filter_fmap_same.
    + intros e _ He%Z.eqb_eq. case_match eqn:Eh; [|done]. unfold addressed, label_of in Eh.
      rewrite !andb_true_iff, Z.eqb_eq in Eh. destruct Eh as [(_ & [E _] & _) _]. apply Z.eqb_eq in E. congruence.
    + intros e. by case_match.
  - intros chain addresses now.
    destruct (import_in_rows chain addresses now t w) as [->|(ls & Hls & E & _)]; [done|].
    unfold own_rows. rewrite E. apply (own_rows_app ws ∅ (lt_rows t) _ 0). intros e He.
    apply (list_elem_of_fmap_2 le_label) in He. rewrite number_from_label in He. rewrite Forall_forall in Hls.
    rewrite (Hls _ He). done.
Qed.

Lemma labelling_own {A} (db : db_t) r (k : label_table → Z → label_table * reply A) ws :
  (∀ w, w ≠ ws → own_rows ws (k (ad_labels db) w).1 = own_rows ws (ad_labels db)) →
  own_rows ws (ad_labels (labelling db r k).1) = own_rows ws (ad_labels db)
  ∨ signed_in db r ∧ workspace_of (set_auth db (guard_of db r).1) r = Some ws.
Proof.
  intros Hk. destruct (labelling_cases db r k) as [(w & Hs & Hw & ->)|(code & ->)]; [|by left].
  destruct (decide (w = ws)) as [->|Hne]; [by right|left]. cbn [fst ad_labels set_labels]. by apply Hk.
Qed.

(** Claim C21: The labels a tenant owns change only by a request whose session is live and
    bound to the tenant's workspace, and what it is shown of the labels depends
    on no other tenant's. *)
Theorem label_tenancy ws :
  (∀ (db : db_t) r o, own_rows ws (ad_labels (run_op db r o)) ≠ own_rows ws (ad_labels db) →
     signed_in db r ∧ workspace_of (set_auth db (guard_of db r).1) r = Some ws)
  ∧ (∀ (db1 db2 : db_t) r chain address now, ad_auth db1 = ad_auth db2 →
     workspace_of (set_auth db1 (require_auth sha256_hex admin_hash (ad_auth db1) (rq_auth r) (rq_cookie r)).1) r = Some ws →
     own_rows ws (ad_labels db1) = own_rows ws (ad_labels db2) →
     (list_labels sha256_hex admin_hash db1 r chain address now).2 = (list_labels sha256_hex admin_hash db2 r chain address now).2).
Proof.
  split.
  - intros db r o Hne.
    destruct o; cbn [run_op] in Hne.
    5-7: match type of Hne with own_rows _ (ad_labels (?f).1) ≠ _ => idtac end;
      unfold add_label, revoke_label, import_blocklist in Hne;
      match type of Hne with context [Admin.labelling _ _ ?db ?r ?k] =>
        destruct (labelling_own db r k ws) as [E|E]; [|by rewrite E in Hne|exact E] end;
      intros w Hw; by apply foreign_labelling.
    all: exfalso; apply Hne; clear Hne;
      unfold add_channel, bulk_add_channels, update_channel, remove_channel, set_queue_pause, settings_runtime_save,
        settings_secret_set, settings_secret_delete;
      match goal with |- context [Admin.writing _ _ ?db ?r ?k] => destruct (writing_cases db r k) as [[Hs ->]|[_ (code & -> & _)]]; [|done] end;
      repeat case_match; done.
  - intros db1 db2 r chain address now Ea Hw Eo. unfold list_labels, reading, pass. rewrite <-Ea.
    destruct (require_auth _ _ _ _ _) as [a g]. destruct g; try done. cbn [fst] in Hw.
    unfold in_workspace, workspace_of in *. cbn [ad_auth set_auth] in *.
    destruct (require_workspace _ _ _ _) as [w|]; [|done]. injection Hw as ->.
    destruct (ChainKind.parse chain) as [c|]; [|done]. destruct now as [now|]; [|done]. cbn [snd]. f_equal. f_equal.
    assert (∀ t, labels_of t ws (ChainKind.as_str c) address
      = newest_first (List.filter (label_of ws (ChainKind.as_str c) address) (own_rows ws t))) as Hl.
    { intros t. unfold labels_of, own_rows. f_equal. symmetry. apply filter_within. intros e. unfold label_of.
      rewrite !andb_true_iff. by intros [[? _] _]. }
    cbn [ad_labels set_auth]. rewrite !Hl. by rewrite Eo.
Qed.
(** A label is shown as active exactly when the policy counts it. *)
Theorem shown_active_is_policy t ws chain address now e :
  e ∈ labels_of t ws chain address →
  lr_active (label_view now e) = label_active now ws chain address (le_label e).
Proof.
  unfold labels_of, newest_first. rewrite elem_of_stable_sort, elem_of_lfilter. intros [_ Hl]. unfold label_of in Hl.
  rewrite !andb_true_iff in Hl. destruct Hl as [[H1 H2] H3]. cbn [label_view lr_active].
  unfold label_active, label_live. by rewrite H1, H2, H3.
Qed.

(** ** Revocation *)

(** The ids of the table are distinct and below the sequence. *)
Definition ids_ok (t : label_table) : Prop :=
  NoDup (le_id <$> lt_rows t) ∧ ∀ e, e ∈ lt_rows t → le_id e < lt_next t.

Lemma ids_ok_append t w new next :
  ids_ok t → NoDup (le_id <$> new) → (∀ e, e ∈ new → lt_next t <= le_id e < next) → lt_next t <= next →
  ids_ok (MkLabelTable w (lt_rows t ++ new) next).
Proof.
  intros [Hn Hlt] Hnew Hr Hle. split; cbn [lt_rows lt_next].
  - rewrite fmap_app. apply NoDup_app. split_and!; [done| |done].
    intros i (e & -> & He)%list_elem_of_fmap (e' & E & He')%list_elem_of_fmap. specialize (Hlt _ He). specialize (Hr _ He'). lia.
  - intros e [He|He]%elem_of_app; [specialize (Hlt _ He); lia|apply Hr in He; lia].
Qed.

Lemma number_from_ids next now ls :
  NoDup (le_id <$> number_from next now ls)
  ∧ ∀ e, e ∈ number_from next now ls → next <= le_id e < next + Z.of_nat (length ls).
Proof.
  revert next. induction ls as [|l ls IH]; intros next; cbn; [split; [constructor|intros e He; by apply not_elem_of_nil in He]|].
  destruct (IH (next + 1)) as [Hn Hr]. split.
  - constructor; [|done]. intros (e & E & He)%list_elem_of_fmap. specialize (Hr _ He). lia.
  - intros e [->|He]%elem_of_cons; [cbn; lia|]. specialize (Hr _ He). lia.
Qed.

Lemma ids_ok_same t t' : le_id <$> lt_rows t' = le_id <$> lt_rows t → lt_next t' = lt_next t → ids_ok t → ids_ok t'.
Proof.
  intros E1 E2 [Hn Hlt]. split; [by rewrite E1|]. intros e He. apply (list_elem_of_fmap_2 le_id) in He. rewrite E1 in He.
  apply list_elem_of_fmap in He as (e' & -> & He'). rewrite E2. by apply Hlt.
Qed.

Lemma ids_ok_labelling {A} (db : db_t) r (k : label_table → Z → label_table * reply A) :
  (∀ w, ids_ok (k (ad_labels db) w).1) → ids_ok (ad_labels db) → ids_ok (ad_labels (labelling db r k).1).
Proof. intros Hk Ho. destruct (labelling_cases db r k) as [(w & _ & _ & ->)|(code & ->)]; [apply Hk|done]. Qed.

(** Every request keeps the ids distinct. *)
Lemma ids_ok_op (db : db_t) r o : ids_ok (ad_labels db) → ids_ok (ad_labels (run_op db r o)).
Proof.
  intros Ho. destruct o; cbn [run_op].
  5-7: unfold add_label, revoke_label, import_blocklist; apply ids_ok_labelling; [intros w|done].
  all: try (unfold add_channel, bulk_add_channels, update_channel, remove_channel, set_queue_pause, settings_runtime_save,
        settings_secret_set, settings_secret_delete;
      match goal with |- context [Admin.writing _ _ ?db ?r ?k] => destruct (writing_cases db r k) as [[Hs ->]|[_ (code & -> & _)]]; [|done] end;
      repeat case_match; done).
  - destruct (add_in_rows chain address kind disposition reason clock upserted inserted (ad_labels db) w)
      as [[E1 E2]|(now & l & _ & E1 & E2)]; [by apply (ids_ok_same (ad_labels db)); [rewrite E1| |]|].
    destruct (add_in _ _ _ _ _ _ _ _ _ _ _).1 as [wl rows next]. cbn [lt_rows lt_next] in *. subst.
    apply ids_ok_append; [done|by apply NoDup_singleton| |lia]. intros e ->%list_elem_of_singleton. cbn. lia.
  - unfold revoke_in. destruct (ChainKind.parse chain); [|done]. destruct now; [|done]. destruct (_ =? 0)%nat; [done|].
    apply (ids_ok_same (ad_labels db)); [|done|done]. cbn [fst lt_rows]. rewrite <-list_fmap_compose. apply list_fmap_ext.
    intros i e _. cbn. by case_match.
  - destruct (import_in_rows chain addresses now (ad_labels db) w) as [->|(ls & _ & E1 & E2)]; [done|].
    destruct (import_in _ _ _ _ _ _).1 as [wl rows next]. cbn [lt_rows lt_next] in *. subst.
    destruct (number_from_ids (lt_next (ad_labels db)) now ls) as [Hn Hr].
    apply ids_ok_append; [done|done|done|lia].
Qed.

Lemma addressed_once id ws chain address rows (P : LabelEntry → bool) :
  NoDup (le_id <$> rows) →
  List.filter (λ e, addressed id ws chain address e && P e) rows = []
  ∨ ∃ e, e ∈ rows ∧ addressed id ws chain address e = true ∧ P e = true
      ∧ List.filter (λ e, addressed id ws chain address e && P e) rows = [e].
Proof.
  induction rows as [|x rows IH]; [by left|]. intros [Hx Hn]%NoDup_cons. cbn [List.filter].
  destruct (addressed id ws chain address x && P x) eqn:Ex.
  - right. exists x. apply andb_true_iff in Ex as [E1 E2]. split_and!; [by left|done|done|]. f_equal.
    apply filter_none. intros e He. apply not_true_is_false. intros [Ea _]%andb_true_iff. apply Hx.
    unfold addressed in *. rewrite andb_true_iff, Z.eqb_eq in E1, Ea. destruct E1 as [-> _]. destruct Ea as [<- _].
    by apply list_elem_of_fmap_2.
  - destruct (IH Hn) as [?|(e & He & H1 & H2 & H3)]; [by left|right]. exists e. split_and!; [by right|done..].
Qed.

Lemma revoke_in_hit t ws chain c address id now asked t' n :
  ids_ok t → ChainKind.parse chain = Some c →
  revoke_in chain address id (Some now) asked t ws = (t', Reply (MkRevocation n false)) →
  n = 1 ∧ ∃ e, e ∈ lt_rows t ∧ addressed id ws (ChainKind.as_str c) address e = true ∧ unrevoked e = true
    ∧ lt_rows t' = (λ x, if bool_decide (le_id x = id) then revoke_entry now e else x) <$> lt_rows t.
Proof.
  intros [Hn _] Ec. unfold revoke_in. rewrite Ec.
  destruct (addressed_once id ws (ChainKind.as_str c) address (lt_rows t) unrevoked Hn) as [E0|(e & He & Ha & Hu & E1)].
  { rewrite E0. cbn. repeat case_match; by intros [=]. }
  rewrite E1. cbn [length Nat.eqb]. intros [= <- <-]. split; [done|]. exists e. split_and!; try done. cbn [lt_rows].
  apply list_fmap_ext. intros i x Hx. case_bool_decide as Hi.
  - assert (x = e) as ->; [|by rewrite Ha, Hu]. apply list_elem_of_lookup in He as [j Hj].
    assert (i = j) as ->; [|congruence]. eapply (NoDup_lookup (le_id <$> lt_rows t)); [exact Hn|by rewrite list_lookup_fmap, Hx|].
    rewrite list_lookup_fmap, Hj. cbn. unfold addressed in Ha. rewrite andb_true_iff, Z.eqb_eq in Ha. by destruct Ha as [-> _]; rewrite Hi.
  - unfold addressed. by rewrite (proj2 (Z.eqb_neq _ _)) by done.
Qed.

Lemma revoke_in_again t ws chain c address id now :
  ChainKind.parse chain = Some c →
  (∀ x, x ∈ lt_rows t → le_id x = id → unrevoked x = false) →
  (∃ x, x ∈ lt_rows t ∧ addressed id ws (ChainKind.as_str c) address x = true) →
  revoke_in chain address id (Some now) true t ws = (t, Reply (MkRevocation 0 true)).
Proof.
  intros Ec Hall (x & Hx & Ha). unfold revoke_in. rewrite Ec.
  assert (∀ e, e ∈ lt_rows t → addressed id ws (ChainKind.as_str c) address e = true → unrevoked e = false) as Hu.
  { intros e He Hae. apply Hall; [done|]. unfold addressed in Hae. rewrite andb_true_iff, Z.eqb_eq in Hae. by destruct Hae. }
  rewrite filter_none; cbn [length Nat.eqb negb].
  - rewrite (proj2 (existsb_exists_elem _ _)); [done|]. exists x. split; [done|]. by rewrite Ha, (Hu x).
  - intros e He. destruct (addressed _ _ _ _ e) eqn:Hae; [|done]. by rewrite Hu.
Qed.

(** A revocation revokes one label, of the workspace of its session, at its own
    clock; repeated by the same workspace at any later time it answers that the
    label was revoked already, and the instant that was recorded stays. *)
Theorem revoked_once (db db' : db_t) r chain address id now asked n
    (Hids : ids_ok (ad_labels db))
    (Hrevoked : revoke_label sha256_hex admin_hash db r chain address id (Some now) asked = (db', Reply (MkRevocation n false))) :
  ∃ ws c e, workspace_of (set_auth db (guard_of db r).1) r = Some ws ∧ ChainKind.parse chain = Some c
    ∧ n = 1 ∧ e ∈ lt_rows (ad_labels db) ∧ addressed id ws (ChainKind.as_str c) address e = true ∧ unrevoked e = true
    ∧ lt_rows (ad_labels db') = (λ x, if bool_decide (le_id x = id) then revoke_entry now e else x) <$> lt_rows (ad_labels db)
    ∧ ∀ r2 now2, signed_in db' r2 → workspace_of (set_auth db' (guard_of db' r2).1) r2 = Some ws →
        let again := revoke_label sha256_hex admin_hash db' r2 chain address id (Some now2) true in
        again.2 = Reply (MkRevocation 0 true) ∧ ad_labels again.1 = ad_labels db'.
Proof.
  unfold revoke_label in *.
  destruct (labelling_cases db r (revoke_in chain address id (Some now) asked)) as [(ws & Hs & Hw & E)|(code & E)];
    rewrite E in Hrevoked; [|done].
  destruct (revoke_in _ _ _ _ _ _ _) as [t' y] eqn:Er. cbn [fst snd] in Hrevoked. injection Hrevoked as <- ->.
  destruct (ChainKind.parse chain) as [c|] eqn:Ec; [|unfold revoke_in in Er; by rewrite Ec in Er].
  destruct (revoke_in_hit _ _ _ _ _ _ _ _ _ _ Hids Ec Er) as [-> (e & He & Ha & Hu & Hrows)].
  exists ws, c, e. split_and!; try done. intros r2 now2 Hs2 Hw2.
  assert (le_id e = id) as Hid by (unfold addressed in Ha; rewrite andb_true_iff, Z.eqb_eq in Ha; by destruct Ha).
  assert (revoke_in chain address id (Some now2) true t' ws = (t', Reply (MkRevocation 0 true))) as Hagain.
  { apply (revoke_in_again _ _ _ c); [done| |].
    - intros x Hx Hi. rewrite Hrows in Hx. apply list_elem_of_fmap in Hx as (z & -> & _). case_bool_decide; [done|congruence].
    - exists (revoke_entry now e). split; [|done]. rewrite Hrows. apply list_elem_of_fmap. exists e. by rewrite bool_decide_eq_true_2. }
  unfold Admin.labelling.
  match goal with |- context [Admin.writing _ _ ?d ?q ?k] => destruct (writing_cases d q k) as [[_ ->]|[? _]]; [|done] end.
  unfold in_workspace. unfold workspace_of in Hw2. destruct (require_workspace _ _ _ _); [|done]. injection Hw2 as ->.
  cbn [ad_labels set_auth set_labels]. by rewrite Hagain.
Qed.
(** ** Channels *)

(** The store the poller reads, with some messages and mentions. *)
Definition poller_store (db : db_t) (msgs : list (MessageRow J)) (ms : list MentionRow) : PgMessageStore J :=
  MkPg (pc_row <$> ad_channels db) msgs ms.

Lemma polled_iff (db : db_t) msgs ms key :
  key ∈ polled_channels (poller_store db msgs ms)
  ↔ ∃ c, ad_channels db !! key = Some c ∧ allowlisted (pc_row c) = true ∧ status (pc_row c) = "active".
Proof.
  unfold polled_channels, poller_store. cbn [channels]. split.
  - intros ([k row] & -> & He)%list_elem_of_fmap. apply elem_of_map_to_list, map_lookup_filter_Some in He as [He [? ?]].
    rewrite lookup_fmap in He. cbn in *. destruct (ad_channels db !! k) as [c|]; [|done]. injection He as <-. by exists c.
  - intros (c & Hc & Ha & Hs). apply list_elem_of_fmap. exists (key, pc_row c). split; [done|].
    apply elem_of_map_to_list, map_lookup_filter_Some. split; [|done]. by rewrite lookup_fmap, Hc.
Qed.

Lemma writing_reply {A} (db db' : db_t) r (k : db_t → db_t * reply A) x :
  writing db r k = (db', Reply x) → signed_in db r ∧ k (set_auth db (guard_of db r).1) = (db', Reply x).
Proof. intros Hk. destruct (writing_cases db r k) as [[Hs E]|[_ (code & E & _)]]; rewrite E in Hk; [by split|done]. Qed.

(** A removed channel is no longer polled and an added one is, whatever it was
    before; neither touches another channel, and the position reached in a
    channel and a title once given are kept. *)
Theorem channels_follow_the_panel (db db' : db_t) r key title username reached msgs ms :
  (remove_channel sha256_hex admin_hash db r key reached = (db', Reply ()) →
     (key ∉ polled_channels (poller_store db' msgs ms))
     ∧ (last_cursor ∘ pc_row <$> ad_channels db' !! key) = (last_cursor ∘ pc_row <$> ad_channels db !! key)
     ∧ ∀ other, other ≠ key → ad_channels db' !! other = ad_channels db !! other)
  ∧ (add_channel sha256_hex admin_hash db r key title username reached = (db', Reply ()) →
     key ∈ polled_channels (poller_store db' msgs ms)
     ∧ (ad_channels db !! key ≫= last_cursor ∘ pc_row) = (ad_channels db' !! key ≫= last_cursor ∘ pc_row)
     ∧ (ad_channels db' !! key ≫= pc_title) = coalesce title (ad_channels db !! key ≫= pc_title)
     ∧ ∀ other, other ≠ key → ad_channels db' !! other = ad_channels db !! other).
Proof.
  unfold remove_channel, add_channel. split.
  - intros [_ Hk]%writing_reply. destruct reached; [|done]. injection Hk as <-. rewrite polled_iff.
    cbn [ad_channels set_channels set_auth]. unfold disable_channel. split_and!.
    + intros (c & Hc & Ha & _). rewrite lookup_alter_eq in Hc. destruct (ad_channels db !! key) as [c0|]; [|done].
      by injection Hc as <-.
    + rewrite lookup_alter_eq. by destruct (ad_channels db !! key).
    + intros other Ho. by apply lookup_alter_ne.
  - intros [_ Hk]%writing_reply. destruct reached; [|done]. injection Hk as <-. rewrite polled_iff.
    cbn [ad_channels set_channels set_auth]. unfold allow_channel. rewrite lookup_insert_eq. split_and!.
    + eexists. split; [done|]. by destruct (ad_channels db !! key).
    + cbn. by destruct (ad_channels db !! key).
    + cbn. destruct (ad_channels db !! key); [done|]. by destruct title.
    + intros other Ho. by apply lookup_insert_ne.
Qed.

Lemma bulk_from_count chs entries reached i n chs' m :
  bulk_from chs entries reached i n = (chs', Reply m) →
  m = n + Z.of_nat (length (List.filter (λ e, negb (blank e.1)) entries)).
Proof.
  revert chs i n. induction entries as [|[key title] entries IH]; intros chs i n; cbn [bulk_from]; [intros [= _ <-]; cbn; lia|].
  cbn [List.filter fst]. destruct (blank key); cbn [negb]; [apply IH|]. destruct (reached i); [|done].
  intros ->%IH. cbn [length]. lia.
Qed.

(** A bulk request that answers imported every entry that is not blank; one
    that fails has imported those before the failure. *)
Theorem bulk_counts (db db' : db_t) r entries reached n :
  bulk_add_channels sha256_hex admin_hash db r entries reached = (db', Reply n) →
  n = Z.of_nat (length (List.filter (λ e, negb (blank e.1)) entries)).
Proof.
  unfold bulk_add_channels. intros [_ Hk]%writing_reply. destruct (bulk_from _ _ _ _ _) as [chs x] eqn:E.
  injection Hk as _ ->. by apply bulk_from_count in E.
Qed.

(** ** Queues *)

(** A pause that answers names a known queue and stops every worker that reads
    the table, until a later one lifts it; the other queues are as before. *)
Theorem pause_is_durable (db db' : db_t) r name paused now name' paused' :
  set_queue_pause sha256_hex admin_hash db r name paused now = (db', Reply (name', paused')) →
  name' = name ∧ paused' = paused ∧ name ∈ ALL_QUEUES
  ∧ (∀ s, paused = true → queue_allowed s (ROk (durable_pauses db')) name = false)
  ∧ (paused = false → queue_allowed QueueState.new (ROk (durable_pauses db')) name = true)
  ∧ ∀ other s, other ≠ name → queue_allowed s (ROk (durable_pauses db')) other = queue_allowed s (ROk (durable_pauses db)) other.
Proof.
  unfold set_queue_pause. intros [_ Hk]%writing_reply. unfold contains in Hk. case_bool_decide as Hin; [|done].
  destruct now as [now|]; [|done]. injection Hk as <- <- <-.
  unfold queue_allowed, queue_allowed_checked, durable_pauses. cbn [ad_queues set_queues set_auth].
  rewrite lookup_fmap, lookup_insert_eq. cbn. split_and!; try done.
  - intros s ->. cbn. by destruct (QueueState.is_paused s name).
  - by intros ->.
  - intros other s Ho. by rewrite !lookup_fmap, lookup_insert_ne.
Qed.
(** ** Runtime settings *)

Lemma save_from_reply (st st' : gmap string J) pairs reached i n :
  save_from st pairs reached i = (st', Reply n) →
  n = Z.of_nat (i + length pairs) ∧ st' = foldl (λ m e, <[e.1 := e.2]> m) st pairs.
Proof.
  revert st i. induction pairs as [|[k v] pairs IH]; intros st i; cbn [save_from].
  - intros [= <- <-]. cbn. split; [lia|done].
  - destruct (reached i); [|done]. intros [-> ->]%IH. cbn. split; [lia|done].
Qed.

Lemma foldl_insert_lookup (pairs : list (string * J)) (m : gmap string J) k :
  foldl (λ m e, <[e.1 := e.2]> m) m pairs !! k
  = match last (List.filter (λ e, bool_decide (e.1 = k)) pairs) with Some e => Some e.2 | None => m !! k end.
Proof.
  revert m. induction pairs as [|[k' v] pairs IH]; intros m; [done|]. cbn [foldl fst snd List.filter]. rewrite IH.
  case_bool_decide as Hk; [|by rewrite lookup_insert_ne].
  rewrite last_cons. destruct (last _); [done|]. by rewrite Hk, lookup_insert_eq.
Qed.

(** A save that answers applied every pair it was given, all editable and of
    the right type, and from then on the settings read are the last value
    given for a key and otherwise what they were; one bad pair refuses all. *)
Theorem save_then_read (db db' : db_t) r f reached n c :
  settings_runtime_save sha256_hex admin_hash db r f reached = (db', Reply n) →
  n = Z.of_nat (length (save_pairs f)) ∧ save_pairs f ≠ []
  ∧ Forall (λ e, editable e.1 = true ∧ valid_runtime_value e.1 e.2 = true) (save_pairs f)
  ∧ ∀ k, effective_settings j_int db' c !! k
         = match last (List.filter (λ e, bool_decide (e.1 = k)) (save_pairs f)) with
           | Some e => Some e.2
           | None => effective_settings j_int db c !! k
           end.
Proof.
  unfold settings_runtime_save. intros [_ Hk]%writing_reply. case_bool_decide as Hne; [done|].
  destruct (forallb _ (save_pairs f)) eqn:Hall; [|done]. cbn [negb] in Hk.
  destruct (save_from _ _ _ _) as [st x] eqn:E. injection Hk as <- ->.
  apply save_from_reply in E as [-> ->]. rewrite forallb_forall_elem in Hall.
  assert (Forall (λ e, editable e.1 = true ∧ valid_runtime_value e.1 e.2 = true) (save_pairs f)) as Hv.
  { apply Forall_forall. intros e He. apply andb_true_iff. by apply Hall. }
  split_and!; [by rewrite Nat.add_0_l|done|done|]. intros k. unfold effective_settings. cbn [ad_settings set_settings set_auth].
  destruct (last _) as [e|] eqn:El.
  - apply lookup_union_Some_l, map_lookup_filter_Some. rewrite foldl_insert_lookup, El. split; [done|]. cbn.
    assert (e ∈ List.filter (λ e, bool_decide (e.1 = k)) (save_pairs f)) as He by by apply last_Some_elem_of.
    apply elem_of_lfilter in He as [He Hek%bool_decide_eq_true]. rewrite Forall_forall in Hv.
    destruct (Hv e He) as [Hed _]. by rewrite <-Hek.
  - assert (∀ m : gmap string J, (filter (λ e, editable e.1 = true) (foldl (λ m e, <[e.1 := e.2]> m) m (save_pairs f)) : gmap string J) !! k
        = (filter (λ e, editable e.1 = true) m : gmap string J) !! k) as Hf.
    { intros m. apply option_eq. intros v. by rewrite !map_lookup_filter_Some, foldl_insert_lookup, El. }
    by rewrite !lookup_union, Hf.
Qed.

(** A refused save changes no setting; one that fails at its second statement
    has applied its first pair. *)
Theorem save_not_atomic (db : db_t) r k1 v1 k2 v2 :
  signed_in db r → k1 ≠ k2 → editable k1 = true → editable k2 = true →
  valid_runtime_value k1 v1 = true → valid_runtime_value k2 v2 = true →
  let saved := settings_runtime_save sha256_hex admin_hash db r (MkSaveForm None None (Some [(k1, v1); (k2, v2)])) (λ i, (i =? 0)%nat) in
  saved.2 = Status 500 ∧ ad_settings saved.1 = <[k1 := v1]> (ad_settings db).
Proof.
  intros Hs Hne He1 He2 Hv1 Hv2. cbv zeta. unfold settings_runtime_save.
  match goal with |- context [Admin.writing _ _ ?d ?q ?k] => destruct (writing_cases d q k) as [[_ ->]|[? _]]; [|done] end.
  cbn. by rewrite He1, He2, Hv1, Hv2.
Qed.
End laws.

(** ** Secrets *)

Section secrets.
Context {J : Type} `{JsonValue J} (sha256_hex : string → string) (admin_hash : option string).
Context (aes_encrypt aes_decrypt : string → string → string → option string)
  (hex_encode : string → string) (hex_decode : string → option string)
  (base64_encode : string → string) (base64_decode : string → option string) (utf8 : string → bool).
Context (aes_inverse : ∀ key nonce p ct, aes_encrypt key nonce p = Some ct → aes_decrypt key nonce ct = Some p).
Context (hex_inverse : ∀ s, hex_decode (hex_encode s) = Some s).
Context (base64_inverse : ∀ s, base64_decode (base64_encode s) = Some s).
Set Default Proof Using "Type*".
Local Abbreviation db_t := (admin_db J).
Local Abbreviation set_secret := (settings_secret_set sha256_hex admin_hash aes_encrypt hex_encode base64_encode).
Local Abbreviation resolve := (resolve_secret aes_decrypt hex_decode base64_decode utf8).

(** Claim C22: A secret that was set is resolved, trimmed, in place of the environment's
    until it is deleted, and no other secret changes; the store keeps only the
    nonce and the ciphertext. *)
Theorem secret_round_trip (db db' : db_t) r key nonce name value (Hnonce : String.length nonce = 12%nat)
    (Hutf8 : utf8 (trim value) = true) (Hset : set_secret db r (Some key) nonce name value true = (db', Reply ())) :
  name ∈ SECRET_KEYS ∧ trim value ≠ ""
  ∧ (∀ env, resolve db' true (Some key) env name = Done (Some (trim value)))
  ∧ (∃ ct, aes_encrypt key nonce (trim value) = Some ct ∧ ad_secrets db' !! name = Some (hex_encode nonce, base64_encode ct))
  ∧ (∀ other env store_key reached, other ≠ name → resolve db' reached store_key env other = resolve db reached store_key env other)
  ∧ ∀ r2 db2, settings_secret_delete sha256_hex admin_hash db' r2 name true = (db2, Reply ()) →
      ∀ env, resolve db2 true (Some key) env name = Done env.
Proof.
  unfold settings_secret_set in Hset. apply writing_reply in Hset as [_ Hk]. unfold contains in Hk.
  case_bool_decide as Hin; [|done]. cbn [negb orb] in Hk. destruct (blank value) eqn:Hb; [done|].
  destruct (encrypt_secret _ _ _ _ _ _) as [[n64 ct64]|] eqn:Ee; [|done]. injection Hk as <-.
  unfold encrypt_secret in Ee. destruct (aes_encrypt key nonce (trim value)) as [ct|] eqn:Ea; [|done]. injection Ee as <- <-.
  cbn [ad_secrets set_secrets set_auth]. split_and!.
  - done.
  - by apply bool_decide_eq_false in Hb.
  - intros env. unfold resolve_secret, db_secret, decrypt_secret. cbn [ad_secrets set_secrets set_auth].
    rewrite lookup_insert_eq, hex_inverse, base64_inverse, Hnonce. cbn. rewrite (aes_inverse _ _ _ _ Ea). cbn. by rewrite Hutf8.
  - exists ct. split; [done|]. by rewrite lookup_insert_eq.
  - intros other env store_key reached Ho. unfold resolve_secret, db_secret. cbn [ad_secrets set_secrets set_auth].
    by rewrite lookup_insert_ne.
  - intros r2 db2. unfold settings_secret_delete. intros [_ Hd]%writing_reply. unfold contains in Hd.
    rewrite bool_decide_eq_true_2 in Hd by done. injection Hd as <-. intros env. unfold resolve_secret, db_secret.
    cbn [ad_secrets set_secrets set_auth]. by rewrite lookup_delete_eq.
Qed.
End secrets.

(** A preview depends on the first two and the last two bytes of the trimmed
    secret alone, and panics exactly when one of the cuts is inside a
    character. *)
Theorem mask_hides s t (Hs : (4 <= String.length (trim s))%nat) (Ht : (4 <= String.length (trim t))%nat)
    (Hfront : str_take 2 (trim s) = str_take 2 (trim t))
    (Hback : str_drop (String.length (trim s) - 2) (trim s) = str_drop (String.length (trim t) - 2) (trim t))
    (Hcuts : char_boundary 2 (trim s) = char_boundary 2 (trim t)) :
  mask s = mask t ∧ (mask s = Panicked ↔ char_boundary 2 (trim s) = false ∨ char_boundary (String.length (trim s) - 2) (trim s) = false).
Proof.
  assert (∀ x, (4 <= String.length (trim x))%nat → mask x =
    if char_boundary 2 (trim x) && char_boundary (String.length (trim x) - 2) (trim x)
    then Done (Some (str_take 2 (trim x) +:+ ellipsis +:+ str_drop (String.length (trim x) - 2) (trim x))) else Panicked) as Hm.
  { intros x Hx. unfold mask. rewrite (proj2 (Nat.ltb_ge _ _)) by lia. unfold slice_to, slice_from, in_bounds.
    rewrite (proj2 (Nat.leb_le 2 _)), (proj2 (Nat.leb_le (_ - 2) _)) by lia. cbn [andb].
    by destruct (char_boundary 2 (trim x)), (char_boundary (String.length (trim x) - 2) (trim x)). }
  assert (char_boundary (String.length (trim s) - 2) (trim s) = char_boundary (String.length (trim t) - 2) (trim t)) as Hb.
  { pose proof (boundary_drop (String.length (trim s) - 2) 0 (trim s)) as H1.
    pose proof (boundary_drop (String.length (trim t) - 2) 0 (trim t)) as H2. rewrite Nat.add_0_r in H1, H2. congruence. }
  rewrite !Hm by done. rewrite Hfront, Hback, Hcuts, Hb. split; [done|].
  destruct (char_boundary 2 (trim t)), (char_boundary (_ - 2) (trim t)); cbn; split; try done; auto; intros [?|?]; done.
Qed.

(** Of a secret of four bytes the preview shows every one. *)
Theorem four_bytes_shown s p : String.length (trim s) = 4%nat → mask s = Done (Some p) →
  ∃ a b, trim s = a +:+ b ∧ p = a +:+ ellipsis +:+ b.
Proof.
  intros Hl. unfold mask. rewrite Hl. cbn [Nat.ltb Nat.leb Nat.sub]. unfold slice_to, slice_from.
  destruct (in_bounds 2 (trim s)); [|done]. intros [= <-]. exists (str_take 2 (trim s)), (str_drop 2 (trim s)).
  by rewrite take_drop_str.
Qed.

(** Whatever the page shows of a value went through the mask. *)
Theorem page_is_masked {J} `{JsonValue J} sha256_hex admin_hash aes_decrypt hex_decode base64_decode utf8 (db : admin_db J) r reads store_key env var rows row p :
  (settings_env sha256_hex admin_hash aes_decrypt hex_decode base64_decode utf8 db r reads store_key env var).2 = Done (Reply rows) →
  row ∈ rows → er_preview row = Some p → ∃ v, mask v = Done (Some p).
Proof.
  unfold settings_env, pass. destruct (require_auth _ _ _ _ _) as [a []]; try done. cbn [snd].
  set (l := env_rows _ _ _ _ _ _ _ _ _). destruct (all_rows l) as [rows'| |] eqn:El; try done. intros [= <-] Hr Hp.
  assert (Done row ∈ l) as Hl.
  { clear Hp. clearbody l. revert rows' El Hr. induction l as [|x l IH]; intros rows' El Hr; cbn in El.
    { injection El as <-. by apply not_elem_of_nil in Hr. }
    destruct x as [x| |]; try done. destruct (all_rows l) as [rest| |]; try done. injection El as <-.
    apply elem_of_cons in Hr as [->|Hr]; [by left|right]. by eapply IH. }
  assert (∀ name v src x, env_row name v true src = Done x → er_preview x = Some p → ∃ v, mask v = Done (Some p)) as He.
  { intros name v src x. unfold env_row. destruct v as [v|]; [|by intros [= <-]]. destruct (blank v); [by intros [= <-]|].
    destruct (mask v) as [o| |] eqn:Em; try done. intros [= <-]. cbn. intros ->. by exists v. }
  assert (∀ name v, secret_env_row aes_decrypt hex_decode base64_decode utf8 (set_auth db a) reads store_key name v = Done row →
    ∃ v, mask v = Done (Some p)) as Hsec.
  { intros name v. unfold secret_env_row. destruct (db_secret _ _ _ _ _ _ _ _) as [[o|]| |]; try done; cbv beta iota;
      (destruct (env_row _ _ _ _) as [x| |] eqn:Ex; try done); intros [= <-]; cbn in Hp; exact (He _ _ _ _ Ex Hp). }
  unfold l, env_rows in Hl. rewrite !elem_of_app, elem_of_lookup_imap in Hl.
  destruct Hl as [Hl|[(i & key & Hx & _)|Hl]].
  - apply list_elem_of_singleton in Hl. by eapply (Hsec "DATABASE_URL").
  - exact (He _ _ _ _ (eq_sym Hx) Hp).
  - rewrite !elem_of_cons in Hl.
    destruct Hl as [E|[E|[E|[E|[E|[E|[E|[E|E]]]]]]]]; [|..|by apply not_elem_of_nil in E]; symmetry in E;
      first [exact (He _ _ _ _ E Hp)|exact (Hsec _ _ E)].
Qed.

(** ** Concrete requests *)

Definition a_label (ws : Z) : WalletLabel :=
  WalletLabel.mk ws "solana" "W" "manual_block" "skip" "spam" "manual" 100 true None None.

Definition panel_db : admin_db json :=
  MkAdmin (MkAuth {["tok" := MkSession 100 None None None (Some 7); "tok9" := MkSession 100 None None None (Some 9)]} [] [])
    {["chan" := MkPanelChannel (Some "Title") None (MkChannel true "active" (Some "41") (Some 3))]}
    (MkLabelTable {[("solana", "W") := Wallet.mk 1 2 "x"]} [MkLabelEntry 1 5 (a_label 7); MkLabelEntry 2 6 (a_label 9)] 3)
    ∅ ∅ ∅.

Definition signed (token : string) : request := MkRequest (Some ("swi_session=" +:+ token)) (Some 10) (Some 10).
Definition any_label : WalletLabel → bool := λ _, true.
Definition toy_encrypt (key nonce p : string) : option string := Some (key +:+ p).
Definition toy_decrypt (key nonce ct : string) : option string := strip_prefix key ct.

Definition sample_run (r : request) (o : admin_op) : admin_db json :=
  run_op id (Some "hash") any_label toy_encrypt id id panel_db r o.

Lemma mutations_need_a_session_witness :
  tables (sample_run (signed "tok") (RemoveChannel "chan" true)) ≠ tables panel_db
  ∧ signed_in id (Some "hash") panel_db (signed "tok").
Proof.
  assert (tables (sample_run (signed "tok") (RemoveChannel "chan" true)) ≠ tables panel_db) as Hne.
  { intros E. apply (f_equal (λ t, (λ c, allowlisted (pc_row c)) <$> t.1.1.1.1 !! "chan")) in E. vm_compute in E. discriminate E. }
  split; [exact Hne|].
  exact (mutations_need_a_session id (Some "hash") any_label toy_encrypt id id panel_db (signed "tok") (RemoveChannel "chan" true) Hne).
Defined.

(** Without the cookie, or with an expired session, nothing happens. *)
Example refused :
  tables (sample_run (MkRequest None (Some 10) (Some 10)) (RemoveChannel "chan" true)) = tables panel_db
  ∧ tables (sample_run (MkRequest (Some "swi_session=tok") (Some 100) (Some 100)) (RemoveChannel "chan" true)) = tables panel_db.
Proof. vm_compute. done. Qed.

Lemma label_tenancy_witness :
  own_rows 7 (ad_labels (sample_run (signed "tok") (RevokeLabel "sol" "W" 1 (Some 20) true))) ≠ own_rows 7 (ad_labels panel_db)
  ∧ (∃ db1 : admin_db json, workspace_of id db1 (signed "tok") = Some 7)
  ∧ own_rows 7 (ad_labels (sample_run (signed "tok9") (RevokeLabel "sol" "W" 1 (Some 20) true))) = own_rows 7 (ad_labels panel_db).
Proof.
  assert (own_rows 7 (ad_labels (sample_run (signed "tok") (RevokeLabel "sol" "W" 1 (Some 20) true))) ≠ own_rows 7 (ad_labels panel_db)) as Hne.
  { vm_compute. discriminate. }
  split; [exact Hne|]. split; [|vm_compute; reflexivity].
  destruct (proj1 (label_tenancy (J := json) id (Some "hash") any_label toy_encrypt id id 7) panel_db (signed "tok")
    (RevokeLabel "sol" "W" 1 (Some 20) true) Hne) as [_ Hw].
  eexists. exact Hw.
Defined.

Lemma revoked_once_witness :
  let db' := (revoke_label id (Some "hash") panel_db (signed "tok") "sol" "W" 1 (Some 20) true).1 in
  (revoke_label id (Some "hash") db' (signed "tok") "solana" "W" 1 (Some 30) true).2 = Reply (MkRevocation 0 true)
  ∧ ∃ ws c e, workspace_of id (set_auth panel_db (guard_of id (Some "hash") panel_db (signed "tok")).1) (signed "tok") = Some ws
      ∧ ChainKind.parse "sol" = Some c ∧ e ∈ lt_rows (ad_labels panel_db)
      ∧ lt_rows (ad_labels db') = (λ x, if bool_decide (le_id x = 1) then revoke_entry 20 e else x) <$> lt_rows (ad_labels panel_db).
Proof.
  cbv zeta. split; [vm_compute; reflexivity|].
  destruct (revoked_once (J := json) id (Some "hash") panel_db
    (revoke_label id (Some "hash") panel_db (signed "tok") "sol" "W" 1 (Some 20) true).1 (signed "tok") "sol" "W" 1 20 true 1)
    as (ws & c & e & H1 & H2 & _ & H3 & _ & _ & H4 & _).
  - split; [vm_compute; repeat constructor; set_solver|]. intros e [->|[->|He%not_elem_of_nil]%elem_of_cons]%elem_of_cons; done.
  - vm_compute. reflexivity.
  - exists ws, c, e. split_and!; done.
Defined.

Lemma secret_round_trip_witness :
  let set := settings_secret_set id (Some "hash") toy_encrypt id id panel_db (signed "tok") (Some "k") "abcdefghijkl" "TG_API_HASH" " s3cret " true in
  set.2 = Reply () ∧ ad_secrets set.1 !! "TG_API_HASH" = Some ("abcdefghijkl", "ks3cret")
  ∧ resolve_secret toy_decrypt Some Some (λ _, true) set.1 true (Some "k") (Some "env") "TG_API_HASH" = Done (Some "s3cret").
Proof.
  cbv zeta. split; [vm_compute; reflexivity|]. split; [vm_compute; reflexivity|].
  refine (proj1 (proj2 (proj2 (secret_round_trip (J := json) id (Some "hash") toy_encrypt toy_decrypt id Some id Some (λ _, true)
    _ _ _ panel_db _ (signed "tok") "k" "abcdefghijkl" "TG_API_HASH" " s3cret " _ _ _))) (Some "env")); try reflexivity.
  intros key nonce p ct [= <-]. by apply strip_prefix_Some.
Defined.

(** Under another key the override is not read and the environment's value is
    used; a nonce of another length panics. *)
Example other_key :
  let db := (settings_secret_set id (Some "hash") toy_encrypt id id panel_db (signed "tok") (Some "k") "abcdefghijkl" "TG_API_HASH" "s3cret" true).1 in
  resolve_secret toy_decrypt Some Some (λ _, true) db true (Some "other") (Some "env") "TG_API_HASH" = Done (Some "env")
  ∧ decrypt_secret toy_decrypt Some Some (λ _, true) "k" "short" "ks" = Panicked.
Proof. vm_compute. done. Qed.

Definition euro : string := String (byte_of 226) (String (byte_of 130) (String (byte_of 172) "")).

Example masks :
  mask " abcdefgh " = Done (Some ("ab" +:+ ellipsis +:+ "gh")) ∧ mask "ab" = Done None ∧ mask "   " = Done None
  ∧ mask "abcd" = Done (Some ("ab" +:+ ellipsis +:+ "cd")) ∧ mask (euro +:+ "abcd") = Panicked.
Proof. vm_compute. done. Qed.

(** The first key that is not blank is shown as HELIUS_KEY_1, whichever
    variable it came from. *)
Example keys_renumbered :
  let env := env_load (MkEnv {["HELIUS_KEY_1" := " "; "HELIUS_KEY_2" := "abcdefgh"]} ∅) in
  (settings_env id None toy_decrypt Some Some (λ _, true) panel_db (signed "tok") (λ _, true) None env (λ _, None)).2
  = Done (Reply (map (λ '(n, s, v, e), MkEnvRow n s true v (if s : bool then Some "env" else None) e)
      [("DATABASE_URL", false, None, true); ("HELIUS_KEY_1", true, Some ("ab" +:+ ellipsis +:+ "gh"), false); ("GMGN_API_KEY", false, None, false);
       ("TG_API_ID", false, None, true); ("TG_API_HASH", false, None, true); ("TG_SESSION_PATH", false, None, true);
       ("TELEGRAM_BOT_TOKEN", false, None, true); ("TELEGRAM_CHAT_ID", false, None, true); ("ADMIN_PASSWORD_HASH_B64", false, None, false);
       ("ROBINHOOD_RPC_URL", false, None, false)])).
Proof. vm_compute. done. Qed.

Lemma save_then_read_witness :
  let f := MkSaveForm (Some "full_skill_score") (Some (JInt 80)) (Some [("runtime_profile", JStr "scale"); ("full_skill_score", JInt 90)]) in
  let db' := (settings_runtime_save id (Some "hash") panel_db (signed "tok") f (λ _, true)).1 in
  effective_settings JInt db' app_default !! "full_skill_score" = Some (JInt 90)
  ∧ effective_settings JInt db' app_default !! "telegram_concurrency" = effective_settings JInt panel_db app_default !! "telegram_concurrency".
Proof.
  cbv zeta. set (f := MkSaveForm _ _ _). set (db' := (settings_runtime_save _ _ _ _ _ _).1).
  assert (settings_runtime_save id (Some "hash") panel_db (signed "tok") f (λ _, true) = (db', Reply 3)) as E by (vm_compute; reflexivity).
  destruct (save_then_read JInt id (Some "hash") panel_db db' (signed "tok") f (λ _, true) 3 app_default E) as (_ & _ & _ & Hk).
  split; rewrite Hk; vm_compute; reflexivity.
Defined.
