(* ===== verification/Views.v ===== *)
(** * The read views (src/src/api.rs, the reads of src/src/admin.rs)

    The read API and the panel's views over the tables of the other components.
    A query that fails is a [false] of [ok] or an absent clock, by its position
    in the handler; ORDER BY leaves equal keys in an order of its own, here that
    of the table.  ILIKE and the order of texts are the database's, and
    date_trunc is that of UTC. *)
From Stdlib Require Import QArith.QArith_base QArith.Qcanon.
From stdpp Require Import base gmap sets list strings pretty.
From stdpp Require Import options.
From S2P Require Import Prelude Text Floats Json Models Domain Decimals TelegramIngest Auth Config Recent Store Labels Scoring Narrative.
From S2P Require Import Health Admin FundingRadar Signals.
Local Open Scope string_scope.
Local Open Scope Z_scope.
Local Open Scope list_scope.

(** ** Tables *)

(** The columns of tokens and market_snapshots a report shows. *)
Record ReportToken (J : Type) := MkReportToken {
  rt_chain : string;
  rt_mint : string;
  rt_symbol : option string;
  rt_name : option string;
  rt_lifecycle_state : string;
  rt_first_seen_at : option Z;
  rt_risk_flags : J;
}.
Arguments MkReportToken {_}. Arguments rt_chain {_}. Arguments rt_mint {_}. Arguments rt_symbol {_}. Arguments rt_name {_}.
Arguments rt_lifecycle_state {_}. Arguments rt_first_seen_at {_}. Arguments rt_risk_flags {_}.

Record MarketRow (D : Type) := MkMarketRow {
  mr_chain : string;
  mr_mint : string;
  mr_price_usd : option D;
  mr_market_cap_usd : option D;
  mr_liquidity_usd : option D;
  mr_observed_at : Z;
}.
Arguments MkMarketRow {_}. Arguments mr_chain {_}. Arguments mr_mint {_}. Arguments mr_price_usd {_}.
Arguments mr_market_cap_usd {_}. Arguments mr_liquidity_usd {_}. Arguments mr_observed_at {_}.

(** A radar case with its evidence, and its events. *)
Record ViewCase (J D : Type) := MkViewCase { vc_row : CaseRow D; vc_evidence : J }.
Arguments MkViewCase {_ _}. Arguments vc_row {_ _}. Arguments vc_evidence {_ _}.

Record ViewEvent (J : Type) := MkViewEvent { ve_case : Z; ve_kind : string; ve_at : Z; ve_evidence : J }.
Arguments MkViewEvent {_}. Arguments ve_case {_}. Arguments ve_kind {_}. Arguments ve_at {_}. Arguments ve_evidence {_}.

Record ClusterMember := MkClusterMember { cm_cluster : Z; cm_revoked_at : option Z }.

Record view_db (J D : Type) := MkView {
  v_auth : auth_db;
  v_labels : label_table;
  v_scores : list (ScoreRow D);
  v_tokens : list (ReportToken J);
  v_market : list (MarketRow D);
  v_narratives : narrative_db J;
  v_recent : store;
  v_cases : list (ViewCase J D);
  v_case_events : list (ViewEvent J);
  v_evals : eval_db (D := D);
  v_channels : gmap string PanelChannel;
  v_clusters : list (Z * Z);
  v_members : list ClusterMember;
  v_transfers : list Z;
  v_health : health_db;
}.
Arguments MkView {_ _}. Arguments v_auth {_ _}. Arguments v_labels {_ _}. Arguments v_scores {_ _}. Arguments v_tokens {_ _}.
Arguments v_market {_ _}. Arguments v_narratives {_ _}. Arguments v_recent {_ _}. Arguments v_cases {_ _}.
Arguments v_case_events {_ _}. Arguments v_evals {_ _}. Arguments v_channels {_ _}. Arguments v_clusters {_ _}.
Arguments v_members {_ _}. Arguments v_transfers {_ _}. Arguments v_health {_ _}.

(** ** What the views show *)

Record WalletRow := MkWalletRow {
  wr_chain : string;
  wr_address : string;
  (** left out by the panel *)
  wr_first_seen : option Z;
  wr_last_seen : Z;
  wr_source : string;
  wr_disposition : option string;
}.

Record ScoreView (D : Type) := MkScoreView {
  sv_as_of : Z;
  sv_skill_score : Z;
  sv_copyability_score : Z;
  sv_conviction : Z;
  sv_history_completeness : option D;
  sv_provisional : bool;
}.
Arguments MkScoreView {_}.

Record ApiLabelRow := MkApiLabel {
  al_kind : string;
  al_disposition : string;
  al_manual : bool;
  al_confidence : Z;
  al_active : bool;
}.

Record RadarCaseRow (D : Type) := MkRadarCase {
  rc_id : Z;
  rc_chain : string;
  rc_recipient : string;
  rc_stage : string;
  rc_confidence : Z;
  rc_first_funding_native : D;
  rc_first_funding_usd : option D;
  rc_source_address : string;
  rc_fanout_count : Z;
  rc_updated_at : Z;
}.
Arguments MkRadarCase {_}. Arguments rc_id {_}. Arguments rc_recipient {_}.

Record RadarCaseDetail (J : Type) := MkRadarDetail {
  rd_id : Z;
  rd_chain : string;
  rd_recipient : string;
  rd_stage : string;
  rd_confidence : Z;
  rd_evidence : J;
  rd_updated_at : option Z;
  rd_events : list (string * Z * J);
}.
Arguments MkRadarDetail {_}. Arguments rd_events {_}.

Record SignalRow := MkSignalRow {
  sr_id : Z;
  sr_chain : string;
  sr_mint : string;
  sr_signal_kind : string;
  sr_score : Z;
  sr_status : option string;
  sr_created_at : Z;
}.

Record RejectionRow := MkRejectionRow {
  rj_chain : string;
  rj_mint : string;
  rj_signal_kind : string;
  rj_rejection_code : string;
  rj_evaluated_at : Z;
}.

Record HealthView := MkHealthView {
  hv_status : string;
  hv_latency_ms : f64;
  hv_radar : RadarStageCounts;
  hv_allowlisted : Z;
  hv_active : Z;
  hv_messages_stored : Z;
  hv_raw_events : option Z;
}.

Record TokenReport (J D : Type) := MkTokenReport {
  tr_token : option (ReportToken J);
  tr_report_chain : string;
  tr_report_mint : string;
  tr_narrative : option NarrativeReport;
  tr_market : option (MarketRow D);
}.
Arguments MkTokenReport {_ _}. Arguments tr_token {_ _}. Arguments tr_narrative {_ _}. Arguments tr_market {_ _}.

(** ** Parameters of requests *)

Definition clamp (lo hi x : Z) : Z := Z.max lo (Z.min hi x).
Definition clamp_hours (h : option Z) (d : Z) : Z := clamp 1 168 (default d h).

(** The limit of a query string. *)
Definition text_limit (limit : option string) : Z := clamp 1 500 (default 50 (limit ≫= parse_i64)).
Definition list_limit (hi : Z) (limit : option Z) : Z := clamp 1 hi (default 50 limit).

Definition query_chain (chain : option string) : option ChainKind :=
  match chain with None => Some ChainKind.Solana | Some raw => ChainKind.parse raw end.

Definition known_window (window : string) : bool := contains window ["1h"; "24h"; "7d"; "30d"; "all"].

Definition token_key (chain : ChainKind) (mint : string) : string := ChainKind.as_str chain +:+ ":" +:+ mint.

(** ORDER BY a time DESC, and LIMIT. *)
Definition newest {A} (at_ : A → Z) (l : list A) : list A := stable_sort (λ a b, at_ b <=? at_ a) l.
Definition page {A} (limit : Z) (l : list A) : list A := take (Z.to_nat limit) l.

Section views.
Context {J D : Type} `{DecimalNum D}.
Context (sha256_hex : string → string) (text_le : string → string → bool) (ilike : string → string → bool).
Context (show_time : Z → string) (distinct : list string → list string).
Local Abbreviation db_t := (view_db J D).
Implicit Types (db : db_t).

Definition answer {A} (ok : bool) (x : A) : reply A := if ok then Reply x else Status 500.

(** The [Workspace] extractor, before the handler. *)
Definition scoped {A} db (cookie : option string) (at_ : option Z) (k : Z → reply A) : reply A :=
  match require_workspace sha256_hex (v_auth db) at_ cookie with
  | inl ws => k ws
  | inr g => Status (guard_code g)
  end.

Definition on_chain {A} (chain : string) (k : ChainKind → reply A) : reply A :=
  match ChainKind.parse chain with Some c => k c | None => Status 400 end.

(** ** Wallets *)

Definition wallets_of db (chain : string) (keep : string → bool) : list (string * string * Wallet) :=
  newest (λ w, Wallet.last_seen w.2)
    (List.filter (λ w, bool_decide (w.1.1 = chain) && keep w.1.2) (map_to_list (lt_wallets (v_labels db)))).

(** A disposition per wallet, each its own query. *)
Fixpoint with_dispositions db (first : bool) (ws : Z) (clock : nat → option Z) (i : nat) (rows : list (string * string * Wallet))
    : reply (list WalletRow) :=
  match rows with
  | [] => Reply []
  | (chain, address, w) :: rows =>
      match clock i with
      | None => Status 500
      | Some now =>
          match active_disposition (policy_view (v_labels db)) now ws chain address with
          | RErr _ => Status 500
          | ROk d =>
              match with_dispositions db first ws clock (S i) rows with
              | Reply out => Reply (MkWalletRow chain address (if first then Some (Wallet.first_seen w) else None) (Wallet.last_seen w)
                           (Wallet.source w) d :: out)
              | Status code => Status code
              end
          end
      end
  end.

Definition api_wallets db cookie at_ (chain : option string) (limit : option Z) (ok : bool) (clock : nat → option Z)
    : reply (list WalletRow) :=
  scoped db cookie at_ (λ ws,
    match query_chain chain with
    | None => Status 400
    | Some c =>
        if ok then with_dispositions db true ws clock 0
                     (page (list_limit 500 limit) (wallets_of db (ChainKind.as_str c) (λ _, true)))
        else Status 500
    end).

Definition score_view (s : ScoreRow D) : ScoreView D :=
  MkScoreView (sc_as_of s) (skill_col s) (copyability_col s) (conviction_col s) (Some (completeness_col s)) (provisional_col s).

Definition scores_of db (chain : ChainKind) (address : string) : list (ScoreRow D) :=
  page 100 (newest sc_as_of (List.filter (λ s, bool_decide (sc_chain s = ChainKind.as_str chain)
    && bool_decide (sc_address s = address)) (v_scores db))).

Definition api_wallet_scores db (chain address : string) (ok : bool) : reply (list (ScoreView D)) :=
  on_chain chain (λ c, answer ok (score_view <$> scores_of db c address)).

Definition api_label (now : Z) (e : LabelEntry) : ApiLabelRow :=
  let l := le_label e in
  MkApiLabel (WalletLabel.kind l) (WalletLabel.disposition l) (WalletLabel.manual l) (WalletLabel.confidence l) (label_live now l).

Definition api_wallet_labels db cookie at_ (chain address : string) (now : option Z) : reply (list ApiLabelRow) :=
  scoped db cookie at_ (λ ws, on_chain chain (λ c,
    match now with
    | Some now => Reply (api_label now <$> page 200 (labels_of (v_labels db) ws (ChainKind.as_str c) address))
    | None => Status 500
    end)).

(** ** Tokens *)

Definition report_of db (order : list Z) (chain : ChainKind) (mint : string) (now : Z) : option NarrativeReport :=
  match explain_narrative show_time distinct (v_narratives db) order chain mint now with ROk r => r | RErr _ => None end.

(** The lookups after the token's own: a failure of either reads as nothing. *)
Definition api_token_report db (chain mint : string) (order : list Z) (now : Z) (ok : nat → bool) : reply (TokenReport J D) :=
  on_chain chain (λ c,
    if negb (ok 0%nat) then Status 500 else
    match find_first (λ t, bool_decide (rt_chain t = ChainKind.as_str c) && bool_decide (rt_mint t = mint)) (v_tokens db) with
    | None => Status 404
    | Some t =>
        Reply (MkTokenReport (Some t) (ChainKind.as_str c) mint (if ok 1%nat then report_of db order c mint now else None)
          (if ok 2%nat then head (newest mr_observed_at (List.filter (λ m, bool_decide (mr_chain m = ChainKind.as_str c)
             && bool_decide (mr_mint m = mint)) (v_market db))) else None))
    end).

Definition api_token_recent db cookie at_ (chain mint : string) (window : option string) (now : option Z) : reply (list RecentEvent) :=
  scoped db cookie at_ (λ ws, on_chain chain (λ c,
    let w := default "24h" window in
    if negb (known_window w) then Status 400 else
    match now with
    | Some now => Reply (fetch_recent_timeline now (v_recent db) ws (token_key c mint) w)
    | None => Status 500
    end)).

Definition api_token_relations db cookie at_ (chain mint : string) (ok : bool) : reply (list CandidateRelation) :=
  scoped db cookie at_ (λ ws, on_chain chain (λ c, answer ok (fetch_relations (v_recent db) ws (token_key c mint)))).

(** ** Radar cases: no workspace *)

Definition case_view (c : ViewCase J D) : RadarCaseRow D :=
  let r := vc_row c in
  MkRadarCase (CaseRow.id r) (CaseRow.chain r) (CaseRow.recipient r) (CaseRow.stage r) (CaseRow.confidence r)
    (CaseRow.first_funding_native r) (CaseRow.first_funding_usd r) (CaseRow.source_address r) (CaseRow.fanout_count r)
    (CaseRow.updated_at r).

Definition in_stage (stage : option string) (c : ViewCase J D) : bool :=
  match stage with None => true | Some s => bool_decide (CaseRow.stage (vc_row c) = s) end.

Definition cases_page db (stage : option string) (limit : Z) : list (ViewCase J D) :=
  page limit (newest (λ c, CaseRow.updated_at (vc_row c)) (List.filter (in_stage stage) (v_cases db))).

Definition api_radar_cases db (stage limit : option string) (ok : bool) : reply (list (RadarCaseRow D)) :=
  answer ok (case_view <$> cases_page db stage (text_limit limit)).

Definition case_by_id db (id : Z) : option (ViewCase J D) := find_first (λ c, CaseRow.id (vc_row c) =? id) (v_cases db).

Definition events_of db (id : Z) : list (string * Z * J) :=
  (λ e, (ve_kind e, ve_at e, ve_evidence e))
    <$> stable_sort (λ a b, ve_at a <=? ve_at b) (List.filter (λ e, ve_case e =? id) (v_case_events db)).

Definition case_detail (c : ViewCase J D) (at_ : option Z) (events : list (string * Z * J)) : RadarCaseDetail J :=
  let r := vc_row c in
  MkRadarDetail (CaseRow.id r) (CaseRow.chain r) (CaseRow.recipient r) (CaseRow.stage r) (CaseRow.confidence r) (vc_evidence c) at_ events.

Definition api_radar_case db (id : Z) (ok : nat → bool) : reply (RadarCaseDetail J) :=
  if negb (ok 0%nat) then Status 500 else
  match case_by_id db id with
  | None => Status 404
  | Some c => Reply (case_detail c (Some (CaseRow.updated_at (vc_row c))) (if ok 1%nat then events_of db id else []))
  end.

(** ** Signals *)

Definition signals_of db (ws : Z) (kind : option string) : list (Signal (D := D)) :=
  newest created_at (List.filter (λ s, (sig_workspace s =? ws)
    && match kind with None => true | Some k => bool_decide (sig_kind s = k) end) (signals (v_evals db))).

Definition signal_row (with_status : bool) (s : Signal (D := D)) : SignalRow :=
  MkSignalRow (Z.of_nat (sig_id s)) (sig_chain s) (sig_mint s) (sig_kind s) (score s)
    (if with_status then Some (sig_status s) else None) (created_at s).

Definition api_signals db cookie at_ (kind limit : option string) (ok : bool) : reply (list SignalRow) :=
  scoped db cookie at_ (λ ws, answer ok (signal_row true <$> page (text_limit limit) (signals_of db ws kind))).

Definition rejected_of db (ws : Z) : list (Evaluation (D := D)) :=
  List.filter (λ e, (ev_workspace e =? ws) && bool_decide (status e = "rejected")) (evaluations (v_evals db)).

Definition rejection_row (e : Evaluation (D := D)) (code : string) : RejectionRow :=
  MkRejectionRow (ev_chain e) (ev_mint e) (ev_kind e) code (evaluated_at e).

(** Decoding a row: a code that is null is an error of the query. *)
Definition decode_rejections (rows : list (Evaluation (D := D))) : option (list RejectionRow) :=
  mapM (λ e, rejection_row e <$> rejection_code e) rows.

Definition rejections {A} (rows : list (Evaluation (D := D))) (ok : bool) (k : list RejectionRow → A) : reply A :=
  if ok then match decode_rejections rows with Some l => Reply (k l) | None => Status 500 end else Status 500.

Definition api_signal_rejections db cookie at_ (limit : option string) (ok : bool) : reply (list RejectionRow) :=
  scoped db cookie at_ (λ ws,
    rejections (page (text_limit limit) (newest evaluated_at
      (List.filter (λ e, bool_decide (is_Some (rejection_code e))) (rejected_of db ws)))) ok id).

(** ** Channels, clusters, health *)

Definition api_telegram_channels db (ok : bool) : reply (list ChannelView) :=
  answer ok (channel_views text_le (v_channels db)).

Definition member_count db (cluster : Z) : Z :=
  Z.of_nat (length (List.filter (λ m, (cm_cluster m =? cluster) && bool_decide (cm_revoked_at m = None)) (v_members db))).

(** The id, the count and the instant it was created. *)
Definition clusters_page db : list (Z * Z * Z) :=
  page 200 (stable_sort (λ a b, b.1.2 <=? a.1.2) ((λ c, (c.1, member_count db c.1, c.2)) <$> v_clusters db)).

Definition api_clusters db (ok : bool) : reply (list (Z * Z * Z)) := answer ok (clusters_page db).

Definition health_view db (latency : result f64) (raw : option Z) : HealthView :=
  let h := v_health db in
  let telegram := result_or no_telegram (telegram_health (telegram_reads h) (channel_rows h) (message_count h)) in
  MkHealthView "ok" (match latency with ROk l => l | RErr _ => f64_of_Z (-1) end)
    (result_or no_radar (radar_stage_counts (radar_read h) (case_stages h)))
    (th_allowlisted telegram) (th_active telegram) (th_messages_stored telegram) raw.

Definition api_health db (latency : result f64) : reply HealthView :=
  let h := v_health db in
  Reply (health_view db latency (Some (if raw_read h then raw_event_count h else 0))).

(** ** The panel's views

    After a guard the sessions are the guard's: it records when they were seen. *)
Context (admin_hash : option string).

Definition panel db (r : request) {A} (k : auth_db → reply A) : auth_db * reply A :=
  match require_auth sha256_hex admin_hash (v_auth db) (rq_auth r) (rq_cookie r) with
  | (a, Allowed) => (a, k a)
  | (a, g) => (a, Status (guard_code g))
  end.

Definition of_workspace (a : auth_db) (r : request) {A} (k : Z → reply A) : reply A :=
  match require_workspace sha256_hex a (rq_workspace r) (rq_cookie r) with
  | inl ws => k ws
  | inr g => Status (guard_code g)
  end.

Definition list_wallets db (r : request) (chain : option string) (limit : option Z) (q : option string)
    (ok : bool) (clock : nat → option Z) : auth_db * reply (list WalletRow) :=
  panel db r (λ a, of_workspace a r (λ ws,
    match query_chain chain with
    | None => Status 400
    | Some c =>
        let search address := match q with None => true | Some s => ilike address ("%" +:+ s +:+ "%") end in
        if ok then with_dispositions db false ws clock 0 (page (list_limit 1000 limit) (wallets_of db (ChainKind.as_str c) search))
        else Status 500
    end)).

Definition panel_score (s : ScoreRow D) : ScoreView D :=
  MkScoreView (sc_as_of s) (skill_col s) (copyability_col s) (conviction_col s) None (provisional_col s).

Definition wallet_scores db (r : request) (chain address : string) (ok : bool) : auth_db * reply (list (ScoreView D)) :=
  panel db r (λ _, on_chain chain (λ c, answer ok (panel_score <$> scores_of db c address))).

Definition token_report db (r : request) (chain mint : string) (order : list Z) (now : Z) (ok : bool) : auth_db * reply (TokenReport J D) :=
  panel db r (λ _, on_chain chain (λ c,
    Reply (MkTokenReport None (ChainKind.as_str c) mint (if ok then report_of db order c mint now else None) None))).

Definition token_recent db (r : request) (chain mint : string) (window : option string) (now : option Z)
    : auth_db * reply (list RecentEvent) :=
  panel db r (λ a, of_workspace a r (λ ws, on_chain chain (λ c,
    let w := default "24h" window in
    if negb (known_window w) then Status 400 else
    match now with
    | Some now => Reply (fetch_recent_timeline now (v_recent db) ws (token_key c mint) w)
    | None => Status 500
    end))).

Definition token_relations db (r : request) (chain mint : string) (ok : bool) : auth_db * reply (list CandidateRelation) :=
  panel db r (λ a, of_workspace a r (λ ws, on_chain chain (λ c,
    answer ok (fetch_relations (v_recent db) ws (token_key c mint))))).

Definition radar_cases db (r : request) (limit : option Z) (ok : bool) : auth_db * reply (list (RadarCaseRow D)) :=
  panel db r (λ _, answer ok (case_view <$> cases_page db None (list_limit 500 limit))).

Definition radar_case db (r : request) (id : Z) (ok : bool) : auth_db * reply (RadarCaseDetail J) :=
  panel db r (λ _, if negb ok then Status 500 else
    match case_by_id db id with None => Status 404 | Some c => Reply (case_detail c None []) end).

Definition list_signals db (r : request) (limit : option Z) (ok : bool) : reply (list SignalRow) :=
  of_workspace (v_auth db) r (λ ws, answer ok (signal_row false <$> page (list_limit 500 limit) (signals_of db ws None))).

Definition signal_rejections db (r : request) (limit : option Z) (ok : bool) : reply (list RejectionRow) :=
  of_workspace (v_auth db) r (λ ws,
    rejections (page (list_limit 500 limit) (newest evaluated_at (rejected_of db ws))) ok id).

Definition list_clusters db (r : request) (ok : bool) : auth_db * reply (list (Z * Z)) :=
  panel db r (λ _, answer ok (fst <$> clusters_page db)).

Definition panel_health db (r : request) (latency : result f64) : auth_db * reply HealthView :=
  panel db r (λ _, Reply (health_view db latency None)).

(** ** Metrics *)

Definition hour : Z := 3600 * 10 ^ 9.

(** [date_trunc('hour', t)]. *)
Definition trunc_hour (t : Z) : Z := t - t mod hour.

Definition buckets {A} (at_ : A → Z) (rows : list A) : list Z :=
  stable_sort Z.leb (remove_dups (trunc_hour ∘ at_ <$> rows)).

(** COUNT( * ) FILTER of the rows of an hour. *)
Definition count_in {A} (at_ : A → Z) (p : A → bool) (rows : list A) (t : Z) : Z :=
  Z.of_nat (length (List.filter (λ x, (trunc_hour (at_ x) =? t) && p x) rows)).

Definition signals_timeline db (r : request) (hours : option Z) (now : option Z) : reply (list (Z * Z * Z)) :=
  of_workspace (v_auth db) r (λ ws,
    match now with
    | None => Status 500
    | Some now =>
        let rows := List.filter (λ e, (ev_workspace e =? ws) && (now - clamp_hours hours 24 * hour <? evaluated_at e))
                      (evaluations (v_evals db)) in
        let n st := count_in evaluated_at (λ e, bool_decide (status e = st)) rows in
        Reply ((λ t, (t, n "accepted" t, n "rejected" t)) <$> buckets evaluated_at rows)
    end).

Definition case_at (c : ViewCase J D) : Z := CaseRow.updated_at (vc_row c).

Definition radar_trend db (r : request) (hours : option Z) (now : option Z) : auth_db * reply (list (Z * Z * Z * Z)) :=
  panel db r (λ _,
    match now with
    | None => Status 500
    | Some now =>
        let rows := List.filter (λ c, now - clamp_hours hours 48 * hour <? case_at c) (v_cases db) in
        let n st := count_in case_at (in_stage (Some st)) rows in
        Reply ((λ t, (t, n "funded" t, n "preparation" t, n "deployed" t)) <$> buckets case_at rows)
    end).

Record Overview := MkOverview {
  ov_wallets : Z;
  ov_tokens : Z;
  ov_clusters : Z;
  ov_signals_24h : Z;
  ov_radar_open : Z;
  ov_transfers_24h : Z;
}.

Definition count {A} (p : A → bool) (l : list A) : Z := Z.of_nat (length (List.filter p l)).

(** Six queries: of the workspace only the fourth. *)
Definition metrics_overview db (r : request) (ok : nat → bool) (signals_now transfers_now : Z) : reply Overview :=
  of_workspace (v_auth db) r (λ ws,
    if forallb ok (seq 0 6) then
      Reply (MkOverview (Z.of_nat (size (lt_wallets (v_labels db)))) (Z.of_nat (length (v_tokens db)))
        (Z.of_nat (length (v_clusters db)))
        (count (λ s, (sig_workspace s =? ws) && (signals_now - 24 * hour <? created_at s)) (signals (v_evals db)))
        (count (λ c, negb (contains (CaseRow.stage (vc_row c)) ["dismissed"; "deployed"])) (v_cases db))
        (count (λ t, transfers_now - 24 * hour <? t) (v_transfers db)))
    else Status 500).

(** ** Pages *)

Inductive dashboard := DashboardPage | ToLogin | DashboardError.

Definition read_api_dashboard : dashboard := DashboardPage.

(** Whether the session of the cookie is valid, as the dashboard and the status
    ask; a failure of the check is an error. *)
Definition authenticated db (r : request) : auth_db * result bool :=
  match session_token (rq_cookie r) with
  | Some token => validate_session sha256_hex (v_auth db) (rq_auth r) token
  | None => (v_auth db, ROk false)
  end.

Definition serve_dashboard db (r : request) : auth_db * dashboard :=
  match admin_hash with
  | None => (v_auth db, DashboardPage)
  | Some _ =>
      match authenticated db r with
      | (a, ROk true) => (a, DashboardPage)
      | (a, ROk false) => (a, ToLogin)
      | (a, RErr _) => (a, DashboardError)
      end
  end.

(** Configured, authenticated. *)
Definition auth_status db (r : request) : auth_db * reply (bool * bool) :=
  match admin_hash with
  | None => (v_auth db, Reply (false, true))
  | Some _ =>
      match authenticated db r with
      | (a, ROk ok) => (a, Reply (true, ok))
      | (a, RErr _) => (a, Status 500)
      end
  end.
End views.

(** ** Tenants *)

Lemma filter_agree {A} (P Q : A → bool) l1 l2 :
  (∀ x, P x = true → Q x = true) → List.filter Q l1 = List.filter Q l2 → List.filter P l1 = List.filter P l2.
Proof. intros HPQ E. by rewrite <-(filter_within P Q l1 HPQ), <-(filter_within P Q l2 HPQ), E. Qed.

Definition own_recent (ws : Z) (s : store) : store := List.filter (λ r, bool_decide (row_workspace r = ws)) s.

Lemma timeline_own now s1 s2 ws token window :
  own_recent ws s1 = own_recent ws s2 → fetch_recent_timeline now s1 ws token window = fetch_recent_timeline now s2 ws token window.
Proof.
  intros E. assert (current_coverage s1 ws token = current_coverage s2 ws token) as Ec.
  { unfold current_coverage. f_equal. f_equal. eapply filter_agree; [|exact E]. intros x. rewrite !andb_true_iff. by intros [[? _] _]. }
  unfold fetch_recent_timeline. rewrite Ec. f_equal. f_equal. eapply filter_agree; [|exact E]. intros x. rewrite !andb_true_iff.
  by intros [[? _] _].
Qed.

Lemma existsb_within {A} (P Q : A → bool) l : (∀ x, P x = true → Q x = true) → existsb P (List.filter Q l) = existsb P l.
Proof.
  intros HPQ. induction l as [|x l IH]; [done|]. cbn [List.filter existsb]. destruct (Q x) eqn:EQ; cbn [existsb]; [by rewrite IH|].
  destruct (P x) eqn:EP; [by rewrite HPQ in EQ|done].
Qed.

Lemma relations_own s1 s2 ws token :
  own_recent ws s1 = own_recent ws s2 → fetch_relations s1 ws token = fetch_relations s2 ws token.
Proof.
  intros E.
  assert (∀ e, row_workspace e = ws → existsb (retracts e) s1 = existsb (retracts e) s2) as Hr.
  { intros e He. assert (∀ x, retracts e x = true → bool_decide (row_workspace x = ws) = true) as HQ.
    { intros x. unfold retracts. rewrite He. by intros [? _]%andb_true_iff. }
    rewrite <-(existsb_within _ _ s1 HQ), <-(existsb_within _ _ s2 HQ). unfold own_recent in E. by rewrite E. }
  unfold fetch_relations, relation_rows. f_equal. f_equal. f_equal.
  etransitivity; [symmetry; apply (filter_within _ (λ r, bool_decide (row_workspace r = ws)))|].
  { intros x. rewrite !andb_true_iff. by intros [[[[? _] _] _] _]. }
  etransitivity; [|apply (filter_within _ (λ r, bool_decide (row_workspace r = ws)))].
  2: { intros x. rewrite !andb_true_iff. by intros [[[[? _] _] _] _]. }
  unfold own_recent in E. rewrite E. apply List.filter_ext_in. intros e He.
  apply list_elem_of_In, elem_of_lfilter in He as [_ He%bool_decide_eq_true]. by rewrite Hr.
Qed.

Section tenancy.
Context {J D : Type} `{DecimalNum D}.
Context (sha256_hex : string → string).
Set Default Proof Using "Type".
Implicit Types (db : view_db J D).

(** What a workspace may see of two databases agrees. *)
Record same_tenant (ws : Z) db1 db2 : Prop := {
  st_auth : v_auth db1 = v_auth db2;
  st_wallets : lt_wallets (v_labels db1) = lt_wallets (v_labels db2);
  st_labels : own_rows ws (v_labels db1) = own_rows ws (v_labels db2);
  st_recent : own_recent ws (v_recent db1) = own_recent ws (v_recent db2);
  st_signals : List.filter (λ s, sig_workspace s =? ws) (signals (v_evals db1))
               = List.filter (λ s, sig_workspace s =? ws) (signals (v_evals db2));
  st_evaluations : List.filter (λ e, ev_workspace e =? ws) (evaluations (v_evals db1))
                   = List.filter (λ e, ev_workspace e =? ws) (evaluations (v_evals db2));
}.

Lemma disposition_own t1 t2 now ws chain address :
  own_rows ws t1 = own_rows ws t2 →
  active_disposition (policy_view t1) now ws chain address = active_disposition (policy_view t2) now ws chain address.
Proof.
  intros E. assert (∀ t, List.filter (label_active now ws chain address) (labels (policy_view t))
    = le_label <$> List.filter (λ e, label_active now ws chain address (le_label e)) (lt_rows t)) as Hf
    by (intros t; apply List.filter_map_swap).
  unfold active_disposition. rewrite !Hf. f_equal. f_equal. f_equal.
  eapply filter_agree; [|exact E]. intros e. unfold label_active. rewrite !andb_true_iff. by intros [[[[? _] _] _] _].
Qed.

Lemma dispositions_own db1 db2 first ws clock i rows :
  same_tenant ws db1 db2 → with_dispositions db1 first ws clock i rows = with_dispositions db2 first ws clock i rows.
Proof.
  intros Hs. revert i. induction rows as [|[[chain address] w] rows IH]; intros i; [done|]. cbn [with_dispositions].
  destruct (clock i) as [now|]; [|done]. rewrite (disposition_own _ (v_labels db2)) by apply (st_labels _ _ _ Hs).
  destruct (active_disposition _ _ _ _ _); [|done]. by rewrite IH.
Qed.

Lemma wallets_own db1 db2 ws chain keep : same_tenant ws db1 db2 → wallets_of db1 chain keep = wallets_of db2 chain keep.
Proof. intros Hs. unfold wallets_of. by rewrite (st_wallets _ _ _ Hs). Qed.

Lemma labels_of_own t1 t2 ws chain address : own_rows ws t1 = own_rows ws t2 → labels_of t1 ws chain address = labels_of t2 ws chain address.
Proof.
  intros E. unfold labels_of. f_equal. eapply filter_agree; [|exact E]. intros e. unfold label_of. rewrite !andb_true_iff. by intros [[? _] _].
Qed.

Lemma signals_own db1 db2 ws kind : same_tenant ws db1 db2 → signals_of db1 ws kind = signals_of db2 ws kind.
Proof.
  intros Hs. unfold signals_of. f_equal. eapply filter_agree; [|exact (st_signals _ _ _ Hs)]. intros s. rewrite andb_true_iff. by intros [? _].
Qed.

Lemma rejected_own db1 db2 ws : same_tenant ws db1 db2 → rejected_of db1 ws = rejected_of db2 ws.
Proof.
  intros Hs. unfold rejected_of. eapply filter_agree; [|exact (st_evaluations _ _ _ Hs)]. intros s. rewrite andb_true_iff. by intros [? _].
Qed.

Lemma scoped_own {A} db1 db2 cookie at_ ws (k1 k2 : Z → reply A) :
  same_tenant ws db1 db2 → require_workspace sha256_hex (v_auth db1) at_ cookie = inl ws → k1 ws = k2 ws →
  scoped sha256_hex db1 cookie at_ k1 = scoped sha256_hex db2 cookie at_ k2.
Proof. intros Hs Hw E. unfold scoped. rewrite <-(st_auth _ _ _ Hs), Hw. exact E. Qed.

(** Claim C23: The six views of the read API that are scoped to the workspace of the
    session answer two databases alike that agree on the rows of that workspace,
    whatever every other tenant has; without such a session they answer 401 or
    500 and nothing else. *)
Theorem read_api_isolates_tenants db1 db2 cookie at_ ws chain address mint window limit kind zlimit ok now clock :
  (same_tenant ws db1 db2 → require_workspace sha256_hex (v_auth db1) at_ cookie = inl ws →
     api_wallets sha256_hex db1 cookie at_ chain zlimit ok clock = api_wallets sha256_hex db2 cookie at_ chain zlimit ok clock
     ∧ api_wallet_labels sha256_hex db1 cookie at_ address mint now = api_wallet_labels sha256_hex db2 cookie at_ address mint now
     ∧ api_token_recent sha256_hex db1 cookie at_ address mint window now = api_token_recent sha256_hex db2 cookie at_ address mint window now
     ∧ api_token_relations sha256_hex db1 cookie at_ address mint ok = api_token_relations sha256_hex db2 cookie at_ address mint ok
     ∧ api_signals sha256_hex db1 cookie at_ kind limit ok = api_signals sha256_hex db2 cookie at_ kind limit ok
     ∧ api_signal_rejections sha256_hex db1 cookie at_ limit ok = api_signal_rejections sha256_hex db2 cookie at_ limit ok)
  ∧ (∀ g, require_workspace sha256_hex (v_auth db1) at_ cookie = inr g →
     api_wallets sha256_hex db1 cookie at_ chain zlimit ok clock = Status (guard_code g)
     ∧ api_wallet_labels sha256_hex db1 cookie at_ address mint now = Status (guard_code g)
     ∧ api_token_recent sha256_hex db1 cookie at_ address mint window now = Status (guard_code g)
     ∧ api_token_relations sha256_hex db1 cookie at_ address mint ok = Status (guard_code g)
     ∧ api_signals sha256_hex db1 cookie at_ kind limit ok = Status (guard_code g)
     ∧ api_signal_rejections sha256_hex db1 cookie at_ limit ok = Status (guard_code g) ∧ guard_code g ∈ [401; 500]).
Proof.
  split.
  - intros Hs Hw. split_and!; eapply scoped_own; try done.
    + destruct (query_chain chain); [|done]. rewrite (wallets_own db1 db2 ws) by done. destruct ok; [|done]. by apply dispositions_own.
    + unfold on_chain. destruct (ChainKind.parse address); [|done]. by rewrite (labels_of_own _ (v_labels db2)) by apply (st_labels _ _ _ Hs).
    + unfold on_chain. destruct (ChainKind.parse address); [|done]. cbv zeta. destruct now; [|done].
      by rewrite (timeline_own _ _ _ ws _ _ (st_recent _ _ _ Hs)).
    + unfold on_chain. destruct (ChainKind.parse address); [|done]. by rewrite (relations_own _ _ ws _ (st_recent _ _ _ Hs)).
    + by rewrite (signals_own db1 db2).
    + by rewrite (rejected_own db1 db2).
  - intros g Hg. unfold api_wallets, api_wallet_labels, api_token_recent, api_token_relations, api_signals, api_signal_rejections, scoped.
    rewrite Hg. split_and!; try done. unfold require_workspace in Hg.
    destruct (session_token cookie); [|injection Hg as <-; set_solver].
    destruct (workspace_for_session _ _ _ _) as [[]|]; [done|..]; injection Hg as <-; set_solver.
Qed.

Context (ilike : string → string → bool) (admin_hash : option string).

(** The panel's views of the same rows, after its own guard. *)
Theorem panel_isolates_tenants db1 db2 r ws chain address mint window zlimit q ok hours now clock :
  same_tenant ws db1 db2 →
  require_workspace sha256_hex (require_auth sha256_hex admin_hash (v_auth db1) (rq_auth r) (rq_cookie r)).1 (rq_workspace r) (rq_cookie r) = inl ws →
  require_workspace sha256_hex (v_auth db1) (rq_workspace r) (rq_cookie r) = inl ws →
  list_wallets sha256_hex ilike admin_hash db1 r chain zlimit q ok clock = list_wallets sha256_hex ilike admin_hash db2 r chain zlimit q ok clock
  ∧ token_recent sha256_hex admin_hash db1 r address mint window now = token_recent sha256_hex admin_hash db2 r address mint window now
  ∧ token_relations sha256_hex admin_hash db1 r address mint ok = token_relations sha256_hex admin_hash db2 r address mint ok
  ∧ list_signals sha256_hex db1 r zlimit ok = list_signals sha256_hex db2 r zlimit ok
  ∧ signal_rejections sha256_hex db1 r zlimit ok = signal_rejections sha256_hex db2 r zlimit ok
  ∧ signals_timeline sha256_hex db1 r hours now = signals_timeline sha256_hex db2 r hours now.
Proof.
  intros Hs Hw Hw0.
  unfold list_wallets, token_recent, token_relations, list_signals, signal_rejections, signals_timeline, panel, of_workspace.
  rewrite <-(st_auth _ _ _ Hs), Hw0. destruct (require_auth _ _ _ _ _) as [a g]. cbn [fst] in Hw. rewrite Hw.
  unfold on_chain. split_and!; try (destruct g; try done; [f_equal]).
  - destruct (query_chain chain); [|done]. rewrite (wallets_own db1 db2 ws) by done. destruct ok; [|done]. by apply dispositions_own.
  - destruct (ChainKind.parse address); [|done]. cbv zeta. destruct now; [|done].
    by rewrite (timeline_own _ _ _ ws _ _ (st_recent _ _ _ Hs)).
  - destruct (ChainKind.parse address); [|done]. by rewrite (relations_own _ _ ws _ (st_recent _ _ _ Hs)).
  - by rewrite (signals_own db1 db2).
  - by rewrite (rejected_own db1 db2).
  - destruct now as [now|]; [|done]. cbv zeta.
    rewrite (filter_agree _ (λ e, ev_workspace e =? ws) _ (evaluations (v_evals db2))); [done| |apply (st_evaluations _ _ _ Hs)].
    intros e. rewrite andb_true_iff. by intros [? _].
Qed.
End tenancy.

(** ** What is not scoped *)

Section radar.
Context {J D : Type}.
Set Default Proof Using "Type".

Lemma text_limit_500 : text_limit (Some "500") = 500.
Proof. reflexivity. Qed.

(** The radar cases of every workspace are shown to a request that carries no
    session: each case of the table is in the list, with its evidence and its
    events under its id. *)
Theorem radar_cases_unscoped (db : view_db J D) (c : ViewCase J D) (Hc : c ∈ v_cases db)
    (Hfew : (length (v_cases db) <= 500)%nat) :
  (∃ l, api_radar_cases db None (Some "500") true = Reply l ∧ case_view c ∈ l ∧ length l = length (v_cases db))
  ∧ (case_by_id db (CaseRow.id (vc_row c)) = Some c →
     api_radar_case db (CaseRow.id (vc_row c)) (λ _, true)
     = Reply (case_detail c (Some (CaseRow.updated_at (vc_row c))) (events_of db (CaseRow.id (vc_row c))))).
Proof.
  split.
  - eexists. split; [reflexivity|]. rewrite text_limit_500. unfold cases_page, page, newest.
    set (l := stable_sort _ _).
    assert (l ≡ₚ v_cases db) as Hl.
    { unfold l. rewrite stable_sort_perm. clear. by induction (v_cases db) as [|x xs IH]; cbn; [|rewrite IH]. }
    rewrite take_ge by (rewrite Hl; change (Z.to_nat 500) with 500%nat; lia). split.
    + apply list_elem_of_fmap_2. by rewrite Hl.
    + by rewrite length_fmap, Hl.
  - intros Hid. unfold api_radar_case. cbn [negb]. by rewrite Hid.
Qed.

(** The health endpoint says "ok" whatever it could read. *)
Theorem health_always_ok (db : view_db J D) latency : ∃ v, api_health db latency = Reply v ∧ hv_status v = "ok".
Proof. eexists. by split. Qed.
End radar.

(** ** Pages *)

Lemma newest_is_sorted {A} (at_ : A → Z) l : StronglySorted (λ a b, at_ b <= at_ a) (newest at_ l).
Proof.
  eapply StronglySorted_weaken; [|apply (stable_sort_sorted (λ a b, at_ b <=? at_ a))].
  - intros a b Hab. by apply Z.leb_le.
  - intros a b. destruct (Z.leb_spec (at_ b) (at_ a)); [by left|right; lia].
  - intros a b c H1%Z.leb_le H2%Z.leb_le. apply Z.leb_le. lia.
Qed.

(** A page is the newest rows: as many as the limit allows, in order, and none
    it leaves out is newer than one it shows. *)
Lemma newest_page {A} (at_ : A → Z) n l : 0 <= n →
  ∃ rest, page n (newest at_ l) ++ rest ≡ₚ l
    ∧ length (page n (newest at_ l)) = Nat.min (Z.to_nat n) (length l)
    ∧ StronglySorted (λ a b, at_ b <= at_ a) (page n (newest at_ l))
    ∧ ∀ x y, x ∈ page n (newest at_ l) → y ∈ rest → at_ y <= at_ x.
Proof.
  intros Hn. exists (drop (Z.to_nat n) (newest at_ l)). unfold page. pose proof (newest_is_sorted at_ l) as Hs.
  rewrite <-(take_drop (Z.to_nat n) (newest at_ l)) in Hs. apply StronglySorted_app in Hs as (H1 & H2 & H3).
  split_and!; [|by rewrite length_take; unfold newest; rewrite length_stable_sort|done|exact H1].
  rewrite take_drop. apply stable_sort_perm.
Qed.

Section pages.
Context {J D : Type} (sha256_hex : string → string).
Set Default Proof Using "Type".
Implicit Types (db : view_db J D).

(** The signals answered are the newest of the workspace of the kind asked for,
    at most as many as the limit, which is between 1 and 500. *)
Theorem signals_page db cookie at_ ws kind limit :
  require_workspace sha256_hex (v_auth db) at_ cookie = inl ws →
  ∃ shown rest, api_signals sha256_hex db cookie at_ kind limit true = Reply (signal_row true <$> shown)
    ∧ shown ++ rest ≡ₚ List.filter (λ s, (sig_workspace s =? ws) && match kind with None => true | Some k => bool_decide (sig_kind s = k) end)
                        (signals (v_evals db))
    ∧ length shown = Nat.min (Z.to_nat (text_limit limit)) (length (shown ++ rest))
    ∧ 1 <= text_limit limit <= 500
    ∧ StronglySorted (λ a b, created_at b <= created_at a) shown
    ∧ ∀ x y, x ∈ shown → y ∈ rest → created_at y <= created_at x.
Proof.
  intros Hw. assert (1 <= text_limit limit <= 500) as Hl by (unfold text_limit, clamp; lia).
  destruct (newest_page created_at (text_limit limit) (List.filter (λ s, (sig_workspace s =? ws)
    && match kind with None => true | Some k => bool_decide (sig_kind s = k) end) (signals (v_evals db)))) as (rest & H1 & H2 & H3 & H4); [lia|].
  exists (page (text_limit limit) (signals_of db ws kind)), rest. unfold api_signals, scoped. rewrite Hw. cbn [answer].
  split_and!; try done; try lia. unfold signals_of. by rewrite H1.
Qed.

(** The read API leaves out the rejections without a code and so never fails on
    one; the panel fails on the whole page. *)
Theorem null_code_fails_the_panel db cookie at_ r ws limit zlimit :
  require_workspace sha256_hex (v_auth db) at_ cookie = inl ws →
  require_workspace sha256_hex (v_auth db) (rq_workspace r) (rq_cookie r) = inl ws →
  (∃ l, api_signal_rejections sha256_hex db cookie at_ limit true = Reply l)
  ∧ (signal_rejections sha256_hex db r zlimit true = Status 500
     ↔ ∃ e, e ∈ page (list_limit 500 zlimit) (newest evaluated_at (rejected_of db ws)) ∧ rejection_code e = None).
Proof.
  intros Hw Hr. unfold api_signal_rejections, signal_rejections, scoped, of_workspace, rejections, decode_rejections. rewrite Hw, Hr.
  assert (∀ l : list (Evaluation (D := D)), mapM (λ e, rejection_row e <$> rejection_code e) l = None ↔ ∃ e, e ∈ l ∧ rejection_code e = None) as Hm.
  { induction l as [|e l IH]; [split; [done|by intros (? & ?%not_elem_of_nil & _)]|]. cbn.
    destruct (rejection_code e) as [c|] eqn:Ec; cbn.
    - destruct (mapM _ l) as [ys|]; cbn.
      + split; [done|]. intros (x & [->|Hx]%elem_of_cons & Hn); [congruence|]. exfalso. by enough (Some ys = None) by done; apply IH; exists x.
      + split; [|done]. intros _. destruct (proj1 IH eq_refl) as (x & Hx & Hn). exists x. split; [by right|done].
    - split; [|done]. intros _. exists e. split; [by left|done]. }
  split.
  - destruct (mapM _ _) as [l|] eqn:E; [by exists l|]. exfalso. apply Hm in E as (e & He & Hn). unfold page in He.
    apply elem_of_take_l in He. unfold newest in He. rewrite elem_of_stable_sort, elem_of_lfilter in He.
    destruct He as [_ Hc%bool_decide_eq_true]. rewrite Hn in Hc. by destruct Hc.
  - rewrite <-Hm. by destruct (mapM _ _).
Qed.
End pages.

Section wallets.
Context {J D : Type} (sha256_hex : string → string).
Set Default Proof Using "Type".
Implicit Types (db : view_db J D).

(** A wallet is only ever shown with the disposition its lookup answered: one
    failed lookup fails the page. *)
Theorem shown_wallets_classified db cookie at_ chain limit ok clock rows :
  api_wallets sha256_hex db cookie at_ chain limit ok clock = Reply rows →
  ∃ ws, require_workspace sha256_hex (v_auth db) at_ cookie = inl ws ∧ Z.of_nat (length rows) <= 500
    ∧ ∀ row, row ∈ rows → ∃ i now, clock i = Some now
        ∧ active_disposition (policy_view (v_labels db)) now ws (wr_chain row) (wr_address row) = ROk (wr_disposition row).
Proof.
  unfold api_wallets, scoped. destruct (require_workspace _ _ _ _) as [ws|]; [|done]. destruct (query_chain chain); [|done].
  destruct ok; [|done]. set (l := page _ _). intros Hr. exists ws. split; [done|].
  assert (length l <= 500)%nat as Hl.
  { unfold l, page. rewrite length_take. unfold list_limit, clamp. change 500%nat with (Z.to_nat 500). lia. }
  clearbody l. assert (∀ i, with_dispositions db true ws clock i l = Reply rows → length rows = length l
    ∧ ∀ row, row ∈ rows → ∃ i now, clock i = Some now
        ∧ active_disposition (policy_view (v_labels db)) now ws (wr_chain row) (wr_address row) = ROk (wr_disposition row)) as Hw.
  { clear. revert rows. induction l as [|[[ch ad] w] l IH]; intros rows i; cbn [with_dispositions].
    - intros [= <-]. split; [done|]. intros row Hrow. by apply not_elem_of_nil in Hrow.
    - destruct (clock i) as [now|] eqn:Ec; [|done]. destruct (active_disposition _ _ _ _ _) as [d|] eqn:Ed; [|done].
      destruct (with_dispositions _ _ _ _ _ _) as [out|] eqn:E; [|done]. intros [= <-]. destruct (IH _ _ E) as [Hn Hall]. split; [cbn; lia|].
      intros row [->|Hrow]%elem_of_cons; [by exists i, now|by apply Hall]. }
  destruct (Hw _ Hr) as [-> Hall]. split; [lia|done].
Qed.
End wallets.

(** ** The timeline *)

Fixpoint sum_by {A} (f : A → Z) (l : list A) : Z := match l with [] => 0 | x :: l => f x + sum_by f l end.

Lemma count_in_cons {A} (at_ : A → Z) p x rows t :
  count_in at_ p (x :: rows) t = (if (trunc_hour (at_ x) =? t) && p x then 1 else 0) + count_in at_ p rows t.
Proof. unfold count_in. cbn [List.filter]. destruct (_ && _); cbn [length]; lia. Qed.

Lemma sum_one (k v : Z) ks : NoDup ks → k ∈ ks → sum_by (λ t, if k =? t then v else 0) ks = v.
Proof.
  intros Hnd Hk. induction Hnd as [|t ks Ht Hnd IH]; [by apply not_elem_of_nil in Hk|]. cbn.
  apply elem_of_cons in Hk as [->|Hk].
  - rewrite Z.eqb_refl. enough (sum_by (λ t0, if t =? t0 then v else 0) ks = 0) by lia.
    clear IH Hnd. induction ks as [|u ks IH]; [done|]. cbn. rewrite not_elem_of_cons in Ht. destruct Ht as [Hne Ht].
    rewrite (proj2 (Z.eqb_neq t u)) by done. by rewrite IH.
  - rewrite (proj2 (Z.eqb_neq k t)) by (by intros ->). by apply IH.
Qed.

Lemma sum_counts {A} (at_ : A → Z) p rows ks :
  NoDup ks → (∀ x, x ∈ rows → trunc_hour (at_ x) ∈ ks) → sum_by (count_in at_ p rows) ks = count p rows.
Proof.
  intros Hnd. induction rows as [|x rows IH]; intros Hin.
  { clear. induction ks as [|k ks IH]; [done|]. cbn. by rewrite IH. }
  assert (sum_by (count_in at_ p (x :: rows)) ks
    = sum_by (λ t, if trunc_hour (at_ x) =? t then (if p x then 1 else 0) else 0) ks + sum_by (count_in at_ p rows) ks) as ->.
  { clear. induction ks as [|k ks IH]; [done|]. cbn. rewrite IH, count_in_cons.
    destruct (_ =? k); cbn; destruct (p x); lia. }
  rewrite sum_one by (done || apply Hin; by left). rewrite IH by (intros y Hy; apply Hin; by right).
  unfold count. cbn [List.filter]. destruct (p x); cbn [length]; lia.
Qed.

Lemma buckets_spec {A} (at_ : A → Z) rows :
  NoDup (buckets at_ rows) ∧ StronglySorted Z.le (buckets at_ rows) ∧ ∀ t, t ∈ buckets at_ rows ↔ ∃ x, x ∈ rows ∧ trunc_hour (at_ x) = t.
Proof.
  unfold buckets. split_and!.
  - rewrite stable_sort_perm. apply NoDup_remove_dups.
  - eapply StronglySorted_weaken; [|apply stable_sort_sorted]; [by intros a b Hab%Z.leb_le| |].
    + intros a b. destruct (Z.leb_spec a b); [by left|right; apply Z.leb_le; lia].
    + intros a b c H1%Z.leb_le H2%Z.leb_le. apply Z.leb_le. lia.
  - intros t. rewrite elem_of_stable_sort, elem_of_remove_dups, list_elem_of_fmap. split; [intros (x & -> & ?); by exists x|intros (x & ? & <-); by exists x].
Qed.

(** The hours of the timeline are distinct, in order and each of them has an
    evaluation; the counts add up to those of the workspace in the window. *)
Theorem timeline_adds_up {J D} sha256_hex (db : view_db J D) r ws hours now :
  require_workspace sha256_hex (v_auth db) (rq_workspace r) (rq_cookie r) = inl ws →
  let recent e := (ev_workspace e =? ws) && (now - clamp_hours hours 24 * hour <? evaluated_at e) in
  ∃ rows, signals_timeline sha256_hex db r hours (Some now) = Reply rows
    ∧ NoDup rows.*1.*1 ∧ StronglySorted Z.le rows.*1.*1
    ∧ (∀ t, t ∈ rows.*1.*1 → t mod hour = 0 ∧ ∃ e, e ∈ evaluations (v_evals db) ∧ recent e = true ∧ t <= evaluated_at e < t + hour)
    ∧ sum_by (λ x, x.1.2) rows = count (λ e, recent e && bool_decide (status e = "accepted")) (evaluations (v_evals db))
    ∧ sum_by (λ x, x.2) rows = count (λ e, recent e && bool_decide (status e = "rejected")) (evaluations (v_evals db)).
Proof.
  intros Hw recent. unfold signals_timeline, of_workspace. rewrite Hw. fold recent. eexists. split; [reflexivity|].
  set (rows := List.filter recent _). destruct (buckets_spec evaluated_at rows) as (Hnd & Hs & Hin).
  assert (∀ f : Z → Z * Z * Z, (∀ t, (f t).1.1 = t) → (f <$> buckets evaluated_at rows).*1.*1 = buckets evaluated_at rows) as Hk.
  { intros f Hf. rewrite <-!list_fmap_compose. rewrite <-(list_fmap_id (buckets evaluated_at rows)) at 2. apply list_fmap_ext. intros i t _. apply Hf. }
  rewrite Hk by done. split_and!; [done|done| | |].
  - intros t Ht. apply Hin in Ht as (e & He & <-). apply elem_of_lfilter in He as [He Hr]. unfold trunc_hour.
    split; [apply Z.mod_divide; [done|]; exists (evaluated_at e / hour); rewrite (Z.div_mod (evaluated_at e) hour) at 1 by done; lia|].
    exists e. split_and!; try done; pose proof (Z.mod_pos_bound (evaluated_at e) hour ltac:(done)); lia.
  - assert (∀ p, sum_by (λ x : Z * Z * Z, x.1.2) ((λ t, (t, count_in evaluated_at p rows t, count_in evaluated_at (λ e, bool_decide (status e = "rejected")) rows t)) <$> buckets evaluated_at rows)
      = sum_by (count_in evaluated_at p rows) (buckets evaluated_at rows)) as ->
      by (intros p; generalize (buckets evaluated_at rows) as ks; induction ks as [|k ks IH]; [done|]; cbn in *; by rewrite IH).
    rewrite sum_counts; [|done|intros e He; apply Hin; by exists e]. unfold count, rows. f_equal. f_equal.
    by rewrite filter_conj.
  - assert (∀ p, sum_by (λ x : Z * Z * Z, x.2) ((λ t, (t, count_in evaluated_at (λ e, bool_decide (status e = "accepted")) rows t, count_in evaluated_at p rows t)) <$> buckets evaluated_at rows)
      = sum_by (count_in evaluated_at p rows) (buckets evaluated_at rows)) as ->
      by (intros p; generalize (buckets evaluated_at rows) as ks; induction ks as [|k ks IH]; [done|]; cbn in *; by rewrite IH).
    rewrite sum_counts; [|done|intros e He; apply Hin; by exists e]. unfold count, rows. f_equal. f_equal.
    by rewrite filter_conj.
Qed.

(** ** Concrete views *)

Definition a_signal (id : nat) (ws : Z) (at_ : Z) : Signal (D := Qc) :=
  MkSignal id ws "solana" "M" "entry" at_ 70 "active" (ExitEvidence (MkExit 1 false false None false)).

Definition an_evaluation (ws : Z) (st : string) (code : option string) (at_ : Z) : Evaluation (D := Qc) :=
  MkEvaluation ws "solana" "M" "entry" at_ st code (ExitEvidence (MkExit 1 false false None false)).

Definition a_case (id ws : Z) : ViewCase json Qc :=
  MkViewCase (CaseRow.mk id ws "solana" "R" 1 None (Q2Qc 5) "S" None 0 9 "funded" 50 id None) JNull.

(** Workspace 7, and what another tenant adds. *)
Definition seven (more_signals : list (Signal (D := Qc))) (more_labels : list LabelEntry) : view_db json Qc :=
  MkView (MkAuth {["tok" := MkSession 100 None None None (Some 7)]} [] [])
    (MkLabelTable {[("solana", "W") := Wallet.mk 1 2 "x"]} (MkLabelEntry 1 5 (a_label 7) :: more_labels) 9) [] []
    [] (MkNarratives [] 1 []) [] [a_case 1 7; a_case 2 9] [] (MkDb ∅ [an_evaluation 7 "rejected" None 5; an_evaluation 7 "accepted" None (hour + 3)]
      (a_signal 0 7 1 :: more_signals ++ [a_signal 2 7 3])) ∅ [] [] [] small_db.

Lemma read_api_isolates_tenants_witness :
  let db1 := seven [] [] in
  let db2 := seven [a_signal 1 9 2] [MkLabelEntry 2 6 (a_label 9)] in
  signals (v_evals db1) ≠ signals (v_evals db2)
  ∧ api_signals id db1 (Some "swi_session=tok") (Some 10) None None true = api_signals id db2 (Some "swi_session=tok") (Some 10) None None true
  ∧ api_wallet_labels id db1 (Some "swi_session=tok") (Some 10) "sol" "W" (Some 8) = api_wallet_labels id db2 (Some "swi_session=tok") (Some 10) "sol" "W" (Some 8).
Proof.
  cbv zeta. split; [vm_compute; discriminate|].
  destruct (proj1 (read_api_isolates_tenants id (seven [] []) (seven [a_signal 1 9 2] [MkLabelEntry 2 6 (a_label 9)]) (Some "swi_session=tok") (Some 10) 7
    None "sol" "W" None None None None true (Some 8) (λ _, Some 8))) as (_ & H2 & _ & _ & H5 & _).
  - split; vm_compute; reflexivity.
  - vm_compute. reflexivity.
  - split; [exact H5|exact H2].
Defined.

(** The other tenant's case is shown to a request without a session. *)
Lemma radar_cases_unscoped_witness :
  ∃ l, api_radar_cases (seven [] []) None (Some "500") true = Reply l ∧ case_view (a_case 2 9) ∈ l ∧ length l = 2%nat.
Proof.
  refine (proj1 (radar_cases_unscoped (seven [] []) (a_case 2 9) _ _)).
  - right. left.
  - cbn. lia.
Defined.

Definition of_seven : request := MkRequest (Some "swi_session=tok") (Some 10) (Some 10).

Lemma null_code_fails_the_panel_witness :
  signal_rejections id (seven [] []) of_seven None true = Status 500
  ∧ ∃ l, api_signal_rejections id (seven [] []) (Some "swi_session=tok") (Some 10) None true = Reply l.
Proof.
  destruct (null_code_fails_the_panel id (seven [] []) (Some "swi_session=tok") (Some 10) of_seven 7 None None) as [H1 H2];
    [vm_compute; reflexivity..|]. split; [|exact H1].
  apply H2. exists (an_evaluation 7 "rejected" None 5). split; [vm_compute; left|done].
Defined.

Lemma timeline_adds_up_witness :
  ∃ rows, signals_timeline id (seven [] []) of_seven None (Some (hour + 9)) = Reply rows
    ∧ sum_by (λ x, x.1.2) rows = 1 ∧ sum_by (λ x, x.2) rows = 1.
Proof.
  destruct (timeline_adds_up id (seven [] []) of_seven 7 None (hour + 9)) as (rows & E & _ & _ & _ & H1 & H2); [vm_compute; reflexivity|].
  exists rows. split; [exact E|]. split; [rewrite H1|rewrite H2]; vm_compute; reflexivity.
Defined.

Example timeline_rows : signals_timeline id (seven [] []) of_seven None (Some (hour + 9)) = Reply [(0, 0, 1); (hour, 1, 0)].
Proof. vm_compute. reflexivity. Qed.

Example bad_parameters :
  text_limit (Some "abc") = 50 ∧ text_limit (Some "-3") = 1 ∧ text_limit (Some "900") = 500 ∧ clamp_hours (Some 1000) 24 = 168
  ∧ api_wallets id (seven [] []) (Some "swi_session=tok") (Some 10) (Some "bogus") None true (λ _, Some 8) = Status 400
  ∧ api_token_recent id (seven [] []) (Some "swi_session=tok") (Some 10) "sol" "M" (Some "2h") (Some 8) = Status 400
  ∧ api_token_recent id (seven [] []) None (Some 10) "sol" "M" None (Some 8) = Status 401.
Proof. vm_compute. done. Qed.
