(* ===== verification/CaseMerge.v ===== *)
(** * Preflight repairs (src/src/db.rs, before the migrations run)

    The three repairs of a database that predates the migrations that would
    abort on it: the nullability of alerts.sent_at, the alerts whose key names no
    workspace, and the duplicate funding cases.  [pg_int8] is PostgreSQL's
    bigint input, [None] where the text is not valid.  A repair in a transaction
    that fails leaves the database as it was; [commits] says whether its
    statements and its commit succeed, the unique key of alerts apart. *)
From Stdlib Require Import QArith.QArith_base QArith.Qcanon.
From stdpp Require Import base gmap sets list strings pretty.
From stdpp Require Import options.
From S2P Require Import Prelude Text Slices CostBasis Json Outbox Migrations FundingRadar.
Local Open Scope string_scope.
Local Open Scope Z_scope.
Local Open Scope list_scope.

(** ** The database *)

(** A row of alerts, under its dedup key. *)
Record LegacyAlert := MkLegacyAlert {
  la_workspace : option Z;
  la_case : option Z;
  la_state : AlertState;
  la_sent_at : option Z;
  la_next_attempt_at : option Z;
  la_claim_token : option string;
  la_claim_expires_at : option Z;
}.

(** A jsonb value: an object, or anything else. *)
Inductive case_evidence (J : Type) :=
  | EvObject (fields : gmap string J)
  | EvOther (value : J).
Arguments EvObject {_}. Arguments EvOther {_}.

Record MergeCase (J D : Type) := MkMergeCase { mc_row : CaseRow D; mc_evidence : case_evidence J }.
Arguments MkMergeCase {_ _}. Arguments mc_row {_ _}. Arguments mc_evidence {_ _}.

Record MergeEvent (J : Type) := MkMergeEvent { me_id : Z; me_case : Z; me_kind : string; me_observed_at : Z; me_evidence : J }.
Arguments MkMergeEvent {_}. Arguments me_id {_}. Arguments me_case {_}. Arguments me_kind {_}. Arguments me_observed_at {_}.
Arguments me_evidence {_}.

(** The catalog: which tables, columns and indexes there are; whether
    alerts.sent_at is nullable. *)
Record catalog := MkCatalog {
  has_alerts : bool;
  alerts_state : bool;
  alerts_claim_token : bool;
  alerts_workspace : bool;
  alerts_case : bool;
  sent_at_nullable : option bool;
  has_cases : bool;
  cases_workspace : bool;
  cases_tenant_index : bool;
}.

Record preflight_db (J D : Type) := MkPreflight {
  cat : catalog;
  alerts : gmap string LegacyAlert;
  workspaces : list (Z * string);
  next_workspace : Z;
  cases : list (MergeCase J D);
  events : list (MergeEvent J);
}.
Arguments MkPreflight {_ _}. Arguments cat {_ _}. Arguments alerts {_ _}. Arguments workspaces {_ _}.
Arguments next_workspace {_ _}. Arguments cases {_ _}. Arguments events {_ _}.

(** [split_part(s, ':', n)]. *)
Definition split_part (s : string) (n : nat) : string := default "" (split_on ":"%char s !! pred n).

Section preflight.
Context {J D : Type} (pg_int8 : string → option Z).
Local Abbreviation db_t := (preflight_db J D).
Implicit Types (db : db_t).

Definition with_cat db (c : catalog) : db_t :=
  MkPreflight c (alerts db) (workspaces db) (next_workspace db) (cases db) (events db).
Definition with_alerts db (a : gmap string LegacyAlert) : db_t :=
  MkPreflight (cat db) a (workspaces db) (next_workspace db) (cases db) (events db).
Definition with_cases db (cs : list (MergeCase J D)) : db_t :=
  MkPreflight (cat db) (alerts db) (workspaces db) (next_workspace db) cs (events db).

(** ** The nullability of sent_at *)

Definition unsent (a : LegacyAlert) : bool := negb (bool_decide (la_state a = AlertState.Sent)).

Definition some_alert db (p : string → LegacyAlert → bool) : bool :=
  existsb (λ e, p e.1 e.2) (map_to_list (alerts db)).

Definition preflight_repair_alerts_sent_at db (altered : bool) : db_t * result () :=
  let c := cat db in
  if negb (has_alerts c) || negb (alerts_state c) then (db, ROk ()) else
  match sent_at_nullable c with
  | Some false =>
      if negb (alerts_claim_token c) && some_alert db (λ _ a, unsent a && bool_decide (is_Some (la_sent_at a))) then
        if altered then
          (with_cat db (MkCatalog (has_alerts c) (alerts_state c) (alerts_claim_token c) (alerts_workspace c) (alerts_case c)
             (Some true) (has_cases c) (cases_workspace c) (cases_tenant_index c)), ROk ())
        else (db, RErr "alter table alerts")
      else (db, ROk ())
  | _ => (db, ROk ())
  end.

(** ** The owners of legacy keys *)

(** The positive bigints. *)
Definition safe_int8 (text : string) : bool := match pg_int8 text with Some v => 0 <? v | None => false end.

Definition unsafe_subject (key : string) (_ : LegacyAlert) : bool :=
  bool_decide (split_part key 1 = "funding") && negb (safe_int8 (split_part key 3)).

(** Without the column every alert is unassigned. *)
Definition unassigned (c : catalog) (a : LegacyAlert) : bool :=
  negb (alerts_workspace c) || bool_decide (la_workspace a = None).

Definition orphaned (c : catalog) (key : string) (a : LegacyAlert) : bool :=
  unassigned c a && negb (safe_int8 (split_part key 2)).

Definition default_workspace (ws : list (Z * string)) : option Z :=
  fst <$> find_first (λ w, bool_decide (w.2 = "default")) ws.

Definition assign (ws : option Z) (a : LegacyAlert) : LegacyAlert :=
  MkLegacyAlert ws (la_case a) (la_state a) (la_sent_at a) (la_next_attempt_at a) (la_claim_token a) (la_claim_expires_at a).

Definition preflight_repair_legacy_dedup_keys db (commits : bool) : db_t * result () :=
  let c := cat db in
  if negb (has_alerts c) then (db, ROk ()) else
  if some_alert db unsafe_subject then (db, RErr "subject segment that is not a 64-bit integer") else
  if negb (some_alert db (orphaned c)) then (db, ROk ()) else
  if negb commits then (db, RErr "preflight transaction failed") else
  let fresh := negb (bool_decide (is_Some (default_workspace (workspaces db)))) in
  let wss := if fresh then workspaces db ++ [(next_workspace db, "default")] else workspaces db in
  let c' := MkCatalog (has_alerts c) (alerts_state c) (alerts_claim_token c) true (alerts_case c) (sent_at_nullable c)
              (has_cases c) (cases_workspace c) (cases_tenant_index c) in
  (* the column added is null *)
  let added a := if alerts_workspace c then a else assign None a in
  (MkPreflight c' (map_imap (λ key a, Some (if orphaned c key a then assign (default_workspace wss) a else added a)) (alerts db)) wss
     (if fresh then next_workspace db + 1 else next_workspace db) (cases db) (events db), ROk ()).

(** ** The survivors *)

Definition case_id (c : MergeCase J D) : Z := CaseRow.id (mc_row c).

Definition group_key (by_workspace : bool) (c : MergeCase J D) : option Z * string * string :=
  (if by_workspace then Some (CaseRow.workspace_id (mc_row c)) else None, CaseRow.chain (mc_row c), CaseRow.recipient (mc_row c)).

Definition normalized (c : MergeCase J D) : MergeCase J D :=
  match mc_evidence c with
  | EvObject _ => c
  | EvOther j => MkMergeCase (mc_row c) (EvObject {["legacy_evidence" := j]})
  end.

Definition is_object (c : MergeCase J D) : bool := match mc_evidence c with EvObject _ => true | EvOther _ => false end.

Definition same_group (by_workspace : bool) (a b : MergeCase J D) : bool :=
  bool_decide (group_key by_workspace a = group_key by_workspace b).

(** [first_value(id)] of the group ordered by id. *)
Definition keep_of (by_workspace : bool) (cs : list (MergeCase J D)) (c : MergeCase J D) : Z :=
  foldr Z.min (case_id c) (case_id <$> List.filter (same_group by_workspace c) cs).

(** The ids merged away, each with the id kept. *)
Definition survivor_map (by_workspace : bool) (cs : list (MergeCase J D)) : list (Z * Z) :=
  omap (λ c, if case_id c =? keep_of by_workspace cs c then None else Some (case_id c, keep_of by_workspace cs c)) cs.

Definition keeper (m : list (Z * Z)) (id : Z) : Z :=
  match find_first (λ e, e.1 =? id) m with Some e => e.2 | None => id end.

(** The rows of the group of [keep]. *)
Definition members (m : list (Z * Z)) (cs : list (MergeCase J D)) (keep : Z) : list (MergeCase J D) :=
  List.filter (λ c, (case_id c =? keep) || existsb (λ e, (e.1 =? case_id c) && (e.2 =? keep)) m) cs.

(** ** The merge *)

Definition stage_rank (stage : string) : Z :=
  default 0 (pick [(["funded"], 1); (["preparation"], 2); (["deployed"], 3); (["dismissed"], 4)] stage).

Definition min_of (f : MergeCase J D → Z) (d : Z) (g : list (MergeCase J D)) : Z := foldr (λ c acc, Z.min (f c) acc) d g.
Definition max_of (f : MergeCase J D → Z) (d : Z) (g : list (MergeCase J D)) : Z := foldr (λ c acc, Z.max (f c) acc) d g.

(** ORDER BY first_funded_at, id. *)
Definition first_of (g : list (MergeCase J D)) : option (MergeCase J D) :=
  head (stable_sort (cmp_leb (cmp_then (cmp_by (λ c, CaseRow.first_funded_at (mc_row c)) Z.compare) (cmp_by case_id Z.compare))) g).

(** ORDER BY rank DESC, id DESC. *)
Definition furthest (g : list (MergeCase J D)) : option (MergeCase J D) :=
  head (stable_sort (cmp_leb (cmp_then (cmp_by (λ c, stage_rank (CaseRow.stage (mc_row c))) (cmp_rev Z.compare))
                                       (cmp_by case_id (cmp_rev Z.compare)))) g).

Definition last_reason (g : list (MergeCase J D)) : option string :=
  head (stable_sort (cmp_leb (cmp_then (cmp_by (λ c, CaseRow.updated_at (mc_row c)) (cmp_rev Z.compare))
                                       (cmp_by case_id (cmp_rev Z.compare))))
    (List.filter (λ c, bool_decide (CaseRow.stage (mc_row c) = "dismissed")
       && bool_decide (is_Some (CaseRow.dismissed_reason (mc_row c)))) g)) ≫= λ c, CaseRow.dismissed_reason (mc_row c).

Definition fields_of (c : MergeCase J D) : gmap string J := match mc_evidence c with EvObject m => m | EvOther _ => ∅ end.

(** Of each key the value of the row with the highest id. *)
Definition merged_evidence (g : list (MergeCase J D)) : gmap string J :=
  foldr (λ c acc, fields_of c ∪ acc) ∅ (stable_sort (cmp_leb (cmp_by case_id (cmp_rev Z.compare))) g).

Definition merge_row (c : MergeCase J D) (g : list (MergeCase J D)) : MergeCase J D :=
  match first_of g, furthest g with
  | Some f, Some s =>
      let r := mc_row c in
      let stage := CaseRow.stage (mc_row s) in
      MkMergeCase
        (CaseRow.mk (CaseRow.id r) (CaseRow.workspace_id r) (CaseRow.chain r) (CaseRow.recipient r)
           (min_of (λ c, CaseRow.first_funded_at (mc_row c)) (CaseRow.first_funded_at r) g)
           (CaseRow.first_funding_usd (mc_row f)) (CaseRow.first_funding_native (mc_row f))
           (CaseRow.source_address (mc_row f)) (CaseRow.source_kind (mc_row f))
           (max_of (λ c, CaseRow.fanout_count (mc_row c)) (CaseRow.fanout_count r) g)
           (max_of (λ c, CaseRow.deploy_window_ends_at (mc_row c)) (CaseRow.deploy_window_ends_at r) g)
           stage
           (max_of (λ c, CaseRow.confidence (mc_row c)) (CaseRow.confidence r) g)
           (max_of (λ c, CaseRow.updated_at (mc_row c)) (CaseRow.updated_at r) g)
           (if bool_decide (stage = "dismissed") then last_reason g else None))
        (EvObject (merged_evidence g))
  | _, _ => c
  end.

Definition is_keeper (m : list (Z * Z)) (id : Z) : bool := existsb (λ e, e.2 =? id) m.
Definition merged_away (m : list (Z * Z)) (id : Z) : bool := existsb (λ e, e.1 =? id) m.

Definition merge_cases (m : list (Z * Z)) (cs : list (MergeCase J D)) : list (MergeCase J D) :=
  (λ c, if is_keeper m (case_id c) then merge_row c (members m cs (case_id c)) else c)
    <$> List.filter (λ c, negb (merged_away m (case_id c))) cs.

Definition repoint_event (m : list (Z * Z)) (e : MergeEvent J) : MergeEvent J :=
  MkMergeEvent (me_id e) (keeper m (me_case e)) (me_kind e) (me_observed_at e) (me_evidence e).

(** ** The alerts *)

Definition repoint_alert (m : list (Z * Z)) (a : LegacyAlert) : LegacyAlert :=
  MkLegacyAlert (la_workspace a) (keeper m <$> la_case a) (la_state a) (la_sent_at a) (la_next_attempt_at a) (la_claim_token a)
    (la_claim_expires_at a).

(** Everything after the third colon. *)
Definition destination_part (key : string) : string :=
  str_drop (String.length (split_part key 1) + String.length (split_part key 2) + String.length (split_part key 3) + 3) key.

(** The new key of an alert of a case that is merged away. *)
Definition rekeyed (m : list (Z * Z)) (key : string) : option string :=
  if bool_decide (split_part key 1 = "funding") && safe_int8 (split_part key 3) then
    pg_int8 (split_part key 3) ≫= λ id,
    find_first (λ e, e.1 =? id) m ≫= λ e,
    let new := "funding:" +:+ split_part key 2 +:+ ":" +:+ pretty e.2 +:+ ":" +:+ destination_part key in
    if bool_decide (key = new) then None else Some new
  else None.

Definition rename (m : list (Z * Z)) (key : string) : string := default key (rekeyed m key).

Definition is_sent (a : LegacyAlert) : bool := negb (unsent a).

(** A sent alert with the stale key of [key]. *)
Definition stale_sent (m : list (Z * Z)) (als : gmap string LegacyAlert) (key : string) : option LegacyAlert :=
  snd <$> find_first (λ e, bool_decide (rekeyed m e.1 = Some key) && is_sent e.2) (map_to_list als).

Definition fold_alert (m : list (Z * Z)) (als : gmap string LegacyAlert) (key : string) (t : LegacyAlert) : LegacyAlert :=
  if unsent t then
    match stale_sent m als key with
    | Some s => MkLegacyAlert (la_workspace t) (la_case t) AlertState.Sent (union (la_sent_at t) (la_sent_at s)) None None None
    | None => t
    end
  else t.

(** The row under the survivor's key wins. *)
Definition superseded (m : list (Z * Z)) (als : gmap string LegacyAlert) (key : string) : bool :=
  match rekeyed m key with Some new => bool_decide (is_Some (als !! new)) | None => false end.

Definition reconcile_alerts (c : catalog) (m : list (Z * Z)) (als : gmap string LegacyAlert) : result (gmap string LegacyAlert) :=
  if negb (alerts_case c) then ROk als else
  let als := repoint_alert m <$> als in
  let folded := if alerts_state c then map_imap (λ key t, Some (fold_alert m als key t)) als else als in
  let left := List.filter (λ e, negb (superseded m folded e.1)) (map_to_list folded) in
  let renamed := (λ e, (rename m e.1, e.2)) <$> left in
  if bool_decide (NoDup renamed.*1) then ROk (list_to_map renamed)
  else RErr "duplicate key value violates unique constraint".

Definition preflight_repair_funding_case_identity db (commits : bool) : db_t * result () :=
  let c := cat db in
  if negb (has_cases c) || cases_tenant_index c then (db, ROk ()) else
  let by_ws := cases_workspace c in
  let duplicates := negb (bool_decide (NoDup (group_key by_ws <$> cases db))) in
  if forallb is_object (cases db) && negb duplicates then (db, ROk ()) else
  if negb commits then (db, RErr "preflight transaction failed") else
  let cs := normalized <$> cases db in
  let m := survivor_map by_ws cs in
  if bool_decide (m = []) then (with_cases db cs, ROk ()) else
  match reconcile_alerts c m (alerts db) with
  | RErr e => (db, RErr e)
  | ROk als =>
      (MkPreflight c als (workspaces db) (next_workspace db) (merge_cases m cs) (repoint_event m <$> events db), ROk ())
  end.

(** The three, in order; [commits] by their position. *)
Definition preflight (commits : nat → bool) db : db_t * result () :=
  match preflight_repair_alerts_sent_at db (commits 0%nat) with
  | (db, RErr e) => (db, RErr e)
  | (db, ROk _) =>
      match preflight_repair_legacy_dedup_keys db (commits 1%nat) with
      | (db, RErr e) => (db, RErr e)
      | (db, ROk _) => preflight_repair_funding_case_identity db (commits 2%nat)
      end
  end.
End preflight.

(** ** The groups *)

Section groups.
Context {J D : Type} (by_ws : bool).
Set Default Proof Using "Type".
Implicit Types (cs : list (MergeCase J D)) (c : MergeCase J D).
Local Abbreviation key := (group_key by_ws).
Local Abbreviation keep := (keep_of by_ws).
Local Abbreviation smap := (survivor_map by_ws).

Lemma foldr_min_spec (d : Z) l : (foldr Z.min d l = d ∨ foldr Z.min d l ∈ l) ∧ foldr Z.min d l <= d ∧ ∀ x, x ∈ l → foldr Z.min d l <= x.
Proof.
  induction l as [|y l (H1 & H2 & H3)]; cbn; [split_and!; [by left|lia|by intros x ?%not_elem_of_nil]|]. split_and!.
  - destruct (Z.min_spec y (foldr Z.min d l)) as [[_ ->]|[_ ->]]; [right; left|]. destruct H1; [by left|right; by right].
  - lia.
  - intros x [->|Hx]%elem_of_cons; [lia|]. specialize (H3 x Hx). lia.
Qed.

Lemma elem_of_group cs c x : x ∈ List.filter (same_group by_ws c) cs ↔ x ∈ cs ∧ key x = key c.
Proof. rewrite elem_of_lfilter. unfold same_group. rewrite bool_decide_eq_true. by split; intros [? ?]. Qed.

(** The id kept is the least of the group. *)
Lemma keep_least cs c x : x ∈ cs → key x = key c → keep cs c <= case_id x.
Proof.
  intros Hx Hk. unfold keep_of. apply (foldr_min_spec (case_id c)). apply list_elem_of_fmap_2. by apply elem_of_group.
Qed.

Lemma keep_member cs c : c ∈ cs → ∃ k, k ∈ cs ∧ key k = key c ∧ case_id k = keep cs c.
Proof.
  intros Hc. unfold keep_of. destruct (foldr_min_spec (case_id c) (case_id <$> List.filter (same_group by_ws c) cs)) as [[E|Hin] _].
  - exists c. by rewrite E.
  - apply list_elem_of_fmap in Hin as (k & E & Hk). apply elem_of_group in Hk as [? ?]. by exists k.
Qed.

Lemma keep_same cs c d : c ∈ cs → d ∈ cs → key c = key d → keep cs c = keep cs d.
Proof.
  intros Hc Hd E. destruct (keep_member cs c Hc) as (k & Hk & Ek & Ik), (keep_member cs d Hd) as (l & Hl & El & Il).
  pose proof (keep_least cs c l Hl ltac:(congruence)). pose proof (keep_least cs d k Hk ltac:(congruence)). lia.
Qed.

Lemma elem_of_smap cs i k : (i, k) ∈ smap cs ↔ ∃ c, c ∈ cs ∧ case_id c = i ∧ keep cs c = k ∧ i ≠ k.
Proof.
  unfold survivor_map. rewrite list_elem_of_omap. split.
  - intros (c & Hc & E). destruct (Z.eqb_spec (case_id c) (keep cs c)); [done|]. injection E as <- <-. by exists c.
  - intros (c & Hc & <- & <- & Hne). exists c. split; [done|]. by rewrite (proj2 (Z.eqb_neq _ _)).
Qed.

Section unique_ids.
Context (cs : list (MergeCase J D)) (Hids : NoDup (case_id <$> cs)).

Lemma ids_inj c d : c ∈ cs → d ∈ cs → case_id c = case_id d → c = d.
Proof using Hids.
  intros Hc Hd E. apply list_elem_of_lookup in Hc as [i Hi], Hd as [j Hj]. enough (i = j) as -> by congruence.
  eapply (NoDup_lookup (case_id <$> cs)); [done|by rewrite list_lookup_fmap, Hi|]. rewrite list_lookup_fmap, Hj. cbn. by rewrite E.
Qed.

Lemma merged_away_iff c : c ∈ cs → merged_away (smap cs) (case_id c) = true ↔ keep cs c ≠ case_id c.
Proof using Hids.
  intros Hc. unfold merged_away. rewrite existsb_exists_elem. split.
  - intros ([i k] & Hin & E%Z.eqb_eq). cbn in E. apply elem_of_smap in Hin as (d & Hd & E1 & E2 & Hne).
    assert (d = c) as -> by (apply ids_inj; congruence). congruence.
  - intros Hne. exists (case_id c, keep cs c). split; [|by apply Z.eqb_eq]. apply elem_of_smap. exists c. by split_and!.
Qed.

Lemma keeper_is_keep c : c ∈ cs → keeper (smap cs) (case_id c) = keep cs c.
Proof using Hids.
  intros Hc. unfold keeper. destruct (find_first _ _) as [[i k]|] eqn:E.
  - apply find_first_Some in E as [Hin Hi%Z.eqb_eq]. cbn in *. apply elem_of_smap in Hin as (d & Hd & E1 & E2 & Hne).
    assert (d = c) as -> by (apply ids_inj; congruence). done.
  - rewrite find_first_None in E. destruct (decide (keep cs c = case_id c)) as [->|Hne]; [done|].
    exfalso. specialize (E (case_id c, keep cs c)). cbn in E. rewrite Z.eqb_refl in E.
    enough (true = false) by done. apply E, elem_of_smap. exists c. by split_and!.
Qed.

(** The rows merged into the keeper are those of its group. *)
Lemma elem_of_members c x : c ∈ cs → keep cs c = case_id c →
  x ∈ members (smap cs) cs (case_id c) ↔ x ∈ cs ∧ key x = key c.
Proof using Hids.
  intros Hc Hk. unfold members. rewrite elem_of_lfilter, orb_true_iff, Z.eqb_eq, existsb_exists_elem. split.
  - intros [Hx [E|([i k] & Hin & Hik)]].
    + split; [done|]. by rewrite (ids_inj x c Hx Hc E).
    + rewrite andb_true_iff, !Z.eqb_eq in Hik. cbn in Hik. destruct Hik as [-> ->].
      apply elem_of_smap in Hin as (d & Hd & E1 & E2 & _). assert (d = x) as -> by (by apply ids_inj). split; [done|].
      destruct (keep_member cs x Hx) as (l & Hl & El & Il). assert (l = c) as -> by (apply ids_inj; congruence). congruence.
  - intros [Hx E]. split; [done|]. destruct (decide (case_id x = case_id c)) as [|Hne]; [by left|right].
    exists (case_id x, case_id c). split; [|by rewrite andb_true_iff, !Z.eqb_eq]. apply elem_of_smap. exists x.
    split_and!; try done. by rewrite <-Hk; apply keep_same.
Qed.

Lemma is_keeper_group c : is_keeper (smap cs) (case_id c) = false → c ∈ cs → keep cs c = case_id c →
  ∀ x, x ∈ cs → key x = key c → x = c.
Proof using Hids.
  intros Hn Hc Hk x Hx E. apply ids_inj; [done..|]. destruct (decide (case_id x = case_id c)) as [|Hne]; [done|]. exfalso.
  unfold is_keeper in Hn. rewrite existsb_false_elem in Hn. specialize (Hn (case_id x, case_id c)). cbn in Hn.
  rewrite Z.eqb_refl in Hn. enough (true = false) by done. apply Hn, elem_of_smap. exists x. split_and!; try done.
  rewrite <-Hk. by apply keep_same.
Qed.
End unique_ids.
End groups.

(** ** What a merged case holds *)

Section merged.
Context {J D : Type} (by_ws : bool).
Set Default Proof Using "Type".
Implicit Types (g cs : list (MergeCase J D)) (c : MergeCase J D).
Local Abbreviation key := (group_key by_ws).
Local Abbreviation keep := (keep_of by_ws).
Local Abbreviation smap := (survivor_map by_ws).

Lemma head_cmp {A} (cmp : A → A → comparison) (ok : cmp_ok cmp) l r :
  head (stable_sort (cmp_leb cmp) l) = Some r → r ∈ l ∧ ∀ x, x ∈ l → cmp r x ≠ Gt.
Proof.
  intros Hh. destruct (stable_sort_head (cmp_leb cmp) (cmp_leb_total cmp ok) (cmp_leb_trans cmp ok) l r Hh) as [H1 H2].
  split; [done|]. intros x Hx. by apply cmp_leb_true, H2.
Qed.

Lemma first_cmp_ok : cmp_ok (cmp_then (cmp_by (λ c, CaseRow.first_funded_at (mc_row c)) Z.compare) (cmp_by (@case_id J D) Z.compare)).
Proof. apply cmp_then_ok; apply cmp_by_ok, cmp_Z_ok. Qed.

Lemma rev_cmp_ok (f : MergeCase J D → Z) : cmp_ok (cmp_then (cmp_by f (cmp_rev Z.compare)) (cmp_by case_id (cmp_rev Z.compare))).
Proof. apply cmp_then_ok; apply cmp_by_ok, cmp_rev_ok, cmp_Z_ok. Qed.

Lemma first_of_spec g : g ≠ [] → ∃ f, first_of g = Some f ∧ f ∈ g
  ∧ ∀ x, x ∈ g → CaseRow.first_funded_at (mc_row f) <= CaseRow.first_funded_at (mc_row x).
Proof.
  intros Hg. unfold first_of. destruct (head (stable_sort _ g)) as [f|] eqn:Hf; [|by apply stable_sort_head_None in Hf]. exists f. split; [done|].
  apply (head_cmp _ first_cmp_ok) in Hf as [H1 H2]. split; [done|]. intros x Hx. specialize (H2 x Hx).
  unfold cmp_then, cmp_by in H2. destruct (Z.compare_spec (CaseRow.first_funded_at (mc_row f)) (CaseRow.first_funded_at (mc_row x))); [lia|lia|done].
Qed.

Lemma furthest_spec g : g ≠ [] → ∃ s, furthest g = Some s ∧ s ∈ g
  ∧ ∀ x, x ∈ g → stage_rank (CaseRow.stage (mc_row x)) <= stage_rank (CaseRow.stage (mc_row s)).
Proof.
  intros Hg. unfold furthest. destruct (head (stable_sort _ g)) as [s|] eqn:Hs; [|by apply stable_sort_head_None in Hs]. exists s. split; [done|].
  apply (head_cmp _ (rev_cmp_ok _)) in Hs as [H1 H2]. split; [done|]. intros x Hx. specialize (H2 x Hx).
  unfold cmp_then, cmp_by, cmp_rev in H2.
  destruct (Z.compare_spec (stage_rank (CaseRow.stage (mc_row x))) (stage_rank (CaseRow.stage (mc_row s)))); [lia|lia|done].
Qed.

Lemma min_of_spec (f : MergeCase J D → Z) c g : c ∈ g →
  (∃ x, x ∈ g ∧ min_of f (f c) g = f x) ∧ ∀ x, x ∈ g → min_of f (f c) g <= f x.
Proof.
  intros Hc. assert (∀ d, min_of f d g = foldr Z.min d (f <$> g)) as -> by (intros d; unfold min_of; clear; induction g as [|x g IH]; cbn; [done|by rewrite IH]).
  destruct (foldr_min_spec (f c) (f <$> g)) as (H1 & _ & H3). split.
  - destruct H1 as [->|(x & -> & Hx)%list_elem_of_fmap]; [by exists c|by exists x].
  - intros x Hx. apply H3. by apply list_elem_of_fmap_2.
Qed.

Lemma max_of_spec (f : MergeCase J D → Z) c g : c ∈ g →
  (∃ x, x ∈ g ∧ max_of f (f c) g = f x) ∧ ∀ x, x ∈ g → f x <= max_of f (f c) g.
Proof.
  intros Hc. assert (∀ d, d <= max_of f d g ∧ (max_of f d g = d ∨ ∃ x, x ∈ g ∧ max_of f d g = f x) ∧ ∀ x, x ∈ g → f x <= max_of f d g) as H.
  { clear Hc. intros d. induction g as [|y g (H1 & H2 & H3)]; cbn; [split_and!; [lia|by left|by intros x ?%not_elem_of_nil]|].
    fold (max_of f d g). split_and!; [lia| |intros x [->|Hx]%elem_of_cons; [lia|specialize (H3 x Hx); lia]].
    destruct (Z.max_spec (f y) (max_of f d g)) as [[_ ->]|[_ ->]]; [|right; exists y; split; [left|done]].
    destruct H2 as [?|(x & Hx & ?)]; [by left|right; exists x; split; [by right|done]]. }
  destruct (H (f c)) as (_ & [E|Hx] & H3); (split; [|done]); [by exists c|done].
Qed.

Lemma merged_evidence_spec g k v : NoDup (case_id <$> g) →
  merged_evidence g !! k = Some v ↔ ∃ c, c ∈ g ∧ fields_of c !! k = Some v ∧ ∀ d, d ∈ g → is_Some (fields_of d !! k) → case_id d <= case_id c.
Proof.
  intros Hids. unfold merged_evidence. set (l := stable_sort _ g).
  assert (l ≡ₚ g) as Hl by apply stable_sort_perm.
  assert (StronglySorted (λ a b : MergeCase J D, case_id b <= case_id a) l) as Hs.
  { assert (cmp_ok (cmp_by (@case_id J D) (cmp_rev Z.compare))) as Hok by apply cmp_by_ok, cmp_rev_ok, cmp_Z_ok.
    eapply StronglySorted_weaken; [|apply (stable_sort_sorted _ (cmp_leb_total _ Hok) (cmp_leb_trans _ Hok))].
    intros a b Hab%cmp_leb_true. unfold cmp_by, cmp_rev in Hab. destruct (Z.compare_spec (case_id b) (case_id a)); [lia|lia|done]. }
  setoid_rewrite <-Hl. rewrite <-Hl in Hids. clearbody l. clear Hl g.
  induction l as [|c l IH]; cbn; [rewrite lookup_empty; split; [done|by intros (? & ?%not_elem_of_nil & _)]|].
  apply StronglySorted_inv in Hs as [Hs Hle]. cbn in Hids. apply NoDup_cons in Hids as [Hc Hids]. specialize (IH Hids Hs).
  rewrite Forall_forall in Hle. destruct (fields_of c !! k) as [w|] eqn:Ec.
  - rewrite (lookup_union_Some_l _ _ k w) by done. split.
    + intros [= ->]. exists c. split_and!; [left|done|]. intros d [->|Hd]%elem_of_cons _; [lia|by apply Hle].
    + intros (x & [->|Hx]%elem_of_cons & Ev & Hmax); [congruence|]. exfalso. specialize (Hmax c (list_elem_of_here _ _) ltac:(by rewrite Ec)).
      specialize (Hle x Hx). apply Hc. assert (case_id c = case_id x) as -> by lia. by apply list_elem_of_fmap_2.
  - rewrite lookup_union_r by done. rewrite IH. split.
    + intros (x & Hx & Ev & Hmax). exists x. split_and!; [by right|done|]. intros d [->|Hd]%elem_of_cons Hk; [by destruct Hk; congruence|by apply Hmax].
    + intros (x & [->|Hx]%elem_of_cons & Ev & Hmax); [congruence|]. exists x. split_and!; try done. intros d Hd. apply Hmax. by right.
Qed.

(** [c'] has everything the rows [g] of its group have: the least id, the first
    funding of the row that was funded first, the largest counts and times, the
    furthest stage, and of each key of the evidence the newest value. *)
Record absorbs g c' : Prop := {
  ab_group : ∀ x, x ∈ g → key x = key c';
  ab_id : (∃ x, x ∈ g ∧ case_id x = case_id c') ∧ ∀ x, x ∈ g → case_id c' <= case_id x;
  ab_first : ∃ f, f ∈ g ∧ (∀ x, x ∈ g → CaseRow.first_funded_at (mc_row f) <= CaseRow.first_funded_at (mc_row x))
    ∧ CaseRow.first_funded_at (mc_row c') = CaseRow.first_funded_at (mc_row f)
    ∧ CaseRow.first_funding_usd (mc_row c') = CaseRow.first_funding_usd (mc_row f)
    ∧ CaseRow.first_funding_native (mc_row c') = CaseRow.first_funding_native (mc_row f)
    ∧ CaseRow.source_address (mc_row c') = CaseRow.source_address (mc_row f)
    ∧ CaseRow.source_kind (mc_row c') = CaseRow.source_kind (mc_row f);
  ab_max : ∀ f, f ∈ [CaseRow.fanout_count; CaseRow.deploy_window_ends_at; CaseRow.confidence; CaseRow.updated_at] →
    (∃ x, x ∈ g ∧ f (mc_row c') = f (mc_row x)) ∧ ∀ x, x ∈ g → f (mc_row x) <= f (mc_row c');
  ab_stage : ∃ s, s ∈ g ∧ CaseRow.stage (mc_row c') = CaseRow.stage (mc_row s)
    ∧ ∀ x, x ∈ g → stage_rank (CaseRow.stage (mc_row x)) <= stage_rank (CaseRow.stage (mc_row s));
  ab_evidence : is_object c' = true ∧ ∀ k v, fields_of c' !! k = Some v ↔
    ∃ x, x ∈ g ∧ fields_of x !! k = Some v ∧ ∀ d, d ∈ g → is_Some (fields_of d !! k) → case_id d <= case_id x;
}.

Lemma merge_row_absorbs c g :
  c ∈ g → NoDup (case_id <$> g) → (∀ x, x ∈ g → key x = key c ∧ case_id c <= case_id x) → absorbs g (merge_row c g).
Proof.
  intros Hc Hids Hg. assert (g ≠ []) as Hne by (intros ->; by apply not_elem_of_nil in Hc).
  destruct (first_of_spec g Hne) as (f & Ef & Hf & Hfm), (furthest_spec g Hne) as (s & Es & Hs & Hsm).
  unfold merge_row. rewrite Ef, Es. cbv zeta. split; cbn.
  - intros x Hx. by destruct (Hg x Hx).
  - split; [by exists c|]. intros x Hx. by destruct (Hg x Hx).
  - exists f. split_and!; try done.
    destruct (min_of_spec (λ c, CaseRow.first_funded_at (mc_row c)) c g Hc) as [(x & Hx & E) Hmin].
    specialize (Hfm x Hx). specialize (Hmin f Hf). cbn in E, Hmin. lia.
  - intros p Hp. set_unfold in Hp. destruct Hp as [->|[->|[->|[->|[]]]]]; cbn;
      match goal with |- context [max_of ?f _ g] => apply (max_of_spec f c g Hc) end.
  - by exists s.
  - split; [done|]. intros k v. by apply merged_evidence_spec.
Qed.

Lemma alone_absorbs c g : (∀ x, x ∈ g → x = c) → c ∈ g → is_object c = true → absorbs g c.
Proof.
  intros Hg Hc Ho. split.
  - by intros x ->%Hg.
  - split; [by exists c|]. intros x ->%Hg. lia.
  - exists c. split_and!; try done. intros x ->%Hg. lia.
  - intros f _. split; [by exists c|]. intros x ->%Hg. lia.
  - exists c. split_and!; try done. intros x ->%Hg. lia.
  - split; [done|]. intros k v. split; [intros E; exists c; split_and!; try done; intros d ->%Hg; lia|by intros (x & ->%Hg & ? & _)].
Qed.

Context (cs : list (MergeCase J D)) (Hids : NoDup (case_id <$> cs)) (Hobj : Forall (λ c, is_object c = true) cs).

Lemma elem_of_survivors c : c ∈ List.filter (λ c, negb (merged_away (smap cs) (case_id c))) cs ↔ c ∈ cs ∧ keep cs c = case_id c.
Proof using Hids.
  rewrite elem_of_lfilter, negb_true_iff. split; intros [Hc Hk]; (split; [done|]).
  - destruct (decide (keep cs c = case_id c)) as [|Hne]; [done|]. apply (merged_away_iff by_ws cs Hids c Hc) in Hne. congruence.
  - apply not_true_is_false. intros Hm. by apply (merged_away_iff by_ws cs Hids c Hc) in Hm.
Qed.

Lemma members_ids c : NoDup (case_id <$> members (smap cs) cs (case_id c)).
Proof using Hids.
  unfold members. clear Hobj. generalize (λ x : MergeCase J D, (case_id x =? case_id c) || existsb (λ e, (e.1 =? case_id x) && (e.2 =? case_id c)) (smap cs)) as P.
  intros P. revert Hids. generalize cs as l. clear. induction l as [|x l IH]; cbn; [by constructor|]. intros [Hx Hn]%NoDup_cons. specialize (IH Hn).
  destruct (P x); [|done]. cbn. apply NoDup_cons. split; [|done]. intros (y & E & Hy)%list_elem_of_fmap. apply elem_of_lfilter in Hy as [Hy _].
  apply Hx. rewrite E. by apply list_elem_of_fmap_2.
Qed.

Lemma merge_absorbs c' : c' ∈ merge_cases (smap cs) cs → absorbs (List.filter (same_group by_ws c') cs) c'.
Proof using Hids Hobj.
  unfold merge_cases. intros (c & -> & [Hc Hk]%elem_of_survivors)%list_elem_of_fmap.
  assert (∀ x, x ∈ members (smap cs) cs (case_id c) ↔ x ∈ cs ∧ key x = key c) as Hm by (intros x; by apply elem_of_members).
  destruct (is_keeper (smap cs) (case_id c)) eqn:Ek.
  - assert (absorbs (members (smap cs) cs (case_id c)) (merge_row c (members (smap cs) cs (case_id c)))) as Ha.
    { apply merge_row_absorbs; [by apply Hm|apply members_ids|]. intros x [Hx E]%Hm. split; [done|]. rewrite <-Hk. by apply keep_least. }
    assert (∀ x, x ∈ List.filter (same_group by_ws (merge_row c (members (smap cs) cs (case_id c)))) cs ↔ x ∈ members (smap cs) cs (case_id c)) as He.
    { intros x. rewrite elem_of_group, Hm, <-(ab_group _ _ Ha c) by by apply Hm. done. }
    destruct Ha as [A1 A2 A3 A4 A5 A6]. split; setoid_rewrite He; done.
  - pose proof (is_keeper_group by_ws cs Hids c Ek Hc Hk) as Halone. rewrite Forall_forall in Hobj.
    apply alone_absorbs; [|by apply elem_of_group|by apply Hobj]. intros x [Hx E]%elem_of_group. by apply Halone.
Qed.

Lemma merge_key c' : c' ∈ merge_cases (smap cs) cs → ∃ c, c ∈ cs ∧ keep cs c = case_id c ∧ case_id c' = case_id c ∧ key c' = key c.
Proof using Hids Hobj.
  intros Hc'. destruct (merge_absorbs c' Hc') as [A1 [(x & Hx & E) Hle] _ _ _ _]. apply elem_of_group in Hx as [Hx Ek].
  exists x. split_and!; try done. destruct (keep_member by_ws cs x Hx) as (k & Hk & Kk & Ik).
  pose proof (keep_least by_ws cs x x Hx eq_refl). assert (case_id c' <= case_id k) by (apply Hle, elem_of_group; split; [done|congruence]). lia.
Qed.

(** One case per group, and no group lost. *)
Lemma merge_groups : NoDup (key <$> merge_cases (smap cs) cs)
  ∧ ∀ c, c ∈ cs → ∃ c', c' ∈ merge_cases (smap cs) cs ∧ key c' = key c ∧ case_id c' = keep cs c.
Proof using Hids Hobj.
  assert (∀ c, key (if is_keeper (smap cs) (case_id c) then merge_row c (members (smap cs) cs (case_id c)) else c) = key c
    ∧ case_id (if is_keeper (smap cs) (case_id c) then merge_row c (members (smap cs) cs (case_id c)) else c) = case_id c) as Hsame.
  { intros c. destruct (is_keeper _ _); [|done]. unfold merge_row. by destruct (first_of (members (smap cs) cs (case_id c))), (furthest (members (smap cs) cs (case_id c))). }
  split.
  - unfold merge_cases. rewrite <-list_fmap_compose. rewrite (list_fmap_ext _ key) by (intros i c _; apply (Hsame c)).
    apply NoDup_fmap_2_strong.
    + intros c d [Hc Kc]%elem_of_survivors [Hd Kd]%elem_of_survivors E. apply (ids_inj cs Hids); [done..|].
      rewrite <-Kc, <-Kd. by apply keep_same.
    + assert (NoDup cs) as Hn by by apply (NoDup_fmap_1 case_id). revert Hn. generalize (λ c : MergeCase J D, negb (merged_away (smap cs) (case_id c))) as P.
      generalize cs as l. clear. induction l as [|x l IH]; cbn; [constructor|]. intros P [Hx Hn]%NoDup_cons. specialize (IH P Hn).
      destruct (P x); [|done]. apply NoDup_cons. split; [|done]. by intros [? _]%elem_of_lfilter.
  - intros c Hc. destruct (keep_member by_ws cs c Hc) as (k & Hk & Ek & Ik).
    exists (if is_keeper (smap cs) (case_id k) then merge_row k (members (smap cs) cs (case_id k)) else k).
    destruct (Hsame k) as [-> ->]. split_and!; [|done|done]. unfold merge_cases. apply list_elem_of_fmap. exists k. split; [done|].
    apply elem_of_survivors. split; [done|]. rewrite Ik. by apply keep_same.
Qed.
End merged.

(** ** A repaired database *)

Section repaired.
Context {J D : Type}.
Set Default Proof Using "Type".
Implicit Types (c : MergeCase J D) (db : preflight_db J D).

Lemma normalized_same by_ws c : case_id (normalized c) = case_id c ∧ group_key by_ws (normalized c) = group_key by_ws c.
Proof. unfold normalized, case_id, group_key. by destruct (mc_evidence c). Qed.

Lemma normalized_ids (cs : list (MergeCase J D)) : case_id <$> (normalized <$> cs) = case_id <$> cs.
Proof. rewrite <-list_fmap_compose. apply list_fmap_ext. intros i c _. by apply (normalized_same true). Qed.

Lemma normalized_keys by_ws (cs : list (MergeCase J D)) : group_key by_ws <$> (normalized <$> cs) = group_key by_ws <$> cs.
Proof. rewrite <-list_fmap_compose. apply list_fmap_ext. intros i c _. by apply normalized_same. Qed.

Lemma normalized_objects (cs : list (MergeCase J D)) : Forall (λ c, is_object c = true) (normalized <$> cs).
Proof. apply Forall_forall. intros x (c & -> & _)%list_elem_of_fmap. unfold normalized, is_object. destruct (mc_evidence c) eqn:E; cbn; by rewrite ?E. Qed.

Lemma normalized_object c : is_object c = true → normalized c = c.
Proof. unfold is_object, normalized. by destruct (mc_evidence c). Qed.

Lemma normalized_all (cs : list (MergeCase J D)) : forallb is_object cs = true → normalized <$> cs = cs.
Proof. intros H. rewrite forallb_forall_elem in H. induction cs as [|c cs IH]; [done|]. cbn. rewrite normalized_object by (apply H; left). f_equal. apply IH. intros x Hx. apply H. by right. Qed.

Lemma distinct_groups by_ws (cs : list (MergeCase J D)) : NoDup (group_key by_ws <$> cs) → survivor_map by_ws cs = [].
Proof.
  intros Hn. destruct (survivor_map by_ws cs) as [|[i k] m] eqn:E; [done|]. exfalso.
  assert ((i, k) ∈ survivor_map by_ws cs) as Hin by (rewrite E; left). apply elem_of_smap in Hin as (c & Hc & <- & Ek & Hne).
  destruct (keep_member by_ws cs c Hc) as (d & Hd & Kd & Id). apply Hne. rewrite <-Ek, <-Id. f_equal.
  apply list_elem_of_lookup in Hc as [a Ha], Hd as [b Hb].
  assert (a = b) as ->; [|congruence]. eapply (NoDup_lookup _ _ _ _ Hn); rewrite list_lookup_fmap; [by rewrite Ha|by rewrite Hb, <-Kd].
Qed.

Lemma repoint_nobody (es : list (MergeEvent J)) : repoint_event [] <$> es = es.
Proof. induction es as [|[] es IH]; cbn; [done|by f_equal]. Qed.

Lemma merge_nobody (cs : list (MergeCase J D)) : merge_cases [] cs = cs.
Proof. unfold merge_cases. induction cs as [|c cs IH]; cbn; [done|by f_equal]. Qed.

Context (pg_int8 : string → option Z).

(** Whatever branch it took. *)
Lemma repaired_tables db commits db' :
  has_cases (cat db) = true → cases_tenant_index (cat db) = false →
  preflight_repair_funding_case_identity pg_int8 db commits = (db', ROk ()) →
  let cs := normalized <$> cases db in let m := survivor_map (cases_workspace (cat db)) cs in
  cat db' = cat db ∧ cases db' = merge_cases m cs ∧ events db' = repoint_event m <$> events db
  ∧ (m = [] → alerts db' = alerts db) ∧ (m ≠ [] → reconcile_alerts pg_int8 (cat db) m (alerts db) = ROk (alerts db')).
Proof.
  intros Hc Hi. unfold preflight_repair_funding_case_identity. rewrite Hc, Hi. cbn [negb orb]. cbv zeta.
  destruct (forallb is_object (cases db) && _) eqn:Eg.
  { apply andb_true_iff in Eg as [Ho Hn]. rewrite negb_involutive, bool_decide_eq_true in Hn. intros [= <-].
    rewrite normalized_all by done. rewrite distinct_groups by done. rewrite merge_nobody, repoint_nobody. by split_and!. }
  destruct (negb commits); [done|]. clear Eg. destruct (bool_decide (survivor_map _ _ = [])) eqn:Em; [apply bool_decide_eq_true in Em|apply bool_decide_eq_false in Em].
  { intros [= <-]. rewrite Em. cbn. rewrite merge_nobody, repoint_nobody. by split_and!. }
  destruct (reconcile_alerts _ _ _ _) as [als|e] eqn:Er; [|done]. intros [= <-]. cbn. by split_and!.
Qed.

Lemma repair_failed db commits db' e :
  preflight_repair_funding_case_identity pg_int8 db commits = (db', RErr e) → db' = db.
Proof.
  unfold preflight_repair_funding_case_identity. cbv zeta. repeat (case_match; try done); congruence.
Qed.
End repaired.

(** ** The alerts of a merged case *)

Section reconciled.
Set Default Proof Using "Type".
Implicit Types (als : gmap string LegacyAlert) (m : list (Z * Z)) (key : string).

Lemma split_on_sep (c : ascii) (a b : string) : no_char c a → split_on c (a +:+ String c b) = a :: split_on c b.
Proof.
  induction a as [|d a IH]; [intros _; rewrite str_app_nil_l; cbn; by rewrite decide_True|]. intros [Hd Ha]. rewrite str_app_cons. cbn.
  destruct (decide (c = d)) as [->|]; [done|]. by rewrite IH.
Qed.

Lemma split_on_pieces (c : ascii) (s : string) : Forall (no_char c) (split_on c s).
Proof.
  induction s as [|d s IH]; cbn; [by repeat constructor|]. destruct (decide (c = d)); [by constructor|].
  destruct (split_on c s); inversion_clear IH; by repeat constructor.
Qed.

Lemma split_part_no_colon key n : no_char ":" (split_part key n).
Proof.
  unfold split_part. destruct (split_on ":" key !! pred n) eqn:E; cbn; [|done].
  by eapply (Forall_lookup_1 _ _ _ _ (split_on_pieces ":" key)).
Qed.

Context (pg_int8 : string → option Z) (m : list (Z * Z)).
Context (Hint : ∀ z, 0 < z < 2 ^ 63 → pg_int8 (pretty z) = Some z)
  (Hm : ∀ i k, (i, k) ∈ m → 0 < k < 2 ^ 63 ∧ merged_away m k = false).

(** A new key is not stale. *)
Lemma rekeyed_final key new : rekeyed pg_int8 m key = Some new → rekeyed pg_int8 m new = None.
Proof using Hint Hm.
  unfold rekeyed at 1. destruct (_ && _); [|done]. destruct (pg_int8 _) as [i|]; [cbn|done].
  destruct (find_first _ m) as [[j k]|] eqn:Ef; [cbn|done]. case_bool_decide; [done|]. intros [= <-].
  apply find_first_Some in Ef as [[Hk Haway]%Hm _]. unfold rekeyed.
  match goal with |- context [split_part ?s 3] => set (new := s) end.
  assert (split_part new 3 = pretty k) as ->.
  { unfold new, split_part. change ("funding:" +:+ ?r) with ("funding" +:+ String ":" r). rewrite split_on_sep by done.
    change (?w +:+ ":" +:+ ?r) with (w +:+ String ":" r). rewrite split_on_sep by apply split_part_no_colon.
    change (?w +:+ ":" +:+ ?r) with (w +:+ String ":" r). rewrite split_on_sep by by apply no_char_pretty_Z. done. }
  destruct (_ && _); [|done]. rewrite Hint by done. cbn.
  destruct (find_first _ m) as [[i' k']|] eqn:Ef; [|done]. exfalso. apply find_first_Some in Ef as [Hin E].
  unfold merged_away in Haway. rewrite existsb_false_elem in Haway. rewrite Haway in E by done. done.
Qed.

Lemma superseded_dom als als' key : (∀ k, is_Some (als !! k) ↔ is_Some (als' !! k)) → superseded pg_int8 m als key = superseded pg_int8 m als' key.
Proof. intros E. unfold superseded. destruct (rekeyed _ _ _); [|done]. by apply bool_decide_ext. Qed.

Context (c : catalog) (Hcase : alerts_case c = true) (Hstate : alerts_state c = true).

Lemma reconciled_lookup als als' k a : reconcile_alerts pg_int8 c m als = ROk als' →
  als' !! k = Some a ↔ ∃ key a0, als !! key = Some a0 ∧ superseded pg_int8 m als key = false ∧ rename pg_int8 m key = k
    ∧ a = fold_alert pg_int8 m (repoint_alert m <$> als) key (repoint_alert m a0).
Proof using Hcase Hstate.
  unfold reconcile_alerts. rewrite Hcase, Hstate. cbn [negb]. cbv zeta. set (als1 := repoint_alert m <$> als).
  set (folded := map_imap _ als1). destruct (bool_decide _) eqn:Hn; [apply bool_decide_eq_true in Hn|done]. intros [= <-].
  assert (∀ key t, folded !! key = Some t ↔ ∃ a0, als !! key = Some a0 ∧ t = fold_alert pg_int8 m als1 key (repoint_alert m a0)) as Hf.
  { intros key t. unfold folded. rewrite map_lookup_imap. rewrite (lookup_fmap _ als key : als1 !! key = _). destruct (als !! key) as [a0|]; cbn.
    - split; [intros [= <-]; by exists a0|by intros (? & [= <-] & ->)].
    - split; [done|by intros (? & ? & _)]. }
  assert (∀ key, superseded pg_int8 m folded key = superseded pg_int8 m als key) as Hs.
  { intros key. apply superseded_dom. intros n. split.
    - intros [t (a0 & -> & _)%Hf]. by eexists.
    - intros [a0 E]. eexists. apply Hf. by exists a0. }
  rewrite <-elem_of_list_to_map by done. rewrite list_elem_of_fmap. split.
  - intros ([key t] & [= -> ->] & [Hin Hl%negb_true_iff]%elem_of_lfilter). cbn in Hl. rewrite Hs in Hl.
    apply elem_of_map_to_list, Hf in Hin as (a0 & E & ->). by exists key, a0.
  - intros (key & a0 & E & Hl & <- & ->). eexists (key, _). split; [reflexivity|]. apply elem_of_lfilter. split.
    + apply elem_of_map_to_list, Hf. by exists a0.
    + cbn. by rewrite Hs, Hl.
Qed.

Lemma sent_repointed a : is_sent (repoint_alert m a) = is_sent a.
Proof. done. Qed.

Lemma stale_sent_Some als key s : stale_sent pg_int8 m als key = Some s →
  ∃ old, als !! old = Some s ∧ rekeyed pg_int8 m old = Some key ∧ is_sent s = true.
Proof.
  unfold stale_sent. destruct (find_first _ _) as [[old t]|] eqn:E; [cbn|done]. intros [= ->].
  apply find_first_Some in E as [Hin%elem_of_map_to_list [Hr%bool_decide_eq_true Hs]%andb_true_iff]. by exists old.
Qed.

Lemma stale_sent_None als key old s : stale_sent pg_int8 m als key = None → als !! old = Some s → rekeyed pg_int8 m old = Some key →
  is_sent s = false.
Proof.
  unfold stale_sent. destruct (find_first _ _) eqn:E; [done|]. intros _ Hl Hr. rewrite find_first_None in E.
  specialize (E (old, s) (proj2 (elem_of_map_to_list _ _ _) Hl)). cbn in E. by rewrite bool_decide_true in E.
Qed.

(** A sent alert, under its new key, is sent; and an alert that is sent was, or
    stood for a stale one that was. *)
Lemma reconciled_sent als als' k : reconcile_alerts pg_int8 c m als = ROk als' →
  (∃ a, als' !! k = Some a ∧ is_sent a = true) ↔ ∃ key a, als !! key = Some a ∧ is_sent a = true ∧ rename pg_int8 m key = k.
Proof using Hcase Hstate Hint Hm.
  intros Hr. setoid_rewrite (reconciled_lookup als als' k _ Hr). split.
  - intros (a & (key & a0 & E & Hl & <- & ->) & Hs). destruct (is_sent a0) eqn:Es; [by exists key, a0|].
    unfold fold_alert in Hs. assert (unsent (repoint_alert m a0) = true) as Hu by (by unfold is_sent in Es; destruct (unsent a0) eqn:?).
    rewrite Hu in Hs. destruct (stale_sent _ _ _ key) as [s|] eqn:Est.
    + apply stale_sent_Some in Est as (old & Ho & Hk & Hs0). apply lookup_fmap_Some in Ho as (s0 & <- & Ho).
      exists old, s0. split_and!; [done..|]. unfold rename. by rewrite Hk, (rekeyed_final old key Hk).
    + unfold is_sent in Hs. by rewrite Hu in Hs.
  - intros (key & a & E & Hs & <-). destruct (superseded pg_int8 m als key) eqn:El.
    + unfold superseded in El. unfold rename. destruct (rekeyed pg_int8 m key) as [new|] eqn:Ek; [|done].
      apply bool_decide_eq_true in El as [t Ht]. pose proof (rekeyed_final key new Ek) as Hfin. cbn.
      eexists. split; [exists new, t; split_and!; [done| | |reflexivity]|].
      * unfold superseded. by rewrite Hfin.
      * unfold rename. by rewrite Hfin.
      * unfold fold_alert. destruct (unsent (repoint_alert m t)) eqn:Hu; [|by unfold is_sent; rewrite Hu].
        destruct (stale_sent _ _ _ new) eqn:Est; [done|]. exfalso.
        assert ((repoint_alert m <$> als) !! key = Some (repoint_alert m a)) as Hk by by rewrite lookup_fmap, E.
        apply (stale_sent_None _ _ _ _ Est) in Hk; [|done]. by rewrite sent_repointed, Hs in Hk.
    + eexists. split; [by exists key, a|]. unfold fold_alert. assert (unsent (repoint_alert m a) = false) as Hu.
      { unfold is_sent in Hs. by apply negb_true_iff. }
      rewrite Hu. exact Hs.
Qed.

(** No alert is lost: each has a row under its new key. *)
Lemma reconciled_keys als als' k : reconcile_alerts pg_int8 c m als = ROk als' →
  is_Some (als' !! k) ↔ ∃ key, is_Some (als !! key) ∧ rename pg_int8 m key = k.
Proof using Hcase Hstate Hint Hm.
  intros Hr. split.
  - intros [a (key & a0 & E & _ & <- & _)%(reconciled_lookup als als' k a Hr)]. exists key. by rewrite E.
  - intros (key & [a E] & <-). destruct (superseded pg_int8 m als key) eqn:El.
    + unfold superseded in El. unfold rename. destruct (rekeyed pg_int8 m key) as [new|] eqn:Ek; [|done].
      apply bool_decide_eq_true in El as [t Ht]. pose proof (rekeyed_final key new Ek) as Hfin. cbn.
      eexists. apply (reconciled_lookup als als' new _ Hr). exists new, t. split_and!; [done| | |reflexivity].
      * unfold superseded. by rewrite Hfin.
      * unfold rename. by rewrite Hfin.
    + eexists. apply (reconciled_lookup als als' _ _ Hr). by exists key, a.
Qed.

(** Two stale alerts of one survivor, workspace and destination that has no alert
    of its own collide. *)
Lemma colliding als k1 k2 new :
  k1 ≠ k2 → is_Some (als !! k1) → is_Some (als !! k2) → rekeyed pg_int8 m k1 = Some new → rekeyed pg_int8 m k2 = Some new →
  als !! new = None → ∃ e, reconcile_alerts pg_int8 c m als = RErr e.
Proof using Hcase.
  clear Hstate Hint Hm. intros Hne [a1 E1] [a2 E2] R1 R2 Hnone. unfold reconcile_alerts. rewrite Hcase. cbn [negb]. cbv zeta.
  set (folded := if alerts_state c then _ else _). destruct (bool_decide _) eqn:Hn; [exfalso; apply bool_decide_eq_true in Hn|by eexists].
  assert (∀ key, is_Some (als !! key) ↔ is_Some (folded !! key)) as Hd.
  { intros key. unfold folded. destruct (alerts_state c); rewrite ?map_lookup_imap, lookup_fmap; destruct (als !! key); cbn; by rewrite ?is_Some_alt. }
  assert (∀ key, is_Some (als !! key) → rekeyed pg_int8 m key = Some new →
    ∃ t, (key, t) ∈ List.filter (λ e, negb (superseded pg_int8 m folded e.1)) (map_to_list folded)) as Hleft.
  { intros key [t Ht]%Hd Hk. exists t. apply elem_of_lfilter. split; [by apply elem_of_map_to_list|]. cbn. unfold superseded. rewrite Hk.
    apply negb_true_iff, bool_decide_eq_false. intros Hs%Hd. rewrite Hnone in Hs. by destruct Hs. }
  destruct (Hleft k1 ltac:(by eexists) R1) as [t1 [i1 H1]%list_elem_of_lookup], (Hleft k2 ltac:(by eexists) R2) as [t2 [i2 H2]%list_elem_of_lookup].
  assert (i1 = i2) as ->; [|congruence].
  eapply (NoDup_lookup _ _ _ new Hn); rewrite !list_lookup_fmap; [rewrite H1|rewrite H2]; cbn; unfold rename; by rewrite ?R1, ?R2.
Qed.
End reconciled.

(** ** What the repair promises *)

Section promises.
Context {J D : Type} (pg_int8 : string → option Z).
Set Default Proof Using "Type".
Implicit Types (db : preflight_db J D).

(** The ids the repair keeps are survivors. *)
Lemma survivors_ok by_ws (cs : list (MergeCase J D)) :
  NoDup (case_id <$> cs) → Forall (λ c, 0 < case_id c < 2 ^ 63) cs →
  ∀ i k, (i, k) ∈ survivor_map by_ws cs → 0 < k < 2 ^ 63 ∧ merged_away (survivor_map by_ws cs) k = false.
Proof.
  intros Hids Hpos i k (c & Hc & _ & Hk & _)%elem_of_smap. destruct (keep_member by_ws cs c Hc) as (d & Hd & Kd & Id).
  rewrite Forall_forall in Hpos. rewrite <-Hk, <-Id. split; [by apply Hpos|]. apply not_true_is_false.
  intros Ha%(merged_away_iff by_ws cs Hids d Hd). apply Ha. rewrite Id. by apply keep_same.
Qed.

(** Claim C16: The repair of the funding cases, on whichever branch it succeeds,
    leaves one case for each tenant, chain and recipient, and that case holds
    everything the cases of its group did; no group is lost and every case's
    evidence is an object; every event keeps its place and its facts and hangs on
    the case of its old case's group, so none is deleted with a merged row; and
    a second run changes nothing. *)
Theorem duplicates_merged db db' (commits : bool)
    (Htable : has_cases (cat db) = true) (Hindex : cases_tenant_index (cat db) = false)
    (Hids : NoDup (case_id <$> cases db))
    (Hrun : preflight_repair_funding_case_identity pg_int8 db commits = (db', ROk ())) :
  let by_ws := cases_workspace (cat db) in
  NoDup (group_key by_ws <$> cases db')
  ∧ (∀ c', c' ∈ cases db' → absorbs by_ws (List.filter (same_group by_ws c') (normalized <$> cases db)) c')
  ∧ (∀ c, c ∈ cases db → ∃ c', c' ∈ cases db' ∧ group_key by_ws c' = group_key by_ws c)
  ∧ (∀ i e c, events db !! i = Some e → c ∈ cases db → case_id c = me_case e →
      ∃ e' c', events db' !! i = Some e' ∧ me_id e' = me_id e ∧ me_kind e' = me_kind e ∧ me_observed_at e' = me_observed_at e
        ∧ me_evidence e' = me_evidence e ∧ c' ∈ cases db' ∧ case_id c' = me_case e' ∧ group_key by_ws c' = group_key by_ws c)
  ∧ ∀ again, preflight_repair_funding_case_identity pg_int8 db' again = (db', ROk ()).
Proof.
  intros by_ws. destruct (repaired_tables pg_int8 db commits db' Htable Hindex Hrun) as (Hcat & Hcs & Hev & _). fold by_ws in Hcs, Hev.
  rewrite <-normalized_ids in Hids. pose proof (normalized_objects (cases db)) as Hobj.
  destruct (merge_groups by_ws _ Hids Hobj) as [Hone Hall]. pose proof (merge_absorbs by_ws _ Hids Hobj) as Habs.
  rewrite <-Hcs in Hone, Hall, Habs.
  assert (∀ c, c ∈ cases db → ∃ c', c' ∈ cases db' ∧ group_key by_ws c' = group_key by_ws c
    ∧ case_id c' = keeper (survivor_map by_ws (normalized <$> cases db)) (case_id c)) as Hgroup.
  { intros c Hc. assert (normalized c ∈ normalized <$> cases db) as Hn by by apply list_elem_of_fmap_2.
    destruct (Hall _ Hn) as (c' & ? & Ek & Ei). destruct (normalized_same by_ws c) as [Ec Eg]. exists c'. split_and!; [done|congruence|].
    by rewrite Ei, <-Ec, keeper_is_keep. }
  split_and!; [done|done| | |].
  - intros c Hc. destruct (Hgroup c Hc) as (c' & ? & ? & _). by exists c'.
  - intros i e c He Hc Ec. destruct (Hgroup c Hc) as (c' & Hc' & Eg & Ei). eexists _, c'. rewrite Hev, list_lookup_fmap, He. cbn.
    split_and!; try reflexivity; [done|by rewrite Ei, Ec|done].
  - intros again. unfold preflight_repair_funding_case_identity. rewrite Hcat, Htable, Hindex. cbn [negb orb]. cbv zeta. fold by_ws.
    rewrite (bool_decide_true (NoDup _)) by done.
    assert (forallb is_object (cases db') = true) as ->; [|done].
    apply forallb_forall_elem. intros c' Hc'. apply (ab_evidence _ _ _ (Habs c' Hc')).
Qed.

(** Claim C17: An alert of a case that is merged is kept under its survivor's key,
    and exactly the alerts that were sent are: none is sent again because its
    case was merged, and none is marked sent that was not. *)
Theorem alerts_follow_their_case db db' (commits : bool)
    (Htable : has_cases (cat db) = true) (Hindex : cases_tenant_index (cat db) = false)
    (Hcase : alerts_case (cat db) = true) (Hstate : alerts_state (cat db) = true)
    (Hids : NoDup (case_id <$> cases db)) (Hpos : Forall (λ c, 0 < case_id c < 2 ^ 63) (cases db))
    (Hint : ∀ z, 0 < z < 2 ^ 63 → pg_int8 (pretty z) = Some z)
    (Hrun : preflight_repair_funding_case_identity pg_int8 db commits = (db', ROk ())) :
  let m := survivor_map (cases_workspace (cat db)) (normalized <$> cases db) in
  ∀ k, (is_Some (alerts db' !! k) ↔ ∃ key, is_Some (alerts db !! key) ∧ rename pg_int8 m key = k)
    ∧ ((∃ a, alerts db' !! k = Some a ∧ is_sent a = true)
        ↔ ∃ key a, alerts db !! key = Some a ∧ is_sent a = true ∧ rename pg_int8 m key = k).
Proof.
  intros m k. destruct (repaired_tables pg_int8 db commits db' Htable Hindex Hrun) as (_ & _ & _ & Hnone & Hsome). fold m in Hnone, Hsome.
  destruct (decide (m = [])) as [E|Hne].
  - rewrite (Hnone E). assert (∀ key, rename pg_int8 m key = key) as Hr.
    { intros key. unfold rename, rekeyed. rewrite E. destruct (_ && _); [|done]. by destruct (pg_int8 _). }
    split; [split; [by intros ?; exists k|by intros (key & ? & <-); rewrite Hr]|].
    split; [by intros (a & ? & ?); exists k, a|intros (key & a & ? & ? & <-); rewrite Hr; by exists a].
  - rewrite <-normalized_ids in Hids. assert (Forall (λ c, 0 < case_id c < 2 ^ 63) (normalized <$> cases db)) as Hpos'.
    { apply Forall_fmap. eapply Forall_impl; [exact Hpos|]. intros c Hc. cbn. by rewrite (proj1 (normalized_same true c)). }
    pose proof (survivors_ok (cases_workspace (cat db)) _ Hids Hpos') as Hm.
    split; [by eapply reconciled_keys; eauto|by eapply reconciled_sent; eauto].
Qed.

(** Two alerts of merged cases with the survivor's workspace and destination, and
    no alert of the survivor: the second rewrite meets the primary key, the
    transaction is rolled back, and every later run fails the same way. *)
Theorem rekey_collision_is_permanent db (commits : bool) k1 k2 new
    (Htable : has_cases (cat db) = true) (Hindex : cases_tenant_index (cat db) = false) (Hcase : alerts_case (cat db) = true)
    (Hne : k1 ≠ k2) (H1 : is_Some (alerts db !! k1)) (H2 : is_Some (alerts db !! k2)) (Hnew : alerts db !! new = None) :
  let m := survivor_map (cases_workspace (cat db)) (normalized <$> cases db) in
  rekeyed pg_int8 m k1 = Some new → rekeyed pg_int8 m k2 = Some new →
  ∃ e, preflight_repair_funding_case_identity pg_int8 db commits = (db, RErr e).
Proof.
  intros m R1 R2. unfold preflight_repair_funding_case_identity. rewrite Htable, Hindex. cbn [negb orb]. cbv zeta. fold m.
  assert (m ≠ []) as Hm.
  { intros E. unfold rekeyed in R1. rewrite E in R1. destruct (_ && _); [|done]. by destruct (pg_int8 _). }
  destruct (forallb is_object (cases db) && _) eqn:Eg.
  { exfalso. apply andb_true_iff in Eg as [_ Hd]. rewrite negb_involutive, bool_decide_eq_true in Hd. apply Hm.
    unfold m. apply distinct_groups. by rewrite normalized_keys. }
  destruct (negb commits); [by eexists|]. rewrite (bool_decide_false (m = [])) by done.
  destruct (colliding pg_int8 m (cat db) Hcase (alerts db) k1 k2 new Hne H1 H2 R1 R2 Hnew) as [e ->]. by eexists.
Qed.

(** The first two repairs touch no case and move no alert. *)
Lemma sent_at_tables db altered db' : preflight_repair_alerts_sent_at db altered = (db', ROk ()) →
  cases db' = cases db ∧ alerts db' = alerts db ∧ has_cases (cat db') = has_cases (cat db) ∧ alerts_case (cat db') = alerts_case (cat db)
  ∧ cases_workspace (cat db') = cases_workspace (cat db) ∧ cases_tenant_index (cat db') = cases_tenant_index (cat db).
Proof. unfold preflight_repair_alerts_sent_at. cbv zeta. repeat case_match; intros [= <-]; done. Qed.

Lemma dedup_tables db commits db' : preflight_repair_legacy_dedup_keys pg_int8 db commits = (db', ROk ()) →
  cases db' = cases db ∧ (∀ k, is_Some (alerts db' !! k) ↔ is_Some (alerts db !! k))
  ∧ has_cases (cat db') = has_cases (cat db) ∧ alerts_case (cat db') = alerts_case (cat db)
  ∧ cases_workspace (cat db') = cases_workspace (cat db) ∧ cases_tenant_index (cat db') = cases_tenant_index (cat db).
Proof.
  unfold preflight_repair_legacy_dedup_keys. cbv zeta.
  destruct (has_alerts (cat db)); [|by intros [= <-]]. cbn [negb]. destruct (some_alert db (unsafe_subject pg_int8)); [done|].
  destruct (some_alert db (orphaned pg_int8 (cat db))); [|by intros [= <-]]. cbn [negb].
  destruct (negb commits); [done|]. intros [= <-]. split_and!; try done. intros k. cbn [alerts].
  rewrite map_lookup_imap. destruct (alerts db !! k); cbn; [|done]. by split; eexists.
Qed.

(** An alert whose owner is named keeps it; every orphan goes to the default
    workspace, which is made if there is none. *)
Lemma owners_kept db commits db' k a :
  preflight_repair_legacy_dedup_keys pg_int8 db commits = (db', ROk ()) → has_alerts (cat db) = true → alerts db !! k = Some a →
  ∃ a', alerts db' !! k = Some a' ∧ la_state a' = la_state a ∧ la_sent_at a' = la_sent_at a
    ∧ (safe_int8 pg_int8 (split_part k 2) = true → alerts_workspace (cat db) = true → la_workspace a' = la_workspace a)
    ∧ (orphaned pg_int8 (cat db) k a = true → la_workspace a' = default_workspace (workspaces db') ∧ is_Some (la_workspace a')).
Proof.
  unfold preflight_repair_legacy_dedup_keys. cbv zeta. intros H Ha Hk. rewrite Ha in H. cbn [negb] in H.
  destruct (some_alert db (unsafe_subject pg_int8)); [done|].
  destruct (some_alert db (orphaned pg_int8 (cat db))) eqn:Eo; cbn [negb] in H.
  - destruct (negb commits); [done|]. injection H as <-. cbn [alerts workspaces]. eexists. rewrite map_lookup_imap, Hk. cbn. split; [reflexivity|].
    destruct (orphaned pg_int8 (cat db) k a) eqn:Ek.
    + split_and!; try done; [intros Hs; unfold orphaned in Ek; by rewrite Hs, andb_false_r in Ek|]. intros _. split; [done|]. cbn.
      case_bool_decide as Ed; [done|]. cbn. destruct (default_workspace (workspaces db)) eqn:Ew; [by destruct Ed; eexists|].
      unfold default_workspace in *. destruct (find_first _ (workspaces db ++ _)) eqn:Ef; [by eexists|]. exfalso.
      rewrite find_first_None in Ef. specialize (Ef (next_workspace db, "default")). cbn in Ef. rewrite bool_decide_true in Ef by done.
      enough (true = false) by done. apply Ef. apply elem_of_app. right. by left.
    + destruct (alerts_workspace (cat db)); split_and!; done.
  - injection H as <-. exists a. split_and!; try done. intros Ek. unfold some_alert in Eo. rewrite existsb_false_elem in Eo.
    specialize (Eo (k, a)). cbn in Eo. rewrite Ek in Eo. enough (true = false) by done. apply Eo. by apply elem_of_map_to_list.
Qed.

(** The whole migration of such a database fails: before any file is applied, on
    every run, whatever the bundle and the ledger. *)
Theorem collision_blocks_the_migrations db (commits : nat → bool) k1 k2 new sha256_hex exec_sql revoke_sql canonical_expr bundle accept
    (ledger : ledger_db (preflight_db J D))
    (Hworld : world ledger = db) (Hrevoke : ∀ w role, (revoke_sql w role).1 = w)
    (Htable : has_cases (cat db) = true) (Hindex : cases_tenant_index (cat db) = false) (Hcase : alerts_case (cat db) = true)
    (Hne : k1 ≠ k2) (H1 : is_Some (alerts db !! k1)) (H2 : is_Some (alerts db !! k2)) (Hnew : alerts db !! new = None)
    (R1 : rekeyed pg_int8 (survivor_map (cases_workspace (cat db)) (normalized <$> cases db)) k1 = Some new)
    (R2 : rekeyed pg_int8 (survivor_map (cases_workspace (cat db)) (normalized <$> cases db)) k2 = Some new) :
  ∃ e, (migrate_bundle_with sha256_hex exec_sql revoke_sql (preflight pg_int8 commits) canonical_expr ledger bundle accept).2 = RErr e.
Proof.
  assert (∀ w roles w' r, protect_ledger revoke_sql w roles = (w', r) → w' = w) as Hp.
  { intros w roles. revert w. induction roles as [|role roles IH]; intros w w' r; cbn; [by intros [= <- _]|].
    pose proof (Hrevoke w role) as E. destruct (revoke_sql w role) as [w1 [msg|]]; cbn in E; subst w1; [case_match|]; eauto; by intros [= <- _]. }
  destruct (migrate_bundle_with _ _ _ _ _ _ _ _) as [db' r] eqn:E. apply migrate_inv in E as [[e [= ->]]|H]; [by eexists|].
  destruct H as (db0 & w1 & w2 & _ & _ & _ & _ & _ & ->%Hp & Hrun & _). exfalso. rewrite Hworld in Hrun. unfold preflight in Hrun.
  destruct (preflight_repair_alerts_sent_at db (commits 0%nat)) as [db1 [[]|?]] eqn:E1; [|done].
  destruct (preflight_repair_legacy_dedup_keys pg_int8 db1 (commits 1%nat)) as [db3 [[]|?]] eqn:E3; [|done].
  apply sent_at_tables in E1 as (C1 & A1 & P1 & P2 & P3 & P4). apply dedup_tables in E3 as (C3 & A3 & Q1 & Q2 & Q3 & Q4).
  destruct (rekey_collision_is_permanent db3 (commits 2%nat) k1 k2 new) as [e Ee];
    rewrite ?A3, ?Q3, ?Q1, ?Q2, ?Q4, ?C3, ?P1, ?P2, ?P3, ?P4, ?C1, ?A1; try done.
  - destruct (alerts db3 !! new) eqn:En; [|done]. exfalso. assert (is_Some (alerts db3 !! new)) as Hs by (by rewrite En).
    apply A3 in Hs. rewrite A1, Hnew in Hs. by destruct Hs.
  - rewrite Ee in Hrun. congruence.
Qed.
End promises.

(** ** Examples *)

Definition toy_int8 (text : string) : option Z := if bool_decide (text = "") then None else radix_value 10 0 text.

Lemma toy_int8_reads z : 0 < z < 2 ^ 63 → toy_int8 (pretty z) = Some z.
Proof.
  intros Hz. unfold toy_int8. pose proof (radix_value_pretty z ltac:(lia)) as E. case_bool_decide as Hp; [|done].
  rewrite Hp in E. cbn in E. injection E as E. lia.
Qed.

Definition toy_case (id at_ : Z) (stage source : string) (ev : case_evidence string) : MergeCase string Z :=
  MkMergeCase (CaseRow.mk id 1 "solana" "R" at_ (Some at_) at_ source None id (at_ + 10) stage (50 + id) (at_ + id) None) ev.

Definition toy_alert (st : AlertState) (case : Z) : LegacyAlert :=
  MkLegacyAlert (Some 1) (Some case) st (if decide (st = AlertState.Sent) then Some 5 else None) (Some 9) None None.

Definition toy_catalog : catalog := MkCatalog true true true true true (Some true) true true false.

(** Two cases of one recipient; the older row was funded later. *)
Definition toy_before : preflight_db string Z :=
  MkPreflight toy_catalog
    {["funding:1:1:chat" := toy_alert AlertState.Pending 1; "funding:1:2:chat" := toy_alert AlertState.Sent 2;
      "funding:1:2:a:b" := toy_alert AlertState.Pending 2]}
    [(1, "default")] 2
    [toy_case 1 200 "preparation" "late" (EvOther "null"); toy_case 2 100 "funded" "early" (EvObject {["route" := "x"]})]
    [MkMergeEvent 7 2 "fanout" 150 "e"].

Definition toy_after : preflight_db string Z := (preflight toy_int8 (λ _, true) toy_before).1.

Example toy_case_merged : cases toy_after =
  [MkMergeCase (CaseRow.mk 1 1 "solana" "R" 100 (Some 100) 100 "early" None 2 210 "preparation" 52 201 None)
     (EvObject {["route" := "x"; "legacy_evidence" := "null"]})].
Proof. vm_compute. reflexivity. Qed.

Example toy_event_moved : events toy_after = [MkMergeEvent 7 1 "fanout" 150 "e"].
Proof. vm_compute. reflexivity. Qed.

(** The sent alert's fact moves to the survivor's row. *)
Example toy_alerts_after : (λ a, (la_case a, la_state a, la_sent_at a)) <$> alerts toy_after =
  {["funding:1:1:chat" := (Some 1, AlertState.Sent, Some 5); "funding:1:1:a:b" := (Some 1, AlertState.Pending, None)]}.
Proof. vm_compute. reflexivity. Qed.

Lemma duplicates_merged_witness : NoDup (group_key true <$> cases toy_after).
Proof.
  refine (proj1 (duplicates_merged toy_int8 toy_before toy_after true _ _ _ _)); [done|done| |by vm_compute].
  apply (bool_decide_unpack _). by vm_compute.
Defined.

Lemma alerts_follow_their_case_witness : ∃ a, alerts toy_after !! "funding:1:1:chat" = Some a ∧ is_sent a = true.
Proof.
  refine (proj2 (proj2 (alerts_follow_their_case toy_int8 toy_before toy_after true _ _ _ _ _ _ toy_int8_reads _ "funding:1:1:chat")) _);
    [done..| | |by vm_compute|].
  - apply (bool_decide_unpack _). by vm_compute.
  - repeat constructor.
  - exists "funding:1:2:chat", (toy_alert AlertState.Sent 2). split_and!; by vm_compute.
Defined.

(** Three cases of one recipient, alerts of the second and the third only. *)
Definition stuck_db : preflight_db string Z :=
  MkPreflight toy_catalog {["funding:1:2:chat" := toy_alert AlertState.Sent 2; "funding:1:3:chat" := toy_alert AlertState.Pending 3]}
    [(1, "default")] 2
    [toy_case 1 200 "funded" "a" (EvObject ∅); toy_case 2 100 "funded" "b" (EvObject ∅); toy_case 3 150 "funded" "c" (EvObject ∅)] [].

Example stuck : preflight toy_int8 (λ _, true) stuck_db = (stuck_db, RErr "duplicate key value violates unique constraint").
Proof. vm_compute. reflexivity. Qed.

Lemma collision_blocks_the_migrations_witness : ∃ e,
  (migrate_bundle_with (λ s, s) (λ w _, Some w) (λ w _, (w, None)) (preflight toy_int8 (λ _, true)) "canon"
     (MkLedger false false false ∅ None [] None stuck_db) (MigrationBundle.mk "toy" [] ∅) false).2 = RErr e.
Proof.
  by apply (collision_blocks_the_migrations toy_int8 stuck_db (λ _, true) "funding:1:2:chat" "funding:1:3:chat" "funding:1:1:chat").
Defined.
