(* ===== verification/Startup.v ===== *)
(** * Start-up (src/src/main.rs, the start of src/src/db.rs)

    What a process decides before it works: which migrations it carries, which
    credential and how many connections it uses, whether the schema is the one
    it was built for, which tasks [run] starts, and the webhook's handler.
    [sha256_hex] is the digest, [utf8] whether bytes are UTF-8, [fs] the
    directories, [embedded] and [manifest] what the build compiled in,
    [valid_url] and [reaches] the connection options and the server, [ledger_at]
    the ledger of the database a URL names.  A task that is started is a value
    of [task]: the loops themselves are in Workers.v and TelegramIngest.v. *)
From stdpp Require Import base gmap sets list strings.
From stdpp Require Import options.
From S2P Require Import Prelude Text Floats Json Models TelegramIngest EventKeys CostBasis Decimals Helius Gmgn Evidence Labels Clusters Ingest Migrations Config.
Local Open Scope string_scope.
Local Open Scope Z_scope.
Local Open Scope list_scope.

(** ** The migration override *)

(** The variables of the process, and [PROCESS_MIGRATIONS_OVERRIDE]. *)
Record process_state := MkProcess { vars : gmap string string; captured : option (option string) }.

Definition MIGRATIONS_DIR_OVERRIDE : string := "SWI_MIGRATIONS_DIR".

(** The OnceLock keeps the first value. *)
Definition capture_process_migrations_override (p : process_state) : process_state :=
  match captured p with
  | Some _ => p
  | None => MkProcess (vars p) (Some (non_blank (vars p !! MIGRATIONS_DIR_OVERRIDE)))
  end.

(** [dotenvy::dotenv] sets what is not set. *)
Definition load_dotenv (p : process_state) (file : gmap string string) : process_state := MkProcess (vars p ∪ file) (captured p).

Inductive startup_event := Capture | Dotenv (file : gmap string string) | SetVar (name value : string).

Definition startup_step (p : process_state) (e : startup_event) : process_state :=
  match e with
  | Capture => capture_process_migrations_override p
  | Dotenv file => load_dotenv p file
  | SetVar name value => MkProcess (<[name := value]> (vars p)) (captured p)
  end.

Definition startup (p : process_state) (events : list startup_event) : process_state := fold_left startup_step events p.

(** [PROCESS_MIGRATIONS_OVERRIDE.get().and_then(..)]. *)
Definition override (p : process_state) : option string := captured p ≫= id.

(** ** Migration bundles *)

Inductive dir_entry :=
  | EntryError
  (** the contents are absent where they cannot be read as text *)
  | Entry (name : string) (is_file : bool) (contents : option string).

(** A directory; its listing when it can be opened; MANIFEST.sha256 when it is a
    file, and its text when it can be read. *)
Record directory := MkDir {
  display : string;
  listing : option (list dir_entry);
  manifest_file : option (option string);
}.

(** [Path::extension]. *)
Definition path_extension (name : string) : option string :=
  match split_on "." name with
  | [] | [_] | [""; _] => None
  | pieces => last pieces
  end.

Definition is_sql (name : string) (is_file : bool) : bool := is_file && bool_decide (path_extension name = Some "sql").

Section bundles.
Context (sha256_hex : string → string) (utf8 : string → bool).

Fixpoint read_entries (seen : gset string) (entries : list dir_entry) : result (list (string * string)) :=
  match entries with
  | [] => ROk []
  | EntryError :: _ => RErr "failed to read an entry"
  | Entry name is_file contents :: entries =>
      if negb (is_sql name is_file) then read_entries seen entries else
      if negb (utf8 name) then RErr "migration filename is not valid UTF-8" else
      match contents with
      | None => RErr "failed to read migration"
      | Some sql =>
          if bool_decide (name ∈ seen) then RErr "duplicate migration filename" else
          let! rest := read_entries ({[name]} ∪ seen) entries in
          ROk ((name, sql) :: rest)
      end
  end.

Definition from_dir (dir : directory) : result MigrationBundle :=
  match listing dir with
  | None => RErr "failed to read migrations dir"
  | Some entries =>
      let! entries := read_entries ∅ entries in
      match manifest_file dir with
      | None => RErr "the reviewed digest manifest is missing"
      | Some None => RErr "failed to read the manifest"
      | Some (Some body) => build sha256_hex (display dir) entries body
      end
  end.

Context (embedded_migrations : list (string * string)) (embedded_manifest : string) (fs : string → option directory).

Definition embedded : result MigrationBundle :=
  build sha256_hex "the migration bundle embedded in this binary" embedded_migrations embedded_manifest.

Definition resolve (p : process_state) : result MigrationBundle :=
  match override p with
  | Some explicit =>
      match fs (trim explicit) with
      | None => RErr "SWI_MIGRATIONS_DIR is not a directory"
      | Some dir => from_dir dir
      end
  | None => embedded
  end.

(** ** Connections *)

Context {W : Type} (valid_url reaches : string → bool) (ledger_at : string → ledger_db W).

Record PgPool := MkPool { pool_url : string; pool_max : Z }.

Definition connect (url : string) (max_connections : Z) : result PgPool :=
  if negb (valid_url url) then RErr "invalid DATABASE_URL" else
  if negb (reaches url) then RErr "failed to connect to PostgreSQL" else
  ROk (MkPool url (Z.max max_connections 2)).

(** The schema of [url] against the bundle of this process. *)
Definition verify_schema (p : process_state) (url : string) : result () :=
  if negb (ledger_exists (ledger_at url)) then RErr "database has no migration ledger" else
  let! _ := assert_ledger_provenance_authority (ledger_at url) in
  let! bundle := resolve p in
  ensure_schema_current sha256_hex (ledger_at url) bundle.

Definition connect_verified (p : process_state) (url : string) (max_connections : Z) : result PgPool :=
  let! pool := connect url max_connections in
  let! _ := verify_schema p url in
  ROk pool.

Definition pool_size (scale_workers : Z) : Z := Z.max 2 (Z.min 16 (wrap_u32 (wrap_u32 scale_workers * 2))).

(** ** Credentials *)

Definition require_database_url (s : Settings) : result string :=
  match non_blank (database_url (env s)) with Some url => ROk url | None => RErr "DATABASE_URL not set" end.

Definition require_migration_database_url (s : Settings) : result string :=
  match non_blank (migration_database_url (env s)) with
  | Some url => ROk url
  | None =>
      match non_blank (database_url (env s)) with
      | Some url => ROk url
      | None => RErr "neither MIGRATION_DATABASE_URL nor DATABASE_URL is set"
      end
  end.

Definition config_workspace (s : Settings) : result Z :=
  let id := workspace_id (config s) in
  if id <=? 0 then RErr "workspace_id must be positive" else ROk id.

Definition parse_chain (value : string) : result ChainKind :=
  match ChainKind.parse value with Some c => ROk c | None => RErr "unknown chain" end.

(** ** The database commands *)

(** [migrate] is [migrate_bundle_with] on the ledger of the database. *)
Definition db_migrate (migrate : ledger_db W → MigrationBundle → bool → ledger_db W * result ()) (p : process_state) (s : Settings)
    (accept_legacy_baseline : bool) : (string → ledger_db W) * result () :=
  match (let! url := require_migration_database_url s in connect url 2) with
  | RErr e => (ledger_at, RErr e)
  | ROk pool =>
      match resolve p with
      | RErr e => (ledger_at, RErr e)
      | ROk bundle =>
          let '(l, r) := migrate (ledger_at (pool_url pool)) bundle accept_legacy_baseline in
          (λ u, if decide (u = pool_url pool) then l else ledger_at u, r)
      end
  end.

(** The names [db status] prints; an error is a non-zero exit. *)
Definition db_status (p : process_state) (s : Settings) (listed : bool) : result (list string) :=
  let! url := require_database_url s in
  let! pool := connect url 2 in
  let! baseline := if listed then ROk (baseline_migrations (ledger_at (pool_url pool))) else RErr "schema status unavailable" in
  let! _ := match verify_schema p (pool_url pool) with ROk _ => ROk () | RErr _ => RErr "schema NOT current" end in
  ROk baseline.

Definition retention_days (s : Settings) : result Z :=
  let profile := runtime_profile (config s) in
  match effective_retention_days (raw_retention_days profile)
          (match profile with
           | Low => raw_events_days_low (retention (config s))
           | Scale => raw_events_days_scale (retention (config s))
           end) with
  | ROk days => ROk days
  | RErr _ => RErr "invalid raw-event retention configuration"
  end.

(** The state of the one cycle, when there is one: it is printed for both of
    the cycle's outcomes. *)
Definition retention_run_once {J D} (p : process_state) (s : Settings) (db : evidence_db J D) (clock : nat → option Z) (done_at : Z)
    : evidence_db J D * option MaintenanceState * result () :=
  match (let! url := require_database_url s in let! _ := connect_verified p url 2 in retention_days s) with
  | RErr e => (db, None, RErr e)
  | ROk days =>
      match run_cycle_recording db clock days done_at MaintenanceState.new with
      | (db, state, ROk _) => (db, Some state, ROk ())
      | (db, state, RErr _) => (db, Some state, RErr "retention cycle failed")
      end
  end.

(** ** run *)

Inductive task :=
  | Retention (days interval_secs : Z)
  | RetentionReport
  | RobinhoodFunding (rpc_url chain_id : string)
  | SolanaStream (key : string)
  | TelegramPoll (session : string) (api_id interval limit : Z)
  | RadarCases
  | AlertDispatch
  | SignalEvaluation
  | Discovery.

Definition run_workers (gmgn : bool) : list task := [RadarCases; AlertDispatch; SignalEvaluation] ++ if gmgn then [Discovery] else [].

Definition robinhood_enabled (s : Settings) : bool :=
  negb (bool_decide (helius_keys (env s) = []))
  && negb (bool_decide (RobinhoodChain.chain_id (robinhood (chains (config s))) = "")).

Definition robinhood_task (s : Settings) (validated : bool) : list task :=
  match helius_keys (env s) with
  | key :: _ =>
      let c := robinhood (chains (config s)) in
      if robinhood_enabled s && validated
      then [RobinhoodFunding (HeliusConfig.evm_http_url (helius (config s)) (RobinhoodChain.helius_slug c) key) (RobinhoodChain.chain_id c)]
      else []
  | [] => []
  end.

Definition stream_task (s : Settings) : list task :=
  match helius_keys (env s) with key :: _ => [SolanaStream key] | [] => [] end.

(** [connect] and then [is_authorized], absent where one fails. *)
Definition telegram_task (s : Settings) (authorized : string → Z → option bool) : list task :=
  if negb (TelegramConfig.enabled (telegram (config s))) then [] else
  match tg_api_id (env s), tg_session_path (env s) with
  | Some id, Some session =>
      match authorized session (wrap_i32 id) with
      | Some true => [TelegramPoll session (wrap_i32 id) 30 (TelegramConfig.backfill_limit_per_channel (telegram (config s)))]
      | _ => []
      end
  | _, _ => []
  end.

(** The tasks started, and how [run] ends: with an error, or never. *)
Definition run (p : process_state) (s : Settings) (seeded rpc_built validated : bool) (authorized : string → Z → option bool)
    : list task * result () :=
  match (let! url := require_database_url s in connect_verified p url (pool_size (provider_workers (runtime_profile (config s))))) with
  | RErr e => ([], RErr e)
  | ROk _ =>
      if negb seeded then ([], RErr "seed narratives") else
      match retention_days s with
      | RErr e => ([], RErr e)
      | ROk days =>
          let started := [Retention days (6 * 60 * 60); RetentionReport] in
          match WorkspaceScope.from_job_context (workspace_id (config s)) with
          | RErr _ => (started, RErr "invalid workspace_id for the worker job context")
          | ROk _ =>
              if robinhood_enabled s && negb rpc_built then (started, RErr "rpc client") else
              (started ++ robinhood_task s validated ++ stream_task s ++ telegram_task s authorized
                 ++ run_workers (bool_decide (is_Some (gmgn_api_key (env s)))), ROk ())
          end
      end
  end.

(** ** The stream's backoff, in seconds *)

(** The wait after a stream that ended ([true]) or failed, and the next backoff. *)
Definition backoff_step (backoff : Z) (ended : bool) : Z * Z :=
  let wait := if ended then 2 else backoff in (wait, Z.min (wait * 2) 60).

Fixpoint waits (backoff : Z) (outcomes : list bool) : list Z :=
  match outcomes with
  | [] => []
  | ended :: outcomes => let '(wait, next) := backoff_step backoff ended in wait :: waits next outcomes
  end.

Definition stream_waits (outcomes : list bool) : list Z := waits 2 outcomes.

(** ** The servers *)

Inductive server_kind := Webhook | Api | AdminPanel.

Definition default_bind (k : server_kind) : string :=
  match k with Webhook => "127.0.0.1:8787" | Api => "127.0.0.1:8788" | AdminPanel => "127.0.0.1:8789" end.

Definition bind_address (k : server_kind) (bind : option string) (s : Settings) : string :=
  match bind with
  | Some b => b
  | None => match webhook_bind (server (config s)) with Some b => b | None => default_bind k end
  end.

Definition webhook_token (s : Settings) : option string := non_blank (webhook_auth_token (server (config s))).

(** The address and the token the webhook serves with. *)
Definition serve_webhook (p : process_state) (s : Settings) (bind : option string) (bound : string → bool) : result (string * string) :=
  let! url := require_database_url s in
  let! _ := connect_verified p url (pool_size (provider_workers (runtime_profile (config s)))) in
  match webhook_token s with
  | None => RErr "webhook auth token missing"
  | Some token => let at_ := bind_address Webhook bind s in if bound at_ then ROk (at_, token) else RErr "failed to bind"
  end.

(** The address [serve-api] and [serve-admin] listen at. *)
Definition serve_views (p : process_state) (s : Settings) (k : server_kind) (bind : option string) (bound : string → bool) : result string :=
  let! url := require_database_url s in
  let! _ := connect_verified p url 2 in
  let at_ := bind_address k bind s in if bound at_ then ROk at_ else RErr "failed to bind".
End bundles.

(** ** The webhook *)

Section webhook.
Context {J D : Type} `{JsonValue J, DecimalNum D}.
Context (numeric : Z → Z → D → option D) (accepts_raw : RawEvent J → bool) (dec : f64 → D).
Context (parse_json : string → option J) (adapter : ChainAdapter J D).

Definition bearer (header : option string) : option string := header ≫= strip_prefix "Bearer ".

(** One object, or the list of an array. *)
Definition deliveries (payload : J) : list J := match as_array payload with Some l => l | None => [payload] end.

(** [header]: the authorization header where it is text.  A panic is the loss of
    the connection: no status. *)
Definition handle_webhook (auth_token : string) (db : ingest_db J D) (header : option string) (body : string) (observed_at : Z)
    : ingest_db J D * option Z :=
  if negb (bool_decide (bearer header = Some auth_token)) then (db, Some 401) else
  match parse_json body with
  | None => (db, Some 400)
  | Some payload =>
      match ingest_webhook numeric accepts_raw dec db (deliveries payload) "helius_webhook" observed_at adapter with
      | (db, Done _) => (db, Some 200)
      | (db, Failed _) => (db, Some 500)
      | (db, Panicked) => (db, None)
      end
  end.
End webhook.

(** ** The override is the launcher's *)

Section override_facts.
Set Default Proof Using "Type".

Lemma startup_captured p v events : captured p = Some v → captured (startup p events) = Some v.
Proof.
  unfold startup. revert p. induction events as [|e events IH]; intros p Hp; [done|]. apply IH.
  destruct e; cbn; [unfold capture_process_migrations_override; by rewrite Hp|done|done].
Qed.

(** [main] captures first: whatever files and variables are loaded
    afterwards, and however often it captures again, the override is the one the
    process was launched with, and a blank one is none; a process that never
    captures has no override at all. *)
Theorem override_is_the_launchers p events :
  (captured p = None → override (startup p (Capture :: events)) = non_blank (vars p !! MIGRATIONS_DIR_OVERRIDE))
  ∧ (captured p = None → Capture ∉ events → override (startup p events) = None).
Proof.
  split.
  - intros Hp. unfold override, startup. cbn [fold_left startup_step]. fold (startup (capture_process_migrations_override p) events).
    rewrite (startup_captured _ (non_blank (vars p !! MIGRATIONS_DIR_OVERRIDE))); [done|].
    unfold capture_process_migrations_override. by rewrite Hp.
  - intros Hp Hn. unfold override. assert (captured (startup p events) = None) as ->; [|done]. unfold startup.
    revert p Hp. induction events as [|e events IH]; intros p Hp; [done|]. apply not_elem_of_cons in Hn as [He Hn].
    apply (IH Hn). by destruct e.
Qed.
End override_facts.

(** ** Directories *)

Section directories.
Context (utf8 : string → bool).
Set Default Proof Using "Type".
Local Abbreviation read := (read_entries utf8).

(** What an entry contributes; [None]: it stops the reading. *)
Definition entry_sql (e : dir_entry) : option (list (string * string)) :=
  match e with
  | EntryError => None
  | Entry name is_file contents =>
      if negb (is_sql name is_file) then Some [] else
      if negb (utf8 name) then None else (λ sql, [(name, sql)]) <$> contents
  end.

Lemma read_entries_spec seen entries out :
  read seen entries = ROk out ↔
  @concat _ <$> mapM entry_sql entries = Some out ∧ NoDup out.*1 ∧ ∀ n, n ∈ out.*1 → n ∉ seen.
Proof.
  revert seen out. induction entries as [|e entries IH]; intros seen out; cbn.
  - split; [intros [= <-]; split_and!; [done|constructor|by intros n ?%not_elem_of_nil]|by intros ([= <-] & _)].
  - destruct e as [|name is_file contents]; cbn; [by split; [|intros (? & _)]|].
    destruct (negb (is_sql name is_file)); cbn.
    { rewrite IH. by destruct (mapM entry_sql entries) as [l|]. }
    destruct (negb (utf8 name)); cbn; [by split; [|intros (? & _)]|].
    destruct contents as [sql|]; cbn; [|by split; [|intros (? & _)]].
    case_bool_decide as Hs.
    { split; [done|]. destruct (mapM entry_sql entries) as [l|]; [|by intros (? & _)]. cbn. intros ([= <-] & _ & Hd).
      exfalso. by apply (Hd name); [left|]. }
    destruct (read ({[name]} ∪ seen) entries) as [rest|err] eqn:E.
    + apply IH in E as (E & Hn & Hd). destruct (mapM entry_sql entries) as [l|]; [|done]. cbn in *. injection E as <-. split.
      * intros [= <-]. cbn. split_and!; [done| |].
        { constructor; [|done]. intros Hin. apply (Hd _ Hin). set_solver. }
        intros n [->|Hin]%elem_of_cons; [done|]. specialize (Hd n Hin). set_solver.
      * by intros ([= <-] & _).
    + split; [done|]. destruct (mapM entry_sql entries) as [l|] eqn:El; [|by intros (? & _)]. cbn. intros ([= <-] & [Hx Hn]%NoDup_cons & Hd).
      exfalso. enough (read ({[name]} ∪ seen) entries = ROk (concat l)) by congruence. apply IH. split_and!; [done|done|].
      intros n Hin. specialize (Hd n ltac:(by right)). set_unfold. intros [->|?]; [|done]. done.
Qed.

Lemma sorted_names_unique (l l' : list (string * string)) : NoDup l.*1 → l ≡ₚ l' →
  stable_sort (λ a b, String.leb a.1 b.1) l = stable_sort (λ a b, String.leb a.1 b.1) l'.
Proof.
  intros Hn Hp. set (leb := λ a b : string * string, String.leb a.1 b.1).
  assert (∀ a b, leb a b = true ∨ leb b a = true) as Htot by (intros a b; apply str_leb_total).
  assert (∀ a b c, leb a b = true → leb b c = true → leb a c = true) as Htr by (intros a b c; apply str_leb_trans).
  apply (StronglySorted_unique_strong (λ a b, leb a b = true)).
  - intros [n s] [n' s'] H1 H2 L1 L2. rewrite elem_of_stable_sort in H1, H2. rewrite <-Hp in H2.
    assert (n = n') as <- by (by apply str_leb_antisym). f_equal.
    apply list_elem_of_lookup in H1 as [i Hi], H2 as [j Hj]. assert (i = j) as ->; [|congruence].
    eapply (NoDup_lookup l.*1); [done| |]; rewrite list_lookup_fmap; [by rewrite Hi|by rewrite Hj].
  - by apply stable_sort_sorted.
  - by apply stable_sort_sorted.
  - by rewrite !stable_sort_perm.
Qed.

Context (sha256_hex : string → string).
Local Abbreviation load := (from_dir sha256_hex utf8).

Lemma mapM_perm {A B} (f : A → option B) l l' ys : l ≡ₚ l' → mapM f l = Some ys → ∃ ys', mapM f l' = Some ys' ∧ ys ≡ₚ ys'.
Proof.
  intros Hp. revert ys. induction Hp as [|x l l' _ IH|x y l|l l' l'' _ IH1 _ IH2]; cbn; intros ys.
  - intros [= <-]. by exists [].
  - destruct (f x) as [b|]; [cbn|done]. destruct (mapM f l) as [bs|]; [cbn|done]. intros [= <-].
    destruct (IH bs eq_refl) as (bs' & -> & Hb). exists (b :: bs'). cbn. split; [done|by constructor].
  - destruct (f x) as [b|], (f y) as [c|]; cbn; try done. destruct (mapM f l) as [bs|]; [cbn|done]. intros [= <-].
    eexists. split; [done|]. constructor.
  - intros (ys' & E & Hy)%IH1. destruct (IH2 ys' E) as (zs & Ez & Hz). exists zs. split; [done|by etrans].
Qed.

Lemma concat_perm {A} (l l' : list (list A)) : l ≡ₚ l' → concat l ≡ₚ concat l'.
Proof.
  induction 1 as [|x l l' _ IH|x y l|l l' l'' _ IH1 _ IH2]; cbn; [done|by rewrite IH| |by etrans].
  by rewrite !app_assoc, (Permutation_app_comm x y).
Qed.

Lemma elem_of_concat {A} (ls : list (list A)) x : x ∈ concat ls ↔ ∃ l, x ∈ l ∧ l ∈ ls.
Proof. setoid_rewrite list_elem_of_In. rewrite in_concat. by split; intros (l & ? & ?); exists l. Qed.

(** A bundle read from a directory holds every migration file the
    directory has, with the text it has, once each, and is the same bundle in
    whatever order the directory lists them; an entry that cannot be listed, a
    migration that cannot be read or whose name is not UTF-8 gives no bundle. *)
Theorem directory_read_whole dir entries b
    (Hlist : listing dir = Some entries) (Hload : load dir = ROk b) :
  (∀ name sql, (name, sql) ∈ MigrationBundle.entries b ↔ ∃ contents is_file, Entry name is_file contents ∈ entries
      ∧ is_sql name is_file = true ∧ contents = Some sql)
  ∧ NoDup (MigrationBundle.entries b).*1
  ∧ (∀ e, e ∈ entries → match e with
      | EntryError => False
      | Entry name is_file contents => is_sql name is_file = true → utf8 name = true ∧ is_Some contents
      end)
  ∧ ∀ entries', entries' ≡ₚ entries → load (MkDir (display dir) (Some entries') (manifest_file dir)) = ROk b.
Proof.
  unfold from_dir in Hload. rewrite Hlist in Hload. destruct (read ∅ entries) as [out|] eqn:Er; [|done].
  apply read_entries_spec in Er as (Ec & Hn & _). destruct (mapM entry_sql entries) as [ls|] eqn:Em; [cbn in Ec; injection Ec as <-|done].
  cbn in Hload. destruct (manifest_file dir) as [[body|]|] eqn:Ebody; [|done|done].
  pose proof Hload as (_ & _ & _ & _ & Eent)%bundle_is_reviewed. apply mapM_Some in Em as Hall2.
  split_and!.
  - intros name sql. rewrite Eent, elem_of_stable_sort, elem_of_concat. split.
    + intros (l & Hin & [k Hl]%list_elem_of_lookup). destruct (Forall2_lookup_r _ _ _ _ _ Hall2 Hl) as (e & He & Es).
      apply list_elem_of_lookup_2 in He. destruct e as [|n f c]; [done|]. cbn in Es.
      destruct (is_sql n f) eqn:Eq; cbn in Es; [|injection Es as <-; by apply not_elem_of_nil in Hin].
      destruct (utf8 n); cbn in Es; [|done]. destruct c as [t|]; [|done]. injection Es as <-.
      apply list_elem_of_singleton in Hin as [= -> ->]. by exists (Some t), f.
    + intros (c & f & [k He]%list_elem_of_lookup & Eq & ->). destruct (Forall2_lookup_l _ _ _ _ _ Hall2 He) as (l & Hl & Es).
      cbn in Es. rewrite Eq in Es. cbn in Es. destruct (utf8 name); cbn in Es; [|done]. injection Es as <-.
      exists [(name, sql)]. split; [by left|by eapply list_elem_of_lookup_2].
  - rewrite Eent. by rewrite stable_sort_perm.
  - intros e [k He]%list_elem_of_lookup. destruct (Forall2_lookup_l _ _ _ _ _ Hall2 He) as (l & _ & Es).
    destruct e as [|n f c]; [done|]. intros Eq. cbn in Es. rewrite Eq in Es. cbn in Es. destruct (utf8 n); [|done]. split; [done|].
    destruct c; [by eexists|done].
  - intros entries' Hp. destruct (mapM_perm entry_sql entries entries' ls) as (ls' & Em' & Hls); [done|done|].
    apply concat_perm in Hls as Hc. unfold from_dir. cbn [listing manifest_file display].
    assert (read ∅ entries' = ROk (concat ls')) as ->.
    { apply read_entries_spec. rewrite Em'. split_and!; [done| |intros n _; apply not_elem_of_empty].
      by rewrite (fmap_Permutation fst _ _ (symmetry Hc)). }
    rewrite <-Hload. cbn. unfold build. rewrite (sorted_names_unique (concat ls) (concat ls')) by done. done.
Qed.
End directories.

(** ** Commands and servers *)

Section processes.
Context (sha256_hex : string → string) (utf8 : string → bool) (embedded_migrations : list (string * string)) (embedded_manifest : string)
  (fs : string → option directory) {W : Type} (valid_url reaches : string → bool) (ledger_at : string → ledger_db W).
Set Default Proof Using "Type".
Local Abbreviation verified := (connect_verified sha256_hex utf8 embedded_migrations embedded_manifest fs valid_url reaches ledger_at).
Local Abbreviation status := (db_status sha256_hex utf8 embedded_migrations embedded_manifest fs valid_url reaches ledger_at).
Local Abbreviation started := (run sha256_hex utf8 embedded_migrations embedded_manifest fs valid_url reaches ledger_at).
Implicit Types (p : process_state) (s : Settings).

Ltac in_list H := rewrite ?elem_of_cons, ?elem_of_nil in H; destruct_or?; try done; try discriminate.

Lemma pool_size_bounds workers : 2 <= pool_size workers <= 16.
Proof. unfold pool_size. lia. Qed.

(** [db status] exits 0 exactly when a command of this process would
    open its pool: the same credential, the same bundle, the same verdict on the
    schema, and never because the report itself was printed. *)
Theorem status_is_the_start_verdict p s n :
  (∃ names, status p s true = ROk names) ↔ ∃ pool, (let! url := require_database_url s in verified p url n) = ROk pool.
Proof.
  unfold db_status, connect_verified, connect. destruct (require_database_url s) as [url|e]; [|by split; intros [? ?]].
  destruct (negb (valid_url url)); [by split; intros [? ?]|]. destruct (negb (reaches url)); [by split; intros [? ?]|]. cbn [pool_url].
  destruct (verify_schema _ _ _ _ _ _ p url); split; intros [? ?]; try done; by eexists.
Qed.

(** A failed report of the baseline is a failure. *)
Lemma status_unlisted p s names : status p s false ≠ ROk names.
Proof.
  unfold db_status, connect. destruct (require_database_url s) as [url|e]; [|done].
  destruct (negb (valid_url url)); [done|]. by destruct (negb (reaches url)).
Qed.

Lemma effective_days_range profile o days : effective_retention_days profile o = ROk days → 1 <= days <= 3650.
Proof.
  unfold effective_retention_days, MIN_RETENTION_DAYS, MAX_RETENTION_DAYS. intros E.
  destruct (Z.ltb_spec (default profile o) 1); [done|]. destruct (Z.ltb_spec 3650 (default profile o)); [done|]. injection E as <-. lia.
Qed.

(** Claim C19: [run] never works against another schema, in no workspace or with a
    retention out of range: where it runs on, its pool was verified, its workspace
    is positive and its retention between 1 and 3650 days, and the retention, the
    radar, the alerts and the evaluation of signals are all among its tasks; where
    it ends with an error, it has started the retention at most, and that only on
    a verified pool. *)
Theorem run_fails_closed p s seeded rpc_built validated authorized tasks r :
  started p s seeded rpc_built validated authorized = (tasks, r) →
  let open n := let! url := require_database_url s in verified p url n in
  (r = ROk () → (∃ n pool, open n = ROk pool) ∧ 0 < workspace_id (config s) ∧
    (∃ days, Retention days 21600 ∈ tasks ∧ 1 <= days <= 3650 ∧ retention_days s = ROk days)
    ∧ ∀ t, t ∈ [RetentionReport; RadarCases; AlertDispatch; SignalEvaluation] → t ∈ tasks)
  ∧ (∀ e, r = RErr e → (∀ t, t ∈ tasks → t = RetentionReport ∨ ∃ days, t = Retention days 21600 ∧ retention_days s = ROk days)
    ∧ (tasks ≠ [] → ∃ n pool, open n = ROk pool)).
Proof.
  unfold run. set (n := pool_size _). destruct (let! url := require_database_url s in verified p url n) as [pool|e] eqn:Eo.
  2:{ intros [= <- <-]. split; [done|]. intros _ _. split; [by intros t ?%not_elem_of_nil|done]. }
  destruct seeded; cbn [negb]; [|intros [= <- <-]; split; [done|]; intros _ _; split; [by intros t ?%not_elem_of_nil|done]].
  destruct (retention_days s) as [days|e] eqn:Ed; [|intros [= <- <-]; split; [done|]; intros _ _; split; [by intros t ?%not_elem_of_nil|done]].
  assert (∃ n pool, (let! url := require_database_url s in verified p url n) = ROk pool) as Hopen by by exists n, pool.
  assert (∀ t, t ∈ [Retention days (6 * 60 * 60); RetentionReport] → t = RetentionReport ∨ ∃ d, t = Retention d 21600 ∧ ROk days = ROk d) as Hfirst.
  { intros t [->|[->|[]%not_elem_of_nil]%elem_of_cons]%elem_of_cons; [right; by exists days|by left]. }
  unfold WorkspaceScope.from_job_context. destruct (Z.leb_spec (workspace_id (config s)) 0) as [Hw|Hw].
  { intros [= <- <-]. split; [done|]. intros _ _. by split. }
  destruct (robinhood_enabled s && negb rpc_built); [intros [= <- <-]; split; [done|]; intros _ _; by split|].
  intros [= <- <-]. split; [|done]. intros _. split_and!; [done|done| |].
  - exists days. split_and!; [by left| | |done]; revert Ed; unfold retention_days;
      destruct (effective_retention_days _ _) eqn:E; intros [= ->]; apply effective_days_range in E; lia.
  - intros t Ht. unfold run_workers. cbn in Ht. rewrite !elem_of_cons, elem_of_nil in Ht. cbn [app]. rewrite !elem_of_cons, !elem_of_app, !elem_of_cons.
    destruct Ht as [->|[->|[->|[->|[]]]]]; tauto.
Qed.

(** The optional tasks, and what each needs. *)
Lemma run_optional p s seeded rpc_built validated authorized tasks :
  started p s seeded rpc_built validated authorized = (tasks, ROk ()) →
  (Discovery ∈ tasks ↔ is_Some (gmgn_api_key (env s)))
  ∧ (∀ key, SolanaStream key ∈ tasks ↔ head (helius_keys (env s)) = Some key)
  ∧ ∀ session id limit, TelegramPoll session id 30 limit ∈ tasks →
      TelegramConfig.enabled (telegram (config s)) = true ∧ tg_session_path (env s) = Some session ∧ authorized session id = Some true.
Proof.
  unfold run. destruct (let! url := _ in _) as [pool|e]; [|done]. destruct seeded; [cbn [negb]|done].
  destruct (retention_days s) as [days|e]; [|done]. unfold WorkspaceScope.from_job_context. destruct (_ <=? 0); [done|].
  destruct (robinhood_enabled s && negb rpc_built); [done|]. intros [= <-].
  assert (∀ t, t ∈ robinhood_task s validated → ∃ u c, t = RobinhoodFunding u c) as Hr.
  { intros t. unfold robinhood_task. destruct (helius_keys (env s)); [by intros ?%not_elem_of_nil|].
    destruct (_ && _); [intros ->%list_elem_of_singleton; by eexists _, _|by intros ?%not_elem_of_nil]. }
  assert (∀ t, t ∈ stream_task s ↔ ∃ key, t = SolanaStream key ∧ head (helius_keys (env s)) = Some key) as Hs.
  { intros t. unfold stream_task. destruct (helius_keys (env s)) as [|k ks]; cbn; [split; [by intros ?%not_elem_of_nil|by intros (? & _ & ?)]|].
    rewrite list_elem_of_singleton. split; [intros ->; by exists k|by intros (? & -> & [= ->])]. }
  assert (∀ t, t ∈ telegram_task s authorized → ∃ session id, t = TelegramPoll session id 30
      (TelegramConfig.backfill_limit_per_channel (telegram (config s)))
      ∧ TelegramConfig.enabled (telegram (config s)) = true ∧ tg_session_path (env s) = Some session ∧ authorized session id = Some true) as Ht.
  { intros t. unfold telegram_task. destruct (TelegramConfig.enabled _); cbn; [|by intros ?%not_elem_of_nil].
    destruct (tg_api_id (env s)) as [id|]; [|by intros ?%not_elem_of_nil]. destruct (tg_session_path (env s)) as [session|]; [|by intros ?%not_elem_of_nil].
    destruct (authorized session (wrap_i32 id)) as [[]|] eqn:Ea; [|by intros ?%not_elem_of_nil|by intros ?%not_elem_of_nil].
    intros ->%list_elem_of_singleton. by eexists _, _. }
  assert (∀ t, t ∈ run_workers (bool_decide (is_Some (gmgn_api_key (env s)))) ↔
    t ∈ [RadarCases; AlertDispatch; SignalEvaluation] ∨ t = Discovery ∧ is_Some (gmgn_api_key (env s))) as Hw.
  { intros t. unfold run_workers. rewrite elem_of_app. case_bool_decide; [rewrite list_elem_of_singleton; tauto|]. rewrite elem_of_nil. tauto. }
  assert (∀ t, t ∈ [Retention days (6 * 60 * 60); RetentionReport] ++ robinhood_task s validated ++ stream_task s ++ telegram_task s authorized
      ++ run_workers (bool_decide (is_Some (gmgn_api_key (env s)))) ↔
    t ∈ [Retention days (6 * 60 * 60); RetentionReport; RadarCases; AlertDispatch; SignalEvaluation] ∨ t ∈ robinhood_task s validated
    ∨ (∃ key, t = SolanaStream key ∧ head (helius_keys (env s)) = Some key) ∨ t ∈ telegram_task s authorized
    ∨ t = Discovery ∧ is_Some (gmgn_api_key (env s))) as Hin.
  { intros t. rewrite !elem_of_app, Hs, Hw, !elem_of_cons, !elem_of_nil. tauto. }
  split_and!.
  - rewrite (Hin Discovery). split; [|by intros ?; do 4 right]. intros [H|[H|[(? & ? & _)|[H|[_ ?]]]]]; try done.
    + by in_list H.
    + by apply Hr in H as (? & ? & ?).
    + by apply Ht in H as (? & ? & ? & _).
  - intros key. rewrite (Hin (SolanaStream key)). split; [|intros ?; do 2 right; left; by exists key].
    intros [H|[H|[(? & [= <-] & ?)|[H|[? _]]]]]; try done.
    + by in_list H.
    + by apply Hr in H as (? & ? & ?).
    + by apply Ht in H as (? & ? & ? & _).
  - intros session id limit. rewrite (Hin (TelegramPoll session id 30 limit)). intros [H|[H|[(? & ? & _)|[H|[? _]]]]]; try done.
    + by in_list H.
    + by apply Hr in H as (? & ? & ?).
    + apply Ht in H as (? & ? & [= -> -> ->] & ?). done.
Qed.
End processes.

(** ** Two settings *)

Definition set_robinhood_enabled (b : bool) (s : Settings) : Settings :=
  let c := config s in
  let r := robinhood (chains c) in
  MkSettings
    (MkApp (runtime_profile c) (workspace_id c)
       (MkChains (solana_enabled (chains c))
          (RobinhoodChain.mk b (RobinhoodChain.chain_id r) (RobinhoodChain.helius_slug r) (RobinhoodChain.native_symbol r)
             (RobinhoodChain.native_decimals r) (RobinhoodChain.explorer_url r) (RobinhoodChain.start_block r)))
       (helius c) (gmgn c) (telegram c) (funding_radar c) (scoring c) (signals c) (gmgn_only_confidence_cap c) (retention c) (queues c)
       (server c))
    (env s).

(** [chains.robinhood.enabled] switches nothing: the loop runs wherever a key and
    a chain id are configured. *)
Lemma robinhood_switch_ignored b s validated :
  robinhood_task (set_robinhood_enabled b s) validated = robinhood_task s validated
  ∧ robinhood_enabled (set_robinhood_enabled b s) = robinhood_enabled s.
Proof. done. Qed.

(** With [server.webhook_bind] set the three servers have one address between
    them: only the first that starts can bind it. *)
Lemma servers_share_bind s b k : webhook_bind (server (config s)) = Some b → bind_address k None s = b.
Proof. unfold bind_address. by intros ->. Qed.

(** ** The backoff *)

Section backoff.
Set Default Proof Using "Type".

Lemma waits_bounds b outcomes : 2 <= b <= 60 → Forall (λ w, 2 <= w <= 60) (waits b outcomes).
Proof.
  revert b. induction outcomes as [|ended outcomes IH]; intros b Hb; cbn; constructor.
  - destruct ended; lia.
  - apply IH. destruct ended; lia.
Qed.

Lemma waits_failing k n : 2 <= 2 ^ k → 0 <= k → waits (Z.min (2 ^ k) 60) (replicate n false) = (λ i, Z.min (2 ^ (k + Z.of_nat i)) 60) <$> seq 0 n.
Proof.
  revert k. induction n as [|n IH]; intros k Hk Hk0; [done|]. cbn [replicate waits seq fmap list_fmap]. unfold backoff_step. cbn.
  rewrite Z.add_0_r. f_equal. rewrite <-fmap_S_seq, <-list_fmap_compose.
  replace (Z.min (Z.min (2 ^ k) 60 * 2) 60) with (Z.min (2 ^ (k + 1)) 60) by (rewrite Z.pow_add_r by lia; change (2 ^ 1) with 2; lia).
  rewrite IH; [|rewrite Z.pow_add_r by lia; change (2 ^ 1) with 2; lia|lia]. apply list_fmap_ext. intros i x Hx. cbn. do 2 f_equal. lia.
Qed.

(** The stream reconnects after a wait of 2 to 60 seconds whatever
    happened before, doubled with every failure in a row; after a stream that
    ended by itself it waits 2 seconds. *)
Theorem backoff_is_bounded outcomes n :
  Forall (λ w, 2 <= w <= 60) (stream_waits outcomes)
  ∧ stream_waits (replicate n false) = (λ i, Z.min (2 ^ (1 + Z.of_nat i)) 60) <$> seq 0 n
  ∧ ∀ i, outcomes !! i = Some true → stream_waits outcomes !! i = Some 2.
Proof.
  unfold stream_waits. split_and!.
  - apply waits_bounds. lia.
  - by apply (waits_failing 1).
  - generalize 2 at 1 as b. induction outcomes as [|ended outcomes IH]; intros b i Hi; [done|]. cbn.
    destruct i as [|i]; [by injection Hi as ->|]. by apply IH.
Qed.
End backoff.

Example five_failures : stream_waits [false; false; false; false; false; false; true; false] = [2; 4; 8; 16; 32; 60; 2; 4].
Proof. reflexivity. Qed.

(** ** The webhook's answers *)

Section webhook_facts.
Context {J D : Type} `{JsonValue J, DecimalNum D}.
Context (numeric : Z → Z → D → option D) (accepts_raw : RawEvent J → bool) (dec : f64 → D).
Context (parse_json : string → option J) (adapter : ChainAdapter J D).
Set Default Proof Using "Type".
Local Abbreviation handle := (handle_webhook numeric accepts_raw dec parse_json adapter).

Lemma bearer_iff header token : bearer header = Some token ↔ header = Some ("Bearer " +:+ token).
Proof.
  unfold bearer. destruct header as [h|]; [|done]. change (strip_prefix "Bearer " h = Some token ↔ Some h = Some ("Bearer " +:+ token)).
  rewrite strip_prefix_Some. split; [by intros ->|by intros [= ->]].
Qed.

(** A delivery is stored only for the exact bearer token and a body that
    is JSON; 401 and 400 leave the tables as they were; 200 says that every
    transaction of the body was ingested, in its order. *)
Theorem webhook_authenticates token db header body at_ db' code :
  handle token db header body at_ = (db', code) →
  (code = Some 401 ↔ header ≠ Some ("Bearer " +:+ token))
  ∧ (code = Some 401 ∨ code = Some 400 → db' = db)
  ∧ (code = Some 200 → header = Some ("Bearer " +:+ token) ∧ ∃ payload counts, parse_json body = Some payload
      ∧ ingest_webhook numeric accepts_raw dec db (deliveries payload) "helius_webhook" at_ adapter = (db', Done counts)).
Proof.
  unfold handle_webhook. case_bool_decide as Hb; rewrite bearer_iff in Hb; cbn [negb].
  - destruct (parse_json body) as [payload|]; [|by intros [= <- <-]; split_and!].
    destruct (ingest_webhook _ _ _ _ _ _ _ _) as [db1 [counts|e|]] eqn:E; intros [= <- <-]; split_and!; try done; try (by intros [?|?]).
    intros _. split; [done|]. by exists payload, counts.
  - intros [= <- <-]. by split_and!.
Qed.
End webhook_facts.

(** ** Examples *)

Definition launched : process_state := MkProcess {["SWI_MIGRATIONS_DIR" := "/srv/reviewed"]} None.
Definition bare : process_state := MkProcess ∅ None.
Definition planted : gmap string string := {["SWI_MIGRATIONS_DIR" := "/tmp/evil"]}.

(** A .env file that names another directory changes nothing. *)
Lemma override_is_the_launchers_witness :
  override (startup launched [Capture; Dotenv planted; SetVar "SWI_MIGRATIONS_DIR" "/tmp/evil"; Capture]) = Some "/srv/reviewed"
  ∧ override (startup bare [Capture; Dotenv planted; Capture]) = None.
Proof.
  split.
  - rewrite (proj1 (override_is_the_launchers launched _) eq_refl). by vm_compute.
  - rewrite (proj1 (override_is_the_launchers bare _) eq_refl). by vm_compute.
Defined.

(** Captured only after the file is loaded, it would be the file's. *)
Example captured_late : override (startup bare [Dotenv planted; Capture]) = Some "/tmp/evil".
Proof. by vm_compute. Qed.

Definition toy_entries : list dir_entry :=
  [Entry "2.sql" true (Some "B"); Entry "README.md" true None; Entry ".sql" true None; Entry "old.sql" false None;
   Entry "1.sql" true (Some "A")].
Definition toy_dir : directory := MkDir "toy" (Some toy_entries) (Some (Some toy_manifest)).

Lemma directory_read_whole_witness :
  from_dir toy_sha (λ _, true) (MkDir "toy" (Some (reverse toy_entries)) (Some (Some toy_manifest))) = ROk toy_bundle.
Proof.
  refine (proj2 (proj2 (proj2 (directory_read_whole (λ _, true) toy_sha toy_dir toy_entries toy_bundle _ _))) (reverse toy_entries) _).
  - reflexivity.
  - vm_compute. reflexivity.
  - apply reverse_Permutation.
Defined.

Example unreadable_migration :
  from_dir toy_sha (λ _, true) (MkDir "toy" (Some [Entry "1.sql" true None; Entry "2.sql" true (Some "B")]) (Some (Some toy_manifest)))
  = RErr "failed to read migration".
Proof. reflexivity. Qed.

Definition toy_settings (workspace : Z) : Settings :=
  MkSettings
    (MkApp Low workspace (MkChains true RobinhoodChain.default) HeliusConfig.default Gmgn.default_config TelegramConfig.default
       (funding_radar app_default) (scoring app_default) (signals app_default) 49 (MkRetention None None) QueuesConfig.default (MkServer None None))
    (MkEnvConfig (Some "postgres://db") None ["k1"] None None None None None None).

Definition toy_run (workspace : Z) : list task * result () :=
  run toy_sha (λ _, true) toy_files toy_manifest (λ _, None) (λ _, true) (λ _, true) (λ _, migrated_db) bare (toy_settings workspace)
    true true true (λ _ _, None).

Example running : toy_run 1 =
  ([Retention 14 21600; RetentionReport; SolanaStream "k1"; RadarCases; AlertDispatch; SignalEvaluation], ROk ()).
Proof. vm_compute. reflexivity. Qed.

(** The retention task has started when the workspace is refused. *)
Example refused_late : toy_run 0 = ([Retention 14 21600; RetentionReport], RErr "invalid workspace_id for the worker job context").
Proof. vm_compute. reflexivity. Qed.

Lemma run_fails_closed_witness : RadarCases ∈ (toy_run 1).1.
Proof.
  refine (proj2 (proj2 (proj2 (proj1 (run_fails_closed toy_sha (λ _, true) toy_files toy_manifest (λ _, None) (λ _, true) (λ _, true)
    (λ _, migrated_db) bare (toy_settings 1) true true true (λ _ _, None) (toy_run 1).1 (ROk ()) _) eq_refl))) RadarCases _).
  - vm_compute. reflexivity.
  - right. left.
Defined.
