(* ===== verification/Cli.v ===== *)
(** * The commands (src/src/main.rs)

    What each command does to the tables and answers.  A command's pool is
    [opened], the outcome of [require_database_url] and [connect_verified]
    (Startup.v); a statement that fails is a [false] of [ok] by its position, or
    an absent clock.  What a command prints is the value it answers with, and an
    error is a non-zero exit.  [text_le] is the database's order of texts. *)
From Stdlib Require Import QArith.QArith_base QArith.Qcanon.
From stdpp Require Import base gmap sets list strings pretty.
From stdpp Require Import options.
From S2P Require Import Prelude Text Floats Json Models Domain CostBasis Decimals Helius Gmgn EventKeys Evidence Clusters Chains Ingest Narrative TelegramIngest Health Config.
From S2P Require Import Scoring Queues FundingRadar Signals Workers Labels Auth Admin Views Startup.
Local Open Scope string_scope.
Local Open Scope Z_scope.
Local Open Scope list_scope.

(** The tables the commands share; what only one command reads is its argument. *)
Record cli_db (J D : Type) := MkCli {
  k_channels : gmap string PanelChannel;
  k_cases : list (ViewCase J D);
  k_case_events : list (ViewEvent J);
  k_labels : label_table;
  k_scores : list (ScoreRow D);
  k_evals : eval_db (D := D);
  k_queues : gmap string QueueRow;
}.
Arguments MkCli {_ _}. Arguments k_channels {_ _}. Arguments k_cases {_ _}. Arguments k_case_events {_ _}. Arguments k_labels {_ _}.
Arguments k_scores {_ _}. Arguments k_evals {_ _}. Arguments k_queues {_ _}.

(** What [wallet labels] prints of a label. *)
Record LabelLine := MkLabelLine { ll_kind : string; ll_disposition : string; ll_source : string; ll_status : string }.

Record Leader := MkLeader { ld_address : string; ld_skill : Z; ld_conviction : Z }.

(** When the statements of one evaluation run. *)
Record evaluation_run := MkRun {
  er_pause_read : bool;
  er_claimed_at : option Z;
  er_claimant : string;
  er_now : Z;
  er_policy_at : string → Z;
  er_fenced_at : Z;
  er_released : bool;
}.

Section commands.
Context {J D : Type} `{DecimalNum D}.
Context (s : Settings) (opened : result PgPool) (accepts : WalletLabel → bool) (text_le : string → string → bool).
Local Abbreviation db_t := (cli_db J D).
Implicit Types (db : db_t).

Definition set_k_channels db (c : gmap string PanelChannel) : db_t :=
  MkCli c (k_cases db) (k_case_events db) (k_labels db) (k_scores db) (k_evals db) (k_queues db).
Definition set_k_labels db (t : label_table) : db_t :=
  MkCli (k_channels db) (k_cases db) (k_case_events db) t (k_scores db) (k_evals db) (k_queues db).
Definition set_k_scores db (sc : list (ScoreRow D)) : db_t :=
  MkCli (k_channels db) (k_cases db) (k_case_events db) (k_labels db) sc (k_evals db) (k_queues db).
Definition set_k_evals db (e : eval_db (D := D)) : db_t :=
  MkCli (k_channels db) (k_cases db) (k_case_events db) (k_labels db) (k_scores db) e (k_queues db).

Definition on_pool {A} (k : result A) : result A := let! _ := opened in k.

(** ** telegram channels *)

Definition channels_list db (ok : bool) : result (list (string * string)) :=
  on_pool (if ok then ROk ((λ e, (e.1, TelegramIngest.status (pc_row e.2))) <$> stable_sort (λ a b, text_le a.1 b.1) (map_to_list (k_channels db)))
           else RErr "select telegram_channels").

(** A new row's username is its key; a row there is keeps its names. *)
Definition channels_add db (key : string) (ok : bool) : db_t * result () :=
  match on_pool (if ok then ROk () else RErr "insert into telegram_channels") with
  | RErr e => (db, RErr e)
  | ROk _ =>
      let username := match k_channels db !! key with None => Some key | Some _ => None end in
      (set_k_channels db (allow_channel (k_channels db) key None username), ROk ())
  end.

Definition channels_remove db (key : string) (ok : bool) : db_t * result () :=
  match on_pool (if ok then ROk () else RErr "update telegram_channels") with
  | RErr e => (db, RErr e)
  | ROk _ => (set_k_channels db (disable_channel (k_channels db) key), ROk ())
  end.

(** [telegram backfill]: the times it prints; it reads no channel. *)
Definition telegram_backfill (parse_rfc3339 : string → option Z) (from : string) (to : option string) (now : Z) : result (Z * Z) :=
  on_pool (match parse_rfc3339 from with
           | None => RErr "invalid --from RFC3339"
           | Some f =>
               match to with
               | None => ROk (f, now)
               | Some t => match parse_rfc3339 t with Some t => ROk (f, t) | None => RErr "invalid --to RFC3339" end
               end
           end).

(** ** funding radar *)

(** LIMIT refuses what is negative. *)
Definition limited {A} (limit : Z) (l : list A) : result (list A) :=
  if limit <? 0 then RErr "LIMIT must not be negative" else ROk (page limit l).

Definition radar_list db (stage : option string) (limit : Z) (ok : bool) : result (list (Z * string * string * string * Z)) :=
  on_pool (if negb ok then RErr "select funding_radar_cases" else
    let! rows := limited limit (newest (λ c, CaseRow.updated_at (vc_row c)) (List.filter (in_stage stage) (k_cases db))) in
    ROk ((λ c, let r := vc_row c in
               (CaseRow.id r, CaseRow.chain r, short_addr (CaseRow.recipient r), CaseRow.stage r, CaseRow.confidence r)) <$> rows)).

Definition radar_inspect db (case_id : Z) (ok : bool) : result (list (string * Z * J)) :=
  on_pool (if negb ok then RErr "select funding_radar_events" else
    ROk ((λ e, (ve_kind e, ve_at e, ve_evidence e))
      <$> stable_sort (λ a b, ve_at a <=? ve_at b) (List.filter (λ e, ve_case e =? case_id) (k_case_events db)))).

Definition radar_evaluate (radar : radar_db D) (recipient chain : string) (clock now : Z) : radar_db D * result FundingRadarDecision :=
  match (let! c := parse_chain chain in let! _ := opened in let! ws := config_workspace s in ROk (c, ws)) with
  | RErr e => (radar, RErr e)
  | ROk (c, ws) => let '(radar, d) := evaluate_radar_case radar clock ws c recipient now (funding_radar (config s)) in (radar, ROk d)
  end.

(** ** wallet *)

(** The pool, then the key, then the workspace, then the pages. *)
Definition wallet_sync `{JsonValue J} (numeric : Z → Z → D → option D) (accepts_raw : RawEvent J → bool) (dec : f64 → D)
    (http : nat → string → string → J → Helius.reply J) (turns : nat → Helius.turn) (clock : nat → Z) (db : ingest_db J D) (pool : HeliusPool)
    (now : Z) (adapter : ChainAdapter J D) (address chain : string) (max_pages : Z)
    : option (ingest_db J D * HeliusPool * outcome WalletSyncOutcome) :=
  match (let! c := parse_chain chain in let! _ := opened in
         let! _ := if bool_decide (helius_keys (env s) = []) then RErr "no HELIUS_KEY_1 configured" else ROk () in
         let! ws := config_workspace s in ROk (c, ws)) with
  | RErr e => Some (db, pool, Failed e)
  | ROk (c, ws) => sync_wallet numeric accepts_raw dec http turns clock db pool 0 now ws c address adapter max_pages
  end.

(** The minute of the scores: the clock is read twice, [t] and [t'], in
    nanoseconds. *)
Definition as_of_minute (from_timestamp : Z → option Z) (t t' t'' : Z) : Z :=
  default t'' (from_timestamp (timestamp t - Z.rem (timestamp t') 60)).

Definition wallet_score (numeric : Z → Z → D → option D) (evidence : evidence_db J D) db (now as_of : Z) (address chain : string)
    : option (db_t * result (option (WalletScoreResult D))) :=
  match (let! c := parse_chain chain in let! _ := opened in let! ws := config_workspace s in ROk (c, ws)) with
  | RErr e => Some (db, RErr e)
  | ROk (c, ws) =>
      let? scored := score_wallet numeric evidence (policy_view (k_labels db)) (k_scores db) now ws c address as_of (scoring (config s)) in
      Some (set_k_scores db scored.1, scored.2)
  end.

(** DISTINCT ON (address) of the rows in the order of address, as_of DESC. *)
Definition score_le (a b : ScoreRow D) : bool :=
  if bool_decide (sc_address a = sc_address b) then sc_as_of b <=? sc_as_of a else text_le (sc_address a) (sc_address b).

Fixpoint distinct_on (seen : gset string) (rows : list (ScoreRow D)) : list (ScoreRow D) :=
  match rows with
  | [] => []
  | r :: rows =>
      if bool_decide (sc_address r ∈ seen) then distinct_on seen rows
      else r :: distinct_on ({[sc_address r]} ∪ seen) rows
  end.

Definition latest_scores db (chain : ChainKind) : list (ScoreRow D) :=
  distinct_on ∅ (stable_sort score_le (List.filter (λ r, bool_decide (sc_chain r = ChainKind.as_str chain)) (k_scores db))).

(** [take(limit as usize)]. *)
Definition take_wrapped {A} (limit : Z) (l : list A) : list A :=
  let n := limit mod 2 ^ 64 in if n <? Z.of_nat (length l) then take (Z.to_nat n) l else l.

Definition wallet_leaderboard db (chain : string) (limit : Z) (ok : bool) : result (list Leader) :=
  let! c := parse_chain chain in
  on_pool (if negb ok then RErr "select wallet_scores" else
    let by_conviction r := wrap_i32 (- conviction_col r) in
    ROk ((λ r, MkLeader (sc_address r) (skill_col r) (conviction_col r))
      <$> take_wrapped limit (stable_sort (λ a b, by_conviction a <=? by_conviction b) (latest_scores db c)))).

(** The wallet, then the workspace, then its label: two statements. *)
Definition manual_label db (kind disposition reason address chain : string) (seen_at : Z) (upserted : bool) (inserted : option Z)
    : db_t * result () :=
  match (let! c := parse_chain chain in let! _ := opened in if upserted then ROk c else RErr "insert into wallets") with
  | RErr e => (db, RErr e)
  | ROk c =>
      let t := k_labels db in
      let w := upsert_wallet (policy_view t) (ChainKind.as_str c) address seen_at "manual" in
      let t := MkLabelTable (wallets w) (lt_rows t) (lt_next t) in
      let db := set_k_labels db t in
      match config_workspace s with
      | RErr e => (db, RErr e)
      | ROk ws =>
          match inserted with
          | None => (db, RErr "insert into wallet_labels")
          | Some now =>
              match append_label accepts t now (WalletLabel.mk ws (ChainKind.as_str c) address kind disposition reason "manual" 100 true None None) with
              | ROk t => (set_k_labels db t, ROk ())
              | RErr e => (db, RErr e)
              end
          end
      end
  end.

Definition wallet_block db (address chain : string) (reason : option string) :=
  manual_label db "manual_block" "skip" (default "manual block" reason) address chain.
Definition wallet_flow_only db := manual_label db "manual_flow_only" "flow_only" "manual flow-only".
Definition wallet_watch db := manual_label db "manual_watch" "watch" "manual watch".

(** The labels of one wallet, of a kind where one is named; their number. *)
Definition wallet_unblock db (address chain : string) (kind : option string) (now : Z) (ok : bool) : db_t * result nat :=
  match (let! c := parse_chain chain in let! _ := opened in let! ws := config_workspace s in
         if ok then ROk (c, ws) else RErr "update wallet_labels") with
  | RErr e => (db, RErr e)
  | ROk (c, ws) =>
      let t := k_labels db in
      let hit e := revocable ws (ChainKind.as_str c) address kind (le_label e) in
      (set_k_labels db (MkLabelTable (lt_wallets t) ((λ e, if hit e then revoke_entry now e else e) <$> lt_rows t) (lt_next t)),
       ROk (length (List.filter hit (lt_rows t))))
  end.

Definition label_status (now : Z) (l : WalletLabel) : string :=
  match WalletLabel.revoked_at l with
  | Some _ => "revoked"
  | None => if match WalletLabel.expires_at l with Some e => e <=? now | None => false end then "expired" else "active"
  end.

Definition label_line (now : Z) (e : LabelEntry) : LabelLine :=
  let l := le_label e in
  MkLabelLine (WalletLabel.kind l) (WalletLabel.disposition l) (if WalletLabel.manual l then "manual" else "auto") (label_status now l).

Definition wallet_labels db (address chain : string) (now : Z) (ok : bool) : result (list LabelLine) :=
  let! c := parse_chain chain in
  let! _ := opened in
  let! ws := config_workspace s in
  if ok then ROk (label_line now <$> labels_of (k_labels db) ws (ChainKind.as_str c) address) else RErr "select wallet_labels".

(** [content]: the file's text where it can be read; [clock] that of the [i]th
    line, [now] the instant of the transaction. *)
Definition wallet_import_blocklist db (content : option string) (chain : string) (clock : nat → Z) (now : Z) : db_t * result Z :=
  match (let! c := parse_chain chain in
         match content with
         | None => RErr "failed to read"
         | Some content => let! _ := opened in let! ws := config_workspace s in ROk (c, content, ws)
         end) with
  | RErr e => (db, RErr e)
  | ROk (c, content, ws) =>
      let t := k_labels db in
      match import_blocklist_tx accepts (policy_view t) ws (ChainKind.as_str c) (imap (λ i line, (clock i, line)) (lines content))
              "imported blocklist" with
      | (_, RErr e) => (db, RErr e)
      | (p, ROk imported) =>
          let fresh := drop (length (lt_rows t)) (labels p) in
          (set_k_labels db (MkLabelTable (wallets p) (lt_rows t ++ number_from (lt_next t) now fresh) (lt_next t + Z.of_nat (length fresh))),
           ROk imported)
      end
  end.

(** ** trace, token report, replay *)

Definition trace (graph : cluster_db D) db (now : Z) (address chain : string) (depth : Z) : result (list TraceStep) :=
  let! c := parse_chain chain in
  let! _ := opened in
  let! ws := config_workspace s in
  trace_wallet graph (policy_view (k_labels db)) now ws c address depth.

Definition token_report `{JsonValue J} (show_time : Z → string) (distinct : list string → list string) (narratives : narrative_db J)
    (order : list Z) (mint chain : string) (now : Z) : result (option NarrativeReport) :=
  let! c := parse_chain chain in
  let! _ := opened in
  explain_narrative show_time distinct narratives order c mint now.

(** What [telegram auth] signs in with. *)
Definition telegram_auth (outside_repo : string → result ()) : result (Z * string * string) :=
  match tg_api_id (env s), tg_api_hash (env s), tg_session_path (env s) with
  | Some id, Some hash, Some session => let! _ := outside_repo session in ROk (wrap_i32 id, hash, session)
  | _, _, _ => RErr "set TG_API_ID, TG_API_HASH, and TG_SESSION_PATH"
  end.

(** The adapters as [health] reports them: it validates no chain. *)
Definition health_chains : list ChainHealth :=
  chain_health (solana_enabled (chains (config s))) (robinhood_enabled s) false
    (if robinhood_enabled s then None else Some "missing HELIUS_KEY_1 or robinhood_chain_id") None.

Definition count_status db (ws : Z) (st : string) : Z :=
  Z.of_nat (length (List.filter (λ e, (ev_workspace e =? ws) && bool_decide (Signals.status e = st)) (evaluations (k_evals db)))).

(** The instant printed, and the two counts. *)
Definition replay (parse_rfc3339 : string → option Z) db (at_ : option string) (now : Z) (ok : nat → bool) : result (Z * Z * Z) :=
  let! t := match at_ with
            | None => ROk now
            | Some t => match parse_rfc3339 t with Some t => ROk t | None => RErr "invalid --at RFC3339" end
            end in
  let! _ := opened in
  let! ws := config_workspace s in
  if negb (ok 0%nat) then RErr "count accepted" else
  if negb (ok 1%nat) then RErr "count rejected" else
  ROk (t, count_status db ws "accepted", count_status db ws "rejected").

(** ** signal *)

Definition signal_rejected db (limit : Z) (ok : bool) : result (list (string * string * option string * Z)) :=
  let! _ := opened in
  let! ws := config_workspace s in
  if negb ok then RErr "select signal_evaluations" else
  let! rows := limited limit (newest evaluated_at
    (List.filter (λ e, (ev_workspace e =? ws) && bool_decide (Signals.status e = "rejected")) (evaluations (k_evals db)))) in
  ROk ((λ e, (ev_chain e, ev_mint e, rejection_code e, evaluated_at e)) <$> rows).

Context (as_strings : J → option (list string)) (from_u64 : Z → D) (min_history : D).
Context (accepts_signal : Signal (D := D) → bool) (accepts_evaluation : Evaluation (D := D) → bool).

Definition signal_evaluate (w : world J D) db (mint chain : string) (r : evaluation_run) : db_t * result (option nat) :=
  match (let! c := parse_chain chain in
         let! _ := opened in
         let! ws := config_workspace s in
         let! _ := if er_pause_read r then ROk () else RErr "select queue_state" in
         let! _ := if match k_queues db !! QUEUE_SIGNAL_EVAL with Some q => q_paused q | None => false end
                   then RErr "signal evaluation queue is paused" else ROk () in
         match er_claimed_at r with Some t => ROk (c, ws, t) | None => RErr "insert into signal_eval_claims" end) with
  | RErr e => (db, RErr e)
  | ROk (c, ws, t) =>
      match acquire_claim ws c mint (k_evals db) t (er_claimant r) with
      | (_, false) => (db, RErr "another worker holds the evaluation claim")
      | (e, true) =>
          let '(e, result) := evaluate_token_signals_impl as_strings from_u64 min_history accepts_signal accepts_evaluation w e
                                (er_policy_at r) (er_fenced_at r) ws c mint (er_now r) (Config.signals (config s)) (Some (er_claimant r)) in
          let e := if er_released r then release_eval_claim ws c mint e (er_claimant r) else e in
          (set_k_evals db e,
           match result, er_released r with
           | RErr msg, false => RErr ("the evaluation claim release also failed: " +:+ msg)
           | RErr msg, true => RErr msg
           | ROk _, false => RErr "evaluation succeeded but its claim release failed"
           | ROk id, true => ROk id
           end)
      end
  end.
End commands.

(** ** The labels *)

Section labels.
Context {J D : Type} `{DecimalNum D}.
Context (s : Settings) (opened : result PgPool) (accepts : WalletLabel → bool).
Set Default Proof Using "Type".
Implicit Types (db : cli_db J D).

(** A command that changes labels, with the clocks of its statements. *)
Inductive label_command :=
  | Block (address chain : string) (reason : option string) (seen_at : Z) (upserted : bool) (inserted : option Z)
  | FlowOnly (address chain : string) (seen_at : Z) (upserted : bool) (inserted : option Z)
  | Watch (address chain : string) (seen_at : Z) (upserted : bool) (inserted : option Z)
  | Unblock (address chain : string) (kind : option string) (now : Z) (ok : bool)
  | Import (content : option string) (chain : string) (clock : nat → Z) (now : Z).

Definition run_label db (o : label_command) : cli_db J D :=
  match o with
  | Block a c r t u i => (wallet_block s opened accepts db a c r t u i).1
  | FlowOnly a c t u i => (wallet_flow_only s opened accepts db a c t u i).1
  | Watch a c t u i => (wallet_watch s opened accepts db a c t u i).1
  | Unblock a c k t ok => (wallet_unblock s opened db a c k t ok).1
  | Import content c clock now => (wallet_import_blocklist s opened accepts db content c clock now).1
  end.

Lemma manual_label_cases db kind disposition reason address chain t up ins :
  let r := manual_label s opened accepts db kind disposition reason address chain t up ins in
  (∃ e, r = (db, RErr e)) ∨ ∃ c pool, ChainKind.parse chain = Some c ∧ opened = ROk pool ∧
    let w := upsert_wallet (policy_view (k_labels db)) (ChainKind.as_str c) address t "manual" in
    let seen := MkLabelTable (wallets w) (lt_rows (k_labels db)) (lt_next (k_labels db)) in
    (∃ e, r = (set_k_labels db seen, RErr e))
    ∨ ∃ ws now, config_workspace s = ROk ws ∧ ins = Some now ∧ r = (set_k_labels db (MkLabelTable (wallets w) (lt_rows (k_labels db)
        ++ [MkLabelEntry (lt_next (k_labels db)) now (WalletLabel.mk ws (ChainKind.as_str c) address kind disposition reason "manual" 100 true None None)])
        (lt_next (k_labels db) + 1)), ROk ()).
Proof.
  cbv zeta. unfold manual_label, parse_chain. destruct (ChainKind.parse chain) as [c|] eqn:Ec; [|left; by eexists].
  destruct opened as [pool|e]; [|left; by eexists]. destruct up; [|left; by eexists]. right. exists c, pool. split_and!; [done..|].
  destruct (config_workspace s) as [ws|e] eqn:Ews; [|left; by eexists]. destruct ins as [now|]; [|left; by eexists].
  match goal with |- context [append_label _ ?t ?n ?l] => destruct (append_label accepts t n l) as [t'|] eqn:E end; [|left; by eexists].
  apply append_label_ok in E as ->. right. by exists ws, now.
Qed.

Lemma unblock_cases db address chain kind now ok :
  let r := wallet_unblock s opened db address chain kind now ok in
  (∃ e, r = (db, RErr e)) ∨ ∃ c ws pool, ChainKind.parse chain = Some c ∧ opened = ROk pool ∧ config_workspace s = ROk ws ∧ ok = true ∧
    let hit e := revocable ws (ChainKind.as_str c) address kind (le_label e) in
    r = (set_k_labels db (MkLabelTable (lt_wallets (k_labels db)) ((λ e, if hit e then revoke_entry now e else e) <$> lt_rows (k_labels db))
           (lt_next (k_labels db))), ROk (length (List.filter hit (lt_rows (k_labels db))))).
Proof.
  cbv zeta. unfold wallet_unblock, parse_chain. destruct (ChainKind.parse chain) as [c|] eqn:Ec; [|left; by eexists].
  destruct opened as [pool|e]; [|left; by eexists]. destruct (config_workspace s) as [ws|e] eqn:Ews; [|left; by eexists].
  destruct ok; [|left; by eexists]. right. by exists c, ws, pool.
Qed.

(** The commands change the labels of the configured workspace only,
    and only on a verified pool: whatever else they are given, the labels of
    another workspace are those they were. *)
Theorem label_commands_stay_home db o w :
  own_rows w (k_labels (run_label db o)) ≠ own_rows w (k_labels db) →
  config_workspace s = ROk w ∧ ∃ pool, opened = ROk pool.
Proof.
  intros Hne.
  assert (∀ kind disposition reason address chain t up ins,
    own_rows w (k_labels (manual_label s opened accepts db kind disposition reason address chain t up ins).1) ≠ own_rows w (k_labels db) →
    config_workspace s = ROk w ∧ ∃ pool, opened = ROk pool) as Hmanual.
  { clear Hne. intros kind disposition reason address chain t up ins Hne.
    destruct (manual_label_cases db kind disposition reason address chain t up ins)
      as [[e E]|(c & pool & _ & Hp & [[e E]|(ws & now & Hws & _ & E)])]; rewrite E in Hne; [done|done|].
    split; [|by exists pool]. rewrite Hws. f_equal. destruct (decide (ws = w)) as [|Hw]; [done|]. exfalso. apply Hne.
    cbn [fst k_labels set_k_labels]. rewrite own_rows_app; [done|]. by intros e ->%list_elem_of_singleton. }
  destruct o as [a c r t up ins|a c t up ins|a c t up ins|address chain kind now ok|content chain clock now];
    cbn [run_label] in Hne; [by eapply Hmanual..| |].
  - destruct (unblock_cases db address chain kind now ok) as [[e E]|(c & ws & pool & _ & Hp & Hws & _ & E)]; rewrite E in Hne; [done|].
    split; [|by exists pool]. rewrite Hws. f_equal. destruct (decide (ws = w)) as [|Hw]; [done|]. exfalso. apply Hne.
    cbn [fst k_labels set_k_labels]. unfold own_rows. cbn [lt_rows]. apply filter_fmap_same.
    + intros e _ He%Z.eqb_eq. case_match eqn:Eh; [|done]. unfold revocable in Eh. rewrite !andb_true_iff, Z.eqb_eq in Eh.
      destruct Eh as [[[[E1 _] _] _] _]. congruence.
    + intros e. by case_match.
  - unfold wallet_import_blocklist, parse_chain in Hne. destruct (ChainKind.parse chain) as [c|]; [|done].
    destruct content as [content|]; [|done]. destruct opened as [pool|e]; [|done]. destruct (config_workspace s) as [ws|e] eqn:Ews; [|done].
    split; [|by exists pool]. f_equal. destruct (decide (ws = w)) as [|Hw]; [done|]. exfalso. apply Hne. cbv iota.
    destruct (import_blocklist_tx _ _ _ _ _ _) as [p [n|e]] eqn:E; [|done]. cbn [fst k_labels set_k_labels].
    unfold import_blocklist_tx in E. destruct (fold_result _ _ _) as [[p' n']|e'] eqn:Ef; [|done]. injection E as <- <-.
    apply import_ok in Ef as [Ef _]. rewrite own_rows_app; [done|]. intros e He. apply (list_elem_of_fmap_2 le_label) in He.
    rewrite number_from_label, Ef in He. cbn [policy_view labels] in He. rewrite drop_app_length' in He by (by rewrite length_fmap).
    by apply list_elem_of_fmap in He as (x & -> & _).
Qed.

(** The wallet's row is written before the workspace is checked: a command that
    is refused has stored it. *)
Theorem wallet_stored_before_the_check db kind disposition reason address chain t ins c pool
    (Hchain : ChainKind.parse chain = Some c) (Hopen : opened = ROk pool) (Hws : workspace_id (config s) <= 0) :
  ∃ e db', manual_label s opened accepts db kind disposition reason address chain t true ins = (db', RErr e)
    ∧ is_Some (lt_wallets (k_labels db') !! (ChainKind.as_str c, address)) ∧ lt_rows (k_labels db') = lt_rows (k_labels db).
Proof.
  unfold manual_label, parse_chain. rewrite Hchain, Hopen. unfold config_workspace. destruct (Z.leb_spec (workspace_id (config s)) 0); [|lia].
  eexists _, _. split; [done|]. split; [|done]. cbn. rewrite lookup_insert_eq. by eexists.
Qed.

Lemma status_active now l : label_status now l = "active" ↔ label_live now l = true.
Proof.
  unfold label_status, label_live. destruct (WalletLabel.revoked_at l); [done|]. rewrite bool_decide_true by done. cbn.
  destruct (WalletLabel.expires_at l) as [e|]; [|done]. destruct (Z.leb_spec e now), (Z.ltb_spec now e); try done; lia.
Qed.

Definition revoke_hit (ws : Z) (chain address : string) (kind : option string) (now : Z) (l : WalletLabel) : WalletLabel :=
  if revocable ws chain address kind l then revoke_row now l else l.

Lemma revoked_labels ws chain address kind now (rows : list LabelEntry) :
  le_label <$> ((λ e, if revocable ws chain address kind (le_label e) then revoke_entry now e else e) <$> rows)
  = revoke_hit ws chain address kind now <$> (le_label <$> rows).
Proof.
  rewrite <-!list_fmap_compose. apply list_fmap_ext. intros _ e _. cbn. unfold revoke_hit. by destruct (revocable _ _ _ _ _).
Qed.

(** A revocation touches only what its wallet's policy reads. *)
Lemma revoke_elsewhere ws chain address kind now t w chain' address' l : (chain, address) ≠ (chain', address') →
  (label_active t w chain' address' l = true → revoke_hit ws chain address kind now l = l)
  ∧ label_active t w chain' address' (revoke_hit ws chain address kind now l) = label_active t w chain' address' l.
Proof.
  intros Hne. unfold revoke_hit. destruct (revocable ws chain address kind l) eqn:Eh; [|done].
  unfold revocable in Eh. rewrite !andb_true_iff, !bool_decide_eq_true in Eh. destruct Eh as [[[[_ E1] E2] _] _].
  assert (∀ l', WalletLabel.chain l' = chain → WalletLabel.address l' = address → label_active t w chain' address' l' = false) as Hf.
  { intros l' H1 H2. unfold label_active. rewrite H1, H2. apply not_true_is_false. rewrite !andb_true_iff, !bool_decide_eq_true.
    intros [[[[_ ->] ->] _] _]. done. }
  rewrite !Hf by done. done.
Qed.

(** [unblock] without a kind leaves the wallet no disposition in the workspace,
    then and later; [labels] shows none of its labels active; and the
    dispositions of other wallets are those they were. *)
Theorem unblock_undoes db db' address chain now now' ok n
    (Hrun : wallet_unblock s opened db address chain None now ok = (db', ROk n)) :
  ∃ c ws, ChainKind.parse chain = Some c ∧ config_workspace s = ROk ws
    ∧ active_disposition (policy_view (k_labels db')) now' ws (ChainKind.as_str c) address = ROk None
    ∧ (∀ lines, wallet_labels s opened db' address chain now' true = ROk lines → ∀ l, l ∈ lines → ll_status l ≠ "active")
    ∧ (∀ address' chain', (ChainKind.as_str c, address) ≠ (chain', address') →
        active_disposition (policy_view (k_labels db')) now' ws chain' address'
        = active_disposition (policy_view (k_labels db)) now' ws chain' address').
Proof.
  destruct (unblock_cases db address chain None now ok) as [[e E]|(c & ws & pool & Hc & Hp & Hws & _ & E)];
    rewrite Hrun in E; [done|]. injection E as -> _. set (hit := λ e, revocable ws (ChainKind.as_str c) address None (le_label e)).
  set (t' := MkLabelTable _ _ _).
  assert (∀ e, e ∈ lt_rows t' → label_active now' ws (ChainKind.as_str c) address (le_label e) = false) as Hnone.
  { intros e (x & -> & Hx)%list_elem_of_fmap. fold (hit x). destruct (hit x) eqn:Eh.
    - unfold label_active, revoke_entry. cbn. by rewrite andb_false_r.
    - unfold hit, revocable in Eh. unfold label_active. rewrite andb_true_r in Eh. by rewrite Eh. }
  exists c, ws. split_and!; [done|done| | |].
  - unfold active_disposition. cbn [k_labels set_k_labels policy_view labels]. rewrite filter_none; [done|].
    intros l (e & -> & He)%list_elem_of_fmap. by apply Hnone.
  - unfold wallet_labels, parse_chain. rewrite Hc, Hp, Hws. cbv iota. intros ? [= <-] l (e & -> & He)%list_elem_of_fmap.
    cbn [ll_status label_line]. rewrite status_active. unfold labels_of, newest_first in He. rewrite elem_of_stable_sort, elem_of_lfilter in He.
    destruct He as [He Hl]. specialize (Hnone e He). unfold label_of in Hl. rewrite !andb_true_iff in Hl. destruct Hl as [[H1 H2] H3].
    unfold label_active in Hnone. unfold label_live. rewrite H1, H2, H3 in Hnone. cbn in Hnone. by rewrite Hnone.
  - intros address' chain' Hne. unfold active_disposition. f_equal. f_equal. cbn [k_labels set_k_labels policy_view labels t' lt_rows].
    rewrite revoked_labels. apply filter_fmap_same; intros l; [intros _|]; by apply revoke_elsewhere.
Qed.
End labels.

(** ** signal evaluate *)

Section evaluate.
Context {J D : Type} `{DecimalNum D}.
Context (s : Settings) (opened : result PgPool) (as_strings : J → option (list string)) (from_u64 : Z → D) (min_history : D).
Context (accepts_signal : Signal (D := D) → bool) (accepts_evaluation : Evaluation (D := D) → bool).
Set Default Proof Using "Type".
Implicit Types (db : cli_db J D) (e : eval_db (D := D)).
Local Abbreviation evaluate := (signal_evaluate s opened as_strings from_u64 min_history accepts_signal accepts_evaluation).

Lemma released_not_held ws chain mint e claimant exp :
  claims (release_eval_claim ws chain mint e claimant) !! the_key ws chain mint ≠ Some (claimant, exp).
Proof.
  unfold release_eval_claim. destruct (claims e !! the_key ws chain mint) as [[h x]|] eqn:E; [|by rewrite E].
  case_bool_decide as Eh; [cbn; by rewrite lookup_delete_eq|]. rewrite E. congruence.
Qed.

Lemma release_other ws chain mint e claimant key :
  key ≠ the_key ws chain mint → claims (release_eval_claim ws chain mint e claimant) !! key = claims e !! key.
Proof.
  intros Hk. unfold release_eval_claim. destruct (claims e !! the_key ws chain mint) as [[h x]|]; [|done].
  case_bool_decide; [|done]. cbn. by rewrite lookup_delete_ne.
Qed.

Lemma release_rows ws chain mint e claimant :
  evaluations (release_eval_claim ws chain mint e claimant) = evaluations e ∧ signals (release_eval_claim ws chain mint e claimant) = signals e.
Proof. unfold release_eval_claim. repeat case_match; done. Qed.

(** What an evaluation needs before it starts. *)
Definition may_evaluate db (mint chain : string) (r : evaluation_run) (c : ChainKind) (ws t : Z) : Prop :=
  ChainKind.parse chain = Some c ∧ (∃ pool, opened = ROk pool) ∧ config_workspace s = ROk ws ∧ er_claimed_at r = Some t
  ∧ (∀ q, k_queues db !! QUEUE_SIGNAL_EVAL = Some q → q_paused q = false)
  ∧ ∀ h exp, claims (k_evals db) !! the_key ws c mint = Some (h, exp) → exp <= t.

Definition combined (result : Prelude.result (option nat)) (released : bool) : Prelude.result (option nat) :=
  match result, released with
  | RErr msg, false => RErr ("the evaluation claim release also failed: " +:+ msg)
  | RErr msg, true => RErr msg
  | ROk _, false => RErr "evaluation succeeded but its claim release failed"
  | ROk id, true => ROk id
  end.

Lemma evaluate_cases w db mint chain r :
  (∃ m, evaluate w db mint chain r = (db, RErr m)) ∨
  ∃ c ws t e result, may_evaluate db mint chain r c ws t
    ∧ let key := the_key ws c mint in
      let taken := MkDb (<[key := (er_claimant r, t + claim_lease)]> (claims (k_evals db))) (evaluations (k_evals db)) (signals (k_evals db)) in
      ((∃ m, e = taken ∧ result = RErr m)
       ∨ ∃ code score, fenced_outcome ws c mint (er_now r) (er_fenced_at r) (er_claimant r) "entry" code score taken (e, result))
    ∧ evaluate w db mint chain r =
        (set_k_evals db (if er_released r then release_eval_claim ws c mint e (er_claimant r) else e), combined result (er_released r)).
Proof.
  unfold signal_evaluate, parse_chain. destruct (ChainKind.parse chain) as [c|] eqn:Ec; [|left; by eexists].
  destruct opened as [pool|m] eqn:Eo; [|left; by eexists]. destruct (config_workspace s) as [ws|m] eqn:Ews; [|left; by eexists].
  destruct (er_pause_read r); [|left; by eexists].
  destruct (match k_queues db !! QUEUE_SIGNAL_EVAL with Some q => q_paused q | None => false end) eqn:Eq; [left; by eexists|].
  destruct (er_claimed_at r) as [t|] eqn:Et; [|left; by eexists].
  destruct (acquire_claim ws c mint (k_evals db) t (er_claimant r)) as [e1 took] eqn:Ea. destruct took; [|left; by eexists].
  right. pose proof (acquired _ _ _ _ _ _ _ Ea) as ->.
  match goal with |- context [evaluate_token_signals_impl ?a ?b ?c ?d ?e ?w ?t ?x ?y ?ws ?ch ?m ?n ?cf (Some ?k)] =>
    pose proof (impl_fenced a b c d e w t x y ws ch m n cf k) as Hi; cbv zeta in Hi;
    destruct (evaluate_token_signals_impl a b c d e w t x y ws ch m n cf (Some k)) as [e2 result] end.
  exists c, ws, t, e2, result. split_and!.
  - split_and!; try done; [by exists pool|by intros q Hq; rewrite Hq in Eq|]. intros h exp Hk. unfold acquire_claim in Ea. rewrite Hk in Ea.
    by destruct (Z.leb_spec exp t).
  - destruct Hi as [[m [= -> ->]]|Hf]; [left; by exists m|by right].
  - cbv beta iota. by destruct result, (er_released r).
Qed.

(** Claim C20: A command evaluates only on a verified pool, in its configured
    workspace, with the queue not paused, and on a claim that was free or had
    expired; it answers with success exactly where it recorded one evaluation of
    that token, a failure whose release ran recorded none; and once its release
    has run it holds no claim, whether the evaluation succeeded or not. *)
Theorem evaluate_holds_the_claim w db mint chain r db' out
    (Hfresh : ∀ key exp, claims (k_evals db) !! key ≠ Some (er_claimant r, exp))
    (Hrun : evaluate w db mint chain r = (db', out)) :
  (db' ≠ db → ∃ c ws t, may_evaluate db mint chain r c ws t)
  ∧ (∀ res, out = ROk res → ∃ c ws t ev, may_evaluate db mint chain r c ws t
      ∧ evaluations (k_evals db') = evaluations (k_evals db) ++ [ev] ∧ evaluation_key ev = the_key ws c mint
      ∧ (res = None ↔ Signals.status ev = "rejected"))
  ∧ (er_released r = true →
      (∀ msg, out = RErr msg → evaluations (k_evals db') = evaluations (k_evals db) ∧ signals (k_evals db') = signals (k_evals db))
      ∧ ∀ key exp, claims (k_evals db') !! key ≠ Some (er_claimant r, exp)).
Proof.
  destruct (evaluate_cases w db mint chain r) as [[m E]|(c & ws & t & e & result & Hmay & Hres & E)];
    rewrite Hrun in E; injection E as -> ->; [by split_and!|].
  cbn [k_evals set_k_evals]. split_and!.
  - intros _. by exists c, ws, t.
  - intros res Ho. destruct (er_released r); [|by destruct result]. destruct result as [o|]; [|done]. injection Ho as ->.
    destruct Hres as [(m & _ & ?)|(code & score & Hf)]; [done|]. destruct Hf as (_ & e1 & (ev & _ & Hw) & Ee). cbn in Ee. subst e.
    rewrite (proj1 (release_rows _ _ _ _ _)). cbn [evaluations]. exists c, ws, t.
    destruct code as [code|]; destruct Hw as (-> & _ & ->); eexists; (split; [done|]); (split; [done|]); by split.
  - intros Hr. rewrite Hr. split.
    + intros msg Ho. destruct result as [o|m]; [done|]. destruct (release_rows ws c mint e (er_claimant r)) as [-> ->].
      destruct Hres as [(m' & -> & _)|(code & score & Hf)]; [done|]. unfold fenced_outcome in Hf. cbn in Hf. by subst e.
    + intros key exp. destruct (decide (key = the_key ws c mint)) as [->|Hk]; [apply released_not_held|]. rewrite release_other by done.
      destruct Hres as [(m' & -> & _)|(code & score & Hf)]; cbn; [rewrite lookup_insert_ne by done; apply Hfresh|].
      unfold fenced_outcome in Hf. destruct result as [o|m]; cbn in Hf; [|subst e; cbn; rewrite lookup_insert_ne by done; apply Hfresh].
      destruct Hf as (_ & e1 & _ & ->). cbn. rewrite lookup_delete_ne, lookup_insert_ne by done. apply Hfresh.
Qed.
End evaluate.

(** ** The leaderboard *)

Section leaderboard.
Context {J D : Type} `{DecimalNum D} (text_le : string → string → bool).
Context (Htotal : ∀ a b, text_le a b = true ∨ text_le b a = true)
  (Htrans : ∀ a b c, text_le a b = true → text_le b c = true → text_le a c = true)
  (Hanti : ∀ a b, text_le a b = true → text_le b a = true → a = b).
Set Default Proof Using "Type*".
Implicit Types (db : cli_db J D) (rows : list (ScoreRow D)).

Lemma score_le_total a b : score_le text_le a b = true ∨ score_le (D := D) text_le b a = true.
Proof.
  unfold score_le. destruct (decide (sc_address a = sc_address b)) as [E|E].
  - rewrite !bool_decide_true by congruence. rewrite !Z.leb_le. lia.
  - rewrite !bool_decide_false by congruence. apply Htotal.
Qed.

Lemma score_le_trans a b c : score_le text_le a b = true → score_le text_le b c = true → score_le (D := D) text_le a c = true.
Proof.
  unfold score_le. destruct (decide (sc_address a = sc_address b)) as [E1|E1], (decide (sc_address b = sc_address c)) as [E2|E2].
  - rewrite !bool_decide_true by congruence. rewrite !Z.leb_le. lia.
  - rewrite (bool_decide_true (sc_address a = _)), !bool_decide_false by congruence. rewrite E1. done.
  - rewrite (bool_decide_true (sc_address b = _)), !bool_decide_false by congruence. rewrite <-E2. done.
  - rewrite (bool_decide_false (sc_address a = sc_address b)), (bool_decide_false (sc_address b = sc_address c)) by done.
    intros H1 H2. rewrite bool_decide_false; [by eapply Htrans|]. intros E3. rewrite <-E3 in H2. apply E1. by apply Hanti.
Qed.

Lemma elem_of_distinct_on seen rows r : r ∈ distinct_on seen rows → r ∈ rows ∧ sc_address r ∉ seen.
Proof.
  clear text_le Htotal Htrans Hanti. revert seen. induction rows as [|x rows IH]; intros seen; cbn; [by intros ?%not_elem_of_nil|].
  case_bool_decide as Hx; [intros [? ?]%IH; split; [by right|done]|].
  intros [->|[? Hs]%IH]%elem_of_cons; [split; [by left|done]|]. split; [by right|]. set_solver.
Qed.

Lemma distinct_on_spec seen rows :
  StronglySorted (λ a b, score_le text_le a b = true) rows →
  NoDup (sc_address <$> distinct_on seen rows)
  ∧ (∀ r x, r ∈ distinct_on seen rows → x ∈ rows → sc_address x = sc_address r → sc_as_of x <= sc_as_of r)
  ∧ ∀ x, x ∈ rows → sc_address x ∉ seen → sc_address x ∈ sc_address <$> distinct_on seen rows.
Proof.
  intros Hs. revert seen. induction Hs as [|y rows Hs IH Hy]; intros seen; cbn.
  { split_and!; [constructor|by intros ? ? ?%not_elem_of_nil|by intros ? ?%not_elem_of_nil]. }
  assert (∀ x, x ∈ rows → sc_address x = sc_address y → sc_as_of x <= sc_as_of y) as Hle.
  { intros x Hx E. rewrite Forall_forall in Hy. specialize (Hy x Hx). cbn in Hy. unfold score_le in Hy. rewrite bool_decide_true in Hy by done. by apply Z.leb_le in Hy. }
  case_bool_decide as Hseen.
  - destruct (IH seen) as (N & M & C). split_and!; [done| |].
    + intros r x Hr [->|Hx]%elem_of_cons E; [|by apply M]. apply elem_of_distinct_on in Hr as [_ Hr]. congruence.
    + intros x [->|Hx]%elem_of_cons Hn; [done|by apply C].
  - destruct (IH ({[sc_address y]} ∪ seen)) as (N & M & C). split_and!.
    + cbn. constructor; [|done]. intros (r & E & Hr)%list_elem_of_fmap. apply elem_of_distinct_on in Hr as [_ Hr]. set_solver.
    + intros r x [->|Hr]%elem_of_cons [->|Hx]%elem_of_cons E; [lia|by apply Hle| |by apply M].
      apply elem_of_distinct_on in Hr as [_ Hr]. set_solver.
    + intros x [->|Hx]%elem_of_cons Hn; [by left|]. cbn. destruct (decide (sc_address x = sc_address y)) as [->|Hne]; [by left|].
      right. apply C; [done|]. set_solver.
Qed.

Lemma latest_scores_spec db chain :
  NoDup (sc_address <$> latest_scores text_le db chain)
  ∧ (∀ r, r ∈ latest_scores text_le db chain → r ∈ k_scores db ∧ sc_chain r = ChainKind.as_str chain
      ∧ ∀ x, x ∈ k_scores db → sc_chain x = ChainKind.as_str chain → sc_address x = sc_address r → sc_as_of x <= sc_as_of r)
  ∧ ∀ x, x ∈ k_scores db → sc_chain x = ChainKind.as_str chain → sc_address x ∈ sc_address <$> latest_scores text_le db chain.
Proof.
  unfold latest_scores. set (rows := List.filter _ (k_scores db)).
  assert (∀ x, x ∈ stable_sort (score_le text_le) rows ↔ x ∈ k_scores db ∧ sc_chain x = ChainKind.as_str chain) as Hr.
  { intros x. rewrite elem_of_stable_sort. unfold rows. by rewrite elem_of_lfilter, bool_decide_eq_true. }
  destruct (distinct_on_spec ∅ (stable_sort (score_le text_le) rows)) as (N & M & C).
  { apply stable_sort_sorted; [apply score_le_total|apply score_le_trans]. }
  split_and!; [done| |].
  - intros r Hin. apply elem_of_distinct_on in Hin as Hin'. destruct Hin' as [[? ?]%Hr _]. split_and!; [done|done|].
    intros x Hx Ex Ea. by apply (M r x Hin); [apply Hr|].
  - intros x Hx Ex. apply C; [by apply Hr|]. apply not_elem_of_empty.
Qed.

Lemma ssorted_fmap {A B} (R : A → A → Prop) (S : B → B → Prop) (f : A → B) (l : list A) :
  StronglySorted R l → (∀ a b, a ∈ l → b ∈ l → R a b → S (f a) (f b)) → StronglySorted S (f <$> l).
Proof using Type.
  induction 1 as [|a l Hs IH Ha]; intros HRS; cbn; constructor.
  - apply IH. intros x y Hx Hy. apply HRS; by right.
  - apply Forall_fmap, Forall_forall. intros b Hb. cbn. apply HRS; [by left|by right|]. rewrite Forall_forall in Ha. by apply Ha.
Qed.

(** The leaderboard is the wallets of the chain by their latest score:
    each once, with the skill and conviction of its newest row, in descending
    conviction, at most [limit] of them, and one left out has no more conviction
    than one that is listed. *)
Theorem leaderboard_ranks_latest (s : result PgPool) db chain c limit leaders
    (Hchain : ChainKind.parse chain = Some c) (Hlimit : 0 <= limit < 2 ^ 63)
    (Hrange : Forall (λ r, - 2 ^ 31 < conviction_col r < 2 ^ 31) (k_scores db))
    (Hrun : wallet_leaderboard s text_le db chain limit true = ROk leaders) :
  let current r := r ∈ k_scores db ∧ sc_chain r = ChainKind.as_str c
    ∧ ∀ x, x ∈ k_scores db → sc_chain x = ChainKind.as_str c → sc_address x = sc_address r → sc_as_of x <= sc_as_of r in
  Z.of_nat (length leaders) <= limit
  ∧ NoDup (ld_address <$> leaders)
  ∧ StronglySorted (λ a b, ld_conviction b <= ld_conviction a) leaders
  ∧ (∀ l, l ∈ leaders → ∃ r, current r ∧ l = MkLeader (sc_address r) (skill_col r) (conviction_col r))
  ∧ (∀ x, x ∈ k_scores db → sc_chain x = ChainKind.as_str c → sc_address x ∉ ld_address <$> leaders →
      Z.of_nat (length leaders) = limit ∧ ∃ r, current r ∧ sc_address r = sc_address x ∧ ∀ l, l ∈ leaders → conviction_col r <= ld_conviction l).
Proof.
  intros current. unfold wallet_leaderboard, parse_chain, on_pool in Hrun. rewrite Hchain in Hrun. destruct s as [pool|]; [|done].
  cbn [negb] in Hrun. injection Hrun as <-. destruct (latest_scores_spec db c) as (N & L & C). set (latest := latest_scores text_le db c) in *.
  set (key := λ r : ScoreRow D, wrap_i32 (- conviction_col r)). set (leb := λ a b, key a <=? key b).
  assert (∀ a b, leb a b = true ∨ leb b a = true) as Ht by (intros a b; unfold leb; rewrite !Z.leb_le; lia).
  assert (∀ a b c, leb a b = true → leb b c = true → leb a c = true) as Htr by (intros a b d; unfold leb; rewrite !Z.leb_le; lia).
  pose proof (stable_sort_sorted leb Ht Htr latest) as Hs. pose proof (stable_sort_perm leb latest) as Hp. set (l := stable_sort leb latest) in *.
  rewrite Forall_forall in Hrange.
  assert (∀ r, r ∈ l → current r ∧ key r = - conviction_col r) as Hl.
  { intros r. rewrite Hp. intros Hr%L. split; [done|]. apply wrap_i32_id. destruct Hr as [Hr _]. specialize (Hrange r Hr). cbn in Hrange. lia. }
  assert (take_wrapped limit l = take (Z.to_nat limit) l) as Htake.
  { unfold take_wrapped. rewrite Z.mod_small by lia. destruct (Z.ltb_spec limit (Z.of_nat (length l))); [done|]. rewrite take_ge by lia. done. }
  change (stable_sort (λ a b, wrap_i32 (- conviction_col a) <=? wrap_i32 (- conviction_col b)) latest) with l. rewrite Htake.
  set (n := Z.to_nat limit). clearbody l. split_and!.
  - rewrite length_fmap, length_take. lia.
  - rewrite <-list_fmap_compose. rewrite (list_fmap_ext _ sc_address) by done. rewrite fmap_take.
    apply (sublist_NoDup _ (sc_address <$> l)); [by rewrite (fmap_Permutation sc_address _ _ Hp)|]. apply sublist_take.
  - rewrite <-(take_drop n l) in Hs. apply StronglySorted_app_1_l in Hs.
    eapply ssorted_fmap; [exact Hs|]. intros a b Ha Hb Hab. cbn.
    destruct (Hl a (subseteq_take _ _ _ Ha)) as [_ Ea], (Hl b (subseteq_take _ _ _ Hb)) as [_ Eb]. apply Z.leb_le in Hab. lia.
  - intros x (r & -> & Hr)%list_elem_of_fmap. exists r. split; [|done]. apply Hl. by apply (subseteq_take n).
  - intros x Hx Ex Hout. pose proof (C x Hx Ex) as (r & Er & Hr)%list_elem_of_fmap. rewrite <-Hp in Hr.
    rewrite <-(take_drop n l) in Hr. apply elem_of_app in Hr as [Hr|Hr].
    { exfalso. apply Hout. rewrite <-list_fmap_compose, Er. by apply (list_elem_of_fmap_2 sc_address). }
    split.
    + rewrite length_fmap, length_take. assert (0 < length (drop n l))%nat by (destruct (drop n l); [by apply not_elem_of_nil in Hr|cbn; lia]).
      rewrite length_drop in *. lia.
    + assert (r ∈ l) as Hrl by (rewrite <-(take_drop n l); apply elem_of_app; by right).
      exists r. split_and!; [by apply Hl|done|]. intros y (a & -> & Ha)%list_elem_of_fmap. cbn.
      rewrite <-(take_drop n l) in Hs. pose proof (StronglySorted_app_1_elem_of _ _ _ _ _ Hs Ha Hr) as Hab. cbn in Hab.
      destruct (Hl a (subseteq_take _ _ _ Ha)) as [_ Ea], (Hl r Hrl) as [_ Eb]. apply Z.leb_le in Hab. lia.
Qed.
End leaderboard.

(** ** What two commands answer *)

(** [replay] prints the instant it is given; its counts do not depend on it. *)
Theorem replay_ignores_its_time {J D} `{DecimalNum D} s opened parse (db : cli_db J D) at_ at_' now ok t a r t' a' r' :
  replay s opened parse db at_ now ok = ROk (t, a, r) → replay s opened parse db at_' now ok = ROk (t', a', r') → a = a' ∧ r = r'.
Proof.
  unfold replay. intros E1 E2. destruct (match at_ with Some _ => _ | None => _ end); [|done].
  destruct (match at_' with Some _ => _ | None => _ end); [|done]. destruct opened; [|done]. destruct (config_workspace s); [|done].
  destruct (ok 0%nat); [|done]. destruct (ok 1%nat); [|done]. cbn in *. injection E1 as _ <- <-. by injection E2 as _ <- <-.
Qed.

(** [funding radar list] is of every tenant: neither the rows nor the settings
    say otherwise. *)
Theorem radar_list_unscoped {J D} `{DecimalNum D} opened pool (db : cli_db J D) c limit :
  opened = ROk pool → c ∈ k_cases db → Z.of_nat (length (k_cases db)) <= limit →
  ∃ rows, radar_list opened db None limit true = ROk rows ∧ CaseRow.id (vc_row c) ∈ (λ r, r.1.1.1.1) <$> rows.
Proof.
  intros -> Hc Hl. unfold radar_list, on_pool, limited. cbn [negb]. destruct (Z.ltb_spec limit 0); [lia|]. eexists. split; [done|].
  rewrite <-list_fmap_compose. apply (list_elem_of_fmap_2 (λ c : ViewCase J D, CaseRow.id (vc_row c))).
  assert (List.filter (in_stage None) (k_cases db) = k_cases db) as -> by (clear; induction (k_cases db) as [|x l IH]; cbn; [done|by f_equal]).
  unfold page. rewrite take_ge; [by apply elem_of_stable_sort|]. unfold newest. rewrite stable_sort_perm. lia.
Qed.

(** [health] never shows the Robinhood adapter enabled, and where it is configured
    it names no reason. *)
Theorem health_robinhood_never_enabled s c : c ∈ health_chains s → ch_chain c = ChainKind.Robinhood →
  enabled c = false ∧ (robinhood_enabled s = true → ch_error c = None).
Proof.
  unfold health_chains, chain_health. intros [->|[->|[]%not_elem_of_nil]%elem_of_cons]%elem_of_cons; [done|]. intros _. cbn.
  rewrite andb_false_r. split; [done|]. by intros ->.
Qed.

(** ** Examples *)

Definition cli_settings (workspace : Z) : Settings := toy_settings workspace.
Definition cli_pool : result PgPool := ROk (MkPool "postgres://db" 2).

Definition cli_tables {J : Type} : cli_db J Qc :=
  MkCli ∅ [] []
    (MkLabelTable {[("solana", "W") := Wallet.mk 1 2 "x"]} [MkLabelEntry 1 5 (a_label 7); MkLabelEntry 2 6 (a_label 9)] 3)
    [sample_score "A" 10 50; sample_score "A" 20 40; sample_score "B" 10 90] (MkDb ∅ [] []) ∅.

Definition cli_sample : cli_db json Qc := cli_tables.

Lemma label_commands_stay_home_witness :
  own_rows 7 (k_labels (run_label (cli_settings 7) cli_pool any_label cli_sample (Unblock "W" "sol" None 9 true))) ≠ own_rows 7 (k_labels cli_sample)
  ∧ config_workspace (cli_settings 7) = ROk 7.
Proof.
  assert (own_rows 7 (k_labels (run_label (cli_settings 7) cli_pool any_label cli_sample (Unblock "W" "sol" None 9 true)))
    ≠ own_rows 7 (k_labels cli_sample)) as Hne by (vm_compute; discriminate).
  split; [exact Hne|].
  exact (proj1 (label_commands_stay_home (cli_settings 7) cli_pool any_label cli_sample (Unblock "W" "sol" None 9 true) 7 Hne)).
Defined.

(** The two clocks of one score in different minutes: not a minute. *)
Example straddled : as_of_minute (λ t, Some (t * 10 ^ 9)) (59 * 10 ^ 9) (60 * 10 ^ 9) 0 = 59 * 10 ^ 9.
Proof. reflexivity. Qed.

Definition cli_leaders (limit : Z) : result (list Leader) := wallet_leaderboard cli_pool String.leb cli_sample "sol" limit true.

Example leaders_latest : cli_leaders 5 = ROk [MkLeader "A" 40 80; MkLeader "B" 90 80].
Proof. vm_compute. reflexivity. Qed.

(** A negative limit is no limit. *)
Example leaders_negative : cli_leaders (-1) = cli_leaders 5.
Proof. vm_compute. reflexivity. Qed.

Lemma leaderboard_ranks_latest_witness : NoDup (ld_address <$> [MkLeader "A" 40 80; MkLeader "B" 90 80]).
Proof.
  refine (proj1 (proj2 (leaderboard_ranks_latest (J := json) (D := Qc) String.leb str_leb_total _ _ cli_pool cli_sample "sol" ChainKind.Solana 5 _ eq_refl _ _ _))).
  - intros a b c. apply str_leb_trans.
  - intros a b. apply str_leb_antisym.
  - lia.
  - repeat constructor; cbn; lia.
  - apply leaders_latest.
Defined.

Definition cli_run (claimant : string) : evaluation_run := MkRun true (Some (60 * 10 ^ 9)) claimant (60 * 10 ^ 9) (λ _, 60 * 10 ^ 9) (60 * 10 ^ 9) true.

Definition cli_evaluate (db : cli_db (list string) Qc) : cli_db (list string) Qc * result (option nat) :=
  signal_evaluate (cli_settings 7) cli_pool strings_of qc_u64 (qc_new 8 1) any_signal any_evaluation (sample_world good_scores_of) db "M" "sol"
    (cli_run "cli-1").

Lemma evaluate_holds_the_claim_witness :
  (cli_evaluate cli_tables).2 = ROk (Some 0%nat) ∧ ∀ key exp, claims (k_evals (cli_evaluate cli_tables).1) !! key ≠ Some ("cli-1", exp).
Proof.
  split; [vm_compute; reflexivity|].
  refine (proj2 (proj2 (proj2 (evaluate_holds_the_claim (cli_settings 7) cli_pool strings_of qc_u64 (qc_new 8 1) any_signal any_evaluation
    (sample_world good_scores_of) cli_tables "M" "sol" (cli_run "cli-1") (cli_evaluate cli_tables).1 (cli_evaluate cli_tables).2 _ _)) eq_refl)).
  - intros key exp. cbn. by rewrite lookup_empty.
  - exact (surjective_pairing (cli_evaluate cli_tables)).
Defined.
