(* ===== verification/Dispatch.v ===== *)
(** * Alert dispatch (src/src/alerts.rs, src/src/workers.rs)

    The messages, the classification of the Bot API's answers, the selection of
    the alerts that are due, and the two passes that deliver: the dispatcher
    over signals and funding cases, and the radar evaluation that announces a
    preparation.  Here the outbox (Outbox.v) meets its producers, the signals
    (Signals.v) and the radar's cases (FundingRadar.v).

    A delivery meets an [attempt]: the clock at each of its statements, its
    claim token, the API's answer, and the statements other dispatchers run on
    the outbox while the message is under way.  [collate] is the database's text
    order. *)
From S2P Require Import Prelude Text Domain Floats Outbox CostBasis Json Models Labels FundingRadar Signals.
From Stdlib Require Import QArith.QArith_base QArith.Qcanon.
From stdpp Require Import options.
Local Open Scope string_scope.
Local Open Scope Z_scope.
Local Open Scope list_scope.

(** ** alerts.rs *)

Record AlertMessage := MkMessage { dedup_key : string; text : string }.

Definition newline : string := String (ascii_of_N 10) "".

Definition compose_signal_alert (chain mint kind : string) (score : Z) (evidence_summary : string)
    : AlertMessage :=
  MkMessage ("signal:" +:+ chain +:+ ":" +:+ mint +:+ ":" +:+ kind)
    ("[" +:+ kind +:+ "] " +:+ chain +:+ " " +:+ mint +:+ " score " +:+ pretty score +:+ newline
     +:+ evidence_summary +:+ newline +:+ "Research signal; not financial advice.").

Definition compose_funding_alert (recipient chain : string) (confidence : Z) (summary : string)
    : AlertMessage :=
  MkMessage ("funding:" +:+ chain +:+ ":" +:+ recipient)
    ("[funding_radar] " +:+ chain +:+ " wallet " +:+ recipient +:+ " confidence " +:+ pretty confidence
     +:+ ": possible project preparation" +:+ newline +:+ summary).

Definition TELEGRAM_BOT_API_BASE : string := "https://api.telegram.org".

Inductive SendFailure := RateLimited (seconds : Z) | Transient | Permanent.

(** [{failure:?}] *)
Definition failure_text (f : SendFailure) : string :=
  match f with
  | RateLimited s => "RateLimited(" +:+ pretty s +:+ ")"
  | Transient => "Transient"
  | Permanent => "Permanent"
  end.

(** An answer of the Bot API; its body may not be JSON. *)
Inductive bot_reply (J : Type) :=
  | NoAnswer
  | BotAnswer (status : Z) (retry_after : option string) (body : result J).
Arguments NoAnswer {_}. Arguments BotAnswer {_}.

Section dispatch.
Context {J D : Type} `{JsonValue J}.

Definition send_message (r : bot_reply J) : () + SendFailure :=
  match r with
  | NoAnswer => inr Transient
  | BotAnswer status retry_after body =>
      if (200 <=? status) && (status <? 300) then
        match body with
        | RErr _ => inr Transient
        | ROk body =>
            if bool_decide ((j_get body "ok" ≫= as_bool) = Some true) then inl () else inr Permanent
        end
      else if status =? 429
      then inr (RateLimited (default 30 (retry_after ≫= from_str_radix 10 u64_max)))
      else if (500 <=? status) && (status <? 600) then inr Transient
      else inr Permanent
  end.

(** ** The alerts that are due *)

(** A row that keeps a signal from being offered: settled, backing off, or
    under a live claim. *)
Definition withheld (now : Z) (r : AlertRow) : bool :=
  match AlertRow.state r with
  | AlertState.Sent | AlertState.Dead => true
  | AlertState.Pending =>
      match AlertRow.next_attempt_at r with Some t => now <? t | None => false end
      || match AlertRow.claim_expires_at r with Some t => now <? t | None => false end
  end.

Definition alert_rows (db : outbox) : list AlertRow := (map_to_list db).*2.

Definition signal_pending (db : outbox) (now workspace_id : Z) (destination : string) (s : Signal (D := D)) : bool :=
  (sig_workspace s =? workspace_id) && bool_decide (sig_status s = "active")
  && negb (existsb (λ r, bool_decide (AlertRow.signal_id r = Some (Z.of_nat (sig_id s)))
                         && bool_decide (AlertRow.destination r = destination) && withheld now r)
             (alert_rows db)).

Definition created_leb (a b : Signal (D := D)) : bool := Signals.created_at a <=? Signals.created_at b.

Definition pending_signal_alerts (db : outbox) (signals : list (Signal (D := D))) (now workspace_id : Z)
    (destination : string) : list (Signal (D := D)) :=
  take 20 (stable_sort created_leb (List.filter (signal_pending db now workspace_id destination) signals)).

Definition funding_text (c : CaseRow D) : string :=
  CaseRow.chain c +:+ " wallet " +:+ CaseRow.recipient c +:+ " confidence "
  +:+ pretty (CaseRow.confidence c) +:+ ": possible project preparation".

(** A row of the union: the case, the text, the sort key. *)
Record funding_due := MkDue { due_case : Z; due_text : string; due_ord : string }.

(** A failed delivery that is due again. *)
Definition funding_row_due (now workspace_id : Z) (destination : string) (r : AlertRow) : bool :=
  bool_decide (AlertRow.subject_kind r = "funding") && (AlertRow.workspace_id r =? workspace_id)
  && bool_decide (AlertRow.destination r = destination)
  && bool_decide (AlertRow.state r = AlertState.Pending)
  && due (AlertRow.next_attempt_at r) now && unclaimed r now.

Definition outbox_due (db : outbox) (cases : list (CaseRow D)) (now workspace_id : Z)
    (destination : string) : list funding_due :=
  flat_map (λ '(key, r),
      if funding_row_due now workspace_id destination r
      then (λ c, MkDue (CaseRow.id c) (funding_text c) key)
             <$> List.filter (λ c, bool_decide (Some (CaseRow.id c) = AlertRow.funding_case_id r)
                                   && (CaseRow.workspace_id c =? AlertRow.workspace_id r)) cases
      else []) (map_to_list db).

(** A preparation nobody was told of. *)
Definition untold (db : outbox) (workspace_id min_confidence : Z) (destination : string) (c : CaseRow D) : bool :=
  (CaseRow.workspace_id c =? workspace_id) && bool_decide (CaseRow.stage c = "preparation")
  && (min_confidence <=? CaseRow.confidence c)
  && negb (existsb (λ r, bool_decide (AlertRow.subject_kind r = "funding")
                         && bool_decide (AlertRow.funding_case_id r = Some (CaseRow.id c))
                         && (AlertRow.workspace_id r =? workspace_id)
                         && bool_decide (AlertRow.destination r = destination)) (alert_rows db)).

Definition derived_due (db : outbox) (cases : list (CaseRow D)) (workspace_id min_confidence : Z)
    (destination : string) : list funding_due :=
  (λ c, MkDue (CaseRow.id c) (funding_text c) ("derived:" +:+ pretty (CaseRow.id c)))
    <$> List.filter (untold db workspace_id min_confidence destination) cases.

Context (collate : string → string → comparison).

Definition pending_funding_alerts (db : outbox) (cases : list (CaseRow D)) (now workspace_id : Z)
    (destination : string) (min_confidence : Z) : list funding_due :=
  take 20 (stable_sort (cmp_leb (cmp_by due_ord collate))
    (outbox_due db cases now workspace_id destination
     ++ derived_due db cases workspace_id min_confidence destination)).

(** ** One delivery *)

Record attempt := MkAttempt {
  at_exhaust : Z;
  at_claim : Z;
  at_done : Z;
  token : string;
  others : list (Z * op);
  answer : bot_reply J;
}.

(** A message that went out, and whether it was recorded as delivered. *)
Record delivery := MkDelivery {
  sent_kind : string;
  sent_subject : Z;
  sent_chat : string;
  sent_text : string;
  recorded : bool;
}.

Context (owns_case : Z → Z → bool).

Definition meanwhile (ops : list (Z * op)) (db : outbox) : outbox :=
  fold_left (λ db o, (run_op owns_case db o.1 o.2).1) ops db.

(** [permanent] and [retry_after] of a failure. *)
Definition failure_terms (f : SendFailure) : bool * option Z :=
  match f with
  | Permanent => (true, None)
  | Transient => (false, None)
  | RateLimited s => (false, Some s)
  end.

(** The completion of a claimed delivery, and whether it was recorded as sent. *)
Definition complete_delivery (a : attempt) (kind : string) (workspace_id subject_id : Z) (chat : string)
    (claim : AlertClaim) (outcome : () + SendFailure) (db : outbox) : outbox * bool :=
  match outcome with
  | inl _ => mark_alert_sent db (at_done a) kind workspace_id subject_id chat (AlertClaim.token claim)
  | inr f =>
      let '(permanent, retry_after) := failure_terms f in
      ((mark_alert_failed db (at_done a) kind workspace_id subject_id chat (AlertClaim.token claim)
          (AlertClaim.attempt claim) (failure_text f) permanent retry_after).1, false)
  end.

(** Claim, send, complete; a lost claim sends nothing.  [message] is [None]
    when there is nothing to send.  With the messages that went out. *)
Definition deliver (a : attempt) (kind : string) (workspace_id subject_id : Z) (chat : string)
    (message : option string) (db : outbox) : outbox * list delivery * result () :=
  match claim_alert owns_case db (at_exhaust a) (at_claim a) (token a) kind workspace_id subject_id chat with
  | (db, RErr e) => (db, [], RErr e)
  | (db, ROk None) => (db, [], ROk ())
  | (db, ROk (Some claim)) =>
      let db := meanwhile (others a) db in
      match message with
      | None =>
          ((complete_delivery a kind workspace_id subject_id chat claim (inr Permanent) db).1, [], ROk ())
      | Some text =>
          let '(db, recorded) :=
            complete_delivery a kind workspace_id subject_id chat claim (send_message (answer a)) db in
          (db, [MkDelivery kind subject_id chat text recorded], ROk ())
      end
  end.

(** The deliveries of a list of subjects, one attempt each; an error ends them. *)
Fixpoint deliver_all (attempts : nat → attempt) (i : nat) (kind : string) (workspace_id : Z) (chat : string)
    (subjects : list (Z * option string)) (db : outbox) : outbox * list delivery * result () :=
  match subjects with
  | [] => (db, [], ROk ())
  | (subject, message) :: subjects =>
      match deliver (attempts i) kind workspace_id subject chat message db with
      | (db, sent, RErr e) => (db, sent, RErr e)
      | (db, sent, ROk _) =>
          let '(db, later, r) := deliver_all attempts (S i) kind workspace_id chat subjects db in
          (db, sent ++ later, r)
      end
  end.

(** ** The dispatcher *)

Record dispatch_config := MkDispatch {
  telegram_bot_token : option string;
  telegram_chat_id : option string;
  workspace : Z;
  preparation_alert_confidence : Z;
}.

(** The chain of the row is parsed before its message is composed. *)
Definition signal_message (s : Signal (D := D)) : option string :=
  (λ chain, text (compose_signal_alert (ChainKind.as_str chain) (sig_mint s) (sig_kind s)
                    (Z.max (score s) 0) "see report")) <$> ChainKind.parse (sig_chain s).

(** [clock] is read by the two selections; the result is the messages that
    went out, of which the code counts the recorded signals. *)
Definition dispatch_alerts_via (config : dispatch_config) (clock_signals clock_funding : Z)
    (funding_attempts signal_attempts : nat → attempt) (signals : list (Signal (D := D)))
    (cases : list (CaseRow D)) (db : outbox) : outbox * list delivery * result () :=
  match telegram_bot_token config, telegram_chat_id config with
  | Some _, Some chat =>
      let ws := workspace config in
      let pending := pending_signal_alerts db signals clock_signals ws chat in
      let funding := pending_funding_alerts db cases clock_funding ws chat (preparation_alert_confidence config) in
      match deliver_all funding_attempts 0 "funding" ws chat
              ((λ d, (due_case d, Some (due_text d))) <$> funding) db with
      | (db, funded, RErr e) => (db, funded, RErr e)
      | (db, funded, ROk _) =>
          let '(db, told, r) :=
            deliver_all signal_attempts 0 "signal" ws chat
              ((λ s, (Z.of_nat (sig_id s), signal_message s)) <$> pending) db in
          (db, funded ++ told, r)
      end
  | _, _ => (db, [], ROk ())
  end.

Definition sent_count (sent : list delivery) : Z :=
  wrap_u32 (Z.of_nat (length (List.filter (λ d, bool_decide (sent_kind d = "signal") && recorded d) sent))).

(** ** The radar pass *)

Definition open_case (workspace_id : Z) (c : CaseRow D) : bool :=
  negb (bool_decide (CaseRow.stage c ∈ ["dismissed"; "deployed"])) && (CaseRow.workspace_id c =? workspace_id).

Definition open_cases (db : radar_db D) (workspace_id : Z) : list (CaseRow D) :=
  take 100 (stable_sort (λ a b, CaseRow.updated_at a <=? CaseRow.updated_at b)
    (List.filter (open_case workspace_id) (FundingRadar.cases db))).

(** [clock i] is the database's time at the i-th case. *)
Fixpoint evaluate_cases (config : dispatch_config) (radar_config : FundingRadarConfig) (now : Z)
    (clock : nat → Z) (attempts : nat → attempt) (i : nat) (open : list (CaseRow D))
    (radar : radar_db D) (db : outbox) : radar_db D * (outbox * list delivery * result ()) :=
  match open with
  | [] => (radar, (db, [], ROk ()))
  | c :: open =>
      let chain := default ChainKind.Solana (ChainKind.parse (CaseRow.chain c)) in
      let '(radar, decision) :=
        evaluate_radar_case radar (clock i) (workspace config) chain (CaseRow.recipient c) now radar_config in
      match
        match d_alert decision, telegram_bot_token config, telegram_chat_id config with
        | Some alert, Some _, Some chat =>
            deliver (attempts i) "funding" (workspace config) (alert_case alert) chat (Some (alert_message alert)) db
        | _, _, _ => (db, [], ROk ())
        end
      with
      | (db, sent, RErr e) => (radar, (db, sent, RErr e))
      | (db, sent, ROk _) =>
          let '(radar, (db, later, r)) := evaluate_cases config radar_config now clock attempts (S i) open radar db in
          (radar, (db, sent ++ later, r))
      end
  end.

Definition evaluate_radar_cases (config : dispatch_config) (radar_config : FundingRadarConfig) (now : Z)
    (clock : nat → Z) (attempts : nat → attempt) (radar : radar_db D) (db : outbox)
    : radar_db D * (outbox * list delivery * result ()) :=
  evaluate_cases config radar_config now clock attempts 0 (open_cases radar (workspace config)) radar db.
End dispatch.

(** ** A pass is a run of the outbox *)

Lemma signal_kind : "signal" ∈ ["signal"; "funding"].
Proof. left. Qed.
Lemma funding_kind : "funding" ∈ ["signal"; "funding"].
Proof. right. left. Qed.

Section log.
Set Default Proof Using "Type".
Context {J D : Type} `{JsonValue J}.
Context (collate : string → string → comparison) (owns_case : Z → Z → bool) (ws : Z).
Local Abbreviation deliver_one := (deliver (J := J) owns_case).

(** The messages the dispatchers of the workspace send while the outbox goes
    from one table to another: deliveries, one after the other, among any
    statements of anybody. *)
Inductive delivers : outbox → outbox → list delivery → Prop :=
  | delivers_nil db : delivers db db []
  | delivers_others db db1 log ops : delivers db db1 log → delivers db (meanwhile owns_case ops db1) log
  | delivers_one db db1 db2 log sent r a kind subject chat message :
      delivers db db1 log → kind ∈ ["signal"; "funding"] →
      deliver_one a kind ws subject chat message db1 = (db2, sent, r) →
      delivers db db2 (log ++ sent).

Lemma delivers_trans db1 db2 db3 l1 l2 : delivers db1 db2 l1 → delivers db2 db3 l2 → delivers db1 db3 (l1 ++ l2).
Proof.
  intros Hd. induction 1 as [db|db db' log ops _ IH|db db' db'' log sent r a kind subject chat message _ IH Hk Ho].
  - by rewrite app_nil_r.
  - apply delivers_others. by apply IH.
  - rewrite (assoc_L (++)). eapply delivers_one; [by apply IH|exact Hk|exact Ho].
Qed.

Lemma delivers_single a kind subject chat message db : kind ∈ ["signal"; "funding"] →
  let r := deliver_one a kind ws subject chat message db in delivers db r.1.1 r.1.2.
Proof.
  intros Hk. cbv zeta. destruct (deliver_one _ _ _ _ _ _ _) as [[db1 sent] r] eqn:E.
  by apply (delivers_one db db db1 [] sent r a kind subject chat message); [constructor| |].
Qed.

Lemma deliver_all_delivers attempts i kind chat subjects db : kind ∈ ["signal"; "funding"] →
  let r := deliver_all owns_case attempts i kind ws chat subjects db in delivers db r.1.1 r.1.2.
Proof.
  intros Hk. cbv zeta. revert i db. induction subjects as [|[s m] subjects IH]; intros i db; cbn [deliver_all]; [constructor|].
  pose proof (delivers_single (attempts i) kind s chat m db Hk) as Hd.
  destruct (deliver_one (attempts i) kind ws s chat m db) as [[db1 sent] r]. cbn [fst snd] in Hd.
  destruct r as [|e]; [|exact Hd]. specialize (IH (S i) db1).
  destruct (deliver_all owns_case attempts (S i) kind ws chat subjects db1) as [[db2 later] r2].
  by eapply delivers_trans.
Qed.

Lemma dispatch_delivers config c1 c2 fa sa signals (cases : list (CaseRow D)) db (Hws : workspace config = ws) :
  let r := dispatch_alerts_via collate owns_case config c1 c2 fa sa signals cases db in delivers db r.1.1 r.1.2.
Proof.
  cbv zeta. unfold dispatch_alerts_via. rewrite Hws.
  destruct (telegram_bot_token config); [|constructor]. destruct (telegram_chat_id config) as [chat|]; [|constructor].
  pose proof (deliver_all_delivers fa 0 "funding" chat
    ((λ d, (due_case d, Some (due_text d))) <$> pending_funding_alerts collate db cases c2 ws chat
       (preparation_alert_confidence config)) db funding_kind) as K1.
  destruct (deliver_all owns_case fa 0 "funding" ws chat _ db) as [[db1 funded] [|e]]; [|exact K1].
  pose proof (deliver_all_delivers sa 0 "signal" chat
    ((λ s, (Z.of_nat (sig_id s), signal_message s)) <$> pending_signal_alerts db signals c1 ws chat) db1
    signal_kind) as K2.
  destruct (deliver_all owns_case sa 0 "signal" ws chat _ db1) as [[db2 told] r]. by eapply delivers_trans.
Qed.

Lemma evaluate_cases_delivers config rc now clock attempts i open (radar : radar_db D) db (Hws : workspace config = ws) :
  let r := (evaluate_cases owns_case config rc now clock attempts i open radar db).2 in delivers db r.1.1 r.1.2.
Proof.
  cbv zeta. revert i radar db. induction open as [|c open IH]; intros i radar db; cbn [evaluate_cases]; [constructor|].
  destruct (evaluate_radar_case _ _ _ _ _ _ _) as [radar1 decision].
  set (o := match d_alert decision with Some _ => _ | None => _ end).
  assert (delivers db o.1.1 o.1.2) as Hd.
  { unfold o. destruct (d_alert decision) as [alert|]; [|constructor]. destruct (telegram_bot_token config); [|constructor].
    destruct (telegram_chat_id config) as [chat|]; [|constructor]. rewrite Hws.
    apply delivers_single, funding_kind. }
  destruct o as [[db1 sent] [|e]]; [|exact Hd].
  specialize (IH (S i) radar1 db1).
  destruct (evaluate_cases owns_case config rc now clock attempts (S i) open radar1 db1) as [radar2 [[db2 later] r]].
  by eapply delivers_trans.
Qed.
End log.

(** ** Recorded once *)

Section once.
Set Default Proof Using "Type".
Context {J D : Type} `{JsonValue J}.
Context (owns_case : Z → Z → bool) (ws : Z).
Local Abbreviation deliver_one := (deliver (J := J) owns_case).
Local Abbreviation run_ops := (meanwhile owns_case).

Lemma meanwhile_app o1 o2 db : run_ops (o1 ++ o2) db = run_ops o2 (run_ops o1 db).
Proof. apply fold_left_app. Qed.

(** A delivery is its statements, with those of others in between. *)
Lemma deliver_ops a kind subject chat message db :
  ∃ ops, (deliver_one a kind ws subject chat message db).1.1 = run_ops ops db.
Proof.
  unfold deliver, claim_alert.
  assert (∀ o : () + SendFailure, ∀ claim db, ∃ op,
    (complete_delivery a kind ws subject chat claim o db).1 = run_ops [op] db) as Hc.
  { intros [u|f] claim db1; cbn [complete_delivery].
    - by exists (at_done a, MarkSent kind ws subject chat (AlertClaim.token claim)).
    - destruct (failure_terms f) as [p ra].
      by exists (at_done a, MarkFailed kind ws subject chat (AlertClaim.token claim) (AlertClaim.attempt claim)
                  (failure_text f) p ra). }
  assert (run_ops [(at_exhaust a, Exhaust kind ws subject chat); (at_claim a, Claim (token a) kind ws subject chat)] db
    = (claim_statement owns_case (terminalize (at_exhaust a) (alert_dedup_key kind ws subject chat) db) (at_claim a)
        (token a) kind ws subject chat).1) as E0.
  { unfold meanwhile. cbn [fold_left run_op fst snd]. by destruct (claim_statement _ _ _ _ _ _ _ _). }
  destruct (claim_statement _ _ _ _ _ _ _ _) as [db1 [[claim|]|e]]; cbn [fst] in E0.
  2, 3: by eexists.
  destruct message as [text|].
  - destruct (Hc (send_message (answer a)) claim (run_ops (others a) db1)) as [op Eo].
    destruct (complete_delivery _ _ _ _ _ _ _ _) as [db2 rec]. cbn [fst] in *. rewrite Eo, <-E0, <-!meanwhile_app. by eexists.
  - destruct (Hc (inr Permanent) claim (run_ops (others a) db1)) as [op Eo]. cbn [fst]. rewrite Eo, <-E0, <-!meanwhile_app. by eexists.
Qed.

Lemma delivers_ops db db' log : delivers (J := J) owns_case ws db db' log → ∃ ops, db' = run_ops ops db.
Proof.
  induction 1 as [db|db db1 log ops _ [o1 ->]|db db1 db2 log sent r a kind subject chat message _ [o1 ->] _ E].
  - by exists [].
  - exists (o1 ++ ops). by rewrite meanwhile_app.
  - destruct (deliver_ops a kind subject chat message (run_ops o1 db)) as [o2 E2]. rewrite E in E2. cbn [fst] in E2.
    exists (o1 ++ o2). by rewrite meanwhile_app.
Qed.

(** What a row that is settled stays. *)
Definition settled_as (r : AlertRow) (key : string) (db : outbox) : Prop :=
  db !! key = Some r ∧ AlertRow.state r ≠ AlertState.Pending.

Lemma settled_step r key db now o : settled_as r key db → settled_as r key (run_op owns_case db now o).1.
Proof.
  intros [Hr Hs]. destruct (run_op owns_case db now o) as [db' taken] eqn:E. cbn [fst]. split; [|done].
  destruct (run_op_step _ _ _ _ _ _ E) as [Hne Hk]. destruct (decide (key = op_key o)) as [->|Hd]; [|by rewrite Hne].
  rewrite Hr in Hk. destruct Hk as (r1 & r2 & H1 & H2 & ->).
  apply row_step_terminal in H1 as [-> _]; [|done]. by apply row_step_terminal in H2 as [-> _].
Qed.

Lemma settled_ops r key ops db : settled_as r key db → settled_as r key (run_ops ops db).
Proof.
  revert db. induction ops as [|[t o] ops IH]; intros db Hs; [done|]. apply IH. by apply settled_step.
Qed.

Lemma deliver_settled a kind subject chat message db r
    (Hs : settled_as r (alert_dedup_key kind ws subject chat) db) :
  (deliver_one a kind ws subject chat message db).1.2 = [].
Proof.
  destruct Hs as [Hr Hs]. unfold deliver, claim_alert.
  assert (terminalize (at_exhaust a) (alert_dedup_key kind ws subject chat) db = db) as ->.
  { apply alter_id. intros r' E. rewrite Hr in E. injection E as <-. unfold terminalize_row.
    by rewrite bool_decide_eq_false_2. }
  unfold claim_statement. destruct (subject_columns kind subject) as [[si fc]|]; [|done]. destruct (negb _); [done|].
  unfold upsert_claim. rewrite Hr. unfold reclaimable. by rewrite bool_decide_eq_false_2.
Qed.

(** A recorded message leaves a sent row. *)
Lemma deliver_sent a kind subject chat message db d : d ∈ (deliver_one a kind ws subject chat message db).1.2 →
  (sent_kind d, sent_subject d, sent_chat d) = (kind, subject, chat)
  ∧ (recorded d = true → ∃ r, settled_as r (alert_dedup_key kind ws subject chat)
       (deliver_one a kind ws subject chat message db).1.1).
Proof.
  unfold deliver. destruct (claim_alert _ _ _ _ _ _ _ _ _) as [db1 [[claim|]|e]];
    try (cbn; intros Hd; by apply not_elem_of_nil in Hd).
  destruct message as [text|]; [|cbn; intros Hd; by apply not_elem_of_nil in Hd].
  unfold complete_delivery. destruct (send_message (answer a)) as [u|f].
  - unfold mark_alert_sent, fenced_update. set (key := alert_dedup_key kind ws subject chat).
    destruct (run_ops (others a) db1 !! key) as [r|]; [|cbn; by intros ->%list_elem_of_singleton].
    destruct (held r (AlertClaim.token claim)); cbn; [|by intros ->%list_elem_of_singleton].
    intros ->%list_elem_of_singleton. split; [done|]. intros _. eexists. split; [apply lookup_insert_eq|done].
  - destruct (failure_terms f) as [p ra]. cbn. by intros ->%list_elem_of_singleton.
Qed.

Definition delivery_key (d : delivery) : string := alert_dedup_key (sent_kind d) ws (sent_subject d) (sent_chat d).

Lemma delivers_settles db db' log d : delivers (J := J) owns_case ws db db' log → d ∈ log → recorded d = true →
  ∃ r, settled_as r (delivery_key d) db'.
Proof.
  induction 1 as [db|db db1 log ops _ IH|db db1 db2 log sent r a kind subject chat message _ IH _ E]; intros Hd Hr.
  - by apply not_elem_of_nil in Hd.
  - destruct (IH Hd Hr) as [x Hx]. exists x. by apply settled_ops.
  - apply elem_of_app in Hd as [Hd|Hd].
    + destruct (IH Hd Hr) as [x Hx]. exists x.
      destruct (deliver_ops a kind subject chat message db1) as [ops Eo]. rewrite E in Eo. cbn [fst] in Eo. subst db2.
      by apply settled_ops.
    + pose proof (deliver_sent a kind subject chat message db1 d) as Hs. rewrite E in Hs. cbn [fst snd] in Hs.
      destruct (Hs Hd) as [[= <- <- <-] Hx]. destruct (Hx Hr) as [x ?]. by exists x.
Qed.

Lemma delivers_once db db' log i j d d' : delivers (J := J) owns_case ws db db' log →
  (i < j)%nat → log !! i = Some d → log !! j = Some d' → delivery_key d = delivery_key d' → recorded d = false.
Proof.
  induction 1 as [db|db db1 log ops _ IH|db db1 db2 log sent r a kind subject chat message Hd IH _ E]; intros Hij Hi Hj Hk.
  - done.
  - by apply IH.
  - destruct (decide (j < length log)%nat) as [Hl|Hl].
    { apply IH; [done|by rewrite lookup_app_l in Hi by lia|by rewrite lookup_app_l in Hj by lia|done]. }
    destruct (recorded d) eqn:Er; [|done]. exfalso. rewrite lookup_app_r in Hj by lia.
    pose proof (deliver_sent a kind subject chat message db1 d') as Hs. rewrite E in Hs. cbn [fst snd] in Hs.
    destruct (Hs (list_elem_of_lookup_2 _ _ _ Hj)) as [[= E1 E2 E3] _].
    destruct (decide (i < length log)%nat) as [Hl'|Hl'].
    + rewrite lookup_app_l in Hi by lia.
      destruct (delivers_settles _ _ _ d Hd (list_elem_of_lookup_2 _ _ _ Hi) Er) as [x Hx].
      unfold delivery_key in Hk, Hx. rewrite Hk, E1, E2, E3 in Hx.
      pose proof (deliver_settled a kind subject chat message db1 x Hx) as Hn. rewrite E in Hn. cbn in Hn. by subst sent.
    + assert (length sent <= 1)%nat as Hlen.
      { clear -E. unfold deliver in E. destruct (claim_alert _ _ _ _ _ _ _ _ _) as [? [[?|]|?]];
          [destruct message; [destruct (complete_delivery _ _ _ _ _ _ _ _)|]|..]; injection E as <- <- <-; cbn; lia. }
      rewrite lookup_app_r in Hi by lia. apply lookup_lt_Some in Hi, Hj. lia.
Qed.
End once.

(** ** What the passes send *)

Section passes.
Set Default Proof Using "Type".
Context {J D : Type} `{JsonValue J}.
Context (collate : string → string → comparison) (owns_case : Z → Z → bool).

Inductive pass :=
  | Dispatch (config : dispatch_config) (clock_signals clock_funding : Z) (funding_attempts signal_attempts : nat → attempt (J := J))
      (signals : list (Signal (D := D))) (cases : list (CaseRow D))
  | Radar (config : dispatch_config) (radar_config : FundingRadarConfig) (now : Z) (clock : nat → Z)
      (attempts : nat → attempt (J := J)) (radar : radar_db D)
  | Elsewhere (ops : list (Z * op)).

Definition run_pass (db : outbox) (p : pass) : outbox * list delivery :=
  match p with
  | Dispatch c c1 c2 fa sa signals cases =>
      (dispatch_alerts_via (J := J) collate owns_case c c1 c2 fa sa signals cases db).1
  | Radar c rc now clock attempts radar => (evaluate_radar_cases (J := J) owns_case c rc now clock attempts radar db).2.1
  | Elsewhere ops => (meanwhile owns_case ops db, [])
  end.

(** The passes of one workspace, and all their messages in order. *)
Fixpoint run_passes (passes : list pass) (db : outbox) : outbox * list delivery :=
  match passes with
  | [] => (db, [])
  | p :: passes =>
      let '(db, sent) := run_pass db p in
      let '(db, later) := run_passes passes db in (db, sent ++ later)
  end.

Definition pass_of (ws : Z) (p : pass) : Prop :=
  match p with Dispatch c _ _ _ _ _ _ | Radar c _ _ _ _ _ => workspace c = ws | Elsewhere _ => True end.

Lemma run_pass_delivers ws db p (Hp : pass_of ws p) : delivers (J := J) owns_case ws db (run_pass db p).1 (run_pass db p).2.
Proof.
  destruct p; cbn [run_pass pass_of] in *; [by apply dispatch_delivers|by apply evaluate_cases_delivers|].
  apply (delivers_others owns_case ws db db [] ops), delivers_nil.
Qed.

Lemma run_passes_delivers ws passes db (Hp : Forall (pass_of ws) passes) :
  delivers (J := J) owns_case ws db (run_passes passes db).1 (run_passes passes db).2.
Proof.
  revert db. induction Hp as [|p passes Hp _ IH]; intros db; cbn [run_passes]; [constructor|].
  pose proof (run_pass_delivers ws db p Hp) as Hd. destruct (run_pass db p) as [db1 sent]. specialize (IH db1).
  destruct (run_passes passes db1) as [db2 later]. by eapply delivers_trans.
Qed.

Lemma run_ops_ok ops db : outbox_ok db → outbox_ok (meanwhile owns_case ops db).
Proof.
  revert db. induction ops as [|[t o] ops IH]; intros db Hok; [done|]. apply IH.
  destruct (run_op owns_case db t o) as [db' taken] eqn:E. cbn. rewrite E. by eapply run_op_ok.
Qed.

(** Claim C29: What is recorded as delivered is never sent again.  However the
    dispatch and radar passes of a workspace are interleaved with the
    statements of other dispatchers, also while a message is under way, of two
    messages about one subject to one chat the earlier one was not recorded;
    and the passes are statements of the outbox, whose invariant they keep. *)
Theorem recorded_once ws passes db (Hp : Forall (pass_of ws) passes) :
  let r := run_passes passes db in
  (∀ i j d d', (i < j)%nat → r.2 !! i = Some d → r.2 !! j = Some d' →
     (sent_kind d, sent_subject d, sent_chat d) = (sent_kind d', sent_subject d', sent_chat d') →
     recorded d = false)
  ∧ (∃ ops, r.1 = meanwhile owns_case ops db)
  ∧ (outbox_ok db → outbox_ok r.1).
Proof.
  cbv zeta. pose proof (run_passes_delivers ws passes db Hp) as Hd.
  destruct (delivers_ops _ _ _ _ _ Hd) as [ops Eo]. split_and!; [|by exists ops|rewrite Eo; apply run_ops_ok].
  intros i j d d' Hij Hi Hj [= E1 E2 E3]. eapply delivers_once; [exact Hd|exact Hij|exact Hi|exact Hj|].
  unfold delivery_key. by rewrite E1, E2, E3.
Qed.

(** *** Tenancy *)

Lemma deliver_all_sent attempts i kind ws chat subjects db d :
  d ∈ (deliver_all (J := J) owns_case attempts i kind ws chat subjects db).1.2 →
  sent_kind d = kind ∧ sent_chat d = chat ∧ (sent_subject d, Some (sent_text d)) ∈ subjects.
Proof.
  revert i db. induction subjects as [|[s m] subjects IH]; intros i db; cbn [deliver_all].
  { intros Hd. by apply not_elem_of_nil in Hd. }
  assert (∀ x, x ∈ (deliver owns_case (attempts i) kind ws s chat m db).1.2 →
    sent_kind x = kind ∧ sent_chat x = chat ∧ (sent_subject x, Some (sent_text x)) = (s, m)) as Hone.
  { unfold deliver. destruct (claim_alert _ _ _ _ _ _ _ _ _) as [? [[?|]|?]];
      [destruct m; [destruct (complete_delivery _ _ _ _ _ _ _ _)|]|..]; cbn; intros x Hx;
      try (by apply not_elem_of_nil in Hx). by apply list_elem_of_singleton in Hx as ->. }
  destruct (deliver owns_case (attempts i) kind ws s chat m db) as [[db1 sent] [|e]]; cbn [fst snd] in *.
  - specialize (IH (S i) db1). destruct (deliver_all owns_case attempts (S i) kind ws chat subjects db1) as [[db2 later] r].
    cbn [fst snd] in *. intros [(-> & -> & ->)%Hone|(-> & -> & Hin)%IH]%elem_of_app; split_and!; try done; [by left|by right].
  - intros (-> & -> & ->)%Hone. split_and!; [done..|by left].
Qed.

Lemma pending_funding_owned db (cases : list (CaseRow D)) now ws chat min due :
  due ∈ pending_funding_alerts collate db cases now ws chat min →
  ∃ c, c ∈ cases ∧ CaseRow.workspace_id c = ws ∧ due_case due = CaseRow.id c ∧ due_text due = funding_text c.
Proof.
  clear owns_case. unfold pending_funding_alerts. intros Hd%elem_of_take_l. rewrite elem_of_stable_sort in Hd.
  apply elem_of_app in Hd as [Hd|Hd].
  - unfold outbox_due in Hd. apply list_elem_of_In, in_flat_map in Hd as ([key r] & _ & Hd). apply list_elem_of_In in Hd.
    unfold funding_row_due in Hd. destruct (_ && _) eqn:Er; [|by apply not_elem_of_nil in Hd].
    rewrite !andb_true_iff, Z.eqb_eq in Er. apply list_elem_of_fmap in Hd as (c & -> & [Hc Hw]%elem_of_lfilter).
    apply andb_prop in Hw as [_ Hw%Z.eqb_eq]. exists c. split_and!; try done. rewrite Hw. tauto.
  - unfold derived_due in Hd. apply list_elem_of_fmap in Hd as (c & -> & [Hc Hu]%elem_of_lfilter).
    unfold untold in Hu. rewrite !andb_true_iff, Z.eqb_eq in Hu. exists c. split_and!; [done|tauto|done|done].
Qed.

(** A dispatch pass tells its own chat about its own workspace.  Every
    message is about an active signal or a funding case of the workspace, with
    the text composed from it, and goes to the configured chat. *)
Theorem dispatch_tenant_scoped config c1 c2 fa sa signals (cases : list (CaseRow D)) db d
    (Hd : d ∈ (dispatch_alerts_via (J := J) collate owns_case config c1 c2 fa sa signals cases db).1.2) :
  telegram_chat_id config = Some (sent_chat d)
  ∧ ((sent_kind d = "signal" ∧ ∃ s, s ∈ signals ∧ sig_workspace s = workspace config ∧ sig_status s = "active"
        ∧ sent_subject d = Z.of_nat (sig_id s) ∧ signal_message s = Some (sent_text d))
     ∨ (sent_kind d = "funding" ∧ ∃ c, c ∈ cases ∧ CaseRow.workspace_id c = workspace config
        ∧ sent_subject d = CaseRow.id c ∧ sent_text d = funding_text c)).
Proof.
  unfold dispatch_alerts_via in Hd. destruct (telegram_bot_token config); [|by apply not_elem_of_nil in Hd].
  destruct (telegram_chat_id config) as [chat|]; [|by apply not_elem_of_nil in Hd].
  set (funding := pending_funding_alerts _ _ _ _ _ _ _) in Hd. set (pending := pending_signal_alerts _ _ _ _ _) in Hd.
  assert (∀ i db0, d ∈ (deliver_all owns_case fa i "funding" (workspace config) chat
    ((λ d, (due_case d, Some (due_text d))) <$> funding) db0).1.2 → Some chat = Some (sent_chat d) ∧ sent_kind d = "funding"
    ∧ ∃ c, c ∈ cases ∧ CaseRow.workspace_id c = workspace config ∧ sent_subject d = CaseRow.id c ∧ sent_text d = funding_text c) as Hf.
  { intros i db0 (Ek & -> & (due & [= Es Et] & (c & Hc & Hw & E1 & E2)%pending_funding_owned)%list_elem_of_fmap)%deliver_all_sent.
    split_and!; [done..|]. exists c. split_and!; congruence. }
  destruct (deliver_all owns_case fa 0 "funding" _ _ _ db) as [[db1 funded] [|e]] eqn:E1; cbn [fst snd] in Hd.
  2: { specialize (Hf 0%nat db). rewrite E1 in Hf. destruct (Hf Hd) as (? & ? & ?). eauto. }
  destruct (deliver_all owns_case sa 0 "signal" _ _ _ db1) as [[db2 told] r] eqn:E2; cbn [fst snd] in Hd.
  apply elem_of_app in Hd as [Hd|Hd].
  - specialize (Hf 0%nat db). rewrite E1 in Hf. destruct (Hf Hd) as (? & ? & ?). eauto.
  - pose proof (deliver_all_sent sa 0 "signal" (workspace config) chat
      ((λ s, (Z.of_nat (sig_id s), signal_message s)) <$> pending) db1 d) as Hs. rewrite E2 in Hs.
    destruct (Hs Hd) as (Ek & <- & (sg & [= Es Et] & Hin)%list_elem_of_fmap). split; [done|]. left. split; [done|].
    apply elem_of_take_l in Hin. rewrite elem_of_stable_sort in Hin. apply elem_of_lfilter in Hin as [Hin Hp].
    unfold signal_pending in Hp. rewrite !andb_true_iff, Z.eqb_eq, bool_decide_eq_true in Hp.
    exists sg. split_and!; [done|tauto|tauto|done|done].
Qed.
End passes.

(** ** A lost announcement comes back *)

Section recovery.
Set Default Proof Using "Type".
Context {J D : Type} `{JsonValue J}.
Context (collate : string → string → comparison) (owns_case : Z → Z → bool).

(** A row lies under the key of its columns. *)
Definition row_keyed (key : string) (r : AlertRow) : Prop :=
  ∃ subject, subject_columns (AlertRow.subject_kind r) subject = Some (AlertRow.signal_id r, AlertRow.funding_case_id r)
    ∧ key = alert_dedup_key (AlertRow.subject_kind r) (AlertRow.workspace_id r) subject (AlertRow.destination r).

Definition keyed (db : outbox) : Prop := map_Forall row_keyed db.

Lemma keyed_update db key f (r : AlertRow) (Hk : keyed db) (Hr : db !! key = Some r)
    (Hf : AlertRow.subject_kind (f r) = AlertRow.subject_kind r ∧ AlertRow.workspace_id (f r) = AlertRow.workspace_id r
      ∧ AlertRow.signal_id (f r) = AlertRow.signal_id r ∧ AlertRow.funding_case_id (f r) = AlertRow.funding_case_id r
      ∧ AlertRow.destination (f r) = AlertRow.destination r) :
  keyed (<[key := f r]> db).
Proof.
  apply map_Forall_insert_2; [|done]. destruct (Hk key r Hr) as (s & E1 & E2). exists s.
  destruct Hf as (-> & -> & -> & -> & ->). done.
Qed.

Lemma fenced_keyed db key token f (Hk : keyed db)
    (Hf : ∀ r, AlertRow.subject_kind (f r) = AlertRow.subject_kind r ∧ AlertRow.workspace_id (f r) = AlertRow.workspace_id r
      ∧ AlertRow.signal_id (f r) = AlertRow.signal_id r ∧ AlertRow.funding_case_id (f r) = AlertRow.funding_case_id r
      ∧ AlertRow.destination (f r) = AlertRow.destination r) :
  keyed (fenced_update db key token f).1.
Proof.
  unfold fenced_update. destruct (db !! key) as [r|] eqn:E; [|done]. destruct (held r token); [|done].
  by apply keyed_update.
Qed.

Lemma run_op_keyed db now o : keyed db → keyed (run_op owns_case db now o).1.
Proof.
  intros Hk. destruct o as [k w s d|t k w s d|k w s d t|k w s d t a e p ra]; cbn [run_op].
  - cbn [fst]. unfold terminalize. set (key := alert_dedup_key k w s d). destruct (db !! key) as [r|] eqn:E.
    + replace (alter (terminalize_row now) key db) with (<[key := terminalize_row now r]> db).
      * apply keyed_update; [done..|]. unfold terminalize_row. by destruct (_ && _ && _).
      * apply map_eq. intros i. destruct (decide (i = key)) as [->|Hne].
        -- by rewrite lookup_insert_eq, lookup_alter_eq, E.
        -- by rewrite lookup_insert_ne, lookup_alter_ne.
    + rewrite alter_id; [done|]. intros r. by rewrite E.
  - unfold claim_statement. destruct (subject_columns k s) as [[si fc]|] eqn:Ec; [|done]. destruct (negb _); [done|].
    unfold upsert_claim. destruct (db !! _) as [r|] eqn:E.
    + destruct (reclaimable r now); [|done]. cbn. by apply keyed_update.
    + cbn. apply map_Forall_insert_2; [|done]. by exists s.
  - by apply fenced_keyed.
  - by apply fenced_keyed.
Qed.

(** A claim without a row, an answered message, nobody else: recorded. *)
Lemma deliver_fresh (a : attempt (J := J)) ws case chat text db
    (Hnone : db !! alert_dedup_key "funding" ws case chat = None) (Howns : owns_case case ws = true)
    (Halone : others a = []) (Hok : send_message (answer a) = inl ()) :
  (deliver owns_case a "funding" ws case chat (Some text) db).1.2 = [MkDelivery "funding" case chat text true].
Proof.
  unfold deliver, claim_alert, terminalize. rewrite (alter_id (terminalize_row (at_exhaust a)) db) by (intros r; by rewrite Hnone).
  unfold claim_statement. change (subject_columns "funding" case) with (Some (@None Z, Some case)). cbn beta iota.
  rewrite Howns. cbn [negb]. unfold upsert_claim. rewrite Hnone. cbn beta iota. cbn [fmap option_fmap option_map].
  rewrite Halone. unfold complete_delivery. rewrite Hok. unfold mark_alert_sent, fenced_update. cbn [meanwhile fold_left].
  rewrite lookup_insert_eq. unfold held. cbn. by rewrite (bool_decide_eq_true_2 (Some (token a) = _)) by done.
Qed.

Lemma deliver_elsewhere (a : attempt (J := J)) kind ws s chat m db key
    (Hk : alert_dedup_key kind ws s chat ≠ key) (Halone : others a = []) :
  (deliver owns_case a kind ws s chat m db).1.1 !! key = db !! key.
Proof.
  assert (∀ o db now, op_key o = alert_dedup_key kind ws s chat → (run_op owns_case db now o).1 !! key = db !! key) as Hop.
  { intros o db0 now Eo. destruct (run_op owns_case db0 now o) as [db' t] eqn:E.
    apply run_op_step in E as [Hne _]. apply Hne. by rewrite Eo. }
  unfold deliver, claim_alert. rewrite Halone.
  pose proof (Hop (Exhaust kind ws s chat) db (at_exhaust a) eq_refl) as E1. cbn [run_op fst] in E1.
  pose proof (Hop (Claim (token a) kind ws s chat) (terminalize (at_exhaust a) (alert_dedup_key kind ws s chat) db)
    (at_claim a) eq_refl) as E2. cbn [run_op] in E2.
  destruct (claim_statement _ _ _ _ _ _ _ _) as [db1 [[claim|]|e]]; cbn [fst snd] in *; [|congruence..].
  assert (∀ o, (complete_delivery a kind ws s chat claim o db1).1 !! key = db1 !! key) as E3.
  { intros [u|f]; cbn [complete_delivery].
    - exact (Hop (MarkSent kind ws s chat (AlertClaim.token claim)) db1 (at_done a) eq_refl).
    - destruct (failure_terms f) as [p ra].
      exact (Hop (MarkFailed kind ws s chat (AlertClaim.token claim) (AlertClaim.attempt claim) (failure_text f) p ra)
               db1 (at_done a) eq_refl). }
  cbn [meanwhile fold_left]. destruct m as [text|].
  - specialize (E3 (send_message (answer a))). destruct (complete_delivery _ _ _ _ _ _ _ _) as [db2 rec]. cbn in *. congruence.
  - specialize (E3 (inr Permanent)). cbn [fst]. congruence.
Qed.

Lemma deliver_owned (a : attempt (J := J)) ws case chat m db : owns_case case ws = true →
  (deliver owns_case a "funding" ws case chat m db).2 = ROk ().
Proof.
  intros Ho. unfold deliver, claim_alert, claim_statement.
  change (subject_columns "funding" case) with (Some (@None Z, Some case)). cbn beta iota. rewrite Ho. cbn [negb].
  destruct (upsert_claim _ _ _ _ _ _ _ _ _) as [db1 [n|]]; [|done]. cbn [fmap option_fmap option_map].
  destruct m; [|done]. by destruct (complete_delivery _ _ _ _ _ _ _ _).
Qed.

Lemma deliver_all_reaches (attempts : nat → attempt (J := J)) i ws chat subjects db case m
    (Hin : (case, m) ∈ subjects) (Hm : Forall (λ s, is_Some s.2) subjects)
    (Hnone : db !! alert_dedup_key "funding" ws case chat = None)
    (Howns : Forall (λ s, owns_case s.1 ws = true) subjects)
    (Halone : ∀ i, others (attempts i) = []) (Hok : ∀ i, send_message (answer (attempts i)) = inl ()) :
  ∃ d, d ∈ (deliver_all owns_case attempts i "funding" ws chat subjects db).1.2
    ∧ sent_subject d = case ∧ recorded d = true.
Proof.
  revert i db Hnone. induction subjects as [|[s x] subjects IH]; intros i db Hnone; [by apply not_elem_of_nil in Hin|].
  inversion_clear Hm as [|? ? [text Et] Hm']. inversion_clear Howns as [|? ? Ho Howns']. cbn [fst snd] in *. subst x.
  cbn [deliver_all]. pose proof (deliver_owned (attempts i) ws s chat (Some text) db Ho) as Er.
  pose proof (deliver_fresh (attempts i) ws s chat text db) as Ef.
  pose proof (deliver_elsewhere (attempts i) "funding" ws s chat (Some text) db
    (alert_dedup_key "funding" ws case chat)) as Ee.
  destruct (deliver owns_case (attempts i) "funding" ws s chat (Some text) db) as [[db1 sent] r]. cbn [fst snd] in *. subst r.
  destruct (decide (s = case)) as [->|Hne].
  - rewrite (Ef Hnone Ho (Halone i) (Hok i)). destruct (deliver_all _ _ _ _ _ _ _ _) as [[db2 later] r]. cbn.
    eexists. split; [left|done].
  - apply elem_of_cons in Hin as [[= <- _]|Hin]; [done|].
    destruct (IH Hin Hm' Howns' (S i) db1) as (d & Hd & Hs).
    { rewrite Ee; [done| |done]. intros E. apply alert_dedup_key_injective in E as (_ & _ & E & _); [done|by repeat split..]. }
    destruct (deliver_all _ _ _ _ _ _ _ _) as [[db2 later] r]. cbn [fst snd] in *. exists d. split; [|done].
    apply elem_of_app. by right.
Qed.
End recovery.

Section announced.
Set Default Proof Using "Type".
Context {J D : Type} `{JsonValue J}.
Context (collate : string → string → comparison) (owns_case : Z → Z → bool).

Lemma run_ops_keyed ops db : keyed db → keyed (meanwhile owns_case ops db).
Proof.
  revert db. induction ops as [|[t o] ops IH]; intros db Hk; [done|]. by apply IH, run_op_keyed.
Qed.

Lemma untold_true db ws min chat (c : CaseRow D) (Hkeyed : keyed db)
    (Hws : CaseRow.workspace_id c = ws) (Hstage : CaseRow.stage c = "preparation") (Hconf : min <= CaseRow.confidence c)
    (Hnone : db !! alert_dedup_key "funding" ws (CaseRow.id c) chat = None) :
  untold db ws min chat c = true.
Proof.
  unfold untold. rewrite Hws, Z.eqb_refl, bool_decide_eq_true_2, (proj2 (Z.leb_le _ _) Hconf) by done.
  cbn [andb]. apply negb_true_iff.
  apply existsb_false_elem. intros r ([key r'] & -> & Hin%elem_of_map_to_list)%list_elem_of_fmap. cbn [snd].
  destruct (Hkeyed _ _ Hin) as (s & Es & Ek).
  case_bool_decide as Ekind; [|done]. case_bool_decide as Eid; [|done]. rewrite Ekind in *. destruct (Z.eqb_spec (AlertRow.workspace_id r') ws) as [Ew|]; [|done].
  case_bool_decide as Ed; [|done]. exfalso. rewrite Ew, Ed in Ek.
  change (subject_columns "funding" s) with (Some (@None Z, Some s)) in Es. injection Es as _ Es. congruence.
Qed.

(** Claim C30: A preparation is announced even when its producer was not heard.
    In an outbox whose rows lie under their keys, with the cases owned by their
    workspaces, at most twenty funding alerts due (the LIMIT of a pass), the API
    answering and no other dispatcher in between, one dispatch pass sends the
    announcement of every sufficiently confident preparation of the workspace
    that has no row for the chat, and records it; the rows stay under their
    keys. *)
Theorem lost_announcement_recovered config chat c1 c2 fa sa signals (cases : list (CaseRow D)) db c
    (Hbot : is_Some (telegram_bot_token config)) (Hchat : telegram_chat_id config = Some chat)
    (Hkeyed : keyed db) (Hc : c ∈ cases)
    (Hws : CaseRow.workspace_id c = workspace config) (Hstage : CaseRow.stage c = "preparation")
    (Hconf : preparation_alert_confidence config <= CaseRow.confidence c)
    (Hnone : db !! alert_dedup_key "funding" (workspace config) (CaseRow.id c) chat = None)
    (Hfew : (length (outbox_due db cases c2 (workspace config) chat
              ++ derived_due db cases (workspace config) (preparation_alert_confidence config) chat) <= 20)%nat)
    (Howns : ∀ c, c ∈ cases → owns_case (CaseRow.id c) (CaseRow.workspace_id c) = true)
    (Halone : ∀ i, others (fa i) = []) (Hok : ∀ i, send_message (answer (fa i)) = inl ()) :
  let r := dispatch_alerts_via (J := J) collate owns_case config c1 c2 fa sa signals cases db in
  (∃ d, d ∈ r.1.2 ∧ sent_subject d = CaseRow.id c ∧ sent_chat d = chat ∧ recorded d = true)
  ∧ keyed r.1.1.
Proof.
  cbv zeta. split.
  2: { destruct (delivers_ops _ _ _ _ _ (dispatch_delivers (J := J) collate owns_case _ config c1 c2 fa sa signals cases db eq_refl))
         as [ops ->]. by apply run_ops_keyed. }
  set (ws := workspace config) in *. set (min := preparation_alert_confidence config) in *.
  set (funding := pending_funding_alerts collate db cases c2 ws chat min).
  assert (∀ x, x ∈ funding ↔ x ∈ outbox_due db cases c2 ws chat ++ derived_due db cases ws min chat) as Hin.
  { intros x. unfold funding, pending_funding_alerts. rewrite take_ge by by rewrite length_stable_sort.
    apply elem_of_stable_sort. }
  assert (MkDue (CaseRow.id c) (funding_text c) ("derived:" +:+ pretty (CaseRow.id c)) ∈ funding) as Hdue.
  { apply Hin, elem_of_app. right. apply list_elem_of_fmap. exists c. split; [done|].
    apply elem_of_lfilter. split; [done|]. by apply untold_true. }
  destruct (deliver_all_reaches owns_case fa 0 ws chat ((λ d, (due_case d, Some (due_text d))) <$> funding) db
    (CaseRow.id c) (Some (funding_text c))) as (d & Hd & Es & Hr).
  - apply list_elem_of_fmap. eexists. by split; [|exact Hdue].
  - apply Forall_fmap, Forall_forall. intros x _. by eexists.
  - exact Hnone.
  - apply Forall_fmap, Forall_forall. intros x (c' & Hc' & Hw & Ei & _)%(pending_funding_owned collate). cbn. rewrite Ei, <-Hw. by apply Howns.
  - done.
  - done.
  - unfold dispatch_alerts_via. destruct Hbot as [bot ->]. rewrite Hchat. fold ws min funding.
    apply (deliver_all_sent owns_case) in Hd as Hs. destruct Hs as (_ & Ec & _).
    destruct (deliver_all owns_case fa 0 "funding" ws chat _ db) as [[db1 funded] [|e]]; cbn [fst snd] in *; [|by exists d].
    destruct (deliver_all owns_case sa 0 "signal" ws chat _ db1) as [[db2 told] r]. exists d. split; [|done].
    cbn. apply elem_of_app. by left.
Qed.
End announced.

(** ** Instances *)

Definition chat_config : dispatch_config := MkDispatch (Some "bot") (Some "chat") 7 70.
Definition accepted_reply : bot_reply json := BotAnswer 200 None (ROk (JObject [("ok", JBool true)])).
Definition everyone (_ _ : Z) : bool := true.

(** One dispatcher from [start], a minute per delivery. *)
Definition alone (start : Z) (r : bot_reply json) : nat → attempt := λ i,
  let t := secs (start + 60 * Z.of_nat i) in MkAttempt t t (t + 1) ("p-" +:+ pretty (start + Z.of_nat i)) [] r.

Definition plain_signal (id : nat) (ws : Z) : Signal (D := Qc) :=
  MkSignal id ws "solana" "MINT" "entry" (Z.of_nat id) 80 "active" (ExitEvidence (MkExit 0 false false None false)).

Definition plain_case (id ws : Z) (stage : string) (confidence : Z) : CaseRow Qc :=
  CaseRow.mk id ws "solana" ("R" +:+ pretty id) 0 None 0%Qc "F" None 0 (10 ^ 30) stage confidence id None.

Definition dispatch_at (start : Z) (r : bot_reply json) : pass (J := json) (D := Qc) :=
  Dispatch chat_config (secs start) (secs start) (alone start r) (alone (start + 30) r)
    [plain_signal 1 7; plain_signal 2 8] [plain_case 3 7 "preparation" 80; plain_case 4 8 "preparation" 80].

(** A server error, then two answers: one message per subject is recorded, and
    nothing is left for the third pass. *)
Definition three_passes : list (pass (J := json) (D := Qc)) :=
  [dispatch_at 1000 (BotAnswer 500 None (RErr "")); dispatch_at 2000 accepted_reply; dispatch_at 3000 accepted_reply].

Definition sent_log (log : list delivery) : list (string * Z * bool) :=
  (λ d, (sent_kind d, sent_subject d, recorded d)) <$> log.

Example three_passes_log :
  sent_log (run_passes String.compare everyone three_passes ∅).2
  = [("funding", 3, false); ("signal", 1, false); ("funding", 3, true); ("signal", 1, true)].
Proof. vm_compute. reflexivity. Qed.

Definition told (recorded : bool) : delivery :=
  MkDelivery "funding" 3 "chat" (funding_text (plain_case 3 7 "preparation" 80)) recorded.

Lemma recorded_once_witness :
  Forall (pass_of 7) three_passes
  ∧ (run_passes String.compare everyone three_passes ∅).2 !! 0%nat = Some (told false)
  ∧ (run_passes String.compare everyone three_passes ∅).2 !! 2%nat = Some (told true)
  ∧ recorded (told false) = false.
Proof.
  assert (Forall (pass_of 7) three_passes) as Hp by (repeat constructor).
  assert ((run_passes String.compare everyone three_passes ∅).2 !! 0%nat = Some (told false)) as E0 by (vm_compute; reflexivity).
  assert ((run_passes String.compare everyone three_passes ∅).2 !! 2%nat = Some (told true)) as E2 by (vm_compute; reflexivity).
  split_and!; [exact Hp|exact E0|exact E2|].
  exact (proj1 (recorded_once String.compare everyone 7 three_passes ∅ Hp) 0%nat 2%nat _ _ (Nat.lt_0_succ 1) E0 E2 eq_refl).
Defined.

Lemma dispatch_tenant_scoped_witness :
  told false ∈ (run_passes String.compare everyone [dispatch_at 1000 (BotAnswer 500 None (RErr ""))] ∅).2
  ∧ telegram_chat_id chat_config = Some "chat".
Proof.
  assert (told false ∈ (dispatch_alerts_via String.compare everyone chat_config (secs 1000) (secs 1000)
    (alone 1000 (BotAnswer 500 None (RErr ""))) (alone 1030 (BotAnswer 500 None (RErr "")))
    [plain_signal 1 7; plain_signal 2 8] [plain_case 3 7 "preparation" 80; plain_case 4 8 "preparation" 80] ∅).1.2) as Hd.
  { apply (list_elem_of_lookup_2 _ 0%nat). vm_compute. reflexivity. }
  split; [apply (list_elem_of_lookup_2 _ 0%nat); vm_compute; reflexivity|].
  exact (proj1 (dispatch_tenant_scoped String.compare everyone _ _ _ _ _ _ _ _ _ Hd)).
Defined.

Lemma lost_announcement_recovered_witness :
  (∅ : outbox) !! alert_dedup_key "funding" 7 3 "chat" = None
  ∧ ∃ d, d ∈ (dispatch_alerts_via String.compare everyone chat_config 0 0 (alone 0 accepted_reply) (alone 30 accepted_reply)
      [] [plain_case 3 7 "preparation" 80] ∅).1.2 ∧ sent_subject d = 3 ∧ sent_chat d = "chat" ∧ recorded d = true.
Proof.
  split; [reflexivity|].
  exact (proj1 (lost_announcement_recovered String.compare everyone chat_config "chat" 0 0 (alone 0 accepted_reply)
    (alone 30 accepted_reply) [] [plain_case 3 7 "preparation" 80] ∅ (plain_case 3 7 "preparation" 80)
    (ex_intro _ _ eq_refl) eq_refl (map_Forall_empty _) (list_elem_of_here _ _) eq_refl eq_refl
    ltac:(by vm_compute) eq_refl ltac:(vm_compute; lia) (λ _ _, eq_refl) (λ _, eq_refl) (λ _, eq_refl))).
Defined.

(** ** Starvation of the radar *)

Definition silent : dispatch_config := MkDispatch None None 7 70.

(** A hundred preparations past their window, and a newer case with evidence. *)
Definition newcomer : CaseRow Qc :=
  CaseRow.mk 101 7 "solana" "R101" 0 None 0%Qc "F" None 0 (10 ^ 32) "funded" 50 101 None.

Definition crowded : radar_db Qc :=
  MkRadar [] (MkLabels ∅ []) (((λ i, plain_case (Z.of_nat i) 7 "preparation" 80) <$> seq 1 100) ++ [newcomer])
    [MkEvent 101 "first_funding" 0 None; MkEvent 101 "additional_funding" 0 None; MkEvent 101 "fresh_fanout" 0 None;
     MkEvent 101 "case_evidence" 0 None] 102.

Definition radar_pass (radar : radar_db Qc) : radar_db Qc :=
  (evaluate_radar_cases (J := json) everyone silent FundingRadarConfig.default (10 ^ 31) (λ _, 10 ^ 31)
     (alone 0 accepted_reply) radar ∅).1.

(** The radar pass can starve a case.  A preparation that no deployment
    follows stays open and is never written again, so behind a hundred of them
    every pass evaluates the same hundred and changes nothing, and a newer case
    is never evaluated, although one evaluation would promote it. *)
Theorem radar_pass_starves :
  (∀ passes, Nat.iter passes radar_pass crowded = crowded)
  ∧ newcomer ∈ FundingRadar.cases crowded ∧ open_case 7 newcomer = true
  ∧ (CaseRow.id newcomer ∉ (CaseRow.id <$> open_cases crowded 7))
  ∧ d_stage (evaluate_radar_case crowded (10 ^ 31) 7 ChainKind.Solana "R101" (10 ^ 31) FundingRadarConfig.default).2
    = RadarStage.Preparation.
Proof.
  assert (radar_pass crowded = crowded) as E by (vm_compute; reflexivity).
  split_and!; [| |reflexivity| |vm_compute; reflexivity].
  - intros k. induction k as [|k IH]; [done|]. simpl. by rewrite IH.
  - apply (list_elem_of_lookup_2 _ 100%nat). vm_compute. reflexivity.
  - intros Hin. apply (bool_decide_eq_true_2 _) in Hin. vm_compute in Hin. discriminate Hin.
Qed.
