(* ===== verification/Decision.v ===== *)
(** * Decisions (src/src/sf/decision.rs, decision_runtime.rs, portfolio.rs)

    The fail-closed evaluation of an immutable decision bundle.  A
    [serde_json::Value] is a parameter, with the number of entries of an object
    ([as_object]). *)
From S2P Require Import Prelude Text Domain Floats Execution.
From stdpp Require Import options.
Local Open Scope string_scope.
Local Open Scope list_scope.

Module ComponentClass.
Inductive ComponentClass := MandatoryPass | SizingInput | StrategyInput | HaltInput.
#[global] Instance ComponentClass_eq_dec : EqDecision ComponentClass.
Proof. solve_decision. Defined.
End ComponentClass.
Abbreviation ComponentClass := ComponentClass.ComponentClass.

Module Disposition.
Inductive Disposition := Approve | Reject | MissingCapability | InsufficientEvidence.
#[global] Instance Disposition_eq_dec : EqDecision Disposition.
Proof. solve_decision. Defined.
End Disposition.
Abbreviation Disposition := Disposition.Disposition.

Definition REQUIRED_MANDATORY : list string :=
  ["security"; "contract_identity"; "chain_state"; "mandatory_freshness"].

Section decision.
Context {Value : Type} (as_object : Value → option nat).

Record ComponentResult := MkComponent {
  component_class : ComponentClass;
  component_name : string;
  pass : option bool;
  component_result : Value;
}.

Record DecisionBundle := MkBundle {
  target_entity : string;
  target_action : Action;
  decision_at : string;
  evidence_snapshot_ids : list string;
  component_results : list ComponentResult;
  missing_capabilities : list string;
  source_freshness : Value;
  confidence : option f64;
  truth_status : TruthStatus;
  strategy_version : option string;
  rule_version : option string;
  policy_version : option string;
  alternatives : list string;
  final_disposition : string;
}.

(** The filter of the required loop. *)
Definition is_required (required : string) (c : ComponentResult) : bool :=
  bool_decide (component_class c = ComponentClass.MandatoryPass)
  && bool_decide (component_name c = required).

(** [for required in REQUIRED_MANDATORY]: whether it returns [Reject]. *)
Fixpoint required_rejects (required : list string) (components : list ComponentResult) : bool :=
  match required with
  | [] => false
  | r :: required =>
      match List.filter (is_required r) components with
      | [c] => if bool_decide (pass c = Some true) then required_rejects required components else true
      | _ => true
      end
  end.

(** [for c in &bundle.component_results]. *)
Fixpoint component_rejects (components : list ComponentResult) : bool :=
  match components with
  | [] => false
  | c :: components =>
      match component_class c with
      | ComponentClass.MandatoryPass =>
          if negb (bool_decide (pass c = Some true)) then true else component_rejects components
      | ComponentClass.HaltInput =>
          if bool_decide (pass c = Some true) then true else component_rejects components
      | ComponentClass.SizingInput | ComponentClass.StrategyInput => component_rejects components
      end
  end.

Definition evaluate (bundle : DecisionBundle) : Disposition :=
  if bool_decide (evidence_snapshot_ids bundle = []) then Disposition.InsufficientEvidence else
  if match as_object (source_freshness bundle) with
     | Some n => bool_decide (n = 0) | None => true end
  then Disposition.InsufficientEvidence else
  if negb (bool_decide (missing_capabilities bundle = [])) then Disposition.MissingCapability else
  if required_rejects REQUIRED_MANDATORY (component_results bundle) then Disposition.Reject else
  if component_rejects (component_results bundle) then Disposition.Reject else
  Disposition.Approve.

Definition is_reproducible (bundle : DecisionBundle) : bool :=
  negb (bool_decide (evidence_snapshot_ids bundle = [])).

Definition unresolved_mandatory (bundle : DecisionBundle) : nat :=
  length (List.filter
    (λ c, bool_decide (component_class c = ComponentClass.MandatoryPass)
          && negb (bool_decide (pass c = Some true))) (component_results bundle)).

(** ** Theorems *)

Lemma required_rejects_false required components :
  required_rejects required components = false ↔
  ∀ r, r ∈ required → ∃ c, List.filter (is_required r) components = [c] ∧ pass c = Some true.
Proof.
  induction required as [|r required IH]; simpl.
  - split; [|done]. intros _ r Hr. by apply not_elem_of_nil in Hr.
  - setoid_rewrite elem_of_cons. destruct (List.filter (is_required r) components) as [|c [|c' l]] eqn:E.
    + split; [done|]. intros Hx. destruct (Hx r) as (? & Hc & _); [by left|congruence].
    + case_bool_decide as Hp.
      * rewrite IH. split; [intros Hx r' [->|Hr]; eauto|]. intros Hx r' Hr. apply Hx. by right.
      * split; [done|]. intros Hx. destruct (Hx r) as (? & Hc & ?); [by left|congruence].
    + split; [done|]. intros Hx. destruct (Hx r) as (? & Hc & _); [by left|congruence].
Qed.

Lemma component_rejects_false components :
  component_rejects components = false ↔
  ∀ c, c ∈ components →
    (component_class c = ComponentClass.MandatoryPass → pass c = Some true) ∧
    (component_class c = ComponentClass.HaltInput → pass c ≠ Some true).
Proof.
  induction components as [|c l IH]; simpl.
  - split; [|done]. intros _ c Hc. by apply not_elem_of_nil in Hc.
  - setoid_rewrite elem_of_cons. destruct (component_class c) eqn:Ec; simpl;
      try (rewrite IH; split; [intros Hx c' [->|Hc]; [by rewrite Ec|by apply Hx]|by auto]).
    + case_bool_decide as Hp; simpl.
      * rewrite IH. split; [intros Hx c' [->|Hc]; [by rewrite Ec|by apply Hx]|by auto].
      * split; [done|]. intros Hx. by destruct Hp, (Hx c (or_introl eq_refl)) as [Hm _]; apply Hm.
    + case_bool_decide as Hp; simpl.
      * split; [done|]. intros Hx. by destruct (Hx c (or_introl eq_refl)) as [_ Hm]; apply Hm in Ec.
      * rewrite IH. split; [intros Hx c' [->|Hc]; [by rewrite Ec|by apply Hx]|by auto].
Qed.

(** A decision is approved only on complete evidence.  [evaluate] approves
    exactly the bundles with an evidence snapshot, a non-empty freshness object,
    no missing capability, each of the four required components present exactly
    once as a passing mandatory one, every other mandatory component passing
    too, and no halt input firing; then nothing mandatory is unresolved.  The
    earlier obstacles take precedence over a rejection. *)
Theorem decision_fails_closed bundle :
  (evaluate bundle = Disposition.Approve ↔
     evidence_snapshot_ids bundle ≠ [] ∧
     (∃ n, as_object (source_freshness bundle) = Some n ∧ n ≠ 0) ∧
     missing_capabilities bundle = [] ∧
     (∀ r, r ∈ ["security"; "contract_identity"; "chain_state"; "mandatory_freshness"] →
        ∃ c, List.filter (is_required r) (component_results bundle) = [c] ∧ pass c = Some true) ∧
     ∀ c, c ∈ component_results bundle →
       (component_class c = ComponentClass.MandatoryPass → pass c = Some true) ∧
       (component_class c = ComponentClass.HaltInput → pass c ≠ Some true)) ∧
  (evaluate bundle = Disposition.Approve →
     unresolved_mandatory bundle = 0 ∧ is_reproducible bundle = true) ∧
  (evaluate bundle = Disposition.MissingCapability ↔
     evidence_snapshot_ids bundle ≠ [] ∧
     (∃ n, as_object (source_freshness bundle) = Some n ∧ n ≠ 0) ∧
     missing_capabilities bundle ≠ []).
Proof.
  assert (evaluate bundle = Disposition.Approve ↔
     evidence_snapshot_ids bundle ≠ [] ∧
     (∃ n, as_object (source_freshness bundle) = Some n ∧ n ≠ 0) ∧
     missing_capabilities bundle = [] ∧
     required_rejects REQUIRED_MANDATORY (component_results bundle) = false ∧
     component_rejects (component_results bundle) = false) as Hap.
  { unfold evaluate. case_bool_decide; [naive_solver|].
    destruct (as_object _) as [n|]; [|naive_solver]. case_bool_decide; [naive_solver|].
    case_bool_decide; cbn [negb]; [|naive_solver].
    destruct (required_rejects _ _); [naive_solver|].
    destruct (component_rejects _); naive_solver. }
  split_and!.
  - by rewrite Hap, required_rejects_false, component_rejects_false.
  - intros (He & _ & _ & _ & Hc)%Hap. rewrite component_rejects_false in Hc. split.
    + unfold unresolved_mandatory. rewrite filter_none; [done|].
      intros c Hin. destruct (Hc c Hin) as [Hm _].
      case_bool_decide; [|done]. by rewrite bool_decide_eq_true_2 by auto.
    + unfold is_reproducible. by rewrite bool_decide_eq_false_2.
  - unfold evaluate. case_bool_decide; [naive_solver|].
    destruct (as_object _) as [n|]; [|naive_solver]. case_bool_decide; [naive_solver|].
    case_bool_decide; cbn [negb]; [|naive_solver].
    destruct (required_rejects _ _), (component_rejects _); naive_solver.
Qed.
End decision.
